(* ===== verification/_CoqProject ===== *)
-Q . S2P
Prelude.v
Bio.v
EspContext.v
Chunk.v
Hash.v
Host.v
TrafficSelector.v
Subnet.v
Scheduler.v
TaskManager.v
TaskManagerSpec.v
Gsup.v
GsupSpec.v
Hashtable.v
HashtableSpec.v
MemPool.v
MemPoolSpec.v
Epdg.v
EpdgSpec.v
Simaka.v
SimakaSpec.v
EapAka.v
EapAkaSpec.v
Ipa.v
IpaSpec.v
IkeSaManager.v
IkeSaManagerSpec.v
IkeSaManagerBooks.v
Bits.v
Payloads.v
Proposal.v
ProposalTypes.v
Selection.v
ProposalSpec.v
Parser.v
Generator.v
Encoding.v
ParserSpec.v
ParserComplete.v
GeneratorSpec.v
CodecSpec.v
Verify.v
EncryptedPayload.v
MessageRules.v
Message.v
MessageSafe.v
MessageWire.v
MessageSpec.v
Fragments.v
Reassembly.v
MessageClear.v
FragmentsSpec.v
