(* ===== verification/Prelude.v ===== *)
(** * Verification of the ePDG of docker_open5gs

    The repository deploys a 4G/5G core with containers; the C code in it is the
    evolved packet data gateway under src/osmoepdg/strongswan-epdg-src, a strongSwan
    IKE daemon (charon) with the plugin osmo_epdg. A phone connects over an untrusted
    network: IKEv2 messages reach the task manager of its IKE_SA, which authenticates the
    SIM against the home network through the GSUP client, gives it an address, and sets
    up an ESP tunnel. File names below are relative to strongswan-epdg-src/src.

    ** Parts and files

    - [Prelude] (this file): integers of a width as [Z] with their wrap-around, chunks
      (byte strings) as lists of [Z], tactics ([bool_to_prop], [case_if], [by_bytes]), the
      hint database [chunk], lemmas on byte strings and integers in network order.
    - [Bio]: libstrongswan/bio/bio_reader.c and bio_writer.c. Every read and write is a
      function; the growing buffer is its allocated bytes with the used length.
    - [Chunk], [Hash]: libstrongswan/utils/chunk.c: text encodings, comparison, counters;
      SipHash-2-4 and the internet checksum with their published definitions.
    - [Host]: libstrongswan/networking/host.c: family, address bytes and port.
    - [TrafficSelector], [Subnet]: libstrongswan/selectors/traffic_selector.c. A selector
      denotes a set of packets ([matches]); [Subnet] is about prefix lengths.
    - [Scheduler]: libstrongswan/processing/scheduler.c: the array heap, with bounds.
    - [EspContext]: libipsec/esp_context.c: sequence numbers and the replay window.
    - [Hashtable], [HashtableSpec]: libstrongswan/collections/hashtable.c: the items in
      their order of insertion, the table of indices of 8, 16 or 32 bits, and probing.
    - [MemPool], [MemPoolSpec]: libcharon/attributes/mem_pool.c: virtual addresses. Its
      hash table of leases is the ordered association list of [HashtableSpec]; the array of
      leases online (libstrongswan/collections/array.c) is kept with its unused room, and
      an operation that copies a lease from freed memory has no result.
    - [TaskManager], [TaskManagerSpec]: libcharon/sa/ikev2/task_manager_v2.c. The state is
      the record [task_manager] (struct private_task_manager_t); what it logs to, sends
      through and schedules on is a list of events. The tasks, the IKE_SA, messages and
      fragments are the class [Env], an interface that is not constrained by laws.
    - [Gsup], [GsupSpec]: libcharon/plugins/osmo_epdg/gsup_client.c. Callers, the sender
      ([queue_worker]) and the receiver ([on_recv_pdu]) are threads; a [step] of one of
      them goes from one lock operation to the next, a [run] is any sequence of steps. The
      requests are a heap with reference counts, so that a use after free is a result.
      libosmocore's messages are the class [Gsup].
    - [Epdg], [EpdgSpec]: the rest of libcharon/plugins/osmo_epdg: the subscribers
      (osmo_epdg_ue.c) with reference counts and locks, the database (osmo_epdg_db.c), the
      hooks of the daemon (osmo_epdg_listener.c) and the providers (osmo_epdg_provider.c).
      A handler is a [program] of calls on these objects; a [run] is any interleaving of
      the calls of any handlers.
    - [Ipa], [IpaSpec]: libcharon/plugins/osmo_epdg/ipa_client.c over the streams of
      libstrongswan/networking/streams/stream.c: reading and writing as functions of the
      octets that arrive in segments, and connecting as steps of the client, the
      reconnecting job, the watcher's callbacks and a sender. libosmocore's message
      buffers are the class [Osmocore] with the laws [OsmocoreLaws].
    - [Simaka], [SimakaSpec]: libsimaka/simaka_message.c: the messages of EAP-SIM and
      EAP-AKA. A message is its octets with the attributes parsed or added; its MAC, IV
      and encrypted data are places in the octets, as they are pointers in the code, and
      reading outside, reading freed memory and running on are results. The signer and
      the crypter are the class [SimakaCrypto], with the laws [CryptoLaws] for round trips.
    - [EapAka], [EapAkaSpec]: libcharon/plugins/eap_aka/eap_aka_server.c and the derivation
      of keys of libsimaka/simaka_crypto.c: the server's state and one function per
      message. Back ends and random numbers are the record [answers] of each step.

    - [IkeSaManager], [IkeSaManagerSpec], [IkeSaManagerBooks]: libcharon/sa/ike_sa_manager.c
      with the identifiers of ike_sa_id.c: the table from which threads check IKE_SAs out.
      Entries, with the threads that sleep on their condition variables, and IKE_SAs are
      heaps; a [step] is what a thread does between taking the lock of a segment and
      giving it back, a [run] any sequence of steps. [kept] is the invariant of the table,
      the entries and the threads, [books] that of the counters and hashes.

    - [Payloads], [Parser], [Generator]: libcharon/encoding. The payloads of IKE messages
      with the tables of encoding rules of libcharon/encoding/payloads, and parser.c and
      generator.c, which walk these tables. A payload is its members by name.
      [Encoding] says what the bits of a payload are ([Bits]) and which payloads are
      well-formed; [ParserSpec], [ParserComplete] and [GeneratorSpec] relate parser and
      generator to it, [CodecSpec] the two to each other.
    - [Verify], [EncryptedPayload]: the checks of the payloads (their [verify] methods) and
      encrypted_payload.c, with encrypted fragments. A transform (crypto/aead.h) is a
      record of functions [aead], without laws but where a theorem names them ([seals],
      [opens]).
    - [MessageRules], [Message]: libcharon/encoding/message.c: the tables of which payloads
      a message of an exchange may have and in which order, and generating, encrypting,
      parsing, decrypting and checking a message. The keys are the record [keymat].
      [MessageSafe] is about any octets that arrive, [MessageWire] and [MessageSpec] about
      protected messages end to end, [MessageClear] about those of IKE_SA_INIT.
    - [Fragments], [Reassembly], [FragmentsSpec]: the fragments of message.c: splitting a
      message for the size of datagrams, and putting fragments together again.
    - [Proposal], [ProposalTypes], [Selection], [ProposalSpec]:
      libstrongswan/crypto/proposal/proposal.c: proposals of algorithms with their sorted
      arrays of types, and their selection. [Selection] specifies what two proposals agree
      on, type by type. Keywords and the algorithms of plugins are arguments.

    The task manager runs on [Scheduler]'s clock type and uses [Host]'s addresses; the
    pool hashes peers with [Hash]; bytes are those of [Prelude] everywhere.

    ** What is shown

    - Messages once: a request is executed once and answered again from the stored packets
      ([TaskManagerSpec.request_executed_once]), if no task of it synchronizes message IDs
      or redirects the IKE_SA, which may move the window anywhere ([TaskLaws] is what is
      asked of the others); a broken request uses up a message ID whatever ID it has
      ([TaskManagerSpec.broken_request_moves_window]); no ESP packet is accepted twice and the window is that of RFC 4303
      ([EspContext.esp_no_replay], [esp_window_refines_spec]), no GSUP request is sent twice.
    - Exchanges: requests are retransmitted a bounded number of times, a response is only
      taken for the request in flight, tasks are activated by their priorities, a destroyed
      IKE_SA keeps no task, and [initiate] and [process_message] end.
    - Interleavings: no GSUP request is used after it was freed or leaks, a caller gets a
      response to its own request only, a response reaches a waiting caller; and a response
      that comes with the timeout blocks the client for good
      ([GsupSpec.timeout_blocks_receiver]). No subscriber is used after it was freed or
      leaks ([EpdgSpec.subscribers_balanced]), but a lock that is not given back stops its
      writers ([EpdgSpec.get_attributes_blocks_writers]).
    - The connection to the home network: messages arrive as they were sent, however few
      octets [send] takes and in whatever segments ([IpaSpec.messages_delivered]), requests for the identity are answered or
      end the daemon, the connection is always tended ([IpaSpec.connection_tended]), which
      does not help when the job and a callback wait for each other
      ([IpaSpec.reconnect_deadlocks]).
    - The IKE_SAs: one is held by one thread at a time, nothing is used after it was freed,
      no wake-up is lost ([IkeSaManagerSpec]); the counters of half-open IKE_SAs are right
      and an initial message makes one IKE_SA ([IkeSaManagerBooks]); but when no SPI can be
      had a mutex stays locked ([IkeSaManagerBooks.failed_spi_locks_segment]).
    - Authorisation: what the hooks accept and store, each running alone
      ([EpdgSpec.authorize_spec], [eap_authorize_spec]), that the address of the tunnel is
      the one that is assigned, that the options are decoded without reading outside of
      them, and that the identities of IKE and EAP are not compared.
    - IKE payloads: what is generated is parsed back, for every well-formed payload with
      its substructures ([CodecSpec.payload_roundtrip]); the parser ends and stays inside of
      any input, the generator inside of its buffer.
    - IKE messages: whatever octets arrive, parsing ends and reads nothing outside
      ([MessageSafe.message_parsing_ends]), and in an accepted message of a protected
      exchange every payload was authenticated ([MessageSafe.unprotected_refused]).
      Messages are read back as they were sent, protected ([MessageSpec.message_roundtrip]),
      in the clear ([MessageClear.clear_roundtrip]) and in fragments that come in any order
      and more than once ([FragmentsSpec.fragmented_roundtrip]). The payloads are those the
      rules allow, an encrypted payload is below 2^16 octets, no configuration payload is
      sent behind transform attributes (it would lose values), and a message needs no more
      fragments than a receiver takes, which the sender does not make sure of. A fragment
      with a smaller total has others merged without the first one
      ([FragmentsSpec.smaller_total_merges]).
    - Algorithms: from two lists of proposals the first pair that agrees is selected and the
      result is exactly the agreement ([ProposalSpec.proposal_select_agrees]); a peer cannot
      have the protection of an IKE_SA left out that is configured by keywords
      ([ike_selection_protects]); but AES-GMAC for AH is forgotten
      ([gmac_forgets_integrity]), and the default proposal for AEAD matches no peer that
      names sequence numbers ([default_aead_never_matches]).
    - EAP-AKA: the server succeeds only on an answer that is signed with the keys of the
      exchange and holds what a provider expects of exactly the reported identity, after
      at most seven rounds ([EapAkaSpec.success_is_authenticated], [exchange_is_bounded]).
      Messages are read back as they were generated; the parser stays inside of a message
      without empty attributes, and otherwise may run for ever ([SimakaSpec]).
    - Data structures against their specification: the hash table is an ordered map
      ([HashtableSpec.hashtable_refines_ordered_map]), the scheduler a priority queue, the
      writer a byte string, traffic selectors sets of packets; invariants of all reachable
      states ([hashtable_well_formed], [leases_unique], [types_kept]).
    - Addresses: every lease of a pool belongs to one identity, lies in the subnet, and is
      found again when it is released, unless the pool ends at the end of a /96; but a lease
      online that is acquired again is copied from freed memory if nothing was released
      ([MemPoolSpec.reassign_reads_freed_memory]). Two traffic selectors have their
      intersection as subset, but for small ports next to ICMP, which the constructor
      rewrites ([TrafficSelector.ts_get_subset_intersection]).
    - Round trips: wire formats, hexadecimal, base 64, subnets, pool offsets.

    ** Fuel and bounds

    Loops that are not structural have fuel and return [None] when it runs out, and a
    theorem says how much is enough: [find_key] and [rehash] take one step more than the
    table has rows, and an empty row is found within that many probes (the triangular
    numbers visit all rows of a power of two); the heap of the scheduler takes its depth;
    [initiate] starts over at most as often as its tasks have work left, and
    [process_message] nests at most once, for a message that was put together from
    fragments. The parser of EAP-AKA attributes takes one step more than it has octets, and
    [SimakaSpec.parse_attributes_unsafe] shows that no fuel is enough for an empty
    attribute. IKE payloads have four levels at most, security association, proposal,
    transform and attribute, and [CodecSpec.parse_stays_inside] shows that the parser needs
    no more for any input; each turn of its loop over a list consumes a byte, and so does each
    turn of the loops over the payloads of a message and of a plaintext. Splitting a message
    takes at most 65535 turns, one per fragment. The hash table is treated up to 2^30/3 insertions, beyond which
    the code refuses to grow. Integers are kept at their width ([u8], [u16], [u32], [u64],
    [s32]); sequence numbers, message IDs, offsets and sizes wrap as in C.

    ** Not modelled

    Allocation failures, logging and freeing (reference counts of GSUP requests apart); the
    build is that without the mediation extension. Tasks of authentication and key exchange
    and the kernel interfaces are behind [Env], for the task manager messages are, too; crypto
    primitives are arguments. Proposals are not converted from and to SA payloads. Of
    the IKE_SA manager checking out by configuration and name, the duplicate check, and
    shutting down are left out; that a thread changes an IKE_SA it holds without changing
    our SPI is a step of its own. Of EAP-AKA the manager of the back ends and the peer's
    side are left out. IKEv1, TLS, certificates,
    RADIUS, TNC and the control programs are not used by the deployment; its configuration
    files and the Erlang part of the gateway are not C. Make-before-break
    reauthentication, which creates a second IKE_SA, is left out of the task manager. *)

From Stdlib Require Export ZArith Lia Bool.
From stdpp Require Export prelude list.
#[global] Open Scope Z_scope.

(** * Machine integers *)

(** Unsigned wrap-around of a [w]-bit integer. *)
Definition wrap (w z : Z) : Z := z mod 2 ^ w.

Abbreviation u8 := (wrap 8).
Abbreviation u16 := (wrap 16).
Abbreviation u32 := (wrap 32).
Abbreviation u64 := (wrap 64).

(** Conversion to a signed [w]-bit integer (two's complement). *)
Definition swrap (w z : Z) : Z := (z + 2 ^ (w - 1)) mod 2 ^ w - 2 ^ (w - 1).

Abbreviation s32 := (swrap 32).

(** * Bytes and chunks *)

(** A [chunk_t] is its bytes; each byte is an integer between 0 and 255. *)
Abbreviation chunk := (list Z).

Definition byte_ok (b : Z) : Prop := 0 <= b < 256.
Abbreviation bytes_ok := (Forall byte_ok).

Definition len (c : chunk) : Z := Z.of_nat (length c).

#[global] Instance byte_ok_dec b : Decision (byte_ok b).
Proof. unfold byte_ok. apply _. Defined.

(** The integer a byte string denotes in network (big-endian) order, and the
    [n] low-order bytes of an integer in that order. *)
Fixpoint be_val (c : chunk) : Z :=
  match c with
  | [] => 0
  | b :: c' => b * 256 ^ len c' + be_val c'
  end.

Fixpoint be_bytes (n : nat) (v : Z) : chunk :=
  match n with
  | O => []
  | S m => (v / 256 ^ Z.of_nat m) mod 256 :: be_bytes m v
  end.

(** [chunk_skip]: drop leading bytes; the empty chunk when nothing is left. *)
Definition chunk_skip (c : chunk) (bytes : Z) : chunk :=
  if len c >? bytes then drop (Z.to_nat bytes) c else [].

(** C's [memcmp] on two buffers of the same length, as a sign. *)
Fixpoint memcmp (a b : chunk) : Z :=
  match a, b with
  | x :: a', y :: b' => if x <? y then -1 else if y <? x then 1 else memcmp a' b'
  | _, _ => 0
  end.

Definition memeq (a b : chunk) : bool := memcmp a b =? 0.

(** [pad_len]: bytes missing to the next multiple of [alignment]. *)
Definition pad_len (size alignment : Z) : Z :=
  let remainder := size mod alignment in
  if remainder =? 0 then 0 else alignment - remainder.

(** * Automation *)

(** Turns boolean comparisons in the context and the goal into propositions. *)
Ltac bool_to_prop :=
  repeat match goal with
  | H : (_ =? _) = true |- _ => apply Z.eqb_eq in H
  | H : (_ =? _) = false |- _ => apply Z.eqb_neq in H
  | H : (_ <? _) = true |- _ => apply Z.ltb_lt in H
  | H : (_ <? _) = false |- _ => apply Z.ltb_ge in H
  | H : (_ <=? _) = true |- _ => apply Z.leb_le in H
  | H : (_ <=? _) = false |- _ => apply Z.leb_gt in H
  | H : (_ >? _) = true |- _ => rewrite Z.gtb_ltb in H
  | H : (_ >? _) = false |- _ => rewrite Z.gtb_ltb in H
  | H : (_ >=? _) = true |- _ => rewrite Z.geb_leb in H
  | H : (_ >=? _) = false |- _ => rewrite Z.geb_leb in H
  | H : (_ && _)%bool = true |- _ => apply andb_prop in H; destruct H
  | H : (_ && _)%bool = false |- _ => apply andb_false_iff in H
  | H : (_ || _)%bool = true |- _ => apply orb_true_iff in H
  | H : (_ || _)%bool = false |- _ => apply orb_false_iff in H; destruct H
  | H : negb _ = true |- _ => apply negb_true_iff in H
  | H : negb _ = false |- _ => apply negb_false_iff in H
  end.

(** Case analysis on every boolean test of the goal. *)
Ltac case_if :=
  repeat match goal with
  | |- context [if ?b then _ else _] => destruct b eqn:?
  end; bool_to_prop.

(** Case analysis on the boolean tests of a hypothesis. *)
Ltac case_if_in H :=
  repeat match type of H with
  | context [if ?b then _ else _] => destruct b eqn:?
  end; bool_to_prop.

(** Division and remainder facts for [lia]/[nia]. *)
Ltac div_lia := Z.div_mod_to_equations; lia.
Ltac div_nia := Z.div_mod_to_equations; nia.

(** * Lemmas on integers *)

Lemma wrap_range w z : 0 <= w -> 0 <= wrap w z < 2 ^ w.
Proof. intros. apply Z.mod_pos_bound. lia. Qed.

Lemma wrap_small w z : 0 <= z < 2 ^ w -> wrap w z = z.
Proof. apply Z.mod_small. Qed.

Lemma wrap_idem w z : 0 <= w -> wrap w (wrap w z) = wrap w z.
Proof. intros. unfold wrap. apply Z.mod_mod. lia. Qed.

Lemma swrap_small w z : 0 < w -> - 2 ^ (w - 1) <= z < 2 ^ (w - 1) -> swrap w z = z.
Proof.
  intros Hw Hz. unfold swrap. rewrite Z.mod_small; [lia|].
  replace (2 ^ w) with (2 * 2 ^ (w - 1)); [lia|].
  rewrite <- Z.pow_succ_r by lia. f_equal. lia.
Qed.

Lemma pad_len_range size a : 0 < a -> 0 <= pad_len size a < a.
Proof.
  intros. unfold pad_len. pose proof (Z.mod_pos_bound size a).
  case_if; lia.
Qed.

Lemma pad_len_aligned size a : 0 < a -> (size + pad_len size a) mod a = 0.
Proof.
  intros Ha. unfold pad_len. case_if.
  - by rewrite Z.add_0_r.
  - rewrite (Z.div_mod size a) at 1 by lia.
    replace (a * (size / a) + size mod a + (a - size mod a))
      with ((size / a + 1) * a) by ring.
    apply Z.mod_mul; lia.
Qed.

(** * Lemmas on chunks *)

Lemma len_nonneg c : 0 <= len c.
Proof. unfold len. lia. Qed.

Lemma len_nil : len [] = 0.
Proof. done. Qed.

Lemma len_cons b c : len (b :: c) = 1 + len c.
Proof. unfold len. cbn [length]. lia. Qed.

Lemma len_app a b : len (a ++ b) = len a + len b.
Proof. unfold len. rewrite length_app. lia. Qed.

Lemma len_replicate n b : len (replicate n b) = Z.of_nat n.
Proof. unfold len. by rewrite length_replicate. Qed.

Lemma len_take n c : len (take n c) = Z.min (Z.of_nat n) (len c).
Proof. unfold len. rewrite length_take. lia. Qed.

Lemma len_drop n c : len (drop n c) = Z.max 0 (len c - Z.of_nat n).
Proof. unfold len. rewrite length_drop. lia. Qed.

Lemma len_insert i b c : len (<[i:=b]> c) = len c.
Proof. unfold len. by rewrite length_insert. Qed.

Lemma len_zero_inv c : len c = 0 -> c = [].
Proof. destruct c; [done|]. rewrite len_cons. pose proof (len_nonneg c). lia. Qed.

Lemma chunk_skip_spec c n : 0 <= n -> chunk_skip c n = drop (Z.to_nat n) c.
Proof.
  intros. unfold chunk_skip. case_if; [done|].
  symmetry. apply drop_ge. unfold len in *. lia.
Qed.

Lemma length_be_bytes n v : length (be_bytes n v) = n.
Proof. induction n; cbn; congruence. Qed.

Lemma len_be_bytes n v : len (be_bytes n v) = Z.of_nat n.
Proof. unfold len. by rewrite length_be_bytes. Qed.

Lemma be_bytes_ok n v : bytes_ok (be_bytes n v).
Proof.
  induction n; cbn; constructor; [|done].
  unfold byte_ok. apply Z.mod_pos_bound. lia.
Qed.

Lemma be_val_app a b : be_val (a ++ b) = be_val a * 256 ^ len b + be_val b.
Proof.
  induction a as [|x a IH]; cbn -[Z.mul]; [lia|].
  rewrite IH, len_app, Z.pow_add_r by apply len_nonneg. ring.
Qed.

Lemma be_val_range c : bytes_ok c -> 0 <= be_val c < 256 ^ len c.
Proof.
  induction 1 as [|b c Hb _ IH]; [rewrite len_nil; cbn; lia|].
  cbn [be_val]. rewrite len_cons, Z.pow_add_r by (pose proof (len_nonneg c); lia).
  unfold byte_ok in Hb. nia.
Qed.

Lemma be_val_be_bytes n v : be_val (be_bytes n v) = v mod 256 ^ Z.of_nat n.
Proof.
  induction n as [|n IH]; [by rewrite Z.mod_1_r|].
  cbn [be_val be_bytes]. rewrite IH, len_be_bytes, Nat2Z.inj_succ, Z.pow_succ_r by lia.
  rewrite (Z.mul_comm 256), Z.rem_mul_r by lia. lia.
Qed.

Lemma be_bytes_mod n v : be_bytes n (v mod 256 ^ Z.of_nat n) = be_bytes n v.
Proof.
  assert (H : forall m, (n <= m)%nat ->
            be_bytes n (v mod 256 ^ Z.of_nat m) = be_bytes n v); [|by apply H].
  induction n as [|n IH]; intros m Hm; [done|]. cbn. f_equal; [|by apply IH; lia].
  replace (256 ^ Z.of_nat m) with (256 ^ Z.of_nat n * (256 * 256 ^ Z.of_nat (m - S n))).
  - rewrite Z.rem_mul_r, (Z.mul_comm (256 ^ Z.of_nat n)), Z.div_add by lia.
    rewrite Z.div_small by (apply Z.mod_pos_bound; lia). rewrite Z.add_0_l.
    rewrite Z.rem_mul_r by lia. rewrite (Z.mul_comm 256 (_ mod _)), Z.mod_add by lia.
    by rewrite Z.mod_mod by lia.
  - replace (Z.of_nat m) with (Z.of_nat n + (1 + Z.of_nat (m - S n))) by lia.
    rewrite !Z.pow_add_r by lia. ring.
Qed.

Lemma be_bytes_app n a b :
  0 <= b < 256 ^ Z.of_nat n ->
  forall m, be_bytes (m + n) (a * 256 ^ Z.of_nat n + b) = be_bytes m a ++ be_bytes n b.
Proof.
  intros Hb m. induction m as [|m IH]; cbn.
  - rewrite <- (be_bytes_mod n (_ + _)), Z.add_comm, Z.mod_add, Z.mod_small by lia. done.
  - f_equal; [|done]. f_equal.
    rewrite Nat2Z.inj_add, Z.pow_add_r by lia.
    rewrite (Z.mul_comm (256 ^ Z.of_nat m)), <- Z.div_div by lia.
    rewrite Z.div_add_l, (Z.div_small b) by lia. by rewrite Z.add_0_r.
Qed.

Lemma be_bytes_be_val c : bytes_ok c -> be_bytes (length c) (be_val c) = c.
Proof.
  induction 1 as [|b c Hb Hc IH]; [done|].
  replace (length (b :: c)) with (1 + length c)%nat by done.
  cbn [be_val]. unfold len. rewrite be_bytes_app; [|by apply be_val_range].
  rewrite IH. cbn. rewrite Z.div_1_r, Z.mod_small by done. done.
Qed.

Lemma be_val_inj a b :
  bytes_ok a -> bytes_ok b -> length a = length b -> be_val a = be_val b -> a = b.
Proof.
  intros Ha Hb Hl Hv. rewrite <- (be_bytes_be_val a), <- (be_bytes_be_val b) by done.
  by rewrite Hl, Hv.
Qed.

(** On buffers of one length, [memcmp] is the comparison of the integers they denote. *)
Lemma memcmp_be_val a b :
  bytes_ok a -> bytes_ok b -> length a = length b ->
  memcmp a b = match be_val a ?= be_val b with Lt => -1 | Eq => 0 | Gt => 1 end.
Proof.
  intros Ha. revert b. induction Ha as [|x a Hx Ha IH]; intros [|y b] Hb Hl; try done.
  inversion Hb as [|? ? Hy Hb']; subst. injection Hl as Hl.
  cbn [memcmp be_val]. rewrite (IH b) by done.
  assert (len a = len b) as Hlen by (unfold len; lia). rewrite Hlen.
  pose proof (be_val_range a Ha) as Ra. pose proof (be_val_range b Hb') as Rb.
  rewrite Hlen in Ra. unfold byte_ok in *. case_if.
  - destruct (Z.compare_spec (x * 256 ^ len b + be_val a) (y * 256 ^ len b + be_val b)); nia.
  - destruct (Z.compare_spec (x * 256 ^ len b + be_val a) (y * 256 ^ len b + be_val b)); nia.
  - assert (x = y) as -> by lia.
    destruct (Z.compare_spec (be_val a) (be_val b));
      destruct (Z.compare_spec (y * 256 ^ len b + be_val a) (y * 256 ^ len b + be_val b)); lia.
Qed.

Lemma memcmp_refl a : memcmp a a = 0.
Proof. induction a; cbn; [done|]. rewrite Z.ltb_irrefl. done. Qed.

Lemma memeq_spec a b : length a = length b -> memeq a b = true <-> a = b.
Proof.
  unfold memeq. rewrite Z.eqb_eq. revert b. induction a as [|x a IH]; intros [|y b] Hl; try done.
  injection Hl as Hl. cbn. case_if; [split; [lia|]|split; [lia|]|].
  - intros [= ->]. lia.
  - intros [= ->]. lia.
  - rewrite IH by done. assert (x = y) as -> by lia. naive_solver.
Qed.

Lemma bytes_ok_app a b : bytes_ok (a ++ b) <-> bytes_ok a /\ bytes_ok b.
Proof. apply Forall_app. Qed.

Lemma bytes_ok_drop n c : bytes_ok c -> bytes_ok (drop n c).
Proof. apply Forall_drop. Qed.

Lemma bytes_ok_take n c : bytes_ok c -> bytes_ok (take n c).
Proof. apply Forall_take. Qed.

(** * Finite case analysis *)

(** A boolean property of bytes (of pairs of bytes) holds if it computes to
    [true] on each of them. *)
Lemma byte_exhaust (p : Z -> bool) b :
  forallb p (seqZ 0 256) = true -> byte_ok b -> p b = true.
Proof.
  intros H Hb. rewrite forallb_forall in H. apply H.
  apply list_elem_of_In, elem_of_seqZ. unfold byte_ok in Hb. lia.
Qed.

Lemma byte_exhaust2 (p : Z -> Z -> bool) a b :
  forallb (fun a => forallb (p a) (seqZ 0 256)) (seqZ 0 256) = true ->
  byte_ok a -> byte_ok b -> p a b = true.
Proof.
  intros H Ha Hb. apply (byte_exhaust _ a) in H; [|done].
  by apply (byte_exhaust _ b) in H.
Qed.

(** Proves a boolean goal about one byte (two bytes) by computing all cases. *)
Ltac by_bytes b Hb :=
  match goal with
  | |- ?g = true =>
    let p := eval pattern b in g in
    match p with ?f b => refine (byte_exhaust f b _ Hb); vm_compute; reflexivity end
  end.

Ltac by_bytes2 a Ha b Hb :=
  match goal with
  | |- ?g = true =>
    let p := eval pattern a, b in g in
    match p with ?f a b => refine (byte_exhaust2 f a b _ Ha Hb); vm_compute; reflexivity end
  end.

(** * Hint databases *)

Create HintDb chunk.
#[export] Hint Rewrite len_nil len_cons len_app len_replicate len_insert len_be_bytes
  length_be_bytes : chunk.
#[export] Hint Resolve len_nonneg be_bytes_ok bytes_ok_drop bytes_ok_take : chunk.
