(* ===== verification/Bio.v ===== *)
(** The byte-string reader and writer of libstrongswan/bio: [Reader] models
    bio_reader.c, [Writer] models bio_writer.c. Every wire format of the daemon
    (ESP, EAP, TLS, RADIUS) is parsed and generated through these two objects. *)

From S2P Require Import Prelude.

(** * The reader *)

Module Reader.

(** A reader's state is the data left to process. A method returns its result,
    [None] for [FALSE], together with the state it leaves behind: a failed
    method may have consumed its length prefix. *)
Definition M (A : Type) : Type := chunk -> option A * chunk.

Definition ret {A} (x : A) : M A := fun c => (Some x, c).
Definition fail {A} : M A := fun c => (None, c).
Definition bind {A B} (m : M A) (f : A -> M B) : M B := fun c =>
  match m c with
  | (Some x, c') => f x c'
  | (None, c') => (None, c')
  end.

#[local] Notation "'let!' x ':=' m 'in' k" := (bind m (fun x => k))
  (at level 200, x name, m at level 100, k at level 200).

Definition remaining (this : chunk) : Z := u32 (len this).
Definition peek (this : chunk) : chunk := this.

Definition chunk_skip_end (c : chunk) (bytes : Z) (from_end : bool) : chunk :=
  if len c >? bytes
  then if from_end then take (Z.to_nat (len c - bytes)) c else drop (Z.to_nat bytes) c
  else [].

(** The data from the returned pointer on. *)
Definition get_ptr_end (this : chunk) (n : Z) (from_end : bool) : chunk :=
  if from_end then drop (Z.to_nat (len this - n)) this else this.

(** The common body of the fixed-width reads: [n] bytes in network order. *)
Definition read_fixed (n : Z) (from_end : bool) : M Z := fun this =>
  if len this <? n then (None, this)
  else (Some (be_val (take (Z.to_nat n) (get_ptr_end this n from_end))),
        chunk_skip_end this n from_end).

Definition read_uint8_internal := read_fixed 1.
Definition read_uint16_internal := read_fixed 2.
Definition read_uint24_internal := read_fixed 3.
Definition read_uint32_internal := read_fixed 4.
Definition read_uint64_internal := read_fixed 8.

Definition read_data_internal (n : Z) (from_end : bool) : M chunk := fun this =>
  if len this <? n then (None, this)
  else (Some (take (Z.to_nat n) (get_ptr_end this n from_end)),
        chunk_skip_end this n from_end).

Definition read_uint8 : M Z := read_uint8_internal false.
Definition read_uint16 : M Z := read_uint16_internal false.
Definition read_uint24 : M Z := read_uint24_internal false.
Definition read_uint32 : M Z := read_uint32_internal false.
Definition read_uint64 : M Z := read_uint64_internal false.
Definition read_data (n : Z) : M chunk := read_data_internal n false.
Definition read_uint8_end : M Z := read_uint8_internal true.
Definition read_uint16_end : M Z := read_uint16_internal true.
Definition read_uint24_end : M Z := read_uint24_internal true.
Definition read_uint32_end : M Z := read_uint32_internal true.
Definition read_uint64_end : M Z := read_uint64_internal true.
Definition read_data_end (n : Z) : M chunk := read_data_internal n true.

Definition read_data8 : M chunk := let! n := read_uint8 in read_data n.
Definition read_data16 : M chunk := let! n := read_uint16 in read_data n.
Definition read_data24 : M chunk := let! n := read_uint24 in read_data n.
Definition read_data32 : M chunk := let! n := read_uint32 in read_data n.

(** ** Laws of the reader *)

Lemma chunk_skip_end_front a b :
  chunk_skip_end (a ++ b) (len a) false = b.
Proof.
  unfold chunk_skip_end. rewrite len_app. case_if.
  - rewrite drop_app_length' by (unfold len; lia). done.
  - symmetry. apply len_zero_inv. pose proof (len_nonneg b). lia.
Qed.

Lemma chunk_skip_end_back a b :
  chunk_skip_end (a ++ b) (len b) true = a.
Proof.
  unfold chunk_skip_end. rewrite len_app. case_if.
  - rewrite take_app_length' by (unfold len; lia). done.
  - symmetry. apply len_zero_inv. pose proof (len_nonneg a). lia.
Qed.

Lemma get_ptr_end_back a b : get_ptr_end (a ++ b) (len b) true = b.
Proof.
  unfold get_ptr_end. rewrite len_app, drop_app_length' by (unfold len; lia). done.
Qed.

Lemma take_front a b : take (Z.to_nat (len a)) (a ++ b) = a.
Proof. rewrite take_app_length' by (unfold len; lia). done. Qed.

Lemma read_data_app n a b :
  len a = n -> read_data n (a ++ b) = (Some a, b).
Proof.
  intros <-. unfold read_data, read_data_internal.
  rewrite chunk_skip_end_front. cbn [get_ptr_end]. rewrite take_front, len_app.
  pose proof (len_nonneg b). case_if; [lia|done].
Qed.

Lemma read_data_end_app n a b :
  len b = n -> read_data_end n (a ++ b) = (Some b, a).
Proof.
  intros <-. unfold read_data_end, read_data_internal.
  rewrite chunk_skip_end_back, get_ptr_end_back, len_app.
  replace (take _ b) with b by (rewrite take_ge; [done|unfold len; lia]).
  pose proof (len_nonneg a). case_if; [lia|done].
Qed.

Lemma read_fixed_app n v b :
  read_fixed (Z.of_nat n) false (be_bytes n v ++ b) = (Some (v mod 256 ^ Z.of_nat n), b).
Proof.
  unfold read_fixed. rewrite <- (len_be_bytes n v), chunk_skip_end_front.
  cbn [get_ptr_end]. rewrite take_front, len_app.
  pose proof (len_nonneg b). case_if; [lia|].
  by rewrite be_val_be_bytes, len_be_bytes.
Qed.

Lemma read_fixed_end_app n v b :
  read_fixed (Z.of_nat n) true (b ++ be_bytes n v) = (Some (v mod 256 ^ Z.of_nat n), b).
Proof.
  unfold read_fixed. rewrite <- (len_be_bytes n v), chunk_skip_end_back, get_ptr_end_back.
  rewrite len_app. pose proof (len_nonneg b). case_if; [lia|].
  rewrite take_ge by (unfold len; lia). by rewrite be_val_be_bytes, len_be_bytes.
Qed.

(** A fixed-width read succeeds exactly when enough bytes are left, and a failed
    one leaves the reader untouched. *)
Lemma read_fixed_fails n from_end c :
  fst (read_fixed n from_end c) = None <-> len c < n.
Proof. unfold read_fixed. case_if; split; naive_solver lia. Qed.

Lemma read_fixed_fail_state n from_end c :
  fst (read_fixed n from_end c) = None -> snd (read_fixed n from_end c) = c.
Proof. unfold read_fixed. case_if; naive_solver. Qed.

End Reader.

(** * The memory allocator *)

(** [malloc] and [realloc] are the C library's. Fresh bytes have unspecified
    contents, so they are operations of an interface rather than definitions. *)
Class Alloc := {
  malloc : Z -> chunk;
  realloc : chunk -> Z -> chunk;
}.

(** What the C library documents: the block has the requested size, and
    [realloc] preserves the contents up to the smaller of the two sizes. *)
Class AllocOk (A : Alloc) : Prop := {
  malloc_len n : 0 <= n -> len (malloc n) = n;
  realloc_len c n : 0 <= n -> len (realloc c n) = n;
  realloc_keeps c n i : 0 <= i <= len c -> i <= n ->
    take (Z.to_nat i) (realloc c n) = take (Z.to_nat i) c;
}.

(** An allocator that hands out zeroed memory. *)
#[export] Instance zero_alloc : Alloc := {|
  malloc n := replicate (Z.to_nat n) 0;
  realloc c n := take (Z.to_nat n) c ++ replicate (Z.to_nat (n - len c)) 0;
|}.

#[export] Instance zero_alloc_ok : AllocOk zero_alloc.
Proof.
  split; cbn.
  - intros. rewrite len_replicate. lia.
  - intros. rewrite len_app, len_take, len_replicate. lia.
  - intros c n i Hi Hn. rewrite take_app_le by (rewrite length_take; unfold len in *; lia).
    rewrite take_take. f_equal. lia.
Qed.

(** * The writer *)

Create HintDb bio.

Module Writer.

Record bio_writer := {
  buf : chunk;       (** allocated buffer *)
  used : Z;          (** used bytes in [buf] *)
  increase_by : Z;   (** number of bytes to increase the buffer size by *)
}.

(** Overwrites the bytes of [c] from offset [pos] on: [memcpy(c + pos, d)]. *)
Definition splice (c : chunk) (pos : Z) (d : chunk) : chunk :=
  take (Z.to_nat pos) c ++ d ++ drop (Z.to_nat (pos + len d)) c.

Section Ops.
Context {A : Alloc}.

Definition bio_writer_create (bufsize : Z) : bio_writer := {|
  buf := if bufsize =? 0 then [] else malloc bufsize;
  used := 0;
  increase_by := if bufsize =? 0 then 32 else Z.max bufsize 4;
|}.

(** The loop of [increase]: the size to reallocate to. *)
Fixpoint grow (fuel : nat) (need size step : Z) : Z :=
  match fuel with
  | O => size
  | S fuel => if need >? size then grow fuel need (size + step) step else size
  end.

Definition increase (this : bio_writer) (required : Z) : bio_writer :=
  let need := used this + required in
  if need >? len (buf this) then
    {| buf := realloc (buf this)
                (grow (Z.to_nat (need - len (buf this))) need
                      (len (buf this)) (increase_by this));
       used := used this; increase_by := increase_by this |}
  else this.

(** Stores [d] at the write position, after making room for it. *)
Definition put (this : bio_writer) (d : chunk) : bio_writer :=
  let this := increase this (len d) in
  {| buf := splice (buf this) (used this) d;
     used := used this + len d; increase_by := increase_by this |}.

Definition write_uint8 (this : bio_writer) (value : Z) := put this (be_bytes 1 value).
Definition write_uint16 (this : bio_writer) (value : Z) := put this (be_bytes 2 value).
Definition write_uint24 (this : bio_writer) (value : Z) := put this (be_bytes 3 value).
Definition write_uint32 (this : bio_writer) (value : Z) := put this (be_bytes 4 value).
Definition write_uint64 (this : bio_writer) (value : Z) := put this (be_bytes 8 value).
Definition write_data (this : bio_writer) (value : chunk) := put this value.

Definition write_data8 (this : bio_writer) (value : chunk) : bio_writer :=
  write_data (write_uint8 (increase this (1 + len value)) (len value)) value.
Definition write_data16 (this : bio_writer) (value : chunk) : bio_writer :=
  write_data (write_uint16 (increase this (2 + len value)) (len value)) value.
Definition write_data24 (this : bio_writer) (value : chunk) : bio_writer :=
  write_data (write_uint24 (increase this (3 + len value)) (len value)) value.
Definition write_data32 (this : bio_writer) (value : chunk) : bio_writer :=
  write_data (write_uint32 (increase this (4 + len value)) (len value)) value.

(** The common body of the wraps: move the used bytes up by [n] and store their
    length in front of them. *)
Definition wrap_fixed (n : nat) (this : bio_writer) : bio_writer :=
  let this := increase this (Z.of_nat n) in
  let moved := splice (buf this) (Z.of_nat n) (take (Z.to_nat (used this)) (buf this)) in
  {| buf := splice moved 0 (be_bytes n (used this));
     used := used this + Z.of_nat n; increase_by := increase_by this |}.

Definition wrap8 := wrap_fixed 1.
Definition wrap16 := wrap_fixed 2.
Definition wrap24 := wrap_fixed 3.
Definition wrap32 := wrap_fixed 4.

(** [skip] hands out the skipped bytes, whose contents the caller fills in
    through the returned pointer: their offset and length in the buffer. *)
Definition skip (this : bio_writer) (n : Z) : (Z * Z) * bio_writer :=
  let this := increase this n in
  ((used this, n),
   {| buf := buf this; used := used this + n; increase_by := increase_by this |}).

(** The caller's stores through a pointer [skip] or [get_buf] returned. *)
Definition store (this : bio_writer) (pos : Z) (d : chunk) : bio_writer :=
  {| buf := splice (buf this) pos d; used := used this; increase_by := increase_by this |}.

Definition get_buf (this : bio_writer) : chunk := take (Z.to_nat (used this)) (buf this).

Definition extract_buf (this : bio_writer) : chunk * bio_writer :=
  (get_buf this, {| buf := []; used := 0; increase_by := increase_by this |}).

(** ** Well-formedness, and the byte string a writer stands for *)

Definition wf (this : bio_writer) : Prop :=
  0 <= used this <= len (buf this) /\ 0 < increase_by this.

(** The writer stands for the byte string [c]. *)
Definition holds (this : bio_writer) (c : chunk) : Prop := wf this /\ get_buf this = c.

Context {AO : AllocOk A}.

Lemma splice_len c pos d :
  0 <= pos -> pos + len d <= len c -> len (splice c pos d) = len c.
Proof.
  intros. unfold splice. rewrite !len_app, len_take, len_drop.
  pose proof (len_nonneg d). lia.
Qed.

Lemma splice_take c pos d :
  0 <= pos -> pos + len d <= len c ->
  take (Z.to_nat (pos + len d)) (splice c pos d) = take (Z.to_nat pos) c ++ d.
Proof.
  intros. unfold splice. rewrite (assoc_L (++)).
  pose proof (len_nonneg d). rewrite take_app_length'; [done|].
  rewrite length_app, length_take. unfold len in *. lia.
Qed.

Lemma grow_enough fuel need size step :
  0 < step -> need - size <= Z.of_nat fuel -> need <= grow fuel need size step.
Proof.
  intros Hs. revert size. induction fuel as [|fuel IH]; intros size Hf; cbn; [lia|].
  case_if; [apply IH; lia|lia].
Qed.

Lemma grow_ge fuel need size step : 0 < step -> size <= grow fuel need size step.
Proof.
  intros Hs. revert size. induction fuel as [|fuel IH]; intros size; cbn; [lia|].
  case_if; [|lia]. specialize (IH (size + step)). lia.
Qed.

Lemma holds_create n : 0 <= n -> holds (bio_writer_create n) [].
Proof.
  intros. unfold bio_writer_create, holds, wf, get_buf. cbn.
  case_if; cbn; rewrite ?take_0; repeat split; rewrite ?malloc_len by lia; rewrite ?len_nil; lia.
Qed.

Lemma increase_spec this c n :
  0 <= n -> holds this c ->
  holds (increase this n) c /\ used (increase this n) = used this /\
  used this + n <= len (buf (increase this n)) /\
  increase_by (increase this n) = increase_by this.
Proof.
  intros Hn [[Hu Hi] Hb]. unfold increase. case_if; [|repeat split; first [done|lia]].
  cbn. set (sz := grow _ _ _ _).
  assert (used this + n <= sz) as Hsz by (apply grow_enough; lia).
  pose proof (len_nonneg (buf this)).
  repeat split; cbn; rewrite ?realloc_len by lia; try lia.
  unfold get_buf. cbn. rewrite realloc_keeps by lia. done.
Qed.

Lemma holds_put this c d : holds this c -> holds (put this d) (c ++ d).
Proof.
  intros H. pose proof (len_nonneg d).
  destruct (increase_spec this c (len d)) as ([[Hu Hi] Hb] & E1 & E2 & E3); [done..|].
  rewrite E1 in *. unfold put, holds, wf, get_buf in *. cbn. rewrite E1 in *.
  repeat split; rewrite ?splice_len by lia; try lia.
  rewrite splice_take by lia. congruence.
Qed.

Lemma holds_used this c : holds this c -> used this = len c.
Proof. intros [[Hu _] <-]. unfold get_buf. rewrite len_take. lia. Qed.

Lemma holds_increase this c n : 0 <= n -> holds this c -> holds (increase this n) c.
Proof. intros. by apply increase_spec. Qed.

Lemma holds_wrap_fixed n this c :
  holds this c -> holds (wrap_fixed n this) (be_bytes n (len c) ++ c).
Proof.
  intros H. pose proof (holds_used _ _ H) as Hc. pose proof (len_nonneg c).
  destruct (increase_spec this c (Z.of_nat n)) as ([[Hu Hi] Hb] & E1 & E2 & E3); [lia|done|].
  unfold wrap_fixed, holds, wf. unfold get_buf in *. cbn.
  rewrite E1 in *. rewrite Hb, Hc in *.
  set (b := buf (increase this (Z.of_nat n))) in *.
  assert (len (splice b (Z.of_nat n) c) = len b) as L by (apply splice_len; lia).
  repeat split; try lia.
  - rewrite splice_len; rewrite ?len_be_bytes; lia.
  - unfold splice at 1. rewrite Z2Nat.inj_0, take_0. cbn [app].
    rewrite len_be_bytes, Z.add_0_l, Nat2Z.id.
    replace (Z.to_nat (len c + Z.of_nat n)) with (length (be_bytes n (len c)) + length c)%nat
      by (rewrite length_be_bytes; unfold len in *; lia).
    rewrite take_app_add. f_equal. unfold splice.
    rewrite drop_app_length' by (rewrite length_take; unfold len in *; lia).
    rewrite take_app_length' by lia. done.
Qed.

End Ops.

#[export] Hint Resolve holds_put holds_increase holds_wrap_fixed holds_create : bio.

End Writer.

(** * Messages as sequences of fields *)

Module Fields.
Import Reader Writer.

(** The fields a message is made of, one constructor per pair of a [write_*] and
    a [read_*] method; [Raw] is data whose length both sides know. *)
Inductive field :=
  | U8 (v : Z) | U16 (v : Z) | U24 (v : Z) | U32 (v : Z) | U64 (v : Z)
  | Raw (c : chunk)
  | Data8 (c : chunk) | Data16 (c : chunk) | Data24 (c : chunk) | Data32 (c : chunk).

(** The values the wire format can carry. *)
Definition field_ok (f : field) : Prop :=
  match f with
  | U8 v => 0 <= v < 2 ^ 8 | U16 v => 0 <= v < 2 ^ 16 | U24 v => 0 <= v < 2 ^ 24
  | U32 v => 0 <= v < 2 ^ 32 | U64 v => 0 <= v < 2 ^ 64
  | Raw _ => True
  | Data8 c => len c < 2 ^ 8 | Data16 c => len c < 2 ^ 16
  | Data24 c => len c < 2 ^ 24 | Data32 c => len c < 2 ^ 32
  end.

(** The bytes of a field on the wire. *)
Definition encode (f : field) : chunk :=
  match f with
  | U8 v => be_bytes 1 v | U16 v => be_bytes 2 v | U24 v => be_bytes 3 v
  | U32 v => be_bytes 4 v | U64 v => be_bytes 8 v
  | Raw c => c
  | Data8 c => be_bytes 1 (len c) ++ c | Data16 c => be_bytes 2 (len c) ++ c
  | Data24 c => be_bytes 3 (len c) ++ c | Data32 c => be_bytes 4 (len c) ++ c
  end.

Definition write_field `{Alloc} (w : bio_writer) (f : field) : bio_writer :=
  match f with
  | U8 v => write_uint8 w v | U16 v => write_uint16 w v | U24 v => write_uint24 w v
  | U32 v => write_uint32 w v | U64 v => write_uint64 w v
  | Raw c => write_data w c
  | Data8 c => write_data8 w c | Data16 c => write_data16 w c
  | Data24 c => write_data24 w c | Data32 c => write_data32 w c
  end.

(** Reads a field of the kind of [f] (of its length, for [Raw]). *)
Definition read_like (f : field) : M field :=
  match f with
  | U8 _ => bind read_uint8 (fun v => ret (U8 v))
  | U16 _ => bind read_uint16 (fun v => ret (U16 v))
  | U24 _ => bind read_uint24 (fun v => ret (U24 v))
  | U32 _ => bind read_uint32 (fun v => ret (U32 v))
  | U64 _ => bind read_uint64 (fun v => ret (U64 v))
  | Raw c => bind (read_data (len c)) (fun d => ret (Raw d))
  | Data8 _ => bind read_data8 (fun d => ret (Data8 d))
  | Data16 _ => bind read_data16 (fun d => ret (Data16 d))
  | Data24 _ => bind read_data24 (fun d => ret (Data24 d))
  | Data32 _ => bind read_data32 (fun d => ret (Data32 d))
  end.

Fixpoint read_all (fs : list field) : M (list field) :=
  match fs with
  | [] => ret []
  | f :: fs => bind (read_like f) (fun f' => bind (read_all fs) (fun fs' => ret (f' :: fs')))
  end.

(** A client's operations on a writer. *)
Inductive op :=
  | Write (f : field)
  | Wrap (n : nat)              (** [wrap8], [wrap16], [wrap24], [wrap32] for [n] = 1..4 *)
  | SkipFill (d : chunk).       (** [skip], then fill in the skipped bytes *)

Definition exec `{Alloc} (w : bio_writer) (o : op) : bio_writer :=
  match o with
  | Write f => write_field w f
  | Wrap n => wrap_fixed n w
  | SkipFill d => let '((pos, _), w) := skip w (len d) in store w pos d
  end.

(** What a writer promises: the bytes it has been given, in order. *)
Definition spec (c : chunk) (o : op) : chunk :=
  match o with
  | Write f => c ++ encode f
  | Wrap n => be_bytes n (len c) ++ c
  | SkipFill d => c ++ d
  end.

Section Proofs.
Context {A : Alloc} {AO : AllocOk A}.

Lemma holds_write_field w c f : holds w c -> holds (write_field w f) (c ++ encode f).
Proof.
  intros H. destruct f as [v|v|v|v|v|d|d|d|d|d]; cbn [write_field encode]; rewrite ?(assoc_L (++));
    repeat apply holds_put; try done;
    apply holds_increase; try done; pose proof (len_nonneg d); lia.
Qed.

Lemma holds_skip_fill w c d : holds w c -> holds (exec w (SkipFill d)) (c ++ d).
Proof. intros H. exact (holds_put w c d H). Qed.

Lemma holds_exec w c o : holds w c -> holds (exec w o) (spec c o).
Proof. destruct o; eauto using holds_write_field, holds_wrap_fixed, holds_skip_fill. Qed.

Lemma holds_fold w c os : holds w c -> holds (foldl exec w os) (foldl spec c os).
Proof. revert w c. induction os; cbn; eauto using holds_exec. Qed.

Lemma read_fixed_ok n v rest m :
  m = 256 ^ Z.of_nat n -> 0 <= v < m ->
  read_fixed (Z.of_nat n) false (be_bytes n v ++ rest) = (Some v, rest).
Proof. intros -> Hv. rewrite read_fixed_app, Z.mod_small by done. done. Qed.

Lemma read_data_fixed n (c rest : chunk) m :
  m = 256 ^ Z.of_nat n -> len c < m ->
  bind (read_fixed (Z.of_nat n) false) read_data (be_bytes n (len c) ++ c ++ rest)
  = (Some c, rest).
Proof.
  intros Hm Hv. unfold bind. pose proof (len_nonneg c).
  erewrite read_fixed_ok by (done || lia). by apply read_data_app.
Qed.

(** Uses a law stated on the common body for the method that has it. *)
Ltac by_read_law law method :=
  let E := fresh in
  pose proof law as E;
  match type of E with
  | ?m ?c = _ => change (m c) with (method c) in E
  end;
  rewrite E; done.

Lemma read_like_encode f rest :
  field_ok f -> read_like f (encode f ++ rest) = (Some f, rest).
Proof.
  destruct f as [v|v|v|v|v|c|c|c|c|c]; cbn [read_like encode field_ok]; intros Hf;
    rewrite <- ?(assoc_L (++)); unfold bind at 1.
  - by_read_law (read_fixed_ok 1 v rest _ eq_refl Hf) read_uint8.
  - by_read_law (read_fixed_ok 2 v rest _ eq_refl Hf) read_uint16.
  - by_read_law (read_fixed_ok 3 v rest _ eq_refl Hf) read_uint24.
  - by_read_law (read_fixed_ok 4 v rest _ eq_refl Hf) read_uint32.
  - by_read_law (read_fixed_ok 8 v rest _ eq_refl Hf) read_uint64.
  - by rewrite read_data_app by done.
  - by_read_law (read_data_fixed 1 c rest _ eq_refl Hf) read_data8.
  - by_read_law (read_data_fixed 2 c rest _ eq_refl Hf) read_data16.
  - by_read_law (read_data_fixed 3 c rest _ eq_refl Hf) read_data24.
  - by_read_law (read_data_fixed 4 c rest _ eq_refl Hf) read_data32.
Qed.

Lemma read_all_encode fs rest :
  Forall field_ok fs -> read_all fs (concat (encode <$> fs) ++ rest) = (Some fs, rest).
Proof.
  induction 1 as [|f fs Hf _ IH]; [done|]. cbn [read_all fmap list_fmap concat].
  rewrite <- (assoc_L (++)). unfold bind at 1. rewrite read_like_encode by done.
  unfold bind. cbn in IH. rewrite IH. done.
Qed.

Lemma spec_writes fs c :
  foldl spec c (Write <$> fs) = c ++ concat (encode <$> fs).
Proof.
  revert c. induction fs as [|f fs IH]; intros c; cbn; [by rewrite app_nil_r|].
  by rewrite IH, (assoc_L (++)).
Qed.

End Proofs.
End Fields.

(** * Properties *)

Import Reader Writer Fields.

(** What is written is what is read. A message generated field by field with
    the [write_*] methods of a writer of any initial size, however often its
    buffer is reallocated, is read back field by field by the matching [read_*]
    methods, and the reader is left with exactly the data that followed it. *)
Theorem bio_write_read_roundtrip (A : Alloc) (AO : AllocOk A)
    (bufsize : Z) (fs : list field) (rest : chunk) :
  0 <= bufsize -> Forall field_ok fs ->
  read_all fs (get_buf (foldl exec (bio_writer_create bufsize) (Write <$> fs)) ++ rest)
  = (Some fs, rest).
Proof.
  intros Hn Hf. destruct (holds_fold _ [] (Write <$> fs) (holds_create bufsize Hn)) as [_ ->].
  rewrite spec_writes. by apply read_all_encode.
Qed.

Lemma bio_write_read_roundtrip_witness :
  let fs := [U8 7; Data16 [1; 2; 3]; U32 305419896; Raw [9; 9]; U24 65537] in
  read_all fs (get_buf (foldl exec (bio_writer_create 2) (Write <$> fs)) ++ [255])
  = (Some fs, [255]).
Proof.
  apply (bio_write_read_roundtrip zero_alloc zero_alloc_ok 2); [lia|].
  repeat constructor; cbn; lia.
Defined.

(** The growing buffer refines a byte string. Whatever the sequence of writes,
    length prefixes put in front ([wrap8] to [wrap32]) and skipped-then-filled
    ranges, [get_buf] is the byte string those operations specify, the used bytes
    never exceed the allocation, and [extract_buf] hands out the same bytes and
    leaves an empty writer that can be used again. *)
Theorem bio_writer_refines_bytes (A : Alloc) (AO : AllocOk A) (bufsize : Z) (os : list op) :
  0 <= bufsize ->
  let w := foldl exec (bio_writer_create bufsize) os in
  let c := foldl spec [] os in
  get_buf w = c /\ used w = len c /\ used w <= len (buf w) /\
  fst (extract_buf w) = c /\ holds (snd (extract_buf w)) [].
Proof.
  intros Hn w c.
  assert (holds w c) as H by (apply holds_fold; by apply holds_create).
  pose proof (holds_used _ _ H) as Hu. destruct H as [[Hr Hi] Hb].
  repeat split; try done; try (cbn; lia).
Qed.

Lemma bio_writer_refines_bytes_witness :
  get_buf (foldl exec (bio_writer_create 0) [Write (U16 258); SkipFill [3; 4]; Wrap 1])
  = [4; 1; 2; 3; 4].
Proof.
  destruct (bio_writer_refines_bytes zero_alloc zero_alloc_ok 0
              [Write (U16 258); SkipFill [3; 4]; Wrap 1]) as [H _]; [lia|].
  exact H.
Defined.

(** Bounds of the reader. A read of [n] bytes succeeds exactly when [n] bytes
    are left; it then splits the data into the bytes read and the rest, from the
    front or from the end, and never looks at other bytes; a failed read leaves
    the reader as it was. A length-prefixed read fails exactly when the prefix
    or the announced data is missing. *)
Theorem bio_reader_bounds (n : Z) (c : chunk) :
  0 <= n ->
  (fst (read_data n c) = None <-> len c < n) /\
  (fst (read_data n c) = None -> snd (read_data n c) = c) /\
  (forall d c', read_data n c = (Some d, c') -> c = d ++ c' /\ len d = n) /\
  (fst (read_data_end n c) = None <-> len c < n) /\
  (forall d c', read_data_end n c = (Some d, c') -> c = c' ++ d /\ len d = n) /\
  (fst (read_data16 c) = None <->
     len c < 2 \/ len c < 2 + be_val (take 2 c)).
Proof.
  intros Hn.
  assert (forall m d, 0 <= m -> m <= len d -> exists a b, d = a ++ b /\ len a = m) as Hsplit.
  { intros m d Hm Hd. exists (take (Z.to_nat m) d), (drop (Z.to_nat m) d).
    rewrite take_drop, len_take. split; [done|lia]. }
  assert (forall d, (len d < n) \/ exists a b, d = a ++ b /\ len a = n) as Hfront.
  { intros d. destruct (Z.lt_ge_cases (len d) n); [by left|right; by apply Hsplit]. }
  split_and!.
  - unfold read_data, read_data_internal. case_if; split; naive_solver lia.
  - unfold read_data, read_data_internal. case_if; naive_solver.
  - intros d c' H. destruct (Hfront c) as [Hlt|(a & b & -> & Ha)].
    + unfold read_data, read_data_internal in H. case_if_in H; [done|lia].
    + rewrite (read_data_app n a b Ha) in H. naive_solver.
  - unfold read_data_end, read_data_internal. case_if; split; naive_solver lia.
  - intros d c' H. destruct (Z.lt_ge_cases (len c) n) as [Hlt|Hge].
    + unfold read_data_end, read_data_internal in H. case_if_in H; [done|lia].
    + destruct (Hsplit (len c - n) c) as (a & b & -> & Ha); [lia..|].
      rewrite len_app in Ha. rewrite (read_data_end_app n a b) in H by lia.
      split; [naive_solver|]. assert (d = b) as -> by naive_solver. lia.
  - unfold read_data16, bind, read_uint16, read_uint16_internal, read_fixed.
    destruct (len c <? 2) eqn:E; bool_to_prop; cbn [fst]; [naive_solver|].
    destruct (Hsplit 2 c) as (a & b & -> & Ha); [lia..|].
    pose proof (chunk_skip_end_front a b) as Hskip. rewrite Ha in Hskip. rewrite Hskip.
    cbn [get_ptr_end].
    replace (Z.to_nat 2) with 2%nat by done.
    rewrite take_app_length' by (unfold len in Ha; lia).
    unfold read_data, read_data_internal. rewrite len_app, Ha in *.
    case_if; cbn; split; naive_solver lia.
Qed.

Lemma bio_reader_bounds_witness :
  fst (read_data 3 [1; 2]) = None <-> len [1; 2] < 3.
Proof. apply (bio_reader_bounds 3 [1; 2]). lia. Defined.
