(* ===== verification/EspContext.v ===== *)
(** Sequence numbers and the anti-replay window of an IPsec SA:
    libipsec/esp_context.c. The window is a ring of bits; the abstract
    specification is the history of accepted sequence numbers. *)

From S2P Require Import Prelude.

Definition UINT32_MAX : Z := 2 ^ 32 - 1.
Definition CHAR_BIT : Z := 8.
Definition ESP_DEFAULT_WINDOW_SIZE : Z := 128.

Create HintDb esp.

Module EspCtx.

(** The AEAD wrapper a context holds is opaque to the sequence-number code. *)
Record esp_context {AEAD : Type} := {
  aead : AEAD;
  last_seqno : Z;     (** uint32_t *)
  seqno_index : Z;    (** u_int: bit of the highest authenticated number *)
  window_size : Z;    (** u_int *)
  window : chunk;
  inbound : bool;
}.
Arguments esp_context : clear implicits.

Section Ops.
Context {AEAD : Type}.
Notation ctx := (esp_context AEAD).

(** Record updates. *)
Definition set_window (this : ctx) (w : chunk) : ctx :=
  {| aead := aead this; last_seqno := last_seqno this; seqno_index := seqno_index this;
     window_size := window_size this; window := w; inbound := inbound this |}.
Definition set_index (this : ctx) (i : Z) : ctx :=
  {| aead := aead this; last_seqno := last_seqno this; seqno_index := i;
     window_size := window_size this; window := window this; inbound := inbound this |}.
Definition set_last (this : ctx) (s : Z) : ctx :=
  {| aead := aead this; last_seqno := s; seqno_index := seqno_index this;
     window_size := window_size this; window := window this; inbound := inbound this |}.

Definition window_byte (w : chunk) (i : Z) : Z := default 0 (w !! Z.to_nat i).

Definition set_window_bit (this : ctx) (index : Z) (set : bool) : ctx :=
  let i := index / CHAR_BIT in
  let b := window_byte (window this) i in
  let b' := if set then Z.lor b (Z.shiftl 1 (index mod CHAR_BIT))
            else Z.land b (Z.lnot (Z.shiftl 1 (index mod CHAR_BIT))) in
  set_window this (<[Z.to_nat i := b']> (window this)).

Definition get_window_bit (this : ctx) (index : Z) : bool :=
  let i := index / CHAR_BIT in
  negb (Z.land (window_byte (window this) i) (Z.shiftl 1 (index mod CHAR_BIT)) =? 0).

Definition check_window (this : ctx) (seqno : Z) : bool :=
  let offset := u32 (last_seqno this - seqno) in
  let offset := u32 (seqno_index this - offset) mod window_size this in
  negb (get_window_bit this offset).

Definition verify_seqno (this : ctx) (seqno : Z) : bool :=
  if negb (inbound this) then false
  else if seqno >? last_seqno this then true
  else if (seqno >? 0) && (window_size this >? u32 (last_seqno this - seqno))
  then check_window this seqno
  else false.

(** The loop that shifts the window: one cleared bit per step. *)
Fixpoint shift_window (n : nat) (this : ctx) : ctx :=
  match n with
  | O => this
  | S n =>
    let this := set_index this (u32 (seqno_index this + 1) mod window_size this) in
    shift_window n (set_window_bit this (seqno_index this) false)
  end.

Definition set_authenticated_seqno (this : ctx) (seqno : Z) : ctx :=
  if negb (inbound this) then this
  else if seqno >? last_seqno this then
    let shift := u32 (seqno - last_seqno this) in
    let shift := if shift <? window_size this then shift else window_size this in
    let this := shift_window (Z.to_nat shift) this in
    set_last (set_window_bit this (seqno_index this) true) seqno
  else
    let i := u32 (last_seqno this - seqno) in
    set_window_bit this (u32 (seqno_index this - i) mod window_size this) true.

Definition get_seqno (this : ctx) : Z := last_seqno this.

Definition next_seqno (this : ctx) : option (Z * ctx) :=
  if inbound this || (last_seqno this =? UINT32_MAX) then None
  else let s := u32 (last_seqno this + 1) in Some (s, set_last this s).

Definition get_aead (this : ctx) : AEAD := aead this.

(** [esp_context_create], once its AEAD could be set up; [chunk_alloc] and
    [memset] give the zeroed window of an inbound context. *)
Definition esp_context_create (a : AEAD) (inb : bool) : ctx := {|
  aead := a; last_seqno := 0; seqno_index := 0;
  window_size := ESP_DEFAULT_WINDOW_SIZE;
  window := if inb
            then replicate (Z.to_nat (ESP_DEFAULT_WINDOW_SIZE / CHAR_BIT + 1)) 0
            else [];
  inbound := inb |}.

(** What the receiver of a packet does with its number once the packet has been
    authenticated: drop it, or accept it and advance the window. *)
Definition receive (this : ctx) (seqno : Z) : bool * ctx :=
  if verify_seqno this seqno then (true, set_authenticated_seqno this seqno)
  else (false, this).

Fixpoint receive_all (this : ctx) (ss : list Z) : list bool * ctx :=
  match ss with
  | [] => ([], this)
  | s :: ss => let '(b, this) := receive this s in
               let '(bs, this) := receive_all this ss in (b :: bs, this)
  end.

End Ops.

(** ** Abstract specification *)

(** RFC 4303 anti-replay service over the history [h] of accepted numbers: zero
    is never accepted, nor a number at or below the left edge of the window, nor
    one accepted before. *)
Definition highest (h : list Z) : Z := foldr Z.max 0 h.

Definition acceptable (h : list Z) (s : Z) : bool :=
  (0 <? s) && (highest h - ESP_DEFAULT_WINDOW_SIZE <? s) && negb (bool_decide (s ∈ h)).

Fixpoint spec_all (h : list Z) (ss : list Z) : list bool * list Z :=
  match ss with
  | [] => ([], h)
  | s :: ss =>
    let b := acceptable h s in
    let '(bs, h) := spec_all (if b then s :: h else h) ss in (b :: bs, h)
  end.

(** ** The window bits *)

Lemma land_pow2_testbit x k :
  0 <= k -> negb (Z.land x (Z.shiftl 1 k) =? 0) = Z.testbit x k.
Proof.
  intros Hk. rewrite Z.shiftl_1_l.
  assert (Z.land x (2 ^ k) = if Z.testbit x k then 2 ^ k else 0) as ->.
  { apply Z.bits_inj'. intros n Hn. rewrite Z.land_spec, Z.pow2_bits_eqb by lia.
    destruct (Z.eqb_spec k n) as [->|Hne].
    - destruct (Z.testbit x n); rewrite ?Z.pow2_bits_true, ?Z.bits_0 by lia; done.
    - destruct (Z.testbit x k); rewrite ?Z.pow2_bits_false, ?Z.bits_0 by lia;
        apply andb_false_r. }
  pose proof (Z.pow_pos_nonneg 2 k). destruct (Z.testbit x k); case_if; try done.
  destruct (Z.eqb_spec (2 ^ k) 0); [lia|done].
Qed.

Section Bits.
Context {AEAD : Type}.
Implicit Types this : esp_context AEAD.

Definition in_window this (i : Z) : Prop := 0 <= i < CHAR_BIT * len (window this).

Lemma get_window_bit_testbit this i :
  0 <= i ->
  get_window_bit this i = Z.testbit (window_byte (window this) (i / CHAR_BIT)) (i mod CHAR_BIT).
Proof. intros. apply land_pow2_testbit. unfold CHAR_BIT. div_lia. Qed.

Lemma get_set_window_bit this i j b :
  in_window this i -> in_window this j ->
  get_window_bit (set_window_bit this i b) j = if i =? j then b else get_window_bit this j.
Proof.
  unfold in_window, CHAR_BIT. intros Hi Hj.
  rewrite !get_window_bit_testbit by lia. unfold set_window_bit, window_byte, CHAR_BIT. cbn.
  assert (0 <= i / 8 < len (window this)) as Hd by div_lia.
  pose proof (Z.mod_pos_bound i 8 eq_refl). pose proof (Z.mod_pos_bound j 8 eq_refl).
  destruct (Z.eqb_spec (i / 8) (j / 8)) as [E|E].
  - rewrite <- E, list_lookup_insert_eq by (unfold len in Hd; lia). cbn.
    assert ((i =? j) = (i mod 8 =? j mod 8)) as ->.
    { destruct (Z.eqb_spec i j), (Z.eqb_spec (i mod 8) (j mod 8)); subst; try done; div_lia. }
    destruct b; rewrite ?Z.lor_spec, ?Z.land_spec, ?Z.lnot_spec by lia;
      rewrite Z.shiftl_1_l, Z.pow2_bits_eqb by lia;
      destruct (_ =? _); cbn; rewrite ?orb_true_r, ?orb_false_r, ?andb_false_r, ?andb_true_r; done.
  - rewrite list_lookup_insert_ne.
    + destruct (Z.eqb_spec i j); [congruence|done].
    + intros Heq. apply E. apply Z2Nat.inj; [div_lia..|done].
Qed.

Lemma set_window_bit_len this i b :
  len (window (set_window_bit this i b)) = len (window this).
Proof. apply len_insert. Qed.

(** ** The ring as a function of the distance to the highest number *)

Abbreviation W := ESP_DEFAULT_WINDOW_SIZE.

Record wf this : Prop := {
  wf_size : window_size this = W;
  wf_len : len (window this) = W / CHAR_BIT + 1;
  wf_index : 0 <= seqno_index this < W;
}.

(** The mark of the number [k] below the highest one. *)
Definition ago this (k : Z) : bool := get_window_bit this ((seqno_index this - k) mod W).

Lemma u32_mod_window z : u32 z mod W = z mod W.
Proof.
  unfold wrap. symmetry. apply Znumtheory.Zmod_div_mod; [done..|].
  by exists (2 ^ 25).
Qed.

Lemma mod_in_window this i : wf this -> in_window this (i mod W).
Proof.
  intros Hwf. unfold in_window. rewrite (wf_len _ Hwf).
  pose proof (Z.mod_pos_bound i W eq_refl). unfold CHAR_BIT, W in *.
  change (128 / 8) with 16. lia.
Qed.

Lemma ring_eq i a b :
  0 <= a < W -> 0 <= b < W -> ((i - a) mod W =? (i - b) mod W) = (a =? b).
Proof.
  unfold W. intros Ha Hb.
  destruct (Z.eqb_spec ((i - a) mod 128) ((i - b) mod 128)), (Z.eqb_spec a b);
    subst; try done; div_lia.
Qed.

Lemma wf_set_bit this i b : wf this -> wf (set_window_bit this i b).
Proof. intros [H1 H2 H3]. split; [done|by rewrite set_window_bit_len|done]. Qed.

Lemma ago_set_bit this i b k :
  wf this -> 0 <= i < W -> 0 <= k < W ->
  ago (set_window_bit this ((seqno_index this - i) mod W) b) k
  = if i =? k then b else ago this k.
Proof.
  intros Hwf Hi Hk. unfold ago. cbn [seqno_index set_window_bit set_window].
  rewrite get_set_window_bit by (by apply mod_in_window).
  by rewrite ring_eq.
Qed.

(** One step of the shift: every mark moves one further away. *)
Definition step_index this := set_index this (u32 (seqno_index this + 1) mod window_size this).

Lemma wf_step this : wf this -> wf (step_index this).
Proof.
  intros [H1 H2 H3]. split; try done. cbn. rewrite H1. by apply Z.mod_pos_bound.
Qed.

Lemma ago_step this k :
  wf this -> 1 <= k < W -> ago (step_index this) k = ago this (k - 1).
Proof.
  intros Hwf Hk. unfold ago, step_index. cbn. rewrite (wf_size _ Hwf), u32_mod_window.
  rewrite Zminus_mod_idemp_l.
  by replace (seqno_index this + 1 - k) with (seqno_index this - (k - 1)) by lia.
Qed.

Lemma wf_shift n this : wf this -> wf (shift_window n this).
Proof.
  revert this. induction n as [|n IH]; intros this Hwf; cbn; [done|].
  apply IH, wf_set_bit. by apply (wf_step this).
Qed.

Lemma ago_shift n this k :
  wf this -> 0 <= k < W ->
  ago (shift_window n this) k
  = if k <? Z.of_nat n then false else ago this (k - Z.of_nat n).
Proof.
  revert this. induction n as [|n IH]; intros this Hwf Hk.
  - cbn [shift_window]. rewrite Z.sub_0_r. case_if; [lia|done].
  - cbn [shift_window]. fold (step_index this). set (this1 := step_index this).
    assert (wf this1) as Hwf1 by (by apply wf_step).
    rewrite IH by (done || by apply wf_set_bit).
    assert (seqno_index this1 = (seqno_index this1 - 0) mod W) as Eidx.
    { rewrite Z.sub_0_r, Z.mod_small by apply Hwf1. done. }
    destruct (Z.ltb_spec k (Z.of_nat n)), (Z.ltb_spec k (Z.of_nat (S n))); try lia; try done.
    + rewrite Eidx at 1. rewrite ago_set_bit by (done || lia).
      replace (0 =? k - Z.of_nat n) with true by (symmetry; apply Z.eqb_eq; lia). done.
    + rewrite Eidx at 1. rewrite ago_set_bit by (done || lia).
      destruct (Z.eqb_spec 0 (k - Z.of_nat n)); [lia|].
      unfold this1. rewrite ago_step by (done || lia). f_equal. lia.
Qed.

Lemma shift_last n this : last_seqno (shift_window n this) = last_seqno this.
Proof. revert this. induction n as [|n IH]; intros this; cbn; [done|]. by rewrite IH. Qed.

Lemma shift_inbound n this : inbound (shift_window n this) = inbound this.
Proof. revert this. induction n as [|n IH]; intros this; cbn; [done|]. by rewrite IH. Qed.

(** ** The refinement invariant *)

Record represents this (h : list Z) : Prop := {
  rep_wf : wf this;
  rep_inbound : inbound this = true;
  rep_last : last_seqno this = highest h;
  rep_range : Forall (fun s => 0 < s <= UINT32_MAX) h;
  rep_ago : forall k, 0 <= k < W -> ago this k = bool_decide (last_seqno this - k ∈ h);
}.

Lemma highest_bounds h :
  Forall (fun s => 0 < s <= UINT32_MAX) h -> 0 <= highest h <= UINT32_MAX.
Proof. unfold highest. induction 1; cbn; unfold UINT32_MAX in *; lia. Qed.

Lemma highest_cons s h : highest (s :: h) = Z.max s (highest h).
Proof. done. Qed.

Lemma elem_of_le_highest h s : s ∈ h -> s <= highest h.
Proof. unfold highest. induction 1; cbn; lia. Qed.

Lemma ago_set_last this s k : ago (set_last this s) k = ago this k.
Proof. done. Qed.

Lemma represents_create (a : AEAD) : represents (esp_context_create a true) [].
Proof.
  split; [by split|done..|].
  - intros k Hk. rewrite bool_decide_eq_false_2 by set_solver.
    unfold ago. rewrite get_window_bit_testbit by (unfold W in *; cbn; div_lia).
    unfold window_byte. cbn.
    match goal with |- context [?l !! ?i] => destruct (l !! i) as [b|] eqn:E end; [|apply Z.bits_0].
    apply (lookup_replicate_1 17 0) in E as [-> _]. apply Z.bits_0.
Qed.

Lemma verify_seqno_spec this h s :
  represents this h -> 0 <= s <= UINT32_MAX -> verify_seqno this s = acceptable h s.
Proof.
  intros [Hwf Hin Hl Hr Ha] Hs. unfold verify_seqno, acceptable. rewrite Hin. cbn [negb].
  pose proof (highest_bounds h Hr) as Hb. rewrite <- Hl in *.
  destruct (Z.gtb_spec s (last_seqno this)) as [Hgt|Hle].
  - rewrite bool_decide_eq_false_2 by (intros E%elem_of_le_highest; lia).
    unfold ESP_DEFAULT_WINDOW_SIZE. symmetry. rewrite !andb_true_iff. repeat split; lia.
  - rewrite (wrap_small 32) by (unfold UINT32_MAX in *; lia). rewrite (wf_size _ Hwf).
    destruct (Z.gtb_spec s 0), (Z.ltb_spec 0 s); try lia; cbn [andb]; [|done].
    destruct (Z.gtb_spec W (last_seqno this - s)), (Z.ltb_spec (last_seqno this - W) s);
      try lia; cbn [andb]; try done.
    unfold check_window. rewrite (wrap_small 32 (last_seqno this - s)) by (unfold UINT32_MAX in *; lia).
    rewrite (wf_size _ Hwf), u32_mod_window. f_equal.
    fold (ago this (last_seqno this - s)). rewrite Ha by lia.
    by replace (last_seqno this - (last_seqno this - s)) with s by lia.
Qed.

Lemma represents_set this h s :
  represents this h -> 0 <= s <= UINT32_MAX -> acceptable h s = true ->
  represents (set_authenticated_seqno this s) (s :: h).
Proof.
  intros [Hwf Hin Hl Hr Ha] Hs Hacc. unfold acceptable in Hacc. bool_to_prop.
  pose proof (highest_bounds h Hr) as Hb. rewrite <- Hl in *.
  assert (Forall (fun s => 0 < s <= UINT32_MAX) (s :: h)) as Hr' by (constructor; [lia|done]).
  unfold set_authenticated_seqno. rewrite Hin. cbn [negb].
  destruct (Z.gtb_spec s (last_seqno this)) as [Hgt|Hle].
  - rewrite (wrap_small 32) by (unfold UINT32_MAX in *; lia). rewrite (wf_size _ Hwf).
    set (n := if _ <? _ then _ else _). set (this1 := shift_window (Z.to_nat n) this).
    assert (wf this1) as Hwf1 by (by apply wf_shift).
    assert (seqno_index this1 = (seqno_index this1 - 0) mod W) as Eidx.
    { rewrite Z.sub_0_r, Z.mod_small by apply Hwf1. done. }
    split; [by destruct (wf_set_bit this1 (seqno_index this1) true Hwf1)
           |by cbn; rewrite <- (shift_inbound (Z.to_nat n)) in Hin|rewrite highest_cons; cbn; lia|done|].
    intros k Hk. rewrite ago_set_last. cbn [last_seqno set_last]. rewrite Eidx at 1.
    rewrite ago_set_bit by (done || lia). unfold this1. rewrite ago_shift by done.
    rewrite Z2Nat.id by (unfold n; case_if; unfold W; lia).
    destruct (Z.eqb_spec 0 k) as [<-|Hk0].
    { symmetry. apply bool_decide_eq_true_2. rewrite Z.sub_0_r. by constructor. }
    destruct (Z.ltb_spec k n) as [Hkn|Hkn].
    + symmetry. apply bool_decide_eq_false_2. rewrite elem_of_cons.
      intros [?|E%elem_of_le_highest]; [lia|]. unfold n in Hkn. case_if_in Hkn; lia.
    + assert (n = s - last_seqno this) as -> by (unfold n in *; case_if_in Hkn; case_if; lia).
      rewrite Ha by lia. apply bool_decide_ext. rewrite elem_of_cons.
      replace (last_seqno this - (k - (s - last_seqno this))) with (s - k) by lia.
      split; [by right|intros [?|?]; [lia|done]].
  - rewrite (wrap_small 32 (last_seqno this - s)) by (unfold UINT32_MAX in *; lia).
    rewrite (wf_size _ Hwf), u32_mod_window.
    split; [by apply wf_set_bit|done|rewrite highest_cons; cbn; lia|done|].
    intros k Hk. rewrite ago_set_bit by (done || lia). cbn [last_seqno set_window_bit set_window].
    destruct (Z.eqb_spec (last_seqno this - s) k) as [<-|Hne].
    + symmetry. apply bool_decide_eq_true_2.
      replace (last_seqno this - (last_seqno this - s)) with s by lia. by constructor.
    + rewrite Ha by done. apply bool_decide_ext. rewrite elem_of_cons.
      split; [by right|intros [?|?]; [lia|done]].
Qed.

Lemma represents_receive this h s :
  represents this h -> 0 <= s <= UINT32_MAX ->
  fst (receive this s) = acceptable h s /\
  represents (snd (receive this s)) (if acceptable h s then s :: h else h).
Proof.
  intros Hrep Hs. unfold receive. rewrite (verify_seqno_spec _ h) by done.
  destruct (acceptable h s) eqn:E; cbn; split; try done. by apply represents_set.
Qed.

Lemma represents_receive_all ss this h :
  represents this h -> Forall (fun s => 0 <= s <= UINT32_MAX) ss ->
  fst (receive_all this ss) = fst (spec_all h ss) /\
  represents (snd (receive_all this ss)) (snd (spec_all h ss)).
Proof.
  intros Hrep Hss. revert this h Hrep. induction Hss as [|s ss Hs _ IH]; intros this h Hrep;
    [done|]. cbn [receive_all spec_all].
  destruct (represents_receive this h s) as [Hb Hrep']; [done..|].
  destruct (receive this s) as [b this1]. cbn in Hb, Hrep'. subst b.
  destruct (IH _ _ Hrep') as [IH1 IH2].
  destruct (receive_all this1 ss), (spec_all _ ss). cbn in *. by subst.
Qed.

Lemma spec_all_cons s ss h :
  fst (spec_all h (s :: ss))
  = acceptable h s :: fst (spec_all (if acceptable h s then s :: h else h) ss).
Proof. cbn. by destruct (spec_all _ ss). Qed.

(** A number of the history is never accepted again. *)
Lemma spec_reject_seen ss h i s :
  s ∈ h -> ss !! i = Some s -> fst (spec_all h ss) !! i = Some true -> False.
Proof.
  revert h i. induction ss as [|t ss IH]; intros h [|i] Hs Hi Hb; try done;
    rewrite spec_all_cons in Hb; cbn in Hi, Hb.
  - injection Hi as ->. injection Hb as Hb. unfold acceptable in Hb.
    rewrite (bool_decide_eq_true_2 _ Hs), andb_false_r in Hb. done.
  - eapply (IH (if acceptable h t then t :: h else h)); [|done..].
    destruct (acceptable h t); [by right|done].
Qed.

Lemma spec_accept_once ss h i j s :
  ss !! i = Some s -> fst (spec_all h ss) !! i = Some true ->
  ss !! j = Some s -> fst (spec_all h ss) !! j = Some true -> i = j.
Proof.
  revert h i j. induction ss as [|t ss IH]; intros h [|i] [|j] Hi Hbi Hj Hbj; try done;
    rewrite spec_all_cons in Hbi, Hbj; cbn in *; simplify_eq.
  - exfalso. rewrite Hbi in Hbj. eapply spec_reject_seen; [|done..]. by left.
  - exfalso. rewrite Hbj in Hbi. eapply spec_reject_seen; [|done..]. by left.
  - f_equal. by eapply IH.
Qed.

Lemma spec_accept_pos ss h i s :
  ss !! i = Some s -> fst (spec_all h ss) !! i = Some true -> 0 < s.
Proof.
  revert h i. induction ss as [|t ss IH]; intros h [|i] Hi Hb; try done;
    rewrite spec_all_cons in Hb; cbn in *; simplify_eq; [|by eapply IH].
  unfold acceptable in *. bool_to_prop. lia.
Qed.

(** The outbound numbers drawn by [n] calls. *)
Fixpoint draw (n : nat) this : list Z * esp_context AEAD :=
  match n with
  | O => ([], this)
  | S n => match next_seqno this with
           | None => ([], this)
           | Some (s, this) => let '(ss, this) := draw n this in (s :: ss, this)
           end
  end.

Lemma draw_seq n this :
  inbound this = false -> 0 <= last_seqno this <= UINT32_MAX ->
  fst (draw n this)
  = seqZ (last_seqno this + 1) (Z.min (Z.of_nat n) (UINT32_MAX - last_seqno this)).
Proof.
  revert this. induction n as [|n IH]; intros this Hi Hl; cbn [draw].
  - by rewrite Z.min_l by lia.
  - unfold next_seqno. rewrite Hi. cbn [orb].
    destruct (Z.eqb_spec (last_seqno this) UINT32_MAX) as [->|Hne].
    + by rewrite Z.sub_diag, Z.min_r by lia.
    + rewrite (wrap_small 32) by (unfold UINT32_MAX in *; lia).
      specialize (IH (set_last this (last_seqno this + 1)) Hi). cbn [last_seqno set_last] in IH.
      destruct (draw n _) as [ss this']. cbn [fst] in *. rewrite IH by lia.
      rewrite (seqZ_cons (last_seqno this + 1)) by lia.
      unfold Z.succ. do 2 f_equal. lia.
Qed.

End Bits.

#[export] Hint Resolve represents_create : esp.

End EspCtx.

(** * Properties *)

Import EspCtx.

(** C32: The ring-buffer window refines the anti-replay service of RFC 4303. For
    every sequence of 32-bit sequence numbers of authenticated packets, in any
    order and with any repetitions, the inbound context accepts and rejects
    exactly those the history-based specification accepts and rejects: a number
    is accepted if and only if it is not zero, lies above the highest accepted
    number minus 128, and has not been accepted before. The bits of the ring are
    read and written inside its 17 bytes throughout. *)
Theorem esp_window_refines_spec {AEAD : Type} (a : AEAD) (ss : list Z) :
  Forall (fun s => 0 <= s <= UINT32_MAX) ss ->
  let this := esp_context_create a true in
  fst (receive_all this ss) = fst (spec_all [] ss) /\
  get_seqno (snd (receive_all this ss)) = highest (snd (spec_all [] ss)) /\
  len (window (snd (receive_all this ss))) = 17 /\
  0 <= seqno_index (snd (receive_all this ss)) < 128.
Proof.
  intros Hss this.
  destruct (represents_receive_all ss this [] (represents_create a) Hss) as [H1 [Hwf _ Hl _ _]].
  repeat split; [done|done|apply Hwf..].
Qed.

Lemma esp_window_refines_spec_witness :
  fst (receive_all (esp_context_create tt true) [5; 3; 5; 200; 72; 73; 0; 73; 201])
  = [true; true; false; true; false; true; false; false; true].
Proof.
  destruct (esp_window_refines_spec tt [5; 3; 5; 200; 72; 73; 0; 73; 201]) as [H _].
  { repeat constructor; unfold UINT32_MAX; lia. }
  exact H.
Defined.

(** C3: No packet is accepted twice: the sequence numbers an inbound context
    accepts in any run are pairwise distinct, and none of them is zero. *)
Theorem esp_no_replay {AEAD : Type} (a : AEAD) (ss : list Z) (i j : nat) (s : Z) :
  Forall (fun s => 0 <= s <= UINT32_MAX) ss ->
  let bs := fst (receive_all (esp_context_create a true) ss) in
  ss !! i = Some s -> bs !! i = Some true ->
  ss !! j = Some s -> bs !! j = Some true -> i = j /\ 0 < s.
Proof.
  intros Hss bs Hi Hbi Hj Hbj.
  destruct (represents_receive_all ss _ [] (represents_create a) Hss) as [H1 _].
  unfold bs in *. rewrite H1 in Hbi, Hbj. clear bs H1 Hss a.
  split; [|clear Hj Hbj].
  - by eapply (spec_accept_once ss []).
  - by eapply (spec_accept_pos ss []).
Qed.

Lemma esp_no_replay_witness :
  nth_error (fst (receive_all (esp_context_create tt true) [7; 9; 8])) 1 = Some true /\
  0 < 9.
Proof.
  split; [reflexivity|].
  refine (proj2 (esp_no_replay tt [7; 9; 8] 1 1 9 _ _ _ _ _)); try reflexivity.
  repeat constructor; unfold UINT32_MAX; lia.
Defined.

(** Outbound sequence numbers never repeat and never cycle: the numbers an
    outbound context hands out are 1, 2, 3, ... in order, and after 2^32 - 1 every
    further request fails. An inbound context hands out none. *)
Theorem esp_next_seqno_sequence {AEAD : Type} (a : AEAD) (n : nat) :
  fst (draw n (esp_context_create a false)) = seqZ 1 (Z.min (Z.of_nat n) UINT32_MAX) /\
  NoDup (fst (draw n (esp_context_create a false))) /\
  fst (draw n (esp_context_create a true)) = [].
Proof.
  assert (fst (draw n (esp_context_create a false)) = seqZ 1 (Z.min (Z.of_nat n) UINT32_MAX))
    as E by (rewrite draw_seq by done; cbn [last_seqno esp_context_create]; by rewrite Z.sub_0_r).
  rewrite E. split_and!; [done|apply NoDup_seqZ|by destruct n].
Qed.
