(* ===== verification/Chunk.v ===== *)
(** Text encodings of byte strings: the hex, base64 and base32 conversions and
    the elementary operations of libstrongswan/utils/chunk.c. Characters are
    their ASCII codes. *)

From Stdlib Require Import Ascii String.
From S2P Require Import Prelude.

(** The characters of a C string literal. *)
Definition codes (s : string) : chunk :=
  (fun a => Z.of_N (N_of_ascii a)) <$> list_ascii_of_string s.

(** Array access by a C index. *)
Definition at_ (c : chunk) (i : Z) : Z := default 0 (c !! Z.to_nat i).

(** * Hexadecimal *)

Definition hexdig_upper : chunk := Eval vm_compute in codes "0123456789ABCDEF".
Definition hexdig_lower : chunk := Eval vm_compute in codes "0123456789abcdef".

Fixpoint to_hex (hexdig : chunk) (c : chunk) : chunk :=
  match c with
  | [] => []
  | b :: c => at_ hexdig (Z.land (Z.shiftr b 4) 15) :: at_ hexdig (Z.land b 15)
              :: to_hex hexdig c
  end.

Definition chunk_to_hex (c : chunk) (uppercase : bool) : chunk :=
  to_hex (if uppercase then hexdig_upper else hexdig_lower) c.

Definition hex2bin (hex : Z) : Z :=
  if (48 <=? hex) && (hex <=? 57) then hex - 48
  else if (65 <=? hex) && (hex <=? 70) then hex - 65 + 10
  else if (97 <=? hex) && (hex <=? 102) then hex - 97 + 10
  else 0.

(** ['0'], [':'], ['x'] and ['=']. *)
Definition ch_zero : Z := 48.
Definition ch_colon : Z := 58.
Definition ch_x : Z := 120.
Definition ch_eq : Z := 61.

Definition count_colons (c : chunk) : Z := Z.of_nat (length (filter (fun b => b = ch_colon) c)).

(** Memory read at index [p] of the input; [None] is an access outside it. *)
Definition read_at (c : chunk) (p : Z) : option Z :=
  if p <? 0 then None else c !! Z.to_nat p.

(** The conversion loop, from the last output byte to the first: [n] bytes are
    still to be produced, the input from position [p] on has been consumed. *)
Fixpoint from_hex_loop (hex : chunk) (odd : bool) (n : nat) (p : Z) (acc : chunk)
    : option chunk :=
  match n with
  | O => Some acc
  | S i =>
    let p := p - 1 in
    read_at hex p ≫= fun c =>
    let p := if c =? ch_colon then p - 1 else p in
    read_at hex p ≫= fun lo =>
    if (0 <? Z.of_nat i) || negb odd then
      let p := p - 1 in
      read_at hex p ≫= fun hi =>
      from_hex_loop hex odd i p (u8 (Z.lor (hex2bin lo) (Z.shiftl (hex2bin hi) 4)) :: acc)
    else from_hex_loop hex odd i p (hex2bin lo :: acc)
  end.

Definition chunk_from_hex (hex : chunk) : option chunk :=
  let hex := if (len hex >? 1) && (at_ hex 1 =? ch_x) && (at_ hex 0 =? ch_zero)
             then chunk_skip hex 2 else hex in
  let digits := len hex - count_colons hex in
  let odd := negb (digits mod 2 =? 0) in
  let n := (if odd then digits + 1 else digits) / 2 in
  from_hex_loop hex odd (Z.to_nat n) (len hex) [].

(** * Base 64 *)

Definition b64digits : chunk := Eval vm_compute in
  codes "ABCDEFGHIJKLMNOPQRSTUVWXYZabcdefghijklmnopqrstuvwxyz0123456789+/".

Fixpoint chunk_to_base64 (c : chunk) : chunk :=
  match c with
  | [] => []
  | [a] => [at_ b64digits (Z.shiftr a 2); at_ b64digits (Z.shiftl (Z.land a 3) 4);
            ch_eq; ch_eq]
  | [a; b] => [at_ b64digits (Z.shiftr a 2);
               at_ b64digits (Z.lor (Z.shiftl (Z.land a 3) 4) (Z.shiftr b 4));
               at_ b64digits (Z.shiftl (Z.land b 15) 2); ch_eq]
  | a :: b :: d :: c =>
      at_ b64digits (Z.shiftr a 2)
      :: at_ b64digits (Z.lor (Z.shiftl (Z.land a 3) 4) (Z.shiftr b 4))
      :: at_ b64digits (Z.lor (Z.shiftl (Z.land b 15) 2) (Z.shiftr d 6))
      :: at_ b64digits (Z.land d 63)
      :: chunk_to_base64 c
  end.

Definition b642bin (b64 : Z) : Z :=
  if (65 <=? b64) && (b64 <=? 90) then b64 - 65
  else if (97 <=? b64) && (b64 <=? 122) then 26 + b64 - 97
  else if (48 <=? b64) && (b64 <=? 57) then 26 + 26 + b64 - 48
  else if (b64 =? 43) || (b64 =? 45) then 62
  else if (b64 =? 47) || (b64 =? 95) then 63
  else if b64 =? ch_eq then 0
  else -1.

(** [outlen] after the four characters of a group, each [=] taking one byte off. *)
Definition outlen_step (outlen ch : Z) : Z :=
  if (ch =? ch_eq) && (0 <? outlen) then outlen - 1 else outlen.

(** The decoding loop: the bytes written so far in order, and [outlen]. A
    [u_char] holds [b642bin]'s result, so an invalid character counts as 255. *)
Fixpoint from_base64_loop (base64 : chunk) (outlen : Z) : chunk * Z :=
  match base64 with
  | w :: x :: y :: z :: rest =>
    let outlen := foldl outlen_step (outlen + 3) [w; x; y; z] in
    let b0 := u8 (b642bin w) in let b1 := u8 (b642bin x) in
    let b2 := u8 (b642bin y) in let b3 := u8 (b642bin z) in
    let '(out, outlen) := from_base64_loop rest outlen in
    (u8 (Z.lor (Z.shiftl b0 2) (Z.shiftr b1 4))
     :: u8 (Z.lor (Z.shiftl b1 4) (Z.shiftr b2 2))
     :: u8 (Z.lor (Z.shiftl b2 6) b3) :: out, outlen)
  | _ => ([], outlen)
  end.

Definition chunk_from_base64 (base64 : chunk) : chunk :=
  let '(buf, outlen) := from_base64_loop base64 0 in take (Z.to_nat outlen) buf.

(** * Base 32 *)

Definition b32digits : chunk := Eval vm_compute in codes "ABCDEFGHIJKLMNOPQRSTUVWXYZ234567".

Fixpoint chunk_to_base32 (c : chunk) : chunk :=
  let d x := at_ b32digits x in
  match c with
  | [] => []
  | [c0] =>
      [d (Z.shiftr c0 3); d (Z.shiftl (Z.land c0 7) 2)] ++ replicate 6 ch_eq
  | [c0; c1] =>
      [d (Z.shiftr c0 3); d (Z.lor (Z.shiftl (Z.land c0 7) 2) (Z.shiftr c1 6));
       d (Z.shiftr (Z.land c1 62) 1); d (Z.shiftl (Z.land c1 1) 4)] ++ replicate 4 ch_eq
  | [c0; c1; c2] =>
      [d (Z.shiftr c0 3); d (Z.lor (Z.shiftl (Z.land c0 7) 2) (Z.shiftr c1 6));
       d (Z.shiftr (Z.land c1 62) 1);
       d (Z.lor (Z.shiftl (Z.land c1 1) 4) (Z.shiftr c2 4));
       d (Z.shiftl (Z.land c2 15) 1)] ++ replicate 3 ch_eq
  | [c0; c1; c2; c3] =>
      [d (Z.shiftr c0 3); d (Z.lor (Z.shiftl (Z.land c0 7) 2) (Z.shiftr c1 6));
       d (Z.shiftr (Z.land c1 62) 1);
       d (Z.lor (Z.shiftl (Z.land c1 1) 4) (Z.shiftr c2 4));
       d (Z.lor (Z.shiftl (Z.land c2 15) 1) (Z.shiftr c3 7));
       d (Z.shiftr (Z.land c3 127) 2); d (Z.shiftl (Z.land c3 3) 3); ch_eq]
  | c0 :: c1 :: c2 :: c3 :: c4 :: c =>
      [d (Z.shiftr c0 3); d (Z.lor (Z.shiftl (Z.land c0 7) 2) (Z.shiftr c1 6));
       d (Z.shiftr (Z.land c1 62) 1);
       d (Z.lor (Z.shiftl (Z.land c1 1) 4) (Z.shiftr c2 4));
       d (Z.lor (Z.shiftl (Z.land c2 15) 1) (Z.shiftr c3 7));
       d (Z.shiftr (Z.land c3 127) 2);
       d (Z.lor (Z.shiftl (Z.land c3 3) 3) (Z.shiftr c4 5));
       d (Z.land c4 31)] ++ chunk_to_base32 c
  end.

(** * Comparison, increment and padding *)

Definition chunk_compare (a b : chunk) : Z :=
  let compare_len := s32 (len a - len b) in
  let n := if compare_len <? 0 then len a else len b in
  if negb (compare_len =? 0) || (n =? 0) then compare_len else memcmp a b.

(** The loop of [chunk_increment] runs from the last byte; here over the reversed
    bytes, stopping at the first one that does not wrap around. *)
Fixpoint increment_loop (rev_c : chunk) : bool * chunk :=
  match rev_c with
  | [] => (true, [])
  | b :: c =>
    let b := u8 (b + 1) in
    if negb (b =? 0) then (false, b :: c)
    else let '(overflow, c) := increment_loop c in (overflow, b :: c)
  end.

Definition chunk_increment (c : chunk) : bool * chunk :=
  let '(overflow, c) := increment_loop (rev c) in (overflow, rev c).

(** [dst] is the destination's old contents, of which only the length matters. *)
Definition chunk_copy_pad (dst src : chunk) (chr : Z) : chunk :=
  if len dst >? len src
  then replicate (Z.to_nat (len dst - len src)) chr ++ src
  else drop (Z.to_nat (len src - len dst)) src.

(** [isprint] in the C locale. *)
Definition isprint (b : Z) : bool := (32 <=? b) && (b <=? 126).

Fixpoint chunk_printable (c : chunk) (replace : Z) : bool * chunk :=
  match c with
  | [] => (true, [])
  | b :: c =>
    let '(printable, sane) := chunk_printable c replace in
    if negb (isprint b) then (false, replace :: sane) else (printable, b :: sane)
  end.

(** * Lemmas *)

(** ** Hexadecimal *)

Section Hex.
Variable upper : bool.
Let hexdig := if upper then hexdig_upper else hexdig_lower.

(** A digit decodes to its value and is neither a separator nor an [x]. *)
Lemma hexdig_spec b :
  byte_ok b ->
  let hi := at_ hexdig (Z.land (Z.shiftr b 4) 15) in
  let lo := at_ hexdig (Z.land b 15) in
  u8 (Z.lor (hex2bin lo) (Z.shiftl (hex2bin hi) 4)) = b /\
  hi <> ch_colon /\ lo <> ch_colon /\ lo <> ch_x.
Proof.
  intros Hb hi lo.
  assert ((let hi := at_ hexdig (Z.land (Z.shiftr b 4) 15) in
           let lo := at_ hexdig (Z.land b 15) in
           (u8 (Z.lor (hex2bin lo) (Z.shiftl (hex2bin hi) 4)) =? b)
           && negb (hi =? ch_colon) && negb (lo =? ch_colon) && negb (lo =? ch_x)) = true) as H.
  { unfold hexdig. destruct upper; by_bytes b Hb. }
  cbv zeta in H. fold hi lo in H. bool_to_prop. done.
Qed.

Lemma to_hex_app a b : to_hex hexdig (a ++ b) = to_hex hexdig a ++ to_hex hexdig b.
Proof. induction a as [|x a IH]; cbn; congruence. Qed.

Lemma len_to_hex c : len (to_hex hexdig c) = 2 * len c.
Proof. induction c as [|x c IH]; cbn; [done|]. rewrite !len_cons. lia. Qed.

Lemma count_colons_to_hex c : bytes_ok c -> count_colons (to_hex hexdig c) = 0.
Proof.
  induction 1 as [|b c Hb _ IH]; [done|].
  destruct (hexdig_spec b Hb) as (_ & H1 & H2 & _). unfold count_colons in *. cbn [to_hex].
  rewrite !filter_cons_False by done. done.
Qed.

(** The two digits of byte [b] of [a ++ b :: c] are where the loop looks. *)
Lemma read_at_to_hex a b c :
  read_at (to_hex hexdig (a ++ b :: c)) (2 * len a + 1) = Some (at_ hexdig (Z.land b 15)) /\
  read_at (to_hex hexdig (a ++ b :: c)) (2 * len a)
  = Some (at_ hexdig (Z.land (Z.shiftr b 4) 15)).
Proof.
  rewrite to_hex_app. cbn [to_hex]. unfold read_at. rewrite <- len_to_hex.
  set (l := to_hex hexdig a). pose proof (len_nonneg l).
  split; case_if; try lia; rewrite lookup_app_r by (unfold len; lia).
  - replace (_ - _)%nat with 1%nat by (unfold len; lia). done.
  - replace (_ - _)%nat with 0%nat by (unfold len; lia). done.
Qed.

Lemma from_hex_loop_to_hex a c acc :
  bytes_ok a ->
  from_hex_loop (to_hex hexdig (a ++ c)) false (length a) (2 * len a) acc = Some (a ++ acc).
Proof.
  revert c acc. induction a as [|b a IH] using rev_ind; intros c acc Ha; [done|].
  apply bytes_ok_app in Ha as [Ha Hb]. apply Forall_cons_1 in Hb as [Hb _].
  destruct (hexdig_spec b Hb) as (Hv & H1 & H2 & _).
  rewrite <- (assoc_L (++)), length_app, Nat.add_1_r. cbn [app from_hex_loop].
  rewrite len_app, len_cons, len_nil.
  replace (2 * (len a + (1 + 0)) - 1) with (2 * len a + 1) by lia.
  destruct (read_at_to_hex a b c) as [R1 R2]. rewrite R1. cbn [mbind option_bind].
  rewrite (proj2 (Z.eqb_neq _ _) H2), R1. cbn [mbind option_bind negb].
  rewrite orb_true_r. replace (2 * len a + 1 - 1) with (2 * len a) by lia.
  rewrite R2. cbn [mbind option_bind]. rewrite Hv, (IH (b :: c)) by done.
  by rewrite <- (assoc_L (++)).
Qed.

Lemma chunk_from_to_hex c :
  bytes_ok c -> chunk_from_hex (to_hex hexdig c) = Some c.
Proof.
  intros Hc. unfold chunk_from_hex.
  assert ((len (to_hex hexdig c) >? 1) && (at_ (to_hex hexdig c) 1 =? ch_x)
          && (at_ (to_hex hexdig c) 0 =? ch_zero) = false) as ->.
  { destruct Hc as [|b c Hb Hc]; [done|].
    destruct (hexdig_spec b Hb) as (_ & _ & _ & Hx). unfold at_ at 1. cbn [to_hex].
    change (Z.to_nat 1) with 1%nat. cbn [lookup list_lookup default from_option id].
    by rewrite (proj2 (Z.eqb_neq _ _) Hx), andb_false_r. }
  rewrite count_colons_to_hex, Z.sub_0_r, len_to_hex by done.
  replace ((2 * len c) mod 2) with 0 by div_lia. cbn [negb Z.eqb].
  replace (2 * len c / 2) with (len c) by div_lia.
  replace (Z.to_nat (len c)) with (length c) by (unfold len; lia).
  pose proof (from_hex_loop_to_hex c [] [] Hc) as H. rewrite !app_nil_r in H. exact H.
Qed.

End Hex.

(** ** The hex decoder stays inside its input *)

Definition colons_before (hex : chunk) (p : Z) : Z := count_colons (take (Z.to_nat p) hex).

Lemma colons_before_step hex p :
  1 <= p <= len hex -> exists ch,
    read_at hex (p - 1) = Some ch /\
    colons_before hex p = colons_before hex (p - 1) + (if ch =? ch_colon then 1 else 0).
Proof.
  intros Hp. unfold read_at. case_if; [lia|].
  destruct (lookup_lt_is_Some_2 hex (Z.to_nat (p - 1))) as [ch Hch]; [unfold len in *; lia|].
  exists ch. split; [done|]. unfold colons_before, count_colons.
  replace (Z.to_nat p) with (S (Z.to_nat (p - 1))) by lia.
  rewrite (take_S_r _ _ ch) by done. rewrite filter_app, length_app, Nat2Z.inj_add. f_equal.
  rewrite filter_cons. destruct (Z.eqb_spec ch ch_colon); case_decide; done.
Qed.

(** Digits the loop still reads. *)
Definition digits_left (odd : bool) (n : nat) : Z :=
  match n with O => 0 | S _ => 2 * Z.of_nat n - (if odd then 1 else 0) end.

Lemma from_hex_loop_in_bounds hex odd n p acc :
  p <= len hex -> digits_left odd n + colons_before hex p <= p ->
  exists c, from_hex_loop hex odd n p acc = Some (c ++ acc) /\ length c = n.
Proof.
  revert p acc. induction n as [|n IH]; intros p acc Hp HD; [by exists []|].
  cbn [from_hex_loop]. unfold digits_left in HD.
  assert (forall q, 0 <= colons_before hex q) as Hpos
    by (intros; unfold colons_before, count_colons; lia).
  assert (1 <= 2 * Z.of_nat (S n) - (if odd then 1 else 0)) as HD1 by (destruct odd; lia).
  pose proof (Hpos p). destruct (colons_before_step hex p) as (c1 & R1 & S1); [lia|].
  rewrite R1. cbn [mbind option_bind]. set (p1 := if _ =? _ then _ else _).
  pose proof (Hpos (p - 1)). pose proof (Hpos (p1 + 1)).
  assert (1 <= p1 + 1 <= len hex /\
          2 * Z.of_nat (S n) - (if odd then 1 else 0) + colons_before hex (p1 + 1) <= p1 + 1)
    as [Hp1 Hc1].
  { unfold p1. destruct (c1 =? ch_colon).
    - replace (p - 1 - 1 + 1) with (p - 1) in * by lia. lia.
    - replace (p - 1 + 1) with p in * by lia. lia. }
  clearbody p1. destruct (colons_before_step hex (p1 + 1) Hp1) as (lo & R2 & S2).
  rewrite Z.add_simpl_r in R2, S2. rewrite R2. cbn [mbind option_bind].
  pose proof (Hpos p1).
  assert (colons_before hex p1 <= colons_before hex (p1 + 1)) as Hmono
    by (rewrite S2; destruct (lo =? ch_colon); lia).
  destruct ((0 <? Z.of_nat n) || negb odd) eqn:E.
  - assert (2 <= 2 * Z.of_nat (S n) - (if odd then 1 else 0)).
    { destruct odd; [|lia]. rewrite orb_false_r in E. bool_to_prop. lia. }
    destruct (colons_before_step hex p1) as (hi & R3 & S3); [lia|].
    rewrite R3. cbn [mbind option_bind].
    destruct (IH (p1 - 1) (u8 (Z.lor (hex2bin lo) (Z.shiftl (hex2bin hi) 4)) :: acc))
      as (c & -> & Hc); [lia| |].
    { unfold digits_left. destruct n; destruct odd, (hi =? ch_colon); lia. }
    eexists (c ++ [_]). rewrite <- (assoc_L (++)). split; [done|]. rewrite length_app. cbn. lia.
  - assert (n = O /\ odd = true) as [-> ->].
    { destruct odd; [|by rewrite orb_true_r in E]. rewrite orb_false_r in E.
      bool_to_prop. split; [lia|done]. }
    cbn. by eexists [_].
Qed.

(** ** Base 64 *)

Lemma b64_inverse x : 0 <= x < 64 ->
  b642bin (at_ b64digits x) = x /\ at_ b64digits x <> ch_eq.
Proof.
  intros Hx.
  assert ((64 <=? x) || ((b642bin (at_ b64digits x) =? x) && negb (at_ b64digits x =? ch_eq))
          = true) as H.
  { assert (byte_ok x) as Hb by (unfold byte_ok; lia). by_bytes x Hb. }
  bool_to_prop. destruct H; bool_to_prop; [lia|done].
Qed.

(** The three bytes are recovered from the four 6-bit digits. *)
Lemma b64_regroup a b :
  byte_ok a -> byte_ok b ->
  0 <= Z.shiftr a 2 < 64 /\ 0 <= Z.land a 63 < 64 /\
  0 <= Z.shiftl (Z.land a 3) 4 < 64 /\ 0 <= Z.shiftl (Z.land a 15) 2 < 64 /\
  0 <= Z.lor (Z.shiftl (Z.land a 3) 4) (Z.shiftr b 4) < 64 /\
  0 <= Z.lor (Z.shiftl (Z.land a 15) 2) (Z.shiftr b 6) < 64 /\
  u8 (Z.lor (Z.shiftl (Z.shiftr a 2) 2)
            (Z.shiftr (Z.lor (Z.shiftl (Z.land a 3) 4) (Z.shiftr b 4)) 4)) = a /\
  u8 (Z.lor (Z.shiftl (Z.shiftr a 2) 2) (Z.shiftr (Z.shiftl (Z.land a 3) 4) 4)) = a /\
  u8 (Z.lor (Z.shiftl (Z.lor (Z.shiftl (Z.land a 15) 2) (Z.shiftr b 6)) 6) (Z.land b 63)) = b.
Proof.
  intros Ha Hb.
  set (in6 x := (0 <=? x) && (x <? 64)).
  assert (in6 (Z.shiftr a 2) && in6 (Z.land a 63) &&
    in6 (Z.shiftl (Z.land a 3) 4) && in6 (Z.shiftl (Z.land a 15) 2) &&
    in6 (Z.lor (Z.shiftl (Z.land a 3) 4) (Z.shiftr b 4)) &&
    in6 (Z.lor (Z.shiftl (Z.land a 15) 2) (Z.shiftr b 6)) &&
    (u8 (Z.lor (Z.shiftl (Z.shiftr a 2) 2)
       (Z.shiftr (Z.lor (Z.shiftl (Z.land a 3) 4) (Z.shiftr b 4)) 4)) =? a) &&
    (u8 (Z.lor (Z.shiftl (Z.shiftr a 2) 2) (Z.shiftr (Z.shiftl (Z.land a 3) 4) 4)) =? a) &&
    (u8 (Z.lor (Z.shiftl (Z.lor (Z.shiftl (Z.land a 15) 2) (Z.shiftr b 6)) 6)
       (Z.land b 63)) =? b) = true) as H.
  { unfold in6. by_bytes2 a Ha b Hb. }
  unfold in6 in H. bool_to_prop. repeat split; lia.
Qed.

(** The middle byte, given the two digits it is spread over. *)
Lemma b64_middle a b c :
  byte_ok a -> byte_ok b -> byte_ok c ->
  u8 (Z.lor (Z.shiftl (Z.lor (Z.shiftl (Z.land a 3) 4) (Z.shiftr b 4)) 4)
            (Z.shiftr (Z.lor (Z.shiftl (Z.land b 15) 2) (Z.shiftr c 6)) 2)) = b /\
  u8 (Z.lor (Z.shiftl (Z.lor (Z.shiftl (Z.land a 3) 4) (Z.shiftr b 4)) 4)
            (Z.shiftr (Z.shiftl (Z.land b 15) 2) 2)) = b.
Proof.
  intros Ha Hb Hc.
  assert (forall x, 0 <= x < 4 -> forall b, byte_ok b ->
    u8 (Z.lor (Z.shiftl (Z.lor (Z.shiftl x 4) (Z.shiftr b 4)) 4) (Z.land b 15)) = b) as Hmid.
  { intros x Hx y Hy. apply Z.eqb_eq.
    assert (byte_ok x) as Hxb by (unfold byte_ok; lia).
    assert ((4 <=? x) ||
      (u8 (Z.lor (Z.shiftl (Z.lor (Z.shiftl x 4) (Z.shiftr y 4)) 4) (Z.land y 15)) =? y)
      = true) as H by (by_bytes2 x Hxb y Hy).
    bool_to_prop. destruct H; bool_to_prop; [lia|by apply Z.eqb_eq]. }
  assert (0 <= Z.land a 3 < 4) as Ha3.
  { change 3 with (Z.ones 2). rewrite Z.land_ones by lia. by apply Z.mod_pos_bound. }
  assert (Z.shiftr (Z.lor (Z.shiftl (Z.land b 15) 2) (Z.shiftr c 6)) 2 = Z.land b 15 /\
          Z.shiftr (Z.shiftl (Z.land b 15) 2) 2 = Z.land b 15) as [-> ->].
  { assert (((Z.shiftr (Z.lor (Z.shiftl (Z.land b 15) 2) (Z.shiftr c 6)) 2 =? Z.land b 15)
       && (Z.shiftr (Z.shiftl (Z.land b 15) 2) 2 =? Z.land b 15)) = true) as H.
    { by_bytes2 b Hb c Hc. }
    bool_to_prop. done. }
  split; by apply Hmid.
Qed.

(** Induction on byte strings by groups of three. *)
Lemma chunk_ind3 (P : chunk -> Prop) :
  P [] -> (forall a, P [a]) -> (forall a b, P [a; b]) ->
  (forall a b d c, P c -> P (a :: b :: d :: c)) -> forall c, P c.
Proof.
  intros H0 H1 H2 H3. fix IH 1. intros [|a [|b [|d c]]]; [done..|]. apply H3, IH.
Qed.

Lemma outlen_step_digit o x :
  0 <= x < 64 -> outlen_step o (at_ b64digits x) = o.
Proof.
  intros [_ H]%b64_inverse. unfold outlen_step.
  by rewrite (proj2 (Z.eqb_neq _ _) H).
Qed.

Lemma outlen_step_eq o : 0 < o -> outlen_step o ch_eq = o - 1.
Proof. intros. unfold outlen_step. cbn. case_if; lia. Qed.

Lemma outlen_step_eq2 o : 1 < o -> outlen_step (outlen_step o ch_eq) ch_eq = o - 2.
Proof. intros. rewrite !(outlen_step_eq o), outlen_step_eq by lia. lia. Qed.

Lemma u8_b642bin x : 0 <= x < 64 -> u8 (b642bin (at_ b64digits x)) = x.
Proof. intros Hx. destruct (b64_inverse x Hx) as [-> _]. apply wrap_small. lia. Qed.

(** The decoding loop on one group. *)
Lemma from_base64_loop_cons w x y z rest o :
  from_base64_loop (w :: x :: y :: z :: rest) o
  = let b0 := u8 (b642bin w) in let b1 := u8 (b642bin x) in
    let b2 := u8 (b642bin y) in let b3 := u8 (b642bin z) in
    let '(out, outlen) := from_base64_loop rest
      (outlen_step (outlen_step (outlen_step (outlen_step (o + 3) w) x) y) z) in
    (u8 (Z.lor (Z.shiftl b0 2) (Z.shiftr b1 4))
     :: u8 (Z.lor (Z.shiftl b1 4) (Z.shiftr b2 2))
     :: u8 (Z.lor (Z.shiftl b2 6) b3) :: out, outlen).
Proof. done. Qed.

Lemma from_to_base64_loop c : bytes_ok c -> forall o, 0 <= o ->
  exists pad, from_base64_loop (chunk_to_base64 c) o = (c ++ pad, o + len c).
Proof.
  assert (byte_ok 0) as H0 by (unfold byte_ok; lia).
  induction c as [|a|a b|a b d c IH] using chunk_ind3; intros Hc o Ho.
  - exists []. cbn. by rewrite Z.add_0_r.
  - apply Forall_cons_1 in Hc as [Ha _]. destruct (b64_regroup a 0 Ha H0) as (?&?&?&?&?&?&?&Hv&?).
    eexists. cbn [chunk_to_base64]. rewrite from_base64_loop_cons. cbv zeta.
    rewrite !outlen_step_digit, outlen_step_eq2, !u8_b642bin, Hv by lia.
    cbn [from_base64_loop app]. rewrite len_cons, len_nil. f_equal. lia.
  - apply Forall_cons_1 in Hc as [Ha Hc]. apply Forall_cons_1 in Hc as [Hb _].
    destruct (b64_regroup a b Ha Hb) as (?&?&?&?&?&?&Hv&_&?).
    destruct (b64_regroup b 0 Hb H0) as (?&?&?&?&?&?&?&?&?).
    destruct (b64_middle a b 0 Ha Hb H0) as [_ Hm].
    eexists. cbn [chunk_to_base64]. rewrite from_base64_loop_cons. cbv zeta.
    rewrite !outlen_step_digit, outlen_step_eq, !u8_b642bin, Hv, Hm by lia.
    cbn [from_base64_loop app]. rewrite !len_cons, len_nil. f_equal. lia.
  - apply Forall_cons_1 in Hc as [Ha Hc]. apply Forall_cons_1 in Hc as [Hb Hc].
    apply Forall_cons_1 in Hc as [Hd Hc].
    destruct (b64_regroup a b Ha Hb) as (?&?&?&?&?&?&Hv&?&?).
    destruct (b64_regroup b d Hb Hd) as (?&?&?&?&?&?&?&?&Hw).
    destruct (b64_regroup d 0 Hd H0) as (?&?&?&?&?&?&?&?&?).
    destruct (b64_middle a b d Ha Hb Hd) as [Hm _].
    destruct (IH Hc (o + 3)) as [pad Hp]; [lia|].
    exists pad. cbn [chunk_to_base64]. rewrite from_base64_loop_cons. cbv zeta.
    rewrite !outlen_step_digit, !u8_b642bin, Hv, Hm, Hw by lia. rewrite Hp.
    cbn [app]. rewrite !len_cons. f_equal. lia.
Qed.

Lemma len_to_base64 c : len (chunk_to_base64 c) = (len c + 2) / 3 * 4.
Proof.
  induction c as [|a|a b|a b d c IH] using chunk_ind3; try done.
  cbn [chunk_to_base64]. rewrite !len_cons, IH. div_lia.
Qed.

(** ** Increment *)

Lemma increment_loop_spec r :
  bytes_ok r ->
  let '(overflow, r') := increment_loop r in
  bytes_ok r' /\ length r' = length r /\
  be_val (rev r') + (if overflow then 256 ^ len r else 0) = be_val (rev r) + 1.
Proof.
  induction 1 as [|b r Hb Hr IH]; [by cbn|]. cbn [increment_loop].
  unfold wrap. unfold byte_ok in Hb.
  destruct (Z.eqb_spec ((b + 1) mod 2 ^ 8) 0) as [E|E]; cbn [negb].
  - destruct (increment_loop r) as [ov r'] eqn:El. destruct IH as (Hok & Hl & Hv).
    assert (b = 255) as -> by div_lia.
    split_and!; [constructor; [by rewrite E; unfold byte_ok|done]|cbn; lia|].
    cbn [rev]. rewrite E, !be_val_app. cbn [be_val]. rewrite !len_cons, len_nil.
    rewrite (Z.pow_add_r 256 1 (len r)) by (pose proof (len_nonneg r); lia).
    rewrite Z.add_0_r, Z.pow_0_r, Z.pow_1_r. destruct ov; lia.
  - assert (0 <= b + 1 < 2 ^ 8) as Hb1 by div_lia. rewrite (Z.mod_small (b + 1)) in * by done.
    split_and!; [constructor; [unfold byte_ok; lia|done]|done|].
    cbn [rev]. rewrite !be_val_app. cbn [be_val]. rewrite !len_cons, len_nil.
    rewrite Z.add_0_r, Z.pow_0_r, Z.pow_1_r. lia.
Qed.

(** ** Comparison *)

Lemma chunk_compare_zero a b :
  len a < 2 ^ 31 -> len b < 2 ^ 31 -> chunk_compare a b = 0 <-> a = b.
Proof.
  intros Ha Hb. pose proof (len_nonneg a). pose proof (len_nonneg b).
  unfold chunk_compare. rewrite (swrap_small 32) by lia.
  destruct (Z.eqb_spec (len a - len b) 0) as [E|E]; cbn [negb orb].
  - rewrite E. change (0 <? 0) with false. cbv iota.
    assert (length a = length b) as Hl by (unfold len in *; lia).
    destruct (Z.eqb_spec (len b) 0) as [E0|_].
    + rewrite (len_zero_inv b E0), (len_zero_inv a) by lia. done.
    + rewrite <- memeq_spec by done. unfold memeq. by rewrite Z.eqb_eq.
  - split; [done|]. intros ->. lia.
Qed.

(** * Properties *)

(** Hexadecimal text. Encoding in either case and decoding gives back the
    bytes; and the decoder, whatever its input is (separators, an odd number of
    digits, an 0x prefix, colons in any place), terminates, never reads outside
    the input, and fills exactly half as many bytes, rounded up, as the input has
    characters other than colons and the prefix. *)
Theorem chunk_hex_roundtrip_and_bounds (upper : bool) (c hex : chunk) :
  (bytes_ok c -> chunk_from_hex (chunk_to_hex c upper) = Some c /\
                 len (chunk_to_hex c upper) = 2 * len c) /\
  exists out, chunk_from_hex hex = Some out /\
    let body := if (len hex >? 1) && (at_ hex 1 =? ch_x) && (at_ hex 0 =? ch_zero)
                then drop 2 hex else hex in
    len out = (len body - count_colons body + 1) / 2.
Proof.
  split.
  - intros Hc. split; [by apply chunk_from_to_hex|apply len_to_hex].
  - unfold chunk_from_hex. rewrite chunk_skip_spec by lia. change (Z.to_nat 2) with 2%nat.
    set (body := if (len hex >? 1) && (at_ hex 1 =? ch_x) && (at_ hex 0 =? ch_zero)
                 then drop 2 hex else hex). set (d := len body - count_colons body).
    assert (0 <= count_colons body <= len body) as Hcc.
    { unfold count_colons, len. pose proof (length_filter (fun b : Z => b = ch_colon) body). lia. }
    set (odd := negb (d mod 2 =? 0)). set (n := (if odd then d + 1 else d) / 2).
    assert (0 <= n /\ 2 * n = d + (if odd then 1 else 0)) as [Hn H2n].
    { unfold n, odd. destruct (Z.eqb_spec (d mod 2) 0); cbn [negb]; div_lia. }
    destruct (from_hex_loop_in_bounds body odd (Z.to_nat n) (len body) []) as (out & E & Hl);
      [lia| |].
    { unfold colons_before. replace (take (Z.to_nat (len body)) body) with body
        by (symmetry; apply take_ge; unfold len; lia).
      unfold digits_left, d in *. destruct (Z.to_nat n) eqn:En; [lia|].
      rewrite <- En, Z2Nat.id by lia. destruct odd; lia. }
    exists out. rewrite app_nil_r in E. split; [done|].
    unfold len at 1. rewrite Hl, Z2Nat.id by lia. fold d. unfold n, odd.
    destruct (Z.eqb_spec (d mod 2) 0); cbn [negb]; div_lia.
Qed.

Lemma chunk_hex_roundtrip_and_bounds_witness :
  chunk_from_hex (codes "0x1:ab:Cd") = Some [1; 171; 205] /\
  chunk_from_hex (chunk_to_hex [0; 171; 255] true) = Some [0; 171; 255].
Proof.
  split; [reflexivity|]. apply (chunk_hex_roundtrip_and_bounds true [0; 171; 255] []).
  repeat constructor; unfold byte_ok; lia.
Defined.

(** Base-64 text: encoding and then decoding gives back the bytes, for every
    byte string and both paddings, and the text has four characters for every
    three bytes begun. *)
Theorem chunk_base64_roundtrip (c : chunk) :
  bytes_ok c ->
  chunk_from_base64 (chunk_to_base64 c) = c /\
  len (chunk_to_base64 c) = (len c + 2) / 3 * 4.
Proof.
  intros Hc. split; [|apply len_to_base64].
  unfold chunk_from_base64.
  destruct (from_to_base64_loop c Hc 0) as [pad ->]; [lia|].
  rewrite Z.add_0_l. unfold len. rewrite Nat2Z.id. apply take_app_length.
Qed.

Lemma chunk_base64_roundtrip_witness :
  chunk_to_base64 [0; 255; 16; 77] = codes "AP8QTQ==" /\
  chunk_from_base64 (codes "AP8QTQ==") = [0; 255; 16; 77].
Proof.
  split; [reflexivity|].
  destruct (chunk_base64_roundtrip [0; 255; 16; 77]) as [H _].
  { repeat constructor; unfold byte_ok; lia. }
  exact H.
Defined.

(** Incrementing a counter held as a byte string adds one to the big-endian
    integer it denotes, modulo 256^n, keeps its length, and reports an overflow
    exactly when every byte was 255. *)
Theorem chunk_increment_adds_one (c : chunk) :
  bytes_ok c ->
  let '(overflow, c') := chunk_increment c in
  bytes_ok c' /\ len c' = len c /\
  be_val c' = (be_val c + 1) mod 256 ^ len c /\
  (overflow = true <-> be_val c = 256 ^ len c - 1).
Proof.
  intros Hc. unfold chunk_increment.
  assert (bytes_ok (rev c)) as Hr by (by apply Forall_rev).
  pose proof (increment_loop_spec (rev c) Hr) as H.
  destruct (increment_loop (rev c)) as [ov r]. destruct H as (Hok & Hl & Hv).
  rewrite length_rev in Hl. rewrite rev_involutive in Hv.
  assert (bytes_ok (rev r)) as Hok' by (by apply Forall_rev).
  assert (len (rev r) = len c) as Hlen by (unfold len; rewrite length_rev; lia).
  assert (len (rev c) = len c) as Hlen2 by (unfold len; by rewrite length_rev).
  pose proof (be_val_range (rev r) Hok') as Rr. pose proof (be_val_range c Hc) as Rc.
  rewrite Hlen in Rr. rewrite Hlen2 in Hv. split_and!; [done|done| |].
  - destruct ov.
    + replace (be_val c + 1) with (be_val (rev r) + 1 * 256 ^ len c) by lia.
      rewrite Z.mod_add, Z.mod_small by lia. done.
    + rewrite Z.mod_small by lia. lia.
  - destruct ov; split; intros; try lia; done.
Qed.

Lemma chunk_increment_adds_one_witness :
  chunk_increment [1; 255; 255] = (false, [2; 0; 0]) /\
  be_val [2; 0; 0] = (be_val [1; 255; 255] + 1) mod 256 ^ 3.
Proof.
  split; [reflexivity|].
  assert (bytes_ok [1; 255; 255]) as Hc by (repeat constructor; unfold byte_ok; lia).
  exact (proj1 (proj2 (proj2 (chunk_increment_adds_one [1; 255; 255] Hc)))).
Defined.
