(* ===== verification/Hash.v ===== *)
(** Keyed hashing and the internet checksum of libstrongswan/utils/chunk.c:
    SipHash-2-4 ([chunk_mac] and the hashes built on it) against its published
    description, and the ones' complement checksum against its arithmetic
    meaning. *)

From S2P Require Import Prelude Chunk.

(** * SipHash-2-4 *)

Module SipHash.

(** The four words [v0] to [v3] the C functions update through pointers. *)
Record state := St { v0 : Z; v1 : Z; v2 : Z; v3 : Z }.

Fixpoint sipget_loop (n : nat) (i : Z) (inp : chunk) (v : Z) : Z :=
  match n with
  | O => v
  | S n => sipget_loop n (i + 8) (tail inp) (Z.lor v (u64 (Z.shiftl (at_ inp 0) i)))
  end.

Definition sipget (inp : chunk) : Z := sipget_loop 8 0 inp 0.

Definition siprotate (v shift : Z) : Z :=
  Z.lor (u64 (Z.shiftl v shift)) (Z.shiftr v (64 - shift)).

Definition sipround (s : state) : state :=
  let '(St v0 v1 v2 v3) := s in
  let v0 := u64 (v0 + v1) in
  let v1 := siprotate v1 13 in
  let v1 := Z.lxor v1 v0 in
  let v0 := siprotate v0 32 in
  let v2 := u64 (v2 + v3) in
  let v3 := siprotate v3 16 in
  let v3 := Z.lxor v3 v2 in
  let v2 := u64 (v2 + v1) in
  let v1 := siprotate v1 17 in
  let v1 := Z.lxor v1 v2 in
  let v2 := siprotate v2 32 in
  let v0 := u64 (v0 + v3) in
  let v3 := siprotate v3 21 in
  let v3 := Z.lxor v3 v0 in
  St v0 v1 v2 v3.

Definition sipcompress (s : state) (m : Z) : state :=
  let s := St (v0 s) (v1 s) (v2 s) (Z.lxor (v3 s) m) in
  let s := sipround s in
  let s := sipround s in
  St (Z.lxor (v0 s) m) (v1 s) (v2 s) (v3 s).

(** The [switch] enters at case [rem] and falls through down to case 1; case [k]
    takes in byte [k - 1]. *)
Definition siplast_case (rem : Z) (pos : chunk) (b k : Z) : Z :=
  if k <=? rem then Z.lor b (u64 (Z.shiftl (at_ pos (k - 1)) (8 * (k - 1)))) else b.

Definition siplast (len : Z) (pos : chunk) : Z :=
  let rem := Z.land len 7 in
  let b := u64 (Z.shiftl len 56) in
  foldl (siplast_case rem pos) b [7; 6; 5; 4; 3; 2; 1].

(** The loop from [pos] to [end]: [n] whole blocks. *)
Fixpoint compress_blocks (n : nat) (pos : chunk) (s : state) : state * chunk :=
  match n with
  | O => (s, pos)
  | S n => compress_blocks n (drop 8 pos) (sipcompress s (sipget pos))
  end.

Definition chunk_mac_inc (c key : chunk) (m : Z) : Z :=
  let len := len c in
  let k0 := sipget key in
  let k1 := sipget (drop 8 key) in
  let s := St (Z.lxor k0 0x736f6d6570736575) (Z.lxor k1 0x646f72616e646f6d)
              (Z.lxor k0 0x6c7967656e657261) (Z.lxor k1 0x7465646279746573) in
  let s := if negb (m =? 0) then sipcompress s m else s in
  let '(s, pos) := compress_blocks (Z.to_nat ((len - len mod 8) / 8)) c s in
  let s := sipcompress s (siplast len pos) in
  let s := St (v0 s) (v1 s) (Z.lxor (v2 s) 0xff) (v3 s) in
  let s := sipround s in
  let s := sipround s in
  let s := sipround s in
  let s := sipround s in
  Z.lxor (Z.lxor (Z.lxor (v0 s) (v1 s)) (v2 s)) (v3 s).

Definition chunk_mac (c key : chunk) : Z := chunk_mac_inc c key 0.

Definition static_key : chunk := [0; 1; 2; 3; 4; 5; 6; 7; 8; 9; 10; 11; 12; 13; 14; 15].

(** [hash_key] is the process-wide key [chunk_hash_seed] draws. *)
Definition chunk_hash_inc (hash_key c : chunk) (hash : Z) : Z :=
  u32 (chunk_mac_inc c hash_key (Z.lor (u64 (Z.shiftl hash 32)) hash)).
Definition chunk_hash (hash_key c : chunk) : Z := u32 (chunk_mac c hash_key).
Definition chunk_hash_static_inc (c : chunk) (hash : Z) : Z :=
  u32 (chunk_mac_inc c static_key (Z.lor (u64 (Z.shiftl hash 32)) hash)).
Definition chunk_hash_static (c : chunk) : Z := u32 (chunk_mac c static_key).

(** ** The published algorithm (Aumasson and Bernstein, SipHash, section 2) *)

Module Spec.

Fixpoint le_val (c : chunk) : Z :=
  match c with [] => 0 | b :: c => b + 256 * le_val c end.

Fixpoint words (c : chunk) : list Z :=
  match c with
  | b0 :: b1 :: b2 :: b3 :: b4 :: b5 :: b6 :: b7 :: c =>
      le_val [b0; b1; b2; b3; b4; b5; b6; b7] :: words c
  | _ => []
  end.

(** The message is padded with zeros and ends in its length modulo 256. *)
Definition padded (c : chunk) : chunk :=
  c ++ replicate (Z.to_nat (7 - len c mod 8)) 0 ++ [len c mod 256].

Definition rotl (x n : Z) : Z := (x * 2 ^ n) mod 2 ^ 64 + x / 2 ^ (64 - n).
Definition add (x y : Z) : Z := (x + y) mod 2 ^ 64.

(** One SipRound, both halves in parallel as in the paper's figure. *)
Definition round (s : state) : state :=
  let a0 := add (v0 s) (v1 s) in
  let a2 := add (v2 s) (v3 s) in
  let a1 := Z.lxor (rotl (v1 s) 13) a0 in
  let a3 := Z.lxor (rotl (v3 s) 16) a2 in
  let a0 := rotl a0 32 in
  let b2 := add a2 a1 in
  let b0 := add a0 a3 in
  let b1 := Z.lxor (rotl a1 17) b2 in
  let b3 := Z.lxor (rotl a3 21) b0 in
  St b0 b1 (rotl b2 32) b3.

Definition rounds (n : nat) (s : state) : state := Nat.iter n round s.

Definition compress (s : state) (m : Z) : state :=
  let s := rounds 2 (St (v0 s) (v1 s) (v2 s) (Z.lxor (v3 s) m)) in
  St (Z.lxor (v0 s) m) (v1 s) (v2 s) (v3 s).

Definition init (key : chunk) : state :=
  let k0 := le_val (take 8 key) in
  let k1 := le_val (take 8 (drop 8 key)) in
  St (Z.lxor k0 0x736f6d6570736575) (Z.lxor k1 0x646f72616e646f6d)
     (Z.lxor k0 0x6c7967656e657261) (Z.lxor k1 0x7465646279746573).

Definition siphash_2_4 (key msg : chunk) : Z :=
  let s := foldl compress (init key) (words (padded msg)) in
  let s := rounds 4 (St (v0 s) (v1 s) (Z.lxor (v2 s) 0xff) (v3 s)) in
  Z.lxor (Z.lxor (Z.lxor (v0 s) (v1 s)) (v2 s)) (v3 s).

End Spec.

End SipHash.

(** * The internet checksum *)

Module Checksum.

Section Host.
(** Byte order of the machine. *)
Context (big_endian : bool).

Definition swap16 (x : Z) : Z := Z.lor (Z.shiftl (Z.land x 255) 8) (Z.shiftr x 8).
Definition htons (x : Z) : Z := if big_endian then x else swap16 x.
Definition ntohs (x : Z) : Z := htons x.

Definition untoh16 (p : chunk) : Z := be_val (take 2 p).

(** The loop over the data, two bytes at a time, in a [uint32_t]. *)
Fixpoint checksum_loop (data : chunk) (sum : Z) : Z :=
  match data with
  | a :: b :: data => checksum_loop data (u32 (sum + untoh16 [a; b]))
  | [a] => u32 (sum + Z.shiftl a 8)
  | [] => sum
  end.

(** [while (sum >> 16)]: the fuel is shown below to suffice. *)
Fixpoint fold16 (fuel : nat) (sum : Z) : Z :=
  match fuel with
  | O => sum
  | S fuel => if Z.shiftr sum 16 =? 0 then sum
              else fold16 fuel (u32 (Z.land sum 0xffff + Z.shiftr sum 16))
  end.

Definition chunk_internet_checksum_inc (data : chunk) (checksum : Z) : Z :=
  let sum := ntohs (u16 (Z.lnot checksum)) in
  let sum := fold16 3 (checksum_loop data sum) in
  htons (u16 (Z.lnot sum)).

Definition chunk_internet_checksum (data : chunk) : Z :=
  chunk_internet_checksum_inc data 0xffff.

End Host.

(** How a [uint16_t] lies in memory. *)
Definition store16 (big_endian : bool) (x : Z) : chunk :=
  if big_endian then [x / 256; x mod 256] else [x mod 256; x / 256].

(** The exact sum of the 16-bit words, an odd last byte padded with zero. *)
Fixpoint word_sum (data : chunk) : Z :=
  match data with
  | a :: b :: data => a * 256 + b + word_sum data
  | [a] => a * 256
  | [] => 0
  end.

End Checksum.

(** * Lemmas *)

(** Disjoint bit fields are added by a bitwise or. *)
Lemma lor_disjoint k a b :
  0 <= k -> a mod 2 ^ k = 0 -> 0 <= b < 2 ^ k -> Z.lor a b = a + b.
Proof.
  intros Hk Ha Hb. assert (Z.land a b = 0) as H0.
  { apply Z.bits_inj'. intros n Hn. rewrite Z.land_spec, Z.bits_0.
    destruct (Z.ltb_spec n k).
    - rewrite <- (Z.mod_pow2_bits_low a k n), Ha, Z.bits_0 by lia. done.
    - rewrite <- (Z.mod_small b (2 ^ k)), Z.mod_pow2_bits_high by lia. apply andb_false_r. }
  rewrite <- Z.lxor_lor, Z.add_nocarry_lxor by done. done.
Qed.

Lemma lor_low k v x :
  0 <= k -> 0 <= v < 2 ^ k -> Z.lor v (Z.shiftl x k) = v + 2 ^ k * x.
Proof.
  intros Hk Hv. rewrite Z.lor_comm, (lor_disjoint k), Z.shiftl_mul_pow2 by
    (rewrite ?Z.shiftl_mul_pow2, ?Z.mod_mul; lia). lia.
Qed.

Lemma lor_high k a x :
  0 <= k -> a mod 2 ^ (k + 8) = 0 -> byte_ok x -> Z.lor a (Z.shiftl x k) = a + x * 2 ^ k.
Proof.
  intros Hk Ha Hx. unfold byte_ok in Hx. rewrite Z.shiftl_mul_pow2 by lia.
  apply (lor_disjoint (k + 8)); [lia|done|].
  rewrite Z.pow_add_r by lia. pose proof (Z.pow_pos_nonneg 2 k). nia.
Qed.

Lemma lxor_range w a b :
  0 <= w -> 0 <= a < 2 ^ w -> 0 <= b < 2 ^ w -> 0 <= Z.lxor a b < 2 ^ w.
Proof.
  intros Hw Ha Hb. split; [apply Z.lxor_nonneg; lia|].
  assert (Z.lxor a b = Z.lxor a b mod 2 ^ w) as ->; [|apply Z.mod_pos_bound; lia].
  apply Z.bits_inj'. intros n Hn. destruct (Z.ltb_spec n w).
  - by rewrite Z.mod_pow2_bits_low by lia.
  - rewrite Z.mod_pow2_bits_high, Z.lxor_spec by lia.
    rewrite <- (Z.mod_small a (2 ^ w)), <- (Z.mod_small b (2 ^ w)) by lia.
    by rewrite !Z.mod_pow2_bits_high by lia.
Qed.

Lemma at_byte_ok c i : bytes_ok c -> byte_ok (at_ c i).
Proof.
  intros Hc. unfold at_. destruct (c !! _) eqn:E; [|unfold byte_ok; cbn; lia].
  by eapply Forall_lookup_1 in E.
Qed.

(** ** SipHash *)

Module SipLemmas.
Import SipHash.

Definition word_ok (x : Z) : Prop := 0 <= x < 2 ^ 64.

Definition state_ok (s : state) : Prop :=
  word_ok (v0 s) /\ word_ok (v1 s) /\ word_ok (v2 s) /\ word_ok (v3 s).

Lemma rotate_spec v s : word_ok v -> 0 <= s <= 64 -> siprotate v s = Spec.rotl v s.
Proof.
  unfold word_ok. intros Hv Hs. unfold siprotate, Spec.rotl, wrap.
  rewrite Z.shiftl_mul_pow2, Z.shiftr_div_pow2 by lia.
  assert (2 ^ 64 = 2 ^ s * 2 ^ (64 - s)) as E by (rewrite <- Z.pow_add_r by lia; f_equal; lia).
  pose proof (Z.pow_pos_nonneg 2 s). pose proof (Z.pow_pos_nonneg 2 (64 - s)).
  apply (lor_disjoint s); [lia| |].
  - rewrite <- Znumtheory.Zmod_div_mod by (lia || by exists (2 ^ (64 - s)); lia).
    apply Z.mod_mul. lia.
  - split; [apply Z.div_pos; lia|]. apply Z.div_lt_upper_bound; lia.
Qed.

Lemma rotl_ok v s : word_ok v -> 0 <= s <= 64 -> word_ok (Spec.rotl v s).
Proof.
  intros Hv Hs. rewrite <- rotate_spec by done. unfold siprotate, word_ok in *.
  pose proof (Z.mod_pos_bound (Z.shiftl v s) (2 ^ 64)).
  assert (0 <= Z.shiftr v (64 - s) < 2 ^ 64).
  { rewrite Z.shiftr_div_pow2 by lia. pose proof (Z.pow_pos_nonneg 2 (64 - s)).
    split; [apply Z.div_pos; lia|]. apply Z.div_lt_upper_bound; nia. }
  split; [apply Z.lor_nonneg; unfold wrap; lia|].
  assert (Z.lor (u64 (Z.shiftl v s)) (Z.shiftr v (64 - s))
    = Z.lor (u64 (Z.shiftl v s)) (Z.shiftr v (64 - s)) mod 2 ^ 64) as ->;
    [|apply Z.mod_pos_bound; lia].
  rewrite <- Z.land_ones, Z.land_lor_distr_l, !Z.land_ones by lia. unfold wrap.
  rewrite Z.mod_mod, (Z.mod_small (Z.shiftr _ _)) by lia. done.
Qed.

Lemma add_ok a b : word_ok (Spec.add a b).
Proof. apply Z.mod_pos_bound. lia. Qed.

Lemma word_lxor a b : word_ok a -> word_ok b -> word_ok (Z.lxor a b).
Proof. apply (lxor_range 64). lia. Qed.

Hint Resolve rotl_ok add_ok word_lxor : core.

Lemma round_spec s : state_ok s -> sipround s = Spec.round s /\ state_ok (Spec.round s).
Proof.
  destruct s as [a b c d]. intros (Ha & Hb & Hc & Hd). cbn in *.
  unfold sipround, Spec.round. cbn [v0 v1 v2 v3].
  change (u64 (a + b)) with (Spec.add a b). change (u64 (c + d)) with (Spec.add c d).
  rewrite !(rotate_spec b), !(rotate_spec d), !(rotate_spec (Spec.add a b)) by (done || auto).
  set (b1 := Z.lxor (Spec.rotl b 13) (Spec.add a b)).
  set (d1 := Z.lxor (Spec.rotl d 16) (Spec.add c d)).
  assert (word_ok b1) as Hb1 by (apply word_lxor; auto; by apply rotl_ok).
  assert (word_ok d1) as Hd1 by (apply word_lxor; auto; by apply rotl_ok).
  set (a1 := Spec.rotl (Spec.add a b) 32).
  change (u64 (Spec.add c d + b1)) with (Spec.add (Spec.add c d) b1).
  change (u64 (a1 + d1)) with (Spec.add a1 d1).
  rewrite !(rotate_spec b1), !(rotate_spec d1), !(rotate_spec (Spec.add _ b1)) by (done || auto).
  split; [done|]. split_and!; cbn; repeat first [apply add_ok | apply word_lxor | apply rotl_ok | done].
Qed.

#[local] Strategy opaque [sipround Spec.round].

Lemma rounds_ok n s : state_ok s -> state_ok (Spec.rounds n s).
Proof. intros Hs. induction n as [|n IH]; [done|]. exact (proj2 (round_spec _ IH)). Qed.

Lemma iter_round_spec n s :
  state_ok s -> Nat.iter n sipround s = Spec.rounds n s /\ state_ok (Spec.rounds n s).
Proof.
  intros Hs. unfold Spec.rounds. induction n as [|n [IH1 IH2]]; [done|].
  rewrite !Nat.iter_succ, IH1. by apply round_spec.
Qed.

Lemma iter_2 {A} (f : A -> A) x : Nat.iter 2 f x = f (f x).
Proof. done. Qed.

Lemma compress_spec s m :
  state_ok s -> word_ok m -> sipcompress s m = Spec.compress s m /\ state_ok (Spec.compress s m).
Proof.
  intros (H0 & H1 & H2 & H3) Hm. unfold sipcompress, Spec.compress. cbv zeta.
  destruct (iter_round_spec 2 (St (v0 s) (v1 s) (v2 s) (Z.lxor (v3 s) m))) as [E Hs].
  { unfold state_ok. cbn [v0 v1 v2 v3]. auto. }
  rewrite iter_2 in E. cbn [v0 v1 v2 v3]. rewrite E.
  revert Hs. generalize (Spec.rounds 2 (St (v0 s) (v1 s) (v2 s) (Z.lxor (v3 s) m))).
  intros t (?&?&?&?). split; [done|]. unfold state_ok. cbn [v0 v1 v2 v3]. auto.
Qed.

(** *** Words *)

Lemma le_val_range c : bytes_ok c -> 0 <= Spec.le_val c < 256 ^ len c.
Proof.
  induction 1 as [|b c Hb Hc IH]; [by cbn|]. cbn [Spec.le_val].
  rewrite len_cons, Z.pow_add_r by (pose proof (len_nonneg c); lia). unfold byte_ok in Hb. lia.
Qed.

Lemma word_le_val c : bytes_ok c -> len c <= 8 -> word_ok (Spec.le_val c).
Proof.
  intros Hc Hl. pose proof (le_val_range c Hc). unfold word_ok.
  assert (256 ^ len c <= 256 ^ 8); [|lia]. apply Z.pow_le_mono_r; lia.
Qed.

Lemma sipget_loop_spec n i inp v :
  0 <= i -> i + 8 * Z.of_nat n <= 64 -> 0 <= v < 2 ^ i -> bytes_ok inp ->
  sipget_loop n i inp v = v + 2 ^ i * Spec.le_val (take n inp).
Proof.
  revert i inp v. induction n as [|n IH]; intros i inp v Hi Hn Hv Hb; cbn [sipget_loop].
  { rewrite take_0. cbn [Spec.le_val]. lia. }
  pose proof (at_byte_ok inp 0 Hb) as H0. unfold byte_ok in H0.
  assert (2 ^ 64 = 2 ^ (i + 8) * 2 ^ (64 - (i + 8))) as E
    by (rewrite <- Z.pow_add_r by lia; f_equal; lia).
  assert (2 ^ (i + 8) = 256 * 2 ^ i) as E8 by (rewrite Z.pow_add_r by lia; lia).
  pose proof (Z.pow_pos_nonneg 2 (64 - (i + 8))).
  rewrite (wrap_small 64) by (rewrite Z.shiftl_mul_pow2 by lia; nia).
  rewrite lor_low by lia. rewrite IH; [|lia..|nia|].
  - rewrite E8. destruct inp as [|b inp]; [cbn [tail]; rewrite !take_nil; change (at_ [] 0) with 0; change (Spec.le_val []) with 0; lia|].
    cbn [take tail Spec.le_val]. change (at_ (b :: inp) 0) with b. lia.
  - destruct Hb; cbn; [constructor|done].
Qed.

Lemma sipget_spec inp : bytes_ok inp -> sipget inp = Spec.le_val (take 8 inp).
Proof. intros. unfold sipget. rewrite sipget_loop_spec by (lia || done). lia. Qed.

Lemma words_app a c :
  length a = 8%nat -> Spec.words (a ++ c) = Spec.le_val a :: Spec.words c.
Proof. do 9 (destruct a as [|? a]; try done). Qed.

(** The first block of a long enough input. *)
Lemma first_block (c : chunk) n :
  (8 * S n <= length c)%nat ->
  exists a d, c = a ++ d /\ length a = 8%nat /\ (8 * n <= length d)%nat /\
    forall k, take (8 * S k) c = a ++ take (8 * k) d /\ drop (8 * S k) c = drop (8 * k) d.
Proof.
  intros Hl. exists (take 8 c), (drop 8 c). rewrite take_drop.
  split_and!; [done|rewrite length_take; lia|rewrite length_drop; lia|].
  intros k. replace (8 * S k)%nat with (8 + 8 * k)%nat by lia.
  rewrite take_drop_commute, drop_drop. split; [|done].
  rewrite <- (take_drop 8 (take (8 + 8 * k) c)) at 1. f_equal.
  rewrite take_take. done.
Qed.

Lemma blocks_spec n c s :
  state_ok s -> bytes_ok c -> (8 * n <= length c)%nat ->
  compress_blocks n c s
  = (foldl Spec.compress s (Spec.words (take (8 * n) c)), drop (8 * n) c) /\
  state_ok (foldl Spec.compress s (Spec.words (take (8 * n) c))).
Proof.
  revert c s. induction n as [|n IH]; intros c s Hs Hb Hl; [done|].
  destruct (first_block c n Hl) as (a & d & -> & Ha & Hd & Hk).
  destruct (Hk n) as [-> ->]. rewrite words_app by done. cbn [compress_blocks foldl].
  apply bytes_ok_app in Hb as [Hba Hbd].
  rewrite sipget_spec by (by apply bytes_ok_app).
  rewrite (take_app_length' a d 8), (drop_app_length' a d 8) by done.
  destruct (compress_spec s (Spec.le_val a)) as [-> Hs'];
    [done|apply word_le_val; [done|unfold len; lia]|].
  apply IH; [done..|lia].
Qed.

Lemma words_split n c rest :
  (8 * n <= length c)%nat ->
  Spec.words (c ++ rest) = Spec.words (take (8 * n) c) ++ Spec.words (drop (8 * n) c ++ rest).
Proof.
  revert c. induction n as [|n IH]; intros c Hl; [done|].
  destruct (first_block c n Hl) as (a & d & -> & Ha & Hd & Hk).
  destruct (Hk n) as [-> ->]. rewrite <- (assoc_L (++)), !words_app by done.
  rewrite (IH d) by done. by rewrite (words_app a (take _ d)) by done.
Qed.

(** The last word: the remaining bytes and the length in the top byte. Case [k]
    turns the bytes from [k] on into those from [k - 1] on. *)
Lemma siplast_case_spec rem pos rest k :
  rest = pos ++ replicate (Z.to_nat (7 - rem)) 0 -> len pos = rem ->
  bytes_ok pos -> 1 <= k <= 7 -> forall B, byte_ok B ->
  siplast_case rem pos (2 ^ (8 * k) * Spec.le_val (drop (Z.to_nat k) (rest ++ [B]))) k
  = 2 ^ (8 * (k - 1)) * Spec.le_val (drop (Z.to_nat (k - 1)) (rest ++ [B])).
Proof.
  intros -> Hrem Hpos Hk B HB. set (full := _ ++ [B]).
  assert (drop (Z.to_nat (k - 1)) full
          = (if k <=? rem then at_ pos (k - 1) else 0) :: drop (Z.to_nat k) full) as ->.
  { replace (Z.to_nat k) with (S (Z.to_nat (k - 1))) by lia. apply drop_S.
    unfold full, len in *. destruct (Z.leb_spec k rem).
    - rewrite <- (assoc_L (++)), lookup_app_l by lia. unfold at_.
      destruct (lookup_lt_is_Some_2 pos (Z.to_nat (k - 1))) as [x ->]; [lia|done].
    - rewrite lookup_app_l by (rewrite length_app, length_replicate; lia).
      rewrite lookup_app_r by lia. apply lookup_replicate_2. lia. }
  cbn [Spec.le_val]. set (v := Spec.le_val _).
  assert (2 ^ (8 * k) = 2 ^ (8 * (k - 1)) * 256) as E.
  { change 256 with (2 ^ 8). rewrite <- Z.pow_add_r by lia. f_equal. lia. }
  unfold siplast_case. destruct (k <=? rem); [|lia].
  pose proof (at_byte_ok pos (k - 1) Hpos) as Hx.
  assert (2 ^ (8 * (k - 1)) <= 2 ^ 48) by (apply Z.pow_le_mono_r; lia).
  pose proof (Z.pow_pos_nonneg 2 (8 * (k - 1))).
  rewrite (wrap_small 64) by (rewrite Z.shiftl_mul_pow2 by lia; unfold byte_ok in Hx; nia).
  rewrite lor_high; [lia|lia| |done].
  replace (8 * (k - 1) + 8) with (8 * k) by lia. rewrite Z.mul_comm. apply Z.mod_mul. lia.
Qed.

Lemma siplast_spec L rest :
  bytes_ok rest -> 0 <= L -> L mod 8 = len rest ->
  Spec.words (rest ++ replicate (Z.to_nat (7 - len rest)) 0 ++ [L mod 256])
  = [siplast L rest] /\ word_ok (siplast L rest).
Proof.
  intros Hb HL Hr. pose proof (Z.mod_pos_bound L 8 eq_refl) as H8. rewrite Hr in H8.
  rewrite (assoc_L (++)). set (pad := rest ++ _).
  assert (len pad = 7) as Hpad by (unfold pad; rewrite len_app, len_replicate; lia).
  assert (bytes_ok (pad ++ [L mod 256])) as Hok.
  { apply bytes_ok_app. split; [apply bytes_ok_app; split; [done|]|].
    - apply Forall_replicate. by unfold byte_ok.
    - constructor; [apply Z.mod_pos_bound; lia|done]. }
  assert (siplast L rest = Spec.le_val (pad ++ [L mod 256])) as ->.
  { unfold siplast. change 7 with (Z.ones 3) at 1. rewrite Z.land_ones, (Hr : L mod 2 ^ 3 = _) by lia.
    assert (u64 (Z.shiftl L 56) = 2 ^ (8 * 7) * Spec.le_val (drop (Z.to_nat 7) (pad ++ [L mod 256])))
      as ->.
    { rewrite (drop_app_length' pad [L mod 256]) by (unfold len in Hpad; lia).
      cbn [Spec.le_val]. unfold wrap. rewrite Z.shiftl_mul_pow2 by lia.
      change (2 ^ 64) with (2 ^ 8 * 2 ^ 56). rewrite Z.mul_mod_distr_r by lia.
      change (2 ^ 8) with 256. change (8 * 7) with 56. lia. }
    cbn [foldl].
    rewrite !(siplast_case_spec (len rest) rest pad) by (done || lia || apply Z.mod_pos_bound; lia).
    by rewrite Z.mul_1_l. }
  split; [|apply word_le_val; [done|rewrite len_app, Hpad; done]].
  rewrite <- (app_nil_r (pad ++ _)) at 1. rewrite words_app; [done|].
  unfold len in Hpad. rewrite length_app. cbn. lia.
Qed.

(** *** The whole computation *)

Definition block_count (c : chunk) : nat := Z.to_nat ((len c - len c mod 8) / 8).
Definition tail_bytes (c : chunk) : chunk := drop (8 * block_count c) c.

Lemma block_count_spec c : 8 * Z.of_nat (block_count c) = len c - len c mod 8.
Proof. unfold block_count. pose proof (len_nonneg c). div_lia. Qed.

Lemma block_count_le c : (8 * block_count c <= length c)%nat.
Proof.
  pose proof (block_count_spec c). pose proof (Z.mod_pos_bound (len c) 8 eq_refl).
  unfold len in *. lia.
Qed.

Lemma len_tail_bytes c : len (tail_bytes c) = len c mod 8.
Proof.
  unfold tail_bytes. pose proof (block_count_spec c).
  rewrite len_drop, Nat2Z.inj_mul. pose proof (Z.mod_pos_bound (len c) 8 eq_refl). lia.
Qed.

Lemma padded_words c :
  bytes_ok c ->
  Spec.words (Spec.padded c)
  = Spec.words (take (8 * block_count c) c) ++ [siplast (len c) (tail_bytes c)].
Proof.
  intros Hc. unfold Spec.padded. rewrite (words_split (block_count c)) by apply block_count_le.
  f_equal. rewrite <- len_tail_bytes. apply siplast_spec; [by apply bytes_ok_drop|apply len_nonneg|].
  symmetry. apply len_tail_bytes.
Qed.

Lemma init_ok key : bytes_ok key -> len key = 16 -> state_ok (Spec.init key).
Proof.
  intros Hk Hl. unfold state_ok, Spec.init. cbn [v0 v1 v2 v3].
  assert (forall k, bytes_ok k -> word_ok (Spec.le_val (take 8 k))) as H.
  { intros. apply word_le_val; [by apply bytes_ok_take|]. rewrite len_take. lia. }
  split_and!; apply word_lxor; try (apply H; auto with chunk); unfold word_ok; lia.
Qed.

(** What follows the last compression. *)
Definition finish (s : state) : Z :=
  let s := St (v0 s) (v1 s) (Z.lxor (v2 s) 0xff) (v3 s) in
  let s := Nat.iter 4 sipround s in
  Z.lxor (Z.lxor (Z.lxor (v0 s) (v1 s)) (v2 s)) (v3 s).

Lemma chunk_mac_inc_unfold c key m :
  chunk_mac_inc c key m
  = let k0 := sipget key in
    let k1 := sipget (drop 8 key) in
    let s := St (Z.lxor k0 0x736f6d6570736575) (Z.lxor k1 0x646f72616e646f6d)
                (Z.lxor k0 0x6c7967656e657261) (Z.lxor k1 0x7465646279746573) in
    let s := if negb (m =? 0) then sipcompress s m else s in
    let t := compress_blocks (block_count c) c s in
    finish (sipcompress (fst t) (siplast (len c) (snd t))).
Proof.
  unfold chunk_mac_inc. cbv zeta. fold (block_count c).
  by destruct (compress_blocks _ _ _).
Qed.

Lemma finish_spec s :
  state_ok s ->
  finish s
  = let s := Spec.rounds 4 (St (v0 s) (v1 s) (Z.lxor (v2 s) 0xff) (v3 s)) in
    Z.lxor (Z.lxor (Z.lxor (v0 s) (v1 s)) (v2 s)) (v3 s).
Proof.
  intros (?&?&?&?). unfold finish. cbv zeta.
  destruct (iter_round_spec 4 (St (v0 s) (v1 s) (Z.lxor (v2 s) 255) (v3 s))) as [-> _]; [|done].
  unfold state_ok. cbn [v0 v1 v2 v3]. split_and!; auto. apply word_lxor; [done|]. unfold word_ok. lia.
Qed.

Lemma word_lor_hash h : 0 <= h < 2 ^ 32 -> word_ok (Z.lor (u64 (Z.shiftl h 32)) h).
Proof.
  intros Hh. rewrite Z.shiftl_mul_pow2, (wrap_small 64) by lia.
  rewrite (lor_disjoint 32) by (lia || rewrite ?Z.mod_mul; lia). unfold word_ok. lia.
Qed.

End SipLemmas.

(** ** Checksum *)

Module SumLemmas.
Import Checksum.

(** Induction on byte strings by groups of two. *)
Lemma chunk_ind2 (P : chunk -> Prop) :
  P [] -> (forall a, P [a]) -> (forall a b c, P c -> P (a :: b :: c)) -> forall c, P c.
Proof. intros H0 H1 H2. fix IH 1. intros [|a [|b c]]; [done..|]. apply H2, IH. Qed.

(** The representative of an integer in ones' complement 16-bit arithmetic. *)
Definition ones16 (s : Z) : Z := if s =? 0 then 0 else (s - 1) mod 65535 + 1.

Lemma ones16_range s : 0 <= s -> 0 <= ones16 s <= 65535.
Proof. intros. unfold ones16. case_if; div_lia. Qed.

Lemma ones16_small s : 0 <= s <= 65535 -> ones16 s = s.
Proof. intros. unfold ones16. case_if; [lia|]. rewrite Z.mod_small; lia. Qed.

Lemma ones16_complement s : 0 <= s -> ones16 (s + (65535 - ones16 s)) = 65535.
Proof.
  intros Hs. unfold ones16 at 2. destruct (Z.eqb_spec s 0) as [->|Hne]; [done|].
  unfold ones16. case_if; div_lia.
Qed.

Lemma ones16_add a b : 0 <= a -> 0 <= b -> ones16 (ones16 a + b) = ones16 (a + b).
Proof.
  intros Ha Hb. unfold ones16 at 2. destruct (Z.eqb_spec a 0) as [->|Hne]; [done|].
  unfold ones16. case_if; div_lia.
Qed.

Lemma ones16_fold s :
  0 <= s -> ones16 (Z.land s 0xffff + Z.shiftr s 16) = ones16 s /\
  Z.land s 0xffff + Z.shiftr s 16 = s mod 65536 + s / 65536.
Proof.
  intros Hs. change 0xffff with (Z.ones 16). rewrite Z.land_ones, Z.shiftr_div_pow2 by lia.
  change (2 ^ 16) with 65536. split; [|done].
  unfold ones16. case_if; div_lia.
Qed.

(** One round of folding. *)
Definition fold_once (s : Z) : Z := if s <? 65536 then s else s mod 65536 + s / 65536.

Lemma fold16_S fuel s : 0 <= s < 2 ^ 32 -> fold16 (S fuel) s = fold16 fuel (fold_once s).
Proof.
  intros Hs. unfold fold_once. destruct (Z.ltb_spec s 65536).
  - assert (Z.shiftr s 16 = 0) as E by (rewrite Z.shiftr_div_pow2, Z.div_small; lia).
    destruct fuel; cbn [fold16]; rewrite E; done.
  - cbn [fold16]. destruct (ones16_fold s) as [_ H2]; [lia|].
    rewrite (proj2 (Z.eqb_neq (Z.shiftr s 16) 0)) by (rewrite Z.shiftr_div_pow2 by lia; div_lia).
    by rewrite H2, (wrap_small 32) by div_lia.
Qed.

Lemma fold_once_spec s :
  0 <= s < 2 ^ 32 ->
  ones16 (fold_once s) = ones16 s /\ 0 <= fold_once s <= Z.min s 131070 /\
  (s <= 131070 -> fold_once s <= 65536) /\ (s <= 65536 -> fold_once s <= 65535).
Proof.
  intros Hs. destruct (ones16_fold s) as [H1 H2]; [lia|]. rewrite H2 in H1.
  unfold fold_once. destruct (Z.ltb_spec s 65536); (split; [done|]); split_and!; intros; div_lia.
Qed.

(** Three rounds suffice for any 32-bit sum. *)
Lemma fold16_ones s : 0 <= s < 2 ^ 32 -> fold16 3 s = ones16 s.
Proof.
  intros Hs. rewrite fold16_S by done.
  destruct (fold_once_spec s Hs) as (E1 & B1 & _ & _). rewrite fold16_S by lia.
  destruct (fold_once_spec (fold_once s)) as (E2 & B2 & C2 & _); [lia|]. rewrite fold16_S by lia.
  destruct (fold_once_spec (fold_once (fold_once s))) as (E3 & B3 & _ & D3); [lia|].
  cbn [fold16]. rewrite <- E1, <- E2, <- E3. symmetry. apply ones16_small. lia.
Qed.

Lemma word_sum_range d : bytes_ok d -> 0 <= word_sum d <= 65535 * ((len d + 1) / 2).
Proof.
  induction d as [|a|a b d IH] using chunk_ind2; intros Hd; [by cbn|..];
    apply Forall_cons_1 in Hd as [Ha Hd]; unfold byte_ok in *.
  - cbn -[Z.mul]. rewrite len_cons, len_nil. div_lia.
  - apply Forall_cons_1 in Hd as [Hb Hd]. specialize (IH Hd). cbn [word_sum].
    rewrite !len_cons. unfold byte_ok in *.
    replace (1 + (1 + len d) + 1) with (len d + 1 + 1 * 2) by lia.
    rewrite Z.div_add by lia. lia.
Qed.

Lemma checksum_loop_spec d s :
  bytes_ok d -> 0 <= s -> s + word_sum d < 2 ^ 32 -> checksum_loop d s = s + word_sum d.
Proof.
  revert s. induction d as [|a|a b d IH] using chunk_ind2; intros s Hd Hs Hlt;
    cbn [checksum_loop word_sum] in *; [lia|..];
    apply Forall_cons_1 in Hd as [Ha Hd]; unfold byte_ok in Ha.
  - rewrite Z.shiftl_mul_pow2 by lia. rewrite (wrap_small 32); lia.
  - apply Forall_cons_1 in Hd as [Hb Hd]. unfold byte_ok in Hb.
    pose proof (word_sum_range d Hd).
    assert (untoh16 [a; b] = a * 256 + b) as ->
      by (change (a * 256 ^ 1 + (b * 256 ^ 0 + 0) = a * 256 + b); lia).
    rewrite (wrap_small 32) by lia. rewrite IH by (done || lia). lia.
Qed.

Lemma word_sum_app a b : Z.even (len a) = true -> word_sum (a ++ b) = word_sum a + word_sum b.
Proof.
  induction a as [|x|x y a IH] using chunk_ind2; intros He; [done..|].
  cbn [app word_sum]. rewrite IH; [lia|]. rewrite !len_cons, Z.add_assoc, Z.even_add in He.
  by destruct (Z.even (len a)).
Qed.

Section Host.
Context (be : bool).

Lemma htons_spec x : 0 <= x < 65536 -> htons be x = if be then x else x mod 256 * 256 + x / 256.
Proof.
  intros Hx. unfold htons, swap16. destruct be; [done|].
  change 255 with (Z.ones 8). rewrite Z.land_ones, Z.shiftr_div_pow2, Z.shiftl_mul_pow2 by lia.
  apply (lor_disjoint 8); [lia|apply Z.mod_mul; lia|div_lia].
Qed.

Lemma htons_range x : 0 <= x < 65536 -> 0 <= htons be x < 65536.
Proof. intros. rewrite htons_spec by done. destruct be; [done|div_lia]. Qed.

Lemma ntohs_htons x : 0 <= x < 65536 -> ntohs be (htons be x) = x.
Proof.
  intros Hx. unfold ntohs. pose proof (htons_range x Hx). rewrite !htons_spec by done || rewrite (htons_spec (htons be x)) by done.
  destruct be; [done|div_lia].
Qed.

Lemma u16_lnot x : 0 <= x < 65536 -> u16 (Z.lnot x) = 65535 - x.
Proof. intros. unfold wrap, Z.lnot. change (2 ^ 16) with 65536. div_lia. Qed.

Lemma ntohs_lnot x : 0 <= x < 65536 -> ntohs be (u16 (Z.lnot x)) = 65535 - ntohs be x.
Proof.
  intros Hx. rewrite u16_lnot by done. unfold ntohs. rewrite !htons_spec by lia.
  destruct be; [done|div_lia].
Qed.

Lemma be_bytes_2 v : be_bytes 2 v = [v / 256 mod 256; v mod 256].
Proof. cbn. by rewrite Z.div_1_r. Qed.

Lemma store16_spec x : 0 <= x < 65536 -> store16 be x = be_bytes 2 (ntohs be x).
Proof.
  intros Hx. unfold ntohs. rewrite htons_spec, be_bytes_2 by done. unfold store16.
  destruct be; f_equal; [div_lia|..|f_equal]; div_lia.
Qed.

(** The checksum as a number, whatever the byte order of the machine. *)
Lemma checksum_inc_spec d cs :
  bytes_ok d -> len d <= 131070 -> 0 <= cs < 65536 ->
  chunk_internet_checksum_inc be d cs
  = htons be (65535 - ones16 (65535 - ntohs be cs + word_sum d)).
Proof.
  intros Hd Hl Hcs. unfold chunk_internet_checksum_inc. rewrite (ntohs_lnot cs) by done.
  pose proof (htons_range cs Hcs : 0 <= ntohs be cs < 65536).
  pose proof (word_sum_range d Hd). assert ((len d + 1) / 2 <= 65535) by div_lia.
  rewrite checksum_loop_spec by (done || lia). rewrite fold16_ones by lia.
  f_equal. apply u16_lnot.
  pose proof (ones16_range (65535 - ntohs be cs + word_sum d)). lia.
Qed.

End Host.

End SumLemmas.

(** * Properties *)

Import SipLemmas.

(** C39: [chunk_mac] computes SipHash-2-4: for every 16-byte key and every
    message it equals the published algorithm (message padded with zeros and its
    length to whole words, two rounds per word, four rounds at the end). *)
Theorem chunk_mac_is_siphash (key c : chunk) :
  bytes_ok key -> bytes_ok c -> len key = 16 ->
  SipHash.chunk_mac c key = SipHash.Spec.siphash_2_4 key c.
Proof.
  intros Hk Hc Hkl. unfold SipHash.chunk_mac, SipHash.Spec.siphash_2_4.
  rewrite (padded_words c) by done. rewrite foldl_app. cbn [foldl].
  rewrite chunk_mac_inc_unfold. cbn [negb Z.eqb].
  rewrite !sipget_spec by auto with chunk. fold (SipHash.Spec.init key).
  pose proof (init_ok key Hk Hkl) as Hinit.
  destruct (blocks_spec (block_count c) c (SipHash.Spec.init key)) as [-> Hs];
    [done..|apply block_count_le|].
  cbn [fst snd]. fold (tail_bytes c). set (s := foldl _ _ _) in *. clearbody s.
  destruct (siplast_spec (len c) (tail_bytes c)) as [_ Hlast];
    [by apply bytes_ok_drop|apply len_nonneg|symmetry; apply len_tail_bytes|].
  destruct (compress_spec s _ Hs Hlast) as [-> Hs'].
  set (t := SipHash.Spec.compress _ _) in *. clearbody t.
  apply finish_spec. done.
Qed.

Lemma chunk_mac_is_siphash_witness :
  SipHash.Spec.siphash_2_4 SipHash.static_key (seqZ 0 15) = 0xa129ca6149be45e5 /\
  SipHash.chunk_mac (seqZ 0 15) SipHash.static_key
  = SipHash.Spec.siphash_2_4 SipHash.static_key (seqZ 0 15).
Proof.
  split; [vm_compute; reflexivity|].
  apply (chunk_mac_is_siphash SipHash.static_key (seqZ 0 15)); [..|reflexivity];
    repeat constructor; unfold byte_ok; lia.
Defined.

(** The internet checksum on machines of either byte order, for data of at
    most 131070 bytes, which the 32-bit accumulator can sum without losing a
    carry: (1) continuing the checksum of an even number of bytes over more data
    is the checksum of the concatenation; (2) a message whose checksum field, at
    an even offset, is filled with the checksum computed while that field was
    zero has the checksum 0, which is what a receiver tests. *)
Theorem internet_checksum_spec (be : bool) (a b : chunk) (cs : Z) :
  bytes_ok a -> bytes_ok b -> 0 <= cs < 65536 -> Z.even (len a) = true ->
  len a + 2 + len b <= 131070 ->
  Checksum.chunk_internet_checksum_inc be b (Checksum.chunk_internet_checksum_inc be a cs)
  = Checksum.chunk_internet_checksum_inc be (a ++ b) cs /\
  let ck := Checksum.chunk_internet_checksum be (a ++ [0; 0] ++ b) in
  Checksum.chunk_internet_checksum be (a ++ Checksum.store16 be ck ++ b) = 0.
Proof.
  intros Ha Hb Hcs He Hl. pose proof (len_nonneg a). pose proof (len_nonneg b).
  pose proof (SumLemmas.word_sum_range a Ha). pose proof (SumLemmas.word_sum_range b Hb).
  split.
  - pose proof (SumLemmas.htons_range be cs Hcs : 0 <= Checksum.ntohs be cs < 65536).
    set (n := Checksum.ntohs be cs) in *. set (A := 65535 - n + Checksum.word_sum a).
    assert (0 <= A) by lia. pose proof (SumLemmas.ones16_range A).
    rewrite (SumLemmas.checksum_inc_spec be a cs) by (done || lia). fold n A.
    rewrite SumLemmas.checksum_inc_spec by (done || lia || apply SumLemmas.htons_range; lia).
    rewrite SumLemmas.ntohs_htons by lia.
    rewrite (SumLemmas.checksum_inc_spec be (a ++ b) cs)
      by (done || rewrite ?len_app; lia || by apply bytes_ok_app).
    rewrite SumLemmas.word_sum_app by done. fold n. do 2 f_equal.
    replace (65535 - (65535 - SumLemmas.ones16 A)) with (SumLemmas.ones16 A) by lia.
    rewrite SumLemmas.ones16_add by lia. f_equal. unfold A. lia.
  - assert (forall x, bytes_ok x -> len x = 2 ->
      Checksum.word_sum (a ++ x ++ b) = Checksum.word_sum a + Checksum.word_sum x + Checksum.word_sum b)
      as Hsum.
    { intros x Hx Hlx. rewrite !SumLemmas.word_sum_app by (done || by rewrite Hlx). lia. }
    assert (forall x, bytes_ok x -> len x = 2 ->
      Checksum.chunk_internet_checksum be (a ++ x ++ b)
      = Checksum.htons be (65535 - SumLemmas.ones16 (Checksum.word_sum (a ++ x ++ b)))) as Hck.
    { intros x Hx Hlx. unfold Checksum.chunk_internet_checksum.
      rewrite SumLemmas.checksum_inc_spec; [|by rewrite !bytes_ok_app|rewrite !len_app; lia|lia].
      by replace (Checksum.ntohs be 65535) with 65535 by (by destruct be). }
    assert (bytes_ok [0; 0]) as H00 by (repeat constructor; unfold byte_ok; lia).
    cbv zeta. rewrite (Hck [0; 0]), Hsum by done. change (Checksum.word_sum [0; 0]) with 0.
    set (S := Checksum.word_sum a + 0 + Checksum.word_sum b).
    pose proof (SumLemmas.ones16_range S). rewrite SumLemmas.store16_spec
      by (apply SumLemmas.htons_range; unfold S in *; lia).
    rewrite SumLemmas.ntohs_htons by (unfold S in *; lia).
    rewrite Hck, Hsum by auto with chunk. set (k := 65535 - SumLemmas.ones16 S).
    assert (Checksum.word_sum (be_bytes 2 k) = k) as ->.
    { rewrite SumLemmas.be_bytes_2. cbn [Checksum.word_sum]. unfold k, S in *. div_lia. }
    replace (Checksum.word_sum a + k + Checksum.word_sum b) with (S + k) by (unfold S; lia).
    replace (SumLemmas.ones16 (S + k)) with 65535; [by destruct be|].
    symmetry. apply SumLemmas.ones16_complement. unfold S. lia.
Qed.

Lemma internet_checksum_spec_witness :
  Checksum.chunk_internet_checksum false ([0x45; 0; 0; 0x73] ++ [0; 0] ++ [0x1c; 0x46; 9]) = 0x4695 /\
  Checksum.chunk_internet_checksum false
    ([0x45; 0; 0; 0x73] ++ Checksum.store16 false 0x4695 ++ [0x1c; 0x46; 9]) = 0.
Proof.
  split; [reflexivity|].
  refine (proj2 (internet_checksum_spec false [0x45; 0; 0; 0x73] [0x1c; 0x46; 9] 0 _ _ _ _ _));
    try (repeat constructor; unfold byte_ok; lia); unfold len; cbn; lia.
Defined.
