(* ===== verification/Host.v ===== *)
(** IP addresses with a port: libstrongswan/networking/host.c. The socket
    address union is its family, address bytes and port; ports are kept in host
    byte order, the conversions of the accessors cancel out. *)

From S2P Require Import Prelude.

Definition AF_UNSPEC : Z := 0.
Definition AF_INET : Z := 2.
Definition AF_INET6 : Z := 10.
Definition IPV4_LEN : Z := 4.
Definition IPV6_LEN : Z := 16.

Record host_t := Host {
  sa_family : Z;
  sin_addr : chunk;   (** 4 or 16 bytes, by the family *)
  sin_port : Z;
}.

Definition zeroes (n : Z) : chunk := replicate (Z.to_nat n) 0.

Definition is_anyaddr (this : host_t) : bool :=
  if sa_family this =? AF_INET then memeq (zeroes IPV4_LEN) (sin_addr this)
  else if sa_family this =? AF_INET6 then memeq (zeroes IPV6_LEN) (sin_addr this)
  else false.

Definition get_address (this : host_t) : chunk :=
  if (sa_family this =? AF_INET) || (sa_family this =? AF_INET6) then sin_addr this else [].

Definition get_family (this : host_t) : Z := sa_family this.

Definition get_port (this : host_t) : Z :=
  if (sa_family this =? AF_INET) || (sa_family this =? AF_INET6) then sin_port this else 0.

Definition set_port (this : host_t) (port : Z) : host_t :=
  if (sa_family this =? AF_INET) || (sa_family this =? AF_INET6)
  then Host (sa_family this) (sin_addr this) port else this.

(** 0.0.0.0 and 0::0 are equal. *)
Definition ip_equals (this other : host_t) : bool :=
  if negb (sa_family this =? sa_family other) then is_anyaddr this && is_anyaddr other
  else if (sa_family this =? AF_INET) || (sa_family this =? AF_INET6)
  then memeq (sin_addr this) (sin_addr other)
  else false.

Definition equals (this other : host_t) : bool :=
  if negb (ip_equals this other) then false
  else if (sa_family this =? AF_INET) || (sa_family this =? AF_INET6)
  then sin_port this =? sin_port other
  else false.

Definition host_create_from_chunk (family : Z) (address : chunk) (port : Z) : option host_t :=
  if family =? AF_INET then
    if len address <? IPV4_LEN then None
    else Some (Host AF_INET (take (Z.to_nat IPV4_LEN) address) port)
  else if family =? AF_INET6 then
    if len address <? IPV6_LEN then None
    else Some (Host AF_INET6 (take (Z.to_nat IPV6_LEN) address) port)
  else if family =? AF_UNSPEC then
    if len address =? IPV4_LEN then Some (Host AF_INET address port)
    else if len address =? IPV6_LEN then Some (Host AF_INET6 address port)
    else None
  else None.

Definition host_create_netmask (family netbits : Z) : option host_t :=
  let mask length :=
    let bytes := netbits / 8 in
    let bits := 8 - Z.land netbits 7 in
    let target := replicate (Z.to_nat bytes) 255 in
    if bytes <? length
    then target ++ [u8 (Z.shiftl 255 bits)] ++ zeroes (length - bytes - 1)
    else target in
  if family =? AF_INET then
    if (netbits <? 0) || (netbits >? 32) then None else Some (Host AF_INET (mask IPV4_LEN) 0)
  else if family =? AF_INET6 then
    if (netbits <? 0) || (netbits >? 128) then None else Some (Host AF_INET6 (mask IPV6_LEN) 0)
  else None.

Definition host_create_any (family : Z) : option host_t :=
  if family =? AF_INET then Some (Host AF_INET (zeroes IPV4_LEN) 0)
  else if family =? AF_INET6 then Some (Host AF_INET6 (zeroes IPV6_LEN) 0)
  else None.

(** * Well-formedness *)

Record host_ok (h : host_t) : Prop := {
  host_family : sa_family h = AF_INET \/ sa_family h = AF_INET6;
  host_len : len (sin_addr h) = if sa_family h =? AF_INET then IPV4_LEN else IPV6_LEN;
  host_bytes : bytes_ok (sin_addr h);
  host_port : 0 <= sin_port h < 65536;
}.

Lemma get_address_ok h : host_ok h -> get_address h = sin_addr h.
Proof. intros [[E|E] _ _ _]; unfold get_address; rewrite E; done. Qed.

Lemma len_take_exact (c : chunk) n : 0 <= n <= len c -> len (take (Z.to_nat n) c) = n.
Proof. intros. rewrite len_take. lia. Qed.

Lemma create_from_chunk_ok family c port h :
  bytes_ok c -> 0 <= port < 65536 ->
  host_create_from_chunk family c port = Some h ->
  host_ok h /\ sin_port h = port /\ exists rest, c = sin_addr h ++ rest.
Proof.
  intros Hc Hp. unfold host_create_from_chunk, IPV4_LEN, IPV6_LEN in *. intros H.
  case_if_in H; simplify_eq; cbn;
    split_and!; try done; try (eexists; symmetry; first [apply take_drop|apply app_nil_r]);
    constructor; cbn; auto with chunk; rewrite ?len_take_exact by lia; done.
Qed.

(** The mask denotes [netbits] one bits followed by zero bits. *)
Lemma netmask_spec family n h :
  host_create_netmask family n = Some h ->
  let size := 8 * len (sin_addr h) in
  host_ok h /\ 0 <= n <= size /\ be_val (sin_addr h) = 2 ^ size - 2 ^ (size - n).
Proof.
  intros H. assert (exists L, (family = AF_INET /\ L = 4 \/ family = AF_INET6 /\ L = 16) /\ 0 <= n <= 8 * L)
    as (L & HL & Hn).
  { unfold host_create_netmask in H. case_if_in H; simplify_eq; (exists 4; lia) || (exists 16; lia). }
  assert (forallb (fun n => match host_create_netmask family n with
    | Some h => (len (sin_addr h) =? L) && (be_val (sin_addr h) =? 2 ^ (8 * L) - 2 ^ (8 * L - n))
                && forallb (fun b => (0 <=? b) && (b <? 256)) (sin_addr h)
                && (sa_family h =? family) && (sin_port h =? 0)
    | None => false end) (seqZ 0 (8 * L + 1)) = true) as Hall.
  { destruct HL as [[-> ->]|[-> ->]]; vm_compute; reflexivity. }
  rewrite forallb_forall in Hall. specialize (Hall n). rewrite H in Hall.
  assert (In n (seqZ 0 (8 * L + 1))) as Hin by (apply list_elem_of_In, elem_of_seqZ; lia).
  specialize (Hall Hin). bool_to_prop. intros size. unfold size.
  rewrite forallb_forall in *.
  split; [|split; [lia|congruence]]. split.
  - destruct HL as [[-> _]|[-> _]]; auto.
  - destruct HL as [[-> ->]|[-> ->]]; rewrite H2; done.
  - apply Forall_forall. intros b Hb. apply list_elem_of_In in Hb.
    match goal with Hf : forall x, In x _ -> _ |- _ => specialize (Hf b Hb) end.
    bool_to_prop. done.
  - lia.
Qed.
