(* ===== verification/TrafficSelector.v ===== *)
(** Traffic selectors: libstrongswan/selectors/traffic_selector.c. A selector
    denotes a set of packets; the operations are proved against that denotation. *)

From S2P Require Import Prelude Host.

Definition TS_IPV4_ADDR_RANGE : Z := 7.
Definition TS_IPV6_ADDR_RANGE : Z := 8.
Definition NON_SUBNET_ADDRESS_RANGE : Z := 255.
Definition IPPROTO_ICMP : Z := 1.
Definition IPPROTO_ICMPV6 : Z := 58.

Module TS.

(** [from] and [to] are the 16-byte arrays, whatever the type. *)
Record traffic_selector := {
  type : Z;
  protocol : Z;
  dynamic : bool;
  netbits : Z;
  from : chunk;
  to : chunk;
  from_port : Z;
  to_port : Z;
}.

Definition set_range (this : traffic_selector) (nb : Z) (f t : chunk) : traffic_selector :=
  {| type := type this; protocol := protocol this; dynamic := dynamic this; netbits := nb;
     from := f; to := t; from_port := from_port this; to_port := to_port this |}.

Definition set_netbits (this : traffic_selector) (nb : Z) : traffic_selector :=
  set_range this nb (from this) (to this).

Definition ts_ip_len (this : traffic_selector) : Z :=
  if type this =? TS_IPV4_ADDR_RANGE then IPV4_LEN else IPV6_LEN.

(** [memcpy] and [memset] into an array at an offset. *)
Definition memcpy (dst : chunk) (off : Z) (src : chunk) : chunk :=
  take (Z.to_nat off) dst ++ src ++ drop (Z.to_nat off + length src) dst.

Definition memset (dst : chunk) (off b n : Z) : chunk :=
  memcpy dst off (replicate (Z.to_nat n) b).

Definition byte_at (c : chunk) (i : Z) : Z := default 0 (c !! Z.to_nat i).

(** [c[i] op= ...]. The source reaches [i = -1] only when a zero mask makes the
    assignment store back what it read. *)
Definition update (c : chunk) (i : Z) (f : Z -> Z) : chunk :=
  if i <? 0 then c else <[Z.to_nat i := f (byte_at c i)]> c.

Definition calc_range (this : traffic_selector) (nb : Z) : traffic_selector :=
  let length := ts_ip_len this in
  let bytes := (nb + 7) / 8 in
  let bits := bytes * 8 - nb in
  let mask := u8 (if negb (bits =? 0) then Z.shiftl 1 bits - 1 else 0) in
  let t := memcpy (to this) 0 (take (Z.to_nat bytes) (from this)) in
  let f := memset (from this) bytes 0 (length - bytes) in
  let t := memset t bytes 255 (length - bytes) in
  let f := update f (bytes - 1) (fun x => Z.land x (Z.lnot mask)) in
  let t := update t (bytes - 1) (fun x => Z.lor x mask) in
  set_range this nb f t.

(** The positions the nested loops visit: bytes from the first, bits from the
    most significant. *)
Definition bit_positions (size : Z) : list (Z * Z) :=
  byte ← seqZ 0 size; (fun bit => (byte, bit)) <$> [7; 6; 5; 4; 3; 2; 1; 0].

(** The loops, with the early return; the results are the value returned and the
    value left in [this->netbits]. *)
Fixpoint netbits_loop (ps : list (Z * Z)) (f t : chunk) (prefix : bool) (nb this_nb : Z) : Z * Z :=
  match ps with
  | [] => (nb, this_nb)
  | (byte, bit) :: ps =>
    let bitmask := u8 (Z.shiftl 1 bit) in
    let fb := Z.land bitmask (byte_at f byte) in
    let tb := Z.land bitmask (byte_at t byte) in
    if prefix then
      if negb (fb =? tb) then
        let nb := u8 ((7 - bit) + byte * 8) in netbits_loop ps f t false nb nb
      else netbits_loop ps f t prefix nb this_nb
    else
      if negb (fb =? 0) || (tb =? 0) then (nb, NON_SUBNET_ADDRESS_RANGE)
      else netbits_loop ps f t prefix nb this_nb
  end.

Definition calc_netbits (this : traffic_selector) : Z * traffic_selector :=
  let size := ts_ip_len this in
  let nb := u8 (size * 8) in
  let '(r, this_nb) := netbits_loop (bit_positions size) (from this) (to this) true nb nb in
  (r, set_netbits this this_nb).

Definition is_opaque (this : traffic_selector) : bool :=
  (from_port this =? 65535) && (to_port this =? 0).

Definition is_any (this : traffic_selector) : bool :=
  (from_port this =? 0) && (to_port this =? 65535).

(** The constructor: [INIT] zeroes the arrays; ICMP types get their own byte. *)
Definition icmp_port (proto port : Z) : Z :=
  if (proto =? IPPROTO_ICMP) || (proto =? IPPROTO_ICMPV6)
  then u16 (if port <? 256 then Z.shiftl port 8 else port) else port.

Definition traffic_selector_create (proto ty fp tp : Z) : option traffic_selector :=
  if negb (ty =? TS_IPV4_ADDR_RANGE) && negb (ty =? TS_IPV6_ADDR_RANGE) then None
  else Some {| type := ty; protocol := proto; dynamic := false; netbits := 0;
               from := zeroes IPV6_LEN; to := zeroes IPV6_LEN;
               from_port := icmp_port proto fp; to_port := icmp_port proto tp |}.

(** The ports of the subset: "opaque" when both selectors allow it, otherwise the
    maximum range allowed for both, if there is one. *)
Definition subset_ports (this other : traffic_selector) : option (Z * Z) :=
  if (is_opaque this && is_opaque other) || (is_opaque this && is_any other)
     || (is_opaque other && is_any this)
  then Some (65535, 0)
  else
    let fp := Z.max (from_port this) (from_port other) in
    let tp := Z.min (to_port this) (to_port other) in
    if fp >? tp then None else Some (fp, tp).

Definition get_subset (this other : traffic_selector) : option traffic_selector :=
  if dynamic this || dynamic other then None
  else if negb (type this =? type other) then None
  else if negb (protocol this =? protocol other)
          && negb (protocol this =? 0) && negb (protocol other =? 0) then None
  else
    let proto := Z.max (protocol this) (protocol other) in
    ports ← subset_ports this other;
    let size := Z.to_nat (ts_ip_len this) in
    let f := if memcmp (take size (from this)) (take size (from other)) >? 0
             then from this else from other in
    let t := if memcmp (take size (to this)) (take size (to other)) >? 0
             then to other else to this in
    if memcmp (take size f) (take size t) >? 0 then None
    else
      subset ← traffic_selector_create proto (type this) (fst ports) (snd ports);
      let subset := set_range subset (netbits subset) (memcpy (from subset) 0 (take size f))
                              (memcpy (to subset) 0 (take size t)) in
      Some (snd (calc_netbits subset)).

Definition compare_int (a b : Z) : Z := s32 (a - b).

Definition traffic_selector_cmp (a b : traffic_selector) : Z :=
  let res := compare_int (type a) (type b) in
  if negb (res =? 0) then res else
  let n := Z.to_nat (ts_ip_len a) in
  let res := memcmp (take n (from a)) (take n (from b)) in
  if negb (res =? 0) then res else
  let res := memcmp (take n (to b)) (take n (to a)) in
  if negb (res =? 0) then res else
  let res := compare_int (protocol a) (protocol b) in
  if negb (res =? 0) then res else
  let res := compare_int (from_port a) (from_port b) in
  if negb (res =? 0) then res else
  compare_int (to_port b) (to_port a).

Definition equals (this other : traffic_selector) : bool := traffic_selector_cmp this other =? 0.

Definition is_contained_in (this other : traffic_selector) : bool :=
  match get_subset this other with
  | Some subset => equals subset this
  | None => false
  end.

Definition family_matches (this : traffic_selector) (host : host_t) : bool :=
  ((get_family host =? AF_INET) && (type this =? TS_IPV4_ADDR_RANGE))
  || ((get_family host =? AF_INET6) && (type this =? TS_IPV6_ADDR_RANGE)).

(** [is_host] with and without a host. *)
Definition is_host (this : traffic_selector) (host : option host_t) : bool :=
  match host with
  | Some host =>
    if family_matches this host then
      let addr := get_address host in
      memeq addr (take (length addr) (from this)) && memeq addr (take (length addr) (to this))
    else false
  | None =>
    let n := Z.to_nat (ts_ip_len this) in
    if dynamic this then true else memeq (take n (from this)) (take n (to this))
  end.

Definition set_address (this : traffic_selector) (host : host_t) : traffic_selector :=
  let ty := if get_family host =? AF_INET then TS_IPV4_ADDR_RANGE else TS_IPV6_ADDR_RANGE in
  let '(nb, f, t) :=
    if is_anyaddr host then (0, replicate 16 0, replicate 16 255)
    else let addr := get_address host in
         (u8 (len addr * 8), memcpy (from this) 0 addr, memcpy (to this) 0 addr) in
  {| type := ty; protocol := protocol this; dynamic := false; netbits := nb; from := f; to := t;
     from_port := from_port this; to_port := to_port this |}.

Definition includes (this : traffic_selector) (host : host_t) : bool :=
  if family_matches this host then
    let addr := get_address host in
    (memcmp (take (length addr) (from this)) addr <=? 0)
    && (memcmp (take (length addr) (to this)) addr >=? 0)
  else false.

(** The network, the mask and whether the range really is a subnet; the selector
    is updated by [calc_netbits]. *)
Definition to_subnet (this : traffic_selector)
    : bool * option host_t * Z * traffic_selector :=
  let '(mask, this) :=
    if netbits this =? NON_SUBNET_ADDRESS_RANGE then calc_netbits this
    else (netbits this, this) in
  let '(family, n) := if type this =? TS_IPV4_ADDR_RANGE then (AF_INET, IPV4_LEN)
                      else (AF_INET6, IPV6_LEN) in
  let net := zeroes n in
  let net := if negb (mask =? 0) then
               let non_zero_bytes := (mask + 7) / 8 in
               let net := memcpy net 0 (take (Z.to_nat non_zero_bytes) (from this)) in
               update net (non_zero_bytes - 1)
                 (fun x => Z.land x (u8 (Z.shiftl 255 (8 * non_zero_bytes - mask))))
             else net in
  let port := if to_port this =? from_port this then to_port this else 0 in
  (negb (netbits this =? NON_SUBNET_ADDRESS_RANGE), host_create_from_chunk family net port, mask, this).

Definition clone (this : traffic_selector) : option traffic_selector :=
  let n := Z.to_nat (ts_ip_len this) in
  c ← traffic_selector_create (protocol this) (type this) (from_port this) (to_port this);
  Some {| type := type c; protocol := protocol c; dynamic := dynamic this; netbits := netbits this;
          from := memcpy (from c) 0 (take n (from this)); to := memcpy (to c) 0 (take n (to this));
          from_port := from_port c; to_port := to_port c |}.

Definition create_from_bytes (proto ty : Z) (f : chunk) (fp : Z) (t : chunk) (tp : Z)
    : option traffic_selector :=
  this ← traffic_selector_create proto ty fp tp;
  if negb (len f =? len t) || negb (len f =? ts_ip_len this) then None
  else Some (snd (calc_netbits (set_range this (netbits this) (memcpy (from this) 0 f)
                                          (memcpy (to this) 0 t)))).

Definition create_from_subnet (net : host_t) (nb proto fp tp : Z) : option traffic_selector :=
  ty ← (if get_family net =? AF_INET then Some TS_IPV4_ADDR_RANGE
        else if get_family net =? AF_INET6 then Some TS_IPV6_ADDR_RANGE else None);
  this ← traffic_selector_create proto ty fp tp;
  let this := set_range this (netbits this) (memcpy (from this) 0 (get_address net)) (to this) in
  Some (calc_range this (Z.min nb (ts_ip_len this * 8))).

Definition create_dynamic (proto fp tp : Z) : option traffic_selector :=
  this ← traffic_selector_create proto TS_IPV4_ADDR_RANGE fp tp;
  Some {| type := type this; protocol := protocol this; dynamic := true; netbits := 0;
          from := replicate 16 0; to := replicate 16 255;
          from_port := from_port this; to_port := to_port this |}.

(** * Denotation *)

(** What a selector is matched against: an address of a type, a protocol and a
    port, or no port at all ([None], a fragment with "opaque" ports). *)
Record packet := Pkt { pk_type : Z; pk_addr : Z; pk_proto : Z; pk_port : option Z }.

Definition addr_val (this : traffic_selector) (c : chunk) : Z :=
  be_val (take (Z.to_nat (ts_ip_len this)) c).

Definition port_matches (fp tp : Z) (port : option Z) : bool :=
  match port with
  | Some p => (fp <=? p) && (p <=? tp)
  | None => ((fp =? 65535) && (tp =? 0)) || ((fp =? 0) && (tp =? 65535))
  end.

Definition matches (ts : traffic_selector) (pk : packet) : bool :=
  negb (dynamic ts) && (type ts =? pk_type pk)
  && (addr_val ts (from ts) <=? pk_addr pk) && (pk_addr pk <=? addr_val ts (to ts))
  && ((protocol ts =? 0) || (protocol ts =? pk_proto pk))
  && port_matches (from_port ts) (to_port ts) (pk_port pk).

Record ts_ok (ts : traffic_selector) : Prop := {
  ok_type : type ts = TS_IPV4_ADDR_RANGE \/ type ts = TS_IPV6_ADDR_RANGE;
  ok_from : len (from ts) = 16 /\ bytes_ok (from ts);
  ok_to : len (to ts) = 16 /\ bytes_ok (to ts);
  ok_proto : 0 <= protocol ts < 256;
  ok_ports : 0 <= from_port ts < 65536 /\ 0 <= to_port ts < 65536;
}.

(** Ports the constructor leaves as they are. *)
Definition port_stable (proto port : Z) : Prop :=
  proto = IPPROTO_ICMP \/ proto = IPPROTO_ICMPV6 -> port = 0 \/ 256 <= port.

Definition stable_pair (proto : Z) (a b : traffic_selector) : Prop :=
  port_stable proto (from_port a) /\ port_stable proto (to_port a) /\
  port_stable proto (from_port b) /\ port_stable proto (to_port b).

(** * Lemmas *)

Lemma ts_ip_len_cases ts : ts_ip_len ts = 4 \/ ts_ip_len ts = 16.
Proof. unfold ts_ip_len. case_if; auto. Qed.

Lemma ts_ip_len_pos ts : 4 <= ts_ip_len ts <= 16.
Proof. destruct (ts_ip_len_cases ts); lia. Qed.

Lemma take_memcpy (dst src : chunk) n :
  length src = n -> take n (memcpy dst 0 src) = src.
Proof.
  intros <-. unfold memcpy. change (Z.to_nat 0) with 0%nat. rewrite take_0.
  cbn [app]. apply take_app_length.
Qed.

Lemma len_memcpy (dst src : chunk) off :
  0 <= off -> off + len src <= len dst -> len (memcpy dst off src) = len dst.
Proof. intros. unfold memcpy. rewrite !len_app, len_take, len_drop. unfold len in *. lia. Qed.

Lemma bytes_ok_memcpy dst off src :
  bytes_ok dst -> bytes_ok src -> bytes_ok (memcpy dst off src).
Proof. intros. unfold memcpy. rewrite !bytes_ok_app. auto with chunk. Qed.

Lemma length_take_ip ts (c : chunk) :
  len c = 16 -> length (take (Z.to_nat (ts_ip_len ts)) c) = Z.to_nat (ts_ip_len ts).
Proof. intros. rewrite length_take. pose proof (ts_ip_len_pos ts). unfold len in *. lia. Qed.

Lemma addr_val_range ts c : len c = 16 -> bytes_ok c -> 0 <= addr_val ts c < 2 ^ (8 * ts_ip_len ts).
Proof.
  intros Hl Hc. unfold addr_val. pose proof (ts_ip_len_pos ts).
  pose proof (be_val_range (take (Z.to_nat (ts_ip_len ts)) c)) as H1.
  rewrite len_take_exact in H1 by lia. rewrite Z.pow_mul_r by lia. auto with chunk.
Qed.

(** Comparing arrays is comparing addresses. *)
Lemma memcmp_addr ts a b :
  len a = 16 -> len b = 16 -> bytes_ok a -> bytes_ok b ->
  let n := Z.to_nat (ts_ip_len ts) in
  (memcmp (take n a) (take n b) >? 0) = (addr_val ts b <? addr_val ts a) /\
  (memcmp (take n a) (take n b) =? 0) = (addr_val ts a =? addr_val ts b).
Proof.
  intros Ha Hb Oa Ob n. unfold addr_val, n.
  rewrite memcmp_be_val by (auto with chunk; rewrite !length_take_ip by done; done).
  destruct (Z.compare_spec (be_val (take (Z.to_nat (ts_ip_len ts)) a))
              (be_val (take (Z.to_nat (ts_ip_len ts)) b))); split; lia.
Qed.

Lemma memcmp_zero ts a b :
  len a = 16 -> len b = 16 -> bytes_ok a -> bytes_ok b ->
  memcmp (take (Z.to_nat (ts_ip_len ts)) a) (take (Z.to_nat (ts_ip_len ts)) b) = 0
  <-> addr_val ts a = addr_val ts b.
Proof.
  intros. destruct (memcmp_addr ts a b) as [_ E]; [done..|]. rewrite <- !Z.eqb_eq, E. done.
Qed.

Lemma icmp_port_stable proto port :
  0 <= port < 65536 -> port_stable proto port -> icmp_port proto port = port.
Proof.
  unfold port_stable, icmp_port. intros Hp Hs.
  destruct ((proto =? IPPROTO_ICMP) || (proto =? IPPROTO_ICMPV6)) eqn:E; [|done].
  destruct Hs as [-> |Hs]; [bool_to_prop; lia|done|].
  destruct (Z.ltb_spec port 256); [lia|]. by apply wrap_small.
Qed.

(** The intersection of two port ranges, the special ranges included. *)
Lemma ports_intersect a b :
  0 <= from_port a < 65536 -> 0 <= to_port a < 65536 ->
  0 <= from_port b < 65536 -> 0 <= to_port b < 65536 ->
  let both p := port_matches (from_port a) (to_port a) p && port_matches (from_port b) (to_port b) p in
  match subset_ports a b with
  | Some (f, t) =>
    (forall p, port_matches f t p = both p) /\ (exists p, port_matches f t p = true) /\
    0 <= f < 65536 /\ 0 <= t < 65536 /\
    (forall proto, stable_pair proto a b -> port_stable proto f /\ port_stable proto t)
  | None => forall p, both p = false
  end.
Proof.
  intros Hfa Hta Hfb Htb both. unfold both, subset_ports, is_opaque, is_any.
  set (fa := from_port a) in *. set (ta := to_port a) in *.
  set (fb := from_port b) in *. set (tb := to_port b) in *.
  destruct (_ || _) eqn:E.
  - split; [|split; [by exists None|]].
    + intros [p|]; unfold port_matches; bool_to_prop; lia.
    + split; [lia|]. split; [lia|]. unfold port_stable. lia.
  - destruct (Z.gtb_spec (Z.max fa fb) (Z.min ta tb)).
    + intros [p|]; unfold port_matches; bool_to_prop; lia.
    + split; [|split; [exists (Some (Z.max fa fb)); unfold port_matches; lia|]].
      * intros [p|]; unfold port_matches; bool_to_prop; lia.
      * split; [lia|]. split; [lia|]. intros proto (Sfa & Sta & Sfb & Stb).
        split; [destruct (Z.max_spec fa fb) as [[_ ->]|[_ ->]]
               |destruct (Z.min_spec ta tb) as [[_ ->]|[_ ->]]]; done.
Qed.

Lemma calc_netbits_set ts : exists nb, snd (calc_netbits ts) = set_netbits ts nb.
Proof. unfold calc_netbits. destruct (netbits_loop _ _ _ _ _ _) as [r nb]. by exists nb. Qed.

Lemma matches_set_netbits ts nb pk : matches (set_netbits ts nb) pk = matches ts pk.
Proof. done. Qed.

(** What a selector built from two addresses matches. *)
Lemma matches_built ts ty proto fp tp nb nb' f t pk :
  type ts = ty -> len f = 16 -> len t = 16 ->
  let built := set_netbits (set_range
    {| type := ty; protocol := proto; dynamic := false; netbits := nb; from := zeroes IPV6_LEN;
       to := zeroes IPV6_LEN; from_port := fp; to_port := tp |} nb
    (memcpy (zeroes IPV6_LEN) 0 (take (Z.to_nat (ts_ip_len ts)) f))
    (memcpy (zeroes IPV6_LEN) 0 (take (Z.to_nat (ts_ip_len ts)) t))) nb' in
  addr_val built (from built) = addr_val ts f /\ addr_val built (to built) = addr_val ts t /\
  matches built pk
  = (ty =? pk_type pk) && (addr_val ts f <=? pk_addr pk) && (pk_addr pk <=? addr_val ts t)
    && ((proto =? 0) || (proto =? pk_proto pk)) && port_matches fp tp (pk_port pk).
Proof.
  intros Hty Hf Ht built.
  assert (ts_ip_len built = ts_ip_len ts) as Hlen by (unfold ts_ip_len; cbn; by rewrite Hty).
  assert (forall c, len c = 16 ->
    addr_val built (memcpy (zeroes IPV6_LEN) 0 (take (Z.to_nat (ts_ip_len ts)) c)) = addr_val ts c)
    as Hv.
  { intros c Hc. unfold addr_val at 1. rewrite Hlen, take_memcpy; [done|]. by apply length_take_ip. }
  unfold matches. cbn [from to built set_netbits set_range dynamic type protocol from_port to_port].
  by rewrite !Hv.
Qed.

Lemma ok_built ts nb nb' proto fp tp f t :
  ts_ok ts -> 0 <= proto < 256 -> 0 <= fp < 65536 -> 0 <= tp < 65536 ->
  len f = 16 -> len t = 16 -> bytes_ok f -> bytes_ok t ->
  ts_ok (set_netbits (set_range
    {| type := type ts; protocol := proto; dynamic := false; netbits := nb; from := zeroes IPV6_LEN;
       to := zeroes IPV6_LEN; from_port := fp; to_port := tp |} nb
    (memcpy (zeroes IPV6_LEN) 0 (take (Z.to_nat (ts_ip_len ts)) f))
    (memcpy (zeroes IPV6_LEN) 0 (take (Z.to_nat (ts_ip_len ts)) t))) nb').
Proof.
  intros Hok Hp Hfp Htp Hf Ht Of Ot. pose proof (ts_ip_len_pos ts).
  assert (bytes_ok (zeroes IPV6_LEN)) by (repeat constructor; unfold byte_ok; lia).
  assert (forall c, len c = 16 -> bytes_ok c ->
    len (memcpy (zeroes IPV6_LEN) 0 (take (Z.to_nat (ts_ip_len ts)) c)) = 16 /\
    bytes_ok (memcpy (zeroes IPV6_LEN) 0 (take (Z.to_nat (ts_ip_len ts)) c))) as H'.
  { intros c Hc Oc. split; [|apply bytes_ok_memcpy; auto with chunk].
    rewrite len_memcpy; [done|lia|]. rewrite len_take_exact by lia. change (len (zeroes IPV6_LEN)) with 16. lia. }
  split; cbn; [apply Hok|by apply H'|by apply H'|done|done].
Qed.

(** Fields that give two selectors the same packets. *)
Definition same_denotation (s a : traffic_selector) : Prop :=
  type s = type a /\ addr_val s (from s) = addr_val a (from a) /\
  addr_val s (to s) = addr_val a (to a) /\ protocol s = protocol a /\
  from_port s = from_port a /\ to_port s = to_port a.

Lemma proto_intersect a b p :
  0 <= a -> 0 <= b -> negb (a =? b) && negb (a =? 0) && negb (b =? 0) = false ->
  (Z.max a b =? 0) || (Z.max a b =? p) = ((a =? 0) || (a =? p)) && ((b =? 0) || (b =? p)).
Proof. intros. bool_to_prop. lia. Qed.

(** [get_subset], by the denotation of its arguments. *)
Lemma get_subset_spec a b :
  ts_ok a -> ts_ok b -> stable_pair (Z.max (protocol a) (protocol b)) a b ->
  match get_subset a b with
  | Some s => ts_ok s /\ dynamic s = false /\ dynamic a = false /\
              (forall pk, matches s pk = matches a pk && matches b pk) /\
              exists pk, matches s pk = true
  | None => forall pk, matches a pk && matches b pk = false
  end.
Proof.
  intros Ha Hb Hst. unfold get_subset.
  destruct (dynamic a || dynamic b) eqn:Ed.
  { intros pk. unfold matches. destruct (dynamic a), (dynamic b); cbn; try done; apply andb_false_r. }
  apply orb_false_iff in Ed as [Eda Edb].
  destruct (Z.eqb_spec (type a) (type b)) as [Et|Et]; cbn [negb];
    [|intros pk; unfold matches; rewrite Eda, Edb; lia].
  destruct (negb _ && negb _ && negb _) eqn:Ep;
    [intros pk; unfold matches; rewrite Eda, Edb; lia|].
  pose proof Ha as [Hta [Lfa Ofa] [Lta Ota] Hpa [Hfpa Htpa]].
  destruct Hb as [Htb [Lfb Ofb] [Ltb Otb] Hpb [Hfpb Htpb]].
  pose proof (ports_intersect a b Hfpa Htpa Hfpb Htpb) as Hports. cbv beta zeta in Hports |- *.
  destruct (subset_ports a b) as [[fp tp]|]; cbn [mbind option_bind];
    [|intros pk; specialize (Hports (pk_port pk)); unfold matches;
      destruct (port_matches (from_port a) _ _), (port_matches (from_port b) _ _);
      rewrite ?andb_false_r; done].
  destruct Hports as (Hpm & [po Hpo] & Hfp & Htp & Hst').
  destruct (Hst' _ Hst) as [Sf St].
  destruct (memcmp_addr a (from a) (from b)) as [-> _]; [done..|].
  destruct (memcmp_addr a (to a) (to b)) as [-> _]; [done..|].
  set (f := if addr_val a (from b) <? _ then _ else _).
  set (t := if addr_val a (to b) <? _ then _ else _).
  assert (len f = 16 /\ bytes_ok f /\ len t = 16 /\ bytes_ok t) as (Lf & Of & Lt & Ot)
    by (unfold f, t; case_if; done).
  assert (addr_val a f = Z.max (addr_val a (from a)) (addr_val a (from b))) as Vf
    by (unfold f; case_if; lia).
  assert (addr_val a t = Z.min (addr_val a (to a)) (addr_val a (to b))) as Vt
    by (unfold t; case_if; lia).
  assert (forall c, addr_val b c = addr_val a c) as Hab
    by (intros; unfold addr_val, ts_ip_len; by rewrite Et).
  destruct (memcmp_addr a f t) as [-> _]; [done..|].
  destruct (Z.ltb_spec (addr_val a t) (addr_val a f)) as [Hlt|Hle].
  { intros pk. unfold matches. rewrite Eda, Edb, !Hab. lia. }
  unfold traffic_selector_create.
  replace (negb (type a =? TS_IPV4_ADDR_RANGE) && negb (type a =? TS_IPV6_ADDR_RANGE)) with false
    by (destruct Hta as [-> | ->]; done).
  cbn [mbind option_bind fst snd netbits from to].
  rewrite !icmp_port_stable by done.
  destruct (calc_netbits_set (set_range {| type := type a; protocol := Z.max (protocol a) (protocol b);
    dynamic := false; netbits := 0; from := zeroes IPV6_LEN; to := zeroes IPV6_LEN;
    from_port := fp; to_port := tp |} 0 (memcpy (zeroes IPV6_LEN) 0 (take (Z.to_nat (ts_ip_len a)) f))
    (memcpy (zeroes IPV6_LEN) 0 (take (Z.to_nat (ts_ip_len a)) t)))) as [nb ->].
  split; [apply ok_built; try done; lia|]. split; [done|]. split; [done|].
  split.
  - intros pk. rewrite (proj2 (proj2 (matches_built a (type a) _ fp tp 0 nb f t pk eq_refl Lf Lt))).
    unfold matches. rewrite Eda, Edb, !Hab, Vf, Vt, Hpm, <- Et.
    destruct (port_matches (from_port a) _ _), (port_matches (from_port b) _ _);
      rewrite ?andb_false_r; try done.
    rewrite (proto_intersect (protocol a) (protocol b)) by (done || lia).
    lia.
  - exists (Pkt (type a) (addr_val a f) (Z.max (protocol a) (protocol b)) po).
    rewrite (proj2 (proj2 (matches_built a (type a) _ fp tp 0 nb f t _ eq_refl Lf Lt))).
    cbn. rewrite Hpo. lia.
Qed.

(** ** Containment *)

Lemma cmp_zero s a :
  ts_ok s -> ts_ok a ->
  equals s a = true <->
  type s = type a /\ addr_val a (from s) = addr_val a (from a) /\
  addr_val a (to s) = addr_val a (to a) /\ protocol s = protocol a /\
  from_port s = from_port a /\ to_port s = to_port a.
Proof.
  intros [Ts [Lfs Ofs] [Lts Ots] Ps [Fs Tos]] [Ta [Lfa Ofa] [Lta Ota] Pa [Fa Toa]].
  assert (0 <= type s < 256 /\ 0 <= type a < 256) as [Rs Ra]
    by (destruct Ts as [-> | ->], Ta as [-> | ->]; unfold TS_IPV4_ADDR_RANGE, TS_IPV6_ADDR_RANGE; lia).
  unfold equals, traffic_selector_cmp, compare_int. rewrite !(swrap_small 32) by lia. cbv zeta.
  destruct (Z.eqb_spec (type s - type a) 0) as [Et|Et]; cbn [negb];
    [|split; [intros H; bool_to_prop; lia|lia]].
  assert (type s = type a) as Est by lia.
  replace (ts_ip_len s) with (ts_ip_len a) by (unfold ts_ip_len; by rewrite Est).
  pose proof (memcmp_zero a (from s) (from a) Lfs Lfa Ofs Ofa) as E1.
  pose proof (memcmp_zero a (to a) (to s) Lta Lts Ota Ots) as E2.
  revert E1 E2. generalize (memcmp (take (Z.to_nat (ts_ip_len a)) (from s))
    (take (Z.to_nat (ts_ip_len a)) (from a))) as m1.
  generalize (memcmp (take (Z.to_nat (ts_ip_len a)) (to a)) (take (Z.to_nat (ts_ip_len a)) (to s))) as m2.
  intros m2 m1 E1 E2.
  destruct (Z.eqb_spec m1 0) as [H1|H1]; cbn [negb];
    [|split; [intros H; bool_to_prop; lia|intros (_ & H & _); by apply E1 in H]].
  destruct (Z.eqb_spec m2 0) as [H2|H2]; cbn [negb];
    [|split; [intros H; bool_to_prop; lia|intros (_ & _ & H & _); by apply symmetry, E2 in H]].
  apply E1 in H1. apply E2 in H2.
  destruct (Z.eqb_spec (protocol s - protocol a) 0); cbn [negb];
    [|split; [intros H; bool_to_prop; lia|lia]].
  destruct (Z.eqb_spec (from_port s - from_port a) 0); cbn [negb];
    [|split; [intros H; bool_to_prop; lia|lia]].
  rewrite Z.eqb_eq. lia.
Qed.

Lemma ports_inj fs ts fa ta po :
  0 <= fs < 65536 -> 0 <= ts < 65536 -> 0 <= fa < 65536 -> 0 <= ta < 65536 ->
  port_matches fa ta po = true -> (forall p, port_matches fs ts p = port_matches fa ta p) ->
  fs = fa /\ ts = ta.
Proof.
  intros Hfs Hts Hfa Hta Hpo B. pose proof (B (Some fa)) as B1. pose proof (B (Some ta)) as B2.
  pose proof (B (Some fs)) as B3. pose proof (B (Some ts)) as B4. pose proof (B None) as B5.
  clear B. unfold port_matches in *. destruct (Z.leb_spec fa ta).
  - assert (fs <= fa /\ ta <= ts) as [? ?] by lia. lia.
  - assert (fs > ts) by lia. destruct po as [p|]; [lia|]. lia.
Qed.

(** Two inhabited selectors with the same packets have the same bounds. *)
Lemma denotation_inj s a w :
  ts_ok s -> ts_ok a -> matches a w = true -> (forall pk, matches s pk = matches a pk) ->
  type s = type a /\ addr_val a (from s) = addr_val a (from a) /\
  addr_val a (to s) = addr_val a (to a) /\ protocol s = protocol a /\
  from_port s = from_port a /\ to_port s = to_port a.
Proof.
  intros Hs Ha Hw Heq. pose proof (Heq w) as Hsw. rewrite Hw in Hsw.
  destruct w as [ty ad pr po].
  assert (forall x p q, matches s (Pkt ty x p q) = matches a (Pkt ty x p q)) as Hall by (intros; apply Heq).
  unfold matches in *. cbn in *. bool_to_prop.
  assert (type s = type a) as Et by lia.
  assert (forall c, addr_val s c = addr_val a c) as Hv
    by (intros; unfold addr_val, ts_ip_len; by rewrite Et).
  rewrite !Hv in *.
  replace (negb (dynamic s)) with true in * by (destruct (dynamic s); done).
  replace (negb (dynamic a)) with true in * by (destruct (dynamic a); done).
  replace (type s =? ty) with true in * by lia. replace (type a =? ty) with true in * by lia.
  cbn [andb] in *. split; [done|].
  set (fs := addr_val a (from s)) in *. set (fa := addr_val a (from a)) in *.
  set (es := addr_val a (to s)) in *. set (ea := addr_val a (to a)) in *.
  assert (port_matches (from_port s) (to_port s) po = true) as Ps by done.
  assert (port_matches (from_port a) (to_port a) po = true) as Pa by done.
  assert (fs = fa /\ es = ea) as [Ef Eto].
  { assert (forall x, fs <= x <= es <-> fa <= x <= ea) as Hx.
    { intros x. specialize (Hall x pr po). rewrite Ps, Pa in Hall.
      replace ((protocol s =? 0) || (protocol s =? pr)) with true in Hall by lia.
      replace ((protocol a =? 0) || (protocol a =? pr)) with true in Hall by lia.
      rewrite !andb_true_r in Hall. lia. }
    pose proof (proj1 (Hx fs)). pose proof (proj1 (Hx es)). pose proof (proj2 (Hx fa)).
    pose proof (proj2 (Hx ea)). lia. }
  split; [done|]. split; [done|].
  assert (protocol s = protocol a) as Ep.
  { assert (forall p, (protocol s =? 0) || (protocol s =? p) = (protocol a =? 0) || (protocol a =? p))
      as Hx.
    { intros p. specialize (Hall ad p po). rewrite Ps, Pa in Hall.
      replace ((fs <=? ad) && (ad <=? es)) with true in Hall by lia.
      replace ((fa <=? ad) && (ad <=? ea)) with true in Hall by lia. cbn [andb] in Hall.
      by rewrite !andb_true_r in Hall. }
    pose proof (Hx (protocol s + protocol a + 1)). pose proof (Hx (protocol a)).
    pose proof (Hx (protocol s)). pose proof (ok_proto _ Hs). pose proof (ok_proto _ Ha). lia. }
  split; [done|].
  destruct (ok_ports _ Hs) as [Fs Ts]. destruct (ok_ports _ Ha) as [Fa Ta].
  assert (forall p, port_matches (from_port s) (to_port s) p = port_matches (from_port a) (to_port a) p)
    as B.
  { intros p. specialize (Hall ad pr p).
    replace ((fs <=? ad) && (ad <=? es) && ((protocol s =? 0) || (protocol s =? pr)))
      with true in Hall by lia.
    replace ((fa <=? ad) && (ad <=? ea) && ((protocol a =? 0) || (protocol a =? pr)))
      with true in Hall by lia. done. }
  by apply (ports_inj _ _ _ _ po).
Qed.

End TS.

(** * Properties *)

Import TS.

(** C35: [get_subset] computes the intersection. For well-formed selectors, the
    result matches exactly the packets both arguments match, in address, protocol
    and port, fragments with opaque ports included; it is never empty; and when
    there is no result the selectors share no packet, or one of them is still
    dynamic and so matches none. (The constructor rewrites ICMP types below 256,
    so the ports are required to be ones it leaves alone when the common protocol
    is ICMP.) *)
Theorem ts_get_subset_intersection (a b : traffic_selector) :
  ts_ok a -> ts_ok b -> stable_pair (Z.max (protocol a) (protocol b)) a b ->
  match get_subset a b with
  | Some s => ts_ok s /\ (forall pk, matches s pk = matches a pk && matches b pk) /\
              exists pk, matches s pk = true
  | None => forall pk, matches a pk && matches b pk = false
  end.
Proof.
  intros Ha Hb Hst. pose proof (get_subset_spec a b Ha Hb Hst) as H.
  destruct (get_subset a b); [|done]. destruct H as (?&?&?&?&?). done.
Qed.

(** 10.0.0.0/8 over all ports and 10.1.0.0 - 10.1.0.9 for UDP 500. *)
Definition example_net : traffic_selector := Eval vm_compute in
  match create_from_subnet (Host AF_INET [10; 0; 0; 0] 0) 8 0 0 65535 with
  | Some ts => ts | None => Build_traffic_selector 0 0 true 0 [] [] 0 0 end.
Definition example_range : traffic_selector := Eval vm_compute in
  match create_from_bytes 17 TS_IPV4_ADDR_RANGE [10; 1; 0; 0] 500 [10; 1; 0; 9] 500 with
  | Some ts => ts | None => Build_traffic_selector 0 0 true 0 [] [] 0 0 end.

(** Decides well-formedness of a concrete selector. *)
Ltac ts_ok_concrete :=
  constructor; cbn; [first [by left|by right]|split; [done|repeat constructor; unfold byte_ok; lia]
    |split; [done|repeat constructor; unfold byte_ok; lia]|lia|lia].

Lemma example_ok :
  ts_ok example_net /\ ts_ok example_range /\
  stable_pair (Z.max (protocol example_net) (protocol example_range)) example_net example_range /\
  stable_pair (Z.max (protocol example_range) (protocol example_net)) example_range example_net.
Proof.
  split; [ts_ok_concrete|]. split; [ts_ok_concrete|].
  unfold stable_pair, port_stable, IPPROTO_ICMP, IPPROTO_ICMPV6. cbn. lia.
Qed.

Lemma ts_get_subset_intersection_witness :
  exists s, get_subset example_net example_range = Some s /\
    netbits s = NON_SUBNET_ADDRESS_RANGE /\
    forall pk, matches s pk = matches example_net pk && matches example_range pk.
Proof.
  destruct example_ok as (Ha & Hb & Hst & _).
  pose proof (ts_get_subset_intersection example_net example_range Ha Hb Hst) as H.
  destruct (get_subset example_net example_range) as [s|] eqn:E; [|vm_compute in E; discriminate E].
  exists s. split; [reflexivity|]. split; [|exact (proj1 (proj2 H))].
  vm_compute in E. injection E as <-. reflexivity.
Defined.

(** [is_contained_in] decides inclusion. For well-formed selectors, the first
    of which matches some packet, it returns true if and only if every packet the
    first matches is matched by the second. *)
Theorem ts_contained_iff_subset (a b : traffic_selector) :
  ts_ok a -> ts_ok b -> stable_pair (Z.max (protocol a) (protocol b)) a b ->
  (exists pk, matches a pk = true) ->
  is_contained_in a b = true <-> forall pk, matches a pk = true -> matches b pk = true.
Proof.
  intros Ha Hb Hst [w Hw]. unfold is_contained_in.
  pose proof (get_subset_spec a b Ha Hb Hst) as H. destruct (get_subset a b) as [s|].
  - destruct H as (Hs & Hds & Hda & Hm & _). rewrite cmp_zero by done. split.
    + intros (Et & Ef & Eto & Ep & Efp & Etp) pk Hpk.
      enough (matches s pk = true) as Hsp by (rewrite Hm in Hsp; by apply andb_prop in Hsp as [_ ?]).
      unfold matches in *. rewrite Hds. rewrite Hda in Hpk.
      assert (forall c, addr_val s c = addr_val a c) as Hv
        by (intros; unfold addr_val, ts_ip_len; by rewrite Et).
      by rewrite !Hv, Et, Ef, Eto, Ep, Efp, Etp.
    + intros Hsub. apply (denotation_inj s a w); [done..|].
      intros pk. rewrite Hm. specialize (Hsub pk). destruct (matches a pk); [by rewrite Hsub|done].
  - split; [done|]. intros Hsub. specialize (H w). rewrite Hw, (Hsub w Hw) in H. done.
Qed.

Lemma ts_contained_iff_subset_witness :
  is_contained_in example_range example_net = true /\
  (forall pk, matches example_range pk = true -> matches example_net pk = true).
Proof.
  destruct example_ok as (Ha & Hb & _ & Hst).
  assert (is_contained_in example_range example_net = true) as Hc by (vm_compute; reflexivity).
  split; [exact Hc|]. apply (ts_contained_iff_subset example_range example_net Hb Ha Hst); [|exact Hc].
  exists (Pkt 7 (10 * 2 ^ 24 + 2 ^ 16 + 5) 17 (Some 500)). vm_compute. reflexivity.
Defined.
