(* ===== verification/Subnet.v ===== *)
(** Traffic selectors and subnets in CIDR notation: the range of a prefix
    ([calc_range]), the prefix of a range ([calc_netbits]) and the conversions
    built on them, of libstrongswan/selectors/traffic_selector.c. *)

From S2P Require Import Prelude Host TrafficSelector.
Import TS.

(** * Single bits *)

Lemma land_pow2 x k : 0 <= k -> Z.land (2 ^ k) x = if Z.testbit x k then 2 ^ k else 0.
Proof.
  intros Hk. apply Z.bits_inj'. intros n Hn. rewrite Z.land_spec, Z.pow2_bits_eqb by lia.
  destruct (Z.eqb_spec k n) as [<-|Hne].
  - destruct (Z.testbit x k); rewrite ?Z.pow2_bits_true, ?Z.bits_0 by lia; done.
  - destruct (Z.testbit x k); rewrite ?Z.pow2_bits_false, ?Z.bits_0 by lia; done.
Qed.

Lemma be_val_testbit c i b :
  bytes_ok c -> 0 <= i < len c -> 0 <= b < 8 ->
  Z.testbit (be_val c) (8 * (len c - 1 - i) + b) = Z.testbit (byte_at c i) b.
Proof.
  intros Hc. revert i. induction Hc as [|x c Hx Hc IH]; intros i Hi Hb; [rewrite len_nil in Hi; lia|].
  cbn [be_val]. rewrite len_cons in *. pose proof (be_val_range c Hc) as Hr.
  pose proof (len_nonneg c) as Hl.
  assert (256 ^ len c = 2 ^ (8 * len c)) as E by (rewrite Z.pow_mul_r by lia; done).
  rewrite E in *.
  destruct (Z.eqb_spec i 0) as [->|Hne].
  - replace (8 * (1 + len c - 1 - 0) + b) with (b + 8 * len c) by lia.
    rewrite <- Z.div_pow2_bits by lia. rewrite Z.div_add_l, Z.div_small by lia.
    by rewrite Z.add_0_r.
  - rewrite <- (Z.mod_pow2_bits_low _ (8 * len c)) by lia.
    rewrite Z.add_comm, Z.mod_add, Z.mod_small by lia.
    replace (8 * (1 + len c - 1 - i) + b) with (8 * (len c - 1 - (i - 1)) + b) by lia.
    rewrite IH by lia. unfold byte_at.
    replace (Z.to_nat i) with (S (Z.to_nat (i - 1))) by lia. done.
Qed.

(** Low bits, one more at a time. *)
Lemma mod_pow2_succ x k :
  0 <= k -> x mod 2 ^ (k + 1) = (if Z.testbit x k then 2 ^ k else 0) + x mod 2 ^ k.
Proof.
  intros Hk. rewrite Z.pow_add_r, Z.rem_mul_r by (try apply Z.pow_nonzero; lia).
  rewrite (Z.testbit_odd x k), Z.shiftr_div_pow2, <- Z.bit0_odd by lia.
  change (2 ^ 1) with 2. rewrite <- Z.bit0_mod. destruct (Z.testbit (x / 2 ^ k) 0); cbn [Z.b2z]; lia.
Qed.

Lemma div_pow2_succ x k :
  0 <= k -> x / 2 ^ k = 2 * (x / 2 ^ (k + 1)) + Z.b2z (Z.testbit x k).
Proof.
  intros Hk. rewrite Z.pow_add_r, <- Z.div_div by (try apply Z.pow_nonzero; lia).
  rewrite (Z.testbit_odd x k), Z.shiftr_div_pow2, <- Z.bit0_odd, Z.bit0_mod by lia.
  change (2 ^ 1) with 2. div_lia.
Qed.

(** * The prefix of a range *)

Section Netbits.
Context (F T N : Z).

(** The loop over the bits of the addresses, the [n] lowest still to be visited. *)
Fixpoint bit_loop (n : nat) (prefix : bool) (nb this_nb : Z) : Z * Z :=
  match n with
  | O => (nb, this_nb)
  | S n =>
    let k := Z.of_nat n in
    if prefix then
      if negb (Bool.eqb (Z.testbit F k) (Z.testbit T k))
      then bit_loop n false (N - 1 - k) (N - 1 - k)
      else bit_loop n prefix nb this_nb
    else if Z.testbit F k || negb (Z.testbit T k) then (nb, NON_SUBNET_ADDRESS_RANGE)
    else bit_loop n prefix nb this_nb
  end.

(** The addresses cover all values of the [m] lowest bits. *)
Definition low_full (m : Z) : bool := (F mod 2 ^ m =? 0) && (T mod 2 ^ m =? 2 ^ m - 1).

Lemma bit_loop_suffix n nb this_nb :
  bit_loop n false nb this_nb
  = (nb, if low_full (Z.of_nat n) then this_nb else NON_SUBNET_ADDRESS_RANGE).
Proof.
  induction n as [|n IH]; cbn [bit_loop]; [unfold low_full; by rewrite !Z.mod_1_r|].
  rewrite IH. unfold low_full.
  replace (Z.of_nat (S n)) with (Z.of_nat n + 1) by lia. rewrite !mod_pow2_succ by lia.
  pose proof (Z.mod_pos_bound F (2 ^ Z.of_nat n)). pose proof (Z.mod_pos_bound T (2 ^ Z.of_nat n)).
  assert (2 ^ (Z.of_nat n + 1) = 2 * 2 ^ Z.of_nat n) as -> by (rewrite Z.pow_add_r by lia; lia).
  assert (0 < 2 ^ Z.of_nat n) by lia.
  destruct (Z.testbit F (Z.of_nat n)), (Z.testbit T (Z.of_nat n)); cbn [orb negb];
    f_equal; case_if; try lia; done.
Qed.

(** [m] is the number of bits below the longest common prefix. *)
Definition split_at (m : Z) : Prop :=
  F / 2 ^ m = T / 2 ^ m /\ (0 < m -> F / 2 ^ (m - 1) <> T / 2 ^ (m - 1)).

Lemma bit_loop_prefix n :
  F <= T -> F / 2 ^ Z.of_nat n = T / 2 ^ Z.of_nat n ->
  exists m, 0 <= m <= Z.of_nat n /\ split_at m /\
    bit_loop n true N N = (N - m, if low_full m then N - m else NON_SUBNET_ADDRESS_RANGE).
Proof.
  intros Hle. induction n as [|n IH]; intros Heq; cbn [bit_loop].
  - exists 0. split; [lia|]. split; [split; [done|lia]|].
    unfold low_full. rewrite !Z.mod_1_r. cbn. by rewrite Z.sub_0_r.
  - replace (Z.of_nat (S n)) with (Z.of_nat n + 1) in Heq by lia.
    pose proof (div_pow2_succ F (Z.of_nat n)) as HF. pose proof (div_pow2_succ T (Z.of_nat n)) as HT.
    destruct (Z.testbit F (Z.of_nat n)) eqn:EF, (Z.testbit T (Z.of_nat n)) eqn:ET;
      cbn [Bool.eqb negb Z.b2z] in *.
    + destruct IH as (m & Hm & Hs & E); [lia|]. exists m. split; [lia|done].
    + pose proof (Z.div_le_mono F T (2 ^ Z.of_nat n)). lia.
    + exists (Z.of_nat n + 1). split; [lia|]. split.
      { split; [done|]. intros _. rewrite Z.add_simpl_r. lia. }
      rewrite bit_loop_suffix. replace (N - 1 - Z.of_nat n) with (N - (Z.of_nat n + 1)) by lia.
      f_equal. unfold low_full. rewrite !mod_pow2_succ, EF, ET by lia.
      assert (2 ^ (Z.of_nat n + 1) = 2 * 2 ^ Z.of_nat n) as -> by (rewrite Z.pow_add_r by lia; lia).
      case_if; try lia; done.
    + destruct IH as (m & Hm & Hs & E); [lia|]. exists m. split; [lia|done].
Qed.

(** The range is the block of all addresses that share their [N - m] first bits. *)
Definition is_block (m : Z) : Prop := F mod 2 ^ m = 0 /\ T = F + 2 ^ m - 1.

Lemma low_full_block m : 0 <= m -> F / 2 ^ m = T / 2 ^ m -> low_full m = true <-> is_block m.
Proof.
  intros Hm Heq. unfold low_full, is_block. pose proof (Z.pow_pos_nonneg 2 m).
  pose proof (Z.div_mod F (2 ^ m)). pose proof (Z.div_mod T (2 ^ m)).
  rewrite andb_true_iff, !Z.eqb_eq. rewrite <- Heq in *. lia.
Qed.

Lemma block_split m m' : 0 <= m -> 0 <= m' -> is_block m -> split_at m' -> m = m'.
Proof.
  intros Hm Hm' [B1 B2] [S1 S2].
  pose proof (Z.pow_pos_nonneg 2 m eq_refl Hm) as Hp. pose proof (Z.pow_pos_nonneg 2 m' eq_refl Hm') as Hp'.
  set (q := F / 2 ^ m). assert (F = q * 2 ^ m) as EF by (pose proof (Z.div_mod F (2 ^ m)); lia).
  destruct (Z.lt_trichotomy m m') as [Hlt|[?|Hgt]]; [|done|].
  - exfalso. apply S2; [lia|].
    replace (m' - 1) with (m + (m' - 1 - m)) by lia.
    rewrite Z.pow_add_r, <- !Z.div_div by (try apply Z.pow_nonzero; lia). f_equal.
    rewrite B2. rewrite EF at 2. rewrite <- Z.add_sub_assoc, Z.div_add_l by lia.
    rewrite (Z.div_small (2 ^ m - 1)) by lia. unfold q. lia.
  - exfalso. assert (2 ^ m = 2 ^ (m - m') * 2 ^ m') as E
      by (rewrite <- Z.pow_add_r by lia; f_equal; lia).
    assert (2 <= 2 ^ (m - m')) by (change 2 with (2 ^ 1) at 1; apply Z.pow_le_mono_r; lia).
    assert (T / 2 ^ m' = F / 2 ^ m' + 2 ^ (m - m') - 1) as E2; [|lia].
    rewrite B2, EF, E. rewrite Z.mul_assoc, Z.div_mul by lia.
    replace (q * 2 ^ (m - m') * 2 ^ m' + 2 ^ (m - m') * 2 ^ m' - 1)
      with ((q * 2 ^ (m - m') + 2 ^ (m - m') - 1) * 2 ^ m' + (2 ^ m' - 1)) by lia.
    rewrite Z.div_add_l, (Z.div_small (2 ^ m' - 1)) by lia. lia.
Qed.

End Netbits.

(** ** [calc_netbits] *)

Section Calc.
Context (ts : traffic_selector) (Hok : ts_ok ts).
Let L := ts_ip_len ts.
Let F := addr_val ts (from ts).
Let T := addr_val ts (to ts).
Let N := 8 * L.

(** The position the loops visit when the [k] lowest bits remain below it. *)
Definition position (k : Z) : Z * Z := (L - 1 - k / 8, k mod 8).

Lemma bit_positions_eq : bit_positions L = position <$> reverse (seqZ 0 N).
Proof.
  unfold N, position, L. destruct (ts_ip_len_cases ts) as [-> | ->]; vm_compute; reflexivity.
Qed.

Lemma addr_bit c k :
  len c = 16 -> bytes_ok c -> 0 <= k < N ->
  Z.land (u8 (Z.shiftl 1 (k mod 8))) (byte_at c (L - 1 - k / 8))
  = if Z.testbit (addr_val ts c) k then 2 ^ (k mod 8) else 0.
Proof.
  intros Hl Hc Hk. pose proof (ts_ip_len_pos ts) as HL. fold L in HL. unfold N in Hk.
  pose proof (Z.mod_pos_bound k 8 eq_refl) as Hb.
  assert (2 ^ (k mod 8) <= 2 ^ 7) by (apply Z.pow_le_mono_r; lia).
  rewrite Z.shiftl_1_l, (wrap_small 8) by (pose proof (Z.pow_pos_nonneg 2 (k mod 8)); lia).
  rewrite land_pow2 by lia. unfold addr_val. fold L.
  assert (len (take (Z.to_nat L) c) = L) as HlL by (apply len_take_exact; lia).
  assert (Z.testbit (be_val (take (Z.to_nat L) c)) k
          = Z.testbit (byte_at c (L - 1 - k / 8)) (k mod 8)) as ->; [|done].
  replace (Z.testbit _ k) with (Z.testbit (be_val (take (Z.to_nat L) c))
    (8 * (len (take (Z.to_nat L) c) - 1 - (L - 1 - k / 8)) + k mod 8))
    by (f_equal; rewrite HlL; div_lia).
  rewrite be_val_testbit; [|auto with chunk|rewrite HlL; div_lia|lia].
  unfold byte_at. rewrite lookup_take_lt; [done|]. div_lia.
Qed.

Lemma netbits_loop_eq n prefix nb this_nb :
  Z.of_nat n <= N ->
  netbits_loop (position <$> reverse (seqZ 0 (Z.of_nat n))) (from ts) (to ts) prefix nb this_nb
  = bit_loop F T N n prefix nb this_nb.
Proof.
  destruct (ok_from _ Hok) as [Lf Of]. destruct (ok_to _ Hok) as [Lt Ot].
  pose proof (ts_ip_len_pos ts) as HL. fold L in HL.
  revert prefix nb this_nb. induction n as [|n IH]; intros prefix nb this_nb Hn; [done|].
  rewrite seqZ_S, reverse_snoc, fmap_cons. rewrite Z.add_0_l.
  unfold position at 1. cbn [netbits_loop bit_loop]. cbv zeta.
  rewrite !addr_bit by (done || lia). fold F T.
  pose proof (Z.pow_pos_nonneg 2 (Z.of_nat n mod 8)) as Hp.
  pose proof (Z.mod_pos_bound (Z.of_nat n) 8 eq_refl).
  rewrite (wrap_small 8) by (unfold N in Hn; div_lia).
  replace (7 - Z.of_nat n mod 8 + (L - 1 - Z.of_nat n / 8) * 8) with (N - 1 - Z.of_nat n)
    by (unfold N; div_lia).
  rewrite !IH by lia.
  destruct (Z.testbit F (Z.of_nat n)), (Z.testbit T (Z.of_nat n)), prefix;
    cbn [Bool.eqb negb orb]; case_if; try lia; done.
Qed.

Lemma calc_netbits_eq :
  calc_netbits ts
  = (fst (bit_loop F T N (Z.to_nat N) true N N),
     set_netbits ts (snd (bit_loop F T N (Z.to_nat N) true N N))).
Proof.
  unfold calc_netbits. fold L. cbv zeta. pose proof (ts_ip_len_pos ts) as HL. fold L in HL.
  rewrite (Z.mul_comm L 8). fold N. rewrite (wrap_small 8) by (unfold N; lia).
  rewrite bit_positions_eq. rewrite <- (Z2Nat.id N) at 1 by (unfold N; lia).
  rewrite netbits_loop_eq by (rewrite Z2Nat.id; unfold N; lia).
  by destruct (bit_loop _ _ _ _ _ _ _).
Qed.

Lemma calc_netbits_split :
  F <= T -> exists m, 0 <= m <= N /\ split_at F T m /\
    calc_netbits ts
    = (N - m, set_netbits ts (if low_full F T m then N - m else NON_SUBNET_ADDRESS_RANGE)).
Proof.
  intros Hle. destruct (ok_from _ Hok) as [Lf Of]. destruct (ok_to _ Hok) as [Lt Ot].
  pose proof (addr_val_range ts _ Lf Of) as RF. pose proof (addr_val_range ts _ Lt Ot) as RT.
  pose proof (ts_ip_len_pos ts) as HL. fold L in RF, RT, HL. fold F N in RF. fold T N in RT.
  destruct (bit_loop_prefix F T N (Z.to_nat N)) as (m & Hm & Hs & E); [done| |].
  - rewrite Z2Nat.id by (unfold N; lia). by rewrite !Z.div_small.
  - exists m. rewrite Z2Nat.id in Hm by (unfold N; lia). rewrite calc_netbits_eq, E. done.
Qed.

End Calc.

(** ** [calc_range] *)

Lemma split3 (c : chunk) i j :
  0 <= i <= j -> j <= len c ->
  exists a b d, c = a ++ b ++ d /\ len a = i /\ len b = j - i /\ len d = len c - j.
Proof.
  intros Hi Hj. exists (take (Z.to_nat i) c), (take (Z.to_nat (j - i)) (drop (Z.to_nat i) c)),
    (drop (Z.to_nat (j - i)) (drop (Z.to_nat i) c)).
  rewrite !take_drop. split; [done|]. rewrite !len_take, !len_drop. lia.
Qed.

Lemma memcpy_app (a b src d : chunk) :
  length b = length src -> memcpy (a ++ b ++ d) (len a) src = a ++ src ++ d.
Proof.
  intros Hl. unfold memcpy, len. rewrite Nat2Z.id, take_app_length. do 2 f_equal.
  rewrite <- Hl, <- length_app, (assoc_L (++)). apply drop_app_length.
Qed.

Lemma update_app (a : chunk) x d f :
  update (a ++ x :: d) (len a) f = a ++ f x :: d.
Proof.
  unfold update, len, byte_at. destruct (Z.ltb_spec (Z.of_nat (length a)) 0); [lia|].
  rewrite Nat2Z.id, lookup_app_r, Nat.sub_diag by lia. cbn.
  rewrite insert_app_r_alt, Nat.sub_diag by lia. done.
Qed.

Lemma be_val_replicate_0 n : be_val (replicate n 0) = 0.
Proof. induction n as [|n IH]; cbn [replicate be_val]; lia. Qed.

Lemma be_val_replicate_255 n : be_val (replicate n 255) = 256 ^ Z.of_nat n - 1.
Proof.
  induction n as [|n IH]; [done|]. cbn [replicate be_val].
  rewrite IH, len_replicate, Nat2Z.inj_succ, Z.pow_succ_r by lia. lia.
Qed.

(** The mask on the byte the prefix ends in. *)
Lemma mask_byte bits x :
  0 <= bits < 8 -> byte_ok x ->
  let mask := u8 (if negb (bits =? 0) then Z.shiftl 1 bits - 1 else 0) in
  Z.land x (Z.lnot mask) = x - x mod 2 ^ bits /\
  Z.lor x mask = x - x mod 2 ^ bits + 2 ^ bits - 1 /\
  Z.land x (u8 (Z.shiftl 255 bits)) = x - x mod 2 ^ bits /\
  byte_ok (Z.land x (Z.lnot mask)) /\ byte_ok (Z.lor x mask).
Proof.
  intros Hb Hx.
  assert (forallb (fun bits =>
     let mask := u8 (if negb (bits =? 0) then Z.shiftl 1 bits - 1 else 0) in
     (Z.land x (Z.lnot mask) =? x - x mod 2 ^ bits) &&
     (Z.lor x mask =? x - x mod 2 ^ bits + 2 ^ bits - 1) &&
     (Z.land x (u8 (Z.shiftl 255 bits)) =? x - x mod 2 ^ bits) &&
     (0 <=? Z.land x (Z.lnot mask)) && (Z.land x (Z.lnot mask) <? 256) &&
     (0 <=? Z.lor x mask) && (Z.lor x mask <? 256)) (seqZ 0 8) = true) as H
    by (by_bytes x Hx).
  rewrite forallb_forall in H. specialize (H bits). cbv zeta in H |- *.
  assert (In bits (seqZ 0 8)) as Hin by (apply list_elem_of_In, elem_of_seqZ; lia).
  specialize (H Hin). bool_to_prop. unfold byte_ok. lia.
Qed.

(** The array updates, on arrays split in three. *)
Lemma fill_prefix (c a s q : chunk) i x m :
  c = a ++ s ++ q -> len a = i -> len s = m ->
  memset c i x m = a ++ replicate (Z.to_nat m) x ++ q.
Proof.
  intros -> <- <-. unfold memset. apply memcpy_app. rewrite length_replicate. unfold len. lia.
Qed.

Lemma copy_prefix (c f a a' e d : chunk) i :
  c = a' ++ d -> f = a ++ e -> len a = i -> len a' = i -> memcpy c 0 (take (Z.to_nat i) f) = a ++ d.
Proof.
  intros -> -> <- Hl. unfold len in *. rewrite Nat2Z.id, take_app_length.
  apply (memcpy_app [] a' a d). lia.
Qed.

Lemma take_prefix L (a s q : chunk) :
  len a + len s = L -> take (Z.to_nat L) (a ++ s ++ q) = a ++ s.
Proof.
  intros <-. rewrite (assoc_L (++)). apply take_app_length'. unfold len. rewrite length_app. lia.
Qed.

(** Rounding down to a multiple of a power of two, byte by byte. *)
Lemma prefix_value P x S bits m :
  0 <= bits <= 8 -> 0 <= m -> 0 <= S < 2 ^ (8 * m) ->
  let v := (P * 256 + x) * 2 ^ (8 * m) + S in
  v - v mod 2 ^ (8 * m + bits) = (P * 256 + (x - x mod 2 ^ bits)) * 2 ^ (8 * m).
Proof.
  intros Hb Hm HS v. set (M := 2 ^ (8 * m)) in *. assert (0 < M) by lia.
  assert (2 ^ (8 * m + bits) = M * 2 ^ bits) as -> by (unfold M; rewrite Z.pow_add_r by lia; lia).
  assert (0 < 2 ^ bits) by lia.
  rewrite Z.rem_mul_r by lia. unfold v. rewrite (Z.add_comm _ S), Z.mod_add, Z.mod_small by lia.
  rewrite Z.div_add, (Z.div_small S) by lia. rewrite Z.add_0_l.
  assert ((P * 256 + x) mod 2 ^ bits = x mod 2 ^ bits) as ->; [|lia].
  replace 256 with (2 ^ (8 - bits) * 2 ^ bits) by
    (rewrite <- Z.pow_add_r by lia; by replace (8 - bits + bits) with 8 by lia).
  rewrite Z.mul_assoc, Z.add_comm, Z.mod_add by lia. done.
Qed.

(** What a prefix of [n] bits of the value [v] covers. *)
Definition net_of (v size n : Z) : Z := v - v mod 2 ^ (size - n).

Lemma range_arrays ts n :
  ts_ok ts -> 0 <= n <= 8 * ts_ip_len ts ->
  let v := addr_val ts (from ts) in
  let size := 8 * ts_ip_len ts in
  exists f t, calc_range ts n = set_range ts n f t /\
    len f = 16 /\ len t = 16 /\ bytes_ok f /\ bytes_ok t /\
    addr_val ts f = net_of v size n /\ addr_val ts t = net_of v size n + 2 ^ (size - n) - 1.
Proof.
  intros Hok Hn v size. destruct (ok_from _ Hok) as [Lf Of]. destruct (ok_to _ Hok) as [Lt Ot].
  pose proof (ts_ip_len_pos ts) as HL. unfold calc_range, size, v, addr_val. set (L := ts_ip_len ts) in *.
  assert (0 <= (n + 7) / 8 <= L /\ 0 <= (n + 7) / 8 * 8 - n < 8) as [Hby Hbi] by (clear -Hn HL; div_lia).
  set (bytes := (n + 7) / 8) in *. set (bits := bytes * 8 - n) in *. cbv zeta.
  (* the two arrays, split where the prefix ends and where the address ends *)
  destruct (split3 (from ts) bytes L) as (a & s & q & Ef & La & Ls & Lq); [lia|lia|].
  destruct (split3 (to ts) bytes L) as (a' & s' & q' & Et & La' & Ls' & Lq'); [lia|lia|].
  rewrite (fill_prefix (from ts) a s q bytes 0 (L - bytes)) by (lia || done).
  rewrite (copy_prefix (to ts) (from ts) a a' (s ++ q) (s' ++ q') bytes) by (lia || done).
  rewrite (fill_prefix (a ++ s' ++ q') a s' q' bytes 255 (L - bytes)) by (lia || done).
  rewrite Ef in Of. rewrite !bytes_ok_app in Of. destruct Of as (Oa & Os & Oq).
  rewrite Et in Ot. rewrite !bytes_ok_app in Ot. destruct Ot as (_ & _ & Oq').
  eexists _, _. split; [reflexivity|]. rewrite Ef, (take_prefix L a s q) by lia.
  unfold net_of. replace (8 * L - n) with (8 * (L - bytes) + bits) by (unfold bits; lia).
  assert (0 <= L - bytes) as Hm by lia.
  assert (bytes = 0 -> bits = 0) as Hb0 by (intros; lia). clearbody bits bytes L.
  destruct (Z.eqb_spec bytes 0) as [->|H0].
  - apply len_zero_inv in La. subst a. rewrite Hb0 by done.
    unfold update. cbn [app]. change (0 - 1 <? 0) with true. cbv iota.
    rewrite !take_app_length' by (rewrite length_replicate; lia).
    rewrite be_val_replicate_0, be_val_replicate_255.
    pose proof (be_val_range s Os) as Hs. rewrite Ls in Hs.
    rewrite Z.add_0_r, Z.pow_mul_r by lia. change (2 ^ 8) with 256.
    rewrite Z2Nat.id, Z.mod_small by lia.
    rewrite !len_app, !len_replicate, !bytes_ok_app. unfold len in *.
    split_and!; try done; try lia; apply Forall_replicate; unfold byte_ok; lia.
  - destruct (exists_last (l := a)) as (p & x & ->); [by intros ->; cbn in La|].
    rewrite len_app, len_cons, len_nil in La. apply bytes_ok_app in Oa as [Op Ox].
    apply Forall_cons_1 in Ox as [Ox _].
    destruct (mask_byte bits x) as (E1 & E2 & _ & O1 & O2); [lia|done|]. cbv zeta in E1, E2, O1, O2.
    replace (bytes - 1) with (len p) by lia. rewrite <- !(assoc_L (++)). cbn [app].
    rewrite !update_app. rewrite E1, E2 in *.
    assert (forall y b w, len w = len q -> len (p ++ y :: replicate (Z.to_nat (L - bytes)) b ++ w) = 16) as Hlen.
    { intros y b w Hw. rewrite len_app, len_cons, len_app, len_replicate, Hw, Lq, Lf. lia. }
    assert (forall y b w, byte_ok y -> byte_ok b -> bytes_ok w ->
      bytes_ok (p ++ y :: replicate (Z.to_nat (L - bytes)) b ++ w)) as Hbytes.
    { intros y b w Hy Hb Hw. apply bytes_ok_app. split; [done|]. constructor; [done|].
      apply bytes_ok_app. split; [by apply Forall_replicate|done]. }
    assert (forall y z, len z = L - bytes ->
      be_val (p ++ y :: z) = (be_val p * 256 + y) * 2 ^ (8 * (L - bytes)) + be_val z) as Hval.
    { intros y z Hz. replace (p ++ y :: z) with ((p ++ [y]) ++ z) by by rewrite <- (assoc_L (++)).
      rewrite !be_val_app, Hz, len_cons, len_nil. cbn [be_val]. rewrite len_nil, Z.pow_mul_r by lia.
      change (2 ^ 8) with 256. rewrite Z.add_0_r, Z.pow_1_r, Z.pow_0_r. lia. }
    assert (forall y z w, len z = L - bytes -> take (Z.to_nat L) (p ++ y :: z ++ w) = p ++ y :: z) as Htake.
    { intros y z w Hz. apply (take_prefix L p (y :: z) w). rewrite len_cons. lia. }
    rewrite !Htake, !Hval by (rewrite ?len_replicate; lia).
    rewrite be_val_replicate_0, be_val_replicate_255.
    rewrite prefix_value; [|lia|lia|].
    2: { pose proof (be_val_range s Os) as Hs. rewrite Ls in Hs. rewrite Z.pow_mul_r by lia. done. }
    assert (2 ^ (8 * (L - bytes) + bits) = 2 ^ (8 * (L - bytes)) * 2 ^ bits) as -> by (rewrite Z.pow_add_r; lia).
    assert (256 ^ Z.of_nat (Z.to_nat (L - bytes)) = 2 ^ (8 * (L - bytes))) as ->
      by (rewrite Z2Nat.id, Z.pow_mul_r by lia; done).
    split_and!; try (apply Hlen; lia); try (apply Hbytes; done || (unfold byte_ok; lia)); lia.
Qed.

Lemma calc_range_spec ts n :
  ts_ok ts -> 0 <= n <= 8 * ts_ip_len ts ->
  let r := calc_range ts n in
  let v := addr_val ts (from ts) in
  let size := 8 * ts_ip_len ts in
  ts_ok r /\ netbits r = n /\
  addr_val r (from r) = net_of v size n /\
  addr_val r (to r) = net_of v size n + 2 ^ (size - n) - 1.
Proof.
  intros Hok Hn r v size. destruct (ok_from _ Hok) as [Lf Of]. destruct (ok_to _ Hok) as [Lt Ot].
  pose proof (ts_ip_len_pos ts) as HL.
  destruct (range_arrays ts n Hok Hn) as (f & t & E & Hlf & Hlt & Hof & Hot & Hf & Ht).
  unfold r. rewrite E. split; [|split; [done|]].
  - split; cbn; [apply Hok|done|done|apply Hok|apply Hok].
  - cbn [from to set_range]. done.
Qed.

(** ** [to_subnet] *)

Definition family_of (ts : traffic_selector) : Z :=
  if type ts =? TS_IPV4_ADDR_RANGE then AF_INET else AF_INET6.

Lemma subnet_array ts n :
  ts_ok ts -> 0 < n <= 8 * ts_ip_len ts ->
  let L := ts_ip_len ts in
  let nz := (n + 7) / 8 in
  let net := update (memcpy (zeroes L) 0 (take (Z.to_nat nz) (from ts))) (nz - 1)
               (fun x => Z.land x (u8 (Z.shiftl 255 (8 * nz - n)))) in
  len net = L /\ bytes_ok net /\ be_val net = net_of (addr_val ts (from ts)) (8 * L) n.
Proof.
  intros Hok Hn. destruct (ok_from _ Hok) as [Lf Of]. pose proof (ts_ip_len_pos ts) as HL.
  cbv zeta. unfold addr_val, net_of. set (L := ts_ip_len ts) in *.
  assert (1 <= (n + 7) / 8 <= L /\ 0 <= (n + 7) / 8 * 8 - n < 8) as [Hby Hbi] by (clear -Hn HL; div_lia).
  set (nz := (n + 7) / 8) in *. rewrite (Z.mul_comm 8 nz). set (bits := nz * 8 - n) in *.
  destruct (split3 (from ts) nz L) as (a & s & q & Ef & La & Ls & Lq); [lia|lia|].
  rewrite (copy_prefix (zeroes L) (from ts) a (zeroes nz) (s ++ q) (zeroes (L - nz)) nz);
    [|unfold zeroes; rewrite <- replicate_add; f_equal; lia|done|done|
      unfold zeroes; rewrite len_replicate; lia].
  rewrite Ef in *. rewrite (take_prefix L a s q) by lia.
  rewrite !bytes_ok_app in Of. destruct Of as (Oa & Os & _).
  replace (8 * L - n) with (8 * (L - nz) + bits) by (unfold bits; lia).
  assert (0 <= L - nz) as Hm by lia. clearbody bits nz L.
  destruct (exists_last (l := a)) as (p & x & ->); [intros ->; rewrite len_nil in La; lia|].
  rewrite len_app, len_cons, len_nil in La. apply bytes_ok_app in Oa as [Op Ox].
  apply Forall_cons_1 in Ox as [Ox _].
  destruct (mask_byte bits x) as (_ & _ & E3 & _ & _); [lia|done|]. cbv zeta in E3.
  replace (nz - 1) with (len p) by lia. rewrite <- !(assoc_L (++)). cbn [app].
  rewrite update_app, E3. pose proof (Z.mod_pos_bound x (2 ^ bits)) as Hmod.
  assert (0 <= x mod 2 ^ bits <= x) by (split; [lia|apply Z.mod_le; unfold byte_ok in Ox; lia]).
  assert (len (zeroes (L - nz)) = L - nz) as Lz by (unfold zeroes; rewrite len_replicate; lia).
  rewrite len_app, len_cons, Lz. split; [lia|]. split.
  { apply bytes_ok_app. split; [done|]. constructor; [unfold byte_ok in *; lia|].
    apply Forall_replicate. unfold byte_ok. lia. }
  rewrite !be_val_app. cbn [be_val]. rewrite !len_cons, Lz, Ls. unfold zeroes.
  rewrite be_val_replicate_0. pose proof (be_val_range s Os) as Hs. rewrite Ls in Hs.
  pose proof (prefix_value (be_val p) x (be_val s) bits (L - nz)) as HP. cbv zeta in HP.
  rewrite Z.pow_mul_r in HP by lia. change (2 ^ 8) with 256 in HP.
  rewrite Z.pow_add_r, Z.pow_1_r by lia.
  replace (be_val p * (256 * 256 ^ (L - nz)) + (x * 256 ^ (L - nz) + be_val s))
    with ((be_val p * 256 + x) * 256 ^ (L - nz) + be_val s) by ring.
  rewrite HP by lia. ring.
Qed.

Lemma to_subnet_spec ts :
  ts_ok ts -> 0 <= netbits ts <= 8 * ts_ip_len ts ->
  exists net, to_subnet ts
    = (true, Some (Host (family_of ts) net (if to_port ts =? from_port ts then to_port ts else 0)),
       netbits ts, ts) /\
    len net = ts_ip_len ts /\ bytes_ok net /\
    be_val net = net_of (addr_val ts (from ts)) (8 * ts_ip_len ts) (netbits ts).
Proof.
  intros Hok Hn. pose proof (ts_ip_len_pos ts) as HL. destruct (ok_from _ Hok) as [Lf Of].
  unfold to_subnet. destruct (Z.eqb_spec (netbits ts) NON_SUBNET_ADDRESS_RANGE) as [E|E];
    [unfold NON_SUBNET_ADDRESS_RANGE in E; lia|].
  assert ((if type ts =? TS_IPV4_ADDR_RANGE then (AF_INET, IPV4_LEN) else (AF_INET6, IPV6_LEN))
          = (family_of ts, ts_ip_len ts)) as -> by (unfold family_of, ts_ip_len; by case_if).
  cbv beta iota zeta. rewrite (proj2 (Z.eqb_neq _ _) E).
  set (net := if negb (netbits ts =? 0) then _ else _).
  assert (len net = ts_ip_len ts /\ bytes_ok net /\
          be_val net = net_of (addr_val ts (from ts)) (8 * ts_ip_len ts) (netbits ts)) as (Ln & On & Vn).
  { unfold net. destruct (Z.eqb_spec (netbits ts) 0) as [E0|E0]; cbn [negb].
    - unfold zeroes. rewrite len_replicate, be_val_replicate_0, E0. unfold net_of.
      pose proof (addr_val_range ts _ Lf Of). rewrite Z.sub_0_r, Z.mod_small by done.
      split_and!; [lia|apply Forall_replicate; unfold byte_ok; lia|lia].
    - apply subnet_array; [done|lia]. }
  exists net. split_and!; try done. do 3 f_equal.
  unfold host_create_from_chunk, family_of, ts_ip_len, IPV4_LEN, IPV6_LEN in *.
  destruct (type ts =? TS_IPV4_ADDR_RANGE); cbn [Z.eqb AF_INET AF_INET6];
    rewrite Ln; cbn; do 2 f_equal; apply take_ge; unfold len in Ln; lia.
Qed.

(** ** Selectors built from hosts *)

Lemma icmp_port_range proto port : 0 <= port < 65536 -> 0 <= icmp_port proto port < 65536.
Proof. intros. unfold icmp_port. case_if; try done; apply (wrap_range 16); lia. Qed.

(** The selector [create_from_subnet] narrows. *)
Lemma subnet_base net proto fp tp :
  host_ok net -> 0 <= proto < 256 -> 0 <= fp < 65536 -> 0 <= tp < 65536 ->
  exists base, (forall nb, create_from_subnet net nb proto fp tp
                           = Some (calc_range base (Z.min nb (ts_ip_len base * 8)))) /\
    ts_ok base /\ ts_ip_len base = len (get_address net) /\ family_of base = get_family net /\
    addr_val base (from base) = be_val (get_address net).
Proof.
  intros Hh Hp Hfp Htp. pose proof (icmp_port_range proto fp Hfp). pose proof (icmp_port_range proto tp Htp).
  pose proof (get_address_ok net Hh) as Ea. destruct Hh as [Hfam Hl Hb _].
  unfold create_from_subnet, traffic_selector_create, get_family.
  set (ty := if sa_family net =? AF_INET then TS_IPV4_ADDR_RANGE else TS_IPV6_ADDR_RANGE).
  set (addr := get_address net) in *. rewrite <- Ea in Hl, Hb.
  exists (set_range {| type := ty; protocol := proto; dynamic := false; netbits := 0;
    from := zeroes IPV6_LEN; to := zeroes IPV6_LEN; from_port := icmp_port proto fp;
    to_port := icmp_port proto tp |} 0 (memcpy (zeroes IPV6_LEN) 0 addr) (zeroes IPV6_LEN)).
  assert (len addr <= 16) as Hl16 by (rewrite Hl; unfold IPV4_LEN, IPV6_LEN; case_if; lia).
  split; [|split; [|split; [|split]]].
  - intros nb. unfold ty. destruct Hfam as [E|E]; rewrite E; reflexivity.
  - split; cbn; [unfold ty; case_if; auto|split|split|done|done].
    + rewrite len_memcpy; [done|lia|]. change (len (zeroes IPV6_LEN)) with 16. lia.
    + apply bytes_ok_memcpy; [|done]. repeat constructor; unfold byte_ok; lia.
    + done.
    + repeat constructor; unfold byte_ok; lia.
  - unfold ts_ip_len. cbn. rewrite Hl. unfold ty. by destruct (sa_family net =? AF_INET).
  - unfold family_of. cbn. unfold ty. destruct Hfam as [E|E]; rewrite E; done.
  - unfold addr_val, ts_ip_len. cbn. rewrite take_memcpy; [done|].
    assert ((if ty =? TS_IPV4_ADDR_RANGE then IPV4_LEN else IPV6_LEN) = len addr) as ->
      by (rewrite Hl; unfold ty; by destruct (sa_family net =? AF_INET)).
    unfold len. lia.
Qed.

Lemma set_netbits_id ts : set_netbits ts (netbits ts) = ts.
Proof. by destruct ts. Qed.

(** Which addresses lie in the block of a prefix. *)
Lemma in_block x v k :
  0 <= k -> ((v - v mod 2 ^ k <=? x) && (x <=? v - v mod 2 ^ k + 2 ^ k - 1)) = (x / 2 ^ k =? v / 2 ^ k).
Proof.
  intros Hk. assert (0 < 2 ^ k) by lia. set (M := 2 ^ k) in *. clearbody M.
  destruct (Z.eqb_spec (x / M) (v / M)) as [E|E].
  - pose proof (Z.div_mod x M). pose proof (Z.div_mod v M). pose proof (Z.mod_pos_bound x M).
    rewrite E in *. lia.
  - apply andb_false_iff. destruct (Z.lt_trichotomy (x / M) (v / M)) as [Hlt|[?|Hgt]]; [left|done|right].
    + apply Z.leb_gt. pose proof (Z.div_mod x M). pose proof (Z.div_mod v M).
      pose proof (Z.mod_pos_bound x M). nia.
    + apply Z.leb_gt. pose proof (Z.div_mod x M). pose proof (Z.div_mod v M).
      pose proof (Z.mod_pos_bound x M). nia.
Qed.

Lemma includes_spec ts h :
  ts_ok ts -> host_ok h ->
  includes ts h = (get_family h =? family_of ts)
    && ((addr_val ts (from ts) <=? be_val (get_address h)) && (be_val (get_address h) <=? addr_val ts (to ts))).
Proof.
  intros Hok Hh. destruct (ok_from _ Hok) as [Lf Of]. destruct (ok_to _ Hok) as [Lt Ot].
  unfold includes. destruct (family_matches ts h) eqn:Em.
  - assert (get_family h = family_of ts /\ Z.of_nat (length (get_address h)) = ts_ip_len ts) as [Ef El].
    { rewrite (get_address_ok h Hh). fold (len (sin_addr h)). rewrite (host_len h Hh).
      unfold family_matches, family_of, ts_ip_len, get_family in *.
      destruct (ok_type _ Hok) as [E|E], (host_family h Hh) as [E2|E2]; rewrite E, E2 in Em |- *;
        first [discriminate Em|by split]. }
    rewrite Ef, Z.eqb_refl. cbn [andb]. unfold addr_val. rewrite <- El, Nat2Z.id.
    rewrite (get_address_ok h Hh) in *. pose proof (host_bytes h Hh).
    pose proof (ts_ip_len_pos ts). rewrite !memcmp_be_val; auto with chunk;
      try (rewrite length_take; unfold len in *; lia).
    repeat match goal with |- context [?a ?= ?b] => destruct (Z.compare_spec a b) end; lia.
  - destruct (Z.eqb_spec (get_family h) (family_of ts)) as [E|E]; [|done]. exfalso.
    unfold family_matches, family_of in *. rewrite E in Em.
    destruct (ok_type _ Hok) as [E1|E1]; rewrite E1 in Em; discriminate Em.
Qed.

(** * Properties *)

(** [calc_netbits] recognises CIDR blocks. For a selector whose range is not
    reversed: the value returned is the length of the longest common prefix of
    the first and the last address; and the length recorded in the selector is
    that value if the range is exactly the block of all addresses with this
    prefix, and otherwise, if the range is no block for any length, the marker
    255 of a range that is no subnet. *)
Theorem ts_calc_netbits_spec (ts : traffic_selector) :
  ts_ok ts -> addr_val ts (from ts) <= addr_val ts (to ts) ->
  let F := addr_val ts (from ts) in
  let T := addr_val ts (to ts) in
  let size := 8 * ts_ip_len ts in
  let '(prefix, ts') := calc_netbits ts in
  0 <= prefix <= size /\
  F / 2 ^ (size - prefix) = T / 2 ^ (size - prefix) /\
  (prefix < size -> F / 2 ^ (size - prefix - 1) <> T / 2 ^ (size - prefix - 1)) /\
  ((netbits ts' = prefix /\ is_block F T (size - prefix)) \/
   (netbits ts' = NON_SUBNET_ADDRESS_RANGE /\
    forall n, 0 <= n <= size -> ~ is_block F T (size - n))).
Proof.
  intros Hok Hle F T size. destruct (calc_netbits_split ts Hok Hle) as (m & Hm & Hs & ->).
  fold size in Hm |- *. replace (size - (size - m)) with m by lia.
  pose proof Hs as [S1 S2]. split; [lia|]. split; [done|]. split; [intros; apply S2; lia|].
  cbn [netbits set_netbits set_range].
  pose proof (low_full_block F T m) as Hb. fold F T in Hs, S1, S2 |- *. destruct (low_full F T m).
  - left. split; [done|]. apply Hb; done || lia.
  - right. split; [done|]. intros n Hn Hbl.
    pose proof (block_split F T (size - n) m) as Heq. rewrite Heq in Hbl by (done || lia).
    apply Hb in Hbl; done || lia.
Qed.

Lemma ts_calc_netbits_spec_witness :
  netbits example_net = 8 /\ fst (calc_netbits example_range) = 28 /\
  forall n, 0 <= n <= 32 -> ~ is_block (addr_val example_range (from example_range))
                                       (addr_val example_range (to example_range)) (32 - n).
Proof.
  split; [reflexivity|]. split; [vm_compute; reflexivity|].
  destruct example_ok as (_ & Hb & _).
  assert (addr_val example_range (from example_range) <= addr_val example_range (to example_range))
    as Hle by (vm_compute; discriminate).
  pose proof (ts_calc_netbits_spec example_range Hb Hle) as H. cbv zeta in H.
  destruct (calc_netbits example_range) as [r ts'] eqn:E. vm_compute in E. injection E as <- <-.
  destruct H as (_ & _ & _ & [[H _]|[_ H]]); [discriminate H|exact H].
Defined.

(** Selectors and subnets. The selector built from the network of a host and
    a prefix length (cut to the address size) includes exactly the hosts of that
    family whose leading bits agree with the network, its recorded length is the
    prefix length and agrees with the one [calc_netbits] finds, and [to_subnet]
    gives back the network address with that length and reports a true subnet. *)
Theorem ts_subnet_roundtrip (net : host_t) (nb proto fp tp : Z) :
  host_ok net -> 0 <= nb < 256 -> 0 <= proto < 256 -> 0 <= fp < 65536 -> 0 <= tp < 65536 ->
  exists ts, create_from_subnet net nb proto fp tp = Some ts /\ ts_ok ts /\
    let size := 8 * len (get_address net) in
    let n := Z.min nb size in
    let v := be_val (get_address net) in
    netbits ts = n /\
    (forall h, host_ok h ->
       includes ts h = (get_family h =? get_family net) && (be_val (get_address h) / 2 ^ (size - n) =? v / 2 ^ (size - n))) /\
    calc_netbits ts = (n, ts) /\
    exists addr port, to_subnet ts = (true, Some (Host (get_family net) addr port), n, ts) /\
      len addr = len (get_address net) /\ be_val addr = v / 2 ^ (size - n) * 2 ^ (size - n).
Proof.
  intros Hh Hnb Hp Hfp Htp. destruct (subnet_base net proto fp tp Hh Hp Hfp Htp)
    as (base & Hc & Hok & HL & Hfam & Hv).
  rewrite Hc, HL, (Z.mul_comm _ 8). set (size := 8 * len (get_address net)). set (n := Z.min nb size).
  assert (0 <= n <= size) as Hn by (pose proof (len_nonneg (get_address net)); unfold n, size; lia).
  destruct (calc_range_spec base n Hok) as (Hrok & Hnb' & Hf & Ht); [by rewrite HL|].
  rewrite HL in Hf, Ht. fold size in Hf, Ht. set (r := calc_range base n) in *.
  assert (ts_ip_len r = len (get_address net)) as HLr by (rewrite <- HL; done).
  assert (family_of r = get_family net) as Hfr by (rewrite <- Hfam; done).
  exists r. split; [done|]. split; [done|]. cbv zeta. fold size n. rewrite <- Hv.
  set (v := addr_val base (from base)) in *.
  assert (net_of v size n = v / 2 ^ (size - n) * 2 ^ (size - n)) as Hnet.
  { unfold net_of. pose proof (Z.div_mod v (2 ^ (size - n))). lia. }
  split; [done|]. split; [|split].
  - intros h Hhok. rewrite (includes_spec r h Hrok Hhok), Hfr, Hf, Ht. f_equal.
    apply in_block. lia.
  - destruct (calc_netbits_split r Hrok) as (m & Hm & Hs & E); [rewrite Hf, Ht; lia|].
    rewrite HLr in Hm, E. fold size in Hm, E.
    assert (is_block (addr_val r (from r)) (addr_val r (to r)) (size - n)) as Hbl.
    { split; [rewrite Hf, Hnet; apply Z.mod_mul; lia|lia]. }
    assert (m = size - n) as -> by (symmetry; eapply block_split; [..|exact Hbl|exact Hs]; lia).
    rewrite E. replace (size - (size - n)) with n by lia.
    assert (low_full (addr_val r (from r)) (addr_val r (to r)) (size - n) = true) as ->
      by (apply low_full_block; [lia|apply Hs|done]).
    by rewrite <- Hnb', set_netbits_id.
  - destruct (to_subnet_spec r Hrok) as (addr & E & Hla & _ & Hva); [rewrite Hnb', HLr; done|].
    rewrite E, Hfr, Hnb'. eexists _, _. split; [done|]. split; [by rewrite Hla|].
    rewrite Hva, HLr, Hf, Hnb'. fold size. rewrite Hnet. unfold net_of.
    rewrite Z.mod_mul by lia. lia.
Qed.

Lemma ts_subnet_roundtrip_witness :
  exists ts, create_from_subnet (Host AF_INET [192; 168; 77; 5] 0) 20 0 0 65535 = Some ts /\
    includes ts (Host AF_INET [192; 168; 79; 255] 0) = true /\
    includes ts (Host AF_INET [192; 168; 80; 0] 0) = false /\
    calc_netbits ts = (20, ts).
Proof.
  assert (forall a, bytes_ok a -> len a = 4 -> host_ok (Host AF_INET a 0)) as Hh.
  { intros a Ha Hl. constructor; cbn; [by left|exact Hl|exact Ha|lia]. }
  destruct (ts_subnet_roundtrip (Host AF_INET [192; 168; 77; 5] 0) 20 0 0 65535)
    as (ts & E & _ & _ & Hin & Hc & _); try lia.
  { apply Hh; [repeat constructor; unfold byte_ok; lia|reflexivity]. }
  exists ts. split; [exact E|]. split; [|split; [|exact Hc]].
  - rewrite Hin; [reflexivity|]. apply Hh; [repeat constructor; unfold byte_ok; lia|reflexivity].
  - rewrite Hin; [reflexivity|]. apply Hh; [repeat constructor; unfold byte_ok; lia|reflexivity].
Defined.
