(* ===== verification/Scheduler.v ===== *)
(** The job scheduler of libstrongswan/processing/scheduler.c: timed events in an
    array heap that grows by doubling. The abstract specification is the multiset
    of scheduled events, of which the earliest is removed first. *)

From Stdlib Require Import Sorted.
From S2P Require Import Prelude.

(** * Times *)

Record timeval := Tv { tv_sec : Z; tv_usec : Z }.

(** [timercmp(a, b, <)] of sys/time.h: lexicographic. *)
Definition tv_lt (a b : timeval) : bool :=
  if tv_sec a =? tv_sec b then tv_usec a <? tv_usec b else tv_sec a <? tv_sec b.

(** [timeradd]. *)
Definition timeradd (a b : timeval) : timeval :=
  let sec := tv_sec a + tv_sec b in
  let usec := tv_usec a + tv_usec b in
  if usec >=? 1000000 then Tv (sec + 1) (usec - 1000000) else Tv sec usec.

Definition tv_le (a b : timeval) : Prop := tv_lt b a = false.

Section Scheduler.
Context {Job : Type}.

Record event_t := Ev { time : timeval; job : Job }.

(** [heap] is the allocated array of [heap_size + 1] pointers, slot 0 unused. *)
Record scheduler := {
  heap : list (option event_t);
  heap_size : Z;
  event_count : Z;
}.

Definition HEAP_SIZE_DEFAULT : Z := 64.

(** * Array accesses *)

Definition slots (h : list (option event_t)) : Z := Z.of_nat (length h).

(** Reads a pointer that is then dereferenced: a null pointer or an index outside
    the array is a failure. *)
Definition hget (h : list (option event_t)) (i : Z) : option event_t :=
  if i <? 0 then None else mjoin (h !! Z.to_nat i).

(** Stores a pointer: an index outside the array is a failure. *)
Definition hput (h : list (option event_t)) (i : Z) (e : event_t)
    : option (list (option event_t)) :=
  if (i <? 0) || (slots h <=? i) then None else Some (<[Z.to_nat i := Some e]> h).

(** * Operations *)

(** [scheduler_create]: [calloc] zeroes the array. *)
Definition scheduler_create : scheduler :=
  {| heap := replicate (Z.to_nat (HEAP_SIZE_DEFAULT + 1)) None;
     heap_size := HEAP_SIZE_DEFAULT; event_count := 0 |}.

Definition peek_event (this : scheduler) : option event_t :=
  if event_count this >? 0 then hget (heap this) 1 else None.

(** The loop that seeps [top] down from [position]; one unit of fuel per step. *)
Fixpoint seep_down (fuel : nat) (h : list (option event_t)) (count position : Z)
    (top : event_t) : option (list (option event_t)) :=
  match fuel with
  | O => None
  | S fuel =>
    if Z.shiftl position 1 <=? count then
      let child := Z.shiftl position 1 in
      left_child ← hget h child;
      child ← (if child + 1 <=? count then
                 right_child ← hget h (child + 1);
                 Some (if tv_lt (time right_child) (time left_child) then child + 1 else child)
               else Some child);
      smaller ← hget h child;
      if negb (tv_lt (time smaller) (time top)) then hput h position top
      else h ← hput h position smaller; seep_down fuel h count child top
    else hput h position top
  end.

(** [None] is a bad access; [Some (None, _)] the empty heap. *)
Definition remove_event (this : scheduler) : option (option event_t * scheduler) :=
  if event_count this =? 0 then Some (None, this)
  else
    event ← hget (heap this) 1;
    top ← hget (heap this) (event_count this);
    h ← hput (heap this) 1 top;
    let count := event_count this - 1 in
    h ← (if count >? 1 then seep_down (Z.to_nat count) h count 1 top else Some h);
    Some (Some event, {| heap := h; heap_size := heap_size this; event_count := count |}).

(** The loop that moves the hole at [position] up past later events. *)
Fixpoint bubble_up (fuel : nat) (h : list (option event_t)) (position : Z)
    (event : event_t) : option (list (option event_t)) :=
  match fuel with
  | O => None
  | S fuel =>
    if position >? 1 then
      parent ← hget h (Z.shiftr position 1);
      if tv_lt (time event) (time parent) then
        h ← hput h position parent; bubble_up fuel h (Z.shiftr position 1) event
      else hput h position event
    else hput h position event
  end.

(** [realloc] keeps the old slots; the contents of the new ones are arbitrary. *)
Definition schedule_job_tv (fresh : nat -> list (option event_t)) (this : scheduler)
    (job : Job) (tv : timeval) : option scheduler :=
  let event := Ev tv job in
  let count := u32 (event_count this + 1) in
  let '(h, size) :=
    if count >? heap_size this then
      let size := u32 (Z.shiftl (heap_size this) 1) in
      let n := Z.to_nat (size + 1) in
      (take n (heap this ++ fresh n), size)
    else (heap this, heap_size this) in
  h ← bubble_up (Z.to_nat count) h count event;
  Some {| heap := h; heap_size := size; event_count := count |}.

Definition schedule_job fresh (this : scheduler) (now : timeval) (job : Job) (s : Z) :=
  schedule_job_tv fresh this job (Tv (tv_sec now + s) (tv_usec now)).

Definition schedule_job_ms fresh (this : scheduler) (now : timeval) (job : Job) (ms : Z) :=
  schedule_job_tv fresh this job (timeradd now (Tv (ms / 1000) (ms mod 1000 * 1000))).

Definition get_job_load (this : scheduler) : Z := event_count this.

(** What one run of the worker callback does at time [now]: hand a job to the
    processor, or sleep until the next event's time or a signal. *)
Inductive outcome :=
| QueueJob (e : event_t)
| WaitUntil (t : timeval)
| Wait.

Definition schedule (this : scheduler) (now : timeval) : option (outcome * scheduler) :=
  match peek_event this with
  | Some event =>
    if negb (tv_lt now (time event)) then
      r ← remove_event this; Some (QueueJob event, snd r)
    else Some (WaitUntil (time event), this)
  | None => Some (Wait, this)
  end.

(** [flush]: the events in the order they are destroyed. *)
Fixpoint flush_loop (fuel : nat) (this : scheduler) : option (list event_t * scheduler) :=
  match fuel with
  | O => None
  | S fuel =>
    r ← remove_event this;
    match r with
    | (None, this) => Some ([], this)
    | (Some event, this) => '(es, this) ← flush_loop fuel this; Some (event :: es, this)
    end
  end.

Definition flush (this : scheduler) : option (list event_t * scheduler) :=
  flush_loop (S (Z.to_nat (event_count this))) this.

End Scheduler.
Arguments event_t : clear implicits.
Arguments scheduler : clear implicits.
Arguments outcome : clear implicits.

(** * Lemmas *)

Lemma tv_le_refl a : tv_le a a.
Proof. unfold tv_le, tv_lt. rewrite Z.eqb_refl. lia. Qed.

Lemma tv_le_trans a b c : tv_le a b -> tv_le b c -> tv_le a c.
Proof. unfold tv_le, tv_lt. intros H1 H2. case_if_in H1; case_if_in H2; case_if; lia. Qed.

Lemma tv_lt_le a b : tv_lt a b = true -> tv_le a b.
Proof. unfold tv_le, tv_lt. intros H. case_if_in H; case_if; lia. Qed.

Lemma tv_lt_false a b : tv_lt a b = false <-> tv_le b a.
Proof. done. Qed.

#[export] Instance tv_le_preorder : PreOrder tv_le.
Proof. split; [intros a; apply tv_le_refl|intros a b c; apply tv_le_trans]. Qed.

Section Heap.
Context {Job : Type}.
Implicit Types (h : list (option (event_t Job))) (e : event_t Job).

(** Time of the event in slot [i]. *)
Definition tm h (i : Z) : timeval := from_option time (Tv 0 0) (hget h i).

Lemma tm_hget h i e : hget h i = Some e -> tm h i = time e.
Proof. unfold tm. by intros ->. Qed.

Lemma hput_spec h i e :
  0 <= i < slots h ->
  exists h', hput h i e = Some h' /\ h' = <[Z.to_nat i := Some e]> h /\ slots h' = slots h.
Proof.
  intros Hi. unfold hput. replace ((i <? 0) || (slots h <=? i)) with false by lia.
  eexists. split_and!; [done..|]. unfold slots. by rewrite length_insert.
Qed.

Lemma hget_insert h i e j :
  0 <= i < slots h -> 0 <= j ->
  hget (<[Z.to_nat i := Some e]> h) j = if i =? j then Some e else hget h j.
Proof.
  unfold slots. intros Hi Hj. unfold hget. destruct (Z.ltb_spec j 0); [lia|].
  destruct (Z.eqb_spec i j) as [->|Hne].
  - by rewrite list_lookup_insert_eq by lia.
  - by rewrite list_lookup_insert_ne by lia.
Qed.

Lemma tm_insert h i e j :
  0 <= i < slots h -> 0 <= j ->
  tm (<[Z.to_nat i := Some e]> h) j = if i =? j then time e else tm h j.
Proof. intros. unfold tm. rewrite hget_insert by done. by destruct (i =? j). Qed.

Definition filled h (n : Z) : Prop := forall i, 1 <= i <= n -> is_Some (hget h i).

(** Heap order, and heap order around a hole at [p]: no constraint mentions the
    hole, and its children are not before its parent. *)
Definition ordered h (n : Z) : Prop :=
  forall i, 2 <= i <= n -> tv_le (tm h (i / 2)) (tm h i).

Definition hole h (n p : Z) : Prop :=
  (forall i, 2 <= i <= n -> i <> p -> i / 2 <> p -> tv_le (tm h (i / 2)) (tm h i)) /\
  (forall i, 2 <= i <= n -> i / 2 = p -> 2 <= p -> tv_le (tm h (p / 2)) (tm h i)).

(** Filling the hole at [p] with [e] produced [h']. *)
Record fills h (n p : Z) e h' : Prop := {
  fills_ordered : ordered h' n;
  fills_filled : filled h' n;
  fills_slots : slots h' = slots h;
  fills_zero : h' !! 0%nat = h !! 0%nat;
  fills_perm : take (S (Z.to_nat n)) h' ≡ₚ take (S (Z.to_nat n)) (<[Z.to_nat p := Some e]> h);
}.

Lemma fill_hole h n p e :
  hole h n p -> 1 <= p <= n -> n < slots h ->
  (forall i, 1 <= i <= n -> i <> p -> is_Some (hget h i)) ->
  (2 <= p -> tv_le (tm h (p / 2)) (time e)) ->
  (forall i, 2 <= i <= n -> i / 2 = p -> tv_le (time e) (tm h i)) ->
  exists h', hput h p e = Some h' /\ fills h n p e h'.
Proof.
  intros [HA HB] Hp Hn Hf Hpar Hch. destruct (hput_spec h p e) as (h' & E & -> & Hs); [lia|].
  eexists. split; [done|]. split; [|..|done|by rewrite list_lookup_insert_ne by lia|done].
  - intros i Hi. assert (0 <= i / 2) by div_lia. rewrite !tm_insert by lia.
    destruct (Z.eqb_spec p (i / 2)) as [E1|Hne1], (Z.eqb_spec p i) as [E2|Hne2].
    + div_lia.
    + by apply Hch.
    + rewrite <- E2. apply Hpar. lia.
    + apply HA; lia.
  - intros i Hi. rewrite hget_insert by lia. destruct (Z.eqb_spec p i); [done|].
    apply Hf; lia.
Qed.

(** Moving the event of slot [q] into the hole at [p] moves the hole to [q]. *)
Lemma move_hole_perm h n p q x e :
  1 <= p <= n -> 1 <= q <= n -> p <> q -> n < slots h -> hget h q = Some x ->
  take (S (Z.to_nat n)) (<[Z.to_nat q := Some e]> (<[Z.to_nat p := Some x]> h))
  ≡ₚ take (S (Z.to_nat n)) (<[Z.to_nat p := Some e]> h).
Proof.
  unfold slots. intros Hp Hq Hne Hn Hx. rewrite !take_insert_lt by lia.
  set (l := take _ h). assert (l !! Z.to_nat q = Some (Some x)) as Hl.
  { unfold l. rewrite lookup_take_lt by lia. unfold hget in Hx.
    destruct (Z.ltb_spec q 0); [lia|]. destruct (h !! Z.to_nat q) as [[y|]|]; cbn in Hx; congruence. }
  assert (length l = S (Z.to_nat n)) as Hlen by (unfold l; rewrite length_take; lia).
  pose proof (Permutation_insert_swap (<[Z.to_nat p := Some e]> l) (Z.to_nat p) (Z.to_nat q)
    (Some e) (Some x)) as HP.
  rewrite list_lookup_insert_eq, list_lookup_insert_ne, list_insert_insert_eq in HP by lia.
  by apply HP.
Qed.

Lemma fills_move h n p q x e h' :
  1 <= p <= n -> 1 <= q <= n -> p <> q -> n < slots h -> hget h q = Some x ->
  fills (<[Z.to_nat p := Some x]> h) n q e h' -> fills h n p e h'.
Proof.
  intros Hp Hq Hne Hn Hx [H1 H2 H3 H4 H5]. split; [done|done| | |].
  - rewrite H3. unfold slots. by rewrite length_insert.
  - rewrite H4. apply list_lookup_insert_ne. lia.
  - rewrite H5. by apply move_hole_perm.
Qed.

(** ** Seeping down *)

Lemma hole_down h n p c x :
  hole h n p -> 1 <= p -> c / 2 = p -> 2 <= c <= n -> n < slots h -> hget h c = Some x ->
  (forall i, 2 <= i <= n -> i / 2 = p -> tv_le (time x) (tm h i)) ->
  hole (<[Z.to_nat p := Some x]> h) n c.
Proof.
  intros [HA HB] Hp Hc Hcn Hn Hx Hmin. assert (p < c) by div_lia. split.
  - intros i Hi Hic Hi2. assert (0 <= i / 2) by div_lia. rewrite !tm_insert by lia.
    destruct (Z.eqb_spec p (i / 2)) as [E|Hne1], (Z.eqb_spec p i) as [E2|Hne2].
    + div_lia.
    + by apply Hmin.
    + rewrite <- (tm_hget _ _ _ Hx), <- E2. apply HB; lia.
    + apply HA; lia.
  - intros i Hi Hic _. assert (0 <= c / 2) by div_lia. rewrite Hc, !tm_insert by lia.
    rewrite Z.eqb_refl. destruct (Z.eqb_spec p i); [div_lia|].
    rewrite <- (tm_hget _ _ _ Hx), <- Hic. apply HA; div_lia.
Qed.

(** The smaller child the loop selects. *)
Lemma smaller_child h n p :
  filled h n -> 1 <= p -> 2 * p <= n ->
  exists l c x, hget h (2 * p) = Some l /\
    (if 2 * p + 1 <=? n then
       right_child ← hget h (2 * p + 1);
       Some (if tv_lt (time right_child) (time l) then 2 * p + 1 else 2 * p)
     else Some (2 * p)) = Some c /\
    hget h c = Some x /\ c / 2 = p /\ 2 <= c <= n /\
    forall i, 2 <= i <= n -> i / 2 = p -> tv_le (time x) (tm h i).
Proof.
  intros Hf Hp Hpn. destruct (Hf (2 * p)) as [l Hl]; [lia|]. exists l.
  assert (forall i, i / 2 = p -> i = 2 * p \/ i = 2 * p + 1) as Hi by (intros; div_lia).
  destruct (Z.leb_spec (2 * p + 1) n) as [Hr|Hr].
  - destruct (Hf (2 * p + 1)) as [r Er]; [lia|]. rewrite Er. cbn [mbind option_bind].
    destruct (tv_lt (time r) (time l)) eqn:E.
    + exists (2 * p + 1), r. split_and!; try (done || div_lia).
      intros i _ [-> | ->]%Hi; [rewrite (tm_hget _ _ _ Hl); by apply tv_lt_le|].
      by rewrite (tm_hget _ _ _ Er).
    + exists (2 * p), l. split_and!; try (done || div_lia).
      intros i _ [-> | ->]%Hi; [by rewrite (tm_hget _ _ _ Hl)|].
      rewrite (tm_hget _ _ _ Er). done.
  - exists (2 * p), l. split_and!; try (done || div_lia).
    intros i ? [-> | ->]%Hi; [by rewrite (tm_hget _ _ _ Hl)|lia].
Qed.

Lemma seep_down_spec fuel h n p top :
  hole h n p -> filled h n -> 1 <= p <= n -> n < slots h ->
  (2 <= p -> tv_le (tm h (p / 2)) (time top)) -> n - p < Z.of_nat fuel ->
  exists h', seep_down fuel h n p top = Some h' /\ fills h n p top h'.
Proof.
  revert h p. induction fuel as [|fuel IH]; intros h p Hh Hf Hp Hn Hpar Hfuel; [lia|].
  cbn [seep_down]. rewrite Z.shiftl_mul_pow2 by lia. change (p * 2 ^ 1) with (p * 2).
  rewrite (Z.mul_comm p 2). destruct (Z.leb_spec (2 * p) n) as [Hle|Hgt].
  - destruct (smaller_child h n p Hf) as (l & c & x & El & Ec & Ex & Hc & Hcn & Hmin); [lia..|].
    rewrite El. cbn [mbind option_bind]. rewrite Ec. cbn [mbind option_bind]. rewrite Ex.
    cbn [mbind option_bind]. destruct (tv_lt (time x) (time top)) eqn:Et; cbn [negb].
    + destruct (hput_spec h p x) as (h1 & -> & -> & Hs1); [lia|]. cbn [mbind option_bind].
      destruct (IH (<[Z.to_nat p := Some x]> h) c) as (h' & -> & Hfill); try done; try lia.
      * by apply (hole_down h n p c x); try lia.
      * intros i Hi. rewrite hget_insert by lia. destruct (p =? i); [done|]. by apply Hf.
      * rewrite Hc. intros _. rewrite tm_insert by lia. rewrite Z.eqb_refl. by apply tv_lt_le.
      * div_lia.
      * exists h'. split; [done|]. apply (fills_move h n p c x top h'); try done; div_lia.
    + apply fill_hole; try done; [intros; by apply Hf|].
      intros i Hi Hi2. rewrite <- (Hmin i) by done. done.
  - apply fill_hole; try done; [intros; by apply Hf|]. intros i Hi Hi2. div_lia.
Qed.

(** ** Bubbling up *)

Lemma hole_up h n p x :
  hole h n p -> 2 <= p <= n -> n < slots h -> hget h (p / 2) = Some x ->
  hole (<[Z.to_nat p := Some x]> h) n (p / 2).
Proof.
  intros [HA HB] Hp Hn Hx. assert (1 <= p / 2 < p) by div_lia. split.
  - intros i Hi Hip Hi2. assert (0 <= i / 2) by div_lia. rewrite !tm_insert by lia.
    destruct (Z.eqb_spec p (i / 2)) as [E|Hne1], (Z.eqb_spec p i) as [E2|Hne2].
    + div_lia.
    + rewrite <- (tm_hget _ _ _ Hx). apply HB; lia.
    + subst i. done.
    + apply HA; lia.
  - intros i Hi Hi2 Hp2. assert (0 <= p / 2 / 2 < p / 2) by div_lia. rewrite !tm_insert by lia.
    destruct (Z.eqb_spec p (p / 2 / 2)); [lia|]. destruct (Z.eqb_spec p i) as [E2|Hne2].
    + rewrite <- (tm_hget _ _ _ Hx). apply HA; lia.
    + transitivity (tm h (p / 2)); [apply HA; lia|]. rewrite <- Hi2. apply HA; lia.
Qed.

Lemma bubble_up_spec fuel h n p e :
  hole h n p -> 1 <= p <= n -> n < slots h ->
  (forall i, 1 <= i <= n -> i <> p -> is_Some (hget h i)) ->
  (forall i, 2 <= i <= n -> i / 2 = p -> tv_le (time e) (tm h i)) -> p <= Z.of_nat fuel ->
  exists h', bubble_up fuel h p e = Some h' /\ fills h n p e h'.
Proof.
  revert h p. induction fuel as [|fuel IH]; intros h p Hh Hp Hn Hf Hch Hfuel; [lia|].
  cbn [bubble_up]. rewrite Z.shiftr_div_pow2 by lia. change (p / 2 ^ 1) with (p / 2).
  destruct (Z.gtb_spec p 1) as [Hgt|Hle].
  - assert (1 <= p / 2 < p) by div_lia. destruct (Hf (p / 2)) as [x Hx]; [lia..|].
    rewrite Hx. cbn [mbind option_bind]. destruct (tv_lt (time e) (time x)) eqn:Et.
    + destruct (hput_spec h p x) as (h1 & -> & -> & Hs1); [lia|]. cbn [mbind option_bind].
      destruct (IH (<[Z.to_nat p := Some x]> h) (p / 2)) as (h' & -> & Hfill); try lia.
      * by apply hole_up; try lia.
      * intros i Hi Hip. rewrite hget_insert by lia. destruct (Z.eqb_spec p i); [done|].
        apply Hf; lia.
      * intros i Hi Hi2. rewrite tm_insert by lia. destruct (Z.eqb_spec p i); [by apply tv_lt_le|].
        transitivity (time x); [by apply tv_lt_le|]. rewrite <- (tm_hget _ _ _ Hx), <- Hi2.
        apply Hh; lia.
      * exists h'. split; [done|]. apply (fills_move h n p (p / 2) x e h'); try done; lia.
    + apply fill_hole; try done. intros _. by rewrite (tm_hget _ _ _ Hx).
  - apply fill_hole; try done. lia.
Qed.

(** ** The root is the earliest *)

Lemma ordered_root h n i : ordered h n -> 1 <= i <= n -> tv_le (tm h 1) (tm h i).
Proof.
  intros Ho. remember (Z.to_nat i) as k eqn:Ek. revert i Ek.
  induction k as [k IH] using lt_wf_ind. intros i -> Hi.
  destruct (decide (i = 1)) as [->|Hne]; [done|].
  transitivity (tm h (i / 2)); [|apply Ho; lia].
  apply (IH (Z.to_nat (i / 2))); [div_lia|done|div_lia].
Qed.

(** ** The invariant and the abstraction *)

Definition contents (this : scheduler Job) : list (event_t Job) :=
  omap id (take (S (Z.to_nat (event_count this))) (heap this)).

Record sched_ok (this : scheduler Job) : Prop := {
  ok_count : 0 <= event_count this <= heap_size this;
  ok_size : exists k, 0 <= k <= 25 /\ heap_size this = HEAP_SIZE_DEFAULT * 2 ^ k;
  ok_slots : slots (heap this) = heap_size this + 1;
  ok_zero : heap this !! 0%nat = Some None;
  ok_filled : filled (heap this) (event_count this);
  ok_ordered : ordered (heap this) (event_count this);
}.

Lemma create_ok : sched_ok (scheduler_create (Job := Job)) /\
                  contents (scheduler_create (Job := Job)) = [].
Proof.
  split; [|done]. split; try done.
  - exists 0. done.
  - intros i Hi. cbn in Hi. lia.
  - intros i Hi. cbn in Hi. lia.
Qed.

Lemma hget_lookup h i e : 0 <= i -> hget h i = Some e <-> h !! Z.to_nat i = Some (Some e).
Proof.
  intros Hi. unfold hget. destruct (Z.ltb_spec i 0); [lia|].
  destruct (h !! Z.to_nat i) as [[x|]|]; cbn; split; congruence.
Qed.

Lemma contents_elem (this : scheduler Job) e :
  sched_ok this -> e ∈ contents this ->
  exists i, 1 <= i <= event_count this /\ hget (heap this) i = Some e.
Proof.
  intros Hok (o & Ho & He)%list_elem_of_omap. cbn in He. subst o.
  apply list_elem_of_lookup in Ho as [i Hi]. apply lookup_take_Some in Hi as [Hi Hlt].
  exists (Z.of_nat i). rewrite hget_lookup, Nat2Z.id by lia. split; [|done].
  pose proof (ok_zero _ Hok). destruct i; [congruence|lia].
Qed.

Lemma root_earliest (this : scheduler Job) e0 e :
  sched_ok this -> hget (heap this) 1 = Some e0 -> e ∈ contents this -> tv_le (time e0) (time e).
Proof.
  intros Hok H0 He. destruct (contents_elem this e Hok He) as (i & Hi & Hg).
  rewrite <- (tm_hget _ _ _ H0), <- (tm_hget _ _ _ Hg).
  by apply (ordered_root _ (event_count this)); [apply Hok|].
Qed.

Lemma contents_nil (this : scheduler Job) :
  sched_ok this -> contents this = [] <-> event_count this = 0.
Proof.
  intros Hok. pose proof (ok_count _ Hok) as Hc. split.
  - intros E. destruct (decide (event_count this = 0)) as [|Hne]; [done|].
    destruct (ok_filled _ Hok 1) as [e He]; [lia|]. apply hget_lookup in He; [|lia].
    assert (e ∈ contents this) as Hin; [|rewrite E in Hin; set_solver].
    unfold contents. apply list_elem_of_omap. exists (Some e). split; [|done].
    apply list_elem_of_lookup. exists 1%nat. rewrite lookup_take_lt by lia. done.
  - intros E. unfold contents. rewrite E. change (S (Z.to_nat 0)) with 1%nat.
    pose proof (ok_zero _ Hok) as H0. by destruct (heap this) as [|o h]; simplify_eq/=.
Qed.

(** ** Removal *)

Lemma remove_contents h n e top :
  1 <= n < slots h -> hget h 1 = Some e -> hget h n = Some top ->
  omap id (take (S (Z.to_nat n)) h)
  ≡ₚ e :: omap id (take (S (Z.to_nat (n - 1))) (<[Z.to_nat 1 := Some top]> h)).
Proof.
  unfold slots. intros Hn H1 Ht. apply hget_lookup in H1, Ht; [|lia..].
  rewrite (take_S_r _ _ _ Ht). replace (S (Z.to_nat (n - 1))) with (Z.to_nat n) by lia.
  assert (e :: omap id (take (Z.to_nat n) (<[Z.to_nat 1 := Some top]> h))
          = omap id (Some e :: take (Z.to_nat n) (<[Z.to_nat 1 := Some top]> h))) as -> by done.
  apply omap_Permutation. change (Z.to_nat 1) with 1%nat in *.
  destruct h as [|a [|b r]]; cbn in H1; simplify_eq. cbn [insert list_insert].
  destruct (Z.to_nat n) as [|[|m]] eqn:Em; [lia|..]; cbn [take app].
  - cbn in Ht. simplify_eq. apply Permutation_swap.
  - rewrite Permutation_swap. do 2 f_equiv. symmetry. apply Permutation_cons_append.
Qed.

Lemma hole_root h n top :
  ordered h n -> n < slots h -> 1 <= n -> hole (<[Z.to_nat 1 := Some top]> h) (n - 1) 1.
Proof.
  intros Ho Hn H1. split; [|lia]. intros i Hi _ Hi2. assert (2 <= i / 2) by div_lia.
  rewrite !tm_insert by lia. destruct (Z.eqb_spec 1 (i / 2)), (Z.eqb_spec 1 i); try lia.
  apply Ho. lia.
Qed.

Lemma remove_fills h n top :
  ordered h n -> filled h n -> 1 <= n < slots h ->
  exists h', (if n - 1 >? 1
              then seep_down (Z.to_nat (n - 1)) (<[Z.to_nat 1 := Some top]> h) (n - 1) 1 top
              else Some (<[Z.to_nat 1 := Some top]> h)) = Some h' /\
    fills (<[Z.to_nat 1 := Some top]> h) (n - 1) 1 top h'.
Proof.
  intros Ho Hf Hn. set (h1 := <[_ := _]> h).
  assert (slots h1 = slots h) as Hs by (unfold h1, slots; by rewrite length_insert).
  assert (filled h1 (n - 1)) as Hf1.
  { intros i Hi. unfold h1. rewrite hget_insert by lia. destruct (1 =? i); [done|]. apply Hf. lia. }
  destruct (Z.gtb_spec (n - 1) 1).
  - apply seep_down_spec; try done; try lia. apply hole_root; [done|lia..].
  - eexists. split; [done|]. split; [intros i Hi; lia|done..|].
    unfold h1. by rewrite list_insert_insert_eq.
Qed.

Lemma remove_event_spec (this : scheduler Job) :
  sched_ok this ->
  (event_count this = 0 /\ remove_event this = Some (None, this)) \/
  exists e this', peek_event this = Some e /\ remove_event this = Some (Some e, this') /\
    sched_ok this' /\ event_count this' = event_count this - 1 /\
    contents this ≡ₚ e :: contents this'.
Proof.
  intros Hok. pose proof (ok_count _ Hok) as Hc. pose proof (ok_slots _ Hok) as Hs.
  unfold remove_event, peek_event. destruct (Z.eqb_spec (event_count this) 0) as [E|Hne]; [by left|].
  right. destruct (ok_filled _ Hok 1) as [e He]; [lia|].
  destruct (ok_filled _ Hok (event_count this)) as [top Ht]; [lia|].
  rewrite He, Ht. cbn [mbind option_bind].
  destruct (hput_spec (heap this) 1 top) as (h1 & -> & -> & Hs1); [lia|]. cbn [mbind option_bind].
  destruct (remove_fills (heap this) (event_count this) top) as (h' & -> & Hfill);
    [apply Hok|apply Hok|lia|].
  destruct Hfill as [F1 F2 F3 F4 F5]. cbn [mbind option_bind].
  eexists e, _. split; [by destruct (Z.gtb_spec (event_count this) 0); [|lia]|]. split; [done|].
  split_and!; [split; cbn|done|].
  - lia.
  - apply Hok.
  - lia.
  - rewrite F4. rewrite list_lookup_insert_ne by lia. apply Hok.
  - done.
  - done.
  - unfold contents at 1. rewrite (remove_contents _ _ e top) by (done || lia).
    unfold contents. cbn [event_count heap]. rewrite F5. by rewrite list_insert_insert_eq.
Qed.

(** ** Insertion *)

Section Insert.
Context (fresh : nat -> list (option (event_t Job))) (Hfresh : forall n, (n <= length (fresh n))%nat).

(** The array after the growth step. *)
Lemma grow_spec (this : scheduler Job) :
  sched_ok this -> event_count this < 2 ^ 31 ->
  exists h size,
    (if u32 (event_count this + 1) >? heap_size this then
       (take (Z.to_nat (u32 (Z.shiftl (heap_size this) 1) + 1))
          (heap this ++ fresh (Z.to_nat (u32 (Z.shiftl (heap_size this) 1) + 1))),
        u32 (Z.shiftl (heap_size this) 1))
     else (heap this, heap_size this)) = (h, size) /\
    slots h = size + 1 /\ event_count this + 1 <= size /\
    (exists k, 0 <= k <= 25 /\ size = HEAP_SIZE_DEFAULT * 2 ^ k) /\
    forall i, 0 <= i <= event_count this -> h !! Z.to_nat i = heap this !! Z.to_nat i.
Proof.
  intros Hok Hlt. pose proof (ok_count _ Hok) as Hc. pose proof (ok_slots _ Hok) as Hs.
  destruct (ok_size _ Hok) as (k & Hk & Hsize).
  rewrite (wrap_small 32) by lia. destruct (Z.gtb_spec (event_count this + 1) (heap_size this)) as [Hg|Hg].
  - assert (k <= 24) as Hk24.
    { destruct (decide (k = 25)) as [->|]; [|lia]. change (heap_size this = 2 ^ 31) in Hsize. lia. }
    assert (2 ^ k <= 2 ^ 24) by (apply Z.pow_le_mono_r; lia).
    unfold HEAP_SIZE_DEFAULT in *. rewrite Z.shiftl_mul_pow2, (wrap_small 32) by lia.
    eexists _, _. split; [done|]. unfold slots in *. split_and!.
    + rewrite length_take, length_app.
      pose proof (Hfresh (Z.to_nat (heap_size this * 2 ^ 1 + 1))). lia.
    + lia.
    + exists (k + 1). split; [lia|]. rewrite Hsize, Z.pow_add_r by lia. lia.
    + intros i Hi. rewrite lookup_take_lt by lia. apply lookup_app_l. lia.
  - eexists _, _. split; [done|]. split_and!; [done|lia|by exists k|done].
Qed.

Lemma schedule_job_tv_spec (this : scheduler Job) j tv :
  sched_ok this -> event_count this < 2 ^ 31 ->
  exists this', schedule_job_tv fresh this j tv = Some this' /\ sched_ok this' /\
    event_count this' = event_count this + 1 /\ contents this' ≡ₚ Ev tv j :: contents this.
Proof.
  intros Hok Hlt. pose proof (ok_count _ Hok) as Hc. unfold schedule_job_tv.
  destruct (grow_spec this Hok Hlt) as (h & size & E & Hs & Hsz & Hk & Hsame). cbv zeta. rewrite E.
  rewrite (wrap_small 32) by lia. set (n := event_count this) in *.
  assert (forall i, 0 <= i <= n -> hget h i = hget (heap this) i) as Hget.
  { intros i Hi. unfold hget. by rewrite Hsame. }
  destruct (bubble_up_spec (Z.to_nat (n + 1)) h (n + 1) (n + 1) (Ev tv j))
    as (h' & -> & [F1 F2 F3 F4 F5]); try lia.
  { split; [|intros; div_lia]. intros i Hi Hne _. unfold tm. rewrite !Hget by div_lia.
    apply (ok_ordered _ Hok). fold n. lia. }
  { intros i Hi Hne. rewrite Hget by lia. apply (ok_filled _ Hok). fold n. lia. }
  { intros i Hi Hi2. div_lia. }
  cbn [mbind option_bind]. eexists. split; [done|]. split_and!; [split; cbn|done|].
  - lia.
  - done.
  - lia.
  - rewrite F4. change 0%nat with (Z.to_nat 0). rewrite (Hsame 0) by lia. apply Hok.
  - done.
  - done.
  - unfold contents at 1. cbn [event_count heap]. rewrite F5.
    unfold slots in Hs. rewrite (take_S_r _ _ (Some (Ev tv j))) by (apply list_lookup_insert_eq; lia).
    rewrite take_insert_ge by lia. rewrite omap_app, (Permutation_app_comm _ _).
    cbn [omap list_omap id app]. f_equiv. unfold contents. fold n.
    replace (Z.to_nat (n + 1)) with (S (Z.to_nat n)) by lia.
    replace (take (S (Z.to_nat n)) h) with (take (S (Z.to_nat n)) (heap this)); [done|].
    apply list_eq. intros i. destruct (decide (i < S (Z.to_nat n))%nat).
    + rewrite !lookup_take_lt by lia. rewrite <- (Nat2Z.id i). symmetry. apply Hsame. lia.
    + by rewrite !lookup_take_ge by lia.
Qed.

End Insert.

(** ** Draining *)

Lemma flush_loop_spec fuel (this : scheduler Job) :
  sched_ok this -> event_count this < Z.of_nat fuel ->
  exists es this', flush_loop fuel this = Some (es, this') /\ es ≡ₚ contents this /\
    StronglySorted (fun a b => tv_le (time a) (time b)) es /\
    sched_ok this' /\ event_count this' = 0.
Proof.
  revert this. induction fuel as [|fuel IH]; intros this Hok Hf; [pose proof (ok_count _ Hok); lia|].
  cbn [flush_loop]. destruct (remove_event_spec this Hok) as [[H0 ->]|Hrem].
  - cbn [mbind option_bind]. exists [], this.
    apply contents_nil in H0; [|done]. rewrite H0. split_and!; try done; [constructor|by apply contents_nil].
  - destruct Hrem as (e & this1 & Hpeek & -> & Hok1 & Hn & Hperm). cbn [mbind option_bind].
    destruct (IH this1 Hok1) as (es & this' & -> & Hp & Hsorted & Hok' & H0); [lia|].
    cbn [mbind option_bind]. exists (e :: es), this'. split_and!; try done.
    + by rewrite Hp, Hperm.
    + constructor; [done|]. apply Forall_forall. intros x Hx. apply (root_earliest this); [done| |].
      * unfold peek_event in Hpeek. by destruct (event_count this >? 0).
      * rewrite Hperm. right. by rewrite <- Hp.
Qed.

End Heap.

(** ** Runs *)

(** A run of operations, as the scheduler's clients and worker issue them. *)
Inductive op {Job : Type} :=
| OpSchedule (j : Job) (tv : timeval)
| OpRemove.
Arguments op : clear implicits.

Section Runs.
Context {Job : Type} (fresh : nat -> list (option (event_t Job))).

(** The events removed, and the final state. *)
Fixpoint run (this : scheduler Job) (ops : list (op Job))
    : option (list (option (event_t Job)) * scheduler Job) :=
  match ops with
  | [] => Some ([], this)
  | OpSchedule j tv :: ops => this ← schedule_job_tv fresh this j tv; run this ops
  | OpRemove :: ops =>
    '(e, this) ← remove_event this;
    '(es, this) ← run this ops; Some (e :: es, this)
  end.

(** The abstract queue: a multiset of events (a list up to permutation), from
    which a removal takes any event that none of the others precedes. *)
Inductive spec_run : list (event_t Job) -> list (op Job) -> list (option (event_t Job)) ->
                     list (event_t Job) -> Prop :=
| spec_done q q' : q ≡ₚ q' -> spec_run q [] [] q'
| spec_schedule q j tv ops es q' :
    spec_run (Ev tv j :: q) ops es q' -> spec_run q (OpSchedule j tv :: ops) es q'
| spec_empty ops es q' : spec_run [] ops es q' -> spec_run [] (OpRemove :: ops) (None :: es) q'
| spec_remove q e q1 ops es q' :
    q ≡ₚ e :: q1 -> (forall x, x ∈ q1 -> tv_le (time e) (time x)) ->
    spec_run q1 ops es q' -> spec_run q (OpRemove :: ops) (Some e :: es) q'.

Lemma spec_run_perm q1 q2 ops es q' : q1 ≡ₚ q2 -> spec_run q1 ops es q' -> spec_run q2 ops es q'.
Proof.
  intros HP H. revert q2 HP. induction H as [q q' Hq|q j tv ops es q' _ IH|ops es q' H IH|
    q e q1 ops es q' Hq Hmin H _]; intros q2 HP.
  - constructor. by rewrite <- HP.
  - constructor. apply IH. by rewrite HP.
  - apply Permutation_nil in HP as ->. by constructor.
  - eapply spec_remove; [|done..]. by rewrite <- HP.
Qed.

Lemma run_spec (Hfresh : forall n, (n <= length (fresh n))%nat) ops (this : scheduler Job) :
  sched_ok this -> event_count this + Z.of_nat (length ops) <= 2 ^ 31 ->
  exists es this', run this ops = Some (es, this') /\ sched_ok this' /\
    spec_run (contents this) ops es (contents this').
Proof.
  revert this. induction ops as [|[j tv|] ops IH]; intros this Hok Hlen; cbn [run length] in *.
  - exists [], this. split_and!; [done..|by constructor].
  - destruct (schedule_job_tv_spec fresh Hfresh this j tv Hok) as (this1 & -> & Hok1 & Hn & HP); [lia|].
    cbn [mbind option_bind]. destruct (IH this1 Hok1) as (es & this' & -> & Hok' & Hs); [lia|].
    exists es, this'. split_and!; [done..|]. constructor. by apply (spec_run_perm (contents this1)).
  - destruct (remove_event_spec this Hok) as [[H0 ->]|(e & this1 & Hpk & -> & Hok1 & Hn & HP)];
      cbn [mbind option_bind].
    + destruct (IH this Hok) as (es & this' & -> & Hok' & Hs); [lia|]. cbn [mbind option_bind].
      exists (None :: es), this'. split_and!; [done..|].
      apply contents_nil in H0; [|done]. rewrite H0 in *. by constructor.
    + destruct (IH this1 Hok1) as (es & this' & -> & Hok' & Hs); [lia|]. cbn [mbind option_bind].
      exists (Some e :: es), this'. split_and!; [done..|].
      apply (spec_remove _ e (contents this1)); [done| |done].
      intros x Hx. apply (root_earliest this); [done| |rewrite HP; by right].
      unfold peek_event in Hpk. by destruct (event_count this >? 0).
Qed.

End Runs.

(** * Properties *)

(** C36: The array heap implements a priority queue on times. For every sequence
    of insertions and removals (up to 2^31 of them) on a new scheduler, no slot
    outside the allocated array and no null pointer is accessed, the growth of
    the array included, both sift loops terminate, and the events removed are
    those the abstract queue allows: each removal takes an event that no
    remaining one precedes, nothing is lost or duplicated, and only a removal
    from an empty queue yields none. *)
Theorem scheduler_refines_queue {Job : Type} (fresh : nat -> list (option (event_t Job)))
    (ops : list (op Job)) :
  (forall n, (n <= length (fresh n))%nat) -> Z.of_nat (length ops) <= 2 ^ 31 ->
  exists es this, run fresh scheduler_create ops = Some (es, this) /\
    spec_run [] ops es (contents this).
Proof.
  intros Hf Hl. destruct (create_ok (Job := Job)) as [Hok Hnil].
  destruct (run_spec fresh Hf ops scheduler_create Hok) as (es & this & H1 & _ & H2); [cbn; lia|].
  rewrite Hnil in H2. by exists es, this.
Qed.

Lemma scheduler_refines_queue_witness :
  let ops := [OpSchedule 1 (Tv 5 0); OpSchedule 2 (Tv 3 9); OpSchedule 3 (Tv 3 8); OpRemove;
              OpSchedule 4 (Tv 4 0); OpRemove; OpRemove; OpRemove; OpRemove] in
  option_map (fun r => fmap (option_map job) (fst r))
    (run (fun n => replicate n None) scheduler_create ops)
  = Some [Some 3; Some 2; Some 4; Some 1; None] /\
  exists es this, run (fun n => replicate n None) scheduler_create ops = Some (es, this) /\
    spec_run [] ops es (contents this).
Proof.
  intros ops. split; [vm_compute; reflexivity|].
  apply (scheduler_refines_queue (fun n => replicate n None) ops).
  - intros n. rewrite length_replicate. lia.
  - vm_compute. discriminate.
Defined.

(** The worker never starts a job early and never sleeps over a due one. In
    a state that the heap invariant describes, a run of the worker at time [now]
    hands over the job of an event that is due and that no other event precedes,
    and removes exactly that event; or it sleeps until the time of the earliest
    event, none being due; or it waits for a signal, and there is no event. And
    [flush] destroys every event, earliest first, and leaves the heap empty. *)
Theorem schedule_worker_spec {Job : Type} (this : scheduler Job) (now : timeval) :
  sched_ok this ->
  (exists out this', schedule this now = Some (out, this') /\ sched_ok this' /\
    match out with
    | QueueJob e => tv_le (time e) now /\ contents this ≡ₚ e :: contents this' /\
                    forall x, x ∈ contents this -> tv_le (time e) (time x)
    | WaitUntil t => this' = this /\ (exists e, e ∈ contents this /\ time e = t) /\
                     forall x, x ∈ contents this -> tv_lt now (time x) = true /\ tv_le t (time x)
    | Wait => this' = this /\ contents this = []
    end) /\
  exists es this', flush this = Some (es, this') /\ es ≡ₚ contents this /\
    StronglySorted (fun a b => tv_le (time a) (time b)) es /\ contents this' = [].
Proof.
  intros Hok. split.
  - unfold schedule. destruct (remove_event_spec this Hok)
      as [[H0 Hr]|(e & this1 & Hpk & Hr & Hok1 & Hn & HP)].
    + unfold peek_event. rewrite H0. cbn. exists Wait, this. split_and!; [done..|].
      by apply contents_nil.
    + rewrite Hpk. assert (forall x, x ∈ contents this -> tv_le (time e) (time x)) as Hmin.
      { intros x Hx. apply (root_earliest this); [done| |done].
        unfold peek_event in Hpk. by destruct (event_count this >? 0). }
      destruct (tv_lt now (time e)) eqn:Et; cbn [negb].
      * exists (WaitUntil (time e)), this. split_and!; [done..| |].
        -- exists e. split; [|done]. rewrite HP. by left.
        -- intros x Hx. split; [|by apply Hmin]. specialize (Hmin x Hx).
           unfold tv_le, tv_lt in *. case_if_in Hmin; case_if_in Et; case_if; lia.
      * rewrite Hr. cbn. exists (QueueJob e), this1. split_and!; done.
  - destruct (flush_loop_spec (S (Z.to_nat (event_count this))) this Hok)
      as (es & this' & H1 & H2 & H3 & H4 & H5); [pose proof (ok_count _ Hok); lia|].
    exists es, this'. split_and!; [done..|]. by apply contents_nil.
Qed.

Lemma schedule_worker_spec_witness :
  exists this out this',
    schedule_job_tv (fun n => replicate n None) scheduler_create 7 (Tv 5 0) = Some this /\
    schedule this (Tv 6 0) = Some (out, this') /\
    match out with QueueJob e => job e = 7 | _ => False end.
Proof.
  assert (forall n, (n <= length (replicate n (None (A := event_t Z))))%nat) as Hf
    by (intros; rewrite length_replicate; lia).
  destruct (schedule_job_tv_spec (fun n => replicate n None) Hf scheduler_create 7 (Tv 5 0))
    as (this & E & Hok & _); [apply create_ok|cbn; lia|].
  destruct (schedule_worker_spec this (Tv 6 0) Hok) as [(out & t & H1 & _) _].
  exists this, out, t. split_and!; [exact E|exact H1|].
  vm_compute in E. injection E as <-. vm_compute in H1. injection H1 as <- <-. reflexivity.
Defined.
