(* ===== verification/TaskManager.v ===== *)
(** The IKEv2 task manager of libcharon/sa/ikev2/task_manager_v2.c: message IDs,
    the retransmission of requests and responses, and the activation and running
    of tasks. The tasks, the IKE_SA, messages and the daemon's services are used
    through the interface [Env]; the build without the mediation extension is
    modelled. *)

From S2P Require Import Prelude Host Scheduler.

(** * Enumerations *)

(** The values of [status_t] the manager distinguishes. *)
Inductive status :=
| SUCCESS | FAILED | NOT_SUPPORTED | PARSE_ERROR | VERIFY_ERROR | INVALID_STATE
| DESTROY_ME | NEED_MORE | OTHER_STATUS.

Inductive task_type :=
| TASK_IKE_INIT | TASK_IKE_NATD | TASK_IKE_MOBIKE | TASK_IKE_AUTH | TASK_IKE_AUTH_LIFETIME
| TASK_IKE_CERT_PRE | TASK_IKE_CERT_POST | TASK_IKE_CONFIG | TASK_IKE_REKEY | TASK_IKE_REAUTH
| TASK_IKE_REAUTH_COMPLETE | TASK_IKE_REDIRECT | TASK_IKE_VERIFY_PEER_CERT | TASK_IKE_MID_SYNC
| TASK_IKE_DELETE | TASK_IKE_DPD | TASK_IKE_VENDOR | TASK_CHILD_CREATE | TASK_CHILD_DELETE
| TASK_CHILD_REKEY.

Inductive ike_sa_state :=
| IKE_CREATED | IKE_CONNECTING | IKE_ESTABLISHED | IKE_PASSIVE | IKE_REKEYING | IKE_REKEYED
| IKE_DELETING | IKE_DESTROYING.

Inductive exchange_type :=
| IKE_SA_INIT | IKE_AUTH | CREATE_CHILD_SA | INFORMATIONAL | OTHER_EXCHANGE (n : Z)
| EXCHANGE_TYPE_UNDEFINED.

Inductive protocol_id := PROTO_NONE | PROTO_IKE | PROTO_AH | PROTO_ESP.

Inductive notify_type :=
| UNSUPPORTED_CRITICAL_PAYLOAD | INVALID_SYNTAX | NO_PROPOSAL_CHOSEN | REKEY_SA
| ADDITIONAL_IP4_ADDRESS | ADDITIONAL_IP6_ADDRESS | NO_ADDITIONAL_ADDRESSES
| UPDATE_SA_ADDRESSES | NO_NATS_ALLOWED | UNACCEPTABLE_ADDRESSES | UNEXPECTED_NAT_DETECTED
| COOKIE2 | NAT_DETECTION_SOURCE_IP | NAT_DETECTION_DESTINATION_IP | AUTH_LIFETIME
| AUTHENTICATION_FAILED | REDIRECT | IKEV2_MESSAGE_ID_SYNC | IPSEC_REPLAY_COUNTER_SYNC
| OTHER_NOTIFY (n : Z).

#[export] Instance status_eq_dec : EqDecision status.
Proof. solve_decision. Defined.
#[export] Instance task_type_eq_dec : EqDecision task_type.
Proof. solve_decision. Defined.
#[export] Instance ike_sa_state_eq_dec : EqDecision ike_sa_state.
Proof. solve_decision. Defined.
#[export] Instance exchange_type_eq_dec : EqDecision exchange_type.
Proof. solve_decision. Defined.
#[export] Instance protocol_id_eq_dec : EqDecision protocol_id.
Proof. solve_decision. Defined.
#[export] Instance notify_type_eq_dec : EqDecision notify_type.
Proof. solve_decision. Defined.

(** What the manager looks at in a payload. *)
Inductive payload :=
| PLV2_NOTIFY (ty : notify_type) (proto : protocol_id)
| PLV2_DELETE (proto : protocol_id)
| PLV2_TS_INITIATOR
| PLV2_TS_RESPONDER
| PLV2_FRAGMENT
| PL_UNKNOWN (ty : Z) (critical : bool)
| PL_OTHER.

Inductive extension := EXT_MOBIKE | EXT_IKE_MESSAGE_ID_SYNC.

(** Tasks the manager creates: the type, and whether as initiator. *)
Inductive task_spec :=
| Spec (ty : task_type) (initiator : bool)
| SpecChildRekey (proto : protocol_id) (spi : Z)
| SpecChildDelete (proto : protocol_id) (spi : Z) (expired : bool)
| SpecChildCreate (cfg reqid : Z).

Definition UINT32_MAX : Z := 2 ^ 32 - 1.
Definition UINT_MAX : Z := 2 ^ 32 - 1.
Definition ROUTABILITY_CHECK_INTERVAL : Z := 2500.
Definition ROUTABILITY_CHECK_TRIES : Z := 10.
Definition HALF_OPEN_IKE_SA_TIMEOUT : Z := 30.

(** The argument of [update_hosts]. *)
Inductive update_flag := UPDATE_NONE | UPDATE_HOSTS_FORCE_LOCAL | UPDATE_HOSTS_FORCE_ADDRS.

(** * The interface *)

(** What a task may see of the manager while it processes a message, and the calls
    it may make back, in order. *)
Record view := { v_initiating_mid : Z; v_responding_mid : Z; v_active : bool }.

Class Env := {
  Ike : Type;       (** the IKE_SA, its keys and configuration, and the clock *)
  Task : Type;
  Message : Type;
  Packet : Type;
  Defrag : Type;

  time_monotonic : Ike -> timeval;

  (** messages *)
  message_create : exchange_type -> Z -> bool -> host_t -> host_t -> Message;
  get_message_id : Message -> Z;
  get_request : Message -> bool;
  get_exchange_type : Message -> exchange_type;
  get_source : Message -> host_t;
  get_destination : Message -> host_t;
  payloads : Message -> list payload;
  add_notify : notify_type -> chunk -> Message -> Message;
  parse_body : Message -> Ike -> status * Message * Ike;
  message_create_defrag : Message -> option Defrag;
  defrag_message_id : Defrag -> Z;
  add_fragment : Defrag -> Message -> status * Defrag;
  reassembled : Defrag -> Message;

  (** the IKE_SA *)
  get_state : Ike -> ike_sa_state;
  is_initiator : Ike -> bool;
  supports_extension : extension -> Ike -> bool;
  is_original_initiator : Ike -> bool;
  use_mobike : Ike -> bool;
  has_ike_cfg : Ike -> bool;
  select_ike_cfg : host_t -> host_t -> Ike -> option Ike;
  get_my_host : Ike -> host_t;
  get_other_host : Ike -> host_t;
  set_my_host : host_t -> Ike -> Ike;
  set_other_host : host_t -> Ike -> Ike;
  update_hosts : host_t -> host_t -> update_flag -> Ike -> Ike;
  get_responder_spi : Ike -> Z;
  set_responder_spi : Z -> Ike -> Ike;
  set_stale : Ike -> Ike;
  generate_message_fragmented : Message -> Ike -> option (list Packet) * Ike;
  generate_message_single : Message -> Ike -> option Packet * Ike;
  accepts_message : Message -> Ike -> bool;     (** not passive, and the right version *)
  flush_auth_cfgs : Ike -> Ike;                 (** after a message was processed *)
  bus_message : Message -> bool -> Ike -> Message * Ike;

  (** tasks; the last result of the methods are the tasks to queue, with a delay *)
  get_type : Task -> task_type;
  create_task : task_spec -> Ike -> Task;
  has_pre_process : Task -> bool;
  pre_process : Task -> Message -> Ike -> status * Task * Ike;
  build : Task -> Message -> Ike -> status * Task * Message * Ike * list (Task * Z);
  process : Task -> Message -> view -> Ike
            -> status * Task * Ike * list (Task * Z) * list (Z * Z);
  collide : Task -> Task -> Task;
  migrate : Task -> Task;
  is_probing : Task -> bool;
  mobike_transmit : Task -> Packet -> Ike -> bool * Task * Ike;
  mobike_roam : bool -> Task -> Task;
  mobike_addresses : Task -> Task;
  mobike_dpd : Task -> Task;
  enable_probing : Task -> Task;

  (** retransmission settings; [backoff] is
      [(uint32_t)(timeout * 1000.0 * pow(base, n))] in floating point, [jitter]
      the random part subtracted from a timeout *)
  retransmit_tries : Z;
  retransmit_tries_max : Z;
  retransmit_limit : Z;
  retransmit_jitter : Z;
  backoff : Z -> Z;
  jitter : Z -> Ike -> Z * Ike;
  half_open_timeout : Z;
}.

(** What the manager does to its surroundings. *)
Inductive event `{Env} :=
| Sent (p : Packet) (src dst : option host_t)
| IkeDown                                    (** [bus->ike_updown(FALSE)] *)
| AlertRetransmitTimeout (p : Packet)
| AlertRetransmitSend (p : Packet) (n : Z)
| AlertRetransmitCleared (p : option Packet)
| AlertRetransmitReceive (m : Message)
| AlertParseError (m : Message) (s : status)
| StatInbound
| ScheduleRetransmit (mid timeout : Z)
| ScheduleInitiate (t : timeval)
| ScheduleDelete (seconds : Z).

Record responding_t `{Env} := {
  r_mid : Z;
  r_packets : list Packet;
  r_defrag : option Defrag;
}.

Record initiating_t `{Env} := {
  i_mid : Z;
  retransmitted : Z;
  retransmit_sent : bool;
  i_packets : list Packet;
  i_type : exchange_type;
  deferred : bool;
  i_defrag : option Defrag;
}.

Record queued_task_t `{Env} := { q_task : Task; q_time : timeval }.

(** The manager; [trace] holds the events, the latest first. *)
Record task_manager `{Env} := {
  ike : Ike;
  responding : responding_t;
  initiating : initiating_t;
  queued_tasks : list queued_task_t;
  active_tasks : list Task;
  passive_tasks : list Task;
  was_reset : bool;
  trace : list event;
}.

Section Updates.
Context `{Env}.
Implicit Types this : task_manager.

Definition with_ike (x : Ike) this : task_manager :=
  {| ike := x; responding := responding this; initiating := initiating this;
     queued_tasks := queued_tasks this; active_tasks := active_tasks this;
     passive_tasks := passive_tasks this; was_reset := was_reset this; trace := trace this |}.
Definition with_responding (x : responding_t) this : task_manager :=
  {| ike := ike this; responding := x; initiating := initiating this;
     queued_tasks := queued_tasks this; active_tasks := active_tasks this;
     passive_tasks := passive_tasks this; was_reset := was_reset this; trace := trace this |}.
Definition with_initiating (x : initiating_t) this : task_manager :=
  {| ike := ike this; responding := responding this; initiating := x;
     queued_tasks := queued_tasks this; active_tasks := active_tasks this;
     passive_tasks := passive_tasks this; was_reset := was_reset this; trace := trace this |}.
Definition with_queued (x : list queued_task_t) this : task_manager :=
  {| ike := ike this; responding := responding this; initiating := initiating this;
     queued_tasks := x; active_tasks := active_tasks this;
     passive_tasks := passive_tasks this; was_reset := was_reset this; trace := trace this |}.
Definition with_active (x : list Task) this : task_manager :=
  {| ike := ike this; responding := responding this; initiating := initiating this;
     queued_tasks := queued_tasks this; active_tasks := x;
     passive_tasks := passive_tasks this; was_reset := was_reset this; trace := trace this |}.
Definition with_passive (x : list Task) this : task_manager :=
  {| ike := ike this; responding := responding this; initiating := initiating this;
     queued_tasks := queued_tasks this; active_tasks := active_tasks this;
     passive_tasks := x; was_reset := was_reset this; trace := trace this |}.
Definition with_reset (x : bool) this : task_manager :=
  {| ike := ike this; responding := responding this; initiating := initiating this;
     queued_tasks := queued_tasks this; active_tasks := active_tasks this;
     passive_tasks := passive_tasks this; was_reset := x; trace := trace this |}.
Definition emit (e : event) this : task_manager :=
  {| ike := ike this; responding := responding this; initiating := initiating this;
     queued_tasks := queued_tasks this; active_tasks := active_tasks this;
     passive_tasks := passive_tasks this; was_reset := was_reset this; trace := e :: trace this |}.

Definition with_r_mid (x : Z) (r : responding_t) : responding_t :=
  {| r_mid := x; r_packets := r_packets r; r_defrag := r_defrag r |}.
Definition with_r_packets (x : list Packet) (r : responding_t) : responding_t :=
  {| r_mid := r_mid r; r_packets := x; r_defrag := r_defrag r |}.
Definition with_r_defrag (x : option Defrag) (r : responding_t) : responding_t :=
  {| r_mid := r_mid r; r_packets := r_packets r; r_defrag := x |}.

Definition with_i_mid (x : Z) (i : initiating_t) : initiating_t :=
  {| i_mid := x; retransmitted := retransmitted i; retransmit_sent := retransmit_sent i;
     i_packets := i_packets i; i_type := i_type i; deferred := deferred i; i_defrag := i_defrag i |}.
Definition with_retransmitted (x : Z) (i : initiating_t) : initiating_t :=
  {| i_mid := i_mid i; retransmitted := x; retransmit_sent := retransmit_sent i;
     i_packets := i_packets i; i_type := i_type i; deferred := deferred i; i_defrag := i_defrag i |}.
Definition with_retransmit_sent (x : bool) (i : initiating_t) : initiating_t :=
  {| i_mid := i_mid i; retransmitted := retransmitted i; retransmit_sent := x;
     i_packets := i_packets i; i_type := i_type i; deferred := deferred i; i_defrag := i_defrag i |}.
Definition with_i_packets (x : list Packet) (i : initiating_t) : initiating_t :=
  {| i_mid := i_mid i; retransmitted := retransmitted i; retransmit_sent := retransmit_sent i;
     i_packets := x; i_type := i_type i; deferred := deferred i; i_defrag := i_defrag i |}.
Definition with_i_type (x : exchange_type) (i : initiating_t) : initiating_t :=
  {| i_mid := i_mid i; retransmitted := retransmitted i; retransmit_sent := retransmit_sent i;
     i_packets := i_packets i; i_type := x; deferred := deferred i; i_defrag := i_defrag i |}.
Definition with_deferred (x : bool) (i : initiating_t) : initiating_t :=
  {| i_mid := i_mid i; retransmitted := retransmitted i; retransmit_sent := retransmit_sent i;
     i_packets := i_packets i; i_type := i_type i; deferred := x; i_defrag := i_defrag i |}.
Definition with_i_defrag (x : option Defrag) (i : initiating_t) : initiating_t :=
  {| i_mid := i_mid i; retransmitted := retransmitted i; retransmit_sent := retransmit_sent i;
     i_packets := i_packets i; i_type := i_type i; deferred := deferred i; i_defrag := x |}.

Definition on_responding (f : responding_t -> responding_t) this :=
  with_responding (f (responding this)) this.
Definition on_initiating (f : initiating_t -> initiating_t) this :=
  with_initiating (f (initiating this)) this.

End Updates.

Section Operations.
Context `{Env}.
Implicit Types this : task_manager.

(** * Queues *)

Inductive task_queue := TASK_QUEUE_ACTIVE | TASK_QUEUE_PASSIVE | TASK_QUEUE_QUEUED.

Definition flush_queue (queue : task_queue) this : task_manager :=
  match queue with
  | TASK_QUEUE_ACTIVE => with_active [] this
  | TASK_QUEUE_PASSIVE => with_passive [] this
  | TASK_QUEUE_QUEUED => with_queued [] this
  end.

Definition flush this : task_manager :=
  flush_queue TASK_QUEUE_ACTIVE (flush_queue TASK_QUEUE_PASSIVE (flush_queue TASK_QUEUE_QUEUED this)).

(** [activate_task]: the first queued task of the type whose time has come. *)
Fixpoint extract_queued (type : task_type) (t : timeval) (q : list queued_task_t)
    : option (Task * list queued_task_t) :=
  match q with
  | [] => None
  | queued :: q =>
    if bool_decide (get_type (q_task queued) = type) && negb (tv_lt t (q_time queued))
    then Some (q_task queued, q)
    else '(task, q) ← extract_queued type t q; Some (task, queued :: q)
  end.

Definition activate_task (type : task_type) this : bool * task_manager :=
  match extract_queued type (time_monotonic (ike this)) (queued_tasks this) with
  | Some (task, q) => (true, with_active (active_tasks this ++ [task]) (with_queued q this))
  | None => (false, this)
  end.

Definition queue_task_delayed (task : Task) (delay : Z) this : task_manager :=
  let t := time_monotonic (ike this) in
  let '(t, this) :=
    if negb (delay =? 0) then
      let t := Tv (tv_sec t + delay) (tv_usec t) in (t, emit (ScheduleInitiate t) this)
    else (t, this) in
  with_queued (queued_tasks this ++ [{| q_task := task; q_time := t |}]) this.

Definition queue_task (task : Task) this : task_manager := queue_task_delayed task 0 this.

Definition queue_tasks (ts : list (Task * Z)) this : task_manager :=
  foldl (fun this td => queue_task_delayed (fst td) (snd td) this) this ts.

Definition has_queued (type : task_type) this : bool :=
  existsb (fun q => bool_decide (get_type (q_task q) = type)) (queued_tasks this).

Definition new_task (spec : task_spec) this : Task := create_task spec (ike this).

Definition queue_unless_queued (type : task_type) this : task_manager :=
  if has_queued type this then this else queue_task (new_task (Spec type true) this) this.

Definition queue_ike this : task_manager :=
  let this := queue_unless_queued TASK_IKE_VENDOR this in
  let this := queue_unless_queued TASK_IKE_INIT this in
  let this := queue_unless_queued TASK_IKE_NATD this in
  let this := queue_unless_queued TASK_IKE_CERT_PRE this in
  let this := queue_unless_queued TASK_IKE_AUTH this in
  let this := queue_unless_queued TASK_IKE_CERT_POST this in
  let this := queue_unless_queued TASK_IKE_CONFIG this in
  let this := queue_unless_queued TASK_IKE_AUTH_LIFETIME this in
  if has_queued TASK_IKE_MOBIKE this then this
  else if use_mobike (ike this)
  then queue_task (new_task (Spec TASK_IKE_MOBIKE true) this) this
  else this.

Definition queue_ike_rekey this := queue_task (new_task (Spec TASK_IKE_REKEY true) this) this.
Definition queue_ike_delete this := queue_task (new_task (Spec TASK_IKE_DELETE true) this) this.
Definition queue_child_rekey proto spi this := queue_task (new_task (SpecChildRekey proto spi) this) this.
Definition queue_child_delete proto spi expired this :=
  queue_task (new_task (SpecChildDelete proto spi expired) this) this.
Definition queue_child cfg reqid this := queue_task (new_task (SpecChildCreate cfg reqid) this) this.

(** Updates the first task of a type in a list. *)
Fixpoint update_first (type : task_type) (f : Task -> Task) (ts : list Task) : list Task :=
  match ts with
  | [] => []
  | t :: ts => if bool_decide (get_type t = type) then f t :: ts else t :: update_first type f ts
  end.

Fixpoint update_first_queued (type : task_type) (f : Task -> Task) (q : list queued_task_t)
    : list queued_task_t :=
  match q with
  | [] => []
  | t :: q => if bool_decide (get_type (q_task t) = type)
              then {| q_task := f (q_task t); q_time := q_time t |} :: q
              else t :: update_first_queued type f q
  end.

(** [queue_mobike_task], then [f] on the queued task it returns. *)
Definition queue_mobike_task (f : Task -> Task) this : task_manager :=
  let this := if has_queued TASK_IKE_MOBIKE this then this
              else queue_task (new_task (Spec TASK_IKE_MOBIKE true) this) this in
  with_queued (update_first_queued TASK_IKE_MOBIKE f (queued_tasks this)) this.

Definition queue_mobike (roam address : bool) this : task_manager :=
  if roam then
    let this := queue_mobike_task (mobike_roam address) this in
    with_active (update_first TASK_IKE_MOBIKE enable_probing (active_tasks this)) this
  else queue_mobike_task mobike_addresses this.

Definition queue_dpd this : task_manager :=
  if supports_extension EXT_MOBIKE (ike this) && is_original_initiator (ike this)
  then queue_mobike_task mobike_dpd this
  else queue_task (new_task (Spec TASK_IKE_DPD true) this) this.

(** Moves the queued tasks of [other]: from its tail to the head of [this]. *)
Definition adopt_tasks (this other : task_manager) : task_manager * task_manager :=
  let t := time_monotonic (ike this) in
  let moved := (fun q => {| q_task := migrate (q_task q); q_time := t |}) <$> queued_tasks other in
  (with_queued (moved ++ queued_tasks this) this, with_queued [] other).

(** [task_manager_v2_create]. *)
Definition task_manager_create (ike_sa : Ike) : task_manager :=
  {| ike := ike_sa;
     responding := {| r_mid := 0; r_packets := []; r_defrag := None |};
     initiating := {| i_mid := 0; retransmitted := 0; retransmit_sent := false; i_packets := [];
                      i_type := EXCHANGE_TYPE_UNDEFINED; deferred := false; i_defrag := None |};
     queued_tasks := []; active_tasks := []; passive_tasks := []; was_reset := false; trace := [] |}.

(** What [create_task_enumerator] enumerates, and [remove_task] at a position. *)
Definition tasks_of (queue : task_queue) this : list Task :=
  match queue with
  | TASK_QUEUE_ACTIVE => active_tasks this
  | TASK_QUEUE_PASSIVE => passive_tasks this
  | TASK_QUEUE_QUEUED => q_task <$> queued_tasks this
  end.

Definition remove_task (queue : task_queue) (n : nat) this : task_manager :=
  match queue with
  | TASK_QUEUE_ACTIVE => with_active (list_delete n (active_tasks this)) this
  | TASK_QUEUE_PASSIVE => with_passive (list_delete n (passive_tasks this)) this
  | TASK_QUEUE_QUEUED => with_queued (list_delete n (queued_tasks this)) this
  end.

Definition busy this : bool := 0 <? Z.of_nat (length (active_tasks this)).

Definition reset (initiate respond : Z) this : task_manager :=
  let this := on_responding (fun r => with_r_defrag None (with_r_packets [] r)) this in
  let this := on_initiating (fun i => with_i_defrag None (with_i_packets [] i)) this in
  let this := if negb (initiate =? UINT_MAX) then on_initiating (with_i_mid initiate) this else this in
  let this := if negb (respond =? UINT_MAX) then on_responding (with_r_mid respond) this else this in
  let this := on_initiating (with_i_type EXCHANGE_TYPE_UNDEFINED) this in
  let t := time_monotonic (ike this) in
  let requeue task := {| q_task := migrate task; q_time := t |} in
  let this := with_queued (requeue <$> (q_task <$> queued_tasks this)) this in
  let this := with_queued ((requeue <$> active_tasks this) ++ queued_tasks this) (with_active [] this) in
  with_reset true this.

Definition incr_mid (initiate : bool) this : task_manager :=
  if initiate then on_initiating (fun i => with_i_mid (u32 (i_mid i + 1)) i) this
  else on_responding (fun r => with_r_mid (u32 (r_mid r + 1)) r) this.

Definition get_mid (initiate : bool) this : Z :=
  if initiate then i_mid (initiating this) else r_mid (responding this).

(** * Sending *)

Definition send_packets (packets : list Packet) (src dst : option host_t) this : task_manager :=
  foldl (fun this p => emit (Sent p src dst) this) this packets.

(** Generates the message; on success its packets, in order. *)
Definition generate_message (m : Message) this : option (list Packet) * task_manager :=
  let '(packets, i) := generate_message_fragmented m (ike this) in (packets, with_ike i this).

Definition find_task (type : task_type) (ts : list Task) : option Task :=
  List.find (fun t => bool_decide (get_type t = type)) ts.

(** The timeout of the next retransmit, with the jitter taken off. *)
Definition retransmit_delay this : Z * task_manager :=
  let n := retransmitted (initiating this) in
  let timeout := if (retransmit_tries_max =? 0) || (n <=? retransmit_tries_max)
                 then backoff n else UINT32_MAX in
  let timeout := if negb (retransmit_limit =? 0) then Z.min timeout retransmit_limit else timeout in
  if negb (retransmit_jitter =? 0) then
    let '(j, i) := jitter timeout (ike this) in (u32 (timeout - j), with_ike i this)
  else (timeout, this).

(** A transmission was made: count it and schedule the next one. *)
Definition retransmit_done (timeout : Z) this : status * task_manager :=
  let this := on_initiating (fun i => with_retransmitted (retransmitted i + 1) i) this in
  (SUCCESS, emit (ScheduleRetransmit (i_mid (initiating this)) timeout) this).

(** No route: the exchange is deferred. *)
Definition retransmit_deferred this : status * task_manager :=
  (INVALID_STATE, on_initiating (with_deferred true) (with_ike (set_stale (ike this)) this)).

Definition transmit_with (mobike : Task) (packet : Packet) this : bool * Task * task_manager :=
  let '(ok, mobike, i) := mobike_transmit mobike packet (ike this) in
  (ok, mobike, with_ike i (with_active (update_first TASK_IKE_MOBIKE (fun _ => mobike) (active_tasks this)) this)).

Definition retransmit (message_id : Z) this : status * task_manager :=
  match i_packets (initiating this) with
  | packet :: _ =>
    if message_id =? i_mid (initiating this) then
      let mobike := if bool_decide (i_type (initiating this) = INFORMATIONAL)
                    then find_task TASK_IKE_MOBIKE (active_tasks this) else None in
      let n := retransmitted (initiating this) in
      if negb (from_option is_probing false mobike) then
        if n >? retransmit_tries then (DESTROY_ME, emit (AlertRetransmitTimeout packet) this)
        else
          let '(timeout, this) := retransmit_delay this in
          let this := if negb (n =? 0) then
                        on_initiating (with_retransmit_sent true) (emit (AlertRetransmitSend packet n) this)
                      else this in
          match mobike with
          | None =>
            retransmit_done timeout
              (send_packets (i_packets (initiating this)) (Some (get_my_host (ike this)))
                 (Some (get_other_host (ike this))) this)
          | Some mobike =>
            let '(ok, mobike, this) := transmit_with mobike packet this in
            if negb ok then retransmit_deferred this
            else retransmit_done (if is_probing mobike then ROUTABILITY_CHECK_INTERVAL else timeout) this
          end
      else
        match mobike with
        | Some mobike =>
          if n <=? ROUTABILITY_CHECK_TRIES then
            let '(ok, _, this) := transmit_with mobike packet this in
            if negb ok then retransmit_deferred this
            else retransmit_done ROUTABILITY_CHECK_INTERVAL this
          else (DESTROY_ME, this)
        | None => (INVALID_STATE, this)
        end
    else (INVALID_STATE, this)
  | [] => (INVALID_STATE, this)
  end.

(** * Initiating exchanges *)

(** Tries to activate the tasks in turn, up to the first one found. *)
Fixpoint activate_first (candidates : list (task_type * exchange_type)) this
    : option exchange_type * task_manager :=
  match candidates with
  | [] => (None, this)
  | (type, exchange) :: candidates =>
    let '(found, this) := activate_task type this in
    if found then (Some exchange, this) else activate_first candidates this
  end.

(** The cases of the state [IKE_ESTABLISHED], and what it falls through to. *)
Definition established_tasks : list (task_type * exchange_type) :=
  [(TASK_IKE_MOBIKE, INFORMATIONAL); (TASK_IKE_DELETE, INFORMATIONAL);
   (TASK_IKE_REDIRECT, INFORMATIONAL); (TASK_CHILD_DELETE, INFORMATIONAL);
   (TASK_IKE_REAUTH, INFORMATIONAL); (TASK_CHILD_CREATE, CREATE_CHILD_SA);
   (TASK_CHILD_REKEY, CREATE_CHILD_SA); (TASK_IKE_REKEY, CREATE_CHILD_SA);
   (TASK_IKE_DPD, INFORMATIONAL); (TASK_IKE_AUTH_LIFETIME, INFORMATIONAL);
   (TASK_IKE_REAUTH_COMPLETE, INFORMATIONAL); (TASK_IKE_VERIFY_PEER_CERT, INFORMATIONAL);
   (TASK_IKE_DELETE, INFORMATIONAL)].

Definition activate_all (types : list task_type) this : task_manager :=
  foldl (fun this type => snd (activate_task type this)) this types.

Definition activate_new_tasks this : option exchange_type * task_manager :=
  match get_state (ike this) with
  | IKE_CREATED =>
    let this := snd (activate_task TASK_IKE_VENDOR this) in
    let '(found, this) := activate_task TASK_IKE_INIT this in
    if found then
      let this := on_initiating (with_i_mid 0) this in
      (Some IKE_SA_INIT,
       activate_all [TASK_IKE_NATD; TASK_IKE_CERT_PRE; TASK_IKE_AUTH; TASK_IKE_CERT_POST;
                     TASK_IKE_CONFIG; TASK_CHILD_CREATE; TASK_IKE_AUTH_LIFETIME;
                     TASK_IKE_MOBIKE] this)
    else (None, this)
  | IKE_ESTABLISHED => activate_first established_tasks this
  | IKE_REKEYING | IKE_REKEYED => activate_first [(TASK_IKE_DELETE, INFORMATIONAL)] this
  | _ => (None, this)
  end.

(** The exchange of the first active task that determines one. *)
Fixpoint active_exchange (ts : list Task) : option exchange_type :=
  match ts with
  | [] => None
  | t :: ts =>
    match get_type t with
    | TASK_IKE_INIT => Some IKE_SA_INIT
    | TASK_IKE_AUTH => Some IKE_AUTH
    | TASK_CHILD_CREATE | TASK_CHILD_REKEY | TASK_IKE_REKEY => Some CREATE_CHILD_SA
    | TASK_IKE_MOBIKE => Some INFORMATIONAL
    | _ => active_exchange ts
    end
  end.

(** The loop that lets the active tasks build the request; [Some] status is an
    early return. *)
Fixpoint build_request (before rest : list Task) (m : Message) this
    : option status * Message * task_manager :=
  match rest with
  | [] => (None, m, with_active before this)
  | task :: rest =>
    let '(s, task, m, i, ts) := build task m (ike this) in
    let this := queue_tasks ts (with_ike i this) in
    match s with
    | SUCCESS => build_request before rest m this
    | NEED_MORE => build_request (before ++ [task]) rest m this
    | DESTROY_ME => (Some DESTROY_ME, m, flush this)
    | _ =>
      let this := on_initiating (with_i_type EXCHANGE_TYPE_UNDEFINED) this in
      let this := if bool_decide (get_state (ike this) <> IKE_CONNECTING)
                     && bool_decide (get_state (ike this) <> IKE_REKEYED)
                  then emit IkeDown this else this in
      (Some DESTROY_ME, m, flush this)
    end
  end.

(** [initiate] calls itself when the tasks turn the exchange into an undefined one:
    one unit of fuel per round; [None] is out of fuel. *)
Fixpoint initiate (fuel : nat) this : option (status * task_manager) :=
  match fuel with
  | O => None
  | S fuel =>
    if bool_decide (i_type (initiating this) <> EXCHANGE_TYPE_UNDEFINED) then
      if deferred (initiating this) then
        let this := on_initiating (fun i => with_retransmitted 0 (with_deferred false i)) this in
        Some (retransmit (i_mid (initiating this)) this)
      else Some (SUCCESS, this)
    else
      let '(exchange, this) :=
        if busy this then (active_exchange (active_tasks this), this)
        else activate_new_tasks this in
      match exchange with
      | None => Some (SUCCESS, this)
      | Some exchange =>
        let m := message_create exchange (i_mid (initiating this)) true
                   (get_my_host (ike this)) (get_other_host (ike this)) in
        let this := on_initiating (fun i => with_deferred false (with_retransmit_sent false
                      (with_retransmitted 0 (with_i_type exchange i)))) this in
        let '(s, m, this) := build_request [] (active_tasks this) m this in
        match s with
        | Some s => Some (s, this)
        | None =>
          let this := on_initiating (with_i_type (get_exchange_type m)) this in
          if bool_decide (i_type (initiating this) = EXCHANGE_TYPE_UNDEFINED) then initiate fuel this
          else
            let '(packets, this) := generate_message m this in
            match packets with
            | None => Some (DESTROY_ME, emit IkeDown (flush this))
            | Some packets =>
              let this := on_initiating (fun i => with_i_packets (i_packets i ++ packets) i) this in
              Some (retransmit (i_mid (initiating this)) this)
            end
        end
      end
  end.

End Operations.

Section Processing.
Context `{Env}.
Implicit Types this : task_manager.

(** * Responses *)

(** The loop over [pre_process]; tasks without the method are skipped. *)
Fixpoint pre_process_tasks (ts : list Task) (m : Message) (i : Ike) : status * list Task * Ike :=
  match ts with
  | [] => (SUCCESS, [], i)
  | task :: ts =>
    if negb (has_pre_process task) then
      let '(s, ts, i) := pre_process_tasks ts m i in (s, task :: ts, i)
    else
      let '(s, task, i) := pre_process task m i in
      match s with
      | SUCCESS => let '(s, ts, i) := pre_process_tasks ts m i in (s, task :: ts, i)
      | _ => (s, task :: ts, i)
      end
  end.

Definition view_of this : view :=
  {| v_initiating_mid := i_mid (initiating this); v_responding_mid := r_mid (responding this);
     v_active := busy this |}.

(** What a task's [process] did to the manager: tasks queued, then resets. *)
Definition process_effects (i : Ike) (ts : list (Task * Z)) (resets : list (Z * Z)) this : task_manager :=
  foldl (fun this r => reset (fst r) (snd r) this) (queue_tasks ts (with_ike i this)) resets.

(** The outcome of the loops over [process]. *)
Inductive loop_result := LoopDone | LoopReset | LoopFailed.

(** [array_remove_at] on the active tasks: after a reset none are left to remove. *)
Definition remove_processed (before rest : list Task) this : task_manager :=
  if was_reset this then this else with_active (before ++ rest) this.

(** The loop over the active tasks. A reset moves them to the queue and ends it. *)
Fixpoint process_active (before rest : list Task) (m : Message) this : loop_result * task_manager :=
  match rest with
  | [] => (LoopDone, with_active before this)
  | task :: rest =>
    let '(s, task, i, ts, resets) := process task m (view_of this) (ike this) in
    let this := process_effects i ts resets (with_active (before ++ task :: rest) this) in
    match s with
    | SUCCESS | NEED_MORE =>
      if was_reset this then (LoopReset, with_reset false this)
      else process_active (if bool_decide (s = SUCCESS) then before else before ++ [task]) rest m this
    | DESTROY_ME => (LoopFailed, remove_processed before rest this)
    | _ => (LoopFailed, remove_processed before rest (emit IkeDown this))
    end
  end.

Definition get_notify (ty : notify_type) (m : Message) : bool :=
  existsb (fun p => match p with PLV2_NOTIFY t _ => bool_decide (t = ty) | _ => false end) (payloads m).

Definition process_response (fuel : nat) (m : Message) this : option (status * task_manager) :=
  if bool_decide (get_exchange_type m <> i_type (initiating this))
  then Some (DESTROY_ME, emit IkeDown this)
  else if (bool_decide (get_exchange_type m = CREATE_CHILD_SA)
           || bool_decide (get_exchange_type m = INFORMATIONAL)) && get_notify INVALID_SYNTAX m
  then Some (DESTROY_ME, emit IkeDown this)
  else
    let '(s, ts, i) := pre_process_tasks (active_tasks this) m (ike this) in
    let this := with_ike i (with_active ts this) in
    match s with
    | SUCCESS =>
      let this := if retransmit_sent (initiating this)
                  then emit (AlertRetransmitCleared (head (i_packets (initiating this)))) this else this in
      let this := with_reset false this in
      let '(r, this) := process_active [] (active_tasks this) m this in
      match r with
      | LoopFailed => Some (DESTROY_ME, this)
      | LoopReset => initiate fuel this
      | LoopDone =>
        initiate fuel (on_initiating (fun i => with_i_packets [] (with_i_type EXCHANGE_TYPE_UNDEFINED
          (with_i_mid (u32 (i_mid i + 1)) i))) this)
      end
    | DESTROY_ME => Some (DESTROY_ME, this)
    | _ => Some (SUCCESS, this)
    end.

(** * Requests *)

(** The active task a passive task collides with, if any, takes it over. *)
Definition collides (type active : task_type) : bool :=
  match active with
  | TASK_IKE_REKEY => bool_decide (type = TASK_IKE_REKEY) || bool_decide (type = TASK_IKE_DELETE)
  | TASK_CHILD_REKEY => bool_decide (type = TASK_CHILD_REKEY) || bool_decide (type = TASK_CHILD_DELETE)
  | _ => false
  end.

Fixpoint collide_first (task : Task) (ts : list Task) : option (list Task) :=
  match ts with
  | [] => None
  | active :: ts =>
    if collides (get_type task) (get_type active) then Some (collide active task :: ts)
    else ts ← collide_first task ts; Some (active :: ts)
  end.

Definition handle_collisions (task : Task) this : bool * task_manager :=
  match get_type task with
  | TASK_IKE_REKEY | TASK_CHILD_REKEY | TASK_CHILD_DELETE | TASK_IKE_DELETE =>
    match collide_first task (active_tasks this) with
    | Some ts => (true, with_active ts this)
    | None => (false, this)
    end
  | _ => (false, this)
  end.

(** The loop that builds the response: whether to delete the IKE_SA and to call the
    hook, and whether the task to synchronize message IDs was among the tasks. *)
Record build_flags := { f_delete : bool; f_hook : bool; f_mid_sync : bool }.

Fixpoint build_tasks (before rest : list Task) (m : Message) (mid_sync : bool) this
    : build_flags * Message * task_manager :=
  match rest with
  | [] => ({| f_delete := false; f_hook := false; f_mid_sync := mid_sync |}, m, with_passive before this)
  | task :: rest =>
    let mid_sync := mid_sync || bool_decide (get_type task = TASK_IKE_MID_SYNC) in
    let '(s, task, m, i, ts) := build task m (ike this) in
    let this := queue_tasks ts (with_ike i this) in
    let '(collided, this) := handle_collisions task this in
    match s with
    | SUCCESS => build_tasks before rest m mid_sync this
    | NEED_MORE => build_tasks (if collided then before else before ++ [task]) rest m mid_sync this
    | _ =>
      ({| f_delete := true; f_hook := bool_decide (s <> DESTROY_ME); f_mid_sync := mid_sync |}, m,
       with_passive (before ++ (if collided then [] else [task]) ++ rest) this)
    end
  end.

Definition build_response (request : Message) this : status * task_manager :=
  let m := message_create (get_exchange_type request) (r_mid (responding this)) false
             (get_destination request) (get_source request) in
  let '(flags, m, this) := build_tasks [] (passive_tasks this) m false this in
  let zero_spi := f_delete flags && bool_decide (get_exchange_type request = IKE_SA_INIT) in
  let spi := get_responder_spi (ike this) in
  let this := if zero_spi then with_ike (set_responder_spi 0 (ike this)) this else this in
  let this := on_responding (with_r_packets []) this in
  let '(packets, this) := generate_message m this in
  let this := if zero_spi then with_ike (set_responder_spi spi (ike this)) this else this in
  match packets with
  | None => (DESTROY_ME, emit IkeDown this)
  | Some packets =>
    let this := on_responding (with_r_packets packets) this in
    let this := send_packets (r_packets (responding this)) None None this in
    if f_delete flags then (DESTROY_ME, if f_hook flags then emit IkeDown this else this)
    else if f_mid_sync flags then (NEED_MORE, on_responding (with_r_packets []) this)
    else (SUCCESS, this)
  end.

(** The task for a CREATE_CHILD_SA request, by its payloads. *)
Definition create_child_task (ps : list payload) : task_spec :=
  let notify_found := existsb (fun p => match p with
    | PLV2_NOTIFY t proto => bool_decide (t = REKEY_SA)
        && (bool_decide (proto = PROTO_AH) || bool_decide (proto = PROTO_ESP))
    | _ => false end) ps in
  let ts_found := existsb (fun p => match p with
    | PLV2_TS_INITIATOR | PLV2_TS_RESPONDER => true | _ => false end) ps in
  if ts_found then
    if notify_found then SpecChildRekey PROTO_NONE 0 else Spec TASK_CHILD_CREATE false
  else Spec TASK_IKE_REKEY false.

(** The task for an INFORMATIONAL request: the first payload that asks for one. *)
Definition payload_task (state : ike_sa_state) (p : payload) : option task_spec :=
  match p with
  | PLV2_NOTIFY ty _ =>
    if bool_decide (state = IKE_REKEYED) then None
    else match ty with
    | ADDITIONAL_IP4_ADDRESS | ADDITIONAL_IP6_ADDRESS | NO_ADDITIONAL_ADDRESSES
    | UPDATE_SA_ADDRESSES | NO_NATS_ALLOWED | UNACCEPTABLE_ADDRESSES
    | UNEXPECTED_NAT_DETECTED | COOKIE2 | NAT_DETECTION_SOURCE_IP
    | NAT_DETECTION_DESTINATION_IP => Some (Spec TASK_IKE_MOBIKE false)
    | AUTH_LIFETIME => Some (Spec TASK_IKE_AUTH_LIFETIME false)
    | AUTHENTICATION_FAILED => Some (Spec TASK_IKE_DELETE false)
    | REDIRECT => Some (Spec TASK_IKE_REDIRECT false)
    | IKEV2_MESSAGE_ID_SYNC => Some (Spec TASK_IKE_MID_SYNC false)
    | _ => None
    end
  | PLV2_DELETE proto =>
    Some (if bool_decide (proto = PROTO_IKE) then Spec TASK_IKE_DELETE false
          else SpecChildDelete PROTO_NONE 0 false)
  | _ => None
  end.

Fixpoint informational_task (state : ike_sa_state) (ps : list payload) : task_spec :=
  match ps with
  | [] => Spec TASK_IKE_DPD false
  | p :: ps => match payload_task state p with
               | Some s => s
               | None => informational_task state ps
               end
  end.

Definition init_tasks : list task_spec :=
  [Spec TASK_IKE_VENDOR false; Spec TASK_IKE_INIT false; Spec TASK_IKE_NATD false;
   Spec TASK_IKE_CERT_PRE false; Spec TASK_IKE_AUTH false; Spec TASK_IKE_CERT_POST false;
   Spec TASK_IKE_CONFIG false; Spec TASK_CHILD_CREATE false; Spec TASK_IKE_AUTH_LIFETIME false;
   Spec TASK_IKE_MOBIKE false].

(** The passive tasks a request asks for; [None] rejects it. *)
Definition request_tasks (m : Message) (state : ike_sa_state) : option (list task_spec) :=
  match get_exchange_type m with
  | IKE_SA_INIT => Some init_tasks
  | CREATE_CHILD_SA =>
    if bool_decide (state = IKE_CREATED) || bool_decide (state = IKE_CONNECTING) then None
    else Some [create_child_task (payloads m)]
  | INFORMATIONAL => Some [informational_task state (payloads m)]
  | _ => Some []
  end.

(** The loop that lets the passive tasks process the request. *)
Fixpoint process_passive (before rest : list Task) (m : Message) this : bool * task_manager :=
  match rest with
  | [] => (true, with_passive before this)
  | task :: rest =>
    let '(s, task, i, ts, resets) := process task m (view_of this) (ike this) in
    let this := process_effects i ts resets this in
    match s with
    | SUCCESS => process_passive before rest m this
    | NEED_MORE => process_passive (before ++ [task]) rest m this
    | DESTROY_ME => (false, with_passive (before ++ rest) this)
    | _ => (false, with_passive (before ++ rest) (emit IkeDown this))
    end
  end.

Definition process_request (m : Message) this : status * task_manager :=
  let specs := match passive_tasks this with
               | [] => request_tasks m (get_state (ike this))
               | _ => Some []
               end in
  match specs with
  | None => (FAILED, this)
  | Some specs =>
    let this := with_passive (passive_tasks this ++ ((fun s => new_task s this) <$> specs)) this in
    let '(s, ts, i) := pre_process_tasks (passive_tasks this) m (ike this) in
    let this := with_ike i (with_passive ts this) in
    match s with
    | SUCCESS =>
      let '(ok, this) := process_passive [] (passive_tasks this) m this in
      if ok then build_response m this else (DESTROY_ME, this)
    | DESTROY_ME => (DESTROY_ME, this)
    | _ =>
      match get_exchange_type m with
      | IKE_SA_INIT => (DESTROY_ME, this)
      | IKE_AUTH => (NEED_MORE, this)
      | _ => (NEED_MORE, flush_queue TASK_QUEUE_PASSIVE this)
      end
    end
  end.

(** * Parsing and checking messages *)

Definition send_notify_response (request : Message) (ty : notify_type) (data : chunk) this : task_manager :=
  let this := if is_anyaddr (get_my_host (ike this))
              then with_ike (set_my_host (get_destination request) (ike this)) this else this in
  let this := if is_anyaddr (get_other_host (ike this))
              then with_ike (set_other_host (get_source request) (ike this)) this else this in
  let me := get_my_host (ike this) in
  let other := get_other_host (ike this) in
  let m := add_notify ty data
             (message_create (get_exchange_type request) (get_message_id request) false me other) in
  let '(packet, i) := generate_message_single m (ike this) in
  let this := with_ike i this in
  match packet with
  | Some packet => emit (Sent packet None None) this
  | None => this
  end.

Definition send_invalid_syntax (m : Message) this : status * task_manager :=
  let this := incr_mid false (send_notify_response m INVALID_SYNTAX [] this) in
  (if bool_decide (get_exchange_type m = IKE_SA_INIT) then FAILED else DESTROY_ME, this).

Definition critical_payload (ps : list payload) : option Z :=
  match List.find (fun p => match p with PL_UNKNOWN _ critical => critical | _ => false end) ps with
  | Some (PL_UNKNOWN ty _) => Some ty
  | _ => None
  end.

Definition parse_message (m : Message) this : status * Message * task_manager :=
  let '(s, m, i) := parse_body m (ike this) in
  let this := with_ike i this in
  let critical := critical_payload (payloads m) in
  let parse_status := match s, critical with
                      | SUCCESS, Some _ => NOT_SUPPORTED
                      | _, _ => s
                      end in
  let ty := match s with SUCCESS => default 0 critical | _ => 0 end in
  match parse_status with
  | SUCCESS => (SUCCESS, m, this)
  | _ =>
    let is_request := get_request m in
    let '(st, this) :=
      match parse_status with
      | NOT_SUPPORTED =>
        (parse_status, if is_request
                       then incr_mid false (send_notify_response m UNSUPPORTED_CRITICAL_PAYLOAD [ty] this)
                       else this)
      | PARSE_ERROR | VERIFY_ERROR =>
        if is_request then send_invalid_syntax m this else (parse_status, this)
      | _ => (parse_status, this)
      end in
    let this := emit (AlertParseError m parse_status) this in
    match get_state (ike this) with
    | IKE_CREATED => (DESTROY_ME, m, this)
    | IKE_CONNECTING | IKE_REKEYED => (st, m, this)
    | _ => (st, m, if bool_decide (st = DESTROY_ME) then emit IkeDown this else this)
    end
  end.

Definition is_sync_notify (p : payload) : bool :=
  match p with
  | PLV2_NOTIFY IKEV2_MESSAGE_ID_SYNC _ | PLV2_NOTIFY IPSEC_REPLAY_COUNTER_SYNC _ => true
  | _ => false
  end.

(** Any other payload makes [strict] fail, and ends the search. *)
Definition looks_like_mid_sync (m : Message) (strict : bool) : bool :=
  if bool_decide (get_exchange_type m = INFORMATIONAL) then
    let found := existsb is_sync_notify (payloads m) in
    let other := strict && existsb (fun p => negb (is_sync_notify p)) (payloads m) in
    found && negb other
  else false.

Definition reject_request (m : Message) this : bool :=
  let state := get_state (ike this) in
  let type := get_exchange_type m in
  let reject := match type with
                | IKE_SA_INIT => bool_decide (state <> IKE_CREATED)
                | IKE_AUTH => bool_decide (state <> IKE_CONNECTING)
                | _ => false
                end in
  if reject then true
  else match state with
       | IKE_REKEYED => bool_decide (type <> INFORMATIONAL)
       | IKE_CREATED | IKE_CONNECTING => is_initiator (ike this)
       | _ => false
       end.

Definition is_mid_sync (m : Message) this : bool :=
  if bool_decide (get_state (ike this) = IKE_ESTABLISHED)
     && supports_extension EXT_IKE_MESSAGE_ID_SYNC (ike this)
  then looks_like_mid_sync m true else false.

Definition has_fragment (m : Message) : bool :=
  existsb (fun p => match p with PLV2_FRAGMENT => true | _ => false end) (payloads m).

(** [handle_fragment], given how a reassembled message is reinjected. [defrag] is
    the slot of the request or of the response. *)
Definition handle_fragment (reinject : Message -> task_manager -> option (status * task_manager))
    (is_request : bool) (m : Message) this : option (status * task_manager) :=
  let get this := if is_request then r_defrag (responding this) else i_defrag (initiating this) in
  let put d this := if is_request then on_responding (with_r_defrag d) this
                    else on_initiating (with_i_defrag d) this in
  let this := match get this with
              | Some d => if defrag_message_id d <? get_message_id m then put None this else this
              | None => this
              end in
  if negb (has_fragment m) then Some (SUCCESS, this)
  else
    match (match get this with Some d => Some d | None => message_create_defrag m end) with
    | None => Some (FAILED, this)
    | Some d =>
      let '(s, d) := add_fragment d m in
      match s with
      | SUCCESS =>
        '(s, this) ← reinject (reassembled d) (put None this);
        Some (match s with SUCCESS => NEED_MORE | _ => s end, this)
      | _ => Some (s, put (Some d) this)
      end
    end.

(** How a branch of [process_message] ends: it returns, or goes on to the end of the
    function, where the deletion of a half-open IKE_SA is scheduled. *)
Inductive flow := Return (s : status) | Continue.

(** Statistics are updated when a fragment was taken. *)
Definition after_fragment (s : status) this : flow * task_manager :=
  (Return s, match s with NEED_MORE => emit StatInbound this | _ => this end).

Definition process_expected_request
    (reinject : Message -> task_manager -> option (status * task_manager))
    (m : Message) this : option (flow * task_manager) :=
  if reject_request m this then Some (Return FAILED, this)
  else
    let this := if negb (supports_extension EXT_MOBIKE (ike this))
                then with_ike (update_hosts (get_destination m) (get_source m)
                       (if get_message_id m =? 1 then UPDATE_HOSTS_FORCE_ADDRS else UPDATE_NONE)
                       (ike this)) this else this in
    '(s, this) ← handle_fragment reinject true m this;
    match s with
    | SUCCESS =>
      let '(m, i) := bus_message m true (ike this) in
      let this := with_ike i this in
      if bool_decide (get_exchange_type m = EXCHANGE_TYPE_UNDEFINED) then Some (Return SUCCESS, this)
      else
        let '(s, this) := process_request m this in
        match s with
        | SUCCESS => Some (Continue, incr_mid false (emit StatInbound this))
        | NEED_MORE => Some (Continue, this)
        | _ => Some (Return DESTROY_ME, flush this)
        end
    | _ => Some (after_fragment s this)
    end.

Definition process_retransmitted_request
    (reinject : Message -> task_manager -> option (status * task_manager))
    (m : Message) this : option (flow * task_manager) :=
  '(s, this) ← handle_fragment reinject true m this;
  match s with
  | SUCCESS =>
    Some (Continue, send_packets (r_packets (responding this)) (Some (get_destination m))
      (Some (get_source m)) (emit (AlertRetransmitReceive m) (emit StatInbound this)))
  | _ => Some (after_fragment s this)
  end.

Definition process_expected_response (fuel : nat)
    (reinject : Message -> task_manager -> option (status * task_manager))
    (m : Message) this : option (flow * task_manager) :=
  let this :=
    if (bool_decide (get_state (ike this) = IKE_CREATED)
        || bool_decide (get_state (ike this) = IKE_CONNECTING)
        || bool_decide (get_exchange_type m <> IKE_SA_INIT))
       && negb (supports_extension EXT_MOBIKE (ike this))
    then with_ike (update_hosts (get_destination m) (get_source m)
           (if get_message_id m =? 0 then UPDATE_HOSTS_FORCE_LOCAL else UPDATE_NONE) (ike this)) this
    else this in
  '(s, this) ← handle_fragment reinject false m this;
  match s with
  | SUCCESS =>
    let '(m, i) := bus_message m true (ike this) in
    let this := with_ike i this in
    if bool_decide (get_exchange_type m = EXCHANGE_TYPE_UNDEFINED) then Some (Return SUCCESS, this)
    else
      '(s, this) ← process_response fuel m this;
      Some (if bool_decide (s <> SUCCESS) then (Return DESTROY_ME, flush this)
            else (Continue, emit StatInbound this))
  | _ => Some (after_fragment s this)
  end.

(** Whether the message is a request that is a retransmit of the last one. *)
Definition is_retransmit (m : Message) this : bool :=
  (get_message_id m =? u32 (r_mid (responding this) - 1))
  && negb (bool_decide (r_packets (responding this) = []))
  && negb ((get_message_id m =? 0) && looks_like_mid_sync m false).

(** A message of an IKE_SA without configuration needs one; the flag says that the
    deletion of the half-open IKE_SA is to be scheduled. *)
Definition check_config (m : Message) this : option (bool * task_manager) * task_manager :=
  if has_ike_cfg (ike this) then (Some (false, this), this)
  else match select_ike_cfg (get_destination m) (get_source m) (ike this) with
       | None => (None, send_notify_response m NO_PROPOSAL_CHOSEN [] this)
       | Some i => (Some (true, with_ike i this), this)
       end.

(** [process_message] and, for a reassembled message, the [process_message] of the
    IKE_SA around it. [fuel] bounds the nesting of reassembled messages, [ifuel]
    the rounds of [initiate]; [None] is out of fuel. *)
Fixpoint process_message (fuel ifuel : nat) (m : Message) this : option (status * task_manager) :=
  match fuel with
  | O => None
  | S fuel =>
    let reinject m this :=
      if negb (accepts_message m (ike this)) then Some (FAILED, this)
      else '(s, this) ← process_message fuel ifuel m this;
           Some (s, with_ike (flush_auth_cfgs (ike this)) this) in
    let '(m, i) := bus_message m false (ike this) in
    let '(s, m, this) := parse_message m (with_ike i this) in
    if bool_decide (s <> SUCCESS) then Some (s, this)
    else
      match check_config m this with
      | (None, this) => Some (DESTROY_ME, this)
      | (Some (schedule_delete_job, this), _) =>
        let mid := get_message_id m in
        '(f, this) ←
          (if get_request m then
             if (mid =? r_mid (responding this)) || ((mid =? 0) && is_mid_sync m this)
             then process_expected_request reinject m this
             else if is_retransmit m this then process_retransmitted_request reinject m this
             else Some (Continue, this)
           else
             if mid =? i_mid (initiating this)
             then process_expected_response ifuel reinject m this
             else Some (Return SUCCESS, this));
        match f with
        | Return s => Some (s, this)
        | Continue =>
          Some (SUCCESS, if schedule_delete_job then emit (ScheduleDelete half_open_timeout) this
                         else this)
        end
      end
  end.

End Processing.
