(* ===== verification/TaskManagerSpec.v ===== *)
(** What the IKEv2 task manager guarantees: the window of requests, the matching of
    responses, bounded retransmission, one exchange at a time, the order in which
    tasks are activated, and the termination of [initiate] and [process_message]. *)

From S2P Require Import Prelude Host Scheduler TaskManager.

#[local] Arguments reverse {_} _ : simpl never.

(** * Frames *)

Section Frames.
Context `{Env}.
Implicit Types this : task_manager.

(** Queueing changes the queue and the events only. *)
Definition only_queued this this' : Prop :=
  ike this' = ike this /\ responding this' = responding this
  /\ initiating this' = initiating this /\ active_tasks this' = active_tasks this
  /\ passive_tasks this' = passive_tasks this /\ was_reset this' = was_reset this.

Lemma only_queued_trans a b c : only_queued a b -> only_queued b c -> only_queued a c.
Proof. unfold only_queued. intuition congruence. Qed.

Lemma queue_task_delayed_only task d this : only_queued this (queue_task_delayed task d this).
Proof. unfold queue_task_delayed. by destruct (negb (d =? 0)). Qed.

Lemma queue_tasks_only ts this : only_queued this (queue_tasks ts this).
Proof.
  unfold queue_tasks. revert this. induction ts as [|t ts IH]; intros this; [done|].
  eapply only_queued_trans; [apply queue_task_delayed_only | apply IH].
Qed.

Lemma send_packets_spec ps src dst this :
  send_packets ps src dst this
  = {| ike := ike this; responding := responding this; initiating := initiating this;
       queued_tasks := queued_tasks this; active_tasks := active_tasks this;
       passive_tasks := passive_tasks this; was_reset := was_reset this;
       trace := reverse ((fun p => Sent p src dst) <$> ps) ++ trace this |}.
Proof.
  unfold send_packets. revert this. induction ps as [|p ps IH]; intros this; [by destruct this|].
  rewrite fmap_cons, reverse_cons, <-app_assoc. cbn [foldl]. by rewrite IH.
Qed.

(** Activating a task moves it between the queues. *)
Definition only_moved this this' : Prop :=
  ike this' = ike this /\ responding this' = responding this
  /\ initiating this' = initiating this /\ passive_tasks this' = passive_tasks this
  /\ was_reset this' = was_reset this /\ trace this' = trace this
  /\ Permutation (active_tasks this' ++ (q_task <$> queued_tasks this'))
                 (active_tasks this ++ (q_task <$> queued_tasks this)).

Lemma only_moved_refl this : only_moved this this.
Proof. by repeat split. Qed.

Lemma only_moved_trans a b c : only_moved a b -> only_moved b c -> only_moved a c.
Proof.
  unfold only_moved. intros (?&?&?&?&?&?&P) (?&?&?&?&?&?&Q). repeat split; try congruence.
  by rewrite Q.
Qed.

Lemma extract_queued_perm ty t q task q' :
  extract_queued ty t q = Some (task, q') ->
  Permutation (q_task <$> q) (task :: (q_task <$> q')) /\ get_type task = ty.
Proof.
  revert q'. induction q as [|x q IH]; intros q'; cbn; [done|].
  destruct (_ && _) eqn:Hc.
  - intros [= <- <-]. apply andb_true_iff in Hc as [Hc _]. by apply bool_decide_eq_true in Hc.
  - destruct (extract_queued ty t q) as [[u r]|] eqn:E; cbn; [|done].
    intros [= <- <-]. destruct (IH _ eq_refl) as [P ?]. split; [|done].
    cbn. rewrite P. apply Permutation_swap.
Qed.

Lemma activate_task_moved ty this : only_moved this (snd (activate_task ty this)).
Proof.
  unfold activate_task. destruct (extract_queued _ _ _) as [[task q]|] eqn:E; cbn;
    [|apply only_moved_refl].
  apply extract_queued_perm in E as [P _]. repeat split; cbn. rewrite P.
  by rewrite <-app_assoc.
Qed.

Lemma activate_first_moved cs this : only_moved this (snd (activate_first cs this)).
Proof.
  revert this. induction cs as [|[ty e] cs IH]; intros this; cbn; [apply only_moved_refl|].
  pose proof (activate_task_moved ty this) as M.
  destruct (activate_task ty this) as [found this1]. cbn in M.
  destruct found; [done|]. eapply only_moved_trans; [exact M | apply IH].
Qed.

Lemma activate_all_moved tys this : only_moved this (activate_all tys this).
Proof.
  unfold activate_all. revert this. induction tys as [|ty tys IH]; intros this; cbn;
    [apply only_moved_refl|].
  eapply only_moved_trans; [apply activate_task_moved | apply IH].
Qed.

End Frames.

(** * Retransmission *)

Section Retransmission.
Context `{Env}.
Implicit Types this : task_manager.

(** The packets sent and the retransmits scheduled so far, the oldest first. *)
Definition sent_of (e : event) : option Packet :=
  match e with Sent p _ _ => Some p | _ => None end.
Definition timeout_of (e : event) : option (Z * Z) :=
  match e with ScheduleRetransmit mid t => Some (mid, t) | _ => None end.
Definition sent this : list Packet := omap sent_of (reverse (trace this)).
Definition timeouts this : list (Z * Z) := omap timeout_of (reverse (trace this)).

(** No MOBIKE task takes over the transmission. *)
Definition no_mobike this : Prop :=
  i_type (initiating this) <> INFORMATIONAL \/ find_task TASK_IKE_MOBIKE (active_tasks this) = None.

(** What a retransmit leaves alone. *)
Definition same_exchange this this' : Prop :=
  i_mid (initiating this') = i_mid (initiating this)
  /\ i_packets (initiating this') = i_packets (initiating this)
  /\ i_type (initiating this') = i_type (initiating this)
  /\ responding this' = responding this /\ queued_tasks this' = queued_tasks this
  /\ active_tasks this' = active_tasks this /\ passive_tasks this' = passive_tasks this.

Lemma same_exchange_trans a b c : same_exchange a b -> same_exchange b c -> same_exchange a c.
Proof. unfold same_exchange. intuition congruence. Qed.

Lemma sent_of_sent (ps : list Packet) src dst : omap sent_of ((fun p => Sent p src dst) <$> ps) = ps.
Proof. induction ps as [|p ps IH]; [done|]. cbn. by rewrite IH. Qed.

Lemma timeout_of_sent (ps : list Packet) src dst : omap timeout_of ((fun p => Sent p src dst) <$> ps) = [].
Proof. induction ps as [|p ps IH]; [done|]. exact IH. Qed.

Lemma omap_reverse_nil {B} (f : event -> option B) l : omap f l = [] -> omap f (reverse l) = [].
Proof.
  induction l as [|e l IH]; [done|]. rewrite reverse_cons, omap_app. cbn.
  destruct (f e) eqn:E; [done|]. intros N. rewrite IH by done. done.
Qed.

Context (jitter_small : forall t i, 0 <= t -> 0 <= fst (jitter t i) <= t)
        (backoff_ok : forall n, 0 <= backoff n <= UINT32_MAX)
        (limit_ok : 0 <= retransmit_limit <= UINT32_MAX).

Lemma retransmit_delay_spec this :
  exists t i, retransmit_delay this = (t, with_ike i this) /\ 0 <= t <= UINT32_MAX
              /\ (retransmit_limit <> 0 -> t <= retransmit_limit).
Proof.
  unfold retransmit_delay.
  set (b := if _ || _ then _ else _).
  assert (Hb : 0 <= b <= UINT32_MAX) by (subst b; destruct (_ || _); [apply backoff_ok | done]).
  clearbody b.
  set (l := if negb (retransmit_limit =? 0) then _ else b).
  assert (Hl : 0 <= l <= UINT32_MAX /\ (retransmit_limit <> 0 -> l <= retransmit_limit))
    by (subst l; destruct (retransmit_limit =? 0) eqn:E; cbn; bool_to_prop; lia).
  clearbody l. destruct Hl as [Hl Hlim].
  destruct (negb (retransmit_jitter =? 0)); cbn.
  - pose proof (jitter_small l (ike this) ltac:(lia)) as J.
    destruct (jitter l (ike this)) as [j i]. cbn in J.
    exists (l - j), i. unfold UINT32_MAX in *. rewrite (wrap_small 32) by lia.
    repeat split; lia.
  - exists l, (ike this). by destruct this.
Qed.

Lemma retransmit_step this :
  i_packets (initiating this) <> [] -> no_mobike this ->
  retransmitted (initiating this) <= retransmit_tries ->
  exists this' t,
    retransmit (i_mid (initiating this)) this = (SUCCESS, this')
    /\ same_exchange this this'
    /\ retransmitted (initiating this') = retransmitted (initiating this) + 1
    /\ sent this' = sent this ++ i_packets (initiating this)
    /\ timeouts this' = timeouts this ++ [(i_mid (initiating this), t)]
    /\ 0 <= t <= UINT32_MAX /\ (retransmit_limit <> 0 -> t <= retransmit_limit).
Proof.
  intros Hp Hm Hn. destruct (retransmit_delay_spec this) as (t & i & Hd & Ht).
  unfold retransmit. destruct (i_packets (initiating this)) as [|p ps] eqn:Ep; [done|].
  rewrite Z.eqb_refl.
  assert (Hmob : (if bool_decide (i_type (initiating this) = INFORMATIONAL)
                  then find_task TASK_IKE_MOBIKE (active_tasks this) else None) = None).
  { case_bool_decide; [|done]. by destruct Hm. }
  rewrite Hmob. cbn [from_option negb].
  destruct (_ >? _) eqn:E; [apply Z.gtb_gt in E; lia|]. rewrite Hd.
  set (sending := if negb (retransmitted (initiating this) =? 0) then _ else _).
  assert (Ha : exists al, trace sending = al ++ trace this
                          /\ omap sent_of al = [] /\ omap timeout_of al = []
                          /\ same_exchange this sending
                          /\ retransmitted (initiating sending) = retransmitted (initiating this)).
  { subst sending. destruct (negb _); [exists [AlertRetransmitSend p (retransmitted (initiating this))]
                                      |exists []]; repeat split. }
  clearbody sending. destruct Ha as (al & Ea & A1 & A2 & Sm & Er). rewrite send_packets_spec.
  pose proof Sm as (Emid & Epk & _).
  eexists _, t. split; [reflexivity|]. split; [exact Sm|].
  split; [cbn; by rewrite Er|]. unfold sent, timeouts. cbn.
  rewrite Epk, Ea, Emid, Ep, !reverse_cons, !reverse_app, reverse_involutive, !omap_app, sent_of_sent,
    timeout_of_sent. rewrite (omap_reverse_nil sent_of al A1), (omap_reverse_nil timeout_of al A2).
  cbn. by rewrite !app_nil_r.
Qed.

(** The retransmits that the scheduled jobs do, one after the other; the first one
    is the transmission by [initiate]. *)
Fixpoint retransmits (n : nat) (mid : Z) this : status * task_manager :=
  match n with
  | O => (SUCCESS, this)
  | S n =>
    match retransmit mid this with
    | (SUCCESS, this) => retransmits n mid this
    | r => r
    end
  end.

Lemma retransmits_within n this :
  i_packets (initiating this) <> [] -> no_mobike this ->
  retransmitted (initiating this) + Z.of_nat n <= retransmit_tries + 1 ->
  exists this' ts,
    (forall k, retransmits (n + k) (i_mid (initiating this)) this
               = retransmits k (i_mid (initiating this)) this')
    /\ same_exchange this this'
    /\ retransmitted (initiating this') = retransmitted (initiating this) + Z.of_nat n
    /\ sent this' = sent this ++ concat (replicate n (i_packets (initiating this)))
    /\ timeouts this' = timeouts this ++ ((fun t => (i_mid (initiating this), t)) <$> ts)
    /\ length ts = n
    /\ Forall (fun t => 0 <= t <= UINT32_MAX /\ (retransmit_limit <> 0 -> t <= retransmit_limit)) ts.
Proof.
  revert this. induction n as [|n IH]; intros this Hp Hm Hn.
  { exists this, []. rewrite !app_nil_r, Z.add_0_r. repeat split; constructor. }
  destruct (retransmit_step this Hp Hm ltac:(lia)) as (u & t & E & S & R & Es & Et & B).
  pose proof S as (Emid & Epk & Ety & _ & _ & Ea & _).
  destruct (IH u) as (v & ts & F & S' & R' & Es' & Et' & L & FB).
  { congruence. }
  { unfold no_mobike in *. by rewrite Ety, Ea. }
  { lia. }
  exists v, (t :: ts). repeat match goal with |- _ /\ _ => split end.
  - intros k. cbn. rewrite E, <-Emid. apply F.
  - eapply same_exchange_trans; eauto.
  - lia.
  - rewrite Es', Es, Epk. cbn. by rewrite <-app_assoc.
  - rewrite Et', Et, Emid. cbn. by rewrite <-app_assoc.
  - cbn. by rewrite L.
  - by constructor.
Qed.

(** A request is transmitted at most [retransmit_tries] + 1 times: every one of
    these transmissions succeeds, sends all the packets of the request in order, leaves
    the exchange and the queues alone and schedules the next one for the message ID after
    a timeout within [retransmit_limit]; one more gives up with [DESTROY_ME] and the
    alert, and sends nothing. *)
Theorem retransmits_bounded this n :
  i_packets (initiating this) <> [] -> no_mobike this ->
  retransmitted (initiating this) = 0 -> 0 <= retransmit_tries ->
  exists this' ts,
    let m := Nat.min n (Z.to_nat (retransmit_tries + 1)) in
    retransmits n (i_mid (initiating this)) this
    = (if Z.of_nat n <=? retransmit_tries + 1 then (SUCCESS, this')
       else (DESTROY_ME, match i_packets (initiating this) with
                         | p :: _ => emit (AlertRetransmitTimeout p) this'
                         | [] => this'
                         end))
    /\ same_exchange this this'
    /\ sent this' = sent this ++ concat (replicate m (i_packets (initiating this)))
    /\ timeouts this' = timeouts this ++ ((fun t => (i_mid (initiating this), t)) <$> ts)
    /\ length ts = m
    /\ Forall (fun t => 0 <= t <= UINT32_MAX /\ (retransmit_limit <> 0 -> t <= retransmit_limit)) ts.
Proof.
  intros Hp Hm H0 Ht.
  set (m := Nat.min n (Z.to_nat (retransmit_tries + 1))).
  destruct (retransmits_within m this Hp Hm ltac:(lia)) as (u & ts & F & Sm & R & Es & Et & L & FB).
  exists u, ts. cbn zeta. split; [|done].
  destruct (_ <=? _) eqn:E; bool_to_prop.
  - replace n with (m + 0)%nat by lia. by rewrite F.
  - replace n with (m + S (n - m - 1))%nat by lia. rewrite F. cbn [retransmits].
    destruct Sm as (Emid & Epk & Ety & _ & _ & Ea & _).
    unfold retransmit. rewrite Epk, Emid, Ety, Ea.
    destruct (i_packets (initiating this)) as [|p ps] eqn:Ep; [done|]. rewrite Z.eqb_refl.
    assert (Hmob : (if bool_decide (i_type (initiating this) = INFORMATIONAL)
                    then find_task TASK_IKE_MOBIKE (active_tasks this) else None) = None).
    { case_bool_decide; [|done]. by destruct Hm. }
    rewrite Hmob. cbn [from_option negb].
    destruct (_ >? _) eqn:G; [done|]. rewrite Z.gtb_ltb in G. bool_to_prop. lia.
Qed.

End Retransmission.

(** * The window of requests *)

Section Window.
Context `{Env}.
Implicit Types this : task_manager.



Lemma sent_emit e this : sent_of e = None -> sent (emit e this) = sent this.
Proof. intros E. unfold sent. cbn. rewrite reverse_cons, omap_app. cbn. rewrite E. apply app_nil_r. Qed.

Lemma sent_send_packets ps src dst this : sent (send_packets ps src dst this) = sent this ++ ps.
Proof.
  rewrite send_packets_spec. unfold sent. cbn.
  by rewrite reverse_app, reverse_involutive, omap_app, sent_of_sent.
Qed.

Lemma sent_queue_tasks ts this : sent (queue_tasks ts this) = sent this.
Proof.
  unfold queue_tasks. revert this. induction ts as [|[t d] ts IH]; intros this; [done|]. cbn.
  rewrite IH. unfold queue_task_delayed.
  destruct (negb (d =? 0)); [|done]. unfold with_queued. cbn. by apply sent_emit.
Qed.

(** Nothing is sent, and the IDs of requests stay. *)
Definition quiet this this' : Prop :=
  sent this' = sent this /\ r_mid (responding this') = r_mid (responding this).

Lemma quiet_refl this : quiet this this.
Proof. done. Qed.







(** Building a response leaves the IDs alone. *)
Lemma handle_collisions_only task this :
  exists ts, snd (handle_collisions task this) = with_active ts this.
Proof.
  unfold handle_collisions. destruct (get_type task); try (exists (active_tasks this); by destruct this).
  all: destruct (collide_first task (active_tasks this)) as [ts|]; [by exists ts|];
    exists (active_tasks this); by destruct this.
Qed.







Lemma activate_new_tasks_moved this :
  let this' := snd (activate_new_tasks this) in
  ike this' = ike this /\ responding this' = responding this
  /\ passive_tasks this' = passive_tasks this /\ was_reset this' = was_reset this
  /\ trace this' = trace this
  /\ (initiating this' = initiating this \/ initiating this' = with_i_mid 0 (initiating this))
  /\ Permutation (active_tasks this' ++ (q_task <$> queued_tasks this'))
                 (active_tasks this ++ (q_task <$> queued_tasks this)).
Proof.
  unfold activate_new_tasks. destruct (get_state (ike this)).
  2,4,7,8: cbn; auto 8.
  1: {
    pose proof (activate_task_moved TASK_IKE_VENDOR this) as M.
    destruct (activate_task TASK_IKE_VENDOR this) as [b u]. cbn [snd] in *.
    pose proof (activate_task_moved TASK_IKE_INIT u) as N.
    destruct (activate_task TASK_IKE_INIT u) as [found v]. cbn [snd] in N.
    pose proof (only_moved_trans _ _ _ M N) as (E1 & E2 & E3 & E4 & E5 & E6 & P).
    destruct found; cbn [snd]; [|auto 8].
    pose proof (activate_all_moved [TASK_IKE_NATD; TASK_IKE_CERT_PRE; TASK_IKE_AUTH; TASK_IKE_CERT_POST;
       TASK_IKE_CONFIG; TASK_CHILD_CREATE; TASK_IKE_AUTH_LIFETIME; TASK_IKE_MOBIKE]
       (on_initiating (with_i_mid 0) v)) as (F1 & F2 & F3 & F4 & F5 & F6 & R).
    repeat split; try (etransitivity; [eassumption|done]).
    right. rewrite F3. cbn. by rewrite E3. }
  all: match goal with |- context [activate_first ?c ?u] =>
         pose proof (activate_first_moved c u) as (?&?&?&?&?&?&?) end; auto 8.
Qed.

(** The responder's window moves by at most one message ID. *)
Definition advances this this' : Prop :=
  r_mid (responding this') = r_mid (responding this)
  \/ r_mid (responding this') = u32 (r_mid (responding this) + 1).

Lemma send_notify_response_frame m ty d this :
  let this' := send_notify_response m ty d this in
  responding this' = responding this /\ initiating this' = initiating this
  /\ queued_tasks this' = queued_tasks this /\ active_tasks this' = active_tasks this
  /\ passive_tasks this' = passive_tasks this.
Proof.
  unfold send_notify_response.
  set (u := if is_anyaddr (get_my_host (ike this)) then _ else this).
  assert (U : exists i, u = with_ike i this)
    by (subst u; destruct (is_anyaddr _); [eexists; reflexivity | exists (ike this); by destruct this]).
  clearbody u. destruct U as [i ->].
  destruct (is_anyaddr _); destruct (generate_message_single _ _) as [[p|] j]; done.
Qed.

(** What the reaction to a broken message may change. *)
Definition windowed this this' : Prop :=
  initiating this' = initiating this /\ queued_tasks this' = queued_tasks this
  /\ active_tasks this' = active_tasks this /\ passive_tasks this' = passive_tasks this
  /\ r_packets (responding this') = r_packets (responding this)
  /\ advances this this'.

Lemma windowed_refl i this : windowed this (with_ike i this).
Proof. repeat split. by left. Qed.

Lemma windowed_emit e a b : windowed a b -> windowed a (emit e b).
Proof. exact id. Qed.

Lemma windowed_notify m ty d i this :
  windowed this (incr_mid false (send_notify_response m ty d (with_ike i this))).
Proof.
  pose proof (send_notify_response_frame m ty d (with_ike i this)) as (R & ? & ? & ? & ?).
  unfold windowed, advances. cbn. rewrite R. repeat split; try assumption. by right.
Qed.

Lemma parse_message_windowed m this : windowed this (snd (parse_message m this)).
Proof.
  unfold parse_message. destruct (parse_body m (ike this)) as [[p m1] i].
  set (ty := match p with SUCCESS => default 0 _ | _ => 0 end). clearbody ty.
  set (ps := match p with SUCCESS => _ | _ => p end). clearbody ps.
  destruct ps; try destruct (get_request m1); unfold send_invalid_syntax; cbv beta iota zeta;
    try (match goal with |- context [get_state ?x] => destruct (get_state x) end); cbn [snd];
    try case_bool_decide; repeat apply windowed_emit;
    first [apply windowed_notify | apply windowed_refl].
Qed.

Lemma parse_message_success m this m' this' :
  parse_message m this = (SUCCESS, m', this') ->
  exists i, parse_body m (ike this) = (SUCCESS, m', i) /\ this' = with_ike i this
            /\ critical_payload (payloads m') = None.
Proof.
  unfold parse_message. destruct (parse_body m (ike this)) as [[p m1] i].
  destruct p; [destruct (critical_payload (payloads m1)) eqn:C|..].
  2: { intros [= <- <-]. by exists i. }
  all: destruct (get_request m1); cbn; unfold send_invalid_syntax;
    try case_bool_decide; cbn;
    match goal with |- context [get_state ?x] => destruct (get_state x) end; done.
Qed.

Lemma check_config_spec m this :
  match check_config m this with
  | (None, this') => responding this' = responding this
  | (Some (_, this'), _) => exists i, this' = with_ike i this
  end.
Proof.
  unfold check_config. destruct (has_ike_cfg _); [exists (ike this); by destruct this|].
  destruct (select_ike_cfg _ _ _) as [i|]; [by exists i|].
  by destruct (send_notify_response_frame m NO_PROPOSAL_CHOSEN [] this).
Qed.

(** A message that parses, of an IKE_SA with a configuration, and no fragment. *)
Definition accepted m this m' this' : Prop :=
  (let '(m, i) := bus_message m false (ike this) in parse_message m (with_ike i this))
    = (SUCCESS, m', this')
  /\ has_ike_cfg (ike this') = true /\ has_fragment m' = false.

(** The reaction did not run a task nor touch an exchange. *)
Definition no_work this this' : Prop :=
  r_mid (responding this') = r_mid (responding this)
  /\ r_packets (responding this') = r_packets (responding this)
  /\ i_mid (initiating this') = i_mid (initiating this)
  /\ i_packets (initiating this') = i_packets (initiating this)
  /\ i_type (initiating this') = i_type (initiating this)
  /\ queued_tasks this' = queued_tasks this /\ active_tasks this' = active_tasks this
  /\ passive_tasks this' = passive_tasks this.

Lemma no_work_trans a b c : no_work a b -> no_work b c -> no_work a c.
Proof. unfold no_work. intuition congruence. Qed.

Lemma accepted_no_work m this m' this' :
  accepted m this m' this' -> no_work this this' /\ sent this' = sent this.
Proof.
  intros (E & _). destruct (bus_message m false (ike this)) as [m0 i].
  apply parse_message_success in E as (j & _ & -> & _). by repeat split.
Qed.

Lemma handle_fragment_plain re b m this :
  has_fragment m = false ->
  exists this', handle_fragment re b m this = Some (SUCCESS, this')
                /\ no_work this this' /\ sent this' = sent this /\ ike this' = ike this.
Proof.
  intros F. unfold handle_fragment. rewrite F. cbn. eexists. split; [reflexivity|].
  destruct b; [destruct (r_defrag _)|destruct (i_defrag _)]; case_if; by repeat split.
Qed.

Lemma process_message_accepted fuel ifuel m this m1 u :
  accepted m this m1 u ->
  exists re,
    process_message (S fuel) ifuel m this =
    '(f, this) ←
      (if get_request m1 then
         if (get_message_id m1 =? r_mid (responding u)) || ((get_message_id m1 =? 0) && is_mid_sync m1 u)
         then process_expected_request re m1 u
         else if is_retransmit m1 u then process_retransmitted_request re m1 u
         else Some (Continue, u)
       else if get_message_id m1 =? i_mid (initiating u)
            then process_expected_response ifuel re m1 u
            else Some (Return SUCCESS, u));
    Some (match f with Return s => s | Continue => SUCCESS end, this).
Proof.
  intros (E & C & _). cbn [process_message].
  set (re := fun (m : Message) (this : task_manager) => _). exists re. clearbody re.
  destruct (bus_message m false (ike this)) as [m0 i]. rewrite E. cbn.
  unfold check_config. rewrite C, bool_decide_eq_false_2 by auto.
  match goal with |- ?x ≫= _ = _ => destruct x as [[[] ?]|] end; reflexivity.
Qed.

Lemma request_outside_window_lemma fuel ifuel m this m1 u :
  accepted m this m1 u -> get_request m1 = true ->
  get_message_id m1 <> r_mid (responding u) ->
  (get_message_id m1 = 0 -> looks_like_mid_sync m1 false = false) ->
  exists this',
    process_message (S fuel) ifuel m this = Some (SUCCESS, this')
    /\ no_work this this'
    /\ sent this' = sent this
         ++ (if get_message_id m1 =? u32 (r_mid (responding this) - 1)
             then r_packets (responding this) else []).
Proof.
  intros Acc Q N Y. pose proof (accepted_no_work _ _ _ _ Acc) as [W Es].
  destruct (process_message_accepted fuel ifuel _ _ _ _ Acc) as [re ->]. rewrite Q.
  assert (Ym : (get_message_id m1 =? 0) && is_mid_sync m1 u = false).
  { destruct (get_message_id m1 =? 0) eqn:Z0; [|done]. bool_to_prop. specialize (Y Z0). cbn.
    unfold is_mid_sync, looks_like_mid_sync in *.
    destruct (bool_decide (get_state _ = _) && _); [|done].
    destruct (bool_decide (get_exchange_type _ = _)); [|done]. cbn in Y. rewrite andb_true_r in Y. by rewrite Y. }
  rewrite Ym, orb_false_r. destruct (_ =? r_mid _) eqn:E; [bool_to_prop; done|]. clear E.
  pose proof W as (Wm & Wp & _). rewrite <-Wm.
  unfold is_retransmit. rewrite Wp.
  destruct (get_message_id m1 =? u32 (r_mid (responding u) - 1)) eqn:E; cbn [andb].
  - assert (Yf : (get_message_id m1 =? 0) && looks_like_mid_sync m1 false = false).
    { destruct (get_message_id m1 =? 0) eqn:Z0; [|done]. bool_to_prop. by rewrite (Y Z0). }
    rewrite Yf, andb_true_r. case_bool_decide as Hp; cbn [negb].
    + exists u. by rewrite Hp, app_nil_r.
    + unfold process_retransmitted_request.
      destruct (handle_fragment_plain re true m1 u) as (v & -> & Wv & Sv & _); [apply Acc|]. cbn.
      eexists. split; [reflexivity|]. split.
      * eapply no_work_trans; [exact W|]. eapply no_work_trans; [exact Wv|].
        rewrite send_packets_spec. by repeat split.
      * rewrite sent_send_packets, !sent_emit by done. destruct Wv as (_ & Wvp & _).
        cbn. rewrite Sv, Es, Wvp, Wp. done.
  - exists u. by rewrite app_nil_r.
Qed.

(** A request that parses but does not have the expected message ID, nor asks to
    synchronize message IDs, never runs a task and leaves every exchange as it was; it
    makes the manager send the stored response again if its ID is the previous one, and
    nothing otherwise. *)
Theorem request_outside_window fuel ifuel m this m1 u :
  accepted m this m1 u -> get_request m1 = true ->
  get_message_id m1 <> r_mid (responding u) ->
  (get_message_id m1 = 0 -> looks_like_mid_sync m1 false = false) ->
  exists this',
    process_message (S fuel) ifuel m this = Some (SUCCESS, this')
    /\ no_work this this'
    /\ sent this' = sent this
         ++ (if get_message_id m1 =? u32 (r_mid (responding this) - 1)
             then r_packets (responding this) else []).
Proof. apply request_outside_window_lemma. Qed.




Definition idle this : Prop := queued_tasks this = [] /\ active_tasks this = [] /\ passive_tasks this = [].

Lemma flush_idle this : idle (flush this).
Proof. by repeat split. Qed.

(** a response is matched with the request it answers. One with another message ID
    changes nothing; one with the ID of the current request, but of another exchange
    type, ends the IKE_SA: the result is [DESTROY_ME], the daemon is told that the
    IKE_SA is down, every task is flushed and nothing is sent. *)
Theorem response_matching fuel ifuel m this m1 u :
  accepted m this m1 u -> get_request m1 = false ->
  (get_message_id m1 <> i_mid (initiating u) ->
   process_message (S fuel) ifuel m this = Some (SUCCESS, u) /\ no_work this u /\ sent u = sent this)
  /\ (get_message_id m1 = i_mid (initiating u) ->
      (forall i, let m2 := fst (bus_message m1 true i) in
         get_exchange_type m2 <> EXCHANGE_TYPE_UNDEFINED
         /\ get_exchange_type m2 <> i_type (initiating u)) ->
      exists this', process_message (S fuel) ifuel m this = Some (DESTROY_ME, this')
        /\ idle this' /\ trace this' = IkeDown :: trace this
        /\ r_mid (responding this') = r_mid (responding this)).
Proof.
  intros Acc Q. pose proof (accepted_no_work _ _ _ _ Acc) as [W Es].
  destruct (process_message_accepted fuel ifuel _ _ _ _ Acc) as [re ->]. rewrite Q. split.
  - intros N. apply Z.eqb_neq in N. by rewrite N.
  - intros -> T. rewrite Z.eqb_refl. unfold process_expected_response.
    set (x := if (_ || _ || _) && _ then _ else u).
    assert (X : initiating x = initiating u /\ responding x = responding u /\ trace x = trace u)
      by (subst x; by destruct (_ && _)).
    clearbody x. destruct X as (Xi & Xr & Xt).
    unfold handle_fragment. destruct Acc as (E & _ & F). rewrite F. cbn [negb].
    set (y := match i_defrag (initiating x) with Some _ => _ | None => x end).
    assert (Y : i_type (initiating y) = i_type (initiating x) /\ responding y = responding x
                /\ trace y = trace x) by (subst y; destruct (i_defrag _); [case_if|]; done).
    clearbody y. destruct Y as (Yi & Yr & Yt). cbn.
    specialize (T (ike y)). destruct (bus_message m1 true (ike y)) as [m2 i]. cbn in T.
    destruct T as [T1 T2]. rewrite bool_decide_eq_false_2 by done.
    unfold process_response. cbn. rewrite bool_decide_eq_true_2 by congruence. cbn.
    rewrite bool_decide_eq_true_2 by done. eexists. split; [reflexivity|].
    split; [apply flush_idle|]. cbn. destruct W as (Wm & _).
    destruct (bus_message m false (ike this)) as [m0 j].
    apply parse_message_success in E as (j' & _ & -> & _). cbn in *.
    split; congruence.
Qed.

(** when the processing of an accepted message ends with [DESTROY_ME], no task is
    left in any queue. *)
Theorem destroy_flushes fuel ifuel m this m1 u this' :
  accepted m this m1 u -> process_message (S fuel) ifuel m this = Some (DESTROY_ME, this') ->
  queued_tasks this' = [] /\ active_tasks this' = [] /\ passive_tasks this' = [].
Proof.
  intros Acc. change (process_message (S fuel) ifuel m this = Some (DESTROY_ME, this') -> idle this').
  destruct (process_message_accepted fuel ifuel _ _ _ _ Acc) as [re ->].
  destruct Acc as (_ & _ & F).
  destruct (get_request m1); [destruct (_ || _); [|destruct (is_retransmit m1 u)]|destruct (_ =? _)].
  - unfold process_expected_request. destruct (reject_request m1 u); [done|].
    set (x := if negb _ then _ else u). clearbody x.
    destruct (handle_fragment_plain re true m1 x F) as (y & -> & _). cbn.
    destruct (bus_message m1 true (ike y)) as [m2 i]. case_bool_decide; [done|].
    destruct (process_request m2 (with_ike i y)) as [t w].
    destruct t; intros [= <-]; apply flush_idle.
  - unfold process_retransmitted_request.
    by destruct (handle_fragment_plain re true m1 u F) as (y & -> & _).
  - done.
  - unfold process_expected_response. set (x := if (_ || _ || _) && _ then _ else u). clearbody x.
    destruct (handle_fragment_plain re false m1 x F) as (y & -> & _). cbn.
    destruct (bus_message m1 true (ike y)) as [m2 i]. case_bool_decide; [done|].
    destruct (process_response ifuel m2 (with_ike i y)) as [[t w]|]; cbn; [|done].
    case_bool_decide; [intros [= <-]; apply flush_idle|done].
  - done.
Qed.

(** C40: a request that fails to parse or to verify, or that has an unknown critical
    payload, is never executed, but it uses up the expected message ID, whatever ID
    the request itself has: no queue and no exchange changes, the window moves on by
    one, and the stored response stays. *)
Theorem broken_request_moves_window fuel ifuel m this m0 i0 p m1 i1 :
  bus_message m false (ike this) = (m0, i0) -> parse_body m0 i0 = (p, m1, i1) ->
  get_request m1 = true ->
  p = PARSE_ERROR \/ p = VERIFY_ERROR \/ p = NOT_SUPPORTED
    \/ (p = SUCCESS /\ critical_payload (payloads m1) <> None) ->
  exists s this',
    process_message (S fuel) ifuel m this = Some (s, this') /\ s <> SUCCESS
    /\ r_mid (responding this') = u32 (r_mid (responding this) + 1)
    /\ r_packets (responding this') = r_packets (responding this)
    /\ initiating this' = initiating this /\ queued_tasks this' = queued_tasks this
    /\ active_tasks this' = active_tasks this /\ passive_tasks this' = passive_tasks this.
Proof.
  intros Eb Ep Q C. cbn [process_message]. rewrite Eb.
  assert (P : exists s this', parse_message m0 (with_ike i0 this) = (s, m1, this') /\ s <> SUCCESS
                /\ r_mid (responding this') = u32 (r_mid (responding this) + 1)).
  { unfold parse_message. cbn. rewrite Ep, Q. unfold send_invalid_syntax.
    assert (R : forall ty d, r_mid (responding (send_notify_response m1 ty d (with_ike i1 (with_ike i0 this))))
                             = r_mid (responding this))
      by (intros ty d; by destruct (send_notify_response_frame m1 ty d (with_ike i1 (with_ike i0 this))) as (-> & _)).
    destruct C as [->|[->|[->|[-> C]]]]; [| | |destruct (critical_payload (payloads m1)); [|done]]; cbn.
    all: match goal with |- context [get_state ?x] => destruct (get_state x) end;
      repeat case_bool_decide; (do 2 eexists; split; [reflexivity|split; [done|cbn; by rewrite R]]). }
  destruct P as (s & v & E & Ns & Rm).
  pose proof (parse_message_windowed m0 (with_ike i0 this)) as W. rewrite E in *. cbn in W.
  destruct W as (? & ? & ? & ? & ? & _).
  exists s, v. rewrite bool_decide_eq_true_2 by done. repeat split; done.
Qed.

End Window.

(** * Exchanges *)

Section Exchanges.
Context `{Env}.
Implicit Types this : task_manager.

(** Without an exchange in progress no packets are stored: [initiate] appends those of
    the next request to what is stored. *)
Definition exchange_wf this : Prop :=
  i_type (initiating this) = EXCHANGE_TYPE_UNDEFINED -> i_packets (initiating this) = [].

Definition same_request this this' : Prop :=
  i_type (initiating this') = i_type (initiating this)
  /\ i_packets (initiating this') = i_packets (initiating this).

Lemma wf_same a b : exchange_wf a -> same_request a b -> exchange_wf b.
Proof. unfold exchange_wf. by intros W [-> ->]. Qed.

Lemma same_request_initiating a b : initiating b = initiating a -> same_request a b.
Proof. by intros E; unfold same_request; rewrite E. Qed.

Lemma wf_reset a b this : exchange_wf (reset a b this).
Proof. unfold exchange_wf, reset. destruct (negb (a =? UINT_MAX)), (negb (b =? UINT_MAX)); done. Qed.

Lemma wf_process_effects i ts rs this :
  exchange_wf this -> exchange_wf (process_effects i ts rs this).
Proof.
  intros W. unfold process_effects.
  assert (Q : exchange_wf (queue_tasks ts (with_ike i this))).
  { eapply wf_same; [exact W|]. apply same_request_initiating.
    by destruct (queue_tasks_only ts (with_ike i this)) as (_ & _ & -> & _). }
  revert Q. generalize (queue_tasks ts (with_ike i this)).
  induction rs as [|[a b] rs IH]; intros u Q; cbn; [done|]. apply IH, wf_reset.
Qed.

Lemma wf_remove_processed before rest this :
  exchange_wf this -> exchange_wf (remove_processed before rest this).
Proof. unfold remove_processed. by destruct (was_reset this). Qed.

Lemma wf_process_active m before rest this :
  exchange_wf this -> exchange_wf (snd (process_active before rest m this)).
Proof.
  revert before this. induction rest as [|task rest IH]; intros before this W; cbn; [done|].
  destruct (process task m (view_of this) (ike this)) as [[[[s t] i] ts] rs].
  pose proof (wf_process_effects i ts rs (with_active (before ++ t :: rest) this) W) as Q.
  destruct s; cbn; try (apply wf_remove_processed; exact Q).
  all: destruct (was_reset _); [exact Q|apply IH, Q].
Qed.

Lemma wf_process_passive m before rest this :
  exchange_wf this -> exchange_wf (snd (process_passive before rest m this)).
Proof.
  revert before this. induction rest as [|task rest IH]; intros before this W; cbn; [done|].
  destruct (process task m (view_of this) (ike this)) as [[[[s t] i] ts] rs].
  pose proof (wf_process_effects i ts rs this W) as Q.
  destruct s; cbn; try exact Q; apply IH, Q.
Qed.

Lemma build_tasks_initiating m before rest sync this :
  initiating (snd (build_tasks before rest m sync this)) = initiating this.
Proof.
  revert before m sync this. induction rest as [|task rest IH]; intros before m sync this; cbn; [done|].
  destruct (build task m (ike this)) as [[[[s t] m'] i] ts].
  destruct (handle_collisions_only t (queue_tasks ts (with_ike i this))) as [as_ Eh].
  destruct (handle_collisions _ _) as [c u]. cbn in Eh. subst u.
  destruct (queue_tasks_only ts (with_ike i this)) as (_ & _ & Q & _).
  destruct s; try exact Q; rewrite IH; exact Q.
Qed.

Lemma build_response_initiating req this : initiating (snd (build_response req this)) = initiating this.
Proof.
  unfold build_response.
  match goal with |- context [build_tasks ?b ?r ?n ?y ?u] =>
    pose proof (build_tasks_initiating n b r y u) as Q; destruct (build_tasks b r n y u) as [[f m'] v] end.
  cbn [snd] in Q. set (z := f_delete f && _). clearbody z.
  unfold generate_message. destruct (generate_message_fragmented _ _) as [[ps|] i].
  - rewrite send_packets_spec. destruct z, (f_delete f), (f_hook f), (f_mid_sync f); exact Q.
  - destruct z; exact Q.
Qed.

Lemma wf_process_request m this : exchange_wf this -> exchange_wf (snd (process_request m this)).
Proof.
  intros W. unfold process_request.
  destruct (match passive_tasks this with [] => _ | _ => _ end) as [specs|]; [|done].
  set (u := with_passive _ this). assert (Wu : exchange_wf u) by exact W. clearbody u.
  destruct (pre_process_tasks (passive_tasks u) m (ike u)) as [[s ts] i].
  destruct s; try exact Wu.
  2-8: destruct (get_exchange_type m); exact Wu.
  set (v := with_ike i (with_passive ts u)).
  pose proof (wf_process_passive m [] (passive_tasks v) v Wu) as Q.
  destruct (process_passive [] (passive_tasks v) m v) as [[|] w]; [|exact Q].
  eapply wf_same; [exact Q|]. apply same_request_initiating, build_response_initiating.
Qed.

Lemma retransmit_same mid this : same_request this (snd (retransmit mid this)).
Proof.
  assert (D : same_request this (snd (retransmit_delay this))).
  { unfold retransmit_delay. destruct (negb _); [|done]. by destruct (jitter _ _). }
  assert (T : forall k p u, same_request u (snd (transmit_with k p u))).
  { intros. unfold transmit_with. by destruct (mobike_transmit _ _ _) as [[? ?] ?]. }
  unfold retransmit. destruct (i_packets _) as [|p ps] eqn:E; [done|]. destruct (mid =? _); [|done].
  set (mobike := if bool_decide _ then _ else _).
  destruct (negb (from_option _ _ _)).
  - destruct (_ >? _); [done|]. destruct (retransmit_delay this) as [t u]. cbn in D.
    set (w := if negb _ then _ else u). assert (W : same_request this w)
      by (subst w; by destruct (negb _)).
    clearbody w. destruct mobike as [k|]; [|rewrite send_packets_spec; exact W].
    specialize (T k p w). destruct (transmit_with k p w) as [[ok k'] x]. cbn in T.
    destruct ok, W, T; split; cbn; congruence.
  - destruct mobike as [k|]; [|done]. destruct (_ <=? _); [|done].
    specialize (T k p this). destruct (transmit_with k p this) as [[ok k'] x]. cbn in T.
    destruct ok; exact T.
Qed.

(** The packets stay while the tasks build a request; on failure the type is reset. *)
Lemma build_request_initiating before rest m this :
  let '(s, _, this') := build_request before rest m this in
  i_packets (initiating this') = i_packets (initiating this)
  /\ match s with None => initiating this' = initiating this | Some s => s = DESTROY_ME end.
Proof.
  revert before m this. induction rest as [|task rest IH]; intros before m this; cbn; [done|].
  destruct (build task m (ike this)) as [[[[s t] m'] i] ts].
  destruct (queue_tasks_only ts (with_ike i this)) as (_ & _ & Q & _). cbn in Q.
  assert (Qp : i_packets (initiating (queue_tasks ts (with_ike i this))) = i_packets (initiating this))
    by by rewrite Q.
  destruct s.
  2-7,9: case_if; cbn; done.
  all: match goal with |- context [build_request ?b ?r ?n ?u] =>
         specialize (IH b n u); destruct (build_request b r n u) as [[s m''] v] end.
  all: destruct IH as [I1 I2]; split; [congruence|]; destruct s; [exact I2|]; rewrite I2; exact Q.
Qed.

Lemma wf_initiate fuel this s this' :
  exchange_wf this -> initiate fuel this = Some (s, this') -> exchange_wf this'.
Proof.
  revert this. induction fuel as [|fuel IH]; intros this W; cbn; [done|].
  assert (F : forall mid u, exchange_wf u ->
    Some (retransmit mid u) = Some (s, this') -> exchange_wf this').
  { intros mid u U [= E]. pose proof (retransmit_same mid u) as R. rewrite E in R.
    eapply wf_same; eauto. }
  case_bool_decide as Ht.
  { destruct (deferred _); [by apply F|]. by intros [= <- <-]. }
  assert (Hp : i_packets (initiating this) = []) by (apply W; by destruct (decide (i_type (initiating this) = EXCHANGE_TYPE_UNDEFINED))).
  destruct (if busy this then _ else _) as [ex u] eqn:E.
  assert (U : i_packets (initiating u) = []).
  { destruct (busy this); [by injection E as <- <-|].
    pose proof (activate_new_tasks_moved this) as (_ & _ & _ & _ & _ & I & _). rewrite E in I.
    cbn in I. by destruct I as [-> | ->]. }
  destruct ex as [ex|]; [|intros [= <- <-]; by intros _].
  match goal with |- context [build_request ?b ?r ?n ?u] =>
    pose proof (build_request_initiating b r n u) as B; destruct (build_request b r n u) as [[s' m'] v] end.
  destruct B as [B _]. cbn in B. rewrite U in B.
  destruct s' as [s'|]; [intros [= <- <-]; by intros _|].
  case_bool_decide as Hm; [apply IH; intros _; exact B|].
  unfold generate_message. destruct (generate_message_fragmented _ _) as [[ps|] i].
  - apply F. by intros N.
  - intros [= <- <-]. intros _. exact B.
Qed.

Lemma wf_process_response fuel m this s this' :
  exchange_wf this -> process_response fuel m this = Some (s, this') -> exchange_wf this'.
Proof.
  intros W. unfold process_response.
  destruct (bool_decide _); [by intros [= <- <-]|].
  destruct ((_ || _) && _); [by intros [= <- <-]|].
  destruct (pre_process_tasks _ _ _) as [[s' ts] i].
  destruct s'; try (intros [= <- <-]; exact W).
  match goal with |- context [process_active ?b ?r ?n ?u] =>
    assert (U : exchange_wf u) by (destruct (retransmit_sent _); exact W);
    pose proof (wf_process_active n b r u U) as Q; destruct (process_active b r n u) as [r' v] end.
  cbn in Q. destruct r'; [by apply wf_initiate|by apply wf_initiate|by intros [= <- <-]].
Qed.

Lemma wf_handle_fragment re b m this s this' :
  (forall m u s v, exchange_wf u -> re m u = Some (s, v) -> exchange_wf v) ->
  exchange_wf this -> handle_fragment re b m this = Some (s, this') -> exchange_wf this'.
Proof.
  intros HR W. unfold handle_fragment.
  set (u := match (if b then _ else _) with Some d => _ | None => this end).
  assert (U : exchange_wf u)
    by (subst u; destruct b; [destruct (r_defrag _)|destruct (i_defrag _)]; case_if; exact W).
  clearbody u.
  destruct (negb (has_fragment m)); [by intros [= <- <-]|].
  destruct (match (if b then _ else _) with Some d => Some d | None => _ end) as [d|];
    [|by intros [= <- <-]].
  destruct (add_fragment d m) as [s1 d1].
  assert (P : forall o : option Defrag,
    exchange_wf (if b then on_responding (with_r_defrag o) u else on_initiating (with_i_defrag o) u))
    by (intros o; by destruct b).
  destruct s1.
  2-9: intros [= <- <-]; apply P.
  destruct (re _ _) as [[s2 v]|] eqn:E; cbn; [|done].
  intros [= <- <-]. eapply HR; [|exact E]. apply P.
Qed.

Lemma wf_parse_message m this : exchange_wf this -> exchange_wf (snd (parse_message m this)).
Proof.
  intros W. eapply wf_same; [exact W|]. apply same_request_initiating.
  by destruct (parse_message_windowed m this) as (-> & _).
Qed.

Section Reinjection.
Context (re : Message -> task_manager -> option (status * task_manager))
        (re_wf : forall m u s v, exchange_wf u -> re m u = Some (s, v) -> exchange_wf v).

Lemma wf_expected_request m this f this' :
  exchange_wf this -> process_expected_request re m this = Some (f, this') -> exchange_wf this'.
Proof.
  intros W. unfold process_expected_request. destruct (reject_request m this); [by intros [= <- <-]|].
  set (u := if negb (supports_extension EXT_MOBIKE (ike this)) then _ else this).
  assert (U : exchange_wf u) by (subst u; by destruct (negb _)). clearbody u.
  destruct (handle_fragment re true m u) as [[s v]|] eqn:E; cbn; [|done].
  eapply wf_handle_fragment in E; [|exact re_wf|exact U].
  destruct s; try (intros [= <- <-]; exact E).
  destruct (bus_message m true (ike v)) as [m1 i].
  case_bool_decide; [intros [= <- <-]; exact E|].
  pose proof (wf_process_request m1 (with_ike i v) E) as P.
  destruct (process_request m1 (with_ike i v)) as [s w].
  destruct s; intros [= <- <-]; exact P.
Qed.

Lemma wf_retransmitted_request m this f this' :
  exchange_wf this -> process_retransmitted_request re m this = Some (f, this') -> exchange_wf this'.
Proof.
  intros W. unfold process_retransmitted_request.
  destruct (handle_fragment re true m this) as [[s v]|] eqn:E; cbn; [|done].
  eapply wf_handle_fragment in E; [|exact re_wf|exact W].
  destruct s; intros [= <- <-]; try exact E. rewrite send_packets_spec. exact E.
Qed.

Lemma wf_expected_response ifuel m this f this' :
  exchange_wf this -> process_expected_response ifuel re m this = Some (f, this') -> exchange_wf this'.
Proof.
  intros W. unfold process_expected_response.
  set (u := if (_ || _ || _) && _ then _ else this).
  assert (U : exchange_wf u) by (subst u; by destruct (_ && _)). clearbody u.
  destruct (handle_fragment re false m u) as [[s v]|] eqn:E; cbn; [|done].
  eapply wf_handle_fragment in E; [|exact re_wf|exact U].
  destruct s; try (intros [= <- <-]; exact E).
  destruct (bus_message m true (ike v)) as [m1 i].
  case_bool_decide; [intros [= <- <-]; exact E|].
  destruct (process_response ifuel m1 (with_ike i v)) as [[s w]|] eqn:P; cbn; [|done].
  apply wf_process_response in P; [|exact E].
  case_bool_decide; intros [= <- <-]; exact P.
Qed.

End Reinjection.

Lemma wf_process_message fuel ifuel m this s this' :
  exchange_wf this -> process_message fuel ifuel m this = Some (s, this') -> exchange_wf this'.
Proof.
  revert m this s this'. induction fuel as [|fuel IH]; intros m this s this' W; [done|].
  cbn [process_message]. set (re := fun m this => _).
  assert (HR : forall m u s v, exchange_wf u -> re m u = Some (s, v) -> exchange_wf v).
  { intros n u t v U. subst re. cbn. destruct (negb _); [by intros [= <- <-]|].
    destruct (process_message fuel ifuel n u) as [[t' v']|] eqn:E; cbn; [|done].
    intros [= <- <-]. exact (IH _ _ _ _ U E). }
  clearbody re. destruct (bus_message m false (ike this)) as [m0 i].
  pose proof (wf_parse_message m0 (with_ike i this) W) as A.
  destruct (parse_message m0 (with_ike i this)) as [[s1 m1] u]. cbn in A.
  case_bool_decide; [by intros [= <- <-]|].
  destruct (check_config m1 u) as [[[b w]|] w'] eqn:C.
  2: { intros [= <- <-]. eapply wf_same; [exact A|]. apply same_request_initiating.
       unfold check_config in C. destruct (has_ike_cfg _); [done|].
       destruct (select_ike_cfg _ _ _); [done|]. injection C as <-.
       by destruct (send_notify_response_frame m1 NO_PROPOSAL_CHOSEN [] u) as (_ & -> & _). }
  assert (Wf : exchange_wf w).
  { pose proof (check_config_spec m1 u) as S. rewrite C in S. by destruct S as [j ->]. }
  match goal with |- (?x ≫= _) = _ -> _ => destruct x as [[f v]|] eqn:E end; cbn; [|done].
  assert (V : exchange_wf v).
  { destruct (get_request m1).
    - destruct (_ || _) in E; [eapply wf_expected_request; eauto|].
      destruct (is_retransmit _ _) in E; [eapply wf_retransmitted_request; eauto|].
      by injection E as <- <-.
    - destruct (_ =? _) in E; [eapply wf_expected_response; eauto|].
      by injection E as <- <-. }
  destruct f, b; intros [= <- <-]; exact V.
Qed.

(** What the daemon does with a task manager, in any order. *)
Inductive step : task_manager -> task_manager -> Prop :=
| do_process_message fuel ifuel m s this this' :
    process_message fuel ifuel m this = Some (s, this') -> step this this'
| do_initiate fuel s this this' : initiate fuel this = Some (s, this') -> step this this'
| do_retransmit mid this : step this (snd (retransmit mid this))
| do_reset a b this : step this (reset a b this)
| do_queue_task task d this : step this (queue_task_delayed task d this)
| do_adopt_tasks other this : step this (fst (adopt_tasks this other))
| do_flush_queue q this : step this (flush_queue q this)
| do_remove_task q n this : step this (remove_task q n this)
| do_incr_mid b this : step this (incr_mid b this)
| do_change_ike i this : step this (with_ike i this).

(** In every state the manager can reach from its creation, by any sequence of
    messages, initiations, retransmits, resets and queue operations, no packets are
    stored unless an exchange is in progress; so the packets a request is transmitted
    with, which [initiate] appends to the stored ones, are its own. *)
Theorem no_stale_packets i this :
  rtc step (task_manager_create i) this ->
  i_type (initiating this) = EXCHANGE_TYPE_UNDEFINED -> i_packets (initiating this) = [].
Proof.
  intros R. change (exchange_wf this).
  assert (W : exchange_wf (task_manager_create i)) by done. revert W.
  induction R as [|a b c S _ IH]; [done|]. intros W. apply IH. clear IH c.
  destruct S as [? ? ? ? ? ? E|? ? ? ? E|mid u|? ? u|? ? u|? u|q u|q n u|b u|? u].
  - by eapply wf_process_message.
  - by eapply wf_initiate.
  - eapply wf_same; [exact W|apply retransmit_same].
  - apply wf_reset.
  - eapply wf_same; [exact W|]. apply same_request_initiating.
    by destruct (queue_task_delayed_only task d u) as (_ & _ & -> & _).
  - exact W.
  - by destruct q.
  - by destruct q.
  - by destruct b.
  - exact W.
Qed.

Lemma build_request_sent before rest m this :
  sent (snd (build_request before rest m this)) = sent this.
Proof.
  revert before m this. induction rest as [|task rest IH]; intros before m this; cbn; [done|].
  destruct (build task m (ike this)) as [[[[s t] m'] i] ts].
  pose proof (sent_queue_tasks ts (with_ike i this)) as Q.
  change (sent (with_ike i this)) with (sent this) in Q.
  destruct s; try (rewrite IH; exact Q); try exact Q.
  all: case_if; cbn [snd];
    [change (sent (emit IkeDown (queue_tasks ts (with_ike i this))) = sent this); by rewrite sent_emit
    |exact Q].
Qed.

Lemma update_first_find ty k ts :
  get_type k = ty -> find_task ty ts <> None -> find_task ty (update_first ty (fun _ => k) ts) <> None.
Proof.
  unfold find_task. intros Hk. induction ts as [|t ts IH]; cbn; [done|].
  destruct (bool_decide (get_type t = ty)) eqn:E; cbn; [|rewrite E; exact IH].
  by rewrite bool_decide_eq_true_2.
Qed.

Lemma find_task_type ty ts k : find_task ty ts = Some k -> get_type k = ty.
Proof. intros E. apply find_some in E as [_ E]. by apply bool_decide_eq_true in E. Qed.

Section Sending.
Context (jitter_small : forall t i, 0 <= t -> 0 <= fst (jitter t i) <= t)
        (backoff_ok : forall n, 0 <= backoff n <= UINT32_MAX)
        (limit_ok : 0 <= retransmit_limit <= UINT32_MAX)
        (tries_ok : 0 <= retransmit_tries)
        (transmit_type : forall k p i, get_type (snd (fst (mobike_transmit k p i))) = get_type k).

(** A MOBIKE task that transmits stays the one that does. *)
Lemma retransmit_mobike mid this :
  ~ no_mobike this -> ~ no_mobike (snd (retransmit mid this)).
Proof.
  intros N. pose proof (retransmit_same mid this) as [Et _]. unfold no_mobike in *. rewrite Et.
  intros [C|C]; [auto|]. apply N. right. revert C.
  assert (T : forall k p u, find_task TASK_IKE_MOBIKE (active_tasks u) <> None ->
     get_type k = TASK_IKE_MOBIKE ->
     find_task TASK_IKE_MOBIKE (active_tasks (snd (transmit_with k p u))) <> None).
  { intros k p u Hf Hk. unfold transmit_with. pose proof (transmit_type k p (ike u)) as K.
    destruct (mobike_transmit k p (ike u)) as [[ok k'] i]. cbn in *.
    apply update_first_find; congruence. }
  assert (D : active_tasks (snd (retransmit_delay this)) = active_tasks this).
  { unfold retransmit_delay. destruct (negb _); [|done]. by destruct (jitter _ _). }
  destruct (find_task TASK_IKE_MOBIKE (active_tasks this)) as [k0|] eqn:E0; [|done].
  assert (Ty : get_type k0 = TASK_IKE_MOBIKE) by (apply (find_task_type _ _ _ E0)).
  assert (Same : find_task TASK_IKE_MOBIKE (active_tasks this) = None -> Some k0 = None)
    by (rewrite E0; done).
  unfold retransmit. destruct (i_packets _) as [|p ps]; [exact Same|].
  destruct (mid =? _); [|exact Same]. rewrite E0.
  set (b := bool_decide _). destruct (negb (from_option _ _ _)).
  - destruct (_ >? _); [exact Same|]. destruct (retransmit_delay this) as [t u]. cbn [snd] in D.
    set (w := if negb _ then _ else u). assert (W : active_tasks w = active_tasks this)
      by (subst w; by destruct (negb _)).
    clearbody w. rewrite <-W in E0, Same. destruct b; [|rewrite send_packets_spec; exact Same].
    specialize (T k0 p w ltac:(by rewrite E0) Ty). destruct (transmit_with k0 p w) as [[ok k'] x].
    destruct ok; intros C; destruct (T C).
  - destruct b; [|exact Same]. destruct (_ <=? _); [|exact Same].
    specialize (T k0 p this ltac:(by rewrite E0) Ty). destruct (transmit_with k0 p this) as [[ok k'] x].
    destruct ok; intros C; destruct (T C).
Qed.

(** with no exchange in progress, [initiate] either finds nothing to do, and then
    no exchange is in progress, nothing is stored and nothing was sent, or it starts one
    exchange: then the request's packets are stored and, unless a MOBIKE task transmits
    them, exactly these were sent, once. *)
Theorem initiate_sends_request fuel this this' :
  exchange_wf this -> i_type (initiating this) = EXCHANGE_TYPE_UNDEFINED ->
  initiate fuel this = Some (SUCCESS, this') ->
  (i_type (initiating this') = EXCHANGE_TYPE_UNDEFINED
   /\ i_packets (initiating this') = [] /\ sent this' = sent this)
  \/ (i_type (initiating this') <> EXCHANGE_TYPE_UNDEFINED
      /\ i_packets (initiating this') <> []
      /\ (no_mobike this' -> sent this' = sent this ++ i_packets (initiating this')
                             /\ retransmitted (initiating this') = 1)).
Proof.
  revert this. induction fuel as [|fuel IH]; intros this W Ht; cbn; [done|].
  rewrite bool_decide_eq_false_2 by auto.
  destruct (if busy this then _ else _) as [ex u] eqn:E.
  assert (U : i_packets (initiating u) = [] /\ i_type (initiating u) = EXCHANGE_TYPE_UNDEFINED
              /\ sent u = sent this).
  { specialize (W Ht). destruct (busy this); [by injection E as <- <-|].
    pose proof (activate_new_tasks_moved this) as (_ & _ & _ & _ & T & I & _). rewrite E in I, T.
    unfold sent. cbn in *. rewrite T. by destruct I as [-> | ->]. }
  destruct U as (Up & Ut & Us).
  destruct ex as [ex|]; [|intros [= <-]; auto].
  match goal with |- context [build_request ?b ?r ?n ?u] =>
    pose proof (build_request_initiating b r n u) as B; pose proof (build_request_sent b r n u) as S;
    destruct (build_request b r n u) as [[s' m'] v] end.
  destruct B as [_ B]. change (sent v = sent u) in S.
  destruct s' as [s'|]; [intros [= E' _]; congruence|].
  case_bool_decide as Hm.
  { intros E'. rewrite <-Us, <-S. rewrite Hm in E'.
    apply IH in E'; [exact E' | intros _; cbn; by rewrite B | done]. }
  unfold generate_message. destruct (generate_message_fragmented _ _) as [[ps|] i]; [|done].
  set (w := on_initiating (fun _ => _) _).
  assert (Wt : i_type (initiating w) = get_exchange_type m') by done.
  assert (Wp : i_packets (initiating w) = ps) by (cbn; rewrite B; cbn; by rewrite Up).
  assert (Wr : retransmitted (initiating w) = 0) by (cbn; by rewrite B).
  assert (Wsent : sent w = sent this) by (rewrite <-Us, <-S; done).
  assert (Wm : i_mid (initiating w) = i_mid (initiating v)) by done.
  intros R. assert (R' : retransmit (i_mid (initiating w)) w = (SUCCESS, this')) by by injection R.
  clear R. rename R' into R. clearbody w. right.
  pose proof (retransmit_same (i_mid (initiating w)) w) as [Rt Rp].
  pose proof (retransmit_mobike (i_mid (initiating w)) w) as Rm. rewrite R in Rt, Rp, Rm. cbn in *.
  assert (Np : i_packets (initiating w) <> [])
    by (intros N; unfold retransmit in R; by rewrite N in R).
  split; [congruence|]. split; [congruence|]. intros Hn.
  assert (Hw : no_mobike w).
  { destruct (decide (i_type (initiating w) = INFORMATIONAL)) as [Ei|]; [|by left].
    destruct (find_task TASK_IKE_MOBIKE (active_tasks w)) eqn:F; [|by right].
    exfalso. apply Rm; [|done]. unfold no_mobike. rewrite F. intros [?|?]; done. }
  destruct (retransmit_step jitter_small backoff_ok limit_ok w Np Hw ltac:(lia))
    as (w' & t & R' & _ & Rr & Rs & _).
  rewrite R in R'. injection R' as <-. split; [congruence|lia].
Qed.

End Sending.
End Exchanges.

(** * Termination *)

Section Termination.
Context `{Env}.
Implicit Types this : task_manager.

(** A task that is done building leaves less to do, one that is not leaves no more;
    only a task that is done turns a request into none; [message_create] makes the
    exchange it is asked for. *)
Context (rank : Task -> nat).

Definition ranks (ts : list Task) : nat := sum_list_with rank ts.

Context (build_rank : forall task m i s t m' i' ts, build task m i = (s, t, m', i', ts) ->
           (s = SUCCESS -> ranks (fst <$> ts) < rank task)%nat
           /\ (s = NEED_MORE -> rank t + ranks (fst <$> ts) <= rank task)%nat
           /\ (get_exchange_type m <> EXCHANGE_TYPE_UNDEFINED ->
               get_exchange_type m' = EXCHANGE_TYPE_UNDEFINED -> s = SUCCESS))
        (create_type : forall e mid r h1 h2, get_exchange_type (message_create e mid r h1 h2) = e).

Definition work this : nat := ranks (active_tasks this ++ (q_task <$> queued_tasks this)).

Lemma ranks_cons t ts : ranks (t :: ts) = (rank t + ranks ts)%nat.
Proof. done. Qed.

Lemma ranks_app a b : ranks (a ++ b) = (ranks a + ranks b)%nat.
Proof. apply sum_list_with_app. Qed.

Lemma ranks_perm a b : Permutation a b -> ranks a = ranks b.
Proof. unfold ranks. induction 1; cbn; lia. Qed.

Lemma queue_tasks_queued ts this :
  q_task <$> queued_tasks (queue_tasks ts this) = (q_task <$> queued_tasks this) ++ (fst <$> ts).
Proof.
  unfold queue_tasks. revert this. induction ts as [|[t d] ts IH]; intros this; cbn; [by rewrite app_nil_r|].
  rewrite IH. unfold queue_task_delayed.
  destruct (negb (d =? 0)); cbn; rewrite fmap_app, <-app_assoc; done.
Qed.

Lemma build_request_work before rest m this :
  match build_request before rest m this with
  | (None, m', this') =>
      (work this' <= ranks before + ranks rest + ranks (q_task <$> queued_tasks this)
       /\ (get_exchange_type m <> EXCHANGE_TYPE_UNDEFINED ->
           get_exchange_type m' = EXCHANGE_TYPE_UNDEFINED ->
           work this' < ranks before + ranks rest + ranks (q_task <$> queued_tasks this)))%nat
  | _ => True
  end.
Proof.
  revert before m this. induction rest as [|task rest IH]; intros before m this; cbn [build_request].
  { unfold work. cbn. rewrite ranks_app. split; [lia|done]. }
  destruct (build task m (ike this)) as [[[[s t] m'] i] ts] eqn:E.
  apply build_rank in E as (R1 & R2 & R3).
  pose proof (queue_tasks_queued ts (with_ike i this)) as Q.
  change (queued_tasks (with_ike i this)) with (queued_tasks this) in Q.
  destruct s; try done.
  - specialize (IH before m' (queue_tasks ts (with_ike i this))).
    destruct (build_request before rest m' _) as [[[s|] m''] v]; [done|].
    rewrite Q, ranks_app in IH. specialize (R1 eq_refl). rewrite ranks_cons. lia.
  - specialize (IH (before ++ [t]) m' (queue_tasks ts (with_ike i this))).
    destruct (build_request (before ++ [t]) rest m' _) as [[[s|] m''] v]; [done|].
    rewrite Q, !ranks_app, ranks_cons in IH. change (ranks []) with 0%nat in IH.
    specialize (R2 eq_refl). rewrite ranks_cons.
    destruct IH as [I1 I2]. split; [lia|]. intros N U.
    assert (get_exchange_type m' <> EXCHANGE_TYPE_UNDEFINED) by (intros C; specialize (R3 N C); done).
    specialize (I2 ltac:(done) U). lia.
Qed.

Lemma active_exchange_defined ts e : active_exchange ts = Some e -> e <> EXCHANGE_TYPE_UNDEFINED.
Proof. induction ts as [|t ts IH]; cbn; [done|]. destruct (get_type t); try (intros [= <-]; done); done. Qed.

Lemma activate_first_exchange cs this e u :
  activate_first cs this = (Some e, u) -> Exists (fun c => snd c = e) cs.
Proof.
  revert this. induction cs as [|[ty x] cs IH]; intros this; cbn; [done|].
  destruct (activate_task ty this) as [[] v]; [intros [= <- _]; by left|].
  intros E. right. eauto.
Qed.

Lemma activate_new_tasks_defined this e u :
  activate_new_tasks this = (Some e, u) -> e <> EXCHANGE_TYPE_UNDEFINED.
Proof.
  unfold activate_new_tasks. destruct (get_state (ike this)); try done.
  - destruct (activate_task TASK_IKE_INIT _) as [[] v]; [|discriminate].
    generalize (activate_all [TASK_IKE_NATD; TASK_IKE_CERT_PRE; TASK_IKE_AUTH; TASK_IKE_CERT_POST;
       TASK_IKE_CONFIG; TASK_CHILD_CREATE; TASK_IKE_AUTH_LIFETIME; TASK_IKE_MOBIKE]
       (on_initiating (with_i_mid 0) v)).
    intros w [= <- _]. discriminate.
  - intros E. apply activate_first_exchange in E.
    apply Exists_exists in E as (c & Hc & <-).
    repeat (apply elem_of_cons in Hc as [-> | Hc]; [done|]). by apply elem_of_nil in Hc.
  - intros E. apply activate_first_exchange in E. apply Exists_exists in E as (c & Hc & <-).
    apply elem_of_cons in Hc as [-> | Hc]; [done|]. by apply elem_of_nil in Hc.
  - intros E. apply activate_first_exchange in E. apply Exists_exists in E as (c & Hc & <-).
    apply elem_of_cons in Hc as [-> | Hc]; [done|]. by apply elem_of_nil in Hc.
Qed.

Lemma initiate_returns fuel this : (work this < fuel)%nat -> is_Some (initiate fuel this).
Proof.
  revert this. induction fuel as [|fuel IH]; intros this W; [lia|]. cbn.
  case_bool_decide; [destruct (deferred _); eauto|].
  destruct (if busy this then _ else _) as [ex u] eqn:E.
  assert (U : work u = work this /\ (forall e, ex = Some e -> e <> EXCHANGE_TYPE_UNDEFINED)).
  { destruct (busy this).
    - injection E as <- <-. split; [done|]. apply active_exchange_defined.
    - pose proof (activate_new_tasks_moved this) as (_ & _ & _ & _ & _ & _ & P). rewrite E in P.
      split; [by apply ranks_perm|]. intros e ->. by eapply activate_new_tasks_defined. }
  destruct U as [Uw Ux]. destruct ex as [ex|]; [|eauto].
  match goal with |- context [build_request ?b ?r ?n ?u] =>
    pose proof (build_request_work b r n u) as B; destruct (build_request b r n u) as [[s' m'] v] end.
  destruct s' as [s'|]; [eauto|].
  case_bool_decide as Hm.
  - apply IH. destruct B as [_ B]. rewrite create_type in B.
    specialize (B (Ux _ eq_refl) Hm).
    assert (Wu : work u = (ranks (active_tasks u) + ranks (q_task <$> queued_tasks u))%nat)
      by apply ranks_app.
    assert (B' : (work v < ranks (active_tasks u) + ranks (q_task <$> queued_tasks u))%nat) by exact B.
    change (work v < fuel)%nat. lia.
  - destruct (generate_message _ _) as [[ps|] w]; eauto.
Qed.

(** [initiate] returns: it starts over at most as often as the tasks have work
    left, because a round that ends without a request finished a task. *)
Theorem initiate_terminates fuel this :
  (work this < fuel)%nat -> exists s this', initiate fuel this = Some (s, this').
Proof. intros W. destruct (initiate_returns fuel this W) as [[s u] E]. eauto. Qed.

(** From some number of rounds on, a computation returns. *)
Definition eventually {A} (f : nat -> option A) : Prop :=
  exists k, forall n, (k <= n)%nat -> is_Some (f n).

Lemma eventually_const {A} (x : A) : eventually (fun _ => Some x).
Proof. exists 0%nat. eauto. Qed.

Lemma eventually_bind {A B} (f : nat -> option A) (x : option A) (g : nat -> A -> option B) :
  (forall n, f n = x) -> is_Some x -> (forall a, x = Some a -> eventually (fun n => g n a)) ->
  eventually (fun n => f n ≫= g n).
Proof.
  intros F [a ->] G. destruct (G a eq_refl) as [k K]. exists k. intros n Hn. rewrite F. by apply K.
Qed.

Lemma eventually_map {A B} (f : nat -> option A) (g : nat -> A -> option B) :
  eventually f -> (forall n a, is_Some (g n a)) -> eventually (fun n => f n ≫= g n).
Proof. intros [k K] G. exists k. intros n Hn. destruct (K n Hn) as [a ->]. apply G. Qed.

Lemma initiate_eventually this : eventually (fun n => initiate n this).
Proof. exists (S (work this)). intros n Hn. apply initiate_returns. lia. Qed.

Lemma process_response_eventually m this : eventually (fun n => process_response n m this).
Proof.
  unfold process_response.
  destruct (bool_decide _); [apply eventually_const|].
  destruct ((_ || _) && _); [apply eventually_const|].
  destruct (pre_process_tasks _ _ _) as [[s ts] i]. destruct s; try apply eventually_const.
  destruct (process_active _ _ _ _) as [[] v]; try apply eventually_const; apply initiate_eventually.
Qed.

(** The part of [process_message] after the checks, for a way to reinject messages. *)
Definition dispatch (re : Message -> task_manager -> option (status * task_manager)) (ifuel : nat)
    (m : Message) this : option (flow * task_manager) :=
  if get_request m then
    if (get_message_id m =? r_mid (responding this)) || ((get_message_id m =? 0) && is_mid_sync m this)
    then process_expected_request re m this
    else if is_retransmit m this then process_retransmitted_request re m this
    else Some (Continue, this)
  else if get_message_id m =? i_mid (initiating this)
       then process_expected_response ifuel re m this
       else Some (Return SUCCESS, this).

Section Rounds.
Context (re : nat -> Message -> task_manager -> option (status * task_manager)).
Context (re_returns : forall d this, eventually (fun n => re n (reassembled d) this)).

Lemma handle_fragment_eventually b m this :
  eventually (fun n => handle_fragment (re n) b m this).
Proof.
  unfold handle_fragment. set (u := match (if b then _ else _) with Some d => _ | None => this end).
  clearbody u. destruct (negb (has_fragment m)); [apply eventually_const|].
  destruct (match (if b then _ else _) with Some d => Some d | None => _ end) as [d|];
    [|apply eventually_const].
  destruct (add_fragment d m) as [s1 d1]. destruct s1; try apply eventually_const.
  apply eventually_map; [apply re_returns|]. intros n [s v]. eauto.
Qed.

(** What follows a fragment depends on how it was reinjected, the rest does not. *)
Lemma handle_fragment_then {B} b m this (g : nat -> status * task_manager -> option B) :
  (forall n s u, s <> SUCCESS -> is_Some (g n (s, u))) ->
  (forall u, eventually (fun n => g n (SUCCESS, u))) ->
  eventually (fun n => handle_fragment (re n) b m this ≫= g n).
Proof.
  intros G1 G2. destruct (has_fragment m) eqn:F.
  - destruct (handle_fragment_eventually b m this) as [k K]. exists k. intros n Hn.
    destruct (K n Hn) as [[s u] E]. rewrite E. apply G1. intros ->. revert E. unfold handle_fragment.
    rewrite F. cbn [negb].
    destruct (match (if b then _ else _) with Some d => Some d | None => _ end) as [d|]; [|done].
    destruct (add_fragment d m) as [s1 d1]. destruct s1; try done.
    destruct (re n _ _) as [[s v]|]; cbn; [|done]. by destruct s.
  - apply (eventually_bind _ (handle_fragment (re 0%nat) b m this)).
    + intros n. unfold handle_fragment. by rewrite F.
    + unfold handle_fragment. rewrite F. cbn. eauto.
    + intros [s u]. unfold handle_fragment. rewrite F. cbn [negb]. intros [= <- <-]. apply G2.
Qed.

Lemma dispatch_eventually m this : eventually (fun n => dispatch (re n) n m this).
Proof.
  unfold dispatch.
  destruct (get_request m); [destruct (_ || _); [|destruct (is_retransmit m this)]|destruct (_ =? _)];
    try apply eventually_const.
  - unfold process_expected_request. destruct (reject_request m this); [apply eventually_const|].
    apply handle_fragment_then; [intros n [] u; eauto; done|]. intros u.
    destruct (bus_message m true (ike u)) as [m1 i]. case_bool_decide; [apply eventually_const|].
    destruct (process_request m1 _) as [s v]. destruct s; apply eventually_const.
  - apply handle_fragment_then; [intros n [] u; eauto; done|]. intros u. apply eventually_const.
  - apply handle_fragment_then; [intros n [] u; eauto; done|]. intros u.
    destruct (bus_message m true (ike u)) as [m1 i]. case_bool_decide; [apply eventually_const|].
    apply eventually_map; [apply process_response_eventually|]. intros n [s v]. eauto.
Qed.

End Rounds.

(** A reassembled message is no fragment. *)
Context (whole : forall d this m u,
  (let '(m, i) := bus_message (reassembled d) false (ike this) in parse_message m (with_ike i this))
    = (SUCCESS, m, u) -> has_fragment m = false).

Lemma handle_fragment_ext re re' b m this :
  has_fragment m = false -> handle_fragment re b m this = handle_fragment re' b m this.
Proof. intros F. unfold handle_fragment. by rewrite F. Qed.

Lemma dispatch_plain re re' n m this :
  has_fragment m = false -> dispatch re n m this = dispatch re' n m this.
Proof.
  intros F. unfold dispatch, process_expected_request, process_retransmitted_request,
    process_expected_response.
  rewrite (handle_fragment_ext re re' true m this F).
  repeat match goal with |- context [handle_fragment re ?b m ?u] =>
    rewrite (handle_fragment_ext re re' b m u F) end. done.
Qed.

(** How [process_message] reinjects a reassembled message. *)
Definition reinjection (fuel n : nat) (m : Message) this : option (status * task_manager) :=
  if negb (accepts_message m (ike this)) then Some (FAILED, this)
  else '(s, this) ← process_message fuel n m this;
       Some (s, with_ike (flush_auth_cfgs (ike this)) this).

Lemma process_message_eventually fuel m this :
  (forall m1 u, (let '(m, i) := bus_message m false (ike this) in parse_message m (with_ike i this))
                = (SUCCESS, m1, u) ->
     forall u, eventually (fun n => dispatch (reinjection fuel n) n m1 u)) ->
  eventually (fun n => process_message (S fuel) n m this).
Proof.
  intros D. cbn [process_message]. destruct (bus_message m false (ike this)) as [m0 i].
  destruct (parse_message m0 (with_ike i this)) as [[s m1] u].
  case_bool_decide as Hs; [apply eventually_const|].
  assert (s = SUCCESS) as -> by (by destruct (decide (s = SUCCESS))).
  destruct (check_config m1 u) as [[[b v]|] w]; [|apply eventually_const].
  specialize (D m1 u eq_refl v). fold reinjection in *.
  apply (eventually_map (fun n => dispatch (reinjection fuel n) n m1 v)); [exact D|].
  intros n [[t|] x]; eauto.
Qed.

(** Every message is dealt with: [process_message] returns a result with two levels
    of nesting, the message and the one its fragments make up, and enough rounds of
    [initiate]. *)
Theorem process_message_terminates m this :
  exists ifuel, forall n, (ifuel <= n)%nat ->
    exists s this', process_message 2 n m this = Some (s, this').
Proof.
  assert (E : eventually (fun n => process_message 2 n m this)).
  { apply process_message_eventually. intros m1 u _ v. apply dispatch_eventually. intros d w.
    unfold reinjection. destruct (negb _); [apply eventually_const|].
    apply eventually_map; [|intros n [s x]; eauto].
    apply process_message_eventually. intros m2 x E y. pose proof (whole _ _ _ _ E) as F.
    set (c := fun (_ : nat) (_ : Message) this => Some (SUCCESS, this)).
    destruct (dispatch_eventually c (fun _ _ => eventually_const _) m2 y) as [k K].
    exists k. intros n Hn. rewrite (dispatch_plain _ (c n) _ _ _ F). by apply K. }
  destruct E as [k K]. exists k. intros n Hn. destruct (K n Hn) as [[s v] E]. eauto.
Qed.

End Termination.

(** * The order of activation *)

Section Priority.
Context `{Env}.
Implicit Types this : task_manager.

Definition due (t : timeval) (q : queued_task_t) : Prop := tv_lt t (q_time q) = false.

Lemma extract_queued_spec ty t q :
  match extract_queued ty t q with
  | Some (task, q') => exists q1 x q2, q = q1 ++ x :: q2 /\ q' = q1 ++ q2 /\ task = q_task x
      /\ get_type task = ty /\ due t x /\ Forall (fun y => due t y -> get_type (q_task y) <> ty) q1
  | None => Forall (fun y => due t y -> get_type (q_task y) <> ty) q
  end.
Proof.
  induction q as [|x q IH]; cbn; [constructor|].
  destruct (bool_decide (get_type (q_task x) = ty) && negb (tv_lt t (q_time x))) eqn:E.
  - apply andb_true_iff in E as [E1 E2]. apply bool_decide_eq_true in E1. apply negb_true_iff in E2.
    exists [], x, q. repeat split; done || constructor.
  - assert (N : due t x -> get_type (q_task x) <> ty).
    { unfold due. intros D T. rewrite (bool_decide_eq_true_2 _ T), D in E. done. }
    destruct (extract_queued ty t q) as [[task q']|]; cbn; [|by constructor].
    destruct IH as (q1 & y & q2 & -> & -> & ? & ? & ? & ?).
    exists (x :: q1), y, q2. repeat split; try done. by constructor.
Qed.

Lemma activate_first_spec cs this :
  match activate_first cs this with
  | (Some e, this') => exists cs1 ty cs2 q1 x q2,
      cs = cs1 ++ (ty, e) :: cs2 /\ queued_tasks this = q1 ++ x :: q2
      /\ get_type (q_task x) = ty /\ due (time_monotonic (ike this)) x
      /\ Forall (fun y => due (time_monotonic (ike this)) y ->
                          get_type (q_task y) ∉ (fst <$> cs1)) (queued_tasks this)
      /\ Forall (fun y => due (time_monotonic (ike this)) y -> get_type (q_task y) <> ty) q1
      /\ this' = with_active (active_tasks this ++ [q_task x]) (with_queued (q1 ++ q2) this)
  | (None, this') => this' = this
      /\ Forall (fun y => due (time_monotonic (ike this)) y ->
                          get_type (q_task y) ∉ (fst <$> cs)) (queued_tasks this)
  end.
Proof.
  induction cs as [|[ty e] cs IH]; cbn.
  { split; [done|]. apply Forall_forall. intros ? _ _ C. by apply elem_of_nil in C. }
  unfold activate_task. pose proof (extract_queued_spec ty (time_monotonic (ike this)) (queued_tasks this)) as X.
  destruct (extract_queued _ _ _) as [[task q']|].
  - destruct X as (q1 & x & q2 & Eq & -> & -> & ? & ? & ?).
    exists [], ty, cs, q1, x, q2. repeat split; try done.
    apply Forall_forall. intros ? _ _ C. by apply elem_of_nil in C.
  - assert (P : forall l, Forall (fun y => due (time_monotonic (ike this)) y -> get_type (q_task y) ∉ l)
                  (queued_tasks this) ->
                Forall (fun y => due (time_monotonic (ike this)) y -> get_type (q_task y) ∉ ty :: l)
                  (queued_tasks this)).
    { intros l L. rewrite Forall_forall in *. intros y Hy D. rewrite not_elem_of_cons. eauto. }
    destruct (activate_first cs this) as [[e'|] this'].
    + destruct IH as (cs1 & ty' & cs2 & q1 & x & q2 & -> & ? & ? & ? & ? & ? & ?).
      exists ((ty, e) :: cs1), ty', cs2, q1, x, q2. cbn. auto 10.
    + destruct IH as [? ?]. cbn. auto.
Qed.

(** on an established IKE_SA one task is activated at a time: the earliest queued
    one, among those whose time has come, of the first type in the order MOBIKE, IKE
    delete, redirect, CHILD delete, reauthentication, CHILD creation, CHILD rekeying, IKE
    rekeying, DPD, authentication lifetime, and so on; the order of the other queued
    tasks stays, and nothing is activated only if no due task has one of these types. *)
Theorem established_priority this :
  get_state (ike this) = IKE_ESTABLISHED ->
  match activate_new_tasks this with
  | (Some e, this') => exists before ty after q1 x q2,
      established_tasks = before ++ (ty, e) :: after
      /\ queued_tasks this = q1 ++ x :: q2 /\ queued_tasks this' = q1 ++ q2
      /\ active_tasks this' = active_tasks this ++ [q_task x]
      /\ get_type (q_task x) = ty /\ due (time_monotonic (ike this)) x
      /\ (forall y, y ∈ queued_tasks this -> due (time_monotonic (ike this)) y ->
                    get_type (q_task y) ∉ (fst <$> before))
      /\ (forall y, y ∈ q1 -> due (time_monotonic (ike this)) y -> get_type (q_task y) <> ty)
  | (None, this') => this' = this
      /\ forall y, y ∈ queued_tasks this -> due (time_monotonic (ike this)) y ->
           get_type (q_task y) ∉
             [TASK_IKE_MOBIKE; TASK_IKE_DELETE; TASK_IKE_REDIRECT; TASK_CHILD_DELETE; TASK_IKE_REAUTH;
              TASK_CHILD_CREATE; TASK_CHILD_REKEY; TASK_IKE_REKEY; TASK_IKE_DPD; TASK_IKE_AUTH_LIFETIME;
              TASK_IKE_REAUTH_COMPLETE; TASK_IKE_VERIFY_PEER_CERT]
  end.
Proof.
  intros E. unfold activate_new_tasks. rewrite E.
  pose proof (activate_first_spec established_tasks this) as S.
  destruct (activate_first established_tasks this) as [[e|] this'].
  - destruct S as (b & ty & a & q1 & x & q2 & ? & ? & ? & ? & B & Q & ->).
    rewrite Forall_forall in B, Q. exists b, ty, a, q1, x, q2. cbn. auto 10.
  - destruct S as [-> S]. split; [done|]. rewrite Forall_forall in S.
    intros y Hy D C. apply (S y Hy D).
    match type of C with _ ∈ ?l => change (fst <$> established_tasks) with (l ++ [TASK_IKE_DELETE]) end.
    apply elem_of_app. by left.
Qed.

End Priority.

(** * Instances *)

(** A small daemon: tasks are their types, a packet is the message ID. *)
Section Demo.

Definition me : host_t := Host 2 [10; 0; 0; 1] 500.
Definition peer : host_t := Host 2 [10; 0; 0; 2] 500.

Record msg := { id : Z; req : bool; exch : exchange_type; body : list payload }.

#[local] Instance demo : Env := {
  Ike := ike_sa_state; Task := task_type; Message := msg; Packet := Z; Defrag := msg;
  time_monotonic _ := Tv 100 0;
  message_create e mid r _ _ := {| id := mid; req := r; exch := e; body := [] |};
  get_message_id := id; get_request := req; get_exchange_type := exch;
  get_source _ := peer; get_destination _ := me;
  payloads := body;
  add_notify ty _ m := {| id := id m; req := req m; exch := exch m;
                          body := body m ++ [PLV2_NOTIFY ty PROTO_NONE] |};
  parse_body m i := (SUCCESS, m, i);
  message_create_defrag m := Some m;
  defrag_message_id := id;
  add_fragment d _ := (SUCCESS, d);
  reassembled d := {| id := id d; req := req d; exch := exch d; body := [] |};
  get_state i := i;
  is_initiator _ := true; supports_extension _ _ := false; is_original_initiator _ := true;
  use_mobike _ := false; has_ike_cfg _ := true; select_ike_cfg _ _ _ := None;
  get_my_host _ := me; get_other_host _ := peer;
  set_my_host _ i := i; set_other_host _ i := i; update_hosts _ _ _ i := i;
  get_responder_spi _ := 1; set_responder_spi _ i := i; set_stale i := i;
  generate_message_fragmented m i := (Some [id m], i);
  generate_message_single m i := (Some (id m), i);
  accepts_message _ _ := true; flush_auth_cfgs i := i;
  bus_message m _ i := (m, i);
  get_type t := t;
  create_task s _ := match s with Spec ty _ => ty | SpecChildRekey _ _ => TASK_CHILD_REKEY
                     | SpecChildDelete _ _ _ => TASK_CHILD_DELETE
                     | SpecChildCreate _ _ => TASK_CHILD_CREATE end;
  has_pre_process _ := false;
  pre_process t _ i := (SUCCESS, t, i);
  build t m i := (if req m then NEED_MORE else SUCCESS, t, m, i, []);
  process t m _ i := (if req m then NEED_MORE else SUCCESS, t, i, [], []);
  collide a _ := a; migrate t := t; is_probing _ := false;
  mobike_transmit t _ i := (true, t, i);
  mobike_roam _ t := t; mobike_addresses t := t; mobike_dpd t := t; enable_probing t := t;
  retransmit_tries := 5; retransmit_tries_max := 0; retransmit_limit := 8000;
  retransmit_jitter := 10;
  backoff n := Z.min (4000 * 2 ^ n) UINT32_MAX;
  jitter t i := (t / 20, i);
  half_open_timeout := HALF_OPEN_IKE_SA_TIMEOUT;
}.

(** An established IKE_SA that expects request 7, answered 6, and has sent request 3. *)
Definition established : task_manager :=
  {| ike := IKE_ESTABLISHED;
     responding := {| r_mid := 7; r_packets := [6]; r_defrag := None |};
     initiating := {| i_mid := 3; retransmitted := 0; retransmit_sent := false; i_packets := [3];
                      i_type := INFORMATIONAL; deferred := false; i_defrag := None |};
     queued_tasks := [{| q_task := TASK_IKE_REKEY; q_time := Tv 0 0 |};
                      {| q_task := TASK_IKE_DPD; q_time := Tv 200 0 |}];
     active_tasks := [TASK_IKE_DPD]; passive_tasks := []; was_reset := false; trace := [] |}.

Definition request (n : Z) : Message := {| id := n; req := true; exch := INFORMATIONAL; body := [] |}.
Definition response (n : Z) (e : exchange_type) : Message := {| id := n; req := false; exch := e; body := [] |}.

Lemma demo_jitter (t : Z) (i : Ike) : 0 <= t -> 0 <= fst (jitter t i) <= t.
Proof. cbn. intros. div_lia. Qed.

Lemma demo_backoff n : 0 <= backoff n <= UINT32_MAX.
Proof. cbn -[Z.mul Z.pow]. unfold UINT32_MAX. pose proof (Z.pow_nonneg 2 n ltac:(lia)). lia. Qed.


Lemma demo_accepted_any (m : Message) this :
  body m = [] -> accepted m this m (with_ike (ike this) (with_ike (ike this) this)).
Proof.
  intros B. unfold accepted, has_fragment, parse_message, critical_payload. cbn. by rewrite B.
Qed.

Lemma demo_accepted (m : Message) : body m = [] -> accepted m established m established.
Proof. apply demo_accepted_any. Qed.

Definition after (o : option (status * task_manager)) : task_manager :=
  match o with Some (_, this) => this | None => established end.

Lemma after_spec (o : option (status * task_manager)) s : fst <$> o = Some s -> o = Some (s, after o).
Proof. destruct o as [[t this]|]; [|done]. cbn. by intros [= ->]. Qed.



Lemma request_outside_window_witness :
  exists this', process_message 1 5 (request 6) established = Some (SUCCESS, this')
                /\ no_work established this' /\ sent this' = [] ++ [6].
Proof.
  apply (request_outside_window 0 5 (request 6) established (request 6) established).
  - by apply demo_accepted.
  - reflexivity.
  - discriminate.
  - discriminate.
Defined.

Lemma response_matching_witness :
  exists this', process_message 1 5 (response 3 IKE_AUTH) established = Some (DESTROY_ME, this')
    /\ idle this' /\ trace this' = [IkeDown] /\ r_mid (responding this') = 7.
Proof.
  refine (proj2 (response_matching 0 5 (response 3 IKE_AUTH) established (response 3 IKE_AUTH) established
                   _ eq_refl) eq_refl _).
  - by apply demo_accepted.
  - intros i. split; discriminate.
Defined.

Lemma destroy_flushes_witness :
  queued_tasks (after (process_message 1 5 (response 3 IKE_AUTH) established)) = []
  /\ active_tasks (after (process_message 1 5 (response 3 IKE_AUTH) established)) = []
  /\ passive_tasks (after (process_message 1 5 (response 3 IKE_AUTH) established)) = [].
Proof.
  apply (destroy_flushes 0 5 (response 3 IKE_AUTH) established (response 3 IKE_AUTH) established).
  - by apply demo_accepted.
  - apply after_spec. reflexivity.
Defined.

Definition unknown_critical : Message :=
  {| id := 2; req := true; exch := INFORMATIONAL; body := [PL_UNKNOWN 200 true] |}.

Lemma broken_request_moves_window_witness :
  exists s this', process_message 1 5 unknown_critical established = Some (s, this') /\ s <> SUCCESS
    /\ r_mid (responding this') = u32 (7 + 1) /\ r_packets (responding this') = [6]
    /\ initiating this' = initiating established /\ queued_tasks this' = queued_tasks established
    /\ active_tasks this' = active_tasks established /\ passive_tasks this' = passive_tasks established.
Proof.
  apply (broken_request_moves_window 0 5 unknown_critical established unknown_critical IKE_ESTABLISHED
           SUCCESS unknown_critical IKE_ESTABLISHED).
  - reflexivity.
  - reflexivity.
  - reflexivity.
  - right. right. right. split; [reflexivity|discriminate].
Defined.

Lemma retransmits_bounded_witness :
  exists this' ts,
    retransmits 8 3 established = (DESTROY_ME, emit (AlertRetransmitTimeout (3 : Packet)) this')
    /\ sent this' = [3; 3; 3; 3; 3; 3]
    /\ length ts = 6%nat
    /\ Forall (fun t => 0 <= t <= UINT32_MAX /\ (retransmit_limit <> 0 -> t <= retransmit_limit)) ts.
Proof.
  destruct (retransmits_bounded demo_jitter demo_backoff ltac:(split; discriminate) established 8)
    as (this' & ts & E & _ & S & _ & L & F).
  - discriminate.
  - right. reflexivity.
  - reflexivity.
  - discriminate.
  - exists this', ts. exact (conj E (conj S (conj L F))).
Defined.

Lemma no_stale_packets_witness :
  i_packets (initiating (queue_dpd (task_manager_create (ike established)))) = [].
Proof.
  apply (no_stale_packets (ike established)).
  - apply rtc_once. apply (do_queue_task (TASK_IKE_DPD : @Task demo) 0).
  - reflexivity.
Defined.

(** The response to request 3 ends the exchange and rekeys the IKE_SA with request 4. *)
Definition answered : task_manager :=
  with_active [] (on_initiating (fun i => with_i_mid 4 (with_i_packets [] (with_i_type EXCHANGE_TYPE_UNDEFINED i)))
    established).

Lemma initiate_sends_request_witness :
  let this' := after (initiate 5 answered) in
  sent this' = [4] /\
  ((i_type (initiating this') = EXCHANGE_TYPE_UNDEFINED
    /\ i_packets (initiating this') = [] /\ sent this' = [])
   \/ (i_type (initiating this') <> EXCHANGE_TYPE_UNDEFINED
       /\ i_packets (initiating this') <> []
       /\ (no_mobike this' -> sent this' = [] ++ i_packets (initiating this')
                              /\ retransmitted (initiating this') = 1))).
Proof.
  split; [reflexivity|].
  apply (initiate_sends_request demo_jitter demo_backoff ltac:(split; discriminate) ltac:(discriminate)
           (fun _ _ _ => eq_refl) 5 answered).
  - intros _. reflexivity.
  - reflexivity.
  - apply after_spec. reflexivity.
Defined.

Lemma demo_build_rank (task : Task) m i s t m' i' ts :
  build task m i = (s, t, m', i', ts) ->
  (s = SUCCESS -> ranks (fun _ => 1) (fst <$> ts) < 1)%nat
  /\ (s = NEED_MORE -> 1 + ranks (fun _ => 1) (fst <$> ts) <= 1)%nat
  /\ (get_exchange_type m <> EXCHANGE_TYPE_UNDEFINED ->
      get_exchange_type m' = EXCHANGE_TYPE_UNDEFINED -> s = SUCCESS).
Proof. intros [= <- <- <- <- <-]. cbn. split; [lia|]. split; [lia|]. done. Qed.

Lemma initiate_terminates_witness : exists s this', initiate 3 answered = Some (s, this').
Proof.
  apply (initiate_terminates (fun _ => 1%nat) demo_build_rank (fun _ _ _ _ _ => eq_refl)).
  vm_compute. lia.
Defined.

Lemma process_message_terminates_witness :
  exists ifuel, forall n, (ifuel <= n)%nat ->
    exists s this', process_message 2 n (response 3 INFORMATIONAL) established = Some (s, this').
Proof.
  apply (process_message_terminates (fun _ => 1%nat) demo_build_rank (fun _ _ _ _ _ => eq_refl)).
  intros d this m u E. unfold parse_message in E. cbn in E. injection E as <- <-. reflexivity.
Defined.

Lemma established_priority_witness :
  exists e this', activate_new_tasks established = (Some e, this')
    /\ exists before ty after q1 x q2,
      established_tasks = before ++ (ty, e) :: after
      /\ queued_tasks established = q1 ++ x :: q2 /\ queued_tasks this' = q1 ++ q2
      /\ active_tasks this' = active_tasks established ++ [q_task x]
      /\ get_type (q_task x) = ty /\ due (time_monotonic (ike established)) x
      /\ (forall y, y ∈ queued_tasks established -> due (time_monotonic (ike established)) y ->
                    get_type (q_task y) ∉ (fst <$> before))
      /\ (forall y, y ∈ q1 -> due (time_monotonic (ike established)) y -> get_type (q_task y) <> ty).
Proof.
  eexists CREATE_CHILD_SA, _. split; [reflexivity|].
  exact (established_priority established eq_refl).
Defined.

End Demo.
