(* ===== verification/Gsup.v ===== *)
(** The GSUP client of libcharon/plugins/osmo_epdg/gsup_client.c: requests that
    block their callers until a response arrives, the thread that sends them and
    the thread that receives responses, interleaved step by step between the
    operations on locks. *)

From stdpp Require Import gmap.
From S2P Require Import Prelude.

(** * Messages *)

(** What a request asks libosmocore to encode. *)
Record gsup_out := {
  out_type : Z;
  out_imsi : chunk;
  out_cn_domain : Z;
  out_auts : option chunk;
  out_rand : option chunk;
  out_pdp_type : Z;
  out_apn : chunk;
  out_pco : chunk;
}.

(** The message types, the fields that are looked at and the encoders of libosmocore's
    GSUP: [osmo_gsup_encode] is the encoding of a message into a buffer of 4000 octets,
    [osmo_apn_from_str] that of an access point name, unless they fail. *)
Class Gsup := {
  osmo_gsup_encode : gsup_out -> option chunk;
  osmo_apn_from_str : chunk -> option chunk;
  OSMO_GSUP_CN_DOMAIN_PS : Z;
  OSMO_GSUP_CN_DOMAIN_CS : Z;
  Gsup_message : Type;
  message_type : Gsup_message -> Z;
  gsup_imsi : Gsup_message -> chunk;
  SEND_AUTH_INFO_REQUEST : Z;
  SEND_AUTH_INFO_ERROR : Z;
  SEND_AUTH_INFO_RESULT : Z;
  UPDATE_LOCATION_REQUEST : Z;
  UPDATE_LOCATION_ERROR : Z;
  UPDATE_LOCATION_RESULT : Z;
  EPDG_TUNNEL_REQUEST : Z;
  EPDG_TUNNEL_ERROR : Z;
  EPDG_TUNNEL_RESULT : Z;
  INSERT_DATA_REQUEST : Z;
}.

Definition IMSI_LEN : nat := 15.

(** A C string: the bytes before the first NUL. *)
Fixpoint c_string (c : chunk) : chunk :=
  match c with
  | [] => []
  | b :: c => if b =? 0 then [] else b :: c_string c
  end.

(** [strncmp] finds no difference in the first [n] characters. *)
Definition strncmp_eq (a b : chunk) (n : nat) : bool :=
  bool_decide (take n (c_string a) = take n (c_string b)).

(** [imsi_copy] *)
Definition imsi_copy (imsi : chunk) : option chunk :=
  if len (c_string imsi) =? Z.of_nat IMSI_LEN then Some (c_string imsi) else None.

(** * State *)

(** The threads: one that calls for each request, the sender and the receiver. *)
Inductive thread := Requester (r : nat) | Sender | Receiver.

#[export] Instance thread_eq_dec : EqDecision thread.
Proof. solve_decision. Defined.

Section Client.
Context `{Gsup}.

Record gsup_request_t := {
  msg_type : Z;
  imsi : chunk;
  refcount : Z;
  mutex : option thread;
  lock : option thread;
  resp : option Gsup_message;
}.

(** Where a caller is in [enqueue] and the function around it; the flag is the
    result of [timed_wait]. *)
Inductive requester_pc :=
| Created                       (** the request was created *)
| Enqueued                      (** in the queue, about to wait; holds the mutex *)
| Waiting
| Waking (timedout : bool)      (** wants the mutex back *)
| Locking (timedout : bool)     (** holds the mutex, wants the lock *)
| Dequeueing                    (** timed out, holds the lock: looks in the queue *)
| Removing                      (** wants to look in the list of pending requests *)
| Returning (timedout : bool)   (** [enqueue] returned *)
| Finished (result : option Gsup_message).

Inductive sender_pc :=
| Dequeue                       (** waits for a request in [dequeue] *)
| Dequeued (r : nat)            (** tries to take the lock *)
| Sending (r : nat)             (** holds the lock *)
| Sent (r : nat)                (** sent, adds it to the pending ones *)
| Unlocking (r : nat)
| Failing (r : nat)             (** not sent, gave back the lock, signals *)
| Releasing (r : nat)           (** gives back its reference *)
| Stopped.                      (** the job was not queued again *)

Inductive receiver_pc :=
| Listening
| Found (r : nat) (m : Gsup_message)     (** holds the mutex of the pending requests *)
| Locked (r : nat) (m : Gsup_message)    (** holds the lock, signals *)
| Signalled (r : nat)
| Unreferencing (r : nat).

(** A caller keeps what it asked for, while its request may be gone. *)
Record requester := { rq_pc : requester_pc; rq_type : Z; rq_imsi : chunk }.

Record gsup_client := {
  heap : gmap nat gsup_request_t;
  inqueue : list nat;             (** [enqueue] inserts first, [dequeue] takes the last *)
  pending : list nat;
  pending_mutex : option thread;
  requesters : gmap nat requester;
  sender : sender_pc;
  receiver : receiver_pc;
  transmitted : list nat;         (** what was sent, the latest first *)
}.

Definition gsup_client_create : gsup_client :=
  {| heap := empty; inqueue := []; pending := []; pending_mutex := None; requesters := empty;
     sender := Dequeue; receiver := Listening; transmitted := [] |}.

(** ** Updates *)

Definition with_refcount (n : Z) (q : gsup_request_t) : gsup_request_t :=
  {| msg_type := msg_type q; imsi := imsi q; refcount := n; mutex := mutex q; lock := lock q; resp := resp q |}.
Definition with_mutex (t : option thread) (q : gsup_request_t) : gsup_request_t :=
  {| msg_type := msg_type q; imsi := imsi q; refcount := refcount q; mutex := t; lock := lock q; resp := resp q |}.
Definition with_lock (t : option thread) (q : gsup_request_t) : gsup_request_t :=
  {| msg_type := msg_type q; imsi := imsi q; refcount := refcount q; mutex := mutex q; lock := t; resp := resp q |}.
Definition with_resp (m : option Gsup_message) (q : gsup_request_t) : gsup_request_t :=
  {| msg_type := msg_type q; imsi := imsi q; refcount := refcount q; mutex := mutex q; lock := lock q; resp := m |}.

Definition with_heap x s : gsup_client :=
  {| heap := x; inqueue := inqueue s; pending := pending s; pending_mutex := pending_mutex s;
     requesters := requesters s; sender := sender s; receiver := receiver s; transmitted := transmitted s |}.
Definition with_inqueue x s : gsup_client :=
  {| heap := heap s; inqueue := x; pending := pending s; pending_mutex := pending_mutex s;
     requesters := requesters s; sender := sender s; receiver := receiver s; transmitted := transmitted s |}.
Definition with_pending x s : gsup_client :=
  {| heap := heap s; inqueue := inqueue s; pending := x; pending_mutex := pending_mutex s;
     requesters := requesters s; sender := sender s; receiver := receiver s; transmitted := transmitted s |}.
Definition with_pending_mutex x s : gsup_client :=
  {| heap := heap s; inqueue := inqueue s; pending := pending s; pending_mutex := x;
     requesters := requesters s; sender := sender s; receiver := receiver s; transmitted := transmitted s |}.
Definition with_requesters x s : gsup_client :=
  {| heap := heap s; inqueue := inqueue s; pending := pending s; pending_mutex := pending_mutex s;
     requesters := x; sender := sender s; receiver := receiver s; transmitted := transmitted s |}.
Definition with_sender x s : gsup_client :=
  {| heap := heap s; inqueue := inqueue s; pending := pending s; pending_mutex := pending_mutex s;
     requesters := requesters s; sender := x; receiver := receiver s; transmitted := transmitted s |}.
Definition with_receiver x s : gsup_client :=
  {| heap := heap s; inqueue := inqueue s; pending := pending s; pending_mutex := pending_mutex s;
     requesters := requesters s; sender := sender s; receiver := x; transmitted := transmitted s |}.
Definition with_transmitted x s : gsup_client :=
  {| heap := heap s; inqueue := inqueue s; pending := pending s; pending_mutex := pending_mutex s;
     requesters := requesters s; sender := sender s; receiver := receiver s; transmitted := x |}.

Definition goto (r : nat) (pc : requester_pc) (s : gsup_client) : gsup_client :=
  match requesters s !! r with
  | Some q => with_requesters (<[r := {| rq_pc := pc; rq_type := rq_type q; rq_imsi := rq_imsi q |}]>
                                 (requesters s)) s
  | None => s
  end.

(** ** Results of a step *)

(** A thread cannot go on ([Blocked]: not its turn, or it waits for a lock), or uses a
    request that was freed. *)
Inductive result :=
| Next (s : gsup_client)
| Blocked
| Use_after_free.

(** Access to a request. *)
Definition access (r : nat) (s : gsup_client) (f : gsup_request_t -> result) : result :=
  match heap s !! r with
  | Some q => f q
  | None => Use_after_free
  end.

Definition store (r : nat) (q : gsup_request_t) (s : gsup_client) : gsup_client :=
  with_heap (<[r := q]> (heap s)) s.

(** Taking a mutex or lock: waits while another thread, or the same, has it. *)
Definition acquire (t : option thread) (x : result) : result :=
  match t with None => x | Some _ => Blocked end.

Definition gsup_request_get (r : nat) (s : gsup_client) (f : gsup_client -> result) : result :=
  access r s (fun q => f (store r (with_refcount (refcount q + 1) q) s)).

(** The last reference frees the request. *)
Definition gsup_request_put (r : nat) (s : gsup_client) (f : gsup_client -> result) : result :=
  access r s (fun q =>
    f (if refcount q =? 1 then with_heap (delete r (heap s)) s
       else store r (with_refcount (refcount q - 1) q) s)).

(** [linked_list_t.remove] and [remove_pending]: the first occurrence. *)
Fixpoint remove_first (r : nat) (l : list nat) : option (list nat) :=
  match l with
  | [] => None
  | x :: l => if decide (x = r) then Some l else l ← remove_first r l; Some (x :: l)
  end.

(** [get_pending] *)
Definition matches (m : Gsup_message) (q : gsup_request_t) : bool :=
  strncmp_eq (gsup_imsi m) (imsi q) IMSI_LEN && (msg_type q =? Z.land (message_type m) (Z.lnot 3)).

Inductive lookup := NotFound | IsFound (r : nat) (rest : list nat) | Freed.

Fixpoint get_pending (h : gmap nat gsup_request_t) (m : Gsup_message) (l : list nat) : lookup :=
  match l with
  | [] => NotFound
  | r :: l =>
    match h !! r with
    | None => Freed
    | Some q => if matches m q then IsFound r l
                else match get_pending h m l with
                     | IsFound x rest => IsFound x (r :: rest)
                     | o => o
                     end
    end
  end.

(** ** The callers *)

(** The request of a call, up to [enqueue]. *)
Definition gsup_request_create (type : Z) (who : chunk) : gsup_request_t :=
  {| msg_type := type; imsi := c_string who; refcount := 1; mutex := None; lock := None; resp := None |}.

(** A call with a message that could not be encoded returns NULL at once. *)
Definition call (r : nat) (type : Z) (who : chunk) (msg : option chunk) (s : gsup_client) : result :=
  match requesters s !! r with
  | Some _ => Blocked
  | None =>
    let at_pc pc := {| rq_pc := pc; rq_type := type; rq_imsi := c_string who |} in
    Next match msg with
         | Some _ => with_requesters (<[r := at_pc Created]> (requesters s))
                       (store r (gsup_request_create type who) s)
         | None => with_requesters (<[r := at_pc (Finished None)]> (requesters s)) s
         end
  end.

(** The message of each kind of request, encoded, or [None] where the caller returns NULL. *)
Definition tunnel_request (who : chunk) : option chunk :=
  who ← imsi_copy who;
  osmo_gsup_encode {| out_type := EPDG_TUNNEL_REQUEST; out_imsi := who; out_cn_domain := 0;
    out_auts := None; out_rand := None; out_pdp_type := 0; out_apn := [];
    out_pco := [128; 0; 13; 0; 0; 12; 0] |}.

Definition set_cn_domain (cn_domain : Z) : Z :=
  if (cn_domain =? OSMO_GSUP_CN_DOMAIN_PS) || (cn_domain =? OSMO_GSUP_CN_DOMAIN_CS) then cn_domain else 0.

Definition update_location (who : chunk) (cn_domain : Z) : option chunk :=
  who ← imsi_copy who;
  osmo_gsup_encode {| out_type := UPDATE_LOCATION_REQUEST; out_imsi := who;
    out_cn_domain := set_cn_domain cn_domain;
    out_auts := None; out_rand := None; out_pdp_type := 0; out_apn := []; out_pco := [] |}.

(** An argument that is left out or empty, or has the length it must have. *)
Definition optional (arg : option chunk) (n : Z) : option (option chunk) :=
  match arg with
  | None | Some [] => Some None
  | Some c => if len c =? n then Some (Some c) else None
  end.

Definition send_auth_request (who : chunk) (cn_domain : Z) (auts auts_rand : option chunk)
    (apn : option chunk) (pdp_type : Z) : option chunk :=
  who ← imsi_copy who;
  apn ← (match apn with None => None | Some apn => if len (c_string apn) =? 0 then None else Some apn end);
  auts ← optional auts 14;
  auts_rand ← optional auts_rand 16;
  apn_enc ← osmo_apn_from_str apn;
  osmo_gsup_encode {| out_type := SEND_AUTH_INFO_REQUEST; out_imsi := who;
    out_cn_domain := set_cn_domain cn_domain;
    out_auts := auts; out_rand := auts_rand; out_pdp_type := pdp_type; out_apn := apn_enc; out_pco := [] |}.

(** The calls other components make. *)
Inductive request :=
| TunnelRequest (who : chunk)
| UpdateLocation (who : chunk) (cn_domain : Z)
| SendAuthRequest (who : chunk) (cn_domain : Z) (auts auts_rand apn : option chunk) (pdp_type : Z).

Definition type_of (q : request) : Z :=
  match q with
  | TunnelRequest _ => EPDG_TUNNEL_REQUEST
  | UpdateLocation _ _ => UPDATE_LOCATION_REQUEST
  | SendAuthRequest _ _ _ _ _ _ => SEND_AUTH_INFO_REQUEST
  end.

Definition who_of (q : request) : chunk :=
  match q with
  | TunnelRequest who | UpdateLocation who _ | SendAuthRequest who _ _ _ _ _ => who
  end.

Definition encode_request (q : request) : option chunk :=
  match q with
  | TunnelRequest who => tunnel_request who
  | UpdateLocation who cn_domain => update_location who cn_domain
  | SendAuthRequest who cn_domain auts auts_rand apn pdp_type =>
    send_auth_request who cn_domain auts auts_rand apn pdp_type
  end.

(** [enqueue], and what its callers do with its result. *)
Definition enqueue_step (r : nat) (s : gsup_client) : result :=
  match requesters s !! r with
  | None => Blocked
  | Some rq =>
    match rq_pc rq with
    | Created =>
      access r s (fun q => acquire (mutex q)
        (gsup_request_get r (store r (with_mutex (Some (Requester r)) q) s) (fun s =>
           Next (goto r Enqueued (with_inqueue (r :: inqueue s) s)))))
    | Enqueued => access r s (fun q => Next (goto r Waiting (store r (with_mutex None q) s)))
    | Waiting => Blocked
    | Waking ret =>
      access r s (fun q => acquire (mutex q)
        (Next (goto r (Locking ret) (store r (with_mutex (Some (Requester r)) q) s))))
    | Locking ret =>
      access r s (fun q => acquire (lock q)
        (Next (goto r (if ret then Dequeueing else Returning ret)
                 (store r (with_lock (Some (Requester r)) q) s))))
    | Dequeueing =>
      match remove_first r (inqueue s) with
      | Some l => gsup_request_put r (with_inqueue l s) (fun s => Next (goto r (Returning true) s))
      | None => Next (goto r Removing s)
      end
    | Removing =>
      acquire (pending_mutex s)
        match remove_first r (pending s) with
        | Some l => gsup_request_put r (with_pending l s) (fun s => Next (goto r (Returning true) s))
        | None => Next (goto r (Returning true) s)
        end
    | Returning true => gsup_request_put r s (fun s => Next (goto r (Finished None) s))
    | Returning false =>
      access r s (fun q => gsup_request_put r (store r (with_resp None q) s) (fun s =>
        Next (goto r (Finished (resp q)) s)))
    | Finished _ => Blocked
    end
  end.

(** The wait ends without a signal: after the timeout, or spuriously. *)
Definition wake (r : nat) (timedout : bool) (s : gsup_client) : result :=
  match requesters s !! r with
  | Some rq => match rq_pc rq with
               | Waiting => Next (goto r (Waking timedout) s)
               | _ => Blocked
               end
  | None => Blocked
  end.

(** [signal_request]: wakes the caller if it waits. *)
Definition signal (r : nat) (s : gsup_client) : gsup_client :=
  match requesters s !! r with
  | Some rq => match rq_pc rq with
               | Waiting => goto r (Waking false) s
               | _ => s
               end
  | None => s
  end.

Definition signal_request (r : nat) (m : option Gsup_message) (s : gsup_client)
    (f : gsup_client -> result) : result :=
  access r s (fun q => acquire (mutex q) (f (signal r (store r (with_resp m q) s)))).

(** ** The sender *)

(** [queue_worker]; the flag says whether [ipa->send] succeeds. *)
Definition queue_worker_step (ok : bool) (s : gsup_client) : result :=
  match sender s with
  | Dequeue =>
    match reverse (inqueue s) with
    | r :: l => Next (with_sender (Dequeued r) (with_inqueue (reverse l) s))
    | [] => Blocked
    end
  | Dequeued r =>
    access r s (fun q =>
      match lock q with
      | None => Next (with_sender (Sending r) (store r (with_lock (Some Sender) q) s))
      | Some _ => gsup_request_put r s (fun s => Next (with_sender Stopped s))
      end)
  | Sending r =>
    access r s (fun q =>
      if ok then Next (with_sender (Sent r) (with_transmitted (r :: transmitted s) s))
      else Next (with_sender (Failing r) (store r (with_lock None q) s)))
  | Sent r => acquire (pending_mutex s) (Next (with_sender (Unlocking r) (with_pending (pending s ++ [r]) s)))
  | Unlocking r => access r s (fun q => Next (with_sender Dequeue (store r (with_lock None q) s)))
  | Failing r => signal_request r None s (fun s => Next (with_sender (Releasing r) s))
  | Releasing r => gsup_request_put r s (fun s => Next (with_sender Dequeue s))
  | Stopped => Blocked
  end.

(** ** The receiver *)

(** Whether a message is a response to a request. *)
Definition is_response (m : Gsup_message) : bool :=
  existsb (Z.eqb (message_type m))
    [SEND_AUTH_INFO_ERROR; SEND_AUTH_INFO_RESULT; UPDATE_LOCATION_ERROR; UPDATE_LOCATION_RESULT;
     EPDG_TUNNEL_ERROR; EPDG_TUNNEL_RESULT].

(** [on_recv_pdu], up to the search for the request. *)
Definition on_recv_pdu (m : Gsup_message) (s : gsup_client) : result :=
  match receiver s with
  | Listening =>
    if (message_type m =? INSERT_DATA_REQUEST) || negb (is_response m) then Next s
    else acquire (pending_mutex s)
      match get_pending (heap s) m (pending s) with
      | NotFound => Next s
      | IsFound r l =>
        Next (with_receiver (Found r m) (with_pending_mutex (Some Receiver) (with_pending l s)))
      | Freed => Use_after_free
      end
  | _ => Blocked
  end.

Definition on_recv_pdu_step (s : gsup_client) : result :=
  match receiver s with
  | Listening => Blocked
  | Found r m =>
    access r s (fun q =>
      match lock q with
      | None => Next (with_receiver (Locked r m) (with_pending_mutex None
                       (store r (with_lock (Some Receiver) q) s)))
      | Some _ => gsup_request_put r (with_pending_mutex None s) (fun s => Next (with_receiver Listening s))
      end)
  | Locked r m => signal_request r (Some m) s (fun s => Next (with_receiver (Signalled r) s))
  | Signalled r => access r s (fun q => Next (with_receiver (Unreferencing r) (store r (with_lock None q) s)))
  | Unreferencing r => gsup_request_put r s (fun s => Next (with_receiver Listening s))
  end.

(** ** Runs *)

Inductive action :=
| Call (r : nat) (q : request)
| Enqueue (r : nat)
| Wake (r : nat) (timedout : bool)
| Work (ok : bool)
| Recv (m : Gsup_message)
| Receive.

Definition step (a : action) (s : gsup_client) : result :=
  match a with
  | Call r q => call r (type_of q) (who_of q) (encode_request q) s
  | Enqueue r => enqueue_step r s
  | Wake r timedout => wake r timedout s
  | Work ok => queue_worker_step ok s
  | Recv m => on_recv_pdu m s
  | Receive => on_recv_pdu_step s
  end.

(** A run of actions in any order; one that is blocked stays behind. *)
Fixpoint run (actions : list action) (s : gsup_client) : result :=
  match actions with
  | [] => Next s
  | a :: actions =>
    match step a s with
    | Next s => run actions s
    | Blocked => run actions s
    | Use_after_free => Use_after_free
    end
  end.

End Client.
