(* ===== verification/GsupSpec.v ===== *)
(** What the GSUP client guarantees under every interleaving of its threads: no
    request is used after it was freed or freed while it is referenced, a caller only
    gets a response to its own request, and each request is sent at most once; and
    what it does not guarantee: a timeout can block the receiver for ever. *)

From stdpp Require Import gmap.
From S2P Require Import Prelude Gsup.

Section Safety.
Context `{Gsup}.
Implicit Types s : gsup_client.

(** * References *)

Fixpoint occ (r : nat) (l : list nat) : Z :=
  match l with
  | [] => 0
  | x :: l => (if decide (x = r) then 1 else 0) + occ r l
  end.

Lemma occ_nonneg r l : 0 <= occ r l.
Proof. induction l as [|x l IH]; cbn; [lia|]. destruct (decide _); lia. Qed.

Lemma occ_app r a b : occ r (a ++ b) = occ r a + occ r b.
Proof. induction a as [|x a IH]; cbn; lia. Qed.

Lemma occ_reverse r l : occ r (reverse l) = occ r l.
Proof. induction l as [|x l IH]; [done|]. rewrite reverse_cons, occ_app. cbn. lia. Qed.

Lemma occ_in r l : r ∈ l -> 0 < occ r l.
Proof.
  induction l as [|x l IH]; [by intros ?%elem_of_nil|]. intros [<-|?]%elem_of_cons; cbn.
  - rewrite decide_True by done. pose proof (occ_nonneg r l). lia.
  - specialize (IH ltac:(done)). destruct (decide _); lia.
Qed.

Lemma remove_first_occ r l l' x :
  remove_first r l = Some l' -> occ x l = occ x l' + (if decide (r = x) then 1 else 0).
Proof.
  revert l'. induction l as [|y l IH]; intros l'; cbn; [done|].
  destruct (decide (y = r)) as [->|].
  - intros [= <-]. destruct (decide (r = x)); lia.
  - destruct (remove_first r l) as [l1|]; cbn; [|done]. intros [= <-]. rewrite (IH l1) by done. cbn. lia.
Qed.

(** The references the threads hold: [enqueue_step] until it gives its own back, the
    sender until the request is pending, the receiver from there on. *)
Definition pc_of (r : nat) s : option requester_pc := rq_pc <$> requesters s !! r.

Definition call_refs (pc : option requester_pc) : Z :=
  match pc with None | Some (Finished _) => 0 | Some _ => 1 end.

Definition same (r x : nat) : bool := bool_decide (x = r).

Definition sender_refs (r : nat) (pc : sender_pc) : Z :=
  match pc with
  | Dequeued x | Sending x | Sent x | Failing x | Releasing x => if same r x then 1 else 0
  | _ => 0
  end.

Definition receiver_refs (r : nat) (pc : receiver_pc) : Z :=
  match pc with
  | Found x _ | Locked x _ | Signalled x | Unreferencing x => if same r x then 1 else 0
  | Listening => 0
  end.

Definition queue_refs (r : nat) s : Z :=
  occ r (inqueue s) + occ r (pending s) + sender_refs r (sender s) + receiver_refs r (receiver s).

(** Who has the lock of a request. *)
Definition owning (pc : option requester_pc) : bool :=
  match pc with Some (Dequeueing | Removing | Returning _ | Finished _) => true | _ => false end.

Definition sender_owns (r : nat) (pc : sender_pc) : bool :=
  match pc with Sending x | Sent x | Unlocking x => same r x | _ => false end.

Definition receiver_owns (r : nat) (pc : receiver_pc) : bool :=
  match pc with Locked x _ | Signalled x => same r x | _ => false end.

Definition owner (r : nat) (call sender receiver : bool) : option thread :=
  if call then Some (Requester r) else if sender then Some Sender
  else if receiver then Some Receiver else None.

(** The state of one request: counted exactly, owned by the thread that says so. *)
Definition wf_at (r : nat) (q : option gsup_request_t) (pc : option requester_pc) (n : Z) (ss rs : bool) : Prop :=
  match q with
  | Some q => refcount q = call_refs pc + n /\ 0 < refcount q /\ pc <> None
      /\ lock q = owner r (owning pc) ss rs
      /\ (owning pc && ss = false /\ owning pc && rs = false /\ ss && rs = false)
  | None => call_refs pc + n = 0 /\ ss = false
  end.

Definition wf s : Prop := forall r,
  wf_at r (heap s !! r) (pc_of r s) (queue_refs r s) (sender_owns r (sender s)) (receiver_owns r (receiver s)).


Lemma sender_refs_nonneg r pc : 0 <= sender_refs r pc.
Proof. destruct pc; cbn; try destruct (same _ _); lia. Qed.

Lemma receiver_refs_nonneg r pc : 0 <= receiver_refs r pc.
Proof. destruct pc; cbn; try destruct (same _ _); lia. Qed.

Lemma queue_refs_nonneg r s : 0 <= queue_refs r s.
Proof.
  unfold queue_refs. pose proof (occ_nonneg r (inqueue s)). pose proof (occ_nonneg r (pending s)).
  pose proof (sender_refs_nonneg r (sender s)). pose proof (receiver_refs_nonneg r (receiver s)). lia.
Qed.

Lemma call_refs_nonneg pc : 0 <= call_refs pc.
Proof. destruct pc as [[]|]; cbn; lia. Qed.

Lemma same_refl r : same r r = true.
Proof. unfold same. by rewrite bool_decide_eq_true_2. Qed.

Lemma same_ne r x : x <> r -> same r x = false.
Proof. unfold same. intros. by rewrite bool_decide_eq_false_2. Qed.

(** A thread that holds a reference finds the request. *)
Lemma wf_present s r : wf s -> 0 < call_refs (pc_of r s) + queue_refs r s -> heap s !! r <> None.
Proof. intros W P E. specialize (W r). rewrite E in W. destruct W as [W _]. lia. Qed.

Lemma wf_sender_present s r : wf s -> sender_owns r (sender s) = true -> heap s !! r <> None.
Proof. intros W P E. specialize (W r). rewrite E in W. destruct W as [_ W]. congruence. Qed.

Lemma get_pending_spec h m l :
  match get_pending h m l with
  | NotFound => True
  | IsFound r l' => (exists q, h !! r = Some q /\ matches m q = true)
                    /\ forall x, occ x l = occ x l' + (if decide (r = x) then 1 else 0)
  | Freed => exists r, r ∈ l /\ h !! r = None
  end.
Proof.
  induction l as [|r l IH]; cbn; [done|].
  destruct (h !! r) as [q|] eqn:E; [|exists r; rewrite E; split; [by left|done]].
  destruct (matches m q) eqn:M.
  - split; [by exists q|]. intros x. lia.
  - destruct (get_pending h m l); [done| |].
    + destruct IH as [IH1 IH2]. split; [done|]. intros x. cbn. rewrite IH2. lia.
    + destruct IH as (x & ? & ?). exists x. split; [by right|done].
Qed.

(** * Steps *)

Definition safe (x : result) : Prop :=
  match x with Next s => wf s | Blocked => True | Use_after_free => False end.

(** The parts of the state at a request, after the updates of a step. *)
Lemma pc_goto r pc s x :
  requesters s !! r <> None ->
  pc_of x (goto r pc s) = if decide (r = x) then Some pc else pc_of x s.
Proof.
  intros N. unfold goto, pc_of. destruct (requesters s !! r) as [q|] eqn:E; [|done]. cbn.
  destruct (decide (r = x)) as [<-|]; [by rewrite lookup_insert_eq | by rewrite lookup_insert_ne].
Qed.

Lemma goto_rest r pc s :
  heap (goto r pc s) = heap s /\ inqueue (goto r pc s) = inqueue s /\ pending (goto r pc s) = pending s
  /\ sender (goto r pc s) = sender s /\ receiver (goto r pc s) = receiver s
  /\ pending_mutex (goto r pc s) = pending_mutex s /\ transmitted (goto r pc s) = transmitted s.
Proof. unfold goto. by destruct (requesters s !! r). Qed.

Lemma wf_goto r pc s :
  requesters s !! r <> None ->
  (forall x, wf_at x (heap s !! x) (if decide (r = x) then Some pc else pc_of x s) (queue_refs x s)
               (sender_owns x (sender s)) (receiver_owns x (receiver s))) ->
  wf (goto r pc s).
Proof.
  intros N W x. specialize (W x). destruct (goto_rest r pc s) as (E1 & E2 & E3 & E4 & E5 & _).
  unfold queue_refs in *. rewrite E1, E2, E3, E4, E5, pc_goto by done. exact W.
Qed.

(** Giving a reference back. *)
Definition heap_put (r : nat) (q : gsup_request_t) (h : gmap nat gsup_request_t) :=
  if refcount q =? 1 then delete r h else <[r := with_refcount (refcount q - 1) q]> h.

Lemma put_safe r s f q :
  heap s !! r = Some q -> safe (f (with_heap (heap_put r q (heap s)) s)) ->
  safe (gsup_request_put r s f).
Proof.
  intros E S. unfold gsup_request_put, access, heap_put in *. rewrite E.
  by destruct (refcount q =? 1).
Qed.

Lemma lookup_heap_put r q h x :
  heap_put r q h !! x
  = if decide (r = x) then (if refcount q =? 1 then None else Some (with_refcount (refcount q - 1) q))
    else h !! x.
Proof.
  unfold heap_put. destruct (refcount q =? 1), (decide (r = x)) as [<-|];
    by rewrite ?lookup_delete_eq, ?lookup_delete_ne, ?lookup_insert_eq, ?lookup_insert_ne.
Qed.

Lemma access_safe r s f :
  heap s !! r <> None -> (forall q, heap s !! r = Some q -> safe (f q)) -> safe (access r s f).
Proof. intros N F. unfold access. destruct (heap s !! r); [by apply F|done]. Qed.

Lemma acquire_safe t x : (t = None -> safe x) -> safe (acquire t x).
Proof. destruct t; cbn; auto. Qed.

(** Splits the state at a request [x] into the case of the request [r] of the step,
    and the others, where nothing changed. *)
Ltac at_request x r :=
  destruct (decide (r = x)) as [<-|];
  [ rewrite ?lookup_insert_eq, ?lookup_delete_eq, ?same_refl
  | rewrite ?lookup_insert_ne, ?lookup_delete_ne, ?same_ne by done ].

Ltac wf_solve :=
  cbn in *; destruct_and?; repeat match goal with |- _ /\ _ => split end;
  first [assumption | lia | done | congruence].

Lemma enqueue_safe r s : wf s -> safe (enqueue_step r s).
Proof.
  intros W. unfold enqueue_step. destruct (requesters s !! r) as [rq|] eqn:Er; [|done].
  assert (Epc : pc_of r s = Some (rq_pc rq)) by (unfold pc_of; by rewrite Er).
  assert (Nr : requesters s !! r <> None) by congruence.
  pose proof (queue_refs_nonneg r s) as Qn.
  assert (P : call_refs (pc_of r s) = 1 -> heap s !! r <> None) by (intros C; apply wf_present; [done|lia]).
  rewrite Epc in P.
  destruct (rq_pc rq) as [| | |ret|ret| | |ret|] eqn:Ec; cbn [call_refs] in P; try done.
  - apply access_safe; [auto|]. intros q Eq. apply acquire_safe. intros _.
    unfold gsup_request_get, access. cbn. rewrite lookup_insert_eq.
    apply wf_goto; [done|]. intros x. specialize (W x). unfold queue_refs in *. cbn.
    at_request x r.
    + rewrite Eq, Epc in W. wf_solve.
    + exact W.
  - apply access_safe; [auto|]. intros q Eq.
    apply wf_goto; [done|]. intros x. specialize (W x). unfold queue_refs in *. cbn.
    at_request x r; [|done]. rewrite Eq, Epc in W. wf_solve.
  - apply access_safe; [auto|]. intros q Eq. apply acquire_safe. intros _.
    apply wf_goto; [done|]. intros x. specialize (W x). unfold queue_refs in *. cbn.
    at_request x r; [|done]. rewrite Eq, Epc in W. wf_solve.
  - apply access_safe; [auto|]. intros q Eq. apply acquire_safe. intros Lk.
    apply wf_goto; [done|]. intros x. specialize (W x). unfold queue_refs in *. cbn.
    at_request x r; [|done]. rewrite Eq, Epc in W. cbn in W. rewrite Lk in W.
    destruct ret, (sender_owns r (sender s)), (receiver_owns r (receiver s)); wf_solve.
  - destruct (remove_first r (inqueue s)) as [l|] eqn:El.
    + pose proof (remove_first_occ _ _ _ r El) as O. rewrite decide_True in O by done.
      destruct (heap s !! r) as [q|] eqn:Eq; [|by destruct (P eq_refl)].
      eapply put_safe; [exact Eq|]. apply wf_goto; [done|]. intros x. specialize (W x).
      pose proof (remove_first_occ _ _ _ x El) as Ox.
      unfold queue_refs in *. cbn. rewrite lookup_heap_put.
      destruct (decide (r = x)) as [<-|]; [|rewrite Ox, Z.add_0_r in W; exact W].
      rewrite Eq, Epc in W. destruct (refcount q =? 1) eqn:C; bool_to_prop; wf_solve.
    + apply wf_goto; [done|]. intros x. specialize (W x). at_request x r; [|done].
      rewrite Epc in W. destruct (heap s !! r); wf_solve.
  - apply acquire_safe. intros _. destruct (remove_first r (pending s)) as [l|] eqn:El.
    + destruct (heap s !! r) as [q|] eqn:Eq; [|by destruct (P eq_refl)].
      eapply put_safe; [exact Eq|]. apply wf_goto; [done|]. intros x. specialize (W x).
      pose proof (remove_first_occ _ _ _ x El) as Ox.
      unfold queue_refs in *. cbn. rewrite lookup_heap_put.
      destruct (decide (r = x)) as [<-|]; [|rewrite Ox, Z.add_0_r in W; exact W].
      rewrite Eq, Epc in W. destruct (refcount q =? 1) eqn:C; bool_to_prop; wf_solve.
    + apply wf_goto; [done|]. intros x. specialize (W x). at_request x r; [|done].
      rewrite Epc in W. destruct (heap s !! r); wf_solve.
  - destruct (heap s !! r) as [q|] eqn:Eq; [|by destruct (P eq_refl)].
    destruct ret.
    + eapply put_safe; [exact Eq|]. apply wf_goto; [done|]. intros x. specialize (W x).
      unfold queue_refs in *. cbn. rewrite lookup_heap_put. destruct (decide (r = x)) as [<-|]; [|exact W].
      rewrite Eq, Epc in W. destruct (refcount q =? 1) eqn:C; bool_to_prop; wf_solve.
    + unfold access. rewrite Eq. eapply put_safe; [cbn; apply lookup_insert_eq|].
      apply wf_goto; [done|]. intros x. specialize (W x).
      unfold queue_refs in *. cbn. rewrite lookup_heap_put. destruct (decide (r = x)) as [<-|]; [|rewrite lookup_insert_ne by done; exact W].
      rewrite Eq, Epc in W. cbn. destruct (refcount q =? 1) eqn:C; bool_to_prop; wf_solve.
Qed.

Lemma wf_signal r s : wf s -> wf (signal r s).
Proof.
  intros W. unfold signal. destruct (requesters s !! r) as [rq|] eqn:E; [|done].
  destruct (rq_pc rq) eqn:Ec; try done. apply wf_goto; [congruence|].
  intros x. specialize (W x). destruct (decide (r = x)) as [<-|]; [|exact W].
  unfold pc_of in W. rewrite E in W. cbn in W. rewrite Ec in W. destruct (heap s !! r); wf_solve.
Qed.

(** Storing a request with the same counts and lock. *)
Lemma wf_store r q q' s :
  wf s -> heap s !! r = Some q -> refcount q' = refcount q -> lock q' = lock q -> wf (store r q' s).
Proof.
  intros W E R L x. specialize (W x). unfold queue_refs, pc_of in *. cbn.
  destruct (decide (r = x)) as [<-|]; [rewrite lookup_insert_eq | by rewrite lookup_insert_ne].
  rewrite E in W. cbn in *. by rewrite R, L.
Qed.

Lemma signal_request_safe r m s f :
  wf s -> heap s !! r <> None ->
  (forall s', wf s' -> sender s' = sender s -> receiver s' = receiver s -> safe (f s')) ->
  safe (signal_request r m s f).
Proof.
  intros W N F. apply access_safe; [done|]. intros q E. apply acquire_safe. intros _. apply F.
  - apply wf_signal. by eapply wf_store.
  - unfold signal. destruct (requesters _ !! r) as [rq|]; [|done]. destruct (rq_pc rq); try done.
    by destruct (goto_rest r (Waking false) (store r (with_resp m q) s)) as (_ & _ & _ & -> & _).
  - unfold signal. destruct (requesters _ !! r) as [rq|]; [|done]. destruct (rq_pc rq); try done.
    by destruct (goto_rest r (Waking false) (store r (with_resp m q) s)) as (_ & _ & _ & _ & -> & _).
Qed.

(** Another place of the sender or the receiver with the same references and locks. *)
Lemma wf_with_sender pc s :
  wf s -> (forall x, sender_refs x pc = sender_refs x (sender s)
                     /\ sender_owns x pc = sender_owns x (sender s)) -> wf (with_sender pc s).
Proof.
  intros W E x. specialize (W x). destruct (E x) as [E1 E2]. unfold queue_refs, pc_of in *. cbn.
  by rewrite E1, E2.
Qed.

Lemma wf_with_receiver pc s :
  wf s -> (forall x, receiver_refs x pc = receiver_refs x (receiver s)
                     /\ receiver_owns x pc = receiver_owns x (receiver s)) -> wf (with_receiver pc s).
Proof.
  intros W E x. specialize (W x). destruct (E x) as [E1 E2]. unfold queue_refs, pc_of in *. cbn.
  by rewrite E1, E2.
Qed.

Lemma sender_present s r : wf s -> sender_refs r (sender s) = 1 -> heap s !! r <> None.
Proof.
  intros W P. apply wf_present; [done|]. unfold queue_refs.
  pose proof (call_refs_nonneg (pc_of r s)). pose proof (occ_nonneg r (inqueue s)).
  pose proof (occ_nonneg r (pending s)).
  pose proof (receiver_refs_nonneg r (receiver s)).
  lia.
Qed.

Lemma receiver_present s r : wf s -> receiver_refs r (receiver s) = 1 -> heap s !! r <> None.
Proof.
  intros W P. apply wf_present; [done|]. unfold queue_refs.
  pose proof (call_refs_nonneg (pc_of r s)). pose proof (occ_nonneg r (inqueue s)).
  pose proof (occ_nonneg r (pending s)).
  pose proof (sender_refs_nonneg r (sender s)).
  lia.
Qed.

(** Case analysis at a request for the sender and receiver steps. *)
Ltac cases W x r Eq :=
  intros x; specialize (W x); unfold queue_refs, pc_of in *; cbn;
  rewrite ?lookup_heap_put; destruct (decide (r = x)) as [<-|];
  [ rewrite ?lookup_insert_eq, ?same_refl; rewrite Eq in W
  | rewrite ?lookup_insert_ne by done; rewrite ?same_ne by done ].

Lemma queue_worker_safe ok s : wf s -> safe (queue_worker_step ok s).
Proof.
  intros W. unfold queue_worker_step. destruct (sender s) as [|r|r|r|r|r|r|] eqn:Es; try done.
  - destruct (reverse (inqueue s)) as [|r l] eqn:El; [done|].
    intros x. specialize (W x). unfold queue_refs, pc_of in *. cbn. rewrite Es in W.
    rewrite <-(occ_reverse x (inqueue s)), El in W. rewrite occ_reverse. cbn in *.
    destruct (decide (r = x)) as [<-|]; [rewrite same_refl|rewrite same_ne by done];
      destruct (heap s !! _); wf_solve.
  - apply access_safe; [apply sender_present; [done|rewrite Es; cbn; by rewrite same_refl]|].
    intros q Eq. destruct (lock q) as [t|] eqn:Lk.
    + eapply put_safe; [exact Eq|]. cases W x r Eq.
      * rewrite Es in W. cbn in W. rewrite same_refl in W.
        destruct (refcount q =? 1) eqn:C; bool_to_prop; wf_solve.
      * rewrite Es in W. cbn in W. rewrite same_ne in W by done. destruct (heap s !! x); wf_solve.
    + cases W x r Eq.
      * rewrite Es in W. cbn in W. rewrite same_refl, Lk in W. cbn.
        destruct (owning _), (receiver_owns r (receiver s)); wf_solve.
      * rewrite Es in W. cbn in W. rewrite same_ne in W by done. destruct (heap s !! x); wf_solve.
  - apply access_safe; [apply sender_present; [done|rewrite Es; cbn; by rewrite same_refl]|].
    intros q Eq. destruct ok.
    + intros x. specialize (W x). unfold queue_refs, pc_of in *. cbn. rewrite Es in W. exact W.
    + cases W x r Eq.
      * rewrite Es in W. cbn in W. rewrite same_refl in W. cbn.
        destruct (owning _), (receiver_owns r (receiver s)); wf_solve.
      * rewrite Es in W. cbn in W. rewrite same_ne in W by done. destruct (heap s !! x); wf_solve.
  - apply acquire_safe. intros _.
    assert (P : heap s !! r <> None) by (apply sender_present; [done|rewrite Es; cbn; by rewrite same_refl]).
    destruct (heap s !! r) as [q|] eqn:Eq; [|done].
    cases W x r Eq; rewrite occ_app; cbn.
    + rewrite Es in W. cbn in W. rewrite same_refl in W. rewrite Eq, decide_True by done. wf_solve.
    + rewrite Es in W. cbn in W. rewrite same_ne in W by done. rewrite decide_False by done.
      destruct (heap s !! x); wf_solve.
  - apply access_safe; [apply wf_sender_present; [done|rewrite Es; cbn; by rewrite same_refl]|].
    intros q Eq. cases W x r Eq.
    + rewrite Es in W. cbn in W. rewrite same_refl in W. cbn.
      destruct (owning _), (receiver_owns r (receiver s)); wf_solve.
    + rewrite Es in W. cbn in W. rewrite same_ne in W by done. destruct (heap s !! x); wf_solve.
  - apply signal_request_safe; [done| |].
    + apply sender_present; [done|rewrite Es; cbn; by rewrite same_refl].
    + intros s' W' E' _. apply wf_with_sender; [done|]. intros x. by rewrite E', Es.
  - assert (P : heap s !! r <> None) by (apply sender_present; [done|rewrite Es; cbn; by rewrite same_refl]).
    destruct (heap s !! r) as [q|] eqn:Eq; [|done].
    eapply put_safe; [exact Eq|]. cases W x r Eq.
    + rewrite Es in W. cbn in W. rewrite same_refl in W.
      destruct (refcount q =? 1) eqn:C; bool_to_prop; wf_solve.
    + rewrite Es in W. cbn in W. rewrite same_ne in W by done. destruct (heap s !! x); wf_solve.
Qed.

Lemma on_recv_safe m s : wf s -> safe (on_recv_pdu m s).
Proof.
  intros W. unfold on_recv_pdu. destruct (receiver s) eqn:Ev; try done.
  destruct (_ || _); [done|]. apply acquire_safe. intros _.
  pose proof (get_pending_spec (heap s) m (pending s)) as G.
  destruct (get_pending (heap s) m (pending s)) as [|r l|]; [done| |].
  - destruct G as [(q & Eq & _) O]. cases W x r Eq; rewrite Ev in W; cbn in W; rewrite O in W.
    + rewrite Eq. rewrite decide_True in W by done. wf_solve.
    + rewrite decide_False in W by done. destruct (heap s !! x); wf_solve.
  - destruct G as (r & Hr & N). specialize (W r). rewrite N in W. apply occ_in in Hr.
    destruct W as [W _]. unfold queue_refs in W. rewrite Ev in W. cbn in W.
    pose proof (call_refs_nonneg (pc_of r s)). pose proof (occ_nonneg r (inqueue s)).
    pose proof (sender_refs_nonneg r (sender s)).
    cbn. lia.
Qed.

(** When the last reference goes, the caller is done, and the sender is not at it. *)
Lemma last_reference pc ss n :
  call_refs pc + n = 0 -> 0 <= n -> pc <> None -> owning pc && ss = false -> ss = false.
Proof. destruct pc as [[]|]; cbn; intros; try lia; done. Qed.

Lemma wf_received r q pc n ss :
  wf_at r (Some q) pc (n + 1) ss false -> 0 <= n ->
  wf_at r (if refcount q =? 1 then None else Some (with_refcount (refcount q - 1) q)) pc (n + 0) ss false.
Proof.
  intros W N. destruct (refcount q =? 1) eqn:C; bool_to_prop; [|wf_solve].
  cbn in *. destruct W as (R & _ & P & _ & O & _).
  split; [lia|]. apply (last_reference pc ss n); [lia|done|done|done].
Qed.

Lemma on_recv_pdu_safe s : wf s -> safe (on_recv_pdu_step s).
Proof.
  intros W. unfold on_recv_pdu_step. destruct (receiver s) as [|r m|r m|r|r] eqn:Ev; [done|..].
  1,3: apply access_safe; [apply receiver_present; [done|rewrite Ev; cbn; by rewrite same_refl]|]; intros q Eq.
  - destruct (lock q) as [t|] eqn:Lk.
    + eapply put_safe; [exact Eq|]. cases W x r Eq.
      * rewrite Ev in W. cbn in W. rewrite same_refl in W.
        apply wf_received; [exact W|].
        pose proof (occ_nonneg r (inqueue s)). pose proof (occ_nonneg r (pending s)).
        pose proof (sender_refs_nonneg r (sender s)). lia.
      * rewrite Ev in W. cbn in W. rewrite same_ne in W by done. destruct (heap s !! x); wf_solve.
    + cases W x r Eq.
      * rewrite Ev in W. cbn in W. rewrite same_refl, Lk in W. cbn.
        destruct (owning _), (sender_owns r (sender s)); wf_solve.
      * rewrite Ev in W. cbn in W. rewrite same_ne in W by done. destruct (heap s !! x); wf_solve.
  - cases W x r Eq.
    + rewrite Ev in W. cbn in W. rewrite same_refl in W. cbn.
      destruct (owning _), (sender_owns r (sender s)); wf_solve.
    + rewrite Ev in W. cbn in W. rewrite same_ne in W by done. destruct (heap s !! x); wf_solve.
  - apply signal_request_safe; [done| |].
    + apply receiver_present; [done|rewrite Ev; cbn; by rewrite same_refl].
    + intros s' W' _ E'. apply wf_with_receiver; [done|]. intros x. by rewrite E', Ev.
  - assert (P : heap s !! r <> None) by (apply receiver_present; [done|rewrite Ev; cbn; by rewrite same_refl]).
    destruct (heap s !! r) as [q|] eqn:Eq; [|done].
    eapply put_safe; [exact Eq|]. cases W x r Eq.
    + rewrite Ev in W. cbn in W. rewrite same_refl in W.
      apply wf_received; [exact W|].
        pose proof (occ_nonneg r (inqueue s)). pose proof (occ_nonneg r (pending s)).
        pose proof (sender_refs_nonneg r (sender s)). lia.
    + rewrite Ev in W. cbn in W. rewrite same_ne in W by done. destruct (heap s !! x); wf_solve.
Qed.

Lemma call_safe r type who msg s : wf s -> safe (call r type who msg s).
Proof.
  intros W. unfold call. destruct (requesters s !! r) as [rq|] eqn:Er; [done|].
  intros x. pose proof (W x) as Wx. unfold queue_refs, pc_of in *.
  destruct (decide (r = x)) as [<-|]; [|by destruct msg; cbn; rewrite ?lookup_insert_ne].
  rewrite Er in Wx. cbn in Wx.
  destruct (heap s !! r) as [q|] eqn:Eq; [destruct Wx as (_ & _ & N & _); congruence|].
  destruct msg; cbn; rewrite ?lookup_insert_eq, ?Eq; [|exact Wx].
  pose proof (occ_nonneg r (inqueue s)). pose proof (occ_nonneg r (pending s)).
  pose proof (sender_refs_nonneg r (sender s)). pose proof (receiver_refs_nonneg r (receiver s)).
  destruct Wx as [W1 W2].
  assert (R : receiver_owns r (receiver s) = false).
  { cbn in W1. unfold receiver_owns, receiver_refs in *.
    destruct (receiver s); try done; destruct (same _ _); try done; lia. }
  rewrite R, W2. wf_solve.
Qed.

Lemma wake_safe r t s : wf s -> safe (wake r t s).
Proof.
  intros W. unfold wake. destruct (requesters s !! r) as [rq|] eqn:Er; [|done].
  destruct (rq_pc rq) eqn:Ec; try done. apply wf_goto; [congruence|].
  intros x. specialize (W x). destruct (decide (r = x)) as [<-|]; [|exact W].
  unfold pc_of in W. rewrite Er in W. cbn in W. rewrite Ec in W. destruct (heap s !! r); wf_solve.
Qed.

Lemma step_safe a s : wf s -> safe (step a s).
Proof.
  intros W. destruct a; cbn; [by apply call_safe|by apply enqueue_safe|by apply wake_safe|
    by apply queue_worker_safe|by apply on_recv_safe|by apply on_recv_pdu_safe].
Qed.

Lemma run_safe actions s : wf s -> exists s', run actions s = Next s' /\ wf s'.
Proof.
  revert s. induction actions as [|a actions IH]; intros s W; [by exists s|]. cbn.
  pose proof (step_safe a s W) as S. destruct (step a s); [by apply IH|by apply IH|done].
Qed.

Lemma wf_create : wf gsup_client_create.
Proof. intros r. cbn. by rewrite !lookup_empty. Qed.

(** C14: under every interleaving of the callers, the sender and the receiver no freed
    request is used. At any time the reference count of a request that is not freed is
    the number of references to it: that of the call until it returned, its places in
    the queue and in the list of pending requests, and those of the sender and the
    receiver; a request without references is freed. *)
Theorem no_use_after_free actions :
  exists s, run actions gsup_client_create = Next s
    /\ forall r, match heap s !! r with
                 | Some q => refcount q = call_refs (pc_of r s) + queue_refs r s /\ 0 < refcount q
                 | None => call_refs (pc_of r s) + queue_refs r s = 0
                 end.
Proof.
  destruct (run_safe actions _ wf_create) as (s & E & W). exists s. split; [done|].
  intros r. specialize (W r). destruct (heap s !! r); wf_solve.
Qed.

End Safety.

(** * Responses *)

Section Responses.
Context `{Gsup}.
Implicit Types s : gsup_client.
Context (received : Gsup_message -> Prop).

(** A response to what a caller asked for, that did arrive. *)
Definition answers (m : Gsup_message) (rq : requester) : Prop :=
  received m /\ take IMSI_LEN (c_string (gsup_imsi m)) = take IMSI_LEN (c_string (rq_imsi rq))
  /\ Z.land (message_type m) (Z.lnot 3) = rq_type rq.

Definition answered_by (r : nat) (m : Gsup_message) s : Prop :=
  exists rq, requesters s !! r = Some rq /\ answers m rq.

Definition request_ok (r : nat) (q : gsup_request_t) s : Prop :=
  exists rq, requesters s !! r = Some rq /\ msg_type q = rq_type rq /\ imsi q = rq_imsi rq
             /\ forall m, resp q = Some m -> answers m rq.

Record resp_ok s : Prop := {
  ok_heap : forall r q, heap s !! r = Some q -> request_ok r q s;
  ok_receiver : match receiver s with
                | Found r m | Locked r m => answered_by r m s
                | _ => True
                end;
  ok_finished : forall r rq m, requesters s !! r = Some rq -> rq_pc rq = Finished (Some m) -> answers m rq;
}.

(** A move of the caller, other than to the end with a message, changes nothing. *)
Lemma answers_goto m rq pc :
  answers m {| rq_pc := pc; rq_type := rq_type rq; rq_imsi := rq_imsi rq |} <-> answers m rq.
Proof. done. Qed.

Lemma lookup_goto r pc s x rq :
  requesters s !! x = Some rq ->
  exists rq', requesters (goto r pc s) !! x = Some rq' /\ rq_type rq' = rq_type rq /\ rq_imsi rq' = rq_imsi rq.
Proof.
  intros E. unfold goto. destruct (requesters s !! r) as [q|] eqn:Er; [|by exists rq]. cbn.
  destruct (decide (r = x)) as [<-|].
  - rewrite lookup_insert_eq. rewrite Er in E. injection E as ->. eexists. split; [done|done].
  - rewrite lookup_insert_ne by done. by exists rq.
Qed.

Lemma request_ok_goto r pc s x q : request_ok x q s -> request_ok x q (goto r pc s).
Proof.
  intros (rq & E & T & I & R). destruct (lookup_goto r pc s x rq E) as (rq' & E' & T' & I').
  exists rq'. unfold answers in *. rewrite T', I'. done.
Qed.

Lemma answered_goto r pc s x m : answered_by x m s -> answered_by x m (goto r pc s).
Proof.
  intros (rq & E & A). destruct (lookup_goto r pc s x rq E) as (rq' & E' & T' & I').
  exists rq'. unfold answers in *. rewrite T', I'. done.
Qed.

Lemma ok_goto r pc s :
  resp_ok s -> (forall m, pc = Finished (Some m) -> answered_by r m s) -> resp_ok (goto r pc s).
Proof.
  intros [O1 O2 O3] P. destruct (goto_rest r pc s) as (E1 & _ & _ & _ & E5 & _). split.
  - intros x q. rewrite E1. intros E. by apply request_ok_goto, O1.
  - rewrite E5. destruct (receiver s); try done; by apply answered_goto.
  - intros x rq m. unfold goto. destruct (requesters s !! r) as [rq0|] eqn:Er; [|apply O3]. cbn.
    destruct (decide (r = x)) as [<-|]; [rewrite lookup_insert_eq|rewrite lookup_insert_ne by done; apply O3].
    intros [= <-]. cbn. intros ->. destruct (P m eq_refl) as (rq' & E & A).
    rewrite Er in E. by injection E as <-.
Qed.

(** Storing a request that keeps its type, IMSI and response. *)
Lemma ok_store r q q' s :
  resp_ok s -> heap s !! r = Some q -> msg_type q' = msg_type q -> imsi q' = imsi q ->
  (forall m, resp q' = Some m -> resp q = Some m \/ answered_by r m s) -> resp_ok (store r q' s).
Proof.
  intros [O1 O2 O3] E T I R. split; [|exact O2|exact O3]. intros x qx. cbn.
  destruct (decide (r = x)) as [<-|]; [rewrite lookup_insert_eq|rewrite lookup_insert_ne by done; apply O1].
  intros [= <-]. destruct (O1 r q E) as (rq & Er & Tr & Ir & Rr). exists rq.
  repeat split; [done|congruence|congruence| | |]; destruct (R m) as [M|(rq' & Er' & A)]; try done;
    try (by apply Rr); rewrite Er in Er'; injection Er' as <-; apply A.
Qed.

Lemma ok_same s s' :
  resp_ok s -> heap s' = heap s -> requesters s' = requesters s -> receiver s' = receiver s -> resp_ok s'.
Proof.
  intros [O1 O2 O3] E1 E2 E3. split; unfold request_ok, answered_by in *.
  - intros r q. rewrite E1, E2. apply O1.
  - by rewrite E3, E2.
  - intros r rq m. rewrite E2. apply O3.
Qed.

Lemma ok_delete r s : resp_ok s -> resp_ok (with_heap (delete r (heap s)) s).
Proof.
  intros [O1 O2 O3]. split; [|exact O2|exact O3]. intros x q. cbn.
  intros E. apply lookup_delete_Some in E as [_ E]. by apply O1.
Qed.

Definition good (x : result) : Prop := match x with Next s => resp_ok s | _ => True end.

Lemma put_good r s f :
  resp_ok s -> (forall s', resp_ok s' -> requesters s' = requesters s -> receiver s' = receiver s -> good (f s')) ->
  good (gsup_request_put r s f).
Proof.
  intros O F. unfold gsup_request_put, access. destruct (heap s !! r) as [q|] eqn:E; [|done].
  destruct (refcount q =? 1); apply F; try done; [by apply ok_delete|].
  eapply ok_store; eauto.
Qed.

Lemma access_good r s f : (forall q, heap s !! r = Some q -> good (f q)) -> good (access r s f).
Proof. intros F. unfold access. destruct (heap s !! r); [by apply F|done]. Qed.

Lemma acquire_good t x : good x -> good (acquire t x).
Proof. by destruct t. Qed.

Lemma ok_signal r s : resp_ok s -> resp_ok (signal r s).
Proof.
  intros O. unfold signal. destruct (requesters s !! r) as [rq|]; [|done].
  destruct (rq_pc rq); try done. by apply ok_goto.
Qed.

Lemma signal_good r m s f :
  resp_ok s -> (forall x, m = Some x -> answered_by r x s) ->
  (forall s', resp_ok s' -> (receiver s' = receiver s) -> good (f s')) -> good (signal_request r m s f).
Proof.
  intros O A F. apply access_good. intros q E. apply acquire_good, F.
  - apply ok_signal. eapply ok_store; eauto.
  - unfold signal. destruct (requesters _ !! r) as [rq|]; [|done]. destruct (rq_pc rq); try done.
    by destruct (goto_rest r (Waking false) (store r (with_resp m q) s)) as (_ & _ & _ & _ & -> & _).
Qed.

Lemma ok_restored r q q' s :
  resp_ok s -> heap s !! r = Some q -> msg_type q' = msg_type q -> imsi q' = imsi q -> resp q' = resp q ->
  resp_ok (store r q' s).
Proof. intros O E T I R. eapply ok_store; eauto. rewrite R. auto. Qed.

(** Updates of the queues and of the sender do not matter. *)
Ltac strip := cbn [good]; repeat match goal with
  | |- resp_ok (with_inqueue _ ?u) => apply (ok_same u); [|done..]
  | |- resp_ok (with_pending _ ?u) => apply (ok_same u); [|done..]
  | |- resp_ok (with_pending_mutex _ ?u) => apply (ok_same u); [|done..]
  | |- resp_ok (with_sender _ ?u) => apply (ok_same u); [|done..]
  | |- resp_ok (with_transmitted _ ?u) => apply (ok_same u); [|done..]
  end.

Lemma enqueue_good r s : resp_ok s -> good (enqueue_step r s).
Proof.
  intros O. unfold enqueue_step. destruct (requesters s !! r) as [rq|] eqn:Er; [|done].
  destruct (rq_pc rq) as [| | |ret|ret| | |[]|]; try done.
  - apply access_good. intros q E. apply acquire_good. unfold gsup_request_get. apply access_good. cbn.
    intros q' E'. rewrite lookup_insert_eq in E'. injection E' as <-.
    apply ok_goto; [|done]. strip.
    eapply ok_restored; [eapply ok_restored; [exact O|exact E|..]|cbn; apply lookup_insert_eq|..]; done.
  - apply access_good. intros q E. apply ok_goto; [|done]. by eapply ok_restored.
  - apply access_good. intros q E. apply acquire_good. apply ok_goto; [|done]. by eapply ok_restored.
  - apply access_good. intros q E. apply acquire_good. apply ok_goto; [|by destruct ret].
    by eapply ok_restored.
  - destruct (remove_first r (inqueue s)); [|by apply ok_goto].
    apply put_good; [by strip|]. intros s' O' _ _. by apply ok_goto.
  - apply acquire_good. destruct (remove_first r (pending s)); [|by apply ok_goto].
    apply put_good; [by strip|]. intros s' O' _ _. by apply ok_goto.
  - apply put_good; [done|]. intros s' O' _ _. by apply ok_goto.
  - apply access_good. intros q E. apply put_good; [by eapply ok_store|].
    intros s' O' E' _. apply ok_goto; [done|]. intros m [= Rm].
    destruct (ok_heap _ O _ _ E) as (rq' & Er' & _ & _ & R). exists rq'. rewrite E'. cbn. eauto.
Qed.

Lemma queue_worker_good ok s : resp_ok s -> good (queue_worker_step ok s).
Proof.
  intros O. unfold queue_worker_step. destruct (sender s); try done.
  - destruct (reverse (inqueue s)); [done|]. by strip.
  - apply access_good. intros q E. destruct (lock q).
    + apply put_good; [done|]. intros s' O' _ _. by strip.
    + strip. by eapply ok_restored.
  - apply access_good. intros q E. destruct ok; [by strip|].
    strip. by eapply ok_restored.
  - apply acquire_good. by strip.
  - apply access_good. intros q E. strip. by eapply ok_restored.
  - apply signal_good; [done|done|]. intros s' O' _. by strip.
  - apply put_good; [done|]. intros s' O' _ _. by strip.
Qed.

Lemma ok_with_receiver pc s :
  resp_ok s -> (match pc with Found r m | Locked r m => answered_by r m s | _ => True end) ->
  resp_ok (with_receiver pc s).
Proof. intros [O1 O2 O3] P. split; [exact O1|exact P|exact O3]. Qed.

Lemma on_recv_good m s : received m -> resp_ok s -> good (on_recv_pdu m s).
Proof.
  intros R O. unfold on_recv_pdu. destruct (receiver s); try done.
  destruct (_ || _); [done|]. apply acquire_good.
  pose proof (get_pending_spec (heap s) m (pending s)) as G.
  destruct (get_pending (heap s) m (pending s)) as [|r l|]; [done| |done].
  destruct G as [(q & E & M) _].
  apply ok_with_receiver; [by strip|].
  destruct (ok_heap _ O _ _ E) as (rq & Er & T & I & _). exists rq. split; [done|].
  unfold matches, strncmp_eq in M. apply andb_true_iff in M as [M1 M2].
  apply bool_decide_eq_true in M1. bool_to_prop. unfold answers. by rewrite <-T, <-I, M2.
Qed.

Lemma on_recv_pdu_good s : resp_ok s -> good (on_recv_pdu_step s).
Proof.
  intros O. pose proof (ok_receiver _ O) as A. unfold on_recv_pdu_step.
  destruct (receiver s) as [|r m|r m|r|r]; try done.
  - apply access_good. intros q E. destruct (lock q).
    + apply put_good; [by strip|]. intros s' O' _ _. by apply ok_with_receiver.
    + apply ok_with_receiver; [|exact A]. strip. by eapply ok_restored.
  - apply signal_good; [done|by intros x [= <-]|]. intros s' O' _. by apply ok_with_receiver.
  - apply access_good. intros q E. apply ok_with_receiver; [|done]. by eapply ok_restored.
  - apply put_good; [done|]. intros s' O' _ _. by apply ok_with_receiver.
Qed.

Lemma call_good r type who msg s : resp_ok s -> good (call r type who msg s).
Proof.
  intros O. unfold call. destruct (requesters s !! r) as [rq|] eqn:Er; [done|].
  destruct O as [O1 O2 O3].
  assert (K : forall pc x rq, requesters s !! x = Some rq ->
    <[r := {| rq_pc := pc; rq_type := type; rq_imsi := c_string who |}]> (requesters s) !! x = Some rq).
  { intros pc x rq E. rewrite lookup_insert_ne; [done|]. intros <-. congruence. }
  assert (F : forall pc, (forall m, pc <> Finished (Some m)) -> forall x rq m,
    <[r := {| rq_pc := pc; rq_type := type; rq_imsi := c_string who |}]> (requesters s) !! x = Some rq ->
    rq_pc rq = Finished (Some m) -> requesters s !! x = Some rq).
  { intros pc N x rq m. destruct (decide (r = x)) as [<-|]; [rewrite lookup_insert_eq|by rewrite lookup_insert_ne].
    intros [= <-] P. by destruct (N m). }
  destruct msg; split; cbn; eauto.
  - intros x q. destruct (decide (r = x)) as [<-|]; [rewrite lookup_insert_eq|rewrite lookup_insert_ne by done].
    + intros [= <-]. eexists. cbn. rewrite lookup_insert_eq. split; [done|]. done.
    + intros E. destruct (O1 x q E) as (rq & Er' & R). exists rq. split; [by apply K|done].
  - destruct (receiver s); try done; destruct O2 as (rq & Er' & A); exists rq; split; try done; by apply K.
  - intros x rq m E P. refine (O3 x rq m (F _ _ x rq m E P) P). done.
  - intros x q E. destruct (O1 x q E) as (rq & Er' & R). exists rq. split; [by apply K|done].
  - destruct (receiver s); try done; destruct O2 as (rq & Er' & A); exists rq; split; try done; by apply K.
  - intros x rq m E P. refine (O3 x rq m (F _ _ x rq m E P) P). done.
Qed.

Lemma step_good a s :
  (forall m, a = Recv m -> received m) -> resp_ok s -> good (step a s).
Proof.
  intros P O. destruct a; cbn; [by apply call_good|by apply enqueue_good| |by apply queue_worker_good|
    apply on_recv_good; auto|by apply on_recv_pdu_good].
  unfold wake. destruct (requesters s !! r) as [rq|]; [|done]. destruct (rq_pc rq); try done.
  by apply ok_goto.
Qed.

Lemma run_good actions s :
  (forall m, Recv m ∈ actions -> received m) -> resp_ok s -> good (run actions s).
Proof.
  revert s. induction actions as [|a actions IH]; intros s P O; [done|]. cbn.
  assert (G : good (step a s)) by (apply step_good; [intros m ->; apply P; by left|done]).
  assert (P' : forall m, Recv m ∈ actions -> received m) by (intros m M; apply P; by right).
  destruct (step a s); [by apply IH|by apply IH|done].
Qed.

End Responses.

(** C34: a call that returns a message returns a response to it that was received: the
    message has the IMSI of the request and is the error or the result of its type. *)
Theorem response_belongs_to_caller `{Gsup} actions s r rq m :
  run actions gsup_client_create = Next s ->
  requesters s !! r = Some rq -> rq_pc rq = Finished (Some m) ->
  Recv m ∈ actions
  /\ take IMSI_LEN (c_string (gsup_imsi m)) = take IMSI_LEN (c_string (rq_imsi rq))
  /\ Z.land (message_type m) (Z.lnot 3) = rq_type rq.
Proof.
  intros E Er Ep.
  assert (G : good (fun m => Recv m ∈ actions) (run actions gsup_client_create)).
  { apply run_good; [done|]. split; cbn; intros; rewrite ?lookup_empty in *; done. }
  rewrite E in G. exact (ok_finished _ _ G r rq m Er Ep).
Qed.

(** * Sending *)

Section Sends.
Context `{Gsup}.
Implicit Types s : gsup_client.

Definition to_send (r : nat) (pc : sender_pc) : Z :=
  match pc with Dequeued x | Sending x => if same r x then 1 else 0 | _ => 0 end.

(** The past and possible transmissions of a request. *)
Definition sends (r : nat) s : Z := occ r (inqueue s) + occ r (transmitted s) + to_send r (sender s).

Definition not_queued (pc : option requester_pc) : bool :=
  match pc with None | Some Created => true | _ => false end.

Definition sends_ok s : Prop := forall r,
  0 <= sends r s <= (if not_queued (pc_of r s) then 0 else 1).

(** Steps that neither queue nor send. *)
Lemma sends_same s s' :
  sends_ok s -> inqueue s' = inqueue s -> transmitted s' = transmitted s ->
  (forall r, to_send r (sender s') <= to_send r (sender s) /\ 0 <= to_send r (sender s')) ->
  (forall r, not_queued (pc_of r s') = true -> not_queued (pc_of r s) = true) -> sends_ok s'.
Proof.
  intros S E1 E2 E3 E4 r. specialize (S r). specialize (E3 r). specialize (E4 r). unfold sends in *.
  rewrite E1, E2. pose proof (occ_nonneg r (inqueue s)). pose proof (occ_nonneg r (transmitted s)).
  destruct (not_queued (pc_of r s')); [rewrite E4 in S by done; lia|].
  destruct (not_queued (pc_of r s)); lia.
Qed.

Lemma not_queued_goto r pc s x :
  not_queued (Some pc) = false -> not_queued (pc_of x (goto r pc s)) = true ->
  not_queued (pc_of x s) = true.
Proof.
  intros N. destruct (requesters s !! r) as [rq|] eqn:E.
  - rewrite pc_goto by congruence. destruct (decide (r = x)); congruence.
  - unfold goto. by rewrite E.
Qed.

Definition sends_fine (x : result) : Prop := match x with Next s => sends_ok s | _ => True end.

Lemma to_send_nonneg r pc : 0 <= to_send r pc.
Proof. destruct pc; cbn; try destruct (same _ _); lia. Qed.

Lemma sends_goto r pc s :
  sends_ok s -> not_queued (Some pc) = false -> sends_ok (goto r pc s).
Proof.
  intros S N. destruct (goto_rest r pc s) as (_ & E1 & _ & E2 & _ & _ & E3).
  apply (sends_same s); try done.
  - intros x. rewrite E2. split; [lia|apply to_send_nonneg].
  - intros x. by apply not_queued_goto.
Qed.

Lemma sends_put r s f :
  (forall s', inqueue s' = inqueue s -> transmitted s' = transmitted s -> sender s' = sender s ->
    requesters s' = requesters s -> sends_fine (f s')) -> sends_fine (gsup_request_put r s f).
Proof.
  intros F. unfold gsup_request_put, access. destruct (heap s !! r) as [q|]; [|done].
  destruct (refcount q =? 1); by apply F.
Qed.

Lemma sends_access r s f : (forall q, sends_fine (f q)) -> sends_fine (access r s f).
Proof. intros F. unfold access. by destruct (heap s !! r). Qed.

Lemma sends_acquire t x : sends_fine x -> sends_fine (acquire t x).
Proof. by destruct t. Qed.

Lemma sends_update s s' :
  sends_ok s -> inqueue s' = inqueue s -> transmitted s' = transmitted s -> sender s' = sender s ->
  requesters s' = requesters s -> sends_ok s'.
Proof.
  intros S E1 E2 E3 E4. apply (sends_same s); try done.
  - intros r. rewrite E3. split; [lia|apply to_send_nonneg].
  - intros r. unfold pc_of. by rewrite E4.
Qed.

Lemma sends_enqueue r s : sends_ok s -> sends_fine (enqueue_step r s).
Proof.
  intros S. unfold enqueue_step. destruct (requesters s !! r) as [rq|] eqn:Er; [|done].
  assert (Epc : pc_of r s = Some (rq_pc rq)) by (unfold pc_of; by rewrite Er).
  destruct (rq_pc rq) as [| | |ret|ret| | |[]|] eqn:Ec; try done.
  - apply sends_access. intros q. apply sends_acquire. unfold gsup_request_get. apply sends_access.
    intros q'. intros x. specialize (S x). rewrite pc_goto by (cbn; congruence).
    unfold sends in *. destruct (goto_rest r Enqueued (with_inqueue (r :: inqueue (store r
      (with_refcount (refcount q' + 1) q') (store r (with_mutex (Some (Requester r)) q) s)))
      (store r (with_refcount (refcount q' + 1) q') (store r (with_mutex (Some (Requester r)) q) s))))
      as (_ & -> & _ & -> & _ & _ & ->). cbn.
    destruct (decide (r = x)) as [<-|]; [rewrite Epc in S; cbn in *; lia|exact S].
  - apply sends_access. intros q. apply sends_goto; [by apply (sends_update s)|done].
  - apply sends_access. intros q. apply sends_acquire, sends_goto; [by apply (sends_update s)|done].
  - apply sends_access. intros q. apply sends_acquire, sends_goto; [by apply (sends_update s)|by destruct ret].
  - destruct (remove_first r (inqueue s)) as [l|] eqn:El; [|by apply sends_goto].
    assert (S' : sends_ok (with_inqueue l s)).
    { intros x. specialize (S x). pose proof (remove_first_occ _ _ _ x El) as O.
      pose proof (occ_nonneg x l). pose proof (occ_nonneg x (transmitted s)).
      pose proof (to_send_nonneg x (sender s)).
      unfold sends in *. cbn. change (pc_of x (with_inqueue l s)) with (pc_of x s).
      destruct (decide (r = x)); destruct (not_queued (pc_of x s)); lia. }
    apply sends_put. intros s' ? ? ? ?. apply sends_goto; [by apply (sends_update (with_inqueue l s))|done].
  - apply sends_acquire. destruct (remove_first r (pending s)); [|by apply sends_goto].
    apply sends_put. intros s' ? ? ? ?. apply sends_goto; [by apply (sends_update s)|done].
  - apply sends_put. intros s' ? ? ? ?. apply sends_goto; [by apply (sends_update s)|done].
  - apply sends_access. intros q. apply sends_put. intros s' ? ? ? ?.
    apply sends_goto; [by apply (sends_update s)|done].
Qed.

Lemma signal_sends r s : sends_ok s -> sends_ok (signal r s).
Proof.
  intros S. unfold signal. destruct (requesters s !! r) as [rq|]; [|done].
  destruct (rq_pc rq); try done. by apply sends_goto.
Qed.

Lemma signal_sender r s : sender (signal r s) = sender s.
Proof.
  unfold signal. destruct (requesters s !! r) as [rq|]; [|done]. destruct (rq_pc rq); try done.
  by destruct (goto_rest r (Waking false) s) as (_ & _ & _ & -> & _).
Qed.

(** Steps of the sender that neither dequeue nor send. *)
Lemma sends_with_sender pc s :
  sends_ok s -> (forall r, to_send r pc <= to_send r (sender s)) -> sends_ok (with_sender pc s).
Proof.
  intros S P. apply (sends_same s); try done. intros r. split; [apply P|apply to_send_nonneg].
Qed.

Lemma sends_worker ok s : sends_ok s -> sends_fine (queue_worker_step ok s).
Proof.
  intros S. unfold queue_worker_step. destruct (sender s) as [|r|r|r|r|r|r|] eqn:Es; try done.
  - destruct (reverse (inqueue s)) as [|r l] eqn:El; [done|]. intros x. specialize (S x).
    unfold sends in *. rewrite Es in S. rewrite <-(occ_reverse x (inqueue s)), El in S.
    change (pc_of x (with_sender (Dequeued r) (with_inqueue (reverse l) s))) with (pc_of x s).
    cbn in *. rewrite occ_reverse. unfold same. case_bool_decide; destruct (decide (r = x)); congruence || lia.
  - apply sends_access. intros q. destruct (lock q).
    + apply sends_put. intros s' ? ? E ?. apply sends_with_sender; [by apply (sends_update s)|].
      intros x. rewrite E. apply to_send_nonneg.
    + apply sends_with_sender; [by apply (sends_update s)|]. intros x. cbn. by rewrite Es.
  - apply sends_access. intros q. destruct ok.
    + intros x. specialize (S x). unfold sends in *. rewrite Es in S.
      change (pc_of x (with_sender (Sent r) (with_transmitted (r :: transmitted s) s))) with (pc_of x s).
      cbn in *. unfold same in S. case_bool_decide; destruct (decide (r = x)); congruence || lia.
    + apply sends_with_sender; [by apply (sends_update s)|]. intros x. cbn. rewrite Es. apply to_send_nonneg.
  - apply sends_acquire, sends_with_sender; [by apply (sends_update s)|]. intros x. cbn. by rewrite Es.
  - apply sends_access. intros q. apply sends_with_sender; [by apply (sends_update s)|]. intros x. cbn. by rewrite Es.
  - apply sends_access. intros q. apply sends_acquire, sends_with_sender.
    + apply signal_sends. by apply (sends_update s).
    + intros x. rewrite signal_sender. cbn. by rewrite Es.
  - apply sends_put. intros s' ? ? E ?. apply sends_with_sender; [by apply (sends_update s)|].
    intros x. rewrite E, Es. done.
Qed.

Lemma sends_step a s : sends_ok s -> sends_fine (step a s).
Proof.
  intros S. destruct a as [r q|r|r t|ok|m|]; cbn.
  - unfold call. destruct (requesters s !! r) eqn:Er; [done|].
    intros x. specialize (S x). unfold sends, pc_of in *.
    destruct (encode_request q); cbn;
      (destruct (decide (r = x)) as [<-|]; [rewrite lookup_insert_eq; rewrite Er in S; cbn in *; lia|by rewrite lookup_insert_ne]).
  - by apply sends_enqueue.
  - unfold wake. destruct (requesters s !! r) as [rq|]; [|done]. destruct (rq_pc rq); try done.
    by apply sends_goto.
  - by apply sends_worker.
  - unfold on_recv_pdu. destruct (receiver s); try done. destruct (_ || _); [done|].
    apply sends_acquire. destruct (get_pending _ _ _); [done| |done]. by apply (sends_update s).
  - unfold on_recv_pdu_step. destruct (receiver s); try done.
    + apply sends_access. intros q. destruct (lock q); [|by apply (sends_update s)].
      apply sends_put. intros s' ? ? ? ?. by apply (sends_update s).
    + apply sends_access. intros q. apply sends_acquire.
      apply (sends_update (signal r (store r (with_resp (Some m) q) s))); try done.
      apply signal_sends. by apply (sends_update s).
    + apply sends_access. intros q. by apply (sends_update s).
    + apply sends_put. intros s' ? ? ? ?. by apply (sends_update s).
Qed.

Lemma sends_run actions s s' : sends_ok s -> run actions s = Next s' -> sends_ok s'.
Proof.
  revert s. induction actions as [|a actions IH]; intros s S; cbn; [by intros [= <-]|].
  pose proof (sends_step a s S) as F. destruct (step a s); [by apply IH|by apply IH|done].
Qed.

(** no request is sent twice. *)
Theorem sent_at_most_once actions s :
  run actions gsup_client_create = Next s -> NoDup (transmitted s).
Proof.
  intros E. assert (S : sends_ok s).
  { refine (sends_run _ _ _ _ E). intros r. change (sends r gsup_client_create) with 0.
    destruct (not_queued _); lia. }
  clear E. assert (O : forall r, occ r (transmitted s) <= 1).
  { intros r. specialize (S r). unfold sends in S. pose proof (occ_nonneg r (inqueue s)).
    pose proof (to_send_nonneg r (sender s)). destruct (not_queued _); lia. }
  clear S. induction (transmitted s) as [|x l IH]; constructor.
  - intros Hx%occ_in. specialize (O x). cbn in O. rewrite decide_True in O by done. lia.
  - apply IH. intros r. specialize (O r). cbn in O. destruct (decide _); lia.
Qed.

End Sends.

(** * Blocking *)

Section Blocking.
Context `{Gsup}.
Implicit Types s : gsup_client.

(** The caller timed out and has the mutex, the receiver has the lock. *)
Definition deadlocked (r : nat) (m : Gsup_message) s : Prop :=
  receiver s = Locked r m /\ pc_of r s = Some (Locking true)
  /\ exists q, heap s !! r = Some q /\ mutex q = Some (Requester r) /\ lock q = Some Receiver.

(** A step of a thread other than these two on a request. *)
Definition stays (r : nat) (m : Gsup_message) s (x : result) : Prop :=
  match x with Next s' => deadlocked r m s' | _ => True end.

Lemma deadlocked_update r m s s' :
  deadlocked r m s -> receiver s' = receiver s -> pc_of r s' = pc_of r s ->
  (forall q, heap s !! r = Some q -> exists q', heap s' !! r = Some q' /\ mutex q' = mutex q /\ lock q' = lock q) ->
  deadlocked r m s'.
Proof.
  intros (E1 & E2 & q & Eq & M & L) R P Q. unfold deadlocked. rewrite R, P.
  repeat split; try done. destruct (Q q Eq) as (q' & ? & M' & L'). exists q'. by rewrite M', L'.
Qed.

Lemma pc_goto_ne x pc s r : x <> r -> pc_of r (goto x pc s) = pc_of r s.
Proof.
  intros N. unfold goto, pc_of. destruct (requesters s !! x); [|done]. cbn. by rewrite lookup_insert_ne.
Qed.

Lemma stays_goto r m s x pc : x <> r -> deadlocked r m s -> deadlocked r m (goto x pc s).
Proof.
  intros N D. destruct (goto_rest x pc s) as (E1 & _ & _ & _ & E5 & _).
  apply (deadlocked_update r m s); [done|done|by apply pc_goto_ne|]. rewrite E1. eauto.
Qed.

(** A request is only stored again with its mutex and lock, or it is another one. *)
Lemma stays_store r m s x q q' :
  deadlocked r m s -> heap s !! x = Some q ->
  (x = r -> mutex q' = mutex q /\ lock q' = lock q) -> deadlocked r m (store x q' s).
Proof.
  intros D E K. apply (deadlocked_update r m s); [done|done|done|]. intros q0 E0. cbn.
  destruct (decide (x = r)) as [->|]; [|rewrite lookup_insert_ne by done; by exists q0].
  rewrite lookup_insert_eq. rewrite E in E0. injection E0 as <-. exists q'. by destruct (K eq_refl).
Qed.

Lemma stays_put r m s x f :
  deadlocked r m s -> (forall q, heap s !! r = Some q -> refcount q <> 1) ->
  (forall s', deadlocked r m s' -> stays r m s (f s')) -> stays r m s (gsup_request_put x s f).
Proof.
  intros D N F. unfold gsup_request_put, access. destruct (heap s !! x) as [q|] eqn:E; [|done].
  destruct (refcount q =? 1) eqn:C; bool_to_prop; apply F.
  - apply (deadlocked_update r m s); [done|done|done|]. intros q0 E0. exists q0. cbn.
    rewrite lookup_delete_ne; [done|]. intros ->. apply (N q); congruence.
  - eapply stays_store; [done|exact E|done].
Qed.

Lemma stays_access r m s x f :
  (forall q, heap s !! x = Some q -> stays r m s (f q)) -> stays r m s (access x s f).
Proof. intros F. unfold access. destruct (heap s !! x) eqn:E; [by apply F|done]. Qed.

(** Whoever else gives back a reference, the caller and the receiver have theirs. *)
Lemma deadlocked_shared r m s q : wf s -> deadlocked r m s -> heap s !! r = Some q -> 1 < refcount q.
Proof.
  intros W (E1 & E2 & _) Eq. specialize (W r). rewrite Eq, E2, E1 in W. destruct W as [W _].
  unfold queue_refs in W. rewrite E1 in W. cbn in W. rewrite same_refl in W.
  pose proof (occ_nonneg r (inqueue s)). pose proof (occ_nonneg r (pending s)).
  pose proof (sender_refs_nonneg r (sender s)). lia.
Qed.

Lemma deadlocked_caller r m s : deadlocked r m s -> enqueue_step r s = Blocked.
Proof.
  intros (E1 & E2 & q & Eq & M & L). unfold enqueue_step, pc_of in *.
  destruct (requesters s !! r) as [rq|]; [|done]. cbn in E2. injection E2 as ->.
  unfold access. rewrite Eq. unfold acquire. by rewrite L.
Qed.


Lemma deadlocked_receiver r m s : deadlocked r m s -> on_recv_pdu_step s = Blocked.
Proof.
  intros (E1 & E2 & q & Eq & M & L). unfold on_recv_pdu_step. rewrite E1.
  unfold signal_request, access. rewrite Eq. unfold acquire. by rewrite M.
Qed.

Lemma deadlocked_waiting r m s x rq :
  deadlocked r m s -> requesters s !! x = Some rq -> rq_pc rq <> Locking true -> x <> r.
Proof. intros (_ & E & _) R N ->. unfold pc_of in E. rewrite R in E. cbn in E. congruence. Qed.

Lemma stays_signal r m s x : deadlocked r m s -> deadlocked r m (signal x s).
Proof.
  intros D. unfold signal. destruct (requesters s !! x) as [rq|] eqn:E; [|done].
  destruct (rq_pc rq) eqn:P; try done. apply stays_goto; [|done].
  eapply deadlocked_waiting; [done|done|congruence].
Qed.

Lemma deadlocked_same r m s s' :
  deadlocked r m s -> receiver s' = receiver s -> requesters s' = requesters s -> heap s' = heap s ->
  deadlocked r m s'.
Proof.
  intros D E1 E2 E3. apply (deadlocked_update r m s); [done|done| |].
  - unfold pc_of. by rewrite E2.
  - rewrite E3. eauto.
Qed.

Lemma stays_enqueue r m s x : wf s -> deadlocked r m s -> stays r m s (enqueue_step x s).
Proof.
  intros W D. destruct (decide (x = r)) as [->|N]; [by rewrite (deadlocked_caller r m s)|].
  assert (Sh : forall q, heap s !! r = Some q -> refcount q <> 1).
  { intros q Eq. pose proof (deadlocked_shared r m s q W D Eq). lia. }
  assert (Put : forall s' s0 pc, deadlocked r m s' -> heap s' !! r = heap s !! r ->
    stays r m s0 (gsup_request_put x s' (fun s => Next (goto x pc s)))).
  { intros s' s0 pc D' H'. refine (stays_put r m s' x _ D' _ _); [by rewrite H'|].
    intros s2 D2. by apply stays_goto. }
  assert (St : forall s0 q, deadlocked r m s0 -> deadlocked r m (store x q s0)).
  { intros s0 q D0. apply (deadlocked_update r m s0); [done|done|done|]. intros q0 E0. cbn.
    rewrite lookup_insert_ne by done. eauto. }
  unfold enqueue_step. destruct (requesters s !! x) as [rq|]; [|done].
  destruct (rq_pc rq) as [| | |ret|ret| | |[]|]; try done.
  - apply stays_access. intros q _. destruct (mutex q); [done|]. cbn. unfold gsup_request_get, access.
    cbn. rewrite lookup_insert_eq. cbn. apply stays_goto; [done|].
    eapply deadlocked_same; [|done..]. by apply St, St.
  - apply stays_access. intros q _. cbn. by apply stays_goto, St.
  - apply stays_access. intros q _. destruct (mutex q); [done|]. cbn. by apply stays_goto, St.
  - apply stays_access. intros q _. destruct (lock q); [done|]. cbn. by apply stays_goto, St.
  - destruct (remove_first x (inqueue s)); [|by apply stays_goto]. apply Put; [|done].
    by eapply deadlocked_same.
  - destruct (pending_mutex s); [done|]. cbn.
    destruct (remove_first x (pending s)); [|by apply stays_goto]. apply Put; [|done].
    by eapply deadlocked_same.
  - by apply Put.
  - apply stays_access. intros q _. apply Put; [by apply St|]. cbn. by rewrite lookup_insert_ne.
Qed.

Lemma stays_worker r m s ok : wf s -> deadlocked r m s -> stays r m s (queue_worker_step ok s).
Proof.
  intros W D. assert (Sh : forall q, heap s !! r = Some q -> refcount q <> 1).
  { intros q Eq. pose proof (deadlocked_shared r m s q W D Eq). lia. }
  assert (Own : sender_owns r (sender s) = false).
  { destruct D as (E1 & _ & q & Eq & _). specialize (W r). rewrite Eq, E1 in W. cbn in W.
    rewrite same_refl in W. destruct (sender_owns r (sender s)); naive_solver. }
  assert (St : forall x q, x <> r -> deadlocked r m (store x q s)).
  { intros x q N. apply (deadlocked_update r m s); [done|done|done|]. intros q0 E0. cbn.
    rewrite lookup_insert_ne by done. eauto. }
  assert (Put : forall x pc, stays r m s (gsup_request_put x s (fun s => Next (with_sender pc s)))).
  { intros x pc. apply stays_put; [done..|]. intros s' D'. by eapply deadlocked_same. }
  assert (Ne : forall x, same r x = false -> x <> r) by (intros x S ->; by rewrite same_refl in S).
  unfold queue_worker_step. destruct (sender s) as [|x|x|x|x|x|x|]; try done; cbn in Own.
  - destruct (reverse (inqueue s)); [done|]. cbn. by eapply deadlocked_same.
  - apply stays_access. intros q Eq. destruct (lock q) eqn:L; [done|]. cbn.
    assert (x <> r) by (intros ->; destruct D as (_ & _ & q' & ? & _ & ?); congruence).
    by eapply deadlocked_same; [apply (St x)|..].
  - apply stays_access. intros q _. destruct ok; cbn; [by eapply deadlocked_same|].
    by eapply deadlocked_same; [apply (St x), Ne|..].
  - destruct (pending_mutex s); [done|]. cbn. by eapply deadlocked_same.
  - apply stays_access. intros q _. cbn. by eapply deadlocked_same; [apply (St x), Ne|..].
  - apply stays_access. intros q Eq. destruct (mutex q) eqn:L; [done|]. cbn.
    assert (x <> r) by (intros ->; destruct D as (_ & _ & q' & ? & ? & _); congruence).
    eapply deadlocked_same; [|done..]. by apply stays_signal, St.
Qed.

Lemma stays_step r m s a : wf s -> deadlocked r m s -> stays r m s (step a s).
Proof.
  intros W D. destruct a as [x q|x|x t|ok|m'|]; cbn [step].
  - unfold call. destruct (requesters s !! x) eqn:E; [done|].
    assert (x <> r) by (destruct D as (_ & P & _); unfold pc_of in P; intros ->; by rewrite E in P).
    destruct (encode_request q); (apply (deadlocked_update r m s); [done|done| |]).
    1, 3: unfold pc_of; cbn; by rewrite lookup_insert_ne.
    all: intros q' Eq; cbn; rewrite ?lookup_insert_ne by done; eauto.
  - by apply stays_enqueue.
  - unfold wake. destruct (requesters s !! x) as [rq|] eqn:E; [|done].
    destruct (rq_pc rq) eqn:P; try done. apply stays_goto; [|done].
    eapply deadlocked_waiting; [done|done|congruence].
  - by apply stays_worker.
  - destruct D as (E & _). unfold on_recv_pdu. by rewrite E.
  - by rewrite (deadlocked_receiver r m s).
Qed.

Lemma stays_run r m s s' actions :
  wf s -> deadlocked r m s -> run actions s = Next s' -> deadlocked r m s'.
Proof.
  revert s. induction actions as [|a actions IH]; intros s W D; cbn; [by intros [= <-]|].
  pose proof (stays_step r m s a W D) as T. pose proof (step_safe a s W) as V.
  destruct (step a s); [by apply IH|by apply IH|done].
Qed.

End Blocking.

(** * Single steps *)

Section Steps.
Context `{Gsup}.
Implicit Types s : gsup_client.

(** What the steps for a request [r] look at. *)
Record at_ (r : nat) (q : gsup_request_t) (l p : list nat) (pm : option thread) (pc : requester_pc)
    (sd : sender_pc) (rc : receiver_pc) s : Prop := At {
  at_heap : heap s !! r = Some q;
  at_inqueue : inqueue s = l;
  at_pending : pending s = p;
  at_mutex : pending_mutex s = pm;
  at_pc : pc_of r s = Some pc;
  at_sender : sender s = sd;
  at_receiver : receiver s = rc;
}.

(** The actions are possible one after the other and lead to [P]. *)
Fixpoint leads (actions : list action) (P : gsup_client -> Prop) s : Prop :=
  match actions with
  | [] => P s
  | a :: actions => exists s', step a s = Next s' /\ leads actions P s'
  end.

Lemma leads_run actions P s : leads actions P s -> exists s', run actions s = Next s' /\ P s'.
Proof.
  revert s. induction actions as [|a actions IH]; intros s; cbn; [by exists s|].
  intros (s' & -> & L). by apply IH.
Qed.

Lemma leads_cons a actions (P Q : gsup_client -> Prop) s :
  leads [a] Q s -> (forall s', Q s' -> leads actions P s') -> leads (a :: actions) P s.
Proof. intros (s' & E & Hq) K. exists s'. split; [done|]. by apply K. Qed.

Lemma at_requester r q l p pm pc sd rc s :
  at_ r q l p pm pc sd rc s -> exists rq, requesters s !! r = Some rq /\ rq_pc rq = pc.
Proof.
  intros [_ _ _ _ E _ _]. unfold pc_of in E. destruct (requesters s !! r) as [rq|]; [|done].
  exists rq. cbn in E. by injection E.
Qed.

(** The state after the caller moved on. *)
Lemma at_goto r q l p pm pc pc' sd rc s :
  at_ r q l p pm pc sd rc s -> at_ r q l p pm pc' sd rc (goto r pc' s).
Proof.
  intros A. destruct (at_requester _ _ _ _ _ _ _ _ _ A) as (rq & E & _).
  destruct (goto_rest r pc' s) as (E1 & E2 & E3 & E4 & E5 & E6 & _). destruct A.
  split; try congruence. rewrite pc_goto by congruence. by rewrite decide_True.
Qed.

Lemma at_store r q q' l p pm pc sd rc s :
  at_ r q l p pm pc sd rc s -> at_ r q' l p pm pc sd rc (store r q' s).
Proof. intros []. split; try done. cbn. by rewrite lookup_insert_eq. Qed.

Lemma at_with_sender r q l p pm pc sd sd' rc s :
  at_ r q l p pm pc sd rc s -> at_ r q l p pm pc sd' rc (with_sender sd' s).
Proof. by intros []. Qed.

Lemma at_with_receiver r q l p pm pc sd rc rc' s :
  at_ r q l p pm pc sd rc s -> at_ r q l p pm pc sd rc' (with_receiver rc' s).
Proof. by intros []. Qed.

Ltac at_solve :=
  repeat first [ eassumption | eapply at_goto | eapply at_store | eapply at_with_sender | eapply at_with_receiver ].

Section Caller.
Context (r : nat) (q : gsup_request_t) (l p : list nat) (pm : option thread) (sd : sender_pc) (rc : receiver_pc).

Ltac caller :=
  let A := fresh "A" in
  intros A; destruct (at_requester _ _ _ _ _ _ _ _ _ A) as (rq & Er & Ep); eexists; cbn [step];
  unfold enqueue_step, wake; rewrite Er, Ep; unfold access, acquire; rewrite ?(at_heap _ _ _ _ _ _ _ _ _ A).

Lemma step_created s :
  mutex q = None -> at_ r q l p pm Created sd rc s ->
  leads [Enqueue r] (at_ r (with_refcount (refcount q + 1) (with_mutex (Some (Requester r)) q))
                       (r :: l) p pm Enqueued sd rc) s.
Proof.
  intros M. caller. rewrite M. unfold gsup_request_get, access. cbn. rewrite lookup_insert_eq.
  split; [done|]. eapply at_goto. destruct A. split; try done; cbn; [by rewrite lookup_insert_eq|congruence].
Qed.

Lemma step_enqueued s :
  at_ r q l p pm Enqueued sd rc s ->
  leads [Enqueue r] (at_ r (with_mutex None q) l p pm Waiting sd rc) s.
Proof. caller. split; [done|at_solve]. Qed.

Lemma step_wake t s : at_ r q l p pm Waiting sd rc s -> leads [Wake r t] (at_ r q l p pm (Waking t) sd rc) s.
Proof. caller. split; [done|at_solve]. Qed.

Lemma step_waking t s :
  mutex q = None -> at_ r q l p pm (Waking t) sd rc s ->
  leads [Enqueue r] (at_ r (with_mutex (Some (Requester r)) q) l p pm (Locking t) sd rc) s.
Proof. intros M. caller. rewrite M. split; [done|at_solve]. Qed.

Lemma step_locking s :
  lock q = None -> at_ r q l p pm (Locking false) sd rc s ->
  leads [Enqueue r] (at_ r (with_lock (Some (Requester r)) q) l p pm (Returning false) sd rc) s.
Proof. intros M. caller. rewrite M. split; [done|at_solve]. Qed.

Lemma step_returning s :
  at_ r q l p pm (Returning false) sd rc s ->
  leads [Enqueue r] (fun s => pc_of r s = Some (Finished (resp q))) s.
Proof.
  caller. unfold gsup_request_put, access. cbn. rewrite lookup_insert_eq. split; [done|].
  rewrite pc_goto; [by rewrite decide_True|]. cbn. destruct (refcount q =? 1); cbn; congruence.
Qed.

End Caller.

Section Threads.
Context (r : nat) (q : gsup_request_t) (l p : list nat) (pm : option thread) (pc : requester_pc)
  (sd : sender_pc) (rc : receiver_pc).

Ltac other :=
  let A := fresh "A" in
  intros A; eexists; cbn [step leads]; unfold queue_worker_step, on_recv_pdu, on_recv_pdu_step, signal_request;
  rewrite ?(at_sender _ _ _ _ _ _ _ _ _ A), ?(at_receiver _ _ _ _ _ _ _ _ _ A),
          ?(at_mutex _ _ _ _ _ _ _ _ _ A), ?(at_inqueue _ _ _ _ _ _ _ _ _ A),
          ?(at_pending _ _ _ _ _ _ _ _ _ A);
  unfold access, acquire; rewrite ?(at_heap _ _ _ _ _ _ _ _ _ A).

Lemma step_dequeue ok s :
  at_ r q (l ++ [r]) p pm pc Dequeue rc s -> leads [Work ok] (at_ r q l p pm pc (Dequeued r) rc) s.
Proof.
  other. rewrite reverse_snoc. split; [done|]. rewrite reverse_involutive. by destruct A.
Qed.

Lemma step_dequeued ok s :
  lock q = None -> at_ r q l p pm pc (Dequeued r) rc s ->
  leads [Work ok] (at_ r (with_lock (Some Sender) q) l p pm pc (Sending r) rc) s.
Proof. intros L. other. rewrite L. split; [done|at_solve]. Qed.

Lemma step_sending s :
  at_ r q l p pm pc (Sending r) rc s -> leads [Work true] (at_ r q l p pm pc (Sent r) rc) s.
Proof. other. split; [done|]. by destruct A. Qed.

Lemma step_sent ok s :
  at_ r q l p None pc (Sent r) rc s -> leads [Work ok] (at_ r q l (p ++ [r]) None pc (Unlocking r) rc) s.
Proof. other. split; [done|]. by destruct A. Qed.

Lemma step_unlocking ok s :
  at_ r q l p pm pc (Unlocking r) rc s -> leads [Work ok] (at_ r (with_lock None q) l p pm pc Dequeue rc) s.
Proof. other. split; [done|at_solve]. Qed.

Lemma step_recv m rest s :
  is_response m = true -> message_type m <> INSERT_DATA_REQUEST ->
  get_pending (heap s) m p = IsFound r rest ->
  at_ r q l p None pc sd Listening s ->
  leads [Recv m] (at_ r q l rest (Some Receiver) pc sd (Found r m)) s.
Proof.
  intros R N%Z.eqb_neq F. other. rewrite N, R. cbn [orb negb]. rewrite F. split; [done|]. by destruct A.
Qed.

Lemma step_found m s :
  lock q = None -> at_ r q l p pm pc sd (Found r m) s ->
  leads [Receive] (at_ r (with_lock (Some Receiver) q) l p None pc sd (Locked r m)) s.
Proof.
  intros L. other. rewrite L. split; [done|]. eapply at_with_receiver.
  destruct A. split; try done. cbn. by rewrite lookup_insert_eq.
Qed.

Lemma step_locked m s :
  mutex q = None -> at_ r q l p pm Waiting sd (Locked r m) s ->
  leads [Receive] (at_ r (with_resp (Some m) q) l p pm (Waking false) sd (Signalled r)) s.
Proof.
  intros M. other. rewrite M. split; [done|]. eapply at_with_receiver.
  destruct (at_requester _ _ _ _ _ _ _ _ _ A) as (rq & Er & Ep). unfold signal. cbn.
  rewrite Er, Ep. at_solve.
Qed.

Lemma step_signalled s :
  at_ r q l p pm pc sd (Signalled r) s ->
  leads [Receive] (at_ r (with_lock None q) l p pm pc sd (Unreferencing r)) s.
Proof. other. split; [done|at_solve]. Qed.

Lemma step_unreferencing s :
  1 < refcount q -> at_ r q l p pm pc sd (Unreferencing r) s ->
  leads [Receive] (at_ r (with_refcount (refcount q - 1) q) l p pm pc sd Listening) s.
Proof.
  intros C. other. unfold gsup_request_put, access. rewrite (at_heap _ _ _ _ _ _ _ _ _ A).
  replace (refcount q =? 1) with false by lia. split; [done|at_solve].
Qed.

End Threads.
End Steps.

(** * Delivery and deadlock *)

Section Delivery.
Context `{Gsup}.
Implicit Types s : gsup_client.

(** One action by a lemma of a single step, from what is known of the state. *)
Tactic Notation "act" uconstr(L) constr(A) :=
  eapply leads_cons; [eapply L; [.. | exact A]; try done|].

(** In every reachable state where a caller waits, its request is the first pending
    one that matches a message, and the request and the receiver are free, that message
    is delivered: the receiver takes the request, signals its caller and gives back its
    reference, and the call returns the message. *)
Theorem response_delivered actions s r q m rest :
  run actions gsup_client_create = Next s ->
  pc_of r s = Some Waiting -> heap s !! r = Some q -> mutex q = None -> lock q = None ->
  receiver s = Listening -> pending_mutex s = None ->
  is_response m = true -> message_type m <> INSERT_DATA_REQUEST ->
  get_pending (heap s) m (pending s) = IsFound r rest ->
  exists s', run [Recv m; Receive; Receive; Receive; Receive; Enqueue r; Enqueue r; Enqueue r] s = Next s'
    /\ pc_of r s' = Some (Finished (Some m)).
Proof.
  intros E P Hq M L Rc Pm R N F. apply leads_run.
  destruct (run_safe actions _ wf_create) as (s0 & E0 & W). rewrite E in E0. injection E0 as <-.
  assert (C : 1 < refcount q).
  { specialize (W r). rewrite Hq, P in W. destruct W as [W _]. unfold queue_refs in W. cbn in W.
    pose proof (get_pending_spec (heap s) m (pending s)) as O. rewrite F in O. destruct O as [_ O].
    specialize (O r). rewrite decide_True in O by done.
    pose proof (occ_nonneg r (inqueue s)). pose proof (occ_nonneg r rest).
    pose proof (sender_refs_nonneg r (sender s)). pose proof (receiver_refs_nonneg r (receiver s)). lia. }
  assert (A : at_ r q (inqueue s) (pending s) None Waiting (sender s) Listening s) by by split.
  act step_recv A. intros s1 A1.
  act step_found A1. intros s2 A2.
  act step_locked A2. intros s3 A3.
  act step_signalled A3. intros s4 A4.
  act step_unreferencing A4. intros s5 A5.
  act step_waking A5. intros s6 A6.
  act step_locking A6. intros s7 A7.
  act step_returning A7. by intros s8 A8.
Qed.

(** The interleaving that blocks: the response arrives while the caller, timed out, has
    not taken the lock yet. *)
Definition late_response (r : nat) (q : request) (m : Gsup_message) : list action :=
  [Call r q; Enqueue r; Enqueue r; Work true; Work true; Work true; Work true; Work true;
   Recv m; Wake r true; Receive; Enqueue r].

Lemma late_response_deadlocks r q m :
  encode_request q <> None ->
  is_response m = true -> message_type m <> INSERT_DATA_REQUEST ->
  matches m (gsup_request_create (type_of q) (who_of q)) = true ->
  exists s, run (late_response r q m) gsup_client_create = Next s /\ deadlocked r m s.
Proof.
  intros I R N M. apply leads_run. unfold late_response.
  eapply (leads_cons _ _ _ (at_ r (gsup_request_create (type_of q) (who_of q)) [] [] None Created Dequeue Listening)).
  { eexists. cbn [step leads]. unfold call. cbn [requesters gsup_client_create]. rewrite lookup_empty.
    destruct (encode_request q); [|done].
    split; [done|]. split; try done; cbn; [by rewrite lookup_insert_eq|]. unfold pc_of. cbn.
    by rewrite lookup_insert_eq. }
  intros s1 A1. act step_created A1.
  intros s2 A2. act step_enqueued A2.
  intros s3 A3. act (step_dequeue _ _ []) A3.
  intros s4 A4. act step_dequeued A4.
  intros s5 A5. act step_sending A5.
  intros s6 A6. act step_sent A6.
  intros s7 A7. act step_unlocking A7.
  intros s8 A8. eapply leads_cons.
  { eapply step_recv; [done|done| |exact A8]. cbn [app get_pending].
    rewrite (at_heap _ _ _ _ _ _ _ _ _ A8).
    match goal with |- context [matches m ?q] => replace (matches m q) with true by (by rewrite <-M) end.
    done. }
  intros s9 A9. act (step_wake _ _ _ _ _ _ _ true) A9.
  intros s10 A10. act step_found A10.
  intros s11 A11. act step_waking A11.
  intros s12 []. split; [done|]. split; [done|]. by eexists.
Qed.

(** C17: a response that arrives when its caller has just timed out can block the client
    for good: the caller has the mutex of the request and waits for its lock, the receiver
    has the lock and waits for the mutex. From then on, whatever else happens, the call
    never returns and no message is received any more. *)
Theorem timeout_blocks_receiver r q m :
  encode_request q <> None ->
  is_response m = true -> message_type m <> INSERT_DATA_REQUEST ->
  matches m (gsup_request_create (type_of q) (who_of q)) = true ->
  exists actions s, run actions gsup_client_create = Next s
    /\ forall more, exists s', run more s = Next s'
        /\ pc_of r s' = Some (Locking true) /\ receiver s' = Locked r m
        /\ enqueue_step r s' = Blocked /\ on_recv_pdu_step s' = Blocked
        /\ forall m', on_recv_pdu m' s' = Blocked.
Proof.
  intros I R N M. destruct (late_response_deadlocks r q m I R N M) as (s & E & D).
  exists (late_response r q m), s. split; [done|]. intros more.
  destruct (run_safe (late_response r q m) _ wf_create) as (s0 & E0 & W).
  rewrite E in E0. injection E0 as <-.
  destruct (run_safe more s W) as (s' & E' & _). exists s'. split; [done|].
  pose proof (stays_run r m s s' more W D E') as D'.
  split; [apply D'|]. split; [apply D'|]. split; [by apply (deadlocked_caller r m)|].
  split; [by apply (deadlocked_receiver r m)|]. intros m'. unfold on_recv_pdu.
  destruct D' as (-> & _). done.
Qed.

End Delivery.

(** * Witnesses *)

Section Demo.

(** The message types of libosmocore, a message being its type and IMSI. *)
#[local] Instance demo : Gsup := {
  osmo_gsup_encode o := Some (out_imsi o);
  osmo_apn_from_str := Some;
  OSMO_GSUP_CN_DOMAIN_PS := 1; OSMO_GSUP_CN_DOMAIN_CS := 2;
  Gsup_message := Z * chunk;
  message_type := fst; gsup_imsi := snd;
  SEND_AUTH_INFO_REQUEST := 8; SEND_AUTH_INFO_ERROR := 9; SEND_AUTH_INFO_RESULT := 10;
  UPDATE_LOCATION_REQUEST := 4; UPDATE_LOCATION_ERROR := 5; UPDATE_LOCATION_RESULT := 6;
  EPDG_TUNNEL_REQUEST := 80; EPDG_TUNNEL_ERROR := 81; EPDG_TUNNEL_RESULT := 82;
  INSERT_DATA_REQUEST := 16;
}.

Definition apn1 : chunk := [105; 109; 115].
Definition imsi1 : chunk := [50; 54; 50; 52; 50; 48; 48; 48; 48; 48; 48; 48; 48; 48; 49].

Definition answer : Gsup_message := (10, imsi1).

Definition waiting : list action :=
  [Call 0 (SendAuthRequest imsi1 1 None None (Some apn1) 33); Enqueue 0; Enqueue 0; Work true; Work true; Work true; Work true; Work true].
Definition answered : list action :=
  [Recv answer; Receive; Receive; Receive; Receive; Enqueue 0; Enqueue 0; Enqueue 0].

Definition state_after (actions : list action) : gsup_client :=
  match run actions gsup_client_create with Next s => s | _ => gsup_client_create end.

Lemma response_belongs_to_caller_witness :
  Recv answer ∈ waiting ++ answered
  /\ take IMSI_LEN (c_string imsi1) = take IMSI_LEN (c_string imsi1)
  /\ Z.land 10 (Z.lnot 3) = 8.
Proof.
  apply (response_belongs_to_caller (waiting ++ answered) (state_after (waiting ++ answered)) 0
           {| rq_pc := Finished (Some answer); rq_type := 8; rq_imsi := imsi1 |} answer).
  - vm_compute. reflexivity.
  - vm_compute. reflexivity.
  - reflexivity.
Defined.

Lemma sent_at_most_once_witness :
  transmitted (state_after waiting) = [0%nat] /\ NoDup (transmitted (state_after waiting)).
Proof.
  split; [vm_compute; reflexivity|].
  apply (sent_at_most_once waiting (state_after waiting)). vm_compute. reflexivity.
Defined.

Lemma response_delivered_witness : exists s',
  run [Recv answer; Receive; Receive; Receive; Receive; Enqueue 0; Enqueue 0; Enqueue 0]
    (state_after waiting) = Next s'
  /\ pc_of 0 s' = Some (Finished (Some answer)).
Proof.
  apply (response_delivered waiting (state_after waiting) 0
    {| msg_type := 8; imsi := imsi1; refcount := 2; mutex := None; lock := None; resp := None |}
    answer []); try (vm_compute; reflexivity).
  vm_compute. discriminate.
Defined.

Lemma timeout_blocks_receiver_witness : exists actions s,
  run actions gsup_client_create = Next s
  /\ forall more, exists s', run more s = Next s'
      /\ pc_of 0 s' = Some (Locking true) /\ receiver s' = Locked 0 answer
      /\ enqueue_step 0 s' = Blocked /\ on_recv_pdu_step s' = Blocked
      /\ forall m', on_recv_pdu m' s' = Blocked.
Proof.
  apply (timeout_blocks_receiver 0 (SendAuthRequest imsi1 1 None None (Some apn1) 33) answer);
    try (vm_compute; reflexivity); vm_compute; discriminate.
Defined.

End Demo.
