(* ===== verification/Hashtable.v ===== *)
(** The hash table of libstrongswan/collections/hashtable.c: an array of items in the
    order of their insertion, and a table of indices into it with triangular probing. *)

From S2P Require Import Prelude.

(** * Parameters *)

Definition MIN_SIZE : Z := 8.
Definition MAX_SIZE : Z := Z.shiftl 1 30.
Definition CAPACITY (size : Z) : Z := size / 3 * 2.
Definition RESIZE_FACTOR : Z := 3.

(** The loop of [hashtable_get_nearest_powerof2] from [i] on. *)
Fixpoint smear (i : Z) (rounds : nat) (n : Z) : Z :=
  match rounds with
  | O => n
  | S rounds => if i <? 32 then smear (u32 (Z.shiftl i 1)) rounds (Z.lor n (Z.shiftr n i)) else n
  end.

Definition hashtable_get_nearest_powerof2 (n : Z) : Z := u32 (smear 1 6 (u32 (n - 1)) + 1).

(** * The table *)

Section Hashtable.
Context {K V : Type} (hash_of : K -> Z) (equals : K -> K -> bool).

(** The key of a removed item is [None]. *)
Record pair_t := Pair { key : option K; value : V; hash : Z }.

(** [items] are the used slots of the array of [capacity] items. *)
Record hashtable := Table {
  count : Z;
  size : Z;
  mask : Z;
  items : list pair_t;
  capacity : Z;
  table : list Z;
}.

Definition items_count (t : hashtable) : Z := Z.of_nat (length (items t)).

Definition with_count c t := Table c (size t) (mask t) (items t) (capacity t) (table t).
Definition with_items i t := Table (count t) (size t) (mask t) i (capacity t) (table t).
Definition with_table x t := Table (count t) (size t) (mask t) (items t) (capacity t) x.

(** The width of an index in the table. *)
Definition index_bits (t : hashtable) : Z :=
  if capacity t <=? 255 then 8 else if capacity t <=? 65535 then 16 else 32.

Definition get_index (t : hashtable) (row : Z) : Z := default 0 (table t !! Z.to_nat row).

Definition set_index (t : hashtable) (row index : Z) : hashtable :=
  with_table (<[Z.to_nat row := wrap (index_bits t) index]> (table t)) t.

Definition init_hashtable (t : hashtable) (size : Z) : hashtable :=
  let size := Z.max MIN_SIZE (Z.min size MAX_SIZE) in
  let size := hashtable_get_nearest_powerof2 size in
  Table (count t) size (u32 (size - 1)) [] (CAPACITY size) (replicate (Z.to_nat size) 0).

(** The next row and the new value of [p]. *)
Definition get_next (t : hashtable) (row p : Z) : Z * Z :=
  let p := u32 (p + 1) in (Z.land (u32 (row + p)) (mask t), p).

Inductive found := Found (item : nat) | Missing (hash row : Z).

Definition is_pair (t : hashtable) (i : nat) (h : Z) (k : K) : bool :=
  match items t !! i with
  | Some q => match key q with Some k' => (hash q =? h) && equals k k' | None => false end
  | None => false
  end.

Definition is_removed (t : hashtable) (i : nat) : bool :=
  match items t !! i with
  | Some q => match key q with None => true | Some _ => false end
  | None => false
  end.

(** The loop of [find_key]; [removed] is the first row of a removed item. *)
Fixpoint find_loop (fuel : nat) (t : hashtable) (k : K) (h row p : Z) (removed : option Z) : option found :=
  match fuel with
  | O => None
  | S fuel =>
    let index := get_index t row in
    if index =? 0 then Some (Missing h (default row removed))
    else
      let i := Z.to_nat (index - 1) in
      let '(next, p') := get_next t row p in
      if is_removed t i then
        find_loop fuel t k h next p' (match removed with None => Some row | Some _ => removed end)
      else if is_pair t i h k then Some (Found i)
      else find_loop fuel t k h next p' removed
  end.

(** With [out] the caller wants the hash and row of a missing key. *)
Definition find_key (t : hashtable) (k : K) (out : bool) : option found :=
  if (count t =? 0) && negb out then Some (Missing 0 0)
  else
    let h := hash_of k in
    find_loop (S (length (table t))) t k h (Z.land h (mask t)) 0 None.

(** The new item itself is put in by the caller, at the end of the array. *)
Definition insert_item (t : hashtable) (row : Z) (q : pair_t) : hashtable :=
  with_items (items t ++ [q]) (set_index t row (u32 (items_count t + 1))).

(** The first empty row for an item that is inserted again. *)
Fixpoint free_row (fuel : nat) (t : hashtable) (row p : Z) : option Z :=
  match fuel with
  | O => None
  | S fuel =>
    if get_index t row =? 0 then Some row
    else let '(next, p') := get_next t row p in free_row fuel t next p'
  end.

Fixpoint reinsert (t : hashtable) (old : list pair_t) : option hashtable :=
  match old with
  | [] => Some t
  | q :: old =>
    match key q with
    | None => reinsert t old
    | Some _ =>
      row ← free_row (S (length (table t))) t (Z.land (hash q) (mask t)) 0;
      reinsert (insert_item t row q) old
    end
  end.

(** [None] when the loop does not end, [Some None] when the table is too large. *)
Definition rehash (t : hashtable) (size : Z) : option (option hashtable) :=
  if size >? MAX_SIZE then Some None
  else
    let old := items t in
    let t := init_hashtable t size in
    if negb (count t =? 0) then t ← reinsert t old; Some (Some t) else Some (Some t).

Definition update_item (t : hashtable) (i : nat) (f : pair_t -> pair_t) : hashtable :=
  with_items (alter f i (items t)) t.

(** After the table has room: the value a key had. *)
Definition put_item (t : hashtable) (k : K) (v : V) : option (hashtable * option V) :=
  r ← find_key t k true;
  Some match r with
       | Found i =>
         (update_item t i (fun q => Pair (Some k) v (hash q)), value <$> items t !! i)
       | Missing h row =>
         let t := insert_item t row (Pair (Some k) v h) in
         (with_count (u32 (count t + 1)) t, None)
       end.

Definition put (t : hashtable) (k : K) (v : V) : option (hashtable * option V) :=
  if items_count t >=? capacity t then
    r ← rehash t (u32 (count t * RESIZE_FACTOR));
    match r with
    | Some t => put_item t k v
    | None => Some (t, None)
    end
  else put_item t k v.

Definition get (t : hashtable) (k : K) : option (option V) :=
  r ← find_key t k false;
  Some match r with Found i => value <$> items t !! i | Missing _ _ => None end.

Definition remove_internal (t : hashtable) (i : nat) : hashtable :=
  with_count (u32 (count t - 1)) (update_item t i (fun q => Pair None (value q) (hash q))).

Definition remove_ (t : hashtable) (k : K) : option (hashtable * option V) :=
  r ← find_key t k false;
  Some match r with
       | Found i => (remove_internal t i, value <$> items t !! i)
       | Missing _ _ => (t, None)
       end.

Definition get_count (t : hashtable) : Z := count t.

(** An enumerator is its index: what it returns next, and where it is then. *)
Fixpoint enumerate_from (l : list pair_t) (index : nat) : option (K * V * nat) :=
  match l with
  | [] => None
  | q :: l => match key q with
              | Some k => Some (k, value q, S index)
              | None => enumerate_from l (S index)
              end
  end.

Definition enumerate (t : hashtable) (index : nat) : option (K * V * nat) :=
  enumerate_from (drop index (items t)) index.

(** The item an enumerator returned last. *)
Definition remove_at (t : hashtable) (index : nat) : hashtable :=
  match index with O => t | S i => remove_internal t i end.

(** What [destroy_function] calls its function on, in this order. *)
Definition destroy_function (t : hashtable) : list (V * K) :=
  omap (fun q => k ← key q; Some (value q, k)) (items t).

Definition hashtable_create (size : Z) : hashtable := init_hashtable (Table 0 0 0 [] 0 []) size.

End Hashtable.

Arguments pair_t : clear implicits.
Arguments hashtable : clear implicits.
