(* ===== verification/HashtableSpec.v ===== *)
(** The hash table of [Hashtable] implements a map that keeps the order of insertion:
    probing always ends, every reachable table is well-formed, and the operations are
    those of an ordered association list. *)

From S2P Require Import Prelude Hashtable.

(** * Triangular probing *)

Fixpoint tri (p : nat) : Z :=
  match p with O => 0 | S q => tri q + Z.of_nat p end.

Lemma tri_twice p : 2 * tri p = Z.of_nat p * (Z.of_nat p + 1).
Proof. induction p as [|p IH]; [done|]. cbn [tri]. lia. Qed.

Lemma tri_nonneg p : 0 <= tri p.
Proof. pose proof (tri_twice p). nia. Qed.

(** A power of two that divides a product with an odd factor divides the other. *)
Lemma pow2_divide_odd m a b :
  0 <= m -> a mod 2 = 1 -> (2 ^ m | a * b) -> (2 ^ m | b).
Proof.
  intros Hm Ha. revert b. pattern m. apply natlike_ind; [|clear m Hm|done].
  - intros b _. exists b. lia.
  - intros m Hm IH b [c Hc]. rewrite Z.pow_succ_r in * by done.
    assert (b mod 2 = 0).
    { assert (E : (a * b) mod 2 = 0).
      { rewrite Hc. replace (c * (2 * 2 ^ m)) with (c * 2 ^ m * 2) by ring. apply Z.mod_mul. lia. }
      rewrite Z.mul_mod, Ha in E by lia. rewrite Z.mul_1_l, Z.mod_mod in E by lia. done. }
    assert (Eb : b = 2 * (b / 2)) by (pose proof (Z.div_mod b 2 ltac:(lia)); lia).
    destruct (IH (b / 2)) as [d Hd]; [exists c; nia|]. exists d. lia.
Qed.

(** Rows repeat only after as many probes as the table has rows. *)
Lemma tri_injective n i j :
  0 <= n -> (i < j)%nat -> Z.of_nat j < 2 ^ n -> (tri j - tri i) mod 2 ^ n <> 0.
Proof.
  intros Hn Hij Hj E. apply Z.mod_divide in E as [c Hc]; [|lia].
  set (a := Z.of_nat j - Z.of_nat i). set (b := Z.of_nat j + Z.of_nat i + 1).
  assert (P : a * b = c * 2 ^ (n + 1)).
  { rewrite Z.pow_add_r by lia. pose proof (tri_twice i). pose proof (tri_twice j). unfold a, b. lia. }
  assert (L : 2 ^ (n + 1) = 2 * 2 ^ n) by (rewrite Z.pow_add_r by lia; lia).
  assert (D : forall x y, x * y = a * b -> x mod 2 = 1 -> 0 < y < 2 ^ (n + 1) -> False).
  { intros x y Exy Ox Ry. assert (Dv : (2 ^ (n + 1) | y)).
    { apply (pow2_divide_odd (n + 1) x); [lia|done|]. exists c. lia. }
    apply Z.divide_pos_le in Dv; lia. }
  assert (O : a mod 2 = 1 \/ b mod 2 = 1).
  { unfold a, b. div_lia. }
  destruct O as [O|O]; [apply (D a b)|apply (D b a)]; unfold a, b in *; lia.
Qed.

(** * The size of a table *)


(** A bit of the result is set if one of the [i] bits from it on was. *)
Definition smeared (i n m : Z) : Prop := forall j, 0 <= j ->
  Z.testbit m j = true <-> exists t, j <= t < j + i /\ Z.testbit n t = true.

Lemma smear_round i n m :
  0 < i -> smeared i n m -> smeared (2 * i) n (Z.lor m (Z.shiftr m i)).
Proof.
  intros Hi S j Hj. rewrite Z.lor_spec, Z.shiftr_spec, orb_true_iff, (S j), (S (j + i)) by lia.
  split.
  - intros [(t & ? & ?)|(t & ? & ?)]; exists t; split; by lia || done.
  - intros (t & ? & ?). destruct (decide (t < j + i)); [left|right]; exists t; split; by lia || done.
Qed.

Lemma nearest_powerof2_spec n : 1 < n <= 2 ^ 31 -> hashtable_get_nearest_powerof2 n = 2 ^ Z.log2_up n.
Proof.
  intros Hn. unfold hashtable_get_nearest_powerof2. rewrite (wrap_small 32 (n - 1)) by lia.
  rewrite Z.log2_up_eqn, <-Z.sub_1_r by lia. set (m := n - 1).
  assert (Rm : 0 < m < 2 ^ 31) by (unfold m; lia).
  assert (Lm : 0 <= Z.log2 m < 31) by (split; [apply Z.log2_nonneg|apply Z.log2_lt_pow2; lia]).
  assert (E : smear 1 6 m = Z.ones (Z.succ (Z.log2 m))).
  { set (r := fun i x => Z.lor x (Z.shiftr x i)).
    change (smear 1 6 m) with (r 16 (r 8 (r 4 (r 2 (r 1 m))))).
    assert (S : smeared 32 m (r 16 (r 8 (r 4 (r 2 (r 1 m)))))).
    { assert (S0 : smeared 1 m m).
      { intros j Hj. split; [intros B; exists j; split; [lia|done]|].
        intros (t & ? & B). by replace j with t by lia. }
      do 5 (apply smear_round in S0; [|lia]). exact S0. }
    apply Z.bits_inj'. intros j Hj. apply eq_bool_prop_intro. rewrite !Is_true_true, (S j Hj).
    rewrite Z.ones_spec_iff by lia. split.
    - intros (t & ? & B). split; [done|]. apply Z.lt_succ_r.
      destruct (decide (t <= Z.log2 m)); [lia|]. rewrite Z.bits_above_log2 in B; [done|lia|lia].
    - intros [_ L]. exists (Z.log2 m). split; [lia|]. apply Z.bit_log2. lia. }
  rewrite E, Z.ones_equiv. replace (Z.pred (2 ^ Z.succ (Z.log2 m)) + 1) with (2 ^ Z.succ (Z.log2 m)) by lia.
  apply wrap_small. split; [lia|]. apply Z.pow_lt_mono_r; lia.
Qed.

(** The size of a new table: a power of two with room for the wanted number of items. *)
Lemma init_size size :
  0 <= size -> exists n, 3 <= n <= 30
    /\ hashtable_get_nearest_powerof2 (Z.max MIN_SIZE (Z.min size MAX_SIZE)) = 2 ^ n
    /\ Z.min size MAX_SIZE <= 2 ^ n.
Proof.
  intros Hs. assert (M : MAX_SIZE = 2 ^ 30) by reflexivity. unfold MIN_SIZE.
  set (x := Z.max 8 (Z.min size MAX_SIZE)). assert (Rx : 8 <= x <= 2 ^ 30) by (unfold x; rewrite M; lia).
  exists (Z.log2_up x). rewrite nearest_powerof2_spec by lia.
  assert (3 <= Z.log2_up x) by (apply (Z.log2_up_le_mono 8); lia).
  assert (Z.log2_up x <= 30) by (apply (Z.log2_up_le_mono _ (2 ^ 30)); lia).
  pose proof (Z.log2_up_spec x). unfold x in *. lia.
Qed.

(** * Ordered association lists *)

Section Spec.
Context {K V : Type} (hash_of : K -> Z) (equals : K -> K -> bool).
Context (hash_range : forall k, 0 <= hash_of k < 2 ^ 32).
Context (equals_sym : forall a b, equals a b = true -> equals b a = true).
Context (equals_trans : forall a b c, equals a b = true -> equals b c = true -> equals a c = true).
Context (equals_hash : forall a b, equals a b = true -> hash_of a = hash_of b).

Fixpoint assoc_get (l : list (K * V)) (k : K) : option V :=
  match l with
  | [] => None
  | (k', v) :: l => if equals k k' then Some v else assoc_get l k
  end.

(** The value of a key is replaced where the key is, or appended. *)
Fixpoint assoc_put (l : list (K * V)) (k : K) (v : V) : list (K * V) :=
  match l with
  | [] => [(k, v)]
  | (k', v') :: l => if equals k k' then (k, v) :: l else (k', v') :: assoc_put l k v
  end.

Fixpoint assoc_remove (l : list (K * V)) (k : K) : list (K * V) :=
  match l with
  | [] => []
  | (k', v') :: l => if equals k k' then l else (k', v') :: assoc_remove l k
  end.

(** No key twice. *)
Fixpoint distinct (l : list (K * V)) : Prop :=
  match l with
  | [] => True
  | (k, _) :: l => Forall (fun e => equals k e.1 = false) l /\ distinct l
  end.

Definition absent (k : K) (l : list (K * V)) : Prop := Forall (fun e => equals k e.1 = false) l.

Lemma equals_sym_false a b : equals a b = false -> equals b a = false.
Proof. intros E. destruct (equals b a) eqn:E'; [|done]. apply equals_sym in E'. congruence. Qed.

Lemma equals_false a b c : equals a b = true -> equals b c = false -> equals a c = false.
Proof.
  intros E N. destruct (equals a c) eqn:E'; [|done].
  pose proof (equals_trans b a c (equals_sym _ _ E) E'). congruence.
Qed.

Lemma assoc_absent l k :
  absent k l ->
  assoc_get l k = None /\ (forall v, assoc_put l k v = l ++ [(k, v)]) /\ assoc_remove l k = l.
Proof.
  induction 1 as [|[k' v'] l E _ (IH1 & IH2 & IH3)]; [done|]. cbn in *. rewrite E, IH1, IH3.
  split; [done|]. split; [|done]. intros v. by rewrite IH2.
Qed.

Lemma assoc_present l1 l2 k k' v' :
  absent k l1 -> equals k k' = true ->
  assoc_get (l1 ++ (k', v') :: l2) k = Some v'
  /\ (forall v, assoc_put (l1 ++ (k', v') :: l2) k v = l1 ++ (k, v) :: l2)
  /\ assoc_remove (l1 ++ (k', v') :: l2) k = l1 ++ l2.
Proof.
  intros A E. induction A as [|[k1 v1] l E1 _ (IH1 & IH2 & IH3)]; cbn in *; [by rewrite E|].
  rewrite E1, IH1, IH3. split; [done|]. split; [|done]. intros v. by rewrite IH2.
Qed.

Lemma distinct_app l1 l2 :
  distinct (l1 ++ l2) <-> distinct l1 /\ distinct l2 /\ Forall (fun e => absent e.1 l2) l1.
Proof.
  induction l1 as [|[k v] l1 IH]; cbn; [split; [by repeat constructor|by intros (_ & ? & _)]|].
  rewrite Forall_app, IH, Forall_cons. cbn. unfold absent. tauto.
Qed.

(** In a list without repetitions the place of a key is the only one. *)
Lemma distinct_around l1 l2 k k' v' :
  distinct (l1 ++ (k', v') :: l2) -> equals k k' = true -> absent k l1 /\ absent k l2.
Proof.
  intros D E. apply distinct_app in D as (_ & D2 & D3). cbn in D2. destruct D2 as [D2 _]. split.
  - eapply Forall_impl; [exact D3|]. intros [k1 v1] A. cbn in *. apply Forall_cons_1 in A as [A _].
    cbn in A. eapply equals_false; [exact E|]. by apply equals_sym_false.
  - eapply Forall_impl; [exact D2|]. intros [k1 v1] A. cbn in *. by eapply equals_false.
Qed.

Lemma distinct_replace l1 l2 k k' v v' :
  distinct (l1 ++ (k', v') :: l2) -> equals k k' = true -> distinct (l1 ++ (k, v) :: l2).
Proof.
  intros D E. destruct (distinct_around _ _ _ _ _ D E) as [A1 A2].
  apply distinct_app in D as (D1 & D2 & D3). apply distinct_app. cbn in *. split; [done|].
  split; [by destruct D2|]. rewrite Forall_forall in *. intros e He. specialize (D3 e He).
  apply Forall_cons_1 in D3 as [D3 D4]. constructor; [|done]. cbn in *.
  apply equals_sym_false. unfold absent in A1. rewrite Forall_forall in A1. by apply A1.
Qed.

Lemma distinct_delete l1 e l2 : distinct (l1 ++ e :: l2) -> distinct (l1 ++ l2).
Proof.
  intros D. apply distinct_app in D as (D1 & D2 & D3). apply distinct_app. destruct e as [k v].
  cbn in D2. split; [done|]. split; [by destruct D2|].
  eapply Forall_impl; [exact D3|]. intros x A. by apply Forall_cons_1 in A as [_ A].
Qed.

Lemma distinct_snoc l k v : distinct l -> absent k l -> distinct (l ++ [(k, v)]).
Proof.
  intros D A. apply distinct_app. split; [done|]. split; [by repeat constructor|].
  eapply Forall_impl; [exact A|]. intros e E. repeat constructor. by apply equals_sym_false.
Qed.

(** * Well-formed tables *)

Notation hashtable := (hashtable K V).
Implicit Types t : hashtable.

Definition entry (q : pair_t K V) : option (K * V) := k ← key q; Some (k, value q).

Definition contents t : list (K * V) := omap entry (items t).

(** The [p]-th row that is probed for a hash. *)
Definition prow t (h : Z) (p : nat) : Z := Z.land (h + tri p) (mask t).

Definition nonempty t (row : Z) : Prop := get_index t row <> 0.

Definition used t : list Z := filter (nonempty t) (seqZ 0 (size t)).

(** An item can be found from its hash. *)
Definition reached t (h : Z) (i : nat) : Prop :=
  exists p, get_index t (prow t h p) = Z.of_nat i + 1 /\ forall p', (p' < p)%nat -> nonempty t (prow t h p').

(** All but the number of items: the table between two insertions of [rehash]. *)
Record wf_table t : Prop := {
  wt_pow : exists n, 3 <= n <= 30 /\ size t = 2 ^ n;
  wt_mask : mask t = size t - 1;
  wt_capacity : capacity t = CAPACITY (size t);
  wt_rows : Z.of_nat (length (table t)) = size t;
  wt_room : items_count t <= capacity t;
  wt_used : Z.of_nat (length (used t)) <= items_count t;
  wt_index : forall row, 0 <= get_index t row <= items_count t;
  wt_live : forall i q k, items t !! i = Some q -> key q = Some k ->
    hash q = hash_of k /\ reached t (hash_of k) i;
  wt_distinct : distinct (contents t);
}.

Definition wf t : Prop := wf_table t /\ count t = Z.of_nat (length (contents t)).

(** ** Rows *)

Lemma prow_range t h p : wf_table t -> 0 <= prow t h p < size t.
Proof.
  intros W. destruct (wt_pow t W) as (n & Hn & En). unfold prow. rewrite (wt_mask t W), En.
  replace (2 ^ n - 1) with (Z.ones n) by (rewrite Z.ones_equiv; lia).
  rewrite Z.land_ones by lia. apply Z.mod_pos_bound. lia.
Qed.

Lemma size_bound t : wf_table t -> 8 <= size t <= 2 ^ 30.
Proof.
  intros W. destruct (wt_pow t W) as (n & Hn & ->).
  split; [apply (Z.pow_le_mono_r 2 3 n)|apply (Z.pow_le_mono_r 2 n 30)]; lia.
Qed.

Lemma capacity_bound t : wf_table t -> 0 < capacity t < size t.
Proof.
  intros W. rewrite (wt_capacity t W). pose proof (size_bound t W). unfold CAPACITY. div_lia.
Qed.

Lemma get_next_prow t h p :
  wf_table t -> 0 <= h < 2 ^ 32 -> Z.of_nat p < 2 ^ 31 ->
  get_next t (prow t h p) (Z.of_nat p) = (prow t h (S p), Z.of_nat (S p)).
Proof.
  intros W Hh Hp. pose proof (size_bound t W) as B. unfold get_next.
  rewrite (wrap_small 32 (Z.of_nat p + 1)) by lia.
  replace (Z.of_nat p + 1) with (Z.of_nat (S p)) by lia. f_equal.
  pose proof (prow_range t h p W) as R. rewrite wrap_small by lia. unfold prow. cbn [tri].
  destruct (wt_pow t W) as (n & Hn & En). rewrite (wt_mask t W), En.
  replace (2 ^ n - 1) with (Z.ones n) by (rewrite Z.ones_equiv; lia).
  rewrite !Z.land_ones, Zplus_mod_idemp_l by lia. f_equal. lia.
Qed.

Lemma prow_first t h : Z.land h (mask t) = prow t h 0.
Proof. unfold prow. cbn [tri]. by rewrite Z.add_0_r. Qed.

Lemma prow_injective t h i j :
  wf_table t -> (i < j)%nat -> Z.of_nat j < size t -> prow t h i <> prow t h j.
Proof.
  intros W Hij Hj E. destruct (wt_pow t W) as (n & Hn & En). unfold prow in E.
  rewrite (wt_mask t W), En in E.
  replace (2 ^ n - 1) with (Z.ones n) in E by (rewrite Z.ones_equiv; lia).
  rewrite !Z.land_ones in E by lia. apply (tri_injective n i j); [lia|done|lia|].
  replace (tri j - tri i) with ((h + tri j) - (h + tri i)) by lia.
  rewrite Zminus_mod, E, Z.sub_diag. apply Z.mod_0_l. lia.
Qed.

(** The first [n] numbers all have a property, or one of them is the first without. *)
Lemma first_without (P : nat -> Prop) `{forall p, Decision (P p)} n :
  (forall p, (p < n)%nat -> P p) \/ exists m, (m < n)%nat /\ ~ P m /\ forall p, (p < m)%nat -> P p.
Proof.
  induction n as [|n IH]; [left; lia|]. destruct IH as [IH|(m & ? & ? & ?)].
  - destruct (decide (P n)); [left|right; exists n; auto].
    intros x Hx. destruct (decide (x = n)) as [->|]; [done|]. apply IH. lia.
  - right. exists m. split; [lia|done].
Qed.

Lemma nonempty_dec t row : Decision (nonempty t row).
Proof. unfold nonempty. apply _. Defined.

(** Some row that is probed is empty, and it is found within the fuel. *)
Lemma empty_row t h :
  wf_table t -> exists m, Z.of_nat m < size t /\ get_index t (prow t h m) = 0
    /\ forall p, (p < m)%nat -> nonempty t (prow t h p).
Proof.
  intros W. pose proof (size_bound t W) as B.
  destruct (first_without (fun p => nonempty t (prow t h p)) (Z.to_nat (size t))) as [F|(m & Hm & N & F)].
  - exfalso. set (l := (prow t h) <$> seq 0 (Z.to_nat (size t))).
    assert (ND : NoDup l).
    { apply NoDup_alt. intros i j x Ei Ej. unfold l in *. rewrite list_lookup_fmap in *.
      apply fmap_Some in Ei as (a & Ea & ->). apply fmap_Some in Ej as (b & Eb & E).
      apply lookup_seq in Ea as [-> La]. apply lookup_seq in Eb as [-> Lb]. cbn in *.
      destruct (Nat.lt_trichotomy i j) as [L|[L|L]]; [|done|].
      - destruct (fun a b => prow_injective t h _ _ W a b E); lia.
      - destruct (fun a b => prow_injective t h _ _ W a b (eq_sym E)); lia. }
    assert (S : l ⊆+ used t).
    { apply NoDup_submseteq; [done|]. intros x. unfold l, used. rewrite list_elem_of_fmap.
      intros (p & -> & Hp%elem_of_seq). apply list_elem_of_filter. split; [apply F; lia|].
      apply elem_of_seqZ. pose proof (prow_range t h p W). lia. }
    apply submseteq_length in S. unfold l in S. rewrite length_fmap, length_seq in S.
    pose proof (wt_used t W). pose proof (wt_room t W). pose proof (capacity_bound t W). lia.
  - exists m. split; [lia|]. split; [|done]. unfold nonempty in N. lia.
Qed.

(** ** Items and contents *)

Lemma omap_middle (l : list (pair_t K V)) i q :
  l !! i = Some q -> omap entry l = omap entry (take i l) ++ omap entry [q] ++ omap entry (drop (S i) l).
Proof. intros E. rewrite <-!omap_app. f_equal. symmetry. by apply take_drop_middle. Qed.

Lemma contents_alter (l : list (pair_t K V)) i q f :
  l !! i = Some q ->
  omap entry (alter f i l) = omap entry (take i l) ++ omap entry [f q] ++ omap entry (drop (S i) l).
Proof.
  intros E. rewrite (omap_middle (alter f i l) i (f q)).
  - rewrite take_alter, drop_alter, !decide_False by lia. done.
  - rewrite list_lookup_alter, decide_True, E by done. done.
Qed.

Lemma items_entry t i q k :
  items t !! i = Some q -> key q = Some k ->
  contents t = omap entry (take i (items t)) ++ (k, value q) :: omap entry (drop (S i) (items t)).
Proof.
  intros E Ek. unfold contents. rewrite (omap_middle _ _ _ E).
  replace (omap entry [q]) with [(k, value q)]; [done|]. cbn. unfold entry. by rewrite Ek.
Qed.

Lemma absent_omap k (l : list (pair_t K V)) :
  (forall i q k', l !! i = Some q -> key q = Some k' -> equals k k' = false) -> absent k (omap entry l).
Proof.
  intros N. unfold absent. rewrite Forall_forall. intros [k' v'] Hin.
  apply list_elem_of_omap in Hin as (q & Hq & E). apply list_elem_of_lookup in Hq as [i Hi].
  unfold entry in E. destruct (key q) as [k2|] eqn:Ek; [|done]. injection E as <- <-. cbn. eauto.
Qed.

(** ** Searching *)

Lemma is_pair_spec t i h k :
  is_pair equals t i h k = true ->
  exists q k', items t !! i = Some q /\ key q = Some k' /\ hash q = h /\ equals k k' = true.
Proof.
  unfold is_pair. destruct (items t !! i) as [q|]; [|done].
  destruct (key q) as [k'|] eqn:Ek; [|done]. intros E. bool_to_prop. exists q, k'. by repeat split.
Qed.

(** A row where an item can be put. *)
Definition open_row t (h : Z) (row : Z) : Prop :=
  (exists p, row = prow t h p /\ forall p', (p' < p)%nat -> nonempty t (prow t h p'))
  /\ (get_index t row = 0 \/ is_removed t (Z.to_nat (get_index t row - 1)) = true).

Lemma find_loop_spec t k h m fuel : forall p removed,
  wf_table t -> 0 <= h < 2 ^ 32 -> Z.of_nat m < size t -> get_index t (prow t h m) = 0 ->
  (forall p, (p < m)%nat -> nonempty t (prow t h p)) -> (p <= m)%nat -> (m - p < fuel)%nat ->
  (forall row, removed = Some row -> open_row t h row) ->
  exists r, find_loop equals fuel t k h (prow t h p) (Z.of_nat p) removed = Some r /\
    match r with
    | Found i => is_pair equals t i h k = true
    | Missing h' row => h' = h /\ open_row t h row /\
        forall p' i, (p <= p' < m)%nat -> get_index t (prow t h p') = Z.of_nat i + 1 ->
                     is_pair equals t i h k = false
    end.
Proof.
  induction fuel as [|fuel IH]; intros p removed W Hh Hm Z0 N Lp Lf O; [lia|]. cbn [find_loop].
  destruct (decide (p = m)) as [->|Np].
  - rewrite Z0. cbn. eexists. split; [done|]. cbn. split; [done|]. split; [|lia].
    destruct removed as [row|]; cbn; [by apply O|]. split; [|by left]. by exists m.
  - assert (U : nonempty t (prow t h p)) by (apply N; lia).
    pose proof (wt_index t W (prow t h p)) as R. unfold nonempty in U.
    replace (get_index t (prow t h p) =? 0) with false by lia.
    pose proof (size_bound t W) as B. rewrite get_next_prow by (done || lia).
    set (i := Z.to_nat (get_index t (prow t h p) - 1)).
    assert (Here : forall i', get_index t (prow t h p) = Z.of_nat i' + 1 -> i' = i) by (unfold i; lia).
    destruct (is_removed t i) eqn:Rm.
    + destruct (IH (S p) (match removed with None => Some (prow t h p) | Some _ => removed end))
        as (r & E & P); [done..|lia|lia| |].
      { destruct removed as [row|]; intros x [= <-]; [by apply O|]. split; [|by right].
        exists p. split; [done|]. intros. apply N. lia. }
      exists r. split; [exact E|]. destruct r as [|h' row]; [done|]. destruct P as (P1 & P2 & P3).
      split; [done|]. split; [done|]. intros p' i' Hp' E'. destruct (decide (p' = p)) as [->|].
      * rewrite (Here i' E'). unfold is_removed in Rm. unfold is_pair. destruct (items t !! i); [|done].
        by destruct (key _).
      * apply (P3 p'); [lia|done].
    + destruct (is_pair equals t i h k) eqn:Pr; [by eexists|].
      destruct (IH (S p) removed) as (r & E & P); [done..|lia|lia|done|].
      exists r. split; [exact E|]. destruct r as [|h' row]; [done|]. destruct P as (P1 & P2 & P3).
      split; [done|]. split; [done|]. intros p' i' Hp' E'. destruct (decide (p' = p)) as [->|].
      * by rewrite (Here i' E').
      * apply (P3 p'); [lia|done].
Qed.

Lemma rows_nat t : wf_table t -> length (table t) = Z.to_nat (size t).
Proof. intros W. pose proof (wt_rows t W). lia. Qed.

(** The search ends, and finds the item of the key if there is one. *)
Lemma find_key_spec t k out :
  wf t -> exists r, find_key hash_of equals t k out = Some r /\
    match r with
    | Found i => exists q k', items t !! i = Some q /\ key q = Some k' /\ equals k k' = true
    | Missing h row => absent k (contents t) /\ (out = true -> h = hash_of k /\ open_row t (hash_of k) row)
    end.
Proof.
  intros [W C]. unfold find_key. destruct (count t =? 0) eqn:Z0; cbn [andb]; [destruct out; cbn [negb]|].
  2: { eexists. split; [done|]. bool_to_prop. split; [|done].
       destruct (contents t); [constructor|cbn in C; lia]. }
  all: destruct (empty_row t (hash_of k) W) as (m & Hm & Zm & N);
    destruct (find_loop_spec t k (hash_of k) m (S (length (table t))) 0 None) as (r & E & P);
      [done|apply hash_range|done|done|done|lia|rewrite (rows_nat t W); lia|done|];
    rewrite prow_first; exists r; split; [exact E|]; destruct r as [i|h row];
      [destruct (is_pair_spec _ _ _ _ P) as (q & k' & ? & ? & _ & ?); by exists q, k'|];
    destruct P as (-> & P2 & P3); split; [|done];
    apply absent_omap; intros i q k' Ei Ek; destruct (equals k k') eqn:Eq; [|done];
    destruct (wt_live t W i q k' Ei Ek) as [Hh (p & Hp & Np)];
    rewrite <-(equals_hash _ _ Eq) in *;
    assert (Lp : (p < m)%nat) by (destruct (decide (p < m)%nat); [done|];
      destruct (decide (p = m)) as [->|]; [lia|]; assert (X : (m < p)%nat) by lia;
      apply Np in X; unfold nonempty in X; lia);
    pose proof (P3 p i ltac:(lia) Hp) as F; unfold is_pair in F; rewrite Ei, Ek, Hh, Z.eqb_refl, Eq in F; done.
Qed.

(** ** Updates *)

Lemma get_index_set t row x row' :
  0 <= row < Z.of_nat (length (table t)) ->
  get_index (set_index t row x) row'
  = if decide (Z.to_nat row = Z.to_nat row') then wrap (index_bits t) x else get_index t row'.
Proof.
  intros R. unfold get_index, set_index. cbn. destruct (decide _) as [<-|N].
  - rewrite list_lookup_insert_eq by lia. done.
  - by rewrite list_lookup_insert_ne.
Qed.

(** The indices of a table fit its rows, whatever the width. *)
Lemma index_fits t x : 0 <= x <= capacity t -> capacity t < 2 ^ 32 -> wrap (index_bits t) x = x.
Proof. intros. unfold index_bits. case_if; apply wrap_small; lia. Qed.

Section Insert.
Context t (W : wf_table t) (room : items_count t < capacity t).
Context (row : Z) (q : pair_t K V) (k : K) (Eq : key q = Some k) (Eh : hash q = hash_of k).
Context (open : open_row t (hash_of k) row) (missing : absent k (contents t)).

Let t' := insert_item t row q.

Lemma insert_row_range : 0 <= row < size t.
Proof. destruct open as [(p & -> & _) _]. by apply prow_range. Qed.

Lemma insert_index x :
  get_index t' x = if decide (Z.to_nat row = Z.to_nat x) then items_count t + 1 else get_index t x.
Proof.
  pose proof insert_row_range as R. pose proof (wt_rows t W). pose proof (capacity_bound t W) as C.
  pose proof (size_bound t W). assert (0 <= items_count t) by (unfold items_count; lia).
  unfold t', insert_item. change (get_index (with_items ?i ?u) x) with (get_index u x).
  rewrite get_index_set by lia. rewrite (wrap_small 32) by lia. by rewrite index_fits by lia.
Qed.

Lemma insert_nonempty x : nonempty t x -> nonempty t' x.
Proof.
  unfold nonempty. rewrite insert_index. destruct (decide _); [|done]. unfold items_count. lia.
Qed.

Lemma insert_contents : contents t' = contents t ++ [(k, value q)].
Proof.
  unfold t', contents, insert_item. cbn [items with_items]. rewrite omap_app. f_equal.
  cbn. unfold entry. by rewrite Eq.
Qed.

Lemma insert_count : items_count t' = items_count t + 1.
Proof. unfold t', items_count, insert_item. cbn. rewrite length_app. cbn. lia. Qed.

Lemma insert_used : Z.of_nat (length (used t')) <= items_count t + 1.
Proof.
  assert (S : used t' ⊆+ row :: used t).
  { apply NoDup_submseteq; [apply NoDup_filter, NoDup_seqZ|]. intros x [Hx Rx]%list_elem_of_filter.
    destruct (decide (row = x)) as [->|N]; [by left|right]. apply list_elem_of_filter. split; [|done].
    apply elem_of_seqZ in Rx. pose proof insert_row_range. unfold nonempty in *.
    rewrite insert_index, decide_False in Hx by lia. done. }
  apply submseteq_length in S. cbn in S. pose proof (wt_used t W). lia.
Qed.

Lemma insert_live i q' k' :
  items t' !! i = Some q' -> key q' = Some k' -> hash q' = hash_of k' /\ reached t' (hash_of k') i.
Proof.
  intros Ei Ek. unfold t', insert_item in Ei. cbn [items with_items] in Ei.
  apply lookup_app_Some in Ei as [Ei|[L Ei]].
  - destruct (wt_live t W i q' k' Ei Ek) as [Hh (p & Hp & Np)]. split; [done|]. exists p.
    change (prow t') with (prow t). split; [|intros; by apply insert_nonempty, Np].
    rewrite insert_index, decide_False; [done|]. intros Er. destruct open as [_ [Z0|Rm]].
    + unfold get_index in *. rewrite <-Er in Hp. lia.
    + unfold get_index in *. rewrite Er, Hp in Rm.
      replace (Z.to_nat (Z.of_nat i + 1 - 1)) with i in Rm by lia. unfold is_removed in Rm.
      by rewrite Ei, Ek in Rm.
  - apply list_lookup_singleton_Some in Ei as [Ei <-].
    assert (k' = k) as -> by congruence. split; [done|].
    destruct open as [(p & Ep & Np) _]. exists p. change (prow t') with (prow t).
    split; [|intros; by apply insert_nonempty, Np].
    rewrite insert_index, decide_True by (by rewrite Ep). unfold items_count. lia.
Qed.

Lemma insert_wf : wf_table t'.
Proof.
  split; try apply W.
  - unfold t', insert_item. cbn. rewrite length_insert. apply W.
  - rewrite insert_count. cbn. lia.
  - rewrite insert_count. apply insert_used.
  - intros x. rewrite insert_count, insert_index. pose proof (wt_index t W x).
    destruct (decide _); unfold items_count in *; lia.
  - apply insert_live.
  - rewrite insert_contents. apply distinct_snoc; [apply W|done].
Qed.

End Insert.

(** Another item in the place of one: with an equal key, or none. *)
Section Update.
Context t (W : wf_table t) (i : nat) (q : pair_t K V) (k : K).
Context (Ei : items t !! i = Some q) (Ek : key q = Some k).

Lemma update_rest f :
  let t' := update_item t i f in
  (forall k', key (f q) = Some k' -> hash (f q) = hash q /\ equals k' k = true) ->
  distinct (contents t') -> wf_table t'.
Proof.
  intros t' F D. split; try apply W; [| | | |done].
  - unfold items_count. cbn. rewrite length_alter. apply W.
  - unfold items_count. cbn. rewrite length_alter. apply W.
  - unfold items_count. cbn. rewrite length_alter. apply W.
  - intros j q' k' Ej Ek'. cbn in Ej. destruct (decide (j = i)) as [->|N].
    + rewrite list_lookup_alter, decide_True, Ei in Ej by done. injection Ej as <-.
      destruct (F k' Ek') as [-> E]. destruct (wt_live t W i q k Ei Ek) as [H1 H2].
      rewrite (equals_hash _ _ E). by split.
    + rewrite list_lookup_alter, decide_False in Ej by done. by apply (wt_live t W).
Qed.

Lemma update_contents f :
  contents (update_item t i f)
  = omap entry (take i (items t)) ++ omap entry [f q] ++ omap entry (drop (S i) (items t)).
Proof. apply contents_alter. exact Ei. Qed.

End Update.

(** ** Operations *)

Lemma put_item_spec t k v :
  wf t -> items_count t < capacity t -> count t < 2 ^ 32 - 1 ->
  exists t', put_item hash_of equals t k v = Some (t', assoc_get (contents t) k)
    /\ wf t' /\ contents t' = assoc_put (contents t) k v.
Proof.
  intros Wf Rm Cm. destruct (find_key_spec t k true Wf) as (r & E & P). destruct Wf as [W C].
  unfold put_item. rewrite E. destruct r as [i|h row]; cbn [mbind option_bind].
  - destruct P as (q & k' & Ei & Ek & Eq). pose proof (items_entry t i q k' Ei Ek) as Ec.
    pose proof (wt_distinct t W) as D. rewrite Ec in D.
    destruct (distinct_around _ _ _ _ _ D Eq) as [A _].
    destruct (assoc_present _ (omap entry (drop (S i) (items t))) k k' (value q) A Eq) as (G1 & G2 & _).
    rewrite <-Ec in G1, G2. rewrite Ei, G1. cbn [fmap option_fmap option_map].
    eexists. split; [done|]. rewrite G2.
    set (f := fun q => Pair (Some k) v (hash q)).
    assert (Cf : contents (update_item t i f)
                 = omap entry (take i (items t)) ++ (k, v) :: omap entry (drop (S i) (items t)))
      by exact (update_contents t i q Ei f).
    split; [split|exact Cf].
    + apply (update_rest t W i q k' Ei Ek f).
      * intros k2 [= <-]. by split.
      * rewrite Cf. by eapply distinct_replace.
    + rewrite Cf. cbn. rewrite C, Ec, !length_app. done.
  - destruct P as [A O]. destruct (O eq_refl) as [-> Op].
    destruct (assoc_absent _ k A) as (G1 & G2 & _). rewrite G1, G2.
    set (q := Pair (Some k) v (hash_of k)).
    pose proof (insert_contents t row q k eq_refl) as Ci.
    eexists. split; [done|]. split; [split|exact Ci].
    + assert (Wi : wf_table (insert_item t row q)) by exact (insert_wf t W Rm row q k eq_refl eq_refl Op A).
      by destruct Wi.
    + change (contents (with_count ?c ?u)) with (contents u). rewrite Ci. cbn. rewrite length_app. cbn.
      rewrite wrap_small by lia. lia.
Qed.

Lemma free_row_spec t h m fuel : forall p,
  wf_table t -> 0 <= h < 2 ^ 32 -> Z.of_nat m < size t -> get_index t (prow t h m) = 0 ->
  (forall p, (p < m)%nat -> nonempty t (prow t h p)) -> (p <= m)%nat -> (m - p < fuel)%nat ->
  free_row fuel t (prow t h p) (Z.of_nat p) = Some (prow t h m).
Proof.
  induction fuel as [|fuel IH]; intros p W Hh Hm Z0 N Lp Lf; [lia|]. cbn [free_row].
  destruct (decide (p = m)) as [->|Np]; [by rewrite Z0|].
  assert (U : nonempty t (prow t h p)) by (apply N; lia). unfold nonempty in U.
  replace (get_index t (prow t h p) =? 0) with false by lia.
  pose proof (size_bound t W). rewrite get_next_prow by (done || lia). apply IH; done || lia.
Qed.

Lemma reinsert_spec old : forall t,
  wf_table t ->
  (forall q k, q ∈ old -> key q = Some k -> hash q = hash_of k) ->
  distinct (contents t ++ omap entry old) ->
  items_count t + Z.of_nat (length (omap entry old)) <= capacity t ->
  exists t', reinsert t old = Some t' /\ wf_table t' /\ contents t' = contents t ++ omap entry old
    /\ items_count t' = items_count t + Z.of_nat (length (omap entry old))
    /\ count t' = count t /\ capacity t' = capacity t.
Proof.
  induction old as [|q old IH]; intros t W Hq D R; cbn [reinsert omap list_omap] in *.
  { exists t. rewrite app_nil_r. cbn. do 3 (split; [done|]). split; [lia|done]. }
  assert (En : entry q = k ← key q; Some (k, value q)) by done. rewrite En in *. clear En. destruct (key q) as [k|] eqn:Ek; cbn -[free_row] in D, R |- *.
  2: { apply IH; [done| |done|done]. intros q' k' Hin. apply Hq. by right. }
  assert (Eh : hash q = hash_of k) by (apply Hq; [by left|done]).
  destruct (empty_row t (hash_of k) W) as (m & Hm & Zm & N).
  assert (F : free_row (S (length (table t))) t (prow t (hash_of k) 0) 0 = Some (prow t (hash_of k) m)).
  { apply (free_row_spec t (hash_of k) m _ 0); try done; [lia|]. rewrite (rows_nat t W). lia. }
  rewrite Eh, prow_first, F.
  cbn [mbind option_bind].
  assert (Op : open_row t (hash_of k) (prow t (hash_of k) m)) by (split; [by exists m|by left]).
  assert (A : absent k (contents t)).
  { apply distinct_app in D as (_ & _ & D3). eapply Forall_impl; [exact D3|]. intros e He.
    apply Forall_cons_1 in He as [He _]. by apply equals_sym_false. }
  assert (Rm : items_count t < capacity t) by lia.
  pose proof (insert_wf t W Rm _ q k Ek Eh Op A) as W'.
  pose proof (insert_contents t (prow t (hash_of k) m) q k Ek) as C'.
  pose proof (insert_count t (prow t (hash_of k) m) q) as I'.
  destruct (IH _ W') as (t' & E & Wt & Ct & It & Nt & Pt).
  - intros q' k' Hin. apply Hq. by right.
  - rewrite C', <-app_assoc. exact D.
  - rewrite I'. change (capacity (insert_item t (prow t (hash_of k) m) q)) with (capacity t). lia.
  - exists t'. split; [exact E|]. split; [done|]. rewrite Ct, C', <-app_assoc. split; [done|].
    rewrite It, I', Nt, Pt. split; [lia|done].
Qed.

Lemma init_wf t n :
  0 <= n -> wf_table (init_hashtable t n) /\ contents (init_hashtable t n) = []
    /\ items_count (init_hashtable t n) = 0 /\ Z.min n MAX_SIZE <= size (init_hashtable t n).
Proof.
  intros Hn. destruct (init_size n Hn) as (e & He & Es & Ls). unfold init_hashtable. rewrite Es.
  assert (B : 2 ^ 3 <= 2 ^ e <= 2 ^ 30) by (split; apply Z.pow_le_mono_r; lia).
  split; [|by repeat split].
  assert (G : forall row, get_index (Table (count t) (2 ^ e) (u32 (2 ^ e - 1)) [] (CAPACITY (2 ^ e))
    (replicate (Z.to_nat (2 ^ e)) 0) : hashtable) row = 0).
  { intros row. unfold get_index. cbn [table]. destruct (replicate _ _ !! _) as [x|] eqn:E; [|done].
    by apply lookup_replicate in E as [-> _]. }
  split; cbn [size mask capacity items table]; try done.
  - by exists e.
  - apply wrap_small. lia.
  - rewrite length_replicate. lia.
  - unfold items_count, CAPACITY. cbn. div_lia.
  - unfold used. assert (N : forall l, filter (nonempty (Table (count t) (2 ^ e) (u32 (2 ^ e - 1)) []
      (CAPACITY (2 ^ e)) (replicate (Z.to_nat (2 ^ e)) 0) : hashtable)) l = []).
    { intros l. induction l as [|x l IH]; [done|]. rewrite filter_cons_False; [done|].
      intros X. apply X, G. }
    rewrite N. done.
  - intros row. rewrite G. done.
Qed.

Lemma rehash_spec t :
  wf t -> 3 * count t <= 2 ^ 30 ->
  exists t', rehash t (u32 (count t * RESIZE_FACTOR)) = Some (Some t') /\ wf t'
    /\ contents t' = contents t /\ items_count t' < capacity t' /\ count t' = count t.
Proof.
  intros [W C] B. assert (0 <= count t) by lia. unfold RESIZE_FACTOR. rewrite wrap_small by lia.
  unfold rehash. change MAX_SIZE with (2 ^ 30). replace (count t * 3 >? 2 ^ 30) with false by lia.
  destruct (init_wf t (count t * 3)) as (W1 & C1 & I1 & S1); [lia|]. cbn zeta.
  set (t1 := init_hashtable t (count t * 3)) in *.
  assert (N1 : count t1 = count t) by done.
  pose proof (wt_capacity t1 W1) as P1. change MAX_SIZE with (2 ^ 30) in S1.
  pose proof (size_bound t1 W1) as B1. unfold CAPACITY in P1.
  assert (Rm : count t1 < capacity t1) by div_lia.
  destruct (negb (count t1 =? 0)) eqn:Z0; bool_to_prop.
  - destruct (reinsert_spec (items t) t1 W1) as (t' & E & W' & C' & I' & N' & P').
    + intros q k [i Hi]%list_elem_of_lookup Ek. by destruct (wt_live t W i q k Hi Ek).
    + rewrite C1. apply (wt_distinct t W).
    + fold (contents t). lia.
    + exists t'. rewrite E. split; [done|]. rewrite C1 in C'. fold (contents t) in C', I'.
      split; [split; [done|rewrite C'; cbn; lia]|]. split; [done|]. lia.
  - exists t1. split; [done|]. assert (E : contents t = []) by (destruct (contents t); cbn in *; [done|lia]).
    rewrite E. split; [split; [done|by rewrite C1]|]. split; [done|]. lia.
Qed.

Lemma put_spec t k v :
  wf t -> 3 * count t <= 2 ^ 30 ->
  exists t', put hash_of equals t k v = Some (t', assoc_get (contents t) k)
    /\ wf t' /\ contents t' = assoc_put (contents t) k v.
Proof.
  intros Wf B. unfold put. destruct (items_count t >=? capacity t) eqn:F; bool_to_prop.
  - destruct (rehash_spec t Wf B) as (t1 & -> & W1 & C1 & R1 & N1). cbn [mbind option_bind].
    rewrite <-C1. apply put_item_spec; [done|done|lia].
  - apply put_item_spec; [done|lia|lia].
Qed.

Lemma get_spec t k : wf t -> get hash_of equals t k = Some (assoc_get (contents t) k).
Proof.
  intros Wf. destruct (find_key_spec t k false Wf) as (r & E & P). destruct Wf as [W C].
  unfold get. rewrite E. cbn [mbind option_bind]. f_equal. destruct r as [i|h row].
  - destruct P as (q & k' & Ei & Ek & Eq). pose proof (items_entry t i q k' Ei Ek) as Ec.
    pose proof (wt_distinct t W) as D. rewrite Ec in D.
    destruct (distinct_around _ _ _ _ _ D Eq) as [A _].
    destruct (assoc_present _ (omap entry (drop (S i) (items t))) k k' (value q) A Eq) as (G & _).
    rewrite <-Ec in G. by rewrite Ei, G.
  - destruct P as [A _]. by destruct (assoc_absent _ k A) as (-> & _).
Qed.

Lemma remove_internal_spec t i q k :
  wf t -> items t !! i = Some q -> key q = Some k ->
  wf (remove_internal t i)
  /\ contents (remove_internal t i) = omap entry (take i (items t)) ++ omap entry (drop (S i) (items t)).
Proof.
  intros [W C] Ei Ek. set (f := fun q : pair_t K V => Pair None (value q) (hash q) : pair_t K V).
  assert (Cf : contents (update_item t i f) = omap entry (take i (items t)) ++ omap entry (drop (S i) (items t)))
    by exact (update_contents t i q Ei f).
  pose proof (items_entry t i q k Ei Ek) as Ec. pose proof (wt_distinct t W) as D. rewrite Ec in D.
  assert (Wu : wf_table (update_item t i f)).
  { apply (update_rest t W i q k Ei Ek f); [done|]. rewrite Cf. by eapply distinct_delete. }
  split; [split|exact Cf]; [by destruct Wu|].
  change (contents (remove_internal t i)) with (contents (update_item t i f)). rewrite Cf.
  cbn. rewrite C, Ec, !length_app. cbn. pose proof (wt_room t W). pose proof (capacity_bound t W).
  pose proof (size_bound t W).
  assert (Le : forall l : list (pair_t K V), (length (omap entry l) <= length l)%nat).
  { intros l. induction l as [|a l IH]; [done|]. cbn. destruct (entry a); cbn; lia. }
  pose proof (Le (items t)) as L. fold (contents t) in L. rewrite Ec, length_app in L. cbn in L.
  unfold items_count in *. rewrite wrap_small by lia. lia.
Qed.

Lemma remove_spec t k :
  wf t -> exists t', remove_ hash_of equals t k = Some (t', assoc_get (contents t) k)
    /\ wf t' /\ contents t' = assoc_remove (contents t) k.
Proof.
  intros Wf. destruct (find_key_spec t k false Wf) as (r & E & P). pose proof Wf as [W C].
  unfold remove_. rewrite E. cbn [mbind option_bind]. destruct r as [i|h row].
  - destruct P as (q & k' & Ei & Ek & Eq). pose proof (items_entry t i q k' Ei Ek) as Ec.
    pose proof (wt_distinct t W) as D. rewrite Ec in D.
    destruct (distinct_around _ _ _ _ _ D Eq) as [A _].
    destruct (assoc_present _ (omap entry (drop (S i) (items t))) k k' (value q) A Eq) as (G1 & _ & G3).
    rewrite <-Ec in G1, G3. rewrite Ei, G1, G3. cbn. eexists. split; [done|].
    by eapply remove_internal_spec.
  - destruct P as [A _]. exists t. by destruct (assoc_absent _ k A) as (-> & _ & ->).
Qed.

(** ** Enumeration *)

Lemma enumerate_from_spec (l : list (pair_t K V)) : forall index,
  match enumerate_from l index with
  | None => omap entry l = []
  | Some (k, v, i) => exists j q, i = S (index + j) /\ l !! j = Some q /\ key q = Some k /\ value q = v
      /\ omap entry (take j l) = []
  end.
Proof.
  induction l as [|q l IH]; intros index; [done|]. cbn. destruct (key q) as [k|] eqn:Ek.
  - exists 0%nat, q. cbn. split; [f_equal; lia|done].
  - specialize (IH (S index)). destruct (enumerate_from l (S index)) as [[[k v] i]|].
    + destruct IH as (j & q' & -> & E1 & E2 & E3 & E4). exists (S j), q'. cbn.
      unfold entry at 1. rewrite Ek. cbn. split; [f_equal; lia|done].
    + unfold entry at 1. rewrite Ek. exact IH.
Qed.

(** What the [n]-th call of an enumerator returns. *)
Fixpoint nth_call (n : nat) t (index : nat) : option (K * V * nat) :=
  match enumerate t index with
  | None => None
  | Some (k, v, i) => match n with O => Some (k, v, i) | S n => nth_call n t i end
  end.

Lemma omap_take_drop i (l : list (pair_t K V)) :
  omap entry l = omap entry (take i l) ++ omap entry (drop i l).
Proof. by rewrite <-omap_app, take_drop. Qed.

Lemma nth_call_spec n t : forall index,
  match nth_call n t index with
  | Some (k, v, i) => exists j q, i = S j /\ items t !! j = Some q /\ key q = Some k /\ value q = v
      /\ length (omap entry (take j (items t))) = (length (omap entry (take index (items t))) + n)%nat
  | None => (length (contents t) <= length (omap entry (take index (items t))) + n)%nat
  end.
Proof.
  induction n as [|n IH]; intros index; cbn [nth_call]; unfold enumerate;
    pose proof (enumerate_from_spec (drop index (items t)) index) as S;
    destruct (enumerate_from (drop index (items t)) index) as [[[k v] i]|].
  2, 4: unfold contents; rewrite (omap_take_drop index), S, length_app; cbn; lia.
  all: destruct S as (j & q & -> & Ej & Ek & Ev & En); rewrite lookup_drop in Ej;
    rewrite take_drop_commute in En.
  - exists (index + j)%nat, q. split; [done|]. do 3 (split; [done|]).
    rewrite (omap_take_drop index (take _ _)), take_take, length_app, En.
    replace (index `min` (index + j))%nat with index by lia. cbn. lia.
  - specialize (IH (S (index + j))). 
    assert (L : length (omap entry (take (S (index + j)) (items t)))
                = S (length (omap entry (take index (items t))))).
    { rewrite (take_S_r _ _ q Ej), omap_app, (omap_take_drop index (take (index + j) _)), take_take.
      rewrite En, !length_app. replace (index `min` (index + j))%nat with index by lia.
      cbn. unfold entry at 2. rewrite Ek. cbn. lia. }
    destruct (nth_call n t (S (index + j))) as [[[k' v'] i']|].
    + destruct IH as (j' & q' & ? & ? & ? & ? & E). exists j', q'. do 4 (split; [done|]). rewrite E, L. lia.
    + rewrite L in IH. lia.
Qed.

(** The [n]-th entry that is enumerated is that of the list, and [remove_at] removes it. *)
Lemma enumerated t n k v i :
  wf t -> nth_call n t 0 = Some (k, v, i) ->
  contents t !! n = Some (k, v) /\ wf (remove_at t i) /\ contents (remove_at t i) = delete n (contents t).
Proof.
  intros Wf E. pose proof (nth_call_spec n t 0) as S. rewrite E in S.
  destruct S as (j & q & -> & Ej & Ek & Ev & L). rewrite take_0 in L. cbn in L. cbn [remove_at].
  destruct (remove_internal_spec t j q k Wf Ej Ek) as [Wr ->].
  rewrite (items_entry t j q k Ej Ek), Ev. split; [|split; [done|]].
  - rewrite <-L. by apply list_lookup_middle.
  - rewrite <-L. symmetry. by apply delete_middle.
Qed.

Lemma enumerated_end t n : nth_call n t 0 = None -> contents t !! n = None.
Proof.
  intros E. pose proof (nth_call_spec n t 0) as S. rewrite E, take_0 in S. cbn in S. apply lookup_ge_None. lia.
Qed.

(** * Sequences of operations *)

Inductive op :=
| Put (k : K) (v : V)
| Get (k : K)
| Remove (k : K)
| Nth (n : nat)          (** what the [n]-th call of a new enumerator returns *)
| RemoveNth (n : nat).   (** [remove_at] after this call *)

Inductive answer := Value (v : option V) | Entry (e : option (K * V)).

Definition perform (o : op) t : option (hashtable * answer) :=
  match o with
  | Put k v => '(t, r) ← put hash_of equals t k v; Some (t, Value r)
  | Get k => r ← get hash_of equals t k; Some (t, Value r)
  | Remove k => '(t, r) ← remove_ hash_of equals t k; Some (t, Value r)
  | Nth n => Some (t, Entry (fst <$> nth_call n t 0))
  | RemoveNth n =>
    Some match nth_call n t 0 with
         | Some (k, v, i) => (remove_at t i, Entry (Some (k, v)))
         | None => (t, Entry None)
         end
  end.

Definition perform_spec (o : op) (l : list (K * V)) : list (K * V) * answer :=
  match o with
  | Put k v => (assoc_put l k v, Value (assoc_get l k))
  | Get k => (l, Value (assoc_get l k))
  | Remove k => (assoc_remove l k, Value (assoc_get l k))
  | Nth n => (l, Entry (l !! n))
  | RemoveNth n => (delete n l, Entry (l !! n))
  end.

Fixpoint perform_all (ops : list op) t : option (hashtable * list answer) :=
  match ops with
  | [] => Some (t, [])
  | o :: ops => '(t, a) ← perform o t; '(t, l) ← perform_all ops t; Some (t, a :: l)
  end.

Fixpoint perform_all_spec (ops : list op) (l : list (K * V)) : list (K * V) * list answer :=
  match ops with
  | [] => (l, [])
  | o :: ops => let '(l, a) := perform_spec o l in let '(l, r) := perform_all_spec ops l in (l, a :: r)
  end.

Lemma perform_refines o t :
  wf t -> 3 * count t <= 2 ^ 30 ->
  exists t', perform o t = Some (t', (perform_spec o (contents t)).2)
    /\ wf t' /\ contents t' = (perform_spec o (contents t)).1.
Proof.
  intros Wf B. destruct o as [k v|k|k|n|n]; cbn.
  - destruct (put_spec t k v Wf B) as (t' & -> & W' & C'). by exists t'.
  - rewrite (get_spec t k Wf). by exists t.
  - destruct (remove_spec t k Wf) as (t' & -> & W' & C'). by exists t'.
  - exists t. split; [|done]. destruct (nth_call n t 0) as [[[k v] i]|] eqn:E.
    + by destruct (enumerated t n k v i Wf E) as (-> & _).
    + by rewrite (enumerated_end t n E).
  - destruct (nth_call n t 0) as [[[k v] i]|] eqn:E.
    + destruct (enumerated t n k v i Wf E) as (-> & ? & ?). by exists (remove_at t i).
    + exists t. rewrite (enumerated_end t n E). split; [done|]. split; [done|].
      pose proof (enumerated_end t n E) as N%lookup_ge_None.
      by rewrite delete_take_drop, take_ge, drop_ge, app_nil_r by lia.
Qed.

Lemma assoc_put_length l k v : (length (assoc_put l k v) <= S (length l))%nat.
Proof. induction l as [|[k' v'] l IH]; cbn; [lia|]. destruct (equals k k'); cbn; lia. Qed.

Lemma assoc_remove_length l k : (length (assoc_remove l k) <= length l)%nat.
Proof. induction l as [|[k' v'] l IH]; cbn; [lia|]. destruct (equals k k'); cbn; lia. Qed.

Lemma perform_spec_length o l : (length (perform_spec o l).1 <= S (length l))%nat.
Proof.
  destruct o as [k v|k|k|n|n]; cbn; try lia.
  - apply assoc_put_length.
  - pose proof (assoc_remove_length l k). lia.
  - pose proof (submseteq_length _ _ (submseteq_delete l n)). lia.
Qed.

Lemma perform_all_refines ops : forall t,
  wf t -> 3 * (count t + Z.of_nat (length ops)) <= 2 ^ 30 ->
  exists t', perform_all ops t = Some (t', (perform_all_spec ops (contents t)).2)
    /\ wf t' /\ contents t' = (perform_all_spec ops (contents t)).1.
Proof.
  induction ops as [|o ops IH]; intros t Wf B; [by exists t|]. cbn in B. cbn [perform_all perform_all_spec].
  destruct (perform_refines o t Wf) as (t1 & -> & W1 & C1); [lia|]. cbn [mbind option_bind].
  pose proof (perform_spec_length o (contents t)) as L. rewrite <-C1 in L.
  destruct (perform_spec o (contents t)) as [l a] eqn:Es. cbn in C1, L |- *.
  destruct (IH t1 W1) as (t2 & -> & W2 & C2).
  { destruct W1 as [_ E1], Wf as [_ E]. rewrite E1. rewrite E in B. lia. }
  cbn [mbind option_bind]. rewrite C1 in *.
  destruct (perform_all_spec ops l) as [l' r]. by exists t2.
Qed.

Lemma create_wf n : 0 <= n -> wf (hashtable_create n) /\ contents (hashtable_create n : hashtable) = [].
Proof.
  intros Hn. destruct (init_wf (Table 0 0 0 [] 0 []) n Hn) as (W & C & _).
  fold (@hashtable_create K V n) in W, C. split; [split; [exact W|by rewrite C]|exact C].
Qed.

(** C12: for every sequence of insertions, lookups, removals and enumerations a hash table
    gives the answers of an association list in the order of insertion, whatever hash
    function and initial size: probing ends, growing and shrinking lose nothing, a key that
    is put again keeps its place, and slots of removed items are reused without hiding
    others. *)
Theorem hashtable_refines_ordered_map n ops :
  0 <= n -> 3 * Z.of_nat (length ops) <= 2 ^ 30 ->
  exists t, perform_all ops (hashtable_create n) = Some (t, (perform_all_spec ops []).2)
    /\ contents t = (perform_all_spec ops []).1 /\ get_count t = Z.of_nat (length (contents t)).
Proof.
  intros Hn B. destruct (create_wf n Hn) as [W C].
  destruct (perform_all_refines ops (hashtable_create n) W) as (t & E & W' & C'); [cbn; lia|].
  rewrite C in *. exists t. split; [exact E|]. split; [exact C'|apply W'].
Qed.

(** C37: every reachable table is well-formed: its size is a power of two between 8 and
    2^30, the items fit the capacity, which is less than the size, every row has the index
    of an item or none, at least one row is empty, and each item that was not removed has
    the hash of its key and is reached from it by probing only rows in use. *)
Theorem hashtable_well_formed n ops t answers :
  0 <= n -> 3 * Z.of_nat (length ops) <= 2 ^ 30 ->
  perform_all ops (hashtable_create n) = Some (t, answers) ->
  (exists e, 3 <= e <= 30 /\ size t = 2 ^ e /\ mask t = 2 ^ e - 1 /\ Z.of_nat (length (table t)) = 2 ^ e)
  /\ items_count t <= capacity t < size t
  /\ (forall row, 0 <= get_index t row <= items_count t)
  /\ (forall h, exists p, Z.of_nat p < size t /\ get_index t (prow t h p) = 0)
  /\ (forall i q k, items t !! i = Some q -> key q = Some k ->
        hash q = hash_of k
        /\ exists p, get_index t (prow t (hash q) p) = Z.of_nat i + 1
             /\ forall p', (p' < p)%nat -> get_index t (prow t (hash q) p') <> 0).
Proof.
  intros Hn B E. destruct (create_wf n Hn) as [W0 C0].
  destruct (perform_all_refines ops (hashtable_create n) W0) as (t' & E' & [W _] & _); [cbn; lia|].
  rewrite E in E'. injection E' as <- _.
  destruct (wt_pow t W) as (e & He & Es). pose proof (capacity_bound t W).
  split; [|split; [|split; [|split]]].
  - exists e. rewrite (wt_mask t W), (wt_rows t W), Es. done.
  - pose proof (wt_room t W). lia.
  - apply W.
  - intros h. destruct (empty_row t h W) as (m & ? & ? & _). by exists m.
  - intros i q k Ei Ek. destruct (wt_live t W i q k Ei Ek) as [-> R]. by split.
Qed.

End Spec.

(** * Witnesses *)

Section Demo.

(** Keys that are equal modulo 300, with a hash that collides. *)
Definition demo_hash (k : Z) : Z := k mod 3.
Definition demo_equals (a b : Z) : bool := a mod 300 =? b mod 300.

Lemma demo_range k : 0 <= demo_hash k < 2 ^ 32.
Proof. unfold demo_hash. pose proof (Z.mod_pos_bound k 3). lia. Qed.

Lemma demo_sym a b : demo_equals a b = true -> demo_equals b a = true.
Proof. unfold demo_equals. lia. Qed.

Lemma demo_trans a b c : demo_equals a b = true -> demo_equals b c = true -> demo_equals a c = true.
Proof. unfold demo_equals. lia. Qed.

Lemma demo_equals_hash a b : demo_equals a b = true -> demo_hash a = demo_hash b.
Proof. unfold demo_equals, demo_hash. intros. bool_to_prop. div_lia. Qed.

Definition demo_ops : list (op (K:=Z) (V:=Z)) :=
  [Put 1 10; Put 4 40; Put 7 70; Put 301 11; Remove 4; Put 13 130; Put 16 160; Put 19 190; Get 7; Get 4;
   Put 22 220; Put 25 250; RemoveNth 1; Nth 1; Get 25].

Lemma hashtable_refines_ordered_map_witness :
  exists t, perform_all demo_hash demo_equals demo_ops (hashtable_create 0)
            = Some (t, (perform_all_spec demo_equals demo_ops []).2)
    /\ contents t = (perform_all_spec demo_equals demo_ops []).1
    /\ get_count t = Z.of_nat (length (contents t)).
Proof.
  apply (hashtable_refines_ordered_map demo_hash demo_equals demo_range demo_sym demo_trans
           demo_equals_hash 0 demo_ops); [lia|vm_compute; discriminate].
Defined.

Definition demo_table : hashtable Z Z * list (answer (K:=Z) (V:=Z)) :=
  default (hashtable_create 0, []) (perform_all demo_hash demo_equals demo_ops (hashtable_create 0)).

Lemma hashtable_well_formed_witness :
  (exists e, 3 <= e <= 30 /\ size demo_table.1 = 2 ^ e /\ mask demo_table.1 = 2 ^ e - 1
             /\ Z.of_nat (length (table demo_table.1)) = 2 ^ e)
  /\ items_count demo_table.1 <= capacity demo_table.1 < size demo_table.1.
Proof.
  destruct (hashtable_well_formed demo_hash demo_equals demo_range demo_sym demo_trans
    demo_equals_hash 0 demo_ops demo_table.1 demo_table.2) as (H1 & H2 & _);
    [lia|vm_compute; discriminate|vm_compute; reflexivity|].
  exact (conj H1 H2).
Defined.

End Demo.
