(* ===== verification/MemPool.v ===== *)
(** The pool of virtual IP addresses of libcharon/attributes/mem_pool.c. The hash table
    of leases is the association list in the order of insertion that [HashtableSpec] shows
    it to be; the entry a caller gets from it and changes is put back under its identity.
    Of the array of leases online the unused room at both ends is modelled, too, since a
    lease is appended to it from a pointer into the same array. *)

From S2P Require Import Prelude Hash Host HashtableSpec.

(** Identities and their comparison, of utils/identification.h. *)
Class Identities := {
  identification_t : Type;
  id_equals : identification_t -> identification_t -> bool;
  id_equals_sym a b : id_equals a b = true -> id_equals b a = true;
  id_equals_trans a b c : id_equals a b = true -> id_equals b c = true -> id_equals a c = true;
  id_equals_refl a : id_equals a a = true;
}.

(** ** Arrays of values, of libstrongswan/collections/array.c *)

Section Array.
Context {A : Type}.

(** The elements, and how many could be added before and behind them without another
    allocation. *)
Record array_t := Array { items : list A; head : Z; tail : Z }.

Definition ARRAY_MAX_UNUSED : Z := 32.

Definition array_create (reserve : Z) : array_t := Array [] 0 reserve.

Definition array_count (a : array_t) : Z := Z.of_nat (length (items a)).

(** Whether [array_insert] makes space for an element at the end by moving the others to
    the head. *)
Definition moves_head (a : array_t) : bool :=
  if negb (head a =? 0) && (tail a =? 0) then true
  else if negb (tail a =? 0) && (head a =? 0) then false
  else negb (array_count a >? array_count a / 2).

(** Whether the memory is allocated anew then ([make_head_room], [make_tail_room]). *)
Definition reallocates (a : array_t) : bool := (if moves_head a then head a else tail a) <? 1.

(** [array_insert] at [ARRAY_TAIL] of a value that is not in the array. *)
Definition array_append (x : A) (a : array_t) : array_t :=
  if moves_head a then Array (items a ++ [x]) (Z.max (head a) 1 - 1) (tail a)
  else Array (items a ++ [x]) (head a) (Z.max (tail a) 1 - 1).

(** [array_insert] at [ARRAY_TAIL] with a pointer to the [i]-th element of the array. The
    pointer is read after the space was made: if the memory was allocated anew that is
    memory already freed, [None]. If the others were moved to the head, the pointer is at
    the element behind the one it was for; the bytes of the last one are still there. *)
Definition array_append_own (i : nat) (a : array_t) : option array_t :=
  if reallocates a then None
  else
    x ← items a !! (if moves_head a then Nat.min (i + 1) (length (items a) - 1) else i)%nat;
    Some (array_append x a).

Definition array_remove (i : nat) (a : array_t) : array_t :=
  let '(h, t) := if Z.of_nat i >? array_count a / 2 then (head a, tail a + 1) else (head a + 1, tail a) in
  let l := delete i (items a) in
  if h + t >? ARRAY_MAX_UNUSED then Array l 0 0 else Array l h t.

End Array.
Arguments array_t : clear implicits.

Section Pool.
Context `{Identities} (hash_key : chunk).

Definition POOL_LIMIT : Z := 4 * 8 - 1.

(** A lease online: its offset, and a hash of the peer's address. *)
Record unique_lease_t := Lease { offset : Z; hash : Z }.

Record entry_t := Entry {
  id : identification_t;
  online : array_t unique_lease_t;
  offline : list Z;
}.

Definition entry_create (id : identification_t) : entry_t := Entry id (array_create 0) [].

Record mem_pool := {
  base : option host_t;
  base_is_network_id : bool;
  size : Z;
  unused : Z;
  leases : list (identification_t * entry_t);
}.

Definition with_leases l (this : mem_pool) : mem_pool :=
  {| base := base this; base_is_network_id := base_is_network_id this; size := size this;
     unused := unused this; leases := l |}.
Definition with_unused n (this : mem_pool) : mem_pool :=
  {| base := base this; base_is_network_id := base_is_network_id this; size := size this;
     unused := n; leases := leases this |}.

Definition leases_get (this : mem_pool) (id : identification_t) : option entry_t :=
  assoc_get id_equals (leases this) id.

Definition leases_put (e : entry_t) (this : mem_pool) : mem_pool :=
  with_leases (assoc_put id_equals (leases this) (id e) e) this.

(** ** Addresses *)

(** The bytes of the address that are counted on. *)
Definition position (family : Z) : nat := if family =? AF_INET6 then 12 else 0.

(** [offset] is an [int] that is compared as an [u_int]. *)
Definition offset2host (pool : mem_pool) (offset : Z) : option host_t :=
  base ← base pool;
  let offset := s32 (offset - 1) in
  if u32 offset >? size pool then None
  else
    let addr := get_address base in
    let at_ := position (get_family base) in
    let pos := be_val (take 4 (drop at_ addr)) in
    let addr := take at_ addr ++ be_bytes 4 (u32 (offset + pos)) ++ drop (at_ + 4) addr in
    host_create_from_chunk (get_family base) addr 0.

Definition host2offset (pool : mem_pool) (addr : host_t) : Z :=
  match base pool with
  | None => -1
  | Some base =>
    if negb (get_family addr =? get_family base) then -1
    else
      let host := get_address addr in
      let base := get_address base in
      let v6 := get_family addr =? AF_INET6 in
      if v6 && negb (memeq (take 12 host) (take 12 base)) then -1
      else
        let host := if v6 then chunk_skip host 12 else host in
        let base := if v6 then chunk_skip base 12 else base in
        let hosti := be_val (take 4 host) in
        let basei := be_val (take 4 base) in
        if hosti >? u32 (basei + size pool) then -1 else s32 (u32 (hosti - basei + 1))
  end.

Definition get_online (this : mem_pool) : Z :=
  foldl (fun count e => u32 (count + Z.of_nat (length (items (online e.2))))) 0 (leases this).

Definition get_offline (this : mem_pool) : Z :=
  foldl (fun count e => u32 (count + Z.of_nat (length (offline e.2)))) 0 (leases this).

Definition hash_addr (addr : option host_t) : Z :=
  match addr with
  | Some addr => SipHash.chunk_hash_inc hash_key (get_address addr) (get_port addr)
  | None => 0
  end.

(** ** Acquiring *)

(** The first online lease of the same peer, with the requested address if there is one. *)
Definition is_reassigned (this : mem_pool) (requested : host_t) (peer : host_t) (lease : unique_lease_t) : bool :=
  (hash lease =? hash_addr (Some peer))
  && (is_anyaddr requested || (offset lease =? u32 (host2offset this requested))).

(** Where it is, too. *)
Fixpoint find_lease (f : unique_lease_t -> bool) (l : list unique_lease_t) : option (nat * unique_lease_t) :=
  match l with
  | [] => None
  | lease :: l => if f lease then Some (O, lease) else prod_map S (fun lease => lease) <$> find_lease f l
  end.

(** [None] if freed memory is read. *)
Definition get_existing (this : mem_pool) (who : identification_t) (requested : host_t)
    (peer : option host_t) : option (mem_pool * Z) :=
  match leases_get this who with
  | None => Some (this, 0)
  | Some entry =>
    (** an offline lease is taken even if its offset was 0, but not returned then *)
    let '(entry, offset_) :=
      match offline entry with
      | current :: rest =>
        (Entry (id entry) (array_append (Lease current (hash_addr peer)) (online entry)) rest, current)
      | [] => (entry, 0)
      end in
    let this := leases_put entry this in
    if negb (offset_ =? 0) then Some (this, offset_)
    else
      match peer with
      | None => Some (this, 0)
      | Some peer =>
        match find_lease (is_reassigned this requested peer) (items (online entry)) with
        | Some (i, lease) =>
          online ← array_append_own i (online entry);
          Some (leases_put (Entry (id entry) online (offline entry)) this, offset lease)
        | None => Some (this, 0)
        end
      end
  end.

(** The entry of an identity, a new one unless there is one, with one more online lease. *)
Definition add_online (this : mem_pool) (who : identification_t) (lease : unique_lease_t) : mem_pool :=
  let entry := default (entry_create who) (leases_get this who) in
  leases_put (Entry (id entry) (array_append lease (online entry)) (offline entry)) this.

Definition get_new (this : mem_pool) (who : identification_t) (peer : option host_t) : mem_pool * Z :=
  if unused this <? size this then
    let this := with_unused (u32 (unused this + 1)) this in
    let offset := u32 (unused this + (if base_is_network_id this then 1 else 0)) in
    (add_online this who (Lease offset (hash_addr peer)), offset)
  else (this, 0).

(** The first offline lease of any identity; entries left without leases are removed. *)
Fixpoint take_offline (l : list (identification_t * entry_t)) : list (identification_t * entry_t) * Z :=
  match l with
  | [] => ([], 0)
  | (k, entry) :: l =>
    let '(entry, offset) :=
      match offline entry with
      | current :: rest => (Entry (id entry) (online entry) rest, current)
      | [] => (entry, 0)
      end in
    let '(l, offset) := if negb (offset =? 0) then (l, offset) else take_offline l in
    let empty := match items (online entry), offline entry with [], [] => true | _, _ => false end in
    (if empty then l else (k, entry) :: l, offset)
  end.

Definition get_reassigned (this : mem_pool) (who : identification_t) (peer : option host_t) : mem_pool * Z :=
  let '(l, offset) := take_offline (leases this) in
  let this := with_leases l this in
  if negb (offset =? 0) then (add_online this who (Lease offset (hash_addr peer)), offset)
  else (this, offset).

Inductive mem_pool_op_t := MEM_POOL_EXISTING | MEM_POOL_NEW | MEM_POOL_REASSIGN.

Definition acquire_address (this : mem_pool) (who : identification_t) (requested : host_t)
    (operation : mem_pool_op_t) (peer : option host_t) : option (mem_pool * option host_t) :=
  if size this =? 0 then Some (this, Some requested)
  else
    match base this with
    | None => Some (this, None)
    | Some b =>
      if negb (get_family requested =? get_family b) then Some (this, None)
      else
        '(this, offset) ←
          match operation with
          | MEM_POOL_EXISTING => get_existing this who requested peer
          | MEM_POOL_NEW => Some (get_new this who peer)
          | MEM_POOL_REASSIGN => Some (get_reassigned this who peer)
          end;
        Some (this, if negb (offset =? 0) then offset2host this offset else None)
    end.

(** ** Releasing *)

(** Where the first lease with the offset is, and whether there are [more]. *)
Fixpoint release_loop (offset_ : Z) (l : list unique_lease_t) : option nat * bool :=
  match l with
  | [] => (None, false)
  | current :: l =>
    if offset current =? offset_ then (Some O, existsb (fun current => offset current =? offset_) l)
    else let '(found, more) := release_loop offset_ l in (S <$> found, more)
  end.

Definition release_address (this : mem_pool) (address : host_t) (who : identification_t) : mem_pool * bool :=
  if negb (size this =? 0) then
    match leases_get this who with
    | Some entry =>
      let offset := u32 (host2offset this address) in
      let '(found, more) := release_loop offset (items (online entry)) in
      match found with
      | Some i =>
        let offline := if negb more then offline entry ++ [offset] else offline entry in
        (leases_put (Entry (id entry) (array_remove i (online entry)) offline) this, true)
      | None => (this, false)
      end
    | None => (this, false)
    end
  else (this, false).

(** What the enumerator returns, in this order. *)
Definition create_lease_enumerator (this : mem_pool) : list (identification_t * option host_t * bool) :=
  concat (map (fun e =>
    map (fun lease => (id e.2, offset2host this (offset lease), true)) (items (online e.2))
    ++ map (fun offset => (id e.2, offset2host this offset, false)) (offline e.2)) (leases this)).

(** ** Creation *)

Definition create_generic : mem_pool :=
  {| base := None; base_is_network_id := false; size := 0; unused := 0; leases := [] |}.

Definition network_id_diff (host : host_t) (hostbits : Z) : Z :=
  if hostbits =? 0 then 0
  else
    let addr := get_address host in
    let last := be_val (take 4 (drop (length addr - 4) addr)) in
    let hostbits := 32 - hostbits in
    Z.shiftr (u32 (Z.shiftl last hostbits)) hostbits.

Definition mem_pool_create (base : option host_t) (bits : Z) : mem_pool :=
  match base with
  | None => create_generic
  | Some b =>
    let addr_bits := if get_family b =? AF_INET then 32 else 128 in
    let bits := Z.max 0 (Z.min bits addr_bits) in
    let bits := addr_bits - bits in
    let bits := if bits >? POOL_LIMIT then POOL_LIMIT else bits in
    let size := u32 (Z.shiftl 1 bits) in
    let '(network_id, size) :=
      if size >? 2 then
        let diff := network_id_diff b bits in
        let '(network_id, size) := if diff =? 0 then (true, u32 (size - 1)) else (false, u32 (size - diff)) in
        (network_id, u32 (size - 1))
      else if negb (network_id_diff b bits =? 0) then (false, u32 (size - 1))
      else (false, size) in
    {| base := Some b; base_is_network_id := network_id; size := size; unused := 0; leases := [] |}
  end.

Definition mem_pool_create_range (from to : host_t) : option mem_pool :=
  let fromaddr := get_address from in
  let toaddr := get_address to in
  if negb (get_family from =? get_family to) || negb (len fromaddr =? len toaddr)
     || (len fromaddr <? 4) || (memcmp fromaddr toaddr >? 0) then None
  else
    let n := (length fromaddr - 4)%nat in
    if (len fromaddr >? 4) && negb (bool_decide (take n fromaddr = take n toaddr)) then None
    else
      let diff := u32 (be_val (take 4 (drop n toaddr)) - be_val (take 4 (drop n fromaddr))) in
      Some {| base := Some from; base_is_network_id := false; size := u32 (diff + 1); unused := 0; leases := [] |}.

End Pool.
