(* ===== verification/MemPoolSpec.v ===== *)
(** What the address pool of [MemPool] guarantees: an address is leased to one identity
    at most, whatever is acquired and released in any order, none is lost, and addresses
    and offsets correspond. *)

From S2P Require Import Prelude Hash Host HashtableSpec MemPool.
Import SipHash(static_key).

Section Spec.
Context `{Identities} (hash_key : chunk).
Implicit Types (this : mem_pool) (e : entry_t) (l : list (identification_t * entry_t)).

(** * Owners of offsets *)

Definition held e : list Z := map offset (items (online e)) ++ offline e.

Definition holds (o : Z) e : Z := if decide (o ∈ held e) then 1 else 0.

Fixpoint owners (o : Z) l : Z :=
  match l with [] => 0 | (_, e) :: l => holds o e + owners o l end.

(** An address is online or offline, and offline once. *)
Record entry_ok e : Prop := {
  offline_once : NoDup (offline e);
  not_both : forall o, o ∈ map offset (items (online e)) -> o ∉ offline e;
}.

(** The difference between the offsets and the number of the address. *)
Definition skip this : Z := if base_is_network_id this then 1 else 0.

Record pool_ok this : Prop := {
  ok_keys : Forall (fun x => x.1 = id x.2 /\ entry_ok x.2) (leases this);
  ok_distinct : distinct id_equals (leases this);
  ok_owners : forall o, owners o (leases this)
    = if decide (skip this < o <= unused this + skip this) then 1 else 0;
  ok_unused : 0 <= unused this <= size this;
  ok_size : size this + skip this < 2 ^ 32;
}.

Lemma holds_range o e : 0 <= holds o e <= 1.
Proof. unfold holds. destruct (decide _); lia. Qed.

Lemma owners_nonneg o l : 0 <= owners o l.
Proof. induction l as [|[k e] l IH]; cbn; [lia|]. pose proof (holds_range o e). lia. Qed.

Lemma owners_app o l1 l2 : owners o (l1 ++ l2) = owners o l1 + owners o l2.
Proof. induction l1 as [|[k e] l1 IH]; cbn; lia. Qed.

Lemma holds_ext o e e' : (o ∈ held e <-> o ∈ held e') -> holds o e = holds o e'.
Proof. intros E. unfold holds. destruct (decide (o ∈ held e)), (decide (o ∈ held e')); tauto. Qed.

Lemma elem_of_map_offset o (x : list unique_lease_t) :
  o ∈ map offset x <-> exists lease, lease ∈ x /\ offset lease = o.
Proof. rewrite list_elem_of_fmap. naive_solver. Qed.

(** ** The entry of an identity *)

Lemma assoc_get_split l k e :
  assoc_get id_equals l k = Some e ->
  exists l1 k' l2, l = l1 ++ (k', e) :: l2 /\ id_equals k k' = true /\ absent id_equals k l1.
Proof.
  induction l as [|[k' e'] l IH]; cbn; [done|]. destruct (id_equals k k') eqn:E.
  - intros [= ->]. exists [], k', l. by repeat constructor.
  - intros (l1 & k2 & l2 & -> & E2 & A)%IH. exists ((k', e') :: l1), k2, l2.
    split; [done|]. split; [done|]. by constructor.
Qed.

Lemma assoc_get_none l k : assoc_get id_equals l k = None -> absent id_equals k l.
Proof.
  induction l as [|[k' e'] l IH]; cbn; [constructor|]. destruct (id_equals k k') eqn:E; [done|].
  intros A. constructor; [done|]. by apply IH.
Qed.

(** Each entry is stored under its identity, once. *)
Definition leases_ok l : Prop :=
  Forall (fun x => x.1 = id x.2 /\ entry_ok x.2) l /\ distinct id_equals l.

Definition entry_of l (who : identification_t) : entry_t :=
  default (entry_create who) (assoc_get id_equals l who).

Lemma entry_create_ok who : entry_ok (entry_create who).
Proof. split; cbn; [constructor|]. intros o Ho. by apply elem_of_nil in Ho. Qed.

Lemma entry_of_ok l who : leases_ok l -> entry_ok (entry_of l who).
Proof.
  intros [K _]. unfold entry_of. destruct (assoc_get id_equals l who) as [e|] eqn:G; cbn.
  - destruct (assoc_get_split _ _ _ G) as (l1 & k' & l2 & -> & _).
    by apply Forall_app in K as [_ [[_ K] _]%Forall_cons_1].
  - apply entry_create_ok.
Qed.

Lemma owners_entry_of o l who : holds o (entry_of l who) <= owners o l.
Proof.
  unfold entry_of. destruct (assoc_get id_equals l who) as [e|] eqn:G; cbn.
  - destruct (assoc_get_split _ _ _ G) as (l1 & k' & l2 & -> & _). rewrite owners_app. cbn.
    pose proof (owners_nonneg o l1). pose proof (owners_nonneg o l2). lia.
  - unfold holds. cbn. rewrite decide_False by apply not_elem_of_nil. apply owners_nonneg.
Qed.

(** Another state of an entry: it is replaced where it is, or appended. *)
Lemma put_entry this who e' :
  leases_ok (leases this) -> entry_ok e' -> id e' = id (entry_of (leases this) who) ->
  leases_ok (leases (leases_put e' this))
  /\ forall o, owners o (leases (leases_put e' this))
               = owners o (leases this) - holds o (entry_of (leases this) who) + holds o e'.
Proof.
  intros [K D] Oe Ei. unfold leases_put, entry_of in *. cbn [leases with_leases].
  destruct (assoc_get id_equals (leases this) who) as [e0|] eqn:G; cbn [default] in *.
  - destruct (assoc_get_split _ _ _ G) as (l1 & k' & l2 & El & Ek & _). rewrite El in *.
    apply Forall_app in K as [K1 [[K2 _] K3]%Forall_cons_1]. cbn in K2.
    assert (Er : id_equals (id e') k' = true) by (rewrite Ei, K2; apply id_equals_refl).
    destruct (distinct_around id_equals id_equals_sym id_equals_trans _ _ _ _ _ D Er) as [A _].
    destruct (assoc_present id_equals l1 l2 (id e') k' e0 A Er) as (_ & -> & _).
    split; [split|].
    + apply Forall_app. split; [done|]. constructor; [done|done].
    + by apply (distinct_replace id_equals id_equals_sym id_equals_trans l1 l2 _ k' _ e0).
    + intros o. rewrite !owners_app. cbn. lia.
  - apply assoc_get_none in G. cbn in Ei. rewrite Ei.
    destruct (assoc_absent id_equals (leases this) who G) as (_ & -> & _). split; [split|].
    + apply Forall_app. split; [done|]. constructor; [done|constructor].
    + by apply (distinct_snoc id_equals id_equals_sym).
    + intros o. rewrite owners_app. cbn. unfold holds at 2. cbn.
      rewrite decide_False by apply not_elem_of_nil. lia.
Qed.

Lemma pool_leases_ok this : pool_ok this -> leases_ok (leases this).
Proof. intros []. by split. Qed.

(** An entry that holds the same addresses. *)
Lemma put_same this who e e' :
  pool_ok this -> leases_get this who = Some e -> entry_ok e' -> id e' = id e ->
  (forall o, o ∈ held e' <-> o ∈ held e) -> pool_ok (leases_put e' this).
Proof.
  intros P G Oe Ei Eh. assert (Ee : entry_of (leases this) who = e).
  { unfold entry_of. unfold leases_get in G. by rewrite G. }
  destruct (put_entry this who e' (pool_leases_ok _ P) Oe) as ([K D] & O); [congruence|].
  destruct P as [_ _ PO PU PS]. split; try done. intros o.
  rewrite O, Ee, (holds_ext o e' e) by apply Eh. rewrite PO. unfold leases_put, skip, with_leases. cbn. lia.
Qed.

Lemma get_put this who e e' :
  leases_ok (leases this) -> leases_get this who = Some e -> id e' = id e ->
  leases_get (leases_put e' this) who = Some e'.
Proof.
  intros [K D] G E. unfold leases_get, leases_put in *. cbn.
  destruct (assoc_get_split _ _ _ G) as (l1 & k' & l2 & El & Ek & A). rewrite El in *.
  apply Forall_app in K as [_ [[K _] _]%Forall_cons_1]. cbn in K.
  assert (Er : id_equals (id e') k' = true) by (rewrite E, K; apply id_equals_refl).
  destruct (distinct_around id_equals id_equals_sym id_equals_trans _ _ _ _ _ D Er) as [A' _].
  destruct (assoc_present id_equals l1 l2 (id e') k' e A' Er) as (_ & -> & _).
  by destruct (assoc_present id_equals l1 l2 who (id e') e') as (-> & _); [|rewrite E, <-K|].
Qed.

(** ** Operations *)

Lemma items_append {A} (x : A) a : items (array_append x a) = items a ++ [x].
Proof. unfold array_append. by destruct (moves_head a). Qed.

Lemma items_remove {A} i (a : array_t A) : items (array_remove i a) = delete i (items a).
Proof. unfold array_remove. destruct (_ >? _); by destruct (_ >? _). Qed.

(** An element appended from the array itself is one of its elements. *)
Lemma array_append_own_spec {A} i (a a' : array_t A) :
  array_append_own i a = Some a' -> exists x, x ∈ items a /\ items a' = items a ++ [x].
Proof.
  unfold array_append_own. destruct (reallocates a); [done|].
  destruct (items a !! _) as [x|] eqn:E; cbn; [|done]. intros [= <-].
  exists x. split; [by apply list_elem_of_lookup_2 in E|apply items_append].
Qed.

Lemma find_lease_elem f (l : list unique_lease_t) i lease : find_lease f l = Some (i, lease) -> lease ∈ l /\ f lease = true.
Proof.
  revert i. induction l as [|a l IH]; intros i; cbn; [done|]. destruct (f a) eqn:F.
  - intros [= <- <-]. split; [by left|done].
  - destruct (find_lease f l) as [[j b]|]; cbn; [|done]. intros [= <- <-].
    destruct (IH j eq_refl). split; [by right|done].
Qed.

(** A lease of an offset that nobody has. *)
Lemma add_online_spec this who lease :
  leases_ok (leases this) -> owners (offset lease) (leases this) = 0 ->
  leases_ok (leases (add_online this who lease))
  /\ forall o, owners o (leases (add_online this who lease))
               = owners o (leases this) + (if decide (o = offset lease) then 1 else 0).
Proof.
  intros L N. unfold add_online. change (default _ _) with (entry_of (leases this) who).
  set (e := entry_of (leases this) who). set (e' := Entry _ _ _).
  assert (Oe : entry_ok e) by by apply entry_of_ok.
  assert (Nh : offset lease ∉ held e).
  { intros Hin. pose proof (owners_entry_of (offset lease) (leases this) who) as B. fold e in B.
    unfold holds in B. rewrite decide_True in B by done. lia. }
  unfold held in Nh. rewrite elem_of_app in Nh.
  assert (Hh : forall o, o ∈ held e' <-> o ∈ held e \/ o = offset lease).
  { intros o. unfold held, e'. cbn. rewrite items_append, map_app, !elem_of_app. cbn.
    rewrite list_elem_of_singleton. tauto. }
  assert (Oe' : entry_ok e').
  { destruct Oe as [O1 O2]. split; [done|]. cbn. intros o. rewrite items_append, map_app, elem_of_app.
    cbn. rewrite list_elem_of_singleton. intros [Ho| ->]; [by apply O2|tauto]. }
  destruct (put_entry this who e' L Oe' eq_refl) as [L' O]. split; [done|]. intros o. rewrite O. fold e.
  unfold holds. specialize (Hh o). unfold held in Hh at 2. rewrite elem_of_app in Hh.
  destruct (decide (o ∈ held e')), (decide (o ∈ held e)), (decide (o = offset lease)) as [->|];
    unfold held in *; rewrite ?elem_of_app in *; try lia; tauto.
Qed.

Lemma get_existing_ok this who requested peer r :
  pool_ok this -> get_existing hash_key this who requested peer = Some r -> pool_ok r.1.
Proof.
  intros P. unfold get_existing. destruct (leases_get this who) as [e|] eqn:G; [|by intros [= <-]].
  assert (Oe : entry_ok e).
  { pose proof (entry_of_ok _ who (pool_leases_ok _ P)) as O. unfold entry_of, leases_get in *. by rewrite G in O. }
  set (x := match offline e with [] => _ | _ => _ end).
  assert (X : entry_ok x.1 /\ id x.1 = id e /\ forall o, o ∈ held x.1 <-> o ∈ held e).
  { unfold x. destruct Oe as [O1 O2]. destruct (offline e) as [|o1 rest] eqn:Ef; cbn.
    - split; [by split; rewrite Ef|]. split; [done|]. done.
    - apply NoDup_cons in O1 as [N1 O1]. split; [split; cbn; [done|]|split; [done|]].
      + intros o. rewrite items_append, map_app, elem_of_app. cbn. rewrite list_elem_of_singleton.
        intros [Ho| ->]; [|done]. apply O2 in Ho. intros Hin. apply Ho. by right.
      + intros o. unfold held. cbn. rewrite Ef, items_append, map_app, !elem_of_app, elem_of_cons. cbn.
        rewrite list_elem_of_singleton. tauto. }
  destruct x as [e1 o1]. cbn in X. destruct X as (X1 & X2 & X3).
  assert (P1 : pool_ok (leases_put e1 this)) by by eapply put_same.
  destruct (negb (o1 =? 0)); [by intros [= <-]|]. destruct peer as [p|]; [|by intros [= <-]].
  destruct (find_lease _ (items (online e1))) as [[i lease]|]; [|by intros [= <-]].
  destruct (array_append_own i (online e1)) as [a|] eqn:Ea; cbn; [|done]. intros [= <-]. cbn.
  apply array_append_own_spec in Ea as (x & Hx & Ea).
  assert (Ho : offset x ∈ map offset (items (online e1))) by (apply elem_of_map_offset; eauto).
  assert (G1 : leases_get (leases_put e1 this) who = Some e1) by by eapply get_put; [apply pool_leases_ok|..].
  eapply put_same; [exact P1|exact G1| |done|].
  - destruct X1 as [O1 O2]. split; [done|]. cbn. intros o. rewrite Ea, map_app, elem_of_app. cbn.
    rewrite list_elem_of_singleton. intros [Hin| ->]; by apply O2.
  - intros o. unfold held. cbn. rewrite Ea, map_app, !elem_of_app. cbn. rewrite list_elem_of_singleton.
    split; [|tauto]. intros [[?| ->]|?]; tauto.
Qed.

Lemma get_new_ok this who peer :
  pool_ok this -> pool_ok (get_new hash_key this who peer).1.
Proof.
  intros P. unfold get_new. destruct (unused this <? size this) eqn:L; [|done]. bool_to_prop. cbn [fst].
  pose proof (ok_unused _ P) as U. pose proof (ok_size _ P) as S.
  assert (Sk : 0 <= skip this <= 1) by (unfold skip; destruct (base_is_network_id this); lia).
  cbn [unused with_unused base_is_network_id]. rewrite (wrap_small 32 (unused this + 1)) by lia.
  fold (skip this). rewrite wrap_small by lia.
  set (lease := Lease _ _). set (this' := with_unused _ _).
  destruct (add_online_spec this' who lease) as [[K D] O].
  - exact (pool_leases_ok _ P).
  - cbn. rewrite (ok_owners _ P), decide_False by lia. done.
  - change (unused this) with (unused this) in *.
    assert (E : forall this l, size (with_leases l this) = size this) by done.
    split; [exact K|exact D| |cbn; lia|exact S].
    intros o. rewrite O. cbn. rewrite (ok_owners _ P).
    change (skip (add_online this' who lease)) with (skip this).
    destruct (decide (skip this < o <= unused this + skip this)),
      (decide (o = unused this + 1 + skip this)),
      (decide (skip this < o <= unused this + 1 + skip this)); lia.
Qed.

Definition no_leases e : bool := match items (online e), offline e with [], [] => true | _, _ => false end.

Lemma no_leases_holds e o : no_leases e = true -> holds o e = 0.
Proof.
  unfold no_leases, holds, held. by destruct (items (online e)), (offline e).
Qed.

(** An entry is kept unless it is left without leases. *)
Lemma keep_entry k e l :
  leases_ok l -> absent id_equals k l -> k = id e -> entry_ok e ->
  let l' := if no_leases e then l else (k, e) :: l in
  leases_ok l' /\ forall o, owners o l' = holds o e + owners o l.
Proof.
  intros [K D] A Ek Oe l'. unfold l'. destruct (no_leases e) eqn:E.
  - split; [by split|]. intros o. by rewrite no_leases_holds.
  - split; [|done]. split; [by constructor|]. by split.
Qed.

Lemma keep_absent k e l k' :
  id_equals k' k = false -> absent id_equals k' l ->
  absent id_equals k' (if no_leases e then l else (k, e) :: l).
Proof. intros. destruct (no_leases e); [done|]. by constructor. Qed.

(** The first offline lease goes, if there is one. *)
Lemma take_offline_spec l :
  leases_ok l -> owners 0 l = 0 ->
  let '(l', o) := take_offline l in
  leases_ok l' /\ (forall k, absent id_equals k l -> absent id_equals k l')
  /\ (o = 0 -> forall x, owners x l' = owners x l)
  /\ (o <> 0 -> 0 < owners o l /\ forall x, owners x l' = owners x l - (if decide (x = o) then 1 else 0)).
Proof.
  induction l as [|[k e] l IH]; intros [K D] Z0; [by repeat constructor|].
  apply Forall_cons in K as [[Ek Oe] K]. cbn in Ek, Oe, D, Z0. destruct D as [A D].
  pose proof (holds_range 0 e). pose proof (owners_nonneg 0 l).
  specialize (IH (conj K D)). cbn. destruct Oe as [O1 O2].
  destruct (offline e) as [|cur rest] eqn:Ef; cbn [Z.eqb negb].
  - destruct (take_offline l) as [l' o]. destruct IH as ((K' & D') & A' & I1 & I2); [lia|].
    assert (Oe : entry_ok e) by (split; by rewrite Ef).
    destruct (keep_entry k e l' (conj K' D') (A' k A) Ek Oe) as [L' O'].
    change (match items (online e) with [] => match offline e with [] => true | _ :: _ => false end | _ :: _ => false end)
      with (no_leases e).
    split; [done|]. split; [|split].
    + intros k' [E Ab]%Forall_cons_1. apply keep_absent; [done|by apply A'].
    + intros Eo x. by rewrite O', I1.
    + intros No. destruct (I2 No) as [P I]. pose proof (holds_range o e). split; [lia|].
      intros x. rewrite O', I. lia.
  - assert (Nc : cur <> 0).
    { intros ->. unfold holds in *. rewrite decide_True in * by (unfold held; rewrite Ef, elem_of_app; right; by left). lia. }
    replace (cur =? 0) with false by lia. cbn [negb].
    apply NoDup_cons in O1 as [N1 O1]. set (e1 := Entry (id e) (online e) rest).
    assert (Oe : entry_ok e1).
    { split; [done|]. cbn. intros o Ho%O2 Hin. apply Ho. by right. }
    assert (Nh : cur ∉ map offset (items (online e))) by (intros Ho%O2; apply Ho; by left).
    assert (Hx : forall x, holds x e1 = holds x e - (if decide (x = cur) then 1 else 0)).
    { intros x. unfold holds, held. cbn [online offline e1]. rewrite Ef.
      destruct (decide (x = cur)) as [->|N];
        destruct (decide _) as [Y1|Y1], (decide _) as [Y2|Y2]; try lia; exfalso;
        rewrite elem_of_app, ?elem_of_cons in *; tauto. }
    destruct (keep_entry k e1 l (conj K D) A Ek Oe) as [L' O'].
    change (match items (online e) with [] => match rest with [] => true | _ :: _ => false end | _ :: _ => false end)
      with (no_leases e1).
    split; [done|]. split; [|split; [done|]].
    + intros k' [E Ab]%Forall_cons_1. by apply keep_absent.
    + intros _. pose proof (owners_nonneg cur l). split.
      * unfold holds. rewrite decide_True; [lia|]. unfold held. rewrite Ef, elem_of_app. right. by left.
      * intros x. rewrite O', Hx. lia.
Qed.

Lemma pool_skip this : 0 <= skip this <= 1.
Proof. unfold skip. destruct (base_is_network_id this); lia. Qed.

Lemma no_zero this : pool_ok this -> owners 0 (leases this) = 0.
Proof. intros P. rewrite (ok_owners _ P), decide_False; [done|]. pose proof (pool_skip this). lia. Qed.

Lemma get_reassigned_ok this who peer :
  pool_ok this -> pool_ok (get_reassigned hash_key this who peer).1.
Proof.
  intros P. unfold get_reassigned.
  pose proof (take_offline_spec (leases this) (pool_leases_ok _ P) (no_zero _ P)) as T.
  destruct (take_offline (leases this)) as [l o]. destruct T as (L & _ & T1 & T2).
  destruct P as [_ _ PO PU PS]. destruct (o =? 0) eqn:E; bool_to_prop; cbn [negb fst].
  - split; try done; try apply L. intros x. cbn. rewrite T1 by done. apply PO.
  - destruct (T2 E) as [Po To]. set (lease := Lease o _).
    destruct (add_online_spec (with_leases l this) who lease) as [[K D] O]; [done| |].
    + cbn. rewrite To, decide_True by done. specialize (PO o). destruct (decide _); lia.
    + split; try done. intros x. rewrite O. cbn. rewrite To, PO.
      change (skip (add_online _ who lease)) with (skip this). lia.
Qed.

Lemma acquire_ok this who requested operation peer r :
  pool_ok this -> acquire_address hash_key this who requested operation peer = Some r -> pool_ok r.1.
Proof.
  intros P. unfold acquire_address. destruct (size this =? 0); [by intros [= <-]|].
  destruct (base this); [|by intros [= <-]]. destruct (negb _); [by intros [= <-]|].
  pose proof (get_existing_ok this who requested peer) as E. pose proof (get_new_ok this who peer P).
  pose proof (get_reassigned_ok this who peer P).
  destruct operation; [destruct (get_existing _ _ _ _ _) as [[p o]|]; cbn; [|done]; specialize (E _ P eq_refl)
    |destruct (get_new _ _ _ _)|destruct (get_reassigned _ _ _ _)]; by intros [= <-].
Qed.

Lemma release_loop_spec o (l : list unique_lease_t) :
  let '(found, more) := release_loop o l in
  let l' := match found with Some i => delete i l | None => l end in
  (forall x, x ∈ map offset l <-> x ∈ map offset l' \/ (x = o /\ found <> None))
  /\ (more = true -> o ∈ map offset l')
  /\ (found <> None -> more = false -> o ∉ map offset l').
Proof.
  induction l as [|c l IH]; cbn; [split; [|done]; intros x; rewrite elem_of_nil; naive_solver|].
  destruct (offset c =? o) eqn:E; bool_to_prop; cbn.
  - split; [|split].
    + intros x. rewrite elem_of_cons, E. naive_solver.
    + rewrite existsb_exists. intros (y & Hy & Ey). bool_to_prop. apply elem_of_map_offset.
      exists y. by rewrite list_elem_of_In.
    + intros _ N Hin. apply elem_of_map_offset in Hin as (y & Hy & Ey).
      assert (X : existsb (fun current => offset current =? o) l = true).
      { apply existsb_exists. exists y. rewrite <-list_elem_of_In, Z.eqb_eq. done. }
      congruence.
  - destruct (release_loop o l) as [[i|] more]; cbn in *; destruct IH as (I1 & I2 & I3).
    + split; [|split].
      * intros x. rewrite !elem_of_cons, I1. naive_solver.
      * intros M. right. auto.
      * intros F M. rewrite not_elem_of_cons. split; [congruence|auto].
    + split; [naive_solver|]. split; [|done]. intros M. right. auto.
Qed.

Lemma release_ok this address who :
  pool_ok this -> pool_ok (release_address this address who).1.
Proof.
  intros P. unfold release_address. destruct (negb (size this =? 0)); [|done].
  destruct (leases_get this who) as [e|] eqn:G; [|done].
  assert (Oe : entry_ok e).
  { pose proof (entry_of_ok _ who (pool_leases_ok _ P)) as O. unfold entry_of, leases_get in *. by rewrite G in O. }
  set (o := u32 (host2offset this address)). pose proof (release_loop_spec o (items (online e))) as R.
  destruct (release_loop o (items (online e))) as [[i|] more]; [|done]. destruct R as (R1 & R2 & R3). cbn [fst].
  destruct Oe as [O1 O2]. eapply put_same; [done|exact G| |done|].
  - destruct more; cbn [negb]; (split; cbn; rewrite ?items_remove; [|]); try done.
    + intros x Hx. apply O2, R1. by left.
    + apply NoDup_app. split; [done|]. split; [|apply NoDup_singleton].
      intros x Hx ->%list_elem_of_singleton. apply (O2 o); [|done]. apply R1. by right.
    + intros x Hx. rewrite elem_of_app, list_elem_of_singleton. intros [Hin| ->].
      * apply (O2 x); [|done]. apply R1. by left.
      * by apply R3.
  - intros x. unfold held. cbn. rewrite items_remove, !elem_of_app.
    destruct more; cbn [negb]; rewrite ?elem_of_app, ?list_elem_of_singleton, R1; naive_solver.
Qed.

(** * Pools *)

Inductive created : mem_pool -> Prop :=
| created_net b bits : host_ok b -> created (mem_pool_create (Some b) bits)
| created_range from to this :
    host_ok from -> host_ok to -> mem_pool_create_range from to = Some this -> created this.

Inductive op :=
| Acquire (who : identification_t) (requested : host_t) (operation : mem_pool_op_t) (peer : option host_t)
| Release (address : host_t) (who : identification_t).

Definition perform (o : op) this : option mem_pool :=
  match o with
  | Acquire who requested operation peer => fst <$> acquire_address hash_key this who requested operation peer
  | Release address who => Some (release_address this address who).1
  end.

(** [None] once an operation has read freed memory. *)
Fixpoint run (ops : list op) this : option mem_pool :=
  match ops with
  | [] => Some this
  | o :: ops => this ← perform o this; run ops this
  end.

(** The last four bytes of an address, which the pool counts on. *)
Definition last4 (b : host_t) : Z := be_val (take 4 (drop (position (sa_family b)) (sin_addr b))).

Definition nth_address (b : host_t) (n : Z) : host_t :=
  Host (sa_family b) (take (position (sa_family b)) (sin_addr b) ++ be_bytes 4 ((last4 b + n) mod 2 ^ 32)) 0.

Lemma position_len b : host_ok b -> length (sin_addr b) = (position (sa_family b) + 4)%nat.
Proof.
  intros [[F|F] L _ _]; rewrite F in *; unfold len in L; cbn in *; unfold IPV4_LEN, IPV6_LEN in L; lia.
Qed.

Lemma last4_drop b : host_ok b -> take 4 (drop (position (sa_family b)) (sin_addr b)) = drop (position (sa_family b)) (sin_addr b).
Proof. intros B. apply take_ge. rewrite length_drop, (position_len b B). lia. Qed.

Lemma last4_range b : host_ok b -> 0 <= last4 b < 2 ^ 32.
Proof.
  intros B. unfold last4. rewrite last4_drop by done.
  pose proof (be_val_range (drop (position (sa_family b)) (sin_addr b))) as R.
  unfold len in R. rewrite length_drop, (position_len b B) in R.
  replace (position (sa_family b) + 4 - position (sa_family b))%nat with 4%nat in R by lia.
  apply R. apply bytes_ok_drop, B.
Qed.

Lemma u32_s32 x : u32 (s32 x) = u32 x.
Proof. unfold wrap, swrap. rewrite <-(Z.mod_mod x) by done. div_lia. Qed.

Lemma nth_address_ok b n : host_ok b -> host_ok (nth_address b n).
Proof.
  intros B. pose proof (position_len b B) as L. destruct B as [F BL BB BP]. split; cbn [sa_family sin_addr sin_port nth_address].
  - done.
  - rewrite <-BL. unfold len. rewrite length_app, length_take, length_be_bytes, L. lia.
  - apply bytes_ok_app. split; [by apply bytes_ok_take|apply be_bytes_ok].
  - lia.
Qed.

Lemma offset2host_spec this b o :
  base this = Some b -> host_ok b -> 1 <= o <= size this + 1 -> size this + 1 < 2 ^ 32 + 1 ->
  offset2host this o = Some (nth_address b (o - 1)).
Proof.
  intros E B Ro Rs. unfold offset2host. rewrite E. cbn [mbind option_bind].
  rewrite u32_s32, wrap_small by lia. replace (o - 1 >? size this) with false by lia.
  rewrite (get_address_ok b B). change (get_family b) with (sa_family b). fold (last4 b).
  assert (Eo : u32 (s32 (o - 1) + last4 b) = (last4 b + (o - 1)) mod 2 ^ 32).
  { rewrite Z.add_comm. unfold wrap. rewrite <-Zplus_mod_idemp_r. fold (u32 (s32 (o - 1))).
    rewrite u32_s32. unfold wrap. by rewrite Zplus_mod_idemp_r. }
  rewrite Eo. pose proof (position_len b B) as L.
  rewrite (drop_ge _ (position (sa_family b) + 4)), app_nil_r by lia.
  pose proof (host_family _ (nth_address_ok b (o - 1) B)) as F.
  pose proof (host_len _ (nth_address_ok b (o - 1) B)) as Ln.
  unfold nth_address in *. cbn [sa_family sin_addr] in *. set (x := _ ++ _) in *.
  assert (T : forall n : Z, len x = n -> take (Z.to_nat n) x = x).
  { intros n <-. apply take_ge. unfold len. lia. }
  unfold host_create_from_chunk. destruct F as [F|F]; rewrite F in *; cbn [Z.eqb AF_INET AF_INET6] in *;
    rewrite Ln; cbn; rewrite T by done; done.
Qed.

Lemma nth_address_inj b i j :
  host_ok b -> 0 <= i < 2 ^ 32 -> 0 <= j < 2 ^ 32 -> nth_address b i = nth_address b j -> i = j.
Proof.
  intros B Hi Hj E. injection E as E. apply app_inv_head in E.
  assert (V : (last4 b + i) mod 2 ^ 32 = (last4 b + j) mod 2 ^ 32).
  { assert (be_val (be_bytes 4 ((last4 b + i) mod 2 ^ 32)) = be_val (be_bytes 4 ((last4 b + j) mod 2 ^ 32))) as V by exact (f_equal be_val E).
    rewrite !be_val_be_bytes in V. change (256 ^ Z.of_nat 4) with (2 ^ 32) in V. by rewrite !Z.mod_mod in V by lia. }
  clear E. pose proof (last4_range b B). div_lia.
Qed.

(** What creation fixes. *)
Record fixed this : Prop := {
  fx_ok : pool_ok this;
  fx_base : exists b, base this = Some b /\ host_ok b;
}.

Lemma empty_pool b (skips : bool) n :
  host_ok b -> 0 <= n -> n + (if skips then 1 else 0) < 2 ^ 32 ->
  fixed {| base := Some b; base_is_network_id := skips; size := n; unused := 0; leases := [] |}.
Proof.
  intros B Hn Hs. split; [|by exists b]. split; cbn; unfold skip; cbn; [constructor|done| |lia|done].
  intros o. rewrite decide_False by lia. done.
Qed.

Lemma network_id_diff_spec b bits :
  host_ok b -> 0 <= bits <= 31 -> network_id_diff b bits = last4 b mod 2 ^ bits.
Proof.
  intros B Hb. unfold network_id_diff. rewrite (get_address_ok b B), (position_len b B).
  replace (position (sa_family b) + 4 - 4)%nat with (position (sa_family b)) by lia. fold (last4 b).
  pose proof (last4_range b B) as R. destruct (bits =? 0) eqn:E; bool_to_prop.
  { subst. by rewrite Z.mod_1_r. }
  rewrite Z.shiftl_mul_pow2, Z.shiftr_div_pow2 by lia. unfold wrap.
  replace (2 ^ 32) with (2 ^ bits * 2 ^ (32 - bits)) by (rewrite <-Z.pow_add_r by lia; f_equal; lia).
  rewrite Z.mul_mod_distr_r by lia. by rewrite Z.div_mul by lia.
Qed.

(** The host bits of a subnet, limited to [POOL_LIMIT]. *)
Definition hostbits (b : host_t) (bits : Z) : Z :=
  let addr_bits := if get_family b =? AF_INET then 32 else 128 in
  Z.min (addr_bits - Z.max 0 (Z.min bits addr_bits)) POOL_LIMIT.

Lemma hostbits_range b bits : 0 <= hostbits b bits <= 31.
Proof. unfold hostbits, POOL_LIMIT. destruct (_ =? _); lia. Qed.

(** The size of a pool of a subnet, and whether its first address is skipped. *)
Lemma create_net b bits :
  host_ok b ->
  let n := 2 ^ hostbits b bits in
  let diff := last4 b mod n in
  exists skips size,
    mem_pool_create (Some b) bits
    = {| base := Some b; base_is_network_id := skips; size := size; unused := 0; leases := [] |}
    /\ (if n >? 2 then if diff =? 0 then skips = true /\ size = n - 2 else skips = false /\ size = n - diff - 1
        else skips = false /\ size = (if diff =? 0 then n else n - 1)).
Proof.
  intros B n diff. pose proof (hostbits_range b bits) as Rb.
  assert (Rn : 1 <= n <= 2 ^ 31).
  { unfold n. split; [change 1 with (2 ^ 0)|]; apply Z.pow_le_mono_r; lia. }
  assert (Rd : 0 <= diff < n) by (apply Z.mod_pos_bound; lia).
  assert (Hh : forall x, (if x >? POOL_LIMIT then POOL_LIMIT else x) = Z.min x POOL_LIMIT).
  { intros x. unfold POOL_LIMIT. case_if; lia. }
  unfold mem_pool_create. cbn zeta. rewrite Hh. fold (hostbits b bits).
  rewrite Z.shiftl_1_l. fold n. rewrite (wrap_small 32 n) by lia.
  rewrite network_id_diff_spec by (done || lia). fold n. fold diff.
  destruct (n >? 2) eqn:E2; destruct (diff =? 0) eqn:E0; cbn [negb]; bool_to_prop;
    cbv zeta; rewrite ?(wrap_small 32 (n - 1)), ?(wrap_small 32 (n - diff)) by lia;
    rewrite ?(wrap_small 32 (n - 1 - 1)), ?(wrap_small 32 (n - diff - 1)) by lia;
    do 2 eexists; (split; [reflexivity|]); split; lia || done.
Qed.

Lemma created_fixed this : created this -> fixed this.
Proof.
  destruct 1 as [b bits B|from to this B T E].
  - destruct (create_net b bits B) as (skips & n & -> & S). pose proof (hostbits_range b bits).
    assert (1 <= 2 ^ hostbits b bits <= 2 ^ 31).
    { split; [change 1 with (2 ^ 0)|]; apply Z.pow_le_mono_r; lia. }
    pose proof (Z.mod_pos_bound (last4 b) (2 ^ hostbits b bits) ltac:(lia)).
    apply empty_pool; [done|..]; case_if_in S; destruct S as [-> ->]; case_if; lia.
  - unfold mem_pool_create_range in E. destruct (_ || _); [done|]. destruct (_ && _); [done|].
    injection E as <-. apply empty_pool; [done|..]; (pose proof (wrap_range 32)); [apply wrap_range; lia|].
    rewrite Z.add_0_r. apply wrap_range. lia.
Qed.

(** What no operation changes. *)
Definition same_pool this this' : Prop :=
  base this' = base this /\ size this' = size this /\ skip this' = skip this.

Lemma acquire_base this who requested operation peer r :
  acquire_address hash_key this who requested operation peer = Some r -> same_pool this r.1.
Proof.
  unfold acquire_address. destruct (size this =? 0); [by intros [= <-]|].
  destruct (base this) eqn:Eb; [|by intros [= <-]].
  destruct (negb _); [by intros [= <-]|]. unfold same_pool. rewrite Eb. destruct operation; cbn.
  - unfold get_existing. destruct (leases_get this who); [|by intros [= <-]].
    destruct (match offline _ with [] => _ | _ => _ end) as [e1 o1].
    destruct (negb (o1 =? 0)); [by intros [= <-]|].
    destruct peer; [|by intros [= <-]]. destruct (find_lease _ _) as [[i l]|]; [|by intros [= <-]].
    destruct (array_append_own _ _); cbn; [by intros [= <-]|done].
  - unfold get_new. by destruct (_ <? _); intros [= <-].
  - unfold get_reassigned. destruct (take_offline _). by destruct (negb _); intros [= <-].
Qed.

Lemma perform_base o this p : perform o this = Some p -> same_pool this p.
Proof.
  destruct o as [who requested operation peer|address who]; cbn.
  - destruct (acquire_address _ _ _ _ _ _) as [r|] eqn:E; cbn; [|done]. intros [= <-].
    by eapply acquire_base.
  - unfold release_address. destruct (negb _); [|by intros [= <-]].
    destruct (leases_get this who); [|by intros [= <-]].
    by destruct (release_loop _ _) as [[i|] ?]; intros [= <-].
Qed.

Lemma perform_fixed o this p : fixed this -> perform o this = Some p -> fixed p.
Proof.
  intros [P [b [E B]]] Ep. destruct (perform_base o this p Ep) as (Eb & _ & _).
  split; [|exists b; by rewrite Eb]. destruct o; cbn in Ep; [|injection Ep as <-; by apply release_ok].
  destruct (acquire_address _ _ _ _ _ _) as [r|] eqn:Ea; cbn in Ep; [|done]. injection Ep as <-.
  by eapply acquire_ok.
Qed.

Lemma run_fixed ops this p :
  fixed this -> run ops this = Some p -> fixed p /\ same_pool this p.
Proof.
  revert this. induction ops as [|o ops IH]; intros this F; cbn; [by intros [= <-]|].
  destruct (perform o this) as [q|] eqn:E; cbn; [|done]. intros Er.
  destruct (IH q (perform_fixed _ _ _ F E) Er) as (Fp & E1 & E2 & E3). split; [done|].
  destruct (perform_base _ _ _ E) as (D1 & D2 & D3). split; [congruence|]. split; congruence.
Qed.

(** ** Enumerated leases *)

Definition lease_of this e (o : Z) (on : bool) : Prop :=
  if on then o ∈ map offset (items (online e)) else o ∈ offline e.

Lemma enumerated_lease this who a on :
  (who, a, on) ∈ create_lease_enumerator this <->
  exists k e o, (k, e) ∈ leases this /\ who = id e /\ lease_of this e o on /\ a = offset2host this o.
Proof.
  unfold create_lease_enumerator. rewrite list_elem_of_In, in_concat. split.
  - intros (x & Hx & Ha). apply in_map_iff in Hx as ((k & e) & <- & He). cbn in Ha.
    apply in_app_iff in Ha as [Ha|Ha]; apply in_map_iff in Ha as (o & E & Ho); injection E as <- <- <-;
      apply list_elem_of_In in Ho, He.
    + exists k, e, (offset o). split; [done|]. split; [done|]. split; [|done].
      cbn. apply elem_of_map_offset. eauto.
    + exists k, e, o. done.
  - intros (k & e & o & He & -> & Ho & ->). eexists. split.
    + apply in_map_iff. exists (k, e). split; [reflexivity|]. by rewrite <-list_elem_of_In.
    + cbn. apply in_app_iff. destruct on; cbn in Ho; [left|right]; apply in_map_iff.
      * apply elem_of_map_offset in Ho as (x & Hx & <-). exists x. by rewrite <-list_elem_of_In.
      * exists o. by rewrite <-list_elem_of_In.
Qed.

Lemma lease_held this e o on : lease_of this e o on -> o ∈ held e.
Proof. unfold held. rewrite elem_of_app. destruct on; cbn; tauto. Qed.

Lemma holds_owner l k e o : (k, e) ∈ l -> o ∈ held e -> 0 < owners o l.
Proof.
  intros [l1 [l2 ->]]%list_elem_of_split Hh. rewrite owners_app. cbn.
  pose proof (owners_nonneg o l1). pose proof (owners_nonneg o l2).
  unfold holds. rewrite decide_True by done. lia.
Qed.

(** An offset with one owner is held by one entry. *)
Lemma owner_unique l k1 e1 k2 e2 o :
  owners o l <= 1 -> (k1, e1) ∈ l -> (k2, e2) ∈ l -> o ∈ held e1 -> o ∈ held e2 -> e1 = e2.
Proof.
  intros L H1 H2 O1 O2. apply list_elem_of_split in H1 as (l1 & l2 & ->).
  rewrite owners_app in L. cbn in L. unfold holds in L. rewrite decide_True in L by done.
  pose proof (owners_nonneg o l1). pose proof (owners_nonneg o l2).
  apply elem_of_app in H2 as [H2|H2].
  - pose proof (holds_owner _ _ _ _ H2 O2). lia.
  - apply elem_of_cons in H2 as [[= _ ->]|H2]; [done|]. pose proof (holds_owner _ _ _ _ H2 O2). lia.
Qed.

Lemma owned_entry l o : 0 < owners o l -> exists k e, (k, e) ∈ l /\ o ∈ held e.
Proof.
  induction l as [|[k e] l IH]; cbn; [lia|]. intros P. unfold holds in P.
  destruct (decide (o ∈ held e)); [exists k, e; split; [by left|done]|].
  destruct IH as (k' & e' & ? & ?); [lia|]. exists k', e'. split; [by right|done].
Qed.

(** An enumerated lease is one of the addresses given out so far. *)
Lemma lease_offset this k e o on :
  pool_ok this -> (k, e) ∈ leases this -> lease_of this e o on ->
  skip this < o <= unused this + skip this.
Proof.
  intros P He Ho. pose proof (holds_owner _ _ _ _ He (lease_held _ _ _ _ Ho)) as W.
  rewrite (ok_owners _ P) in W. destruct (decide _); [done|lia].
Qed.

(** * Theorems *)

(** The address of an offset in a pool. *)
Lemma pool_offset2host this b o :
  fixed this -> base this = Some b -> skip this < o <= unused this + skip this ->
  offset2host this o = Some (nth_address b (o - 1)).
Proof.
  intros [P (b' & E & B)] E' Ro. assert (b' = b) as -> by congruence.
  pose proof (ok_unused _ P). pose proof (ok_size _ P). pose proof (pool_skip this).
  apply offset2host_spec; [done..|lia|lia].
Qed.

(** C13: in every pool, after any sequence of acquisitions and releases by any identities,
    the leases are exactly the addresses given out so far, the first ones of the pool: each
    of them is leased to one identity and to no other, and is either online or offline. This
    is so in every run that reads no freed memory: see [reassign_reads_freed_memory]. *)
Theorem leases_unique this ops b p :
  created this -> base this = Some b -> run ops this = Some p ->
  0 <= unused p <= size this
  /\ (forall who a on, (who, a, on) ∈ create_lease_enumerator p ->
        exists n, 0 <= n < unused p /\ a = Some (nth_address b (skip this + n)))
  /\ (forall n, 0 <= n < unused p ->
        exists who on, (who, Some (nth_address b (skip this + n)), on) ∈ create_lease_enumerator p)
  /\ (forall a who1 on1 who2 on2,
        (who1, a, on1) ∈ create_lease_enumerator p -> (who2, a, on2) ∈ create_lease_enumerator p ->
        who1 = who2 /\ on1 = on2).
Proof.
  intros C E R. destruct (run_fixed ops this p (created_fixed _ C) R) as (F & Eb & Es & Ek). clear R.
  pose proof F as [P (b' & E' & B)].
  assert (b' = b) as -> by congruence.
  pose proof (ok_unused _ P) as U. pose proof (ok_size _ P) as S. pose proof (pool_skip p) as Sk.
  rewrite <-Es, <-Ek. split; [done|]. split; [|split].
  - intros who a on (k & e & o & He & -> & Ho & ->)%enumerated_lease.
    pose proof (lease_offset _ _ _ _ _ P He Ho) as R. exists (o - 1 - skip p). split; [lia|].
    rewrite (pool_offset2host p b) by done. do 2 f_equal. lia.
  - intros n Hn. destruct (owned_entry (leases p) (n + 1 + skip p)) as (k & e & He & Ho).
    { rewrite (ok_owners _ P), decide_True by lia. lia. }
    unfold held in Ho. apply elem_of_app in Ho.
    exists (id e), (if decide (n + 1 + skip p ∈ map offset (items (online e))) then true else false).
    apply enumerated_lease. exists k, e, (n + 1 + skip p). split; [done|]. split; [done|]. split.
    + destruct (decide _); cbn; tauto.
    + rewrite (pool_offset2host p b) by (done || lia). do 2 f_equal. lia.
  - intros a who1 on1 who2 on2 (k1 & e1 & o1 & H1 & -> & O1 & E1)%enumerated_lease
      (k2 & e2 & o2 & H2 & -> & O2 & E2)%enumerated_lease.
    pose proof (lease_offset _ _ _ _ _ P H1 O1) as R1. pose proof (lease_offset _ _ _ _ _ P H2 O2) as R2.
    rewrite E1, !(pool_offset2host p b) in E2 by done. apply Some_inj in E2.
    apply (nth_address_inj b) in E2; [|done|lia|lia]. assert (o2 = o1) as -> by lia.
    assert (e1 = e2) as <-.
    { eapply owner_unique; [|exact H1|exact H2|by eapply lease_held..].
      rewrite (ok_owners _ P). destruct (decide _); lia. }
    split; [done|]. pose proof (ok_keys _ P) as K. rewrite Forall_forall in K.
    destruct (K _ H1) as [_ [_ NB]]. cbn in NB. specialize (NB o1).
    destruct on1, on2; cbn in O1, O2; tauto.
Qed.

Lemma put_in this e : (id e, e) ∈ leases (leases_put e this).
Proof.
  unfold leases_put. cbn. induction (leases this) as [|[k e0] l IH]; cbn; [by left|].
  destruct (id_equals (id e) k); [by left|by right].
Qed.

Lemma get_id this who e :
  leases_ok (leases this) -> leases_get this who = Some e -> id_equals who (id e) = true.
Proof.
  intros [K _] G. destruct (assoc_get_split _ _ _ G) as (l1 & k & l2 & E & Ek & _). rewrite E in K.
  apply Forall_app in K as [_ [[K _] _]%Forall_cons_1]. cbn in K. by rewrite <-K.
Qed.

(** An identity's entry with an online lease. *)
Definition leased this (who : identification_t) (o : Z) : Prop :=
  exists e, (id e, e) ∈ leases this /\ id_equals who (id e) = true /\ o ∈ map offset (items (online e)).

Lemma add_online_leased this who lease :
  leases_ok (leases this) -> leased (add_online this who lease) who (offset lease).
Proof.
  intros L. unfold add_online. set (e := default _ _). set (e' := Entry _ _ _). exists e'.
  split; [apply put_in|]. split.
  - cbn. unfold e. destruct (leases_get this who) as [e0|] eqn:G; cbn; [by eapply get_id|apply id_equals_refl].
  - cbn. rewrite items_append, map_app, elem_of_app. right. by left.
Qed.

Lemma get_existing_leased this who requested peer p o :
  leases_ok (leases this) ->
  get_existing hash_key this who requested peer = Some (p, o) -> o <> 0 -> leased p who o.
Proof.
  intros L. unfold get_existing. destruct (leases_get this who) as [e|] eqn:G; [|by intros [= <- <-]].
  pose proof (get_id _ _ _ L G) as Eid.
  destruct (match offline e with [] => _ | _ => _ end) as [e1 o1] eqn:X.
  assert (id e1 = id e /\ (o1 <> 0 -> o1 ∈ map offset (items (online e1)))) as [Ei H1].
  { destruct (offline e); injection X as <- <-; [done|]. split; [done|]. intros _. cbn.
    rewrite items_append, map_app, elem_of_app. right. by left. }
  clear X. destruct (negb (o1 =? 0)) eqn:Z0.
  { intros [= <- <-] N. exists e1. rewrite Ei. split; [rewrite <-Ei; apply put_in|]. auto. }
  destruct peer as [peer|]; [|by intros [= <- <-]].
  destruct (find_lease _ _) as [[i lease]|] eqn:F; [|by intros [= <- <-]].
  destruct (array_append_own _ _) as [a|] eqn:A; cbn; [|done]. intros [= <- <-] _.
  apply find_lease_elem in F as [Hl _]. apply array_append_own_spec in A as (x & _ & A).
  eexists. split; [apply put_in|]. cbn. rewrite Ei. split; [done|].
  rewrite A, map_app, elem_of_app. left. apply elem_of_map_offset. eauto.
Qed.

(** An address that a pool gives to an identity is a lease of this identity, and
    online from then on. With [leases_unique] no other identity has it. *)
Theorem acquire_gives_own_lease this ops p p' who requested operation peer a :
  created this -> size this <> 0 -> run ops this = Some p ->
  acquire_address hash_key p who requested operation peer = Some (p', Some a) ->
  exists who', id_equals who who' = true /\ (who', Some a, true) ∈ create_lease_enumerator p'.
Proof.
  intros C Sz R A. destruct (run_fixed ops this p (created_fixed _ C) R) as (F & _ & Es & _). clear R.
  pose proof (pool_leases_ok _ (fx_ok _ F)) as L.
  unfold acquire_address in A. replace (size p =? 0) with false in A by lia.
  destruct (base p); [|done]. destruct (negb _); [done|].
  match type of A with (?r ≫= _) = _ => destruct r as [[q o]|] eqn:E end; cbn in A; [|done].
  destruct (o =? 0) eqn:Z0; cbn in A; [done|]. bool_to_prop. injection A as <- Ea.
  assert (leased q who o) as (e & He & Eid & Ho).
  { destruct operation.
    - by eapply get_existing_leased.
    - injection E as E. unfold get_new in E. destruct (_ <? _); injection E as <- <-; [|done].
      by apply (add_online_leased _ _ (Lease _ _)).
    - injection E as E. unfold get_reassigned in E.
      pose proof (take_offline_spec (leases p) L (no_zero _ (fx_ok _ F))) as T.
      destruct (take_offline (leases p)) as [l o']. destruct T as (Ll & _).
      destruct (negb (o' =? 0)) eqn:Z1; injection E as <- <-; [|bool_to_prop; lia].
      by apply (add_online_leased _ _ (Lease o' _)). }
  exists (id e). split; [done|]. apply enumerated_lease. by exists (id e), e, o.
Qed.

(** ** Reassigning leases online *)

(** As long as nothing is released no address is offline and no array has unused room. *)
Definition packed e : Prop := head (online e) = 0 /\ tail (online e) = 0 /\ offline e = [].

Lemma packed_append who x (a : array_t unique_lease_t) :
  head a = 0 -> tail a = 0 -> packed (Entry who (array_append x a) []).
Proof. intros Eh Et. unfold packed, array_append. destruct (moves_head a); cbn; rewrite ?Eh, ?Et; done. Qed.

Definition all_packed this : Prop := Forall (fun x => packed x.2) (leases this).

Lemma packed_put this e : all_packed this -> packed e -> all_packed (leases_put e this).
Proof.
  unfold all_packed, leases_put. cbn. intros F P. induction F as [|[k e0] l P0 F IH]; cbn; [by constructor|].
  destruct (id_equals (id e) k); by constructor.
Qed.

Lemma packed_get this who e : all_packed this -> leases_get this who = Some e -> packed e.
Proof.
  intros F G. destruct (assoc_get_split _ _ _ G) as (l1 & k & l2 & E & _). unfold all_packed in F.
  rewrite E in F. by apply Forall_app in F as [_ [? _]%Forall_cons_1].
Qed.

Lemma packed_add this who lease : all_packed this -> all_packed (add_online this who lease).
Proof.
  intros F. unfold add_online. apply packed_put; [done|].
  destruct (leases_get this who) as [e|] eqn:G; cbn; [|by apply packed_append].
  destruct (packed_get _ _ _ F G) as (? & ? & ->). by apply packed_append.
Qed.

Lemma packed_take l :
  Forall (fun x => packed x.2) l -> Forall (fun x => packed x.2) (take_offline l).1 /\ (take_offline l).2 = 0.
Proof.
  induction 1 as [|[k e] l (Eh & Et & Eo) F [IH1 IH2]]; cbn; [done|]. cbn in Eo. rewrite Eo. cbn.
  destruct (take_offline l) as [l' o]. cbn in *. split; [|done]. rewrite Eo.
  destruct (items (online e)); [done|]. by constructor.
Qed.

(** No array has room for one of its own elements. *)
Lemma packed_own e i : packed e -> array_append_own i (online e) = None.
Proof.
  intros (Eh & Et & _). unfold array_append_own, reallocates. rewrite Eh, Et. by destruct (moves_head _).
Qed.

Lemma packed_acquire this who requested operation peer r :
  all_packed this -> acquire_address hash_key this who requested operation peer = Some r -> all_packed r.1.
Proof.
  intros F. unfold acquire_address. destruct (size this =? 0); [by intros [= <-]|].
  destruct (base this); [|by intros [= <-]]. destruct (negb _); [by intros [= <-]|]. destruct operation; cbn.
  - unfold get_existing. destruct (leases_get this who) as [e|] eqn:G; [|by intros [= <-]].
    pose proof (packed_get _ _ _ F G) as P. pose proof P as (_ & _ & Eo). rewrite Eo. cbn.
    assert (all_packed (leases_put e this)) by by apply packed_put.
    destruct peer; [|by intros [= <-]]. destruct (find_lease _ _) as [[i l]|]; [|by intros [= <-]].
    by rewrite packed_own.
  - unfold get_new. destruct (_ <? _); intros [= <-]; [|done]. by apply packed_add.
  - unfold get_reassigned. destruct (packed_take _ F) as [T Z0]. destruct (take_offline _) as [l o].
    cbn in *. subst o. by intros [= <-].
Qed.

Definition acquires (o : op) : Prop := match o with Acquire _ _ _ _ => True | Release _ _ => False end.

Lemma packed_run ops this p :
  Forall acquires ops -> all_packed this -> run ops this = Some p -> all_packed p.
Proof.
  intros F. revert this. induction F as [|o ops A F IH]; intros this P; cbn; [by intros [= <-]|].
  destruct o as [who requested operation peer|]; [|done]. cbn.
  destruct (acquire_address _ _ _ _ _ _) as [r|] eqn:E; cbn; [|done]. apply IH. by eapply packed_acquire.
Qed.

Lemma packed_created this : created this -> all_packed this.
Proof.
  destruct 1 as [b bits B|from to this B T E].
  - destruct (create_net b bits B) as (skips & n & -> & _). constructor.
  - unfold mem_pool_create_range in E. destruct (_ || _); [done|]. destruct (_ && _); [done|].
    injection E as <-. constructor.
Qed.

Lemma run_app ops1 ops2 this : run (ops1 ++ ops2) this = run ops1 this ≫= run ops2.
Proof.
  revert this. induction ops1 as [|o ops IH]; intros this; cbn; [done|].
  destruct (perform o this); cbn; [apply IH|done].
Qed.

Lemma add_online_get this who lease :
  leases_ok (leases this) ->
  exists e, leases_get (add_online this who lease) who = Some e /\ lease ∈ items (online e).
Proof.
  intros L. unfold add_online. set (e := Entry _ _ _). exists e. split.
  - subst e. destruct (leases_get this who) as [e|] eqn:G; cbn.
    + exact (get_put this who e (Entry (id e) (array_append lease (online e)) (offline e)) L G eq_refl).
    + apply assoc_get_none in G. unfold leases_get, leases_put. cbn.
      destruct (assoc_absent id_equals _ _ G) as (_ & -> & _).
      by destruct (assoc_present id_equals (leases this) [] who who
        (Entry who (array_append lease (array_create 0)) []) G (id_equals_refl who)) as (-> & _).
  - cbn. rewrite items_append, elem_of_app. right. by left.
Qed.

Lemma find_lease_some f (l : list unique_lease_t) lease :
  lease ∈ l -> f lease = true -> exists i lease', find_lease f l = Some (i, lease').
Proof.
  intros Hin F. induction Hin as [lease l|lease a l Hin IH]; cbn; [rewrite F; eauto|].
  destruct (f a); [eauto|]. destruct (IH F) as (i & lease' & ->). cbn. eauto.
Qed.

(** An address that is online cannot be acquired again by the same identity from the
    same peer as long as no address of the pool was released: [array_insert] makes space
    in the array of leases first, which allocates it anew, and then copies the lease from
    the memory that was just freed. Whatever was acquired before of a pool that is not
    full, this happens to the next new lease. *)
Theorem reassign_reads_freed_memory this ops b p who any peer :
  created this -> base this = Some b -> Forall acquires ops -> run ops this = Some p ->
  unused p < size p -> is_anyaddr any = true -> get_family any = get_family b ->
  let new := Acquire who any MEM_POOL_NEW (Some peer) in
  (exists p', run (ops ++ [new]) this = Some p' /\ unused p' = unused p + 1)
  /\ run (ops ++ [new; Acquire who any MEM_POOL_EXISTING (Some peer)]) this = None.
Proof.
  intros C E A R U Any Fam new.
  destruct (run_fixed ops this p (created_fixed _ C) R) as ([P (b' & E' & _)] & Eb & _).
  assert (b' = b) as -> by congruence. pose proof (packed_run _ _ _ A (packed_created _ C) R) as K.
  pose proof (ok_unused _ P) as Un. pose proof (ok_size _ P) as Sz. pose proof (pool_skip p) as Sk.
  rewrite !run_app, R. cbn [mbind option_bind new run perform].
  assert (N : acquire_address hash_key p who any MEM_POOL_NEW (Some peer)
              = let '(p, o) := get_new hash_key p who (Some peer) in
                Some (p, if negb (o =? 0) then offset2host p o else None)).
  { unfold acquire_address. replace (size p =? 0) with false by lia. rewrite E', Fam, Z.eqb_refl. done. }
  rewrite N. unfold get_new. replace (unused p <? size p) with true by lia. cbn [fmap option_fmap option_map fst mbind option_bind].
  set (lease := Lease _ _). set (q := add_online _ _ lease).
  assert (Uq : unused q = unused p + 1) by (cbn; apply wrap_small; lia).
  split; [by exists q|].
  assert (Kq : all_packed q) by by apply packed_add.
  destruct (add_online_get (with_unused (u32 (unused p + 1)) p) who lease (pool_leases_ok _ P)) as (e & G & Hl).
  fold q in G. pose proof (packed_get _ _ _ Kq G) as Pe. pose proof Pe as (_ & _ & Eo).
  destruct (find_lease_some (is_reassigned hash_key (leases_put e q) any peer) _ _ Hl) as (i & l & F).
  { unfold is_reassigned. rewrite Any. cbn [hash lease]. by rewrite Z.eqb_refl. }
  unfold acquire_address. change (size q) with (size p). change (base q) with (base p).
  replace (size p =? 0) with false by lia. rewrite E', Fam, Z.eqb_refl. cbn [negb].
  unfold get_existing. rewrite G, Eo. cbn [Z.eqb negb]. rewrite F. by rewrite packed_own.
Qed.

(** ** Back to offsets *)

Lemma last4_nth b n : host_ok b -> last4 (nth_address b n) = (last4 b + n) mod 2 ^ 32.
Proof.
  intros B. unfold last4 at 1, nth_address. cbn [sa_family sin_addr].
  rewrite drop_app_length'; [|rewrite length_take, (position_len b B); lia].
  rewrite take_ge by (by rewrite length_be_bytes). rewrite be_val_be_bytes.
  change (256 ^ Z.of_nat 4) with (2 ^ 32). by rewrite Z.mod_mod.
Qed.

Lemma prefix_nth b n :
  host_ok b -> take (position (sa_family b)) (sin_addr (nth_address b n)) = take (position (sa_family b)) (sin_addr b).
Proof.
  intros B. cbn [nth_address sin_addr]. rewrite take_app_length'; [done|].
  rewrite length_take, (position_len b B). lia.
Qed.

Lemma host2offset_value this b addr :
  base this = Some b -> host_ok b -> host_ok addr -> sa_family addr = sa_family b ->
  take (position (sa_family b)) (sin_addr addr) = take (position (sa_family b)) (sin_addr b) ->
  host2offset this addr
  = if last4 addr >? u32 (last4 b + size this) then -1 else s32 (u32 (last4 addr - last4 b + 1)).
Proof.
  intros E B A F T. unfold host2offset. rewrite E. unfold get_family. rewrite F, Z.eqb_refl. cbn [negb].
  rewrite !get_address_ok by done. unfold last4. rewrite F. unfold position in *.
  destruct (sa_family b =? AF_INET6); cbn [andb].
  - rewrite T. unfold memeq. rewrite memcmp_refl. cbn [Z.eqb negb].
    rewrite !chunk_skip_spec by lia. done.
  - by rewrite !drop_0.
Qed.

(** The address of the [n]-th offset is found again under its offset as long as the
    last four bytes of the base and the size of the pool do not exceed 2^32 together.
    Otherwise, for a pool that ends at the last address of a /96 block (or close to it), no
    address of the pool is: the limit wraps around and [host2offset] fails for all of them. *)
Theorem host2offset_roundtrip this b n :
  created this -> base this = Some b -> 0 <= n < skip this + size this -> last4 b + n < 2 ^ 32 ->
  offset2host this (n + 1) = Some (nth_address b n)
  /\ u32 (host2offset this (nth_address b n))
     = if last4 b + size this <? 2 ^ 32 then n + 1 else 2 ^ 32 - 1.
Proof.
  intros C E Hn Hb. destruct (created_fixed _ C) as [P (b' & E' & B)]. assert (b' = b) as -> by congruence.
  pose proof (ok_size _ P) as S. pose proof (pool_skip this). pose proof (last4_range b B).
  pose proof (ok_unused _ P). split.
  { rewrite (offset2host_spec this b) by (done || lia). do 2 f_equal. lia. }
  rewrite (host2offset_value this b) by (done || by apply nth_address_ok || by apply prefix_nth).
  rewrite last4_nth, (Z.mod_small (last4 b + n)) by (done || lia).
  destruct (last4 b + size this <? 2 ^ 32) eqn:L; bool_to_prop.
  - rewrite (wrap_small 32 (last4 b + size this)) by lia. replace (_ >? _) with false by lia.
    replace (last4 b + n - last4 b + 1) with (n + 1) by lia. rewrite u32_s32, (wrap_small 32 (n + 1)), wrap_small by lia. done.
  - replace (_ >? _) with true; [done|]. unfold wrap. symmetry. apply Z.gtb_lt.
    assert (last4 b + size this - 2 ^ 32 = (last4 b + size this) mod 2 ^ 32) as <-; [|lia].
    apply (Z.mod_unique _ _ 1); lia.
Qed.

(** in a pool that fits, an identity that releases its only lease, while it has no
    other offline, gets the same address back when it comes again. *)
Theorem release_and_reacquire this ops p b who e n h requested peer :
  created this -> size this <> 0 -> base this = Some b -> last4 b + size this < 2 ^ 32 ->
  run ops this = Some p ->
  leases_get p who = Some e -> items (online e) = [Lease (skip this + n + 1) h] -> offline e = [] ->
  get_family requested = get_family b ->
  let '(q, released) := release_address p (nth_address b (skip this + n)) who in
  released = true
  /\ snd <$> acquire_address hash_key q who requested MEM_POOL_EXISTING peer
     = Some (Some (nth_address b (skip this + n))).
Proof.
  intros C Sz E Fit Run G On Off Fam. pose proof (created_fixed _ C) as F0.
  destruct (run_fixed ops this p F0 Run) as (F & Eb & Es & Ek). clear Run.
  pose proof F as [P (b' & E' & B)]. assert (b' = b) as -> by congruence.
  pose proof (ok_unused _ P) as U. pose proof (ok_size _ P) as S. pose proof (pool_skip p) as Sk.
  assert (R : skip p < skip p + n + 1 <= unused p + skip p).
  { assert (O : skip p + n + 1 ∈ held e).
    { unfold held. rewrite On, <-Ek. cbn. by left. }
    destruct (assoc_get_split _ _ _ G) as (l1 & k & l2 & El & _ & _).
    pose proof (holds_owner (leases p) k e (skip p + n + 1)) as W. rewrite El in W at 1.
    specialize (W ltac:(rewrite elem_of_app; right; by left) O). rewrite (ok_owners _ P) in W.
    destruct (decide _); [lia|lia]. }
  rewrite <-Ek in *. pose proof (last4_range b B) as Rb.
  assert (Rn : skip p + n <= size p) by (rewrite Es in *; lia).
  assert (Ho : u32 (host2offset p (nth_address b (skip p + n))) = skip p + n + 1).
  { rewrite (host2offset_value p b) by (done || by apply nth_address_ok || by apply prefix_nth).
    rewrite last4_nth, (Z.mod_small (last4 b + _)) by (done || lia).
    rewrite (wrap_small 32 (last4 b + size p)) by lia. replace (_ >? _) with false by lia.
    replace (last4 b + (skip p + n) - last4 b + 1) with (skip p + n + 1) by lia. rewrite u32_s32, (wrap_small 32 (skip p + n + 1)), wrap_small by lia. done. }
  unfold release_address. replace (size p =? 0) with false by lia. cbn [negb]. rewrite G, Ho, On, Off.
  cbn [release_loop offset]. rewrite Z.eqb_refl. cbn [existsb negb app]. split; [done|].
  set (e' := Entry (id e) (array_remove 0 (online e)) [skip p + n + 1]).
  unfold acquire_address. cbn [size leases_put with_leases base]. replace (size p =? 0) with false by lia.
  rewrite E', Fam, Z.eqb_refl. cbn [negb].
  unfold get_existing. rewrite (get_put p who e e' (pool_leases_ok _ P) G eq_refl). cbn [offline e'].
  replace (skip p + n + 1 =? 0) with false by lia. cbn [negb].
  cbn [fmap option_fmap option_map mbind option_bind snd]. replace (skip p + n + 1 =? 0) with false by lia.
  cbn [negb]. rewrite (offset2host_spec _ b) by (cbn; done || lia). do 3 f_equal. lia.
Qed.

(** a pool made from an address and a prefix length serves addresses of this subnet
    only, from the given address on, and neither the network id nor the last (broadcast)
    address of a subnet with more than two. *)
Theorem network_pool_bounds b bits ops p who a on :
  host_ok b -> run ops (mem_pool_create (Some b) bits) = Some p -> (who, a, on) ∈ create_lease_enumerator p ->
  exists host, a = Some host
    /\ take (position (sa_family b)) (sin_addr host) = take (position (sa_family b)) (sin_addr b)
    /\ last4 host / 2 ^ hostbits b bits = last4 b / 2 ^ hostbits b bits
    /\ last4 b <= last4 host
    /\ (2 < 2 ^ hostbits b bits -> 0 < last4 host mod 2 ^ hostbits b bits < 2 ^ hostbits b bits - 1).
Proof.
  intros B Run Hin. destruct (create_net b bits B) as (skips & sz & Ec & Sz).
  set (this := mem_pool_create (Some b) bits) in *. set (N := 2 ^ hostbits b bits) in *.
  assert (C : created this) by by apply created_net.
  assert (Eb : base this = Some b) by by rewrite Ec.
  destruct (run_fixed ops this p (created_fixed _ C) Run) as (F & Ebp & Esz & Ek). clear Run. pose proof F as [P _].
  apply enumerated_lease in Hin as (k & e & o & He & -> & Ho & ->).
  pose proof (lease_offset _ _ _ _ _ P He Ho) as R. pose proof (ok_unused _ P) as U.
  rewrite (pool_offset2host _ b) by (done || by rewrite Ebp).
  assert (Es : size this = sz) by by rewrite Ec. assert (Eskip : skip this = if skips then 1 else 0) by by rewrite Ec.
  rewrite Ek, Esz in *. pose proof (last4_range b B) as Rl. pose proof (hostbits_range b bits) as Rh.
  assert (RN : 1 <= N <= 2 ^ 31) by (unfold N; split; [change 1 with (2 ^ 0)|]; apply Z.pow_le_mono_r; lia).
  assert (DN : 2 ^ 32 = N * 2 ^ (32 - hostbits b bits)).
  { unfold N. rewrite <-Z.pow_add_r by lia. f_equal. lia. }
  pose proof (Z.mod_pos_bound (last4 b) N ltac:(lia)) as Rd. set (d := last4 b mod N) in *.
  pose proof (Z.div_mod (last4 b) N ltac:(lia)) as Dm. fold d in Dm. set (q := last4 b / N) in *.
  assert (Rq : 0 <= q /\ (q + 1) * N <= 2 ^ 32).
  { assert (0 <= q) by (apply Z.div_pos; lia). split; [done|].
    assert (q < 2 ^ (32 - hostbits b bits)) by (apply Z.div_lt_upper_bound; lia). nia. }
  assert (Ro : d + (o - 1) < N /\ 0 <= o - 1 /\ (2 < N -> 0 < d + (o - 1) < N - 1)).
  { case_if_in Sz; destruct Sz as [-> ->]; lia. }
  exists (nth_address b (o - 1)). split; [done|]. split; [by apply prefix_nth|].
  rewrite last4_nth, (Z.mod_small (last4 b + (o - 1))) by (done || nia).
  replace (last4 b + (o - 1)) with (q * N + (d + (o - 1))) by lia.
  rewrite Z.div_add_l, (Z.div_small (d + (o - 1))) by lia.
  assert (M : (q * N + (d + (o - 1))) mod N = d + (o - 1)).
  { rewrite Z.add_comm, Z.mod_add by lia. apply Z.mod_small. lia. }
  rewrite M. lia.
Qed.

End Spec.

(** * Witnesses *)

Section Demo.

(** Identities are numbers here. *)
#[local] Instance demo : Identities := {
  identification_t := Z; id_equals := Z.eqb;
  id_equals_sym a b := fun E => proj2 (Z.eqb_eq b a) (eq_sym (proj1 (Z.eqb_eq a b) E));
  id_equals_trans a b c := fun E1 E2 =>
    proj2 (Z.eqb_eq a c) (eq_trans (proj1 (Z.eqb_eq a b) E1) (proj1 (Z.eqb_eq b c) E2));
  id_equals_refl := Z.eqb_refl;
}.

(** 10.3.0.0/24 *)
Definition net : host_t := Host 2 [10; 3; 0; 0] 0.
Definition any : host_t := Host 2 [0; 0; 0; 0] 0.
Definition peer : host_t := Host 2 [192; 168; 0; 7] 500.

Lemma net_ok : host_ok net.
Proof. split; [by left|done| |cbn; lia]. repeat constructor; cbn; lia. Qed.

Definition pool : mem_pool := mem_pool_create (Some net) 24.
Definition ops : list op :=
  [Acquire 1 any MEM_POOL_NEW None; Acquire 2 any MEM_POOL_NEW (Some peer); Release (nth_address net 2) 2].

Definition ops1 : list op := [Acquire 1 any MEM_POOL_NEW None].
Definition one : identification_t := 1.
Definition entry1 : entry_t := Entry one (Array [Lease 2 0] 0 0) [].

Lemma pool_created : created pool.
Proof. apply created_net, net_ok. Qed.

(** The pool after a run that reads no freed memory. *)
Definition after (ops : list op) : mem_pool := default pool (run static_key ops pool).

Lemma leases_unique_witness :
  run static_key ops pool = Some (after ops) /\ 0 <= unused (after ops) <= size pool
  /\ (forall n, 0 <= n < unused (after ops) ->
        exists who on, (who, Some (nth_address net (skip pool + n)), on) ∈ create_lease_enumerator (after ops)).
Proof.
  assert (R : run static_key ops pool = Some (after ops)) by (vm_compute; reflexivity).
  destruct (leases_unique static_key pool ops net (after ops) pool_created eq_refl R) as (H1 & _ & H3 & _).
  exact (conj R (conj H1 H3)).
Defined.

Lemma acquire_gives_own_lease_witness :
  exists who', id_equals 2 who' = true
    /\ (who', Some (nth_address net 2), true) ∈ create_lease_enumerator
         (from_option fst pool (acquire_address static_key (after ops) 2 any MEM_POOL_EXISTING (Some peer))).
Proof.
  apply (acquire_gives_own_lease static_key pool ops (after ops) _ 2 any MEM_POOL_EXISTING (Some peer)).
  - exact pool_created.
  - vm_compute. discriminate.
  - vm_compute. reflexivity.
  - vm_compute. reflexivity.
Defined.

Lemma reassign_reads_freed_memory_witness :
  (exists p, run static_key (ops1 ++ [Acquire 2 any MEM_POOL_NEW (Some peer)]) pool = Some p /\ unused p = 2)
  /\ run static_key (ops1 ++ [Acquire 2 any MEM_POOL_NEW (Some peer);
                              Acquire 2 any MEM_POOL_EXISTING (Some peer)]) pool = None.
Proof.
  apply (reassign_reads_freed_memory static_key pool ops1 net (after ops1) 2 any peer pool_created eq_refl).
  - repeat constructor.
  - vm_compute. reflexivity.
  - vm_compute. reflexivity.
  - vm_compute. reflexivity.
  - reflexivity.
Defined.

Lemma host2offset_roundtrip_witness :
  offset2host pool (5 + 1) = Some (nth_address net 5)
  /\ u32 (host2offset pool (nth_address net 5)) = 5 + 1.
Proof.
  apply (host2offset_roundtrip pool net 5 pool_created eq_refl).
  - vm_compute. split; [discriminate|reflexivity].
  - vm_compute. reflexivity.
Defined.

Lemma release_and_reacquire_witness :
  let '(q, released) := release_address (after ops1) (nth_address net (skip pool + 0)) one in
  released = true
  /\ snd <$> acquire_address static_key q one any MEM_POOL_EXISTING None
     = Some (Some (nth_address net (skip pool + 0))).
Proof.
  apply (release_and_reacquire static_key pool ops1 (after ops1) net one entry1 0 0 any None pool_created);
    try (vm_compute; reflexivity).
  vm_compute. discriminate.
Defined.

Lemma network_pool_bounds_witness :
  exists host, Some (nth_address net 1) = Some host
    /\ take (position 2) (sin_addr host) = take (position 2) (sin_addr net)
    /\ last4 host / 2 ^ hostbits net 24 = last4 net / 2 ^ hostbits net 24
    /\ last4 net <= last4 host
    /\ (2 < 2 ^ hostbits net 24 -> 0 < last4 host mod 2 ^ hostbits net 24 < 2 ^ hostbits net 24 - 1).
Proof.
  apply (network_pool_bounds static_key net 24 ops (after ops) one (Some (nth_address net 1)) true net_ok).
  - vm_compute. reflexivity.
  - vm_compute. left.
Defined.

End Demo.
