(* ===== verification/Epdg.v ===== *)
(** The subscribers of the ePDG and their authorisation, in the plugin
    libcharon/plugins/osmo_epdg: the subscriber objects (osmo_epdg_ue.c) with their
    reference counts and locks, the database (osmo_epdg_db.c), the hooks of the IKE daemon
    (osmo_epdg_listener.c), the providers of SIM triplets, addresses and attributes
    (osmo_epdg_provider.c) and osmo_epdg_utils.c. Every handler is a program of calls on
    these objects, which run one call at a time in any interleaving. *)

From stdpp Require Import gmap.
From S2P Require Import Prelude Host HashtableSpec.
From S2P Require Gsup.

(** * Identities *)

Definition imsi_digits : nat := 15.

(** [epdg_get_imsi]: the characters after the first '0' of the identity, which is copied
    into a zeroed buffer of more than [imsi_len] bytes. *)
Definition epdg_get_imsi (nai : chunk) (imsi_len : nat) : option chunk :=
  if len nai <? 17 then None
  else if negb (nth 0 nai 0 =? 48) then None
  else Some (Gsup.c_string (take (min imsi_digits imsi_len) (drop 1 nai))).

Definition isdigit (c : Z) : bool := (48 <=? c) && (c <=? 57).

(** 0 (here [true]) for a valid text; a NULL pointer is not passed. *)
Definition epdg_validate_imsi (imsi : chunk) : bool :=
  (len imsi =? Z.of_nat imsi_digits) && forallb isdigit imsi.

Definition epdg_validate_apn (apn : chunk) : bool := negb (len apn =? 0).

(** What the handlers read of an IKE_SA: the encodings of the identities of the peer and
    of the daemon, which is the access point name. *)
Record ike_sa := { unique_id : Z; other_id : option chunk; my_id : option chunk }.

Definition epdg_get_imsi_ike (sa : ike_sa) (imsi_len : nat) : option chunk :=
  nai ← other_id sa; epdg_get_imsi nai imsi_len.

Definition epdg_get_apn (sa : ike_sa) (apn_len : Z) : option chunk :=
  apn ← my_id sa; if len apn >=? apn_len then None else Some (Gsup.c_string apn).

(** * Responses of the home network *)

(** The fields of libosmocore's messages that are read, the lengths and types it defines,
    and the types of the messages. *)
Record pdp_info := {
  have_info : bool;
  pdp_type_org : Z;
  pdp_type_nr : Z;
  pdp_address : host_t;
}.

Record auth_vector := { v_rand : chunk; v_ck : chunk; v_ik : chunk; v_autn : chunk; v_res : chunk }.

Record gsup_response := {
  message_type : Z;
  num_pdp_infos : Z;
  pdp_infos_0 : pdp_info;
  pco : option chunk;
  auth_vectors : list auth_vector;
}.

Class Osmocom := {
  APN_MAXLEN : Z;
  PDP_TYPE_ORG_IETF : Z;
  PDP_TYPE_N_IETF_IPv4 : Z;
  SEND_AUTH_INFO_RESULT : Z;
  UPDATE_LOCATION_RESULT : Z;
  EPDG_TUNNEL_ERROR : Z;
  EPDG_TUNNEL_RESULT : Z;
}.

(** * Subscribers *)

Inductive ue_state :=
| UE_UNAUTHENTICATED | UE_AUTHENTICATED | UE_WAIT_LOCATION_UPDATE | UE_LOCATION_UPDATED
| UE_WAIT_TUNNEL | UE_TUNNEL_READY | UE_CONNECTED | UE_DISCONNECTING | UE_FAIL | UE_DESTROYED.

Definition INTERNAL_IP4_DNS : Z := 3.
Definition P_CSCF_IP4_ADDRESS : Z := 20.

Record osmo_epdg_attribute := Attribute { a_type : Z; a_value : chunk; a_valid : bool }.

(** [readers] are the read locks that were taken and not given back when no call is
    running; writers give theirs back within their call. The count of references is an
    integer of any size: it is at most one more than twice the handlers that run. *)
Record osmo_epdg_ue := {
  ue_id : Z;
  ue_imsi : chunk;
  ue_apn : chunk;
  ue_address : option host_t;
  ue_attributes : list osmo_epdg_attribute;
  ue_refcount : Z;
  ue_readers : Z;
  ue_st : ue_state;
}.

Definition with_id x u := {| ue_id := x; ue_imsi := ue_imsi u; ue_apn := ue_apn u; ue_address := ue_address u;
  ue_attributes := ue_attributes u; ue_refcount := ue_refcount u; ue_readers := ue_readers u; ue_st := ue_st u |}.
Definition with_address x u := {| ue_id := ue_id u; ue_imsi := ue_imsi u; ue_apn := ue_apn u; ue_address := x;
  ue_attributes := ue_attributes u; ue_refcount := ue_refcount u; ue_readers := ue_readers u; ue_st := ue_st u |}.
Definition with_attributes x u := {| ue_id := ue_id u; ue_imsi := ue_imsi u; ue_apn := ue_apn u; ue_address := ue_address u;
  ue_attributes := x; ue_refcount := ue_refcount u; ue_readers := ue_readers u; ue_st := ue_st u |}.
Definition with_refcount x u := {| ue_id := ue_id u; ue_imsi := ue_imsi u; ue_apn := ue_apn u; ue_address := ue_address u;
  ue_attributes := ue_attributes u; ue_refcount := x; ue_readers := ue_readers u; ue_st := ue_st u |}.
Definition with_readers x u := {| ue_id := ue_id u; ue_imsi := ue_imsi u; ue_apn := ue_apn u; ue_address := ue_address u;
  ue_attributes := ue_attributes u; ue_refcount := ue_refcount u; ue_readers := x; ue_st := ue_st u |}.
Definition with_state x u := {| ue_id := ue_id u; ue_imsi := ue_imsi u; ue_apn := ue_apn u; ue_address := ue_address u;
  ue_attributes := ue_attributes u; ue_refcount := ue_refcount u; ue_readers := ue_readers u; ue_st := x |}.

Definition osmo_epdg_ue_create (id : Z) (imsi apn : chunk) : option osmo_epdg_ue :=
  if epdg_validate_apn apn && epdg_validate_imsi imsi then
    Some {| ue_id := id; ue_imsi := imsi; ue_apn := apn; ue_address := None; ue_attributes := [];
            ue_refcount := 1; ue_readers := 0; ue_st := UE_WAIT_LOCATION_UPDATE |}
  else None.

(** The objects in memory, by their addresses, and the table of the database. *)
Record osmo_epdg_db := {
  heap : gmap nat osmo_epdg_ue;
  subscribers_imsi : list (chunk * nat);
}.

Definition with_heap h (s : osmo_epdg_db) := {| heap := h; subscribers_imsi := subscribers_imsi s |}.
Definition with_subscribers l (s : osmo_epdg_db) := {| heap := heap s; subscribers_imsi := l |}.

Definition osmo_epdg_db_create : osmo_epdg_db := {| heap := empty; subscribers_imsi := [] |}.

(** [hashtable_equals_str] *)
Definition streq (a b : chunk) : bool := bool_decide (a = b).

(** A call returns, waits for a lock, or uses an object that was freed. *)
Inductive result (A : Type) :=
| Next (x : A)
| Blocked
| Use_after_free.
Arguments Next {A} x.
Arguments Blocked {A}.
Arguments Use_after_free {A}.

Definition access {A} (u : nat) (s : osmo_epdg_db) (f : osmo_epdg_ue -> result A) : result A :=
  match heap s !! u with
  | Some ue => f ue
  | None => Use_after_free
  end.

Definition store (u : nat) (ue : osmo_epdg_ue) (s : osmo_epdg_db) : osmo_epdg_db :=
  with_heap (<[u := ue]> (heap s)) s.

(** ** Methods of a subscriber *)

Definition write_lock {A} (ue : osmo_epdg_ue) (x : result A) : result A :=
  if ue_readers ue =? 0 then x else Blocked.

Definition set_address (u : nat) (address : host_t) s : result osmo_epdg_db :=
  access u s (fun ue => write_lock ue (Next (store u (with_address (Some address) ue) s))).

Definition get_address (u : nat) s : result (option host_t) :=
  access u s (fun ue => Next (ue_address ue)).

Definition set_state (u : nat) (state : ue_state) s : result osmo_epdg_db :=
  access u s (fun ue => write_lock ue (Next (store u (with_state state ue) s))).

Definition get_state (u : nat) s : result ue_state := access u s (fun ue => Next (ue_st ue)).

Definition get_id (u : nat) s : result Z := access u s (fun ue => Next (ue_id ue)).

Definition set_id (u : nat) (unique_id : Z) s : result osmo_epdg_db :=
  access u s (fun ue => Next (store u (with_id unique_id ue) s)).

(** The lock is taken and not given back. *)
Definition get_attributes (u : nat) s : result (osmo_epdg_db * list osmo_epdg_attribute) :=
  access u s (fun ue => Next (store u (with_readers (ue_readers ue + 1) ue) s, ue_attributes ue)).

Definition insert_attribute (u : nat) (entry : osmo_epdg_attribute) s : result osmo_epdg_db :=
  access u s (fun ue => write_lock ue (Next (store u (with_attributes (ue_attributes ue ++ [entry]) ue) s))).

Definition get (u : nat) s : result osmo_epdg_db :=
  access u s (fun ue => Next (store u (with_refcount (ue_refcount ue + 1) ue) s)).

Definition put (u : nat) s : result osmo_epdg_db :=
  access u s (fun ue =>
    Next (if ue_refcount ue =? 1 then with_heap (delete u (heap s)) s
          else store u (with_refcount (ue_refcount ue - 1) ue) s)).

(** ** Methods of the database *)

Section Database.
Context `{Osmocom}.

(** The new object is at [fresh], which the allocator chooses. *)
Definition create_subscriber (sa : ike_sa) (at_ : nat) s : result (osmo_epdg_db * option nat) :=
  match epdg_get_imsi_ike sa imsi_digits, epdg_get_apn sa APN_MAXLEN with
  | Some imsi, Some apn =>
    let removed := assoc_get streq (subscribers_imsi s) imsi in
    let s := with_subscribers (assoc_remove streq (subscribers_imsi s) imsi) s in
    match (match removed with Some u => put u s | None => Next s end) with
    | Next s =>
      match osmo_epdg_ue_create (unique_id sa) imsi apn with
      | None => Next (s, None)
      | Some ue =>
        match heap s !! at_ with
        | Some _ => Blocked
        | None =>
          Next (store at_ (with_refcount (ue_refcount ue + 1) ue)
                  (with_subscribers (assoc_put streq (subscribers_imsi s) imsi at_) s), Some at_)
        end
      end
    | Blocked => Blocked
    | Use_after_free => Use_after_free
    end
  | _, _ => Next (s, None)
  end.

Definition get_subscriber (imsi : chunk) s : result (osmo_epdg_db * option nat) :=
  match assoc_get streq (subscribers_imsi s) imsi with
  | Some u => match get u s with
              | Next s => Next (s, Some u)
              | Blocked => Blocked
              | Use_after_free => Use_after_free
              end
  | None => Next (s, None)
  end.

Definition get_subscriber_ike (sa : ike_sa) s : result (osmo_epdg_db * option nat) :=
  match epdg_get_imsi_ike sa 16 with
  | Some imsi => get_subscriber imsi s
  | None => Next (s, None)
  end.

(** The enumerator is given [ue], which is NULL, and not its address: no value is stored,
    and the search never finds a subscriber. *)
Definition get_subscriber_id (id : Z) s : result (osmo_epdg_db * option nat) := Next (s, None).

Definition remove_subscriber (imsi : chunk) s : result osmo_epdg_db :=
  match assoc_get streq (subscribers_imsi s) imsi with
  | Some u => put u (with_subscribers (assoc_remove streq (subscribers_imsi s) imsi) s)
  | None => Next s
  end.

(** The reference of every entry is given up. *)
Fixpoint destroy_subscribers (l : list (chunk * nat)) s : result osmo_epdg_db :=
  match l with
  | [] => Next s
  | (_, u) :: l => match put u s with
                   | Next s => destroy_subscribers l s
                   | Blocked => Blocked
                   | Use_after_free => Use_after_free
                   end
  end.

Definition destroy s : result osmo_epdg_db :=
  destroy_subscribers (subscribers_imsi s) (with_subscribers [] s).

End Database.

(** * Handlers *)

(** What a handler returns to the daemon. *)
Inductive outcome :=
| Success (success : bool)
| Address (address : option host_t)
| Released (found : bool)
| Attributes (l : list (Z * chunk))
| Quintuplet (q : option auth_vector).

(** A handler: the calls it makes, and how it goes on with their results. The calls on the
    GSUP client wait for a response of the home network. *)
Inductive program :=
| Return (o : outcome)
| CreateSubscriber (sa : ike_sa) (next : option nat -> program)
| GetSubscriber (imsi : chunk) (next : option nat -> program)
| GetSubscriberIke (sa : ike_sa) (next : option nat -> program)
| RemoveSubscriber (imsi : chunk) (next : program)
| SetState (u : nat) (state : ue_state) (next : program)
| SetAddress (u : nat) (address : host_t) (next : program)
| InsertAttribute (u : nat) (entry : osmo_epdg_attribute) (next : program)
| GetAddress (u : nat) (next : option host_t -> program)
| GetAttributes (u : nat) (next : list osmo_epdg_attribute -> program)
| Get (u : nat) (next : program)
| Put (u : nat) (next : program)
| UpdateLocation (imsi : chunk) (next : option gsup_response -> program)
| TunnelRequest (imsi : chunk) (next : option gsup_response -> program)
| SendAuthRequest (imsi apn : chunk) (next : option gsup_response -> program).

Section Handlers.
Context `{Osmocom}.

(** ** The listener *)

Definition eap_failed (u : nat) : program := SetState u UE_FAIL (Put u (Return (Success false))).

Definition eap_authorize (sa : ike_sa) (id : option chunk) : program :=
  match id with
  | None => Return (Success false)
  | Some id =>
    match epdg_get_imsi id imsi_digits with
    | None => Return (Success false)
    | Some imsi =>
      CreateSubscriber sa (fun ue =>
        match ue with
        | None => Return (Success false)
        | Some u =>
          UpdateLocation imsi (fun resp =>
            match resp with
            | None => RemoveSubscriber imsi (eap_failed u)
            | Some resp =>
              if negb (message_type resp =? UPDATE_LOCATION_RESULT) then eap_failed u
              else SetState u UE_LOCATION_UPDATED (Put u (Return (Success true)))
            end)
        end)
    end
  end.

(** The octet at an offset; [None] is a read outside of the options. *)
Definition octet (pco : chunk) (offset : Z) : option Z :=
  if offset <? 0 then None else pco !! Z.to_nat offset.

Definition octets (pco : chunk) (offset : Z) (n : nat) : option chunk :=
  mapM (fun i => octet pco (offset + Z.of_nat i)) (seq 0 n).

Definition APCO_PID_DNS_SERVER_IPV4 : Z := 13.
Definition APCO_PID_P_CSCF_IPV4 : Z := 12.

(** The attribute of a container; the address is that of the four octets, through their
    text form and back. *)
Definition container_attribute (pco : chunk) (id length offset : Z) : option (list osmo_epdg_attribute) :=
  let attribute type :=
    if length =? 4 then a ← octets pco offset 4; Some [Attribute type a true] else Some [] in
  if id =? APCO_PID_DNS_SERVER_IPV4 then attribute INTERNAL_IP4_DNS
  else if id =? APCO_PID_P_CSCF_IPV4 then attribute P_CSCF_IP4_ADDRESS
  else Some [].

(** The loop over the containers, from [offset] on. *)
Fixpoint apco_loop (fuel : nat) (pco : chunk) (offset : Z) : option (list osmo_epdg_attribute) :=
  match fuel with
  | O => None
  | S fuel =>
    if offset + 3 <? len pco then
      hi ← octet pco offset;
      lo ← octet pco (offset + 1);
      let container_id := u16 (Z.lor (Z.shiftl hi 8) lo) in
      let offset := offset + 2 in
      if offset >=? len pco then Some []
      else
        length ← octet pco offset;
        let offset := offset + 1 in
        if offset + length >? len pco then Some []
        else
          l ← container_attribute pco container_id length offset;
          rest ← apco_loop fuel pco (offset + length);
          Some (l ++ rest)
    else Some []
  end.

(** The first octet, the configuration protocol, is only logged. *)
Definition decode_apco (pco : chunk) : option (list osmo_epdg_attribute) :=
  _ ← octet pco 0; apco_loop (length pco) pco 1.

Fixpoint insert_attributes (u : nat) (l : list osmo_epdg_attribute) (next : program) : program :=
  match l with
  | [] => next
  | a :: l => InsertAttribute u a (insert_attributes u l next)
  end.

Definition authorize_failed (ue : option nat) : program :=
  match ue with
  | Some u => SetState u UE_FAIL (Put u (Return (Success false)))
  | None => Return (Success false)
  end.

(** Whether a tunnel response has the one address that is asked for. *)
Definition tunnel_address (resp : gsup_response) : option host_t :=
  if message_type resp =? EPDG_TUNNEL_ERROR then None
  else if negb (message_type resp =? EPDG_TUNNEL_RESULT) then None
  else
    let info := pdp_infos_0 resp in
    if negb (num_pdp_infos resp =? 1) || negb (have_info info)
       || negb (pdp_type_org info =? PDP_TYPE_ORG_IETF) || negb (pdp_type_nr info =? PDP_TYPE_N_IETF_IPv4)
    then None
    else if negb (sa_family (pdp_address info) =? AF_INET) then None
    else Some (pdp_address info).

(** The attributes of a tunnel response; [decode_apco] never reads outside of the options
    ([apco_stays_inside]), so the default is not used. *)
Definition tunnel_attributes (resp : gsup_response) : list osmo_epdg_attribute :=
  match pco resp with
  | Some ((_ :: _) as pco) => default [] (decode_apco pco)
  | _ => []
  end.

Definition authorize (sa : ike_sa) (final : bool) : program :=
  if negb final then Return (Success true)
  else
    match other_id sa with
    | None => authorize_failed None
    | Some id =>
      match epdg_get_imsi id imsi_digits with
      | None => authorize_failed None
      | Some imsi =>
        GetSubscriber imsi (fun ue =>
          match ue with
          | None => authorize_failed None
          | Some u =>
            SetState u UE_WAIT_TUNNEL (TunnelRequest imsi (fun resp =>
              match resp with
              | None => authorize_failed ue
              | Some resp =>
                match tunnel_address resp with
                | None => authorize_failed ue
                | Some address =>
                  SetAddress u address (insert_attributes u (tunnel_attributes resp)
                    (SetState u UE_TUNNEL_READY (Put u (Return (Success true)))))
                end
              end))
          end)
      end
    end.

(** ** The providers *)

Definition get_quintuplet (id : chunk) (sa : option ike_sa) : program :=
  match epdg_get_imsi id 16, sa with
  | Some imsi, Some sa =>
    match epdg_get_apn sa APN_MAXLEN with
    | None => Return (Quintuplet None)
    | Some apn =>
      SendAuthRequest imsi apn (fun resp =>
        match resp with
        | None => Return (Quintuplet None)
        | Some resp =>
          if negb (message_type resp =? SEND_AUTH_INFO_RESULT) then Return (Quintuplet None)
          else match auth_vectors resp with
               | auth :: _ => Return (Quintuplet (Some auth))
               | [] => Return (Quintuplet None)
               end
        end)
    end
  | _, _ => Return (Quintuplet None)
  end.

Definition acquire_address (sa : ike_sa) (requested : host_t) : program :=
  if negb (get_family requested =? AF_INET) then Return (Address None)
  else
    GetSubscriberIke sa (fun ue =>
      match ue with
      | None => Return (Address None)
      | Some u => GetAddress u (fun address => Put u (Return (Address address)))
      end).

Definition release_address (sa : ike_sa) (address : option host_t) : program :=
  GetSubscriberIke sa (fun ue =>
    match ue with
    | None => Return (Released false)
    | Some u =>
      GetAddress u (fun ue_address =>
        match ue_address, address with
        | Some ue_address, Some address => Put u (Return (Released (Host.equals address ue_address)))
        | _, _ => Put u (Return (Released false))
        end)
    end).

(** [attribute_enum_filter] *)
Definition attribute_enum (l : list osmo_epdg_attribute) : list (Z * chunk) :=
  omap (fun entry => if a_valid entry then Some (a_type entry, a_value entry) else None) l.

(** Until the enumerator is destroyed, with its reference. *)
Definition create_attribute_enumerator (sa : ike_sa) : program :=
  GetSubscriberIke sa (fun ue =>
    match ue with
    | None => Return (Attributes [])
    | Some u =>
      Get u (GetAttributes u (fun attributes =>
        Put u (Put u (Return (Attributes (attribute_enum attributes))))))
    end).

End Handlers.

(** * Runs *)

Section Run.
Context `{Osmocom}.

(** The requests to the home network. *)
Inductive request :=
| Update_location (imsi : chunk)
| Tunnel_request (imsi : chunk)
| Send_auth_info (imsi apn : chunk).

(** What the environment decides: the address of a new object, and the response to a
    request, if one arrives. *)
Record input := { in_fresh : nat; in_response : request -> option gsup_response }.

Definition then_ (x : result osmo_epdg_db) (p : program) : result (osmo_epdg_db * program) :=
  match x with Next s => Next (s, p) | Blocked => Blocked | Use_after_free => Use_after_free end.

Definition then_with {A} (x : result (osmo_epdg_db * A)) (p : A -> program) : result (osmo_epdg_db * program) :=
  match x with Next (s, a) => Next (s, p a) | Blocked => Blocked | Use_after_free => Use_after_free end.

(** One call of a handler. *)
Definition call (i : input) (p : program) (s : osmo_epdg_db) : result (osmo_epdg_db * program) :=
  match p with
  | Return _ => Blocked
  | CreateSubscriber sa next => then_with (create_subscriber sa (in_fresh i) s) next
  | GetSubscriber imsi next => then_with (get_subscriber imsi s) next
  | GetSubscriberIke sa next => then_with (get_subscriber_ike sa s) next
  | RemoveSubscriber imsi next => then_ (remove_subscriber imsi s) next
  | SetState u state next => then_ (set_state u state s) next
  | SetAddress u address next => then_ (set_address u address s) next
  | InsertAttribute u entry next => then_ (insert_attribute u entry s) next
  | GetAddress u next =>
    match get_address u s with
    | Next a => Next (s, next a)
    | Blocked => Blocked
    | Use_after_free => Use_after_free
    end
  | GetAttributes u next => then_with (get_attributes u s) next
  | Get u next => then_ (get u s) next
  | Put u next => then_ (put u s) next
  | UpdateLocation imsi next => Next (s, next (in_response i (Update_location imsi)))
  | TunnelRequest imsi next => Next (s, next (in_response i (Tunnel_request imsi)))
  | SendAuthRequest imsi apn next => Next (s, next (in_response i (Send_auth_info imsi apn)))
  end.

(** The handlers that run, each in its thread. *)
Record system := System { db : osmo_epdg_db; threads : list program }.

(** A handler starts: one of those of the plugin. *)
Inductive handler :=
| EapAuthorize (sa : ike_sa) (id : option chunk)
| Authorize (sa : ike_sa) (final : bool)
| GetQuintuplet (id : chunk) (sa : option ike_sa)
| AcquireAddress (sa : ike_sa) (requested : host_t)
| ReleaseAddress (sa : ike_sa) (address : option host_t)
| CreateAttributeEnumerator (sa : ike_sa).

Definition program_of (h : handler) : program :=
  match h with
  | EapAuthorize sa id => eap_authorize sa id
  | Authorize sa final => authorize sa final
  | GetQuintuplet id sa => get_quintuplet id sa
  | AcquireAddress sa requested => acquire_address sa requested
  | ReleaseAddress sa address => release_address sa address
  | CreateAttributeEnumerator sa => create_attribute_enumerator sa
  end.

Inductive action := Start (h : handler) | Step (thread : nat) (i : input).

Definition step (a : action) (s : system) : result system :=
  match a with
  | Start h => Next (System (db s) (threads s ++ [program_of h]))
  | Step t i =>
    match threads s !! t with
    | Some p =>
      match call i p (db s) with
      | Next (d, p) => Next (System d (<[t := p]> (threads s)))
      | Blocked => Blocked
      | Use_after_free => Use_after_free
      end
    | None => Blocked
    end
  end.

(** A run of actions in any order; one that is blocked stays behind. *)
Fixpoint run (actions : list action) (s : system) : result system :=
  match actions with
  | [] => Next s
  | a :: actions =>
    match step a s with
    | Next s => run actions s
    | Blocked => run actions s
    | Use_after_free => Use_after_free
    end
  end.

Definition initial : system := System osmo_epdg_db_create [].

(** A handler alone, from its start to its end. *)
Fixpoint exec (inputs : list input) (p : program) (s : osmo_epdg_db) : result (osmo_epdg_db * outcome) :=
  match p, inputs with
  | Return o, _ => Next (s, o)
  | _, [] => Blocked
  | _, i :: inputs =>
    match call i p s with
    | Next (s, p) => exec inputs p s
    | Blocked => Blocked
    | Use_after_free => Use_after_free
    end
  end.

End Run.
