(* ===== verification/EpdgSpec.v ===== *)
(** The subscribers of the ePDG are used safely: in any interleaving of handlers the count
    of references of a subscriber is that of the table and of the handlers that hold it, so
    nobody uses one that was freed and none is leaked. The handlers of the listener and of
    the providers do what they are for, and the lock that is not given back stops them. *)

From stdpp Require Import gmap gmultiset.
From S2P Require Import Prelude Host HashtableSpec Epdg.

(** * References *)

(** Questions on the members of multisets become arithmetic on how often they occur. *)
Ltac occurrences :=
  try (apply gmultiset_eq; intros ?);
  repeat match goal with H : @eq (gmultiset nat) _ _ |- _ => subst || rewrite H end;
  rewrite ?elem_of_multiplicity, ?multiplicity_disj_union, ?multiplicity_difference, ?multiplicity_disj_union,
    ?multiplicity_singleton_eq, ?multiplicity_empty in *;
  repeat match goal with N : ?u <> ?v |- _ =>
    progress (rewrite ?(multiplicity_singleton_ne v u), ?(multiplicity_singleton_ne u v) in * by done) end;
  lia.

Notation refs := (gmultiset nat).

(** [owns m p]: what is left of a handler uses subscribers it has references on, [m]
    now, and gives back every reference it has or gets. *)
Fixpoint owns (m : refs) (p : program) : Prop :=
  match p with
  | Return _ => m = ∅
  | CreateSubscriber _ next | GetSubscriber _ next | GetSubscriberIke _ next =>
    (forall u, owns (m ⊎ {[+ u +]}) (next (Some u))) /\ owns m (next None)
  | RemoveSubscriber _ next => owns m next
  | SetState u _ next | SetAddress u _ next | InsertAttribute u _ next => u ∈ m /\ owns m next
  | GetAddress u next => u ∈ m /\ forall a, owns m (next a)
  | GetAttributes u next => u ∈ m /\ forall l, owns m (next l)
  | Get u next => u ∈ m /\ owns (m ⊎ {[+ u +]}) next
  | Put u next => u ∈ m /\ owns (m ∖ {[+ u +]}) next
  | UpdateLocation _ next | TunnelRequest _ next | SendAuthRequest _ _ next => forall r, owns m (next r)
  end.

Definition total (l : list refs) : refs := foldr disj_union ∅ l.

(** The references of the table. *)
Definition table_refs (l : list (chunk * nat)) : refs := list_to_set_disj l.*2.
#[local] Arguments table_refs : simpl never.

(** The count of every object is [m], what there are references to is in memory. *)
Definition counted (m : refs) (h : gmap nat osmo_epdg_ue) : Prop :=
  forall u, match h !! u with
            | Some ue => ue_refcount ue = Z.of_nat (multiplicity u m) /\ u ∈ m
            | None => u ∉ m
            end.

(** No IMSI is in the table twice, and the key of a subscriber is its own IMSI. *)
Definition table_ok (s : osmo_epdg_db) : Prop :=
  NoDup (subscribers_imsi s).*1
  /\ forall k u ue, (k, u) ∈ subscribers_imsi s -> heap s !! u = Some ue -> ue_imsi ue = k.

Definition balanced (s : system) : Prop :=
  table_ok (db s) /\ exists held, Forall2 owns held (threads s)
    /\ counted (table_refs (subscribers_imsi (db s)) ⊎ total held) (heap (db s)).

Lemma total_cons m l : total (m :: l) = m ⊎ total l.
Proof. done. Qed.

Lemma total_lookup l t m :
  l !! t = Some m -> exists rest, total l = m ⊎ rest /\ forall m', total (<[t := m']> l) = m' ⊎ rest.
Proof.
  revert t. induction l as [|x l IH]; intros [|t] E; [done..| |].
  - injection E as ->. by exists (total l).
  - destruct (IH t E) as (rest & E1 & E2). exists (x ⊎ rest). rewrite total_cons, E1.
    split; [occurrences|]. intros m'. change (total (x :: <[t := m']> l) = m' ⊎ (x ⊎ rest)). rewrite total_cons, E2. occurrences.
Qed.

Lemma total_snoc l m : total (l ++ [m]) = total l ⊎ m.
Proof.
  induction l as [|x l IH]; [apply gmultiset_disj_union_comm|].
  rewrite <- app_comm_cons, !total_cons, IH. occurrences.
Qed.

Lemma remove_one (m : refs) (u : nat) : u ∈ m -> m = m ∖ {[+ u +]} ⊎ {[+ u +]}.
Proof.
  intros M. apply gmultiset_eq. intros v. destruct (decide (u = v)) as [<-|N]; [occurrences|].
  rewrite multiplicity_disj_union, multiplicity_difference, multiplicity_singleton_ne by done. lia.
Qed.

(** ** The table *)

Lemma table_refs_cons e l : table_refs (e :: l) = {[+ e.2 +]} ⊎ table_refs l.
Proof. done. Qed.

Lemma streq_true a b : streq a b = true <-> a = b.
Proof. apply bool_decide_eq_true. Qed.

Lemma streq_false a b : streq a b = false <-> a <> b.
Proof. apply bool_decide_eq_false. Qed.

Section Table.
Implicit Types (l : list (chunk * nat)) (m : refs).

Lemma streq_get_none l k : assoc_get streq l k = None <-> k ∉ l.*1.
Proof.
  induction l as [|[k' v] l IH]; [split; [by intros _ ?%elem_of_nil|done]|]. rewrite fmap_cons, not_elem_of_cons, <- IH.
  cbn. destruct (streq k k') eqn:E; [apply streq_true in E|apply streq_false in E]; naive_solver.
Qed.

Lemma assoc_put_absent l k v : k ∉ l.*1 -> assoc_put streq l k v = l ++ [(k, v)].
Proof.
  induction l as [|[k' v'] l IH]; [done|]. rewrite fmap_cons, not_elem_of_cons. intros [N1 N2]. cbn.
  rewrite (proj2 (streq_false k k') N1), IH by done. done.
Qed.

Lemma assoc_remove_sublist l k : sublist (assoc_remove streq l k).*1 l.*1.
Proof. induction l as [|[k' v] l IH]; cbn; [done|]. destruct (streq k k'); by constructor. Qed.

Lemma assoc_remove_absent l k : NoDup l.*1 -> k ∉ (assoc_remove streq l k).*1.
Proof.
  induction l as [|[k' v] l IH]; cbn; [by intros _ ?%elem_of_nil|]. intros [N D]%NoDup_cons.
  destruct (streq k k') eqn:E; [apply streq_true in E as ->; done|apply streq_false in E].
  rewrite fmap_cons, not_elem_of_cons. split; [done|by apply IH].
Qed.

Lemma assoc_remove_notin l k : k ∉ l.*1 -> assoc_remove streq l k = l.
Proof.
  induction l as [|[k' v'] l IH]; [done|]. rewrite fmap_cons, not_elem_of_cons. intros [N1 N2]. cbn.
  rewrite (proj2 (streq_false k k') N1), IH by done. done.
Qed.

Lemma assoc_remove_NoDup l k : NoDup l.*1 -> NoDup (assoc_remove streq l k).*1.
Proof. intros D. eapply sublist_NoDup; [exact D|apply assoc_remove_sublist]. Qed.

Lemma assoc_last l k v :
  k ∉ l.*1 -> assoc_get streq (l ++ [(k, v)]) k = Some v /\ assoc_remove streq (l ++ [(k, v)]) k = l.
Proof.
  induction l as [|[k' v'] l IH]; cbn; [by rewrite (proj2 (streq_true k k) eq_refl)|].
  rewrite not_elem_of_cons. intros [N1 N2]. rewrite (proj2 (streq_false k k') N1). by destruct (IH N2) as [-> ->].
Qed.

Lemma table_refs_get l k u :
  assoc_get streq l k = Some u -> table_refs l = {[+ u +]} ⊎ table_refs (assoc_remove streq l k).
Proof.
  induction l as [|[k' v] l IH]; [done|]. cbn [assoc_get assoc_remove]. destruct (streq k k').
  - intros E. by injection E as ->.
  - intros E. rewrite !table_refs_cons, IH by done. occurrences.
Qed.

Lemma assoc_remove_in l k e : e ∈ assoc_remove streq l k -> e ∈ l.
Proof.
  induction l as [|[k' v] l IH]; cbn; [done|].
  destruct (streq k k'); rewrite ?elem_of_cons; naive_solver.
Qed.

Lemma table_refs_in l k u : (k, u) ∈ l -> u ∈ table_refs l.
Proof. intros E. unfold table_refs. apply elem_of_list_to_set_disj. by apply (list_elem_of_fmap_2 snd l (k, u)). Qed.

Lemma table_refs_put l k u :
  k ∉ l.*1 -> table_refs (assoc_put streq l k u) = {[+ u +]} ⊎ table_refs l.
Proof.
  intros N. rewrite assoc_put_absent by done. unfold table_refs.
  rewrite fmap_app, list_to_set_disj_app.
  change (list_to_set_disj [(k, u)].*2 : refs) with ({[+ u +]} ⊎ ∅ : refs). occurrences.
Qed.

(** ** The counts *)

Lemma counted_lookup m h u : counted m h -> u ∈ m -> exists ue, h !! u = Some ue.
Proof. intros C M. specialize (C u). destruct (h !! u); [eauto|done]. Qed.

Lemma counted_update m h u ue ue' :
  counted m h -> h !! u = Some ue -> ue_refcount ue' = ue_refcount ue -> counted m (<[u := ue']> h).
Proof.
  intros C E R v. specialize (C v). destruct (decide (u = v)) as [<-|N].
  - rewrite lookup_insert_eq. rewrite E in C. by rewrite R.
  - by rewrite lookup_insert_ne.
Qed.

Lemma counted_get m m' h u ue :
  counted m h -> h !! u = Some ue -> m' = m ⊎ {[+ u +]} ->
  counted m' (<[u := with_refcount (ue_refcount ue + 1) ue]> h).
Proof.
  intros C E -> v. specialize (C v). destruct (decide (u = v)) as [<-|N].
  - rewrite lookup_insert_eq, multiplicity_disj_union, multiplicity_singleton_eq. rewrite E in C.
    cbn. destruct C as [-> _]. split; [lia|occurrences].
  - rewrite lookup_insert_ne, multiplicity_disj_union, multiplicity_singleton_ne by done.
    rewrite Nat.add_0_r. (destruct (h !! v); [destruct C; split|]; occurrences).
Qed.

Lemma counted_put m m' h u ue :
  counted m h -> h !! u = Some ue -> m = m' ⊎ {[+ u +]} ->
  counted m' (if ue_refcount ue =? 1 then delete u h
              else <[u := with_refcount (ue_refcount ue - 1) ue]> h).
Proof.
  intros C E -> v. pose proof (C u) as Cu. rewrite E in Cu. destruct Cu as [R _].
  rewrite multiplicity_disj_union, multiplicity_singleton_eq in R. specialize (C v).
  destruct (decide (u = v)) as [<-|N].
  - destruct (Z.eqb_spec (ue_refcount ue) 1).
    + rewrite lookup_delete_eq, elem_of_multiplicity. lia.
    + rewrite lookup_insert_eq, elem_of_multiplicity. cbn. lia.
  - rewrite multiplicity_disj_union, multiplicity_singleton_ne, Nat.add_0_r in C by done.
    destruct (ue_refcount ue =? 1); [rewrite lookup_delete_ne by done|rewrite lookup_insert_ne by done];
      (destruct (h !! v); [destruct C; split|]; occurrences).
Qed.

Lemma counted_new m m' h u ue :
  counted m h -> h !! u = None -> ue_refcount ue = 2 -> m' = m ⊎ {[+ u +]} ⊎ {[+ u +]} ->
  counted m' (<[u := ue]> h).
Proof.
  intros C E R -> v. specialize (C v). destruct (decide (u = v)) as [<-|N].
  - rewrite lookup_insert_eq, R, !multiplicity_disj_union, multiplicity_singleton_eq. rewrite E in C.
    rewrite elem_of_multiplicity in C. split; [lia|occurrences].
  - rewrite lookup_insert_ne, !multiplicity_disj_union, multiplicity_singleton_ne by done.
    rewrite !Nat.add_0_r. (destruct (h !! v); [destruct C; split|]; occurrences).
Qed.

End Table.

(** ** Calls *)

(** A call goes on with a state that satisfies [P], or waits. *)
Definition safe {A} (x : result A) (P : A -> Prop) : Prop :=
  match x with Next a => P a | Blocked => True | Use_after_free => False end.

(** What a call leaves: the references of the handler, those of the others, the table. *)
Definition good (rest m : refs) (s : osmo_epdg_db) : Prop :=
  table_ok s /\ counted (table_refs (subscribers_imsi s) ⊎ (m ⊎ rest)) (heap s).

Lemma ue_access_safe {A} rest m u s (f : osmo_epdg_ue -> result A) P :
  good rest m s -> u ∈ m -> (forall ue, heap s !! u = Some ue -> safe (f ue) P) ->
  safe (access u s f) P.
Proof.
  intros [_ C] M F. destruct (counted_lookup _ _ u C) as [ue E]; [occurrences|].
  unfold access. rewrite E. by apply F.
Qed.

Lemma table_ok_store u ue ue' s :
  table_ok s -> heap s !! u = Some ue -> ue_imsi ue' = ue_imsi ue -> table_ok (store u ue' s).
Proof.
  intros [D K] E I. split; [done|]. intros k v ve. cbn. destruct (decide (u = v)) as [<-|N].
  - rewrite lookup_insert_eq. intros Hk Ev. injection Ev as <-. rewrite I. by eapply K.
  - rewrite lookup_insert_ne by done. apply K.
Qed.

Lemma table_ok_delete u s : table_ok s -> table_ok (with_heap (delete u (heap s)) s).
Proof. intros [D K]. split; [done|]. intros k v ve Hk E. cbn in E.
  apply lookup_delete_Some in E as [_ E]. by eapply K. Qed.

Lemma table_ok_remove k s :
  table_ok s -> table_ok (with_subscribers (assoc_remove streq (subscribers_imsi s) k) s).
Proof.
  intros [D K]. split; [by apply assoc_remove_NoDup|]. intros k' v ve Hk E.
  eapply K; [|exact E]. eapply assoc_remove_in. exact Hk.
Qed.

Lemma store_good rest m u ue ue' s :
  good rest m s -> heap s !! u = Some ue -> ue_refcount ue' = ue_refcount ue -> ue_imsi ue' = ue_imsi ue ->
  good rest m (store u ue' s).
Proof. intros [D C] E R I. split; [by eapply table_ok_store|]. by eapply counted_update. Qed.

Lemma write_safe rest m u ue ue' s :
  good rest m s -> heap s !! u = Some ue -> ue_refcount ue' = ue_refcount ue -> ue_imsi ue' = ue_imsi ue ->
  safe (write_lock ue (Next (store u ue' s))) (good rest m).
Proof. intros G E R I. unfold write_lock. case_if; [by eapply store_good|done]. Qed.

Lemma set_state_safe rest m u st s : good rest m s -> u ∈ m -> safe (set_state u st s) (good rest m).
Proof. intros G M. eapply ue_access_safe; [done..|]. intros ue E. by eapply write_safe. Qed.

Lemma set_address_safe rest m u a s : good rest m s -> u ∈ m -> safe (set_address u a s) (good rest m).
Proof. intros G M. eapply ue_access_safe; [done..|]. intros ue E. by eapply write_safe. Qed.

Lemma insert_attribute_safe rest m u a s :
  good rest m s -> u ∈ m -> safe (insert_attribute u a s) (good rest m).
Proof. intros G M. eapply ue_access_safe; [done..|]. intros ue E. by eapply write_safe. Qed.

Lemma get_attributes_safe rest m u s :
  good rest m s -> u ∈ m -> safe (get_attributes u s) (fun r => good rest m r.1).
Proof. intros G M. eapply ue_access_safe; [done..|]. intros ue E. by eapply store_good. Qed.

Lemma get_safe rest m u s :
  good rest m s -> u ∈ m \/ u ∈ table_refs (subscribers_imsi s) ->
  safe (get u s) (good rest (m ⊎ {[+ u +]})).
Proof.
  intros [D C] M. destruct (counted_lookup _ _ u C) as [ue E]; [occurrences|].
  unfold get, access. rewrite E. split; [by eapply table_ok_store|]. eapply counted_get; [done..|].
  change (subscribers_imsi (store _ _ _)) with (subscribers_imsi s). occurrences.
Qed.

(** A reference is given up: one of the handler, or one that the table had. *)
Lemma ue_put_safe rest m u s :
  table_ok s ->
  counted (table_refs (subscribers_imsi s) ⊎ (m ⊎ rest) ⊎ {[+ u +]}) (heap s) ->
  safe (put u s) (fun s' => good rest m s' /\ subscribers_imsi s' = subscribers_imsi s).
Proof.
  intros D C. destruct (counted_lookup _ _ u C) as [ue E]; [occurrences|].
  unfold put, access. rewrite E. pose proof (counted_put _ _ _ u ue C E eq_refl) as C'. cbn.
  destruct (ue_refcount ue =? 1); (split; [split|]); [..|done]; try done.
  - by apply table_ok_delete.
  - by eapply table_ok_store.
Qed.

Section Calls.
Context `{Osmocom}.

Lemma get_subscriber_safe rest m imsi s :
  good rest m s ->
  safe (get_subscriber imsi s)
       (fun r => match r.2 with Some u => good rest (m ⊎ {[+ u +]}) r.1 | None => good rest m r.1 end).
Proof.
  intros G. unfold get_subscriber. destruct (assoc_get _ _ _) as [u|] eqn:E; [|done].
  assert (S : safe (get u s) (good rest (m ⊎ {[+ u +]}))).
  { apply get_safe; [done|]. right. rewrite (table_refs_get _ _ _ E). occurrences. }
  by destruct (get u s).
Qed.

Lemma get_subscriber_ike_safe rest m sa s :
  good rest m s ->
  safe (get_subscriber_ike sa s)
       (fun r => match r.2 with Some u => good rest (m ⊎ {[+ u +]}) r.1 | None => good rest m r.1 end).
Proof.
  intros G. unfold get_subscriber_ike. destruct (epdg_get_imsi_ike sa 16); [by apply get_subscriber_safe|done].
Qed.

(** The entry of a key is taken out of the table and its reference given up. *)
Lemma take_out_safe rest m imsi u s :
  good rest m s -> assoc_get streq (subscribers_imsi s) imsi = Some u ->
  safe (put u (with_subscribers (assoc_remove streq (subscribers_imsi s) imsi) s))
       (fun s' => good rest m s' /\ subscribers_imsi s' = assoc_remove streq (subscribers_imsi s) imsi).
Proof.
  intros [D C] E. apply ue_put_safe; cbn; [by apply table_ok_remove|].
  rewrite (table_refs_get _ _ _ E) in C. revert C. generalize (heap s). intros h.
  match goal with |- counted ?a _ -> counted ?b _ => replace b with a by occurrences end. done.
Qed.

Lemma remove_subscriber_safe rest m imsi s :
  good rest m s -> safe (remove_subscriber imsi s) (good rest m).
Proof.
  intros G. unfold remove_subscriber. destruct (assoc_get _ _ _) as [u|] eqn:E; [|done].
  pose proof (take_out_safe rest m imsi u s G E) as S. by destruct (put _ _); [destruct S|..].
Qed.

Lemma create_subscriber_safe rest m sa at_ s :
  good rest m s ->
  safe (create_subscriber sa at_ s)
       (fun r => match r.2 with Some u => good rest (m ⊎ {[+ u +]}) r.1 | None => good rest m r.1 end).
Proof.
  intros G. unfold create_subscriber.
  destruct (epdg_get_imsi_ike _ _) as [imsi|]; [|done]. destruct (epdg_get_apn _ _) as [apn|]; [|done].
  set (l := assoc_remove streq (subscribers_imsi s) imsi).
  set (x := match assoc_get _ _ _ with Some u => _ | None => _ end).
  assert (S : safe x (fun s' => good rest m s' /\ subscribers_imsi s' = l)).
  { unfold x. destruct (assoc_get _ _ _) as [u|] eqn:E; [by apply take_out_safe|].
    assert (El : l = subscribers_imsi s) by (apply streq_get_none in E; by apply assoc_remove_notin).
    cbn. rewrite El. by destruct s. }
  clearbody x. destruct x as [s1| |]; [|done..]. destruct S as [G1 E1].
  destruct (osmo_epdg_ue_create _ _ _) as [ue|] eqn:Eu; [|done].
  destruct (heap s1 !! at_) eqn:Eh; [done|]. destruct G1 as [D1 C1].
  assert (N : imsi ∉ (subscribers_imsi s1).*1) by (rewrite E1; apply assoc_remove_absent, G).
  assert (R : ue_refcount ue = 1) by (unfold osmo_epdg_ue_create in Eu; case_if_in Eu; by simplify_eq).
  split; cbn; [split; cbn; [|intros k v ve]|].
  - rewrite assoc_put_absent, fmap_app by done. apply NoDup_app. split; [apply D1|].
    split; [|apply NoDup_singleton]. intros k Hk ->%list_elem_of_singleton. done.
  - rewrite assoc_put_absent, elem_of_app by done. intros [Hk|Ek%list_elem_of_singleton].
    + specialize (C1 at_). rewrite Eh in C1. rewrite lookup_insert_ne; [by apply D1|]. intros ->.
      apply C1. apply table_refs_in in Hk. occurrences.
    + injection Ek as -> ->. rewrite lookup_insert_eq. intros Ev. injection Ev as <-.
      unfold osmo_epdg_ue_create in Eu. case_if_in Eu; by simplify_eq.
  - eapply counted_new; [exact C1|done|cbn; lia|]. rewrite table_refs_put by done. occurrences.
Qed.

End Calls.

(** ** Every interleaving *)

Section Interleaving.
Context `{Osmocom}.

Lemma then_safe rest m x p :
  safe x (good rest m) -> owns m p ->
  safe (then_ x p) (fun r => exists m', owns m' r.2 /\ good rest m' r.1).
Proof. destruct x; [|done..]. intros G O. by exists m. Qed.

Lemma then_with_safe rest m x p :
  safe x (fun r => match r.2 with Some u => good rest (m ⊎ {[+ u +]}) r.1 | None => good rest m r.1 end) ->
  (forall u, owns (m ⊎ {[+ u +]}) (p (Some u))) -> owns m (p None) ->
  safe (then_with x p) (fun r => exists m', owns m' r.2 /\ good rest m' r.1).
Proof. destruct x as [[s [u|]]| |]; [..|done|done]; cbn; eauto. Qed.

Lemma handler_call_safe rest m i p s :
  good rest m s -> owns m p ->
  safe (call i p s) (fun r => exists m', owns m' r.2 /\ good rest m' r.1).
Proof.
  intros G O. destruct p; cbn in O; [done|..].
  - destruct O as [O1 O2]. apply (then_with_safe rest m); [by apply create_subscriber_safe|done..].
  - destruct O as [O1 O2]. apply (then_with_safe rest m); [by apply get_subscriber_safe|done..].
  - destruct O as [O1 O2]. apply (then_with_safe rest m); [by apply get_subscriber_ike_safe|done..].
  - apply (then_safe rest m); [by apply remove_subscriber_safe|done].
  - destruct O as [O1 O2]. apply (then_safe rest m); [by apply set_state_safe|done].
  - destruct O as [O1 O2]. apply (then_safe rest m); [by apply set_address_safe|done].
  - destruct O as [O1 O2]. apply (then_safe rest m); [by apply insert_attribute_safe|done].
  - destruct O as [O1 O2]. cbn. unfold get_address.
    assert (S : safe (access u s (fun ue => Next (ue_address ue))) (fun _ => True)) by by eapply ue_access_safe.
    destruct (access _ _ _); [|done..]. exists m. split; [apply O2|done].
  - destruct O as [O1 O2]. cbn. pose proof (get_attributes_safe rest m u s G O1) as S.
    destruct (get_attributes u s) as [[s' l]| |]; [|done..]. exists m. split; [apply O2|done].
  - destruct O as [O1 O2]. apply (then_safe rest (m ⊎ {[+ u +]})); [apply get_safe; [done|by left]|done].
  - destruct O as [O1 O2]. apply (then_safe rest (m ∖ {[+ u +]})); [|done].
    destruct G as [D C]. pose proof (remove_one m u O1) as Em. revert Em. generalize (m ∖ {[+ u +]}).
    intros m' ->. pose proof (ue_put_safe rest m' u s D) as S. replace (m' ⊎ {[+ u +]} ⊎ rest)
      with (m' ⊎ rest ⊎ {[+ u +]}) in C by occurrences. rewrite gmultiset_disj_union_assoc in C.
    specialize (S C). by destruct (put u s); [destruct S|..].
  - exists m. split; [apply O|done].
  - exists m. split; [apply O|done].
  - exists m. split; [apply O|done].
Qed.

Lemma owns_insert_attributes m u (attributes : list osmo_epdg_attribute) p : u ∈ m -> owns m p -> owns m (insert_attributes u attributes p).
Proof. intros M O. induction attributes as [|a l IH]; [done|]. by split. Qed.

(** Every handler of the plugin gives back what it gets. *)
Lemma program_of_owns h : owns ∅ (program_of h).
Proof.
  assert (I : forall u : nat, u ∈ (∅ ⊎ {[+ u +]} : refs)) by (intros u; occurrences).
  assert (E : forall u : nat, (∅ ⊎ {[+ u +]}) ∖ {[+ u +]} = (∅ : refs)) by (intros u; occurrences).
  destruct h as [sa id|sa final|id sa|sa requested|sa address|sa]; cbn [program_of].
  - unfold eap_authorize, eap_failed. destruct id as [id|]; [|done].
    destruct (epdg_get_imsi _ _); [|done]. split; [|done]. intros u [resp|]; [|cbn [owns]; auto].
    destruct (negb _); cbn [owns]; auto.
  - unfold authorize, authorize_failed. destruct (negb final); [done|].
    destruct (other_id sa) as [id|]; [|done]. destruct (epdg_get_imsi _ _); [|done].
    split; [|done]. intros u. split; [done|]. intros [resp|]; [|cbn [owns]; auto].
    destruct (tunnel_address resp); [|cbn [owns]; auto]. split; [done|].
    apply owns_insert_attributes; cbn [owns]; auto.
  - unfold get_quintuplet. destruct (epdg_get_imsi _ _), sa as [sa|]; [|done..].
    destruct (epdg_get_apn _ _); [|done]. intros [resp|]; [|done]. destruct (negb _); [done|].
    by destruct (auth_vectors resp).
  - unfold acquire_address. destruct (negb _); [done|]. split; [|done]. intros u. cbn [owns]. auto.
  - unfold release_address. split; [|done]. intros u. split; [done|].
    intros [a|]; [destruct address as [b|]|]; cbn [owns]; auto.
  - clear I E. split; [|done]. intros u. cbn [owns]. repeat split; occurrences.
Qed.

Lemma step_balanced a s : balanced s -> safe (step a s) balanced.
Proof.
  intros (D & held & O & C). destruct a as [h|t i]; cbn.
  - split; [done|]. exists (held ++ [∅]). split.
    + apply Forall2_app; [done|]. constructor; [apply program_of_owns|done].
    + cbn. rewrite total_snoc. replace (total held ⊎ ∅) with (total held) by occurrences. done.
  - destruct (threads s !! t) as [p|] eqn:Ep; [|done].
    destruct (Forall2_lookup_r _ _ _ _ _ O Ep) as (m & Em & Om).
    destruct (total_lookup held t m Em) as (rest & E1 & E2). rewrite E1 in C.
    pose proof (handler_call_safe rest m i p (db s) (conj D C) Om) as S.
    destruct (call i p (db s)) as [[d' p']| |]; [|done..]. destruct S as (m' & O' & D' & C').
    split; [done|]. exists (<[t := m']> held). split; [by apply Forall2_insert|].
    cbn. by rewrite E2.
Qed.

Lemma run_balanced actions s : balanced s -> safe (run actions s) balanced.
Proof.
  revert s. induction actions as [|a actions IH]; intros s B; [done|]. cbn.
  pose proof (step_balanced a s B) as S. destruct (step a s); [by apply IH|by apply IH|done].
Qed.

Lemma run_not_blocked actions s : run actions s <> Blocked.
Proof. revert s. induction actions as [|a actions IH]; intros s; [done|]. cbn. by destruct (step a s). Qed.

Lemma initial_balanced : balanced initial.
Proof.
  split; [split; [constructor|by intros k u ue ?%elem_of_nil]|]. exists []. split; [constructor|]. intros u.
  change (u ∉ (∅ ⊎ ∅ : refs)). occurrences.
Qed.

End Interleaving.

(** ** What the counts mean *)

Definition finished (p : program) : Prop := match p with Return _ => True | _ => False end.

Lemma table_refs_not_in l u : (forall k, (k, u) ∉ l) -> u ∉ table_refs l.
Proof.
  intros N E. unfold table_refs in E. apply elem_of_list_to_set_disj, list_elem_of_fmap in E.
  destruct E as ([k v] & -> & E). by apply (N k).
Qed.

Lemma table_refs_once l k u :
  NoDup l.*1 -> (forall k', (k', u) ∈ l -> k' = k) -> (multiplicity u (table_refs l) <= 1)%nat.
Proof.
  induction l as [|[k' v] l IH]; intros D N;
    [change (multiplicity u (∅ : refs) <= 1)%nat; rewrite multiplicity_empty; lia|].
  apply NoDup_cons in D as [N' D]. rewrite table_refs_cons, multiplicity_disj_union. cbn [snd].
  destruct (decide (u = v)) as [<-|Nv].
  - assert (u ∉ table_refs l).
    { apply table_refs_not_in. intros k2 E. assert (k2 = k) by (apply N; by right).
      assert (k' = k) by (apply N; left). subst k2 k'. apply N'.
      by apply (list_elem_of_fmap_2 fst l (k, u)). }
    rewrite multiplicity_singleton_eq. occurrences.
  - rewrite multiplicity_singleton_ne by done. apply IH; [done|]. intros k2 E. apply N. by right.
Qed.

Lemma finished_total held ps : Forall2 owns held ps -> Forall finished ps -> total held = ∅.
Proof.
  induction 1 as [|m p held ps O _ IH]; [done|]. rewrite Forall_cons. intros [F Fs].
  rewrite total_cons, IH by done. destruct p; [|done..]. cbn in O. subst m. occurrences.
Qed.

(** C15: However the handlers of the listener and of the providers interleave, none of them
    uses a subscriber that was freed; the subscriber of every entry of the table is in
    memory under the entry's IMSI with at least one reference; and when the handlers have
    ended the only subscribers in memory are those of the table, each with the one
    reference the table has: nothing is leaked. *)
Theorem subscribers_balanced `{Osmocom} actions :
  match run actions initial with
  | Next s =>
    (forall imsi u, (imsi, u) ∈ subscribers_imsi (db s) ->
       exists ue, heap (db s) !! u = Some ue /\ ue_imsi ue = imsi /\ 1 <= ue_refcount ue)
    /\ (Forall finished (threads s) -> forall u ue, heap (db s) !! u = Some ue ->
          ue_refcount ue = 1 /\ (ue_imsi ue, u) ∈ subscribers_imsi (db s))
  | _ => False
  end.
Proof.
  pose proof (run_balanced actions initial initial_balanced) as S.
  assert (NB : run actions initial <> Blocked) by apply run_not_blocked.
  destruct (run actions initial) as [s| |]; [|done..]. destruct S as ([D K] & held & O & C). split.
  - intros imsi u Hi. apply table_refs_in in Hi as Hu.
    destruct (counted_lookup _ _ u C) as [ue E]; [occurrences|]. exists ue.
    split; [done|]. split; [by eapply K|]. specialize (C u). rewrite E in C. destruct C as [-> C]. occurrences.
  - intros F u ue E. specialize (C u). rewrite E, (finished_total _ _ O F) in C. destruct C as [R M].
    assert (M' : u ∈ table_refs (subscribers_imsi (db s))) by occurrences.
    assert (N : (multiplicity u (table_refs (subscribers_imsi (db s))) <= 1)%nat)
      by (apply (table_refs_once _ (ue_imsi ue)); [done|]; intros k Hk; symmetry; by eapply K).
    split; [rewrite R; occurrences|]. unfold table_refs in M'.
    apply elem_of_list_to_set_disj, list_elem_of_fmap in M' as ([k v] & -> & Hk). cbn in *.
    by rewrite (K _ _ _ Hk E).
Qed.

(** * The options of a tunnel response *)

(** A container: its identifier and its contents. *)
Notation container := (Z * chunk)%type.

Definition container_ok (c : container) : Prop := 0 <= c.1 < 65536 /\ len c.2 < 256.

Definition encode_container (c : container) : chunk := be_bytes 2 c.1 ++ len c.2 :: c.2.

Definition encode_containers (l : list container) : chunk := concat (map encode_container l).

(** The addresses of name servers and of call control functions are attributes. *)
Definition attributes_of (c : container) : list osmo_epdg_attribute :=
  if len c.2 =? 4 then
    if c.1 =? APCO_PID_DNS_SERVER_IPV4 then [Attribute INTERNAL_IP4_DNS c.2 true]
    else if c.1 =? APCO_PID_P_CSCF_IPV4 then [Attribute P_CSCF_IP4_ADDRESS c.2 true]
    else []
  else [].

(** Too short for a container, or for its contents. *)
Definition truncated (tail : chunk) : Prop :=
  len tail <= 3 \/ exists hi lo n rest, tail = hi :: lo :: n :: rest /\ len rest < n.

Section Apco.
Implicit Types (pre tail pco : chunk).

Lemma octet_app pre x tail : octet (pre ++ x :: tail) (len pre) = Some x.
Proof.
  unfold octet, len. case_if; [lia|]. rewrite Nat2Z.id. by rewrite list_lookup_middle.
Qed.

Lemma octet_at pre x tail o : o = len pre -> octet (pre ++ x :: tail) o = Some x.
Proof. intros ->. apply octet_app. Qed.

Lemma octets_app pre c tail o : o = len pre -> octets (pre ++ c ++ tail) o (length c) = Some c.
Proof.
  intros ->. apply mapM_Some_2, Forall2_same_length_lookup. rewrite length_seq. split; [done|].
  intros i x y [-> Hi]%lookup_seq E. unfold octet, len. case_if; [lia|].
  replace (Z.to_nat (Z.of_nat (length pre) + Z.of_nat (0 + i))) with (length pre + i)%nat by lia.
  rewrite lookup_app_r by lia. replace (length pre + i - length pre)%nat with i by lia.
  by apply lookup_app_l_Some.
Qed.

Lemma encode_container_eq id v :
  0 <= id < 65536 ->
  encode_container (id, v) = id / 256 :: id mod 256 :: len v :: v.
Proof.
  intros Hi. unfold encode_container. cbn [fst snd be_bytes app]. rewrite Z.div_1_r.
  change (256 ^ Z.of_nat 1) with 256. by rewrite (Z.mod_small (id / 256)) by div_lia.
Qed.

Lemma container_id_octets id : 0 <= id < 65536 -> u16 (Z.lor (Z.shiftl (id / 256) 8) (id mod 256)) = id.
Proof.
  intros Hi. rewrite <- Z.add_nocarry_lor.
  - rewrite Z.shiftl_mul_pow2 by done. rewrite wrap_small; div_lia.
  - apply Z.bits_inj'. intros n Hn. rewrite Z.land_spec, Z.bits_0, Z.shiftl_spec by done.
    destruct (Z_lt_dec n 8); [by rewrite Z.testbit_neg_r by lia|].
    change 256 with (2 ^ 8). rewrite Z.mod_pow2_bits_high by lia. apply andb_false_r.
Qed.

Lemma container_attribute_spec pre c tail o :
  o = len pre -> container_attribute (pre ++ c.2 ++ tail) c.1 (len c.2) o = Some (attributes_of c).
Proof.
  intros Eo. unfold container_attribute, attributes_of.
  destruct (Z.eqb_spec (len c.2) 4) as [E|_].
  - assert (El : length c.2 = 4%nat) by (unfold len in E; lia).
    pose proof (octets_app pre c.2 tail o Eo) as O. rewrite El in O. rewrite O. cbn [mbind option_bind].
    by repeat case_if.
  - by repeat case_if.
Qed.

(** One round of the loop at a container that is complete and not the last octet triple. *)
Lemma apco_loop_container fuel pre c tail :
  container_ok c -> 0 < len (c.2 ++ tail) ->
  apco_loop (S fuel) (pre ++ encode_container c ++ tail) (len pre)
  = (rest ← apco_loop fuel ((pre ++ encode_container c) ++ tail) (len (pre ++ encode_container c));
     Some (attributes_of c ++ rest)).
Proof.
  destruct c as [id v]. intros [Hi Hv] Hl. cbn [fst snd] in *. rewrite encode_container_eq by done.
  rewrite len_app in Hl. set (pco := pre ++ (id / 256 :: id mod 256 :: len v :: v) ++ tail).
  assert (L : len pco = len pre + 3 + len v + len tail).
  { unfold pco. cbn [app]. rewrite len_app, !len_cons, len_app. lia. }
  assert (O1 : octet pco (len pre) = Some (id / 256)) by apply octet_app.
  assert (O2 : octet pco (len pre + 1) = Some (id mod 256)).
  { replace pco with ((pre ++ [id / 256]) ++ (id mod 256) :: len v :: v ++ tail) by (unfold pco; by rewrite <- app_assoc).
    apply octet_at. rewrite len_app, len_cons, len_nil. lia. }
  assert (O3 : octet pco (len pre + 2) = Some (len v)).
  { replace pco with ((pre ++ [id / 256; id mod 256]) ++ len v :: v ++ tail) by (unfold pco; by rewrite <- app_assoc).
    apply octet_at. rewrite len_app, !len_cons, len_nil. lia. }
  assert (O4 : container_attribute pco id (len v) (len pre + 2 + 1) = Some (attributes_of (id, v))).
  { replace pco with ((pre ++ [id / 256; id mod 256; len v]) ++ v ++ tail) by (unfold pco; by rewrite <- app_assoc).
    apply (container_attribute_spec _ (id, v)). rewrite len_app, !len_cons, len_nil. lia. }
  cbn [apco_loop]. pose proof (len_nonneg v). pose proof (len_nonneg tail).
  rewrite (proj2 (Z.ltb_lt _ _)) by lia. rewrite O1. cbn [mbind option_bind]. rewrite O2. cbn [mbind option_bind].
  rewrite container_id_octets by done. case_if; [lia|]. rewrite O3. cbn [mbind option_bind].
  case_if; [lia|]. rewrite O4. cbn [mbind option_bind].
  unfold pco. rewrite app_assoc.
  replace (len pre + 2 + 1 + len v) with (len (pre ++ id / 256 :: id mod 256 :: len v :: v)); [done|].
  rewrite len_app, !len_cons. lia.
Qed.

Lemma apco_loop_truncated fuel pre tail :
  truncated tail -> apco_loop (S fuel) (pre ++ tail) (len pre) = Some [].
Proof.
  intros T. cbn [apco_loop]. destruct (Z.ltb_spec (len pre + 3) (len (pre ++ tail))) as [L|]; [|done].
  rewrite len_app in L. destruct T as [T|(hi & lo & n & rest & -> & T)]; [lia|].
  rewrite octet_app. cbn [mbind option_bind].
  replace (pre ++ hi :: lo :: n :: rest) with ((pre ++ [hi]) ++ lo :: n :: rest) by by rewrite <- app_assoc.
  rewrite (octet_at (pre ++ [hi]) lo (n :: rest) (len pre + 1)) by (rewrite len_app, ?len_cons, len_nil; lia). cbn [mbind option_bind].
  destruct (_ >=? _); [done|].
  replace ((pre ++ [hi]) ++ lo :: n :: rest) with ((pre ++ [hi; lo]) ++ n :: rest) by by rewrite <- !app_assoc.
  rewrite (octet_at (pre ++ [hi; lo]) n rest (len pre + 2)) by (rewrite len_app, ?len_cons, len_nil; lia). cbn [mbind option_bind].
  rewrite Z.gtb_ltb, (proj2 (Z.ltb_lt _ _)); [done|]. rewrite !len_app, !len_cons, len_nil. lia.
Qed.

Lemma len_encode_container c : len (encode_container c) = 3 + len c.2.
Proof. unfold encode_container. rewrite len_app, len_be_bytes, len_cons. lia. Qed.

Lemma encode_containers_empty (l : list container) : len (encode_containers l) = 0 -> l = [].
Proof.
  destruct l as [|c l]; [done|]. change (encode_containers (c :: l)) with (encode_container c ++ encode_containers l).
  rewrite len_app, len_encode_container. pose proof (len_nonneg c.2). pose proof (len_nonneg (encode_containers l)). lia.
Qed.

Lemma apco_loop_spec (l : list container) fuel pre tail :
  Forall container_ok l -> truncated tail -> (length l < fuel)%nat ->
  apco_loop fuel (pre ++ encode_containers l ++ tail) (len pre) = Some (concat (map attributes_of l)).
Proof.
  intros Hl T. revert fuel pre. induction Hl as [|c l Hc Hl IH]; intros [|fuel] pre Hf; [cbn in Hf; lia| |cbn in Hf; lia|].
  - by apply apco_loop_truncated.
  - change (encode_containers (c :: l)) with (encode_container c ++ encode_containers l). rewrite <- app_assoc.
    destruct (Z_lt_dec 0 (len (c.2 ++ encode_containers l ++ tail))) as [P|P].
    + rewrite apco_loop_container, IH by (done || cbn in Hf; lia). done.
    + rewrite !len_app in P. pose proof (len_nonneg c.2). pose proof (len_nonneg (encode_containers l)).
      pose proof (len_nonneg tail). rewrite (encode_containers_empty l), (len_zero_inv tail) by lia.
      cbn [encode_containers map concat app]. rewrite !app_nil_r.
      rewrite apco_loop_truncated by (left; rewrite len_encode_container; lia).
      unfold attributes_of. by rewrite (proj2 (Z.eqb_neq (len c.2) 4)) by lia.
Qed.

Lemma length_encode_containers (l : list container) : (length l <= length (encode_containers l))%nat.
Proof.
  induction l as [|c l IH]; [done|]. change (encode_containers (c :: l)) with (encode_container c ++ encode_containers l).
  rewrite length_app. pose proof (len_encode_container c) as L. pose proof (len_nonneg c.2).
  unfold len in *. cbn [length]. lia.
Qed.

(** Any octets are containers and a rest that is too short. *)
Lemma apco_split pco :
  bytes_ok pco -> exists (l : list container) tail, pco = encode_containers l ++ tail /\ Forall container_ok l /\ truncated tail.
Proof.
  remember (length pco) as n eqn:En. revert pco En. induction (lt_wf n) as [n _ IH]. intros pco -> B.
  destruct pco as [|hi [|lo [|n rest]]]; 
    [refine (ex_intro _ [] (ex_intro _ _ (conj eq_refl (conj _ (or_introl _))))); [done|unfold len; cbn; lia]..|].
  destruct (Z_lt_dec (len rest) n) as [T|T].
  { exists [], (hi :: lo :: n :: rest). split; [done|]. split; [done|]. right. by exists hi, lo, n, rest. }
  apply Forall_cons in B as [B1 B]. apply Forall_cons in B as [B2 B]. apply Forall_cons in B as [B3 B].
  unfold byte_ok in *. set (v := take (Z.to_nat n) rest).
  assert (Lv : len v = n) by (unfold v; rewrite len_take; lia).
  destruct (IH (length (drop (Z.to_nat n) rest))) with (pco := drop (Z.to_nat n) rest)
    as (l & tail & E & Hl & Ht); [|done|by apply bytes_ok_drop|].
  { rewrite length_drop. cbn. lia. }
  exists ((hi * 256 + lo, v) :: l), tail. split; [|split; [constructor; [|done]|done]].
  - change (encode_containers ((hi * 256 + lo, v) :: l)) with (encode_container (hi * 256 + lo, v) ++ encode_containers l).
    rewrite <- app_assoc, <- E, encode_container_eq, Lv by lia. cbn [app]. unfold v. rewrite take_drop.
    f_equal; [div_lia|]. f_equal. div_lia.
  - unfold container_ok. cbn. lia.
Qed.

Lemma decode_apco_spec cfg (l : list container) tail :
  Forall container_ok l -> truncated tail ->
  decode_apco (cfg :: encode_containers l ++ tail) = Some (concat (map attributes_of l)).
Proof.
  intros Hl T. unfold decode_apco. change (octet _ 0) with (Some cfg). cbn [mbind option_bind].
  apply (apco_loop_spec l _ [cfg]); [done..|]. cbn. rewrite length_app.
  pose proof (length_encode_containers l). lia.
Qed.

End Apco.

(** Options that are any containers, whatever they hold, and a rest too short to be one
    are decoded to the attributes of the containers of addresses, in their order. *)
Theorem apco_decodes_containers cfg (l : list container) tail :
  Forall container_ok l -> truncated tail ->
  decode_apco (cfg :: encode_containers l ++ tail) = Some (concat (map attributes_of l)).
Proof. apply decode_apco_spec. Qed.

Lemma apco_decodes_containers_witness :
  decode_apco (128 :: encode_containers [(13, [10; 0; 0; 1]); (16, [5]); (12, [10; 0; 0; 2]); (13, [])] ++ [0; 13; 4; 1])
  = Some [Attribute INTERNAL_IP4_DNS [10; 0; 0; 1] true; Attribute P_CSCF_IP4_ADDRESS [10; 0; 0; 2] true].
Proof.
  apply (apco_decodes_containers 128 [(13, [10; 0; 0; 1]); (16, [5]); (12, [10; 0; 0; 2]); (13, [])] [0; 13; 4; 1]).
  - repeat constructor; cbn; lia.
  - right. exists 0, 13, 4, [1]. split; [done|reflexivity].
Defined.

(** Whatever octets the home network sends as options, the decoder ends and never
    reads outside of them. *)
Theorem apco_stays_inside pco : bytes_ok pco -> pco <> [] -> exists attributes, decode_apco pco = Some attributes.
Proof.
  intros B N. destruct pco as [|cfg pco]; [done|]. apply Forall_cons in B as [_ B].
  destruct (apco_split pco B) as (l & tail & -> & Hl & T). eexists. by apply decode_apco_spec.
Qed.

Lemma apco_stays_inside_witness : exists attributes, decode_apco [128; 0; 13; 255; 1] = Some attributes.
Proof. apply apco_stays_inside; [|done]. repeat constructor; lia. Defined.

(** * Handlers alone *)

Section Handlers.
Context `{Osmocom} (i : input).

(** A handler that runs alone ends, with this state and outcome. *)
Definition ends (p : program) (s : osmo_epdg_db) (r : osmo_epdg_db * outcome) : Prop :=
  exists n, forall m, (n <= m)%nat -> exec (repeat i m) p s = Next r.

Lemma ends_return o s : ends (Return o) s (s, o).
Proof. exists O. intros [|m] _; done. Qed.

Lemma ends_call p s p' s' r : call i p s = Next (s', p') -> ends p' s' r -> ends p s r.
Proof.
  intros C [n E]. exists (S n). intros [|m] Hm; [lia|]. cbn [repeat exec].
  destruct p; [done|..]; rewrite C; apply E; lia.
Qed.

Variable (u : nat) (s : osmo_epdg_db).

Lemma store_store a b : store u a (store u b s) = store u a s.
Proof. unfold store, with_heap. cbn. by rewrite insert_insert_eq. Qed.

Lemma store_self a : heap s !! u = Some a -> store u a s = s.
Proof. intros E. unfold store, with_heap. rewrite insert_id by done. by destruct s. Qed.

Lemma access_store {A} a (f : osmo_epdg_ue -> result A) : access u (store u a s) f = f a.
Proof. unfold access, store. cbn. by rewrite lookup_insert_eq. Qed.

Lemma ends_set_state a st p r :
  ue_readers a = 0 -> ends p (store u (with_state st a) s) r -> ends (SetState u st p) (store u a s) r.
Proof.
  intros R. apply ends_call. cbn. unfold set_state. rewrite access_store. unfold write_lock.
  by rewrite R, store_store.
Qed.

Lemma ends_set_address a x p r :
  ue_readers a = 0 -> ends p (store u (with_address (Some x) a) s) r -> ends (SetAddress u x p) (store u a s) r.
Proof.
  intros R. apply ends_call. cbn. unfold set_address. rewrite access_store. unfold write_lock.
  by rewrite R, store_store.
Qed.

Lemma ends_insert_attributes a (l : list osmo_epdg_attribute) p r :
  ue_readers a = 0 -> ends p (store u (with_attributes (ue_attributes a ++ l) a) s) r ->
  ends (insert_attributes u l p) (store u a s) r.
Proof.
  revert a. induction l as [|x l IH]; intros a R; cbn [insert_attributes].
  - rewrite app_nil_r. by destruct a.
  - intros E. eapply ends_call; [|apply (IH (with_attributes (ue_attributes a ++ [x]) a)); [done|]].
    + cbn. unfold insert_attribute. rewrite access_store. unfold write_lock. by rewrite R, store_store.
    + cbn. by rewrite <- app_assoc.
Qed.

Lemma ends_put a p r :
  ue_refcount a <> 1 -> ends p (store u (with_refcount (ue_refcount a - 1) a) s) r -> ends (Put u p) (store u a s) r.
Proof.
  intros R. apply ends_call. cbn. unfold put. rewrite access_store, (proj2 (Z.eqb_neq _ _)) by done.
  cbn. by rewrite store_store.
Qed.

Lemma ends_get_address a p r :
  ends (p (ue_address a)) (store u a s) r -> ends (GetAddress u p) (store u a s) r.
Proof. apply ends_call. cbn. unfold get_address. by rewrite access_store. Qed.

End Handlers.

(** ** Authorisation *)

(** What a registered subscriber becomes: its tunnel is ready if the home network answers
    with a tunnel that has one IPv4 address, and it has failed otherwise. *)
Definition authorized `{Osmocom} (resp : option gsup_response) (ue : osmo_epdg_ue) : osmo_epdg_ue * bool :=
  match resp with
  | Some r =>
    match tunnel_address r with
    | Some a => (with_state UE_TUNNEL_READY
                   (with_attributes (ue_attributes ue ++ tunnel_attributes r) (with_address (Some a) ue)), true)
    | None => (with_state UE_FAIL ue, false)
    end
  | None => (with_state UE_FAIL ue, false)
  end.

Lemma ends_get_subscriber `{Osmocom} i s imsi u ue p r :
  assoc_get streq (subscribers_imsi s) imsi = Some u -> heap s !! u = Some ue ->
  ends i (p (Some u)) (store u (with_refcount (ue_refcount ue + 1) ue) s) r ->
  ends i (GetSubscriber imsi p) s r.
Proof.
  intros G E. apply ends_call. cbn. unfold get_subscriber, get, access. by rewrite G, E.
Qed.

Lemma with_refcount_back ue f :
  (forall n, f (with_refcount n ue) = with_refcount n (f ue)) -> ue_refcount (f ue) = ue_refcount ue ->
  with_refcount (ue_refcount (f (with_refcount (ue_refcount ue + 1) ue)) - 1)
    (f (with_refcount (ue_refcount ue + 1) ue)) = f ue.
Proof.
  intros F R. rewrite F. cbn. replace (ue_refcount ue + 1 - 1) with (ue_refcount (f ue)) by lia.
  by destruct (f ue).
Qed.

Lemma authorize_ends `{Osmocom} i sa id imsi u ue s :
  other_id sa = Some id -> epdg_get_imsi id imsi_digits = Some imsi ->
  assoc_get streq (subscribers_imsi s) imsi = Some u -> heap s !! u = Some ue ->
  0 < ue_refcount ue -> ue_readers ue = 0 ->
  let (ue', ok) := authorized (in_response i (Tunnel_request imsi)) ue in
  ends i (authorize sa true) s (store u ue' s, Success ok).
Proof.
  intros Ei Em G E R L. set (ue1 := with_refcount (ue_refcount ue + 1) ue).
  assert (F : forall f : osmo_epdg_ue -> osmo_epdg_ue,
    (forall x n, f (with_refcount n x) = with_refcount n (f x)) ->
    (forall x, ue_refcount (f x) = ue_refcount x) -> forall o,
    ends i (Put u (Return o)) (store u (f ue1) s) (store u (f ue) s, o)).
  { intros f Ff Fr o. apply ends_put; [rewrite Fr; cbn; lia|].
    unfold ue1. rewrite with_refcount_back by auto. apply ends_return. }
  unfold authorized, authorize. cbn [negb]. rewrite Ei, Em.
  assert (Fail : ends i (authorize_failed (Some u)) (store u (with_state UE_WAIT_TUNNEL ue1) s)
                   (store u (with_state UE_FAIL ue) s, Success false)).
  { apply ends_set_state; [done|]. by apply (F (with_state UE_FAIL)). }
  assert (W : forall st, ue_readers (with_state st ue1) = 0) by done.
  destruct (in_response i (Tunnel_request imsi)) as [r|] eqn:Er; [destruct (tunnel_address r) as [a|] eqn:Ea|].
  all: eapply ends_get_subscriber; [done..|]; apply ends_set_state; [done|].
  all: eapply ends_call; [cbn; by rewrite Er|].
  - rewrite Ea. apply ends_set_address; [done|]. apply ends_insert_attributes; [done|].
    apply ends_set_state; [done|].
    by apply (F (fun x => with_state UE_TUNNEL_READY
      (with_attributes (ue_attributes ue ++ tunnel_attributes r) (with_address (Some a) x)))).
  - by rewrite Ea.
  - done.
Qed.

(** A tunnel with exactly one IPv4 address. *)
Record one_ipv4_tunnel `{Osmocom} (r : gsup_response) : Prop := {
  tunnel_no_error : message_type r <> EPDG_TUNNEL_ERROR;
  tunnel_result : message_type r = EPDG_TUNNEL_RESULT;
  tunnel_one : num_pdp_infos r = 1;
  tunnel_info : have_info (pdp_infos_0 r) = true;
  tunnel_ietf : pdp_type_org (pdp_infos_0 r) = PDP_TYPE_ORG_IETF;
  tunnel_ipv4 : pdp_type_nr (pdp_infos_0 r) = PDP_TYPE_N_IETF_IPv4;
  tunnel_inet : sa_family (pdp_address (pdp_infos_0 r)) = AF_INET;
}.

(** The attributes that options hold: none without options; and those of the containers,
    whichever they are, that follow the first octet, up to a rest too short to be one. *)
Definition options_hold (pco : option chunk) (attributes : list osmo_epdg_attribute) : Prop :=
  match pco with
  | Some (_ :: octets) => forall (l : list container) tail,
      octets = encode_containers l ++ tail -> Forall container_ok l -> truncated tail ->
      attributes = concat (map attributes_of l)
  | _ => attributes = []
  end.

Lemma tunnel_attributes_hold r : options_hold (pco r) (tunnel_attributes r).
Proof.
  unfold tunnel_attributes, options_hold. destruct (pco r) as [[|cfg octets]|]; [done| |done].
  intros l tail -> Hl T. by rewrite decode_apco_spec.
Qed.

Lemma tunnel_address_spec `{Osmocom} r :
  (one_ipv4_tunnel r -> tunnel_address r = Some (pdp_address (pdp_infos_0 r)))
  /\ (~ one_ipv4_tunnel r -> tunnel_address r = None).
Proof.
  unfold tunnel_address. split.
  - intros [T0 T1 T2 T3 T4 T5 T6]. rewrite (proj2 (Z.eqb_neq _ _) T0), T1, T2, T3, T4, T5, T6, !Z.eqb_refl. done.
  - intros N. repeat case_match; try done. bool_to_prop. destruct N. split; try done; by apply negb_false_iff.
Qed.

(** C30: The hook for the final authorisation of an IKE_SA looks the subscriber up by the
    IMSI of the peer's identity, asks the home network for a tunnel for that IMSI and, if
    the response is a result with exactly one IPv4 address, stores this address and the
    attributes of its options, makes the tunnel ready and succeeds; with any other
    response, or none, the subscriber has failed and so has the authorisation. The count
    of references is as before. The hook runs alone here, the subscriber is registered
    and nobody holds its lock. *)
Theorem authorize_spec `{Osmocom} i sa id imsi u ue s :
  other_id sa = Some id -> epdg_get_imsi id imsi_digits = Some imsi ->
  assoc_get streq (subscribers_imsi s) imsi = Some u -> heap s !! u = Some ue ->
  0 < ue_refcount ue -> ue_readers ue = 0 ->
  let fails := ends i (authorize sa true) s (store u (with_state UE_FAIL ue) s, Success false) in
  match in_response i (Tunnel_request imsi) with
  | Some r =>
    (one_ipv4_tunnel r ->
      exists attributes, options_hold (pco r) attributes
      /\ ends i (authorize sa true) s
           (store u (with_state UE_TUNNEL_READY (with_attributes (ue_attributes ue ++ attributes)
              (with_address (Some (pdp_address (pdp_infos_0 r))) ue))) s, Success true))
    /\ (~ one_ipv4_tunnel r -> fails)
  | None => fails
  end.
Proof.
  intros Ei Em G E R L. pose proof (authorize_ends i sa id imsi u ue s Ei Em G E R L) as A.
  destruct (in_response i (Tunnel_request imsi)) as [r|]; [|exact A]. cbn in A.
  destruct (tunnel_address_spec r) as [T1 T2]. split; intros T.
  - exists (tunnel_attributes r). split; [apply tunnel_attributes_hold|]. by rewrite T1 in A.
  - by rewrite T2 in A.
Qed.

Lemma imsi_ike_16 sa imsi :
  epdg_get_imsi_ike sa imsi_digits = Some imsi -> epdg_get_imsi_ike sa 16 = Some imsi.
Proof. unfold epdg_get_imsi_ike. by destruct (other_id sa). Qed.

Lemma ends_get_subscriber_ike `{Osmocom} i s sa imsi u ue p r :
  epdg_get_imsi_ike sa 16 = Some imsi ->
  assoc_get streq (subscribers_imsi s) imsi = Some u -> heap s !! u = Some ue ->
  ends i (p (Some u)) (store u (with_refcount (ue_refcount ue + 1) ue) s) r ->
  ends i (GetSubscriberIke sa p) s r.
Proof.
  intros I G E. apply ends_call. cbn. unfold get_subscriber_ike. rewrite I.
  unfold get_subscriber, get, access. by rewrite G, E.
Qed.

Lemma ends_put_back `{Osmocom} i u ue s o :
  0 < ue_refcount ue -> heap s !! u = Some ue ->
  ends i (Put u (Return o)) (store u (with_refcount (ue_refcount ue + 1) ue) s) (s, o).
Proof.
  intros R E. apply ends_put; [cbn; lia|].
  rewrite (with_refcount_back ue (fun x => x)), store_self by done. apply ends_return.
Qed.

Section Providers.
Context `{Osmocom} (i : input) (sa : ike_sa) (imsi : chunk) (u : nat) (ue : osmo_epdg_ue) (s : osmo_epdg_db).
Context (Im : epdg_get_imsi_ike sa imsi_digits = Some imsi).
Context (G : assoc_get streq (subscribers_imsi s) imsi = Some u) (E : heap s !! u = Some ue).
Context (R : 0 < ue_refcount ue).

Lemma acquire_address_ends requested :
  get_family requested = AF_INET -> ends i (acquire_address sa requested) s (s, Address (ue_address ue)).
Proof.
  intros F. unfold acquire_address. rewrite F. cbn [negb]. rewrite Z.eqb_refl.
  eapply ends_get_subscriber_ike; [by apply imsi_ike_16|done..|]. apply ends_get_address. by apply ends_put_back.
Qed.

Lemma release_address_ends a b :
  ue_address ue = Some b -> ends i (release_address sa (Some a)) s (s, Released (Host.equals a b)).
Proof.
  intros A. eapply ends_get_subscriber_ike; [by apply imsi_ike_16|done..|]. apply ends_get_address.
  cbn [ue_address with_refcount]. rewrite A. by apply ends_put_back.
Qed.

End Providers.

(** The address a peer is given as its virtual IP is that of the tunnel the home network
    set up when the IKE_SA of the same peer was authorised; it is given every time it is
    asked for, and giving it back finds it. *)
Theorem tunnel_address_is_assigned `{Osmocom} i sa id imsi u ue s r a requested :
  other_id sa = Some id -> epdg_get_imsi id imsi_digits = Some imsi ->
  assoc_get streq (subscribers_imsi s) imsi = Some u -> heap s !! u = Some ue ->
  0 < ue_refcount ue -> ue_readers ue = 0 ->
  in_response i (Tunnel_request imsi) = Some r -> tunnel_address r = Some a -> get_family requested = AF_INET ->
  exists s', ends i (authorize sa true) s (s', Success true)
    /\ ends i (acquire_address sa requested) s' (s', Address (Some a))
    /\ forall b, ends i (release_address sa (Some b)) s' (s', Released (Host.equals b a)).
Proof.
  intros Ei Em G E R L Er Ea F. pose proof (authorize_ends i sa id imsi u ue s Ei Em G E R L) as A.
  rewrite Er in A. cbn in A. rewrite Ea in A.
  set (ue' := with_state UE_TUNNEL_READY _) in A. exists (store u ue' s). split; [done|].
  assert (Im : epdg_get_imsi_ike sa imsi_digits = Some imsi) by (unfold epdg_get_imsi_ike; by rewrite Ei).
  assert (E' : heap (store u ue' s) !! u = Some ue') by apply lookup_insert_eq.
  split; [by apply (acquire_address_ends i sa imsi u ue')|].
  intros b. by apply (release_address_ends i sa imsi u ue').
Qed.

(** ** Authentication *)

(** A subscriber as the hook for EAP leaves it: one reference, that of the table. *)
Definition new_ue (sa : ike_sa) (imsi apn : chunk) (st : ue_state) : osmo_epdg_ue :=
  {| ue_id := unique_id sa; ue_imsi := imsi; ue_apn := apn; ue_address := None; ue_attributes := [];
     ue_refcount := 1; ue_readers := 0; ue_st := st |}.

(** The table without an identity, and without its reference to the subscriber. *)
Definition forgotten (imsi : chunk) (s s' : osmo_epdg_db) : Prop :=
  subscribers_imsi s' = assoc_remove streq (subscribers_imsi s) imsi
  /\ match assoc_get streq (subscribers_imsi s) imsi with
     | None => heap s' = heap s
     | Some u => exists ue, heap s !! u = Some ue
       /\ heap s' = if ue_refcount ue =? 1 then delete u (heap s)
                    else <[u := with_refcount (ue_refcount ue - 1) ue]> (heap s)
     end.

Lemma forgotten_remove imsi s s' : forgotten imsi s s' -> remove_subscriber imsi s = Next s'.
Proof.
  intros [Et Eh]. unfold remove_subscriber. destruct (assoc_get streq (subscribers_imsi s) imsi) as [u|] eqn:G.
  - destruct Eh as (ue & E & Eh). unfold put, access, store, with_heap, with_subscribers. cbn. rewrite E. f_equal.
    destruct s' as [h l]. cbn in *. subst. by destruct (_ =? _).
  - apply streq_get_none in G. rewrite assoc_remove_notin in Et by done. destruct s, s'. cbn in *. by subst.
Qed.

Lemma assoc_app l k k' (v : nat) :
  k <> k' -> assoc_get streq (l ++ [(k', v)]) k = assoc_get streq l k
  /\ assoc_remove streq (l ++ [(k', v)]) k = assoc_remove streq l k ++ [(k', v)].
Proof.
  intros N. induction l as [|[k1 v1] l [IH1 IH2]]; cbn.
  - by rewrite (proj2 (streq_false _ _) N).
  - destruct (streq k k1); [done|]. by rewrite IH1, IH2.
Qed.

(** Another subscriber is forgotten while a new one is there. *)
Lemma forgotten_new imsi imsi' u ue s s' :
  imsi <> imsi' -> heap s !! u = None -> forgotten imsi s s' ->
  forgotten imsi (store u ue (with_subscribers (subscribers_imsi s ++ [(imsi', u)]) s))
    (store u ue (with_subscribers (subscribers_imsi s' ++ [(imsi', u)]) s')).
Proof.
  intros N F [Et Eh]. unfold forgotten, store, with_heap, with_subscribers. cbn.
  destruct (assoc_app (subscribers_imsi s) imsi imsi' u N) as [-> ->]. split; [by rewrite Et|].
  destruct (assoc_get streq (subscribers_imsi s) imsi) as [v|]; [|by rewrite Eh].
  destruct Eh as (ve & E & ->). assert (u <> v) by congruence. exists ve.
  rewrite lookup_insert_ne by done. split; [done|]. destruct (_ =? _).
  - by rewrite delete_insert_ne.
  - by rewrite insert_insert_ne.
Qed.

(** C16: The hook for EAP registers a subscriber under the IMSI of the peer's IKE identity
    ([s0] is the database without what was registered under it before) and asks the home
    network about the IMSI of the EAP identity, which is another if the two differ:
    nothing compares them. With a response the subscriber's location is updated, and the
    hook succeeds, if and only if the home network confirms the latter. Without one the
    hook fails and forgets what is registered under the IMSI of the EAP identity: the new
    subscriber, if the two are the same, and else that of somebody else, while the new
    one stays. The hook runs alone here. *)
Theorem eap_authorize_spec `{Osmocom} i sa id imsi eap_imsi apn s s0 :
  epdg_get_imsi_ike sa imsi_digits = Some imsi -> epdg_validate_imsi imsi = true ->
  epdg_get_apn sa APN_MAXLEN = Some apn -> epdg_validate_apn apn = true ->
  epdg_get_imsi id imsi_digits = Some eap_imsi ->
  NoDup (subscribers_imsi s).*1 -> forgotten imsi s s0 -> heap s0 !! in_fresh i = None ->
  let registered st s := store (in_fresh i) (new_ue sa imsi apn st)
                           (with_subscribers (subscribers_imsi s ++ [(imsi, in_fresh i)]) s) in
  match in_response i (Update_location eap_imsi) with
  | Some r =>
    let ok := message_type r =? UPDATE_LOCATION_RESULT in
    ends i (eap_authorize sa (Some id)) s
      (registered (if ok then UE_LOCATION_UPDATED else UE_FAIL) s0, Success ok)
  | None =>
    (imsi = eap_imsi -> ends i (eap_authorize sa (Some id)) s (s0, Success false))
    /\ (imsi <> eap_imsi -> forall s1, forgotten eap_imsi s0 s1 ->
         ends i (eap_authorize sa (Some id)) s (registered UE_FAIL s1, Success false))
  end.
Proof.
  intros Im Vi Ap Va Ei D Fs F. set (u := in_fresh i).
  set (with_new := fun s => with_subscribers (subscribers_imsi s ++ [(imsi, u)]) s).
  set (ue := with_refcount 2 (new_ue sa imsi apn UE_WAIT_LOCATION_UPDATE)).
  assert (N : imsi ∉ (subscribers_imsi s0).*1) by (rewrite (proj1 Fs); by apply assoc_remove_absent).
  assert (Create : forall p r, ends i (p (Some u)) (store u ue (with_new s0)) r -> ends i (CreateSubscriber sa p) s r).
  { intros p r. apply ends_call. cbn. unfold create_subscriber. rewrite Im, Ap.
    assert (Rm : (match assoc_get streq (subscribers_imsi s) imsi with
                  | Some u => put u (with_subscribers (assoc_remove streq (subscribers_imsi s) imsi) s)
                  | None => Next (with_subscribers (assoc_remove streq (subscribers_imsi s) imsi) s) end) = Next s0).
    { apply forgotten_remove in Fs as R. unfold remove_subscriber in R. destruct (assoc_get _ _ imsi) eqn:G; [done|].
      apply streq_get_none in G. rewrite assoc_remove_notin, <- R by done. by destruct s. }
    rewrite Rm. unfold osmo_epdg_ue_create. rewrite Va, Vi. cbn. rewrite F, assoc_put_absent by done. done. }
  assert (Fin : forall st o s', ends i (SetState u st (Put u (Return o))) (store u ue s')
                               (store u (new_ue sa imsi apn st) s', o)).
  { intros st o s'. apply ends_set_state; [done|]. apply ends_put; [done|]. apply ends_return. }
  unfold eap_authorize. rewrite Ei.
  destruct (in_response i (Update_location eap_imsi)) as [r|] eqn:Er; cbn zeta.
  - apply Create. eapply ends_call; [cbn; by rewrite Er|].
    destruct (message_type r =? UPDATE_LOCATION_RESULT); apply Fin.
  - split.
    + intros <-. apply Create. eapply ends_call; [cbn; by rewrite Er|].
      assert (Rm : remove_subscriber imsi (store u ue (with_new s0)) = Next (store u (with_refcount 1 ue) s0)).
      { unfold remove_subscriber. cbn. destruct (assoc_last (subscribers_imsi s0) imsi u N) as [-> ->].
        unfold put, access. cbn. rewrite lookup_insert_eq. cbn. unfold store, with_heap, with_subscribers. cbn.
        by rewrite insert_insert_eq. }
      eapply ends_call; [cbn; by rewrite Rm|]. apply ends_set_state; [done|].
      eapply ends_call; [|apply ends_return]. cbn. unfold put. rewrite access_store. cbn.
      unfold with_heap. rewrite delete_insert_id by done. by destruct s0.
    + intros Ne s1 Fs1. apply Create. eapply ends_call; [cbn; by rewrite Er|].
      assert (Rm : remove_subscriber eap_imsi (store u ue (with_new s0)) = Next (store u ue (with_new s1)))
        by (by apply forgotten_remove, forgotten_new).
      eapply ends_call; [|apply (Fin UE_FAIL (Success false) (with_new s1))]. cbn. by rewrite Rm.
Qed.

(** ** An example *)

(** The values of libosmocore; a peer and the subscriber it has. *)
Definition example_osmocom : Osmocom :=
  {| APN_MAXLEN := 100; PDP_TYPE_ORG_IETF := 1; PDP_TYPE_N_IETF_IPv4 := 33; SEND_AUTH_INFO_RESULT := 10;
     UPDATE_LOCATION_RESULT := 6; EPDG_TUNNEL_ERROR := 81; EPDG_TUNNEL_RESULT := 82 |}.

Definition example_imsi : chunk := replicate 15 49.
Definition other_imsi : chunk := replicate 15 50.
Definition example_sa : ike_sa := {| unique_id := 1; other_id := Some (48 :: example_imsi ++ [64]); my_id := Some [105; 109; 115] |}.
Definition other_sa : ike_sa := {| unique_id := 2; other_id := Some (48 :: other_imsi ++ [64]); my_id := Some [105; 109; 115] |}.
Definition example_address : host_t := {| sa_family := AF_INET; sin_addr := [10; 0; 0; 7]; sin_port := 0 |}.
Definition example_response (type : Z) : gsup_response :=
  {| message_type := type; num_pdp_infos := 1;
     pdp_infos_0 := {| have_info := true; pdp_type_org := 1; pdp_type_nr := 33; pdp_address := example_address |};
     pco := Some [128; 0; 13; 4; 10; 0; 0; 1]; auth_vectors := [] |}.
Definition example_ue : osmo_epdg_ue := new_ue example_sa example_imsi [105; 109; 115] UE_LOCATION_UPDATED.
Definition example_db : osmo_epdg_db := {| heap := {[ 5%nat := example_ue ]}; subscribers_imsi := [(example_imsi, 5%nat)] |}.

(** A home network that knows the other IMSI and has tunnels for all. *)
Definition example_input : input :=
  {| in_fresh := 5;
     in_response := fun q => match q with
                             | Update_location imsi => if streq imsi other_imsi then Some (example_response 6) else None
                             | Tunnel_request _ => Some (example_response 82)
                             | Send_auth_info _ _ => None
                             end |}.

(** * The lock that is not given back *)

(** Every result of the call satisfies [P]. *)
Definition leaves {A} (x : result A) (P : A -> Prop) : Prop := match x with Next a => P a | _ => True end.

(** A subscriber in memory has a reader. *)
Definition stuck (u : nat) (s : osmo_epdg_db) : Prop :=
  match heap s !! u with Some ue => 0 < ue_readers ue | None => True end.

Section Stuck.
Context `{Osmocom} (u : nat).

Lemma stuck_store v a ue s :
  stuck u s -> heap s !! v = Some ue -> ue_readers ue <= ue_readers a -> stuck u (store v a s).
Proof.
  unfold stuck. intros S E L. cbn. destruct (decide (v = u)) as [->|N].
  - rewrite lookup_insert_eq. rewrite E in S. lia.
  - by rewrite lookup_insert_ne.
Qed.

Lemma access_leaves {A} v s (f : osmo_epdg_ue -> result A) P :
  (forall ue, heap s !! v = Some ue -> leaves (f ue) P) -> leaves (access v s f) P.
Proof. intros F. unfold access. destruct (heap s !! v) as [ue|] eqn:E; [by apply F|done]. Qed.

Lemma write_leaves v a ue s :
  stuck u s -> heap s !! v = Some ue -> ue_readers ue <= ue_readers a ->
  leaves (write_lock ue (Next (store v a s))) (stuck u).
Proof. intros S E L. unfold write_lock. case_if; [by eapply stuck_store|done]. Qed.

Lemma get_stuck v s : stuck u s -> leaves (get v s) (stuck u).
Proof. intros S. apply access_leaves. intros ue E. by eapply stuck_store. Qed.

Lemma put_stuck v s : stuck u s -> leaves (put v s) (stuck u).
Proof.
  intros S. apply access_leaves. intros ue E. cbn. destruct (ue_refcount ue =? 1); [|by eapply stuck_store].
  unfold stuck in *. cbn. destruct (decide (v = u)) as [->|N]; [by rewrite lookup_delete_eq|].
  by rewrite lookup_delete_ne.
Qed.

Lemma stuck_subscribers l s : stuck u s -> stuck u (with_subscribers l s).
Proof. done. Qed.

Lemma create_subscriber_stuck sa at_ s :
  at_ <> u -> stuck u s -> leaves (create_subscriber sa at_ s) (fun r => stuck u r.1).
Proof.
  intros N S. unfold create_subscriber. destruct (epdg_get_imsi_ike sa imsi_digits), (epdg_get_apn sa APN_MAXLEN); [|done..].
  set (x := match assoc_get _ _ _ with Some _ => _ | None => _ end).
  assert (X : leaves x (stuck u)).
  { unfold x. destruct (assoc_get _ _ _); [by apply put_stuck, stuck_subscribers|by apply stuck_subscribers]. }
  clearbody x. destruct x as [s1| |]; [|done..]. destruct (osmo_epdg_ue_create _ _ _); [|done].
  destruct (heap s1 !! at_); [done|]. unfold leaves, stuck in *. cbn. by rewrite lookup_insert_ne.
Qed.

Lemma get_subscriber_stuck imsi s : stuck u s -> leaves (get_subscriber imsi s) (fun r => stuck u r.1).
Proof.
  intros S. unfold get_subscriber. destruct (assoc_get _ _ _) as [v|]; [|done].
  pose proof (get_stuck v s S) as G. by destruct (get v s).
Qed.

Lemma call_stuck i p s :
  in_fresh i <> u -> stuck u s -> leaves (call i p s) (fun r => stuck u r.1).
Proof.
  intros N S.
  assert (T : forall x q, leaves x (stuck u) -> leaves (then_ x q) (fun r => stuck u r.1)) by by intros [].
  assert (W : forall A (x : result (osmo_epdg_db * A)) q,
    leaves x (fun r => stuck u r.1) -> leaves (then_with x q) (fun r => stuck u r.1)) by by intros ? [[]| |].
  destruct p; cbn [call].
  - done.
  - by apply W, create_subscriber_stuck.
  - by apply W, get_subscriber_stuck.
  - apply W. unfold get_subscriber_ike. destruct (epdg_get_imsi_ike sa 16); [by apply get_subscriber_stuck|done].
  - apply T. unfold remove_subscriber. destruct (assoc_get _ _ _); [by apply put_stuck|done].
  - apply T, access_leaves. intros ue E. by eapply write_leaves.
  - apply T, access_leaves. intros ue E. by eapply write_leaves.
  - apply T, access_leaves. intros ue E. by eapply write_leaves.
  - by destruct (get_address _ _).
  - apply W, access_leaves. intros ue E. eapply stuck_store; [done..|]. cbn. lia.
  - by apply T, get_stuck.
  - by apply T, put_stuck.
  - done.
  - done.
  - done.
Qed.

(** The steps do not reuse the memory of a subscriber. *)
Definition not_reused (a : action) : Prop := match a with Step _ i => in_fresh i <> u | Start _ => True end.

Lemma run_stuck actions s :
  Forall not_reused actions -> stuck u (db s) -> leaves (run actions s) (fun s' => stuck u (db s')).
Proof.
  intros F. revert s. induction F as [|a actions Ha F IH]; intros s S; [done|]. cbn.
  assert (X : leaves (step a s) (fun s' => stuck u (db s'))).
  { destruct a as [h|t i]; [done|]. cbn. destruct (threads s !! t) as [p|]; [|done].
    pose proof (call_stuck i p (db s) Ha S) as C. by destruct (call i p (db s)) as [[]| |]. }
  destruct (step a s); [by apply IH|by apply IH|done].
Qed.

End Stuck.

(** C31: Once the attributes of a subscriber were read, as the provider does for every
    configuration payload, its lock is never given back: until the subscriber is freed
    every call that sets its state or its address or adds an attribute waits for ever,
    whatever runs, so no later authorisation of that subscriber ends. *)
Theorem get_attributes_blocks_writers `{Osmocom} u d d' l threads actions s :
  (forall ue, heap d !! u = Some ue -> 0 <= ue_readers ue) ->
  get_attributes u d = Next (d', l) -> Forall (not_reused u) actions ->
  run actions (System d' threads) = Next s ->
  heap (db s) !! u = None
  \/ forall i st a e p, call i (SetState u st p) (db s) = Blocked
       /\ call i (SetAddress u a p) (db s) = Blocked /\ call i (InsertAttribute u e p) (db s) = Blocked.
Proof.
  intros R G F E. assert (S : stuck u d').
  { unfold get_attributes, access in G. unfold stuck. destruct (heap d !! u) as [ue|] eqn:Eu; [|done].
    injection G as <- _. cbn. rewrite lookup_insert_eq. specialize (R ue eq_refl). cbn. lia. }
  pose proof (run_stuck u actions (System d' threads) F S) as X. rewrite E in X. cbn in X. unfold stuck in X.
  destruct (heap (db s) !! u) as [ue|] eqn:Eu; [right|by left]. intros i st a e p. cbn.
  unfold set_state, set_address, insert_attribute, access. rewrite Eu. unfold write_lock.
  by rewrite (proj2 (Z.eqb_neq _ _)) by lia.
Qed.

(** * Examples of the theorems *)

Lemma authorize_spec_witness :
  exists attributes, options_hold (Some [128; 0; 13; 4; 10; 0; 0; 1]) attributes
  /\ ends (H := example_osmocom) example_input (authorize (H := example_osmocom) example_sa true) example_db
    (store 5 (with_state UE_TUNNEL_READY (with_attributes attributes
                (with_address (Some example_address) example_ue))) example_db, Success true).
Proof.
  apply (authorize_spec (H := example_osmocom) example_input example_sa (48 :: example_imsi ++ [64]) example_imsi 5
           example_ue example_db eq_refl eq_refl eq_refl eq_refl eq_refl eq_refl).
  split; try reflexivity. discriminate.
Defined.

Lemma tunnel_address_is_assigned_witness :
  exists s', ends (H := example_osmocom) example_input (authorize (H := example_osmocom) example_sa true) example_db (s', Success true)
    /\ ends (H := example_osmocom) example_input (acquire_address example_sa example_address) s' (s', Address (Some example_address))
    /\ forall b, ends (H := example_osmocom) example_input (release_address example_sa (Some b)) s' (s', Released (Host.equals b example_address)).
Proof.
  apply (tunnel_address_is_assigned (H := example_osmocom) example_input example_sa (48 :: example_imsi ++ [64]) example_imsi 5
           example_ue example_db (example_response 82) example_address example_address); reflexivity.
Defined.

(** The home network never heard of the IMSI that is registered; and a peer whose EAP
    identity it does not answer about ends the registration of that subscriber. *)
Lemma eap_authorize_spec_witness :
  (in_response example_input (Update_location example_imsi) = None
  /\ ends (H := example_osmocom) example_input
       (eap_authorize (H := example_osmocom) example_sa (Some (48 :: other_imsi ++ [64]))) osmo_epdg_db_create
       (store 5 example_ue (with_subscribers [(example_imsi, 5%nat)] osmo_epdg_db_create), Success true))
  /\ exists s, subscribers_imsi s = [(other_imsi, 6%nat)]
     /\ ends (H := example_osmocom) {| in_fresh := 6; in_response := fun _ => None |}
          (eap_authorize (H := example_osmocom) other_sa (Some (48 :: example_imsi ++ [64]))) example_db
          (s, Success false).
Proof.
  split.
  - split; [reflexivity|].
    apply (eap_authorize_spec (H := example_osmocom) example_input example_sa (48 :: other_imsi ++ [64]) example_imsi other_imsi
             [105; 109; 115] osmo_epdg_db_create osmo_epdg_db_create); try reflexivity; [constructor|].
    split; reflexivity.
  - eexists. split; [|refine (proj2 (eap_authorize_spec (H := example_osmocom) {| in_fresh := 6; in_response := fun _ => None |}
      other_sa (48 :: example_imsi ++ [64]) other_imsi example_imsi [105; 109; 115] example_db example_db
      eq_refl eq_refl eq_refl eq_refl eq_refl _ _ eq_refl) _ osmo_epdg_db_create _)].
    + reflexivity.
    + apply NoDup_singleton.
    + split; reflexivity.
    + discriminate.
    + split; [reflexivity|]. exists example_ue. split; reflexivity.
Defined.

(** The provider reads the attributes; the next authorisation waits. *)
Lemma get_attributes_blocks_writers_witness :
  exists d' s, get_attributes 5 example_db = Next (d', [])
    /\ run (H := example_osmocom)
         [Start (Authorize example_sa true); Step 0 {| in_fresh := 6; in_response := fun _ => None |};
          Step 0 {| in_fresh := 6; in_response := fun _ => None |}] (System d' []) = Next s
    /\ call (H := example_osmocom) example_input (SetState 5 UE_FAIL (Return (Success false))) (db s) = Blocked.
Proof.
  eexists _, _. split; [reflexivity|]. split; [reflexivity|].
  match goal with |- call _ _ (db ?x) = _ =>
    destruct (get_attributes_blocks_writers (H := example_osmocom) 5 example_db
      (store 5 (with_readers 1 example_ue) example_db) [] []
      [Start (Authorize example_sa true); Step 0 {| in_fresh := 6; in_response := fun _ => None |};
       Step 0 {| in_fresh := 6; in_response := fun _ => None |}] x) as [N|B] end.
  - intros ue E. injection E as <-. done.
  - reflexivity.
  - repeat constructor; done.
  - reflexivity.
  - exfalso. revert N. vm_compute. discriminate.
  - apply (B example_input UE_FAIL example_address (Attribute 0 [] true)).
Defined.
