(* ===== verification/Simaka.v ===== *)
(** EAP-SIM and EAP-AKA messages: libsimaka/simaka_message.c. A message is its octets with
    the attributes that were parsed from it or added to it; pointers into the octets, or
    into the plaintext of the encrypted attributes, are places. Reading outside of what is
    allocated, reading freed memory and running on for ever are results. *)

From S2P Require Import Prelude.

(** * Constants *)

Definition EAP_REQUEST : Z := 1.
Definition EAP_RESPONSE : Z := 2.
Definition EAP_SIM : Z := 18.
Definition EAP_AKA : Z := 23.

Definition AKA_CHALLENGE : Z := 1.
Definition AKA_AUTHENTICATION_REJECT : Z := 2.
Definition AKA_SYNCHRONIZATION_FAILURE : Z := 4.
Definition AKA_IDENTITY : Z := 5.
Definition SIM_START : Z := 10.
Definition SIM_CHALLENGE : Z := 11.
Definition SIM_NOTIFICATION : Z := 12.
Definition SIM_REAUTHENTICATION : Z := 13.
Definition SIM_CLIENT_ERROR : Z := 14.

Definition AT_RAND : Z := 1.
Definition AT_AUTN : Z := 2.
Definition AT_RES : Z := 3.
Definition AT_AUTS : Z := 4.
Definition AT_PADDING : Z := 6.
Definition AT_NONCE_MT : Z := 7.
Definition AT_PERMANENT_ID_REQ : Z := 10.
Definition AT_MAC : Z := 11.
Definition AT_NOTIFICATION : Z := 12.
Definition AT_ANY_ID_REQ : Z := 13.
Definition AT_IDENTITY : Z := 14.
Definition AT_VERSION_LIST : Z := 15.
Definition AT_SELECTED_VERSION : Z := 16.
Definition AT_FULLAUTH_ID_REQ : Z := 17.
Definition AT_COUNTER : Z := 19.
Definition AT_COUNTER_TOO_SMALL : Z := 20.
Definition AT_NONCE_S : Z := 21.
Definition AT_CLIENT_ERROR_CODE : Z := 22.
Definition AT_IV : Z := 129.
Definition AT_ENCR_DATA : Z := 130.
Definition AT_NEXT_PSEUDONYM : Z := 132.
Definition AT_NEXT_REAUTH_ID : Z := 133.

(** The cases of a [switch] that share a block. *)
Definition case_of (t : Z) (l : list Z) : bool := existsb (Z.eqb t) l.

Definition simaka_attribute_skippable (attribute : Z) : bool :=
  negb ((0 <=? attribute) && (attribute <=? 127)).

(** * The helper for cryptography *)

(** What the signer and the crypter of simaka_crypto.c do once their keys were derived;
    [None] is an error of the algorithm. *)
Class SimakaCrypto := {
  keys : Type;
  crypter_block_size : Z;
  crypter_iv_size : Z;
  crypter_encrypt : keys -> chunk -> chunk -> option chunk;
  crypter_decrypt : keys -> chunk -> chunk -> option chunk;
  signer_block_size : Z;
  get_signature : keys -> chunk -> option chunk;
  verify_signature : keys -> chunk -> chunk -> bool;
}.

(** * Messages *)

(** Where a pointer points: into the message, or into the plaintext that is freed when its
    attributes were parsed. *)
Inductive buffer := In_message | In_plain.

Record pointer := Pointer { points_into : buffer; p_offset : Z; p_len : Z }.

Record simaka_message := {
  hdr : chunk;
  attributes : list (Z * chunk);
  encrypted : bool;
  p_bit : bool;
  mac : option pointer;
  encr : option pointer;
  iv : option pointer;
}.

Definition with_hdr x m := {| hdr := x; attributes := attributes m; encrypted := encrypted m; p_bit := p_bit m;
  mac := mac m; encr := encr m; iv := iv m |}.
Definition with_attributes x m := {| hdr := hdr m; attributes := x; encrypted := encrypted m; p_bit := p_bit m;
  mac := mac m; encr := encr m; iv := iv m |}.
Definition with_encrypted x m := {| hdr := hdr m; attributes := attributes m; encrypted := x; p_bit := p_bit m;
  mac := mac m; encr := encr m; iv := iv m |}.
Definition with_p_bit x m := {| hdr := hdr m; attributes := attributes m; encrypted := encrypted m; p_bit := x;
  mac := mac m; encr := encr m; iv := iv m |}.
Definition with_mac x m := {| hdr := hdr m; attributes := attributes m; encrypted := encrypted m; p_bit := p_bit m;
  mac := x; encr := encr m; iv := iv m |}.
Definition with_encr x m := {| hdr := hdr m; attributes := attributes m; encrypted := encrypted m; p_bit := p_bit m;
  mac := mac m; encr := x; iv := iv m |}.
Definition with_iv x m := {| hdr := hdr m; attributes := attributes m; encrypted := encrypted m; p_bit := p_bit m;
  mac := mac m; encr := encr m; iv := x |}.

Definition byte_at (c : chunk) (i : Z) : Z := nth (Z.to_nat i) c 0.

Definition is_request (this : simaka_message) : bool := byte_at (hdr this) 0 =? EAP_REQUEST.
Definition get_identifier (this : simaka_message) : Z := byte_at (hdr this) 1.
Definition get_type (this : simaka_message) : Z := byte_at (hdr this) 4.
Definition get_subtype (this : simaka_message) : Z := byte_at (hdr this) 5.

(** [sizeof(hdr_t)] *)
Definition hdr_size : Z := 8.

Definition add_attribute (this : simaka_message) (t : Z) (data : chunk) : simaka_message :=
  with_attributes (attributes this ++ [(t, data)]) this.

Definition simaka_message_create_data (data : chunk) : option simaka_message :=
  if (len data <? hdr_size) || negb (be_val (take 2 (drop 2 data)) =? u16 (len data)) then None
  else if negb (byte_at data 0 =? EAP_REQUEST) && negb (byte_at data 0 =? EAP_RESPONSE) then None
  else if negb (byte_at data 4 =? EAP_SIM) && negb (byte_at data 4 =? EAP_AKA) then None
  else Some {| hdr := data; attributes := []; encrypted := false; p_bit := true;
               mac := None; encr := None; iv := None |}.

Definition simaka_message_create_from_payload (data : chunk) : option simaka_message :=
  simaka_message_create_data data.

Definition simaka_message_create (request : bool) (identifier t subtype : Z) : option simaka_message :=
  simaka_message_create_data
    ((if request then EAP_REQUEST else EAP_RESPONSE) :: identifier :: be_bytes 2 hdr_size ++ [t; subtype; 0; 0]).

(** * Parsing *)

Inductive result (A : Type) :=
| Return (success : bool) (x : A)
| Outside
| Dangling
| Running.
Arguments Return {A} success x.
Arguments Outside {A}.
Arguments Dangling {A}.
Arguments Running {A}.

(** The octets of a buffer from an offset on; [None] if they are not all inside. *)
Definition slice (buf : chunk) (offset n : Z) : option chunk :=
  if (0 <=? offset) && (offset + n <=? len buf) then Some (take (Z.to_nat n) (drop (Z.to_nat offset) buf)) else None.

(** An attribute by its header: where its data starts, how long it is and how far the next
    attribute is; [None] if it is refused. [actual] are the two octets after the header,
    which are looked at if [in_len], what is left of the buffer, is at least 4. Lengths are
    computed as int and stored as size_t. *)
Definition layout_of (encrypted : bool) (t length actual in_len : Z) : option (Z * Z * Z) :=
  if case_of t [AT_COUNTER_TOO_SMALL; AT_ANY_ID_REQ; AT_PERMANENT_ID_REQ; AT_FULLAUTH_ID_REQ] then
    if (t =? AT_COUNTER_TOO_SMALL) && negb encrypted then None
    else if negb (length =? 1) || (in_len <? 4) then None
    else Some (0, 0, 4)
  else if case_of t [AT_COUNTER; AT_CLIENT_ERROR_CODE; AT_SELECTED_VERSION; AT_NOTIFICATION] then
    if (t =? AT_COUNTER) && negb encrypted then None
    else if negb (length =? 1) || (in_len <? 4) then None
    else Some (2, 2, 4)
  else if case_of t [AT_NEXT_PSEUDONYM; AT_NEXT_REAUTH_ID; AT_RES; AT_IDENTITY; AT_VERSION_LIST] then
    if case_of t [AT_NEXT_PSEUDONYM; AT_NEXT_REAUTH_ID] && negb encrypted then None
    else if (length <? 1) || (in_len <? 4) then None
    else
      let n := if t =? AT_RES then actual / 8 else actual in
      if (n >? length * 4) || (n >? in_len) then None
      else Some (4, n, length * 4)
  else if case_of t [AT_NONCE_S; AT_AUTN; AT_NONCE_MT; AT_IV; AT_MAC] then
    if (t =? AT_NONCE_S) && negb encrypted then None
    else if negb (length =? 5) || (in_len <? 20) then None
    else Some (4, 16, 20)
  else if case_of t [AT_ENCR_DATA; AT_RAND] then
    if (length * 4 >? in_len) || (in_len <? 4) then None
    else Some (4, u64 (length * 4 - 4), length * 4)
  else if t =? AT_AUTS then
    if negb (length =? 4) || (in_len <? 16) then None
    else Some (2, 14, 16)
  else
    if (length * 4 >? in_len) || (in_len <? 4) then None
    else Some (2, u64 (length * 4 - 2), length * 4).

Definition layout (encrypted : bool) (buf : chunk) (pos : Z) : option (Z * Z * Z) :=
  layout_of encrypted (byte_at buf pos) (byte_at buf (pos + 1))
    (be_val [byte_at buf (pos + 2); byte_at buf (pos + 3)]) (len buf - pos).

(** What is done with the data of an attribute. *)
Definition handle (where_ : buffer) (buf : chunk) (t offset n : Z) (this : simaka_message) : result simaka_message :=
  let data := Pointer where_ offset n in
  let add this :=
    match slice buf offset n with
    | Some data => Return true (add_attribute this t data)
    | None => Outside
    end in
  if t =? AT_MAC then Return true (with_mac (Some data) this)
  else if t =? AT_IV then Return true (with_iv (Some data) this)
  else if t =? AT_ENCR_DATA then Return true (with_encr (Some data) this)
  else if t =? AT_PADDING then Return true this
  else if t =? AT_NOTIFICATION then
    if p_bit this then add (with_p_bit (Z.testbit (byte_at buf offset) 6) this)
    else if negb (encrypted this) then Return false this
    else add this
  else add this.

(** The loop of [parse_attributes] from [pos] on; a skip that is too far ends it. *)
Fixpoint parse_loop (fuel : nat) (where_ : buffer) (buf : chunk) (pos : Z) (this : simaka_message) : result simaka_message :=
  match fuel with
  | O => Running
  | S fuel =>
    let in_len := len buf - pos in
    if in_len =? 0 then Return true this
    else if in_len <? 2 then Return false this
    else
      match layout (encrypted this) buf pos with
      | None => Return false this
      | Some (offset, n, skip) =>
        match handle where_ buf (byte_at buf pos) (pos + offset) n this with
        | Return true this => parse_loop fuel where_ buf (if in_len >? skip then pos + skip else len buf) this
        | r => r
        end
      end
  end.

(** A buffer has at most half as many attributes as octets, if none is empty. *)
Definition parse_attributes (where_ : buffer) (buf : chunk) (pos : Z) (this : simaka_message) : result simaka_message :=
  parse_loop (S (length buf)) where_ buf pos this.

(** The octets that the length field of the header covers. *)
Definition message_octets (this : simaka_message) : chunk :=
  take (Z.to_nat (be_val (take 2 (drop 2 (hdr this))))) (hdr this).

(** The octets a pointer points to. *)
Definition deref {A} (this : simaka_message) (p : pointer) (f : chunk -> result A) : result A :=
  match points_into p with
  | In_message => match slice (hdr this) (p_offset p) (p_len p) with Some c => f c | None => Outside end
  | In_plain => Dangling
  end.

Section Operations.
Context `{SimakaCrypto}.

(** The keys are those of the crypto helper, if they were derived. *)
Definition decrypt (crypto : option keys) (this : simaka_message) : result simaka_message :=
  match crypto, iv this, encr this with
  | Some k, Some iv, Some encr =>
    if (p_len iv =? 0) || (p_len encr =? 0) || encrypted this then Return true this
    else if negb (p_len encr mod crypter_block_size =? 0) then Return false this
    else
      deref this encr (fun data => deref this iv (fun iv =>
        match crypter_decrypt k data iv with
        | None => Return false this
        | Some plain =>
          match parse_attributes In_plain plain 0 (with_encrypted true this) with
          | Return success this => Return success (with_encrypted false this)
          | r => r
          end
        end))
  | _, _, _ => Return true this
  end.

Definition parse (crypto : option keys) (this : simaka_message) : result simaka_message :=
  match attributes this with
  | _ :: _ => decrypt crypto this
  | [] =>
    let in_ := message_octets this in
    match parse_attributes In_message in_ (Z.min hdr_size (len in_)) this with
    | Return true this => decrypt crypto this
    | r => r
    end
  end.

(** * Verification *)

(** Whether the MAC of a message must be verified; [None] for a message without rules. *)
Definition mac_required (this : simaka_message) : option bool :=
  let subtype := get_subtype this in
  if case_of subtype [SIM_START; SIM_CLIENT_ERROR; AKA_AUTHENTICATION_REJECT; AKA_SYNCHRONIZATION_FAILURE; AKA_IDENTITY]
  then Some false
  else if case_of subtype [SIM_CHALLENGE; AKA_CHALLENGE; SIM_REAUTHENTICATION] then Some true
  else if subtype =? SIM_NOTIFICATION then Some (negb (p_bit this))
  else None.

(** [memset] in the message *)
Definition zero_range (c : chunk) (offset n : Z) : chunk :=
  take (Z.to_nat offset) c ++ replicate (Z.to_nat n) 0 ++ drop (Z.to_nat (offset + n)) c.

Definition verify (crypto : option keys) (sigdata : chunk) (this : simaka_message) : result simaka_message :=
  match mac_required this with
  | None => Return false this
  | Some false => Return true this
  | Some true =>
    match mac this, crypto with
    | Some p, Some k =>
      deref this p (fun backup =>
        let this := with_hdr (zero_range (hdr this) (p_offset p) (p_len p)) this in
        Return (verify_signature k (message_octets this ++ sigdata) backup) this)
    | _, _ => Return false this
    end
  end.

(** * Generating *)

(** [None]: writes outside of a buffer, reads outside of data, sends octets of the buffer
    that were never written, or calls a helper that is not there. *)
Inductive generated := Generated (gen : chunk) | Failed.

Definition out_buf_size : Z := 1024.
Definition encr_buf_size : Z := 512.

(** Whether an attribute goes to the encrypted ones. *)
Definition is_encrypted (t : Z) (data : chunk) : option bool :=
  if case_of t [AT_NONCE_S; AT_NEXT_PSEUDONYM; AT_NEXT_REAUTH_ID; AT_COUNTER; AT_COUNTER_TOO_SMALL] then Some true
  else if t =? AT_NOTIFICATION then
    match data with b :: _ => Some (negb (Z.testbit b 6)) | [] => None end
  else Some false.

(** The length field of an attribute with an actual length, as it is in memory of a
    little-endian machine; that of AT_RES is multiplied by 8 after the octets were swapped. *)
Definition length_field (t : Z) (n : Z) : chunk :=
  let swapped := (n mod 256) * 256 + (n / 256) mod 256 in
  let v := if t =? AT_RES then u16 (swapped * 8) else swapped in
  [v mod 256; v / 256].

(** What is written for an attribute and how far the target is skipped. *)
Definition encode_attribute (t : Z) (data : chunk) : option (chunk * Z) :=
  if case_of t [AT_COUNTER_TOO_SMALL; AT_ANY_ID_REQ; AT_PERMANENT_ID_REQ; AT_FULLAUTH_ID_REQ] then
    Some ([t; 1; 0; 0], 4)
  else if case_of t [AT_COUNTER; AT_CLIENT_ERROR_CODE; AT_SELECTED_VERSION; AT_NOTIFICATION] then
    if len data <? 2 then None else Some ([t; 1] ++ take 2 data, 4)
  else if case_of t [AT_NEXT_PSEUDONYM; AT_NEXT_REAUTH_ID; AT_IDENTITY; AT_VERSION_LIST; AT_RES] then
    let padding := (4 - len data mod 4) mod 4 in
    let length := u8 (u8 (len data / 4 + 1) + (if padding =? 0 then 0 else 1)) in
    Some ([t; length] ++ length_field t (len data) ++ data ++ replicate (Z.to_nat padding) 0, length * 4)
  else if case_of t [AT_NONCE_S; AT_NONCE_MT; AT_AUTN] then
    if len data <? 16 then None else Some ([t; 5; 0; 0] ++ data, 20)
  else if t =? AT_RAND then
    Some ([t; u8 (1 + len data / 4); 0; 0] ++ data, len data + 4)
  else if t =? AT_AUTS then
    if len data <? 14 then None else Some ([t; 4] ++ data, 16)
  else Some ([t], 0).

(** Octets are written at the end of what a buffer has, and it is skipped. *)
Definition write (size : Z) (buf : chunk) (octets : chunk) (skip : Z) : option chunk :=
  if len buf + len octets >? size then None else Some (buf ++ take (Z.to_nat skip) octets).

Fixpoint encode_attributes (l : list (Z * chunk)) (out encr : chunk) : option (chunk * chunk) :=
  match l with
  | [] => Some (out, encr)
  | (t, data) :: l =>
    e ← is_encrypted t data;
    '(octets, skip) ← encode_attribute t data;
    if (e : bool) then encr ← write encr_buf_size encr octets skip; encode_attributes l out encr
    else out ← write out_buf_size out octets skip; encode_attributes l out encr
  end.

Definition pad_encr (encr : chunk) : option chunk :=
  let padding := crypter_block_size - len encr mod crypter_block_size in
  if padding <? 2 then None
  else write encr_buf_size encr ([AT_PADDING; u8 (padding / 4)] ++ replicate (Z.to_nat (padding - 2)) 0) padding.

(** The encrypted attributes, if there are any, with a random vector. *)
Definition add_encr (crypto : option keys) (random : option chunk) (out encr : chunk) : option (option chunk) :=
  match encr with
  | [] => Some (Some out)
  | _ =>
    k ← crypto;
    encr ← pad_encr encr;
    match random with
    | None => Some None
    | Some iv =>
      out ← write out_buf_size out ([AT_IV; u8 (crypter_iv_size / 4 + 1); 0; 0] ++ iv) (crypter_iv_size + 4);
      match crypter_encrypt k encr iv with
      | None => Some None
      | Some encr =>
        out ← write out_buf_size out ([AT_ENCR_DATA; u8 (len encr / 4 + 1); 0; 0] ++ encr) (len encr + 4);
        Some (Some out)
      end
    end
  end.

Definition has_mac (subtype : Z) : bool := case_of subtype [SIM_CHALLENGE; AKA_CHALLENGE; SIM_REAUTHENTICATION].

Definition set_length (out : chunk) : chunk := take 2 out ++ be_bytes 2 (len out) ++ drop 4 out.

(** The MAC is at the end, and zero while it is computed. *)
Definition add_mac (crypto : option keys) (sigdata out : chunk) : option generated :=
  k ← crypto;
  let bs := signer_block_size in
  msg ← write out_buf_size out ([AT_MAC; u8 (bs / 4 + 1); 0; 0] ++ replicate (Z.to_nat bs) 0) (bs + 4);
  let msg := set_length msg in
  match get_signature k (msg ++ sigdata) with
  | None => Some Failed
  | Some mac => Some (Generated (take (Z.to_nat (len msg - bs)) msg ++ mac))
  end.

Definition generate (crypto : option keys) (random : option chunk) (sigdata : chunk) (this : simaka_message) : option generated :=
  '(out, encr) ← encode_attributes (attributes this) (take (Z.to_nat hdr_size) (hdr this)) [];
  r ← add_encr crypto random out encr;
  match r with
  | None => Some Failed
  | Some out =>
    if has_mac (get_subtype this) then add_mac crypto sigdata out
    else Some (Generated (set_length out))
  end.

End Operations.
