(* ===== verification/SimakaSpec.v ===== *)
(** What is generated is parsed: the attributes, plain and encrypted, come back and the MAC
    verifies. A message is only verified with the MAC of what it consists of. The parser is
    safe on sequences of attributes whose lengths are right, and what it does with others. *)

From S2P Require Import Prelude Simaka.

(** * Positions in a buffer *)

Section Positions.
Implicit Types (pre x : chunk).

Lemma byte_at_shift pre x i : 0 <= i -> byte_at (pre ++ x) (len pre + i) = byte_at x i.
Proof.
  intros Hi. unfold byte_at, len. rewrite app_nth2 by lia. f_equal. lia.
Qed.

Lemma slice_shift pre x o n : 0 <= o -> slice (pre ++ x) (len pre + o) n = slice x o n.
Proof.
  intros Ho. unfold slice. rewrite len_app. pose proof (len_nonneg pre).
  replace (len pre + o + n <=? len pre + len x) with (o + n <=? len x)
    by (destruct (Z.leb_spec (o + n) (len x)), (Z.leb_spec (len pre + o + n) (len pre + len x)); lia || done).
  rewrite (proj2 (Z.leb_le 0 (len pre + o))), (proj2 (Z.leb_le 0 o)) by lia.
  replace (Z.to_nat (len pre + o)) with (length pre + Z.to_nat o)%nat by (unfold len; lia).
  by rewrite <- drop_drop, drop_app_length.
Qed.

Lemma slice_mid a d b o n : o = len a -> n = len d -> slice (a ++ d ++ b) o n = Some d.
Proof.
  intros -> ->. replace (len a) with (len a + 0) by lia. rewrite slice_shift by done. unfold slice.
  rewrite len_app, (proj2 (Z.leb_le (0 + len d) _)) by (pose proof (len_nonneg b); lia).
  cbn [Z.leb andb Z.compare]. unfold len. by rewrite Nat2Z.id, drop_0, take_app_length.
Qed.

Lemma layout_shift e pre x : layout e (pre ++ x) (len pre) = layout e x 0.
Proof.
  assert (E : byte_at (pre ++ x) (len pre) = byte_at x 0)
    by (rewrite <- (byte_at_shift pre x 0) by done; f_equal; lia).
  unfold layout. rewrite E, !byte_at_shift, len_app by done.
  by replace (len pre + len x - len pre) with (len x - 0) by lia.
Qed.

End Positions.

(** * Attributes *)

Definition no_data := [AT_COUNTER_TOO_SMALL; AT_ANY_ID_REQ; AT_PERMANENT_ID_REQ; AT_FULLAUTH_ID_REQ].
Definition two_octets := [AT_COUNTER; AT_CLIENT_ERROR_CODE; AT_SELECTED_VERSION; AT_NOTIFICATION].
Definition with_length := [AT_NEXT_PSEUDONYM; AT_NEXT_REAUTH_ID; AT_IDENTITY; AT_VERSION_LIST].
Definition sixteen_octets := [AT_NONCE_S; AT_NONCE_MT; AT_AUTN].

(** The data an attribute has in the protocol. *)
Definition attribute_ok (a : Z * chunk) : Prop :=
  bytes_ok a.2 /\
  (a.1 ∈ no_data /\ len a.2 = 0 \/ a.1 ∈ two_octets /\ len a.2 = 2 \/ a.1 ∈ with_length /\ len a.2 <= 1016
   \/ a.1 = AT_RES /\ len a.2 < 32 \/ a.1 ∈ sixteen_octets /\ len a.2 = 16
   \/ a.1 = AT_RAND /\ len a.2 mod 4 = 0 /\ len a.2 <= 1012 \/ a.1 = AT_AUTS /\ len a.2 = 14).

(** Attributes that are only valid when they are encrypted. *)
Definition secret (t : Z) : bool :=
  case_of t [AT_NONCE_S; AT_NEXT_PSEUDONYM; AT_NEXT_REAUTH_ID; AT_COUNTER; AT_COUNTER_TOO_SMALL].

Lemma be_val_two a b : be_val [a; b] = a * 256 + b.
Proof. cbn [be_val]. change (256 ^ len [b]) with 256. change (256 ^ len []) with 1. lia. Qed.

Lemma length_octets (n : Z) : 0 <= n < 65536 ->
  be_val [((n mod 256) * 256 + (n / 256) mod 256) mod 256; ((n mod 256) * 256 + (n / 256) mod 256) / 256] = n.
Proof. intros Hn. rewrite be_val_two. div_lia. Qed.

Lemma length_octets_res (n : Z) : 0 <= n < 32 ->
  let swapped := (n mod 256) * 256 + (n / 256) mod 256 in
  be_val [u16 (swapped * 8) mod 256; u16 (swapped * 8) / 256] / 8 = n.
Proof. intros Hn. cbv zeta. rewrite be_val_two. unfold wrap. div_lia. Qed.

(** Evaluates the cases of a [switch] on a known type. *)
Ltac switch :=
  repeat match goal with
  | |- context [case_of ?t ?l] =>
    let b := eval vm_compute in (case_of t l) in
    match b with true => idtac | false => idtac end; change (case_of t l) with b
  | |- context [(?a =? ?b)%Z] =>
    is_const a; is_const b; let r := eval vm_compute in (Z.eqb a b) in change (Z.eqb a b) with r
  end; cbn [andb negb orb].

(** What the parser makes of the octets of an attribute, wherever they are. *)
Definition parses (e : bool) (octets : chunk) (t o n : Z) : Prop :=
  forall post, layout e (octets ++ post) 0 = Some (o, n, len octets) /\ byte_at (octets ++ post) 0 = t.

Lemma parses_header e t l b2 b3 rest o n :
  (forall in_len, 4 + len rest <= in_len ->
     layout_of e t l (be_val [b2; b3]) in_len = Some (o, n, 4 + len rest)) ->
  parses e (t :: l :: b2 :: b3 :: rest) t o n.
Proof.
  intros L post. split; [|done]. cbn [app].
  transitivity (layout_of e t l (be_val [b2; b3]) (len (t :: l :: b2 :: b3 :: rest ++ post) - 0)); [done|].
  pose proof (len_nonneg post). rewrite L by (rewrite !len_cons, len_app; lia).
  rewrite !len_cons. do 2 f_equal. lia.
Qed.

(** Evaluates the lengths of an attribute of a known type. *)
Ltac eval_layout :=
  intros; unfold layout_of; switch; cbn [len length Z.of_nat Pos.of_succ_nat] in *;
  repeat match goal with
  | |- context [?a <? ?b] => rewrite (proj2 (Z.ltb_ge a b)) by lia
  | |- context [?a >? ?b] => rewrite Z.gtb_ltb
  end; try done.

Ltac cases_of Ht :=
  repeat (apply elem_of_cons in Ht as [->|Ht]); [..|by apply elem_of_nil in Ht].

Lemma parses_no_data e t : t ∈ no_data -> (secret t = true -> e = true) -> parses e [t; 1; 0; 0] t 0 0.
Proof.
  intros Ht Hs. apply parses_header. rewrite len_nil. cases_of Ht; try rewrite Hs by done; eval_layout.
Qed.

Lemma parses_two_octets e t a b : t ∈ two_octets -> (secret t = true -> e = true) -> parses e [t; 1; a; b] t 2 2.
Proof.
  intros Ht Hs. apply parses_header. rewrite len_nil. cases_of Ht; try rewrite Hs by done; eval_layout.
Qed.

Lemma length_field_actual t n :
  0 <= n -> (if t =? AT_RES then n < 32 else n < 65536) ->
  be_val (length_field t n) = (if t =? AT_RES then be_val (length_field t n) else n)
  /\ (t =? AT_RES = true -> be_val (length_field t n) / 8 = n).
Proof.
  intros Hn R. unfold length_field. destruct (t =? AT_RES); (split; [|done || intros _]).
  - done.
  - by apply length_octets_res.
  - by apply length_octets.
Qed.

Lemma parses_with_length e t d pad l :
  t ∈ AT_RES :: with_length -> (secret t = true -> e = true) ->
  (if t =? AT_RES then len d < 32 else len d < 65536) ->
  1 <= l -> len d + Z.of_nat pad = 4 * l - 4 -> (pad < 4)%nat ->
  parses e ([t; l] ++ length_field t (len d) ++ d ++ replicate pad 0) t 4 (len d).
Proof.
  intros Ht Hs R Hl Hp Hpad. pose proof (len_nonneg d).
  destruct (length_field_actual t (len d)) as [A1 A2]; [lia|done|].
  unfold length_field in *. cbn [app] in *. apply parses_header. intros in_len Hi.
  rewrite len_app, len_replicate in *. replace (4 + (len d + Z.of_nat pad)) with (l * 4) in * by lia.
  set (v := be_val _) in *. clearbody v.
  cases_of Ht; try rewrite Hs by done; cbv delta [AT_RES AT_NEXT_PSEUDONYM AT_NEXT_REAUTH_ID AT_IDENTITY AT_VERSION_LIST] in A1, A2, R;
    cbn [Z.eqb Pos.eqb] in A1, A2, R; unfold layout_of; switch.
  1: rewrite A2 by done.
  2-5: rewrite A1.
  all: rewrite (proj2 (Z.ltb_ge l 1)), (proj2 (Z.ltb_ge in_len 4)) by lia; cbn [orb].
  all: rewrite !Z.gtb_ltb, (proj2 (Z.ltb_ge (l * 4) (len d))), (proj2 (Z.ltb_ge in_len (len d))) by lia; done.
Qed.

Lemma parses_sixteen e t a b d :
  t ∈ [AT_NONCE_S; AT_AUTN; AT_NONCE_MT; AT_IV; AT_MAC] -> (secret t = true -> e = true) -> len d = 16 ->
  parses e (t :: 5 :: a :: b :: d) t 4 16.
Proof.
  intros Ht Hs L. apply parses_header. rewrite L. cases_of Ht; try rewrite Hs by done; eval_layout.
Qed.

Lemma parses_blocks e t l a b d :
  t ∈ [AT_ENCR_DATA; AT_RAND] -> l * 4 = 4 + len d -> len d < 2 ^ 63 -> parses e (t :: l :: a :: b :: d) t 4 (len d).
Proof.
  intros Ht L R. pose proof (len_nonneg d). apply parses_header. intros in_len Hi. rewrite <- L in *.
  cases_of Ht; unfold layout_of; switch;
    rewrite Z.gtb_ltb, (proj2 (Z.ltb_ge in_len (l * 4))), (proj2 (Z.ltb_ge in_len 4)) by lia; cbn [orb];
    rewrite (wrap_small 64 (l * 4 - 4)) by lia; do 3 f_equal; lia.
Qed.

Lemma parses_auts e a b d : len d = 12 -> parses e (AT_AUTS :: 4 :: a :: b :: d) AT_AUTS 2 14.
Proof. intros L. apply parses_header. rewrite L. eval_layout. Qed.

Lemma parses_padding e l a b d :
  l * 4 = 4 + len d -> len d < 2 ^ 63 -> parses e (AT_PADDING :: l :: a :: b :: d) AT_PADDING 2 (2 + len d).
Proof.
  intros L R. pose proof (len_nonneg d). apply parses_header. intros in_len Hi. rewrite <- L in *.
  unfold layout_of. switch. rewrite Z.gtb_ltb, (proj2 (Z.ltb_ge in_len (l * 4))), (proj2 (Z.ltb_ge in_len 4)) by lia.
  cbn [orb]. rewrite (wrap_small 64 (l * 4 - 2)) by lia. do 3 f_equal. lia.
Qed.

(** ** Encoding *)

Lemma encode_no_data t d : t ∈ no_data -> encode_attribute t d = Some ([t; 1; 0; 0], 4).
Proof. intros Ht. cases_of Ht; reflexivity. Qed.

Lemma encode_two_octets t a b : t ∈ two_octets -> encode_attribute t [a; b] = Some ([t; 1; a; b], 4).
Proof. intros Ht. cases_of Ht; reflexivity. Qed.

Lemma encode_sixteen t d : t ∈ sixteen_octets -> len d = 16 -> encode_attribute t d = Some (t :: 5 :: 0 :: 0 :: d, 20).
Proof. intros Ht L. cases_of Ht; unfold encode_attribute; switch; by rewrite L. Qed.

(** The octets that fill up the last group of four, and the groups. *)
Definition fill (n : Z) : Z := (4 - n mod 4) mod 4.
Definition groups (n : Z) : Z := (n + fill n) / 4 + 1.

Lemma groups_spec n : 0 <= n -> n + fill n = 4 * groups n - 4 /\ 0 <= fill n < 4.
Proof. intros Hn. unfold groups, fill. div_lia. Qed.

Lemma encode_with_length t d :
  t ∈ AT_RES :: with_length -> len d <= 1016 ->
  encode_attribute t d =
    Some ([t; groups (len d)] ++ length_field t (len d) ++ d ++ replicate (Z.to_nat (fill (len d))) 0, groups (len d) * 4).
Proof.
  intros Ht L. pose proof (len_nonneg d) as Ld.
  assert (G : u8 (u8 (len d / 4 + 1) + (if fill (len d) =? 0 then 0 else 1)) = groups (len d)).
  { rewrite (wrap_small 8 (len d / 4 + 1)) by div_lia. unfold groups.
    destruct (Z.eqb_spec (fill (len d)) 0); unfold fill in *; rewrite wrap_small; div_lia. }
  cases_of Ht; unfold encode_attribute; switch; fold (fill (len d)); by rewrite G.
Qed.

(** What is written for an attribute is as long as it is skipped, and parses. *)
Definition written (e : bool) (octets : chunk) (t : Z) (d : chunk) : Prop :=
  exists o, 0 <= o /\ parses e octets t o (len d) /\ forall post, slice (octets ++ post) o (len d) = Some d.

Lemma written_intro e octets t d pre post :
  octets = pre ++ d ++ post -> parses e octets t (len pre) (len d) -> written e octets t d.
Proof.
  intros -> P. exists (len pre). split; [apply len_nonneg|]. split; [done|].
  intros post'. rewrite <- !app_assoc. by apply slice_mid.
Qed.

Lemma encode_written e t d :
  attribute_ok (t, d) -> (secret t = true -> e = true) ->
  exists octets, encode_attribute t d = Some (octets, len octets) /\ 4 <= len octets /\ len octets mod 4 = 0 /\ written e octets t d.
Proof.
  intros [Hb Hk] Hs. cbn [fst snd] in *. pose proof (len_nonneg d) as Ld.
  assert (WL : t ∈ AT_RES :: with_length -> (if t =? AT_RES then len d < 32 else len d < 65536) -> len d <= 1016 ->
    exists octets, encode_attribute t d = Some (octets, len octets) /\ 4 <= len octets /\ len octets mod 4 = 0 /\ written e octets t d).
  { intros Ht R L. destruct (groups_spec (len d) Ld) as [G F].
    set (octets := [t; groups (len d)] ++ length_field t (len d) ++ d ++ replicate (Z.to_nat (fill (len d))) 0).
    assert (Lo : len octets = groups (len d) * 4).
    { unfold octets, length_field. cbn [app]. rewrite !len_cons, len_app, len_replicate. lia. }
    exists octets. split; [rewrite encode_with_length by done; by rewrite Lo|]. split; [lia|].
    split; [rewrite Lo; apply Z.mod_mul; lia|].
    apply (written_intro e _ t d ([t; groups (len d)] ++ length_field t (len d)) (replicate (Z.to_nat (fill (len d))) 0));
      [by rewrite <- !app_assoc|]. apply parses_with_length; [done..|lia|lia|lia]. }
  destruct Hk as [[Ht L]|[[Ht L]|[[Ht L]|[[-> L]|[[Ht L]|[[-> [L1 L2]]|[-> L]]]]]]].
  - exists [t; 1; 0; 0]. rewrite encode_no_data by done. split; [done|]. split; [done|]. split; [done|]. apply len_zero_inv in L as ->.
    exists 0. split; [done|]. split; [by apply parses_no_data|]. intros post. unfold slice.
    pose proof (len_nonneg ([t; 1; 0; 0] ++ post)). rewrite len_nil. case_if; [done|lia].
  - destruct d as [|a [|b [|c d]]]; rewrite ?len_cons, ?len_nil in L; try lia; [|pose proof (len_nonneg d); lia].
    exists [t; 1; a; b]. rewrite encode_two_octets by done. split; [done|]. split; [done|]. split; [done|].
    apply (written_intro e _ t [a; b] [t; 1] []); [done|by apply parses_two_octets].
  - apply WL; [by right| |lia]. cases_of Ht; cbn; lia.
  - apply WL; [by left|done|lia].
  - exists (t :: 5 :: 0 :: 0 :: d). rewrite encode_sixteen by done.
    assert (L20 : len (t :: 5 :: 0 :: 0 :: d) = 20) by (rewrite !len_cons; lia).
    split; [by rewrite L20|]. split; [lia|]. split; [by rewrite L20|]. apply (written_intro e _ t d [t; 5; 0; 0] []); [by rewrite app_nil_r|].
    change (len [t; 5; 0; 0]) with 4. rewrite L. apply parses_sixteen; [|done..].
    cases_of Ht; unfold sixteen_octets; set_solver.
  - exists (AT_RAND :: u8 (1 + len d / 4) :: 0 :: 0 :: d). unfold encode_attribute. switch.
    assert (L4 : len (AT_RAND :: u8 (1 + len d / 4) :: 0 :: 0 :: d) = len d + 4) by (rewrite !len_cons; lia).
    split; [by rewrite L4|]. split; [lia|]. split; [rewrite L4; div_lia|].
    apply (written_intro e _ AT_RAND d [AT_RAND; u8 (1 + len d / 4); 0; 0] []); [by rewrite app_nil_r|].
    apply parses_blocks; [set_solver|rewrite wrap_small; div_lia|lia].
  - exists ([AT_AUTS; 4] ++ d). unfold encode_attribute. switch. rewrite L.
    assert (L16 : len ([AT_AUTS; 4] ++ d) = 16) by (cbn [app]; rewrite !len_cons; lia).
    split; [by rewrite L16|]. split; [lia|]. split; [by rewrite L16|]. apply (written_intro e _ AT_AUTS d [AT_AUTS; 4] []); [by rewrite app_nil_r|].
    rewrite L. destruct d as [|a [|b d]]; rewrite ?len_cons, ?len_nil in L; [lia|lia|].
    apply parses_auts. lia.
Qed.

(** * Parsing what was written *)

(** What an attribute does to the message it is parsed into. *)
Definition received (this : simaka_message) (a : Z * chunk) : simaka_message :=
  let this := if (a.1 =? AT_NOTIFICATION) && p_bit this then with_p_bit (Z.testbit (byte_at a.2 0) 6) this else this in
  add_attribute this a.1 a.2.

Definition special : list Z := [AT_MAC; AT_IV; AT_ENCR_DATA; AT_PADDING].

(** Notifications that are parsed before the encrypted attributes have the P bit. *)
Definition notification_ok (e : bool) (a : Z * chunk) : Prop :=
  e = true \/ (a.1 = AT_NOTIFICATION -> Z.testbit (byte_at a.2 0) 6 = true).

Section Loop.
Implicit Types (pre post octets : chunk).

Lemma slice_split x o d : slice x o (len d) = Some d -> exists a b, x = a ++ d ++ b /\ len a = o.
Proof.
  unfold slice. case_if; [|done]. intros E. injection E as E. exists (take (Z.to_nat o) x), (drop (length d) (drop (Z.to_nat o) x)).
  rewrite len_take. split; [|pose proof (len_nonneg d); lia].
  unfold len in E. rewrite Nat2Z.id in E. rewrite <- E at 1. by rewrite !take_drop.
Qed.

Lemma slice_byte x o d : slice x o (len d) = Some d -> d <> [] -> byte_at x o = byte_at d 0.
Proof.
  intros S N. destruct (slice_split x o d S) as (a & b & -> & <-). replace (len a) with (len a + 0) by lia.
  rewrite byte_at_shift by done. by destruct d.
Qed.

(** One round of the loop at an attribute that parses. *)
Lemma parse_step fuel w pre octets post t o n this :
  parses (encrypted this) octets t o n -> 4 <= len octets ->
  parse_loop (S fuel) w (pre ++ octets ++ post) (len pre) this
  = match handle w (pre ++ octets ++ post) t (len pre + o) n this with
    | Return true this => parse_loop fuel w ((pre ++ octets) ++ post) (len (pre ++ octets)) this
    | r => r
    end.
Proof.
  intros P L. destruct (P post) as [P1 P2]. cbn [parse_loop]. rewrite layout_shift, P1.
  assert (B : byte_at (pre ++ octets ++ post) (len pre) = t).
  { replace (len pre) with (len pre + 0) by lia. by rewrite byte_at_shift. }
  rewrite B. rewrite (len_app pre (octets ++ post)), (len_app octets post). pose proof (len_nonneg post).
  rewrite (proj2 (Z.eqb_neq _ 0)), (proj2 (Z.ltb_ge _ 2)) by lia.
  destruct (handle _ _ _ _ _ _) as [[|] this'| | |]; [|done..].
  rewrite app_assoc. f_equal. rewrite len_app, Z.gtb_ltb. destruct (Z.ltb_spec (len octets) (len pre + (len octets + len post) - len pre)); lia.
Qed.

Lemma parse_received fuel w pre octets post t d this :
  written (encrypted this) octets t d -> 4 <= len octets -> t ∉ special -> (t = AT_NOTIFICATION -> d <> []) ->
  (t = AT_NOTIFICATION -> encrypted this = false -> p_bit this = true) ->
  parse_loop (S fuel) w (pre ++ octets ++ post) (len pre) this
  = parse_loop fuel w ((pre ++ octets) ++ post) (len (pre ++ octets)) (received this (t, d)).
Proof.
  intros (o & Ho & P & Sl) L T N B. rewrite (parse_step _ _ _ _ _ _ _ _ _ P L).
  assert (S1 : slice (pre ++ octets ++ post) (len pre + o) (len d) = Some d) by (rewrite slice_shift by done; apply Sl).
  unfold handle, received. cbn [fst snd]. rewrite S1.
  unfold special in T. rewrite !not_elem_of_cons in T. destruct T as (T1 & T2 & T3 & T4 & _).
  rewrite (proj2 (Z.eqb_neq _ _) T1), (proj2 (Z.eqb_neq _ _) T2), (proj2 (Z.eqb_neq _ _) T3), (proj2 (Z.eqb_neq _ _) T4).
  destruct (Z.eqb_spec t AT_NOTIFICATION) as [->|Nt]; [|done].
  cbn [andb]. destruct (p_bit this) eqn:Ep.
  - by rewrite (slice_byte _ _ _ S1) by auto.
  - destruct (encrypted this); [done|]. by specialize (B eq_refl eq_refl).
Qed.

(** Attributes one after the other. *)
Lemma parse_list l ws : forall fuel w pre post this,
  Forall2 (fun a octets => written (encrypted this) octets a.1 a.2 /\ 4 <= len octets) l ws ->
  Forall (fun a => a.1 ∉ special /\ (a.1 = AT_NOTIFICATION -> a.2 <> []) /\ notification_ok (encrypted this) a) l ->
  (encrypted this = false -> p_bit this = true) ->
  parse_loop (length l + fuel) w (pre ++ concat ws ++ post) (len pre) this
  = parse_loop fuel w ((pre ++ concat ws) ++ post) (len (pre ++ concat ws)) (fold_left received l this).
Proof.
  revert ws. induction l as [|[t d] l IH]; intros ws fuel w pre post this W F B; inversion W as [|? octets ? ws' [W1 L1] W2]; subst.
  - cbn. by rewrite !app_nil_r.
  - apply Forall_cons in F as [(F1 & F2 & F3) F]. cbn [concat length fold_left Nat.add fst snd] in *.
    rewrite <- app_assoc, (parse_received _ _ _ _ _ t d) by auto.
    assert (E : encrypted (received this (t, d)) = encrypted this)
      by (unfold received; cbn; by destruct (_ && _)).
    rewrite IH; rewrite ?E; [by rewrite !app_assoc|done..|].
    intros En. unfold received, notification_ok in *. cbn [fst snd] in *.
    destruct (Z.eqb_spec t AT_NOTIFICATION) as [->|]; cbn [andb]; [|by apply B].
    rewrite B by done. cbn. destruct F3 as [F3|F3]; [congruence|by apply F3].
Qed.

Lemma received_all l this :
  attributes (fold_left received l this) = attributes this ++ l
  /\ hdr (fold_left received l this) = hdr this /\ encrypted (fold_left received l this) = encrypted this
  /\ mac (fold_left received l this) = mac this /\ iv (fold_left received l this) = iv this
  /\ encr (fold_left received l this) = encr this.
Proof.
  revert this. induction l as [|a l IH]; intros this; cbn [fold_left]; [by rewrite app_nil_r|].
  destruct (IH (received this a)) as (-> & -> & -> & -> & -> & ->). unfold received.
  destruct a as [t d]. destruct (_ && _); cbn; by rewrite <- app_assoc.
Qed.

End Loop.

(** * Encoding all attributes *)

Definition goes_encrypted (a : Z * chunk) : bool := default false (is_encrypted a.1 a.2).
Definition plain_attributes (l : list (Z * chunk)) := List.filter (fun a => negb (goes_encrypted a)) l.
Definition secret_attributes (l : list (Z * chunk)) := List.filter goes_encrypted l.

(** The octets of attributes, one after the other. *)
Definition all_written (e : bool) (l : list (Z * chunk)) (ws : list chunk) : Prop :=
  Forall2 (fun a octets => written e octets a.1 a.2 /\ 4 <= len octets) l ws.

Lemma secret_is_encrypted t d : secret t = true -> is_encrypted t d = Some true.
Proof. unfold is_encrypted, secret. by intros ->. Qed.

Lemma write_full size buf octets out :
  write size buf octets (len octets) = Some out -> out = buf ++ octets /\ len buf + len octets <= size.
Proof.
  unfold write. case_if; [done|]. intros E. injection E as <-. unfold len at 1. rewrite Nat2Z.id.
  rewrite take_ge by done. split; [done|lia].
Qed.

Lemma encode_attributes_spec l : forall out encr out' encr',
  Forall attribute_ok l -> encode_attributes l out encr = Some (out', encr') ->
  exists wp we, out' = out ++ concat wp /\ encr' = encr ++ concat we
    /\ all_written false (plain_attributes l) wp /\ all_written true (secret_attributes l) we
    /\ (len encr mod 4 = 0 -> len encr' mod 4 = 0).
Proof.
  induction l as [|[t d] l IH]; intros out encr out' encr' F E.
  { injection E as <- <-. exists [], []. rewrite !app_nil_r. by repeat split; try constructor. }
  apply Forall_cons in F as [Ha F]. cbn [encode_attributes] in E.
  destruct (is_encrypted t d) as [e|] eqn:Ee; [|done]. cbn [mbind option_bind] in E.
  assert (Hs : secret t = true -> e = true) by (intros S; rewrite (secret_is_encrypted t d S) in Ee; by simplify_eq).
  destruct (encode_written e t d Ha Hs) as (octets & Eo & L & M & W). rewrite Eo in E. cbn [mbind option_bind] in E.
  assert (G : goes_encrypted (t, d) = e) by (unfold goes_encrypted; cbn; by rewrite Ee).
  destruct e; [destruct (write encr_buf_size encr octets (len octets)) as [encr1|] eqn:Ew; [|done]
              |destruct (write out_buf_size out octets (len octets)) as [out1|] eqn:Ew; [|done]];
    apply write_full in Ew as [-> _]; cbn [mbind option_bind] in E;
    destruct (IH _ _ _ _ F E) as (wp & we & -> & -> & Wp & We & M');
    unfold plain_attributes, secret_attributes; cbn [List.filter]; rewrite G; cbn [negb].
  - exists wp, (octets :: we). cbn [concat]. rewrite <- !app_assoc. repeat split; [done|by constructor|].
    intros Me. rewrite <- app_assoc in M'. apply M'. rewrite len_app. div_lia.
  - exists (octets :: wp), we. cbn [concat]. rewrite <- !app_assoc. repeat split; [by constructor|done..].
Qed.

Lemma all_written_length e l ws : all_written e l ws -> 4 * Z.of_nat (length l) <= len (concat ws).
Proof. induction 1 as [|a o l ws [_ L] _ IH]; [done|]. cbn [concat length]. rewrite len_app. lia. Qed.

(** Attributes in the protocol can be parsed one after the other. *)
Lemma attribute_ok_sendable e l :
  Forall attribute_ok l -> (e = true \/ Forall (fun a => goes_encrypted a = false) l) ->
  Forall (fun a => a.1 ∉ special /\ (a.1 = AT_NOTIFICATION -> a.2 <> []) /\ notification_ok e a) l.
Proof.
  intros F E. apply Forall_forall. intros [t d] Hin. rewrite Forall_forall in F. specialize (F _ Hin).
  destruct F as [_ F]. cbn [fst snd] in *.
  assert (N : t = AT_NOTIFICATION -> len d = 2).
  { intros Et. destruct F as [[X _]|[[_ X]|[[X _]|[[X _]|[[X _]|[[X _]|[X _]]]]]]]; [|exact X|..].
    3, 5, 6: rewrite X in Et; discriminate Et.
    all: cases_of X; discriminate Et. }
  repeat split.
  - destruct F as [[X _]|[[X _]|[[X _]|[[-> _]|[[X _]|[[-> _]|[-> _]]]]]]]; try cases_of X;
      unfold special; rewrite !not_elem_of_cons; (repeat split; [done..|apply not_elem_of_nil]).
  - intros T ->. by specialize (N T).
  - destruct E as [->|E]; [by left|]. right. cbn [fst snd]. intros ->. rewrite Forall_forall in E. specialize (E _ Hin).
    unfold goes_encrypted in E. cbn [fst snd] in E. destruct d as [|b d]; [by specialize (N eq_refl)|].
    change (negb (Z.testbit b 6) = false) in E. by apply negb_false_iff in E.
Qed.

(** * Messages *)

Section Special.
Context (fuel : nat) (w : buffer) (pre d post : chunk) (this : simaka_message).

Lemma parse_mac : len d = 16 ->
  parse_loop (S fuel) w (pre ++ (AT_MAC :: 5 :: 0 :: 0 :: d) ++ post) (len pre) this
  = parse_loop fuel w ((pre ++ AT_MAC :: 5 :: 0 :: 0 :: d) ++ post) (len (pre ++ AT_MAC :: 5 :: 0 :: 0 :: d))
      (with_mac (Some (Pointer w (len pre + 4) 16)) this).
Proof.
  intros L. rewrite (parse_step _ _ _ _ _ AT_MAC 4 16); [done| |rewrite !len_cons; lia].
  apply parses_sixteen; [repeat (left || right)|done|done].
Qed.

Lemma parse_iv : len d = 16 ->
  parse_loop (S fuel) w (pre ++ (AT_IV :: 5 :: 0 :: 0 :: d) ++ post) (len pre) this
  = parse_loop fuel w ((pre ++ AT_IV :: 5 :: 0 :: 0 :: d) ++ post) (len (pre ++ AT_IV :: 5 :: 0 :: 0 :: d))
      (with_iv (Some (Pointer w (len pre + 4) 16)) this).
Proof.
  intros L. rewrite (parse_step _ _ _ _ _ AT_IV 4 16); [done| |rewrite !len_cons; lia].
  apply parses_sixteen; [repeat (left || right)|done|done].
Qed.

Lemma parse_encr l : l * 4 = 4 + len d -> len d < 2 ^ 63 ->
  parse_loop (S fuel) w (pre ++ (AT_ENCR_DATA :: l :: 0 :: 0 :: d) ++ post) (len pre) this
  = parse_loop fuel w ((pre ++ AT_ENCR_DATA :: l :: 0 :: 0 :: d) ++ post) (len (pre ++ AT_ENCR_DATA :: l :: 0 :: 0 :: d))
      (with_encr (Some (Pointer w (len pre + 4) (len d))) this).
Proof.
  intros L R. pose proof (len_nonneg d).
  rewrite (parse_step _ _ _ _ _ AT_ENCR_DATA 4 (len d)); [done| |rewrite !len_cons; lia].
  by apply parses_blocks; [left|..].
Qed.

Lemma parse_padding l a b : l * 4 = 4 + len d -> len d < 2 ^ 63 ->
  parse_loop (S fuel) w (pre ++ (AT_PADDING :: l :: a :: b :: d) ++ post) (len pre) this
  = parse_loop fuel w ((pre ++ AT_PADDING :: l :: a :: b :: d) ++ post) (len (pre ++ AT_PADDING :: l :: a :: b :: d)) this.
Proof.
  intros L R. pose proof (len_nonneg d).
  rewrite (parse_step _ _ _ _ _ AT_PADDING 2 (2 + len d)); [done| |rewrite !len_cons; lia].
  by apply parses_padding.
Qed.

Lemma parse_end buf : parse_loop (S fuel) w buf (len buf) this = Return true this.
Proof. cbn [parse_loop]. by rewrite Z.sub_diag. Qed.

End Special.

(** What the signer and the crypter promise: HMAC-SHA1-128 accepts its signatures, AES in
    CBC mode decrypts what it encrypted. *)
Class CryptoLaws `{SimakaCrypto} := {
  sizes : crypter_block_size = 16 /\ crypter_iv_size = 16 /\ signer_block_size = 16;
  decrypt_encrypt : forall k plain iv c, crypter_encrypt k plain iv = Some c ->
    crypter_decrypt k c iv = Some plain /\ len c = len plain;
  verify_get_signature : forall k data s, get_signature k data = Some s ->
    verify_signature k data s = true /\ len s = 16;
}.

Section Roundtrip.
Context `{CryptoLaws}.

(** The plaintext ends with padding. *)
Lemma pad_encr_spec encr p :
  len encr mod 4 = 0 -> pad_encr encr = Some p ->
  exists l a b z, p = encr ++ AT_PADDING :: l :: a :: b :: z /\ l * 4 = 4 + len z /\ len z < 2 ^ 63
    /\ len p mod 16 = 0 /\ len p <= 512.
Proof.
  intros M. unfold pad_encr. destruct sizes as [-> _]. set (padding := 16 - len encr mod 16).
  assert (R : padding = 4 \/ padding = 8 \/ padding = 12 \/ padding = 16) by (unfold padding; div_lia).
  assert (Mp : (len encr + padding) mod 16 = 0) by (unfold padding; div_lia). clearbody padding.
  rewrite (proj2 (Z.ltb_ge padding 2)) by lia. intros E.
  set (octets := [AT_PADDING; u8 (padding / 4)] ++ replicate (Z.to_nat (padding - 2)) 0) in E.
  assert (Lo : len octets = padding) by (unfold octets; cbn [app]; rewrite !len_cons, len_replicate; lia).
  rewrite <- Lo in E. apply write_full in E as [-> Le].
  exists (padding / 4), 0, 0, (replicate (Z.to_nat (padding - 4)) 0). rewrite len_app, len_replicate, Lo in *.
  split; [|unfold encr_buf_size in Le; repeat split; destruct R as [->|[->|[->| ->]]]; done || lia].
  unfold octets. by destruct R as [->|[->|[->| ->]]].
Qed.

(** The end of a message: the encrypted attributes, if there are any. *)
Definition sealed (crypto : option keys) (encr tail : chunk) : Prop :=
  encr = [] /\ tail = [] \/
  exists k v l c plain, crypto = Some k /\ pad_encr encr = Some plain /\ crypter_decrypt k c v = Some plain
    /\ len v = 16 /\ l * 4 = 4 + len c /\ len c = len plain
    /\ tail = (AT_IV :: 5 :: 0 :: 0 :: v) ++ (AT_ENCR_DATA :: l :: 0 :: 0 :: c).

Lemma add_encr_spec crypto v out encr out' :
  len encr mod 4 = 0 -> len v = 16 -> add_encr crypto (Some v) out encr = Some (Some out') ->
  exists tail, out' = out ++ tail /\ sealed crypto encr tail.
Proof.
  intros M Lv. unfold add_encr. destruct encr as [|x encr].
  { intros E. injection E as <-. exists []. rewrite app_nil_r. split; [done|by left]. }
  destruct crypto as [k|]; [|done]. cbn [mbind option_bind]. destruct (pad_encr (x :: encr)) as [plain|] eqn:Ep; [|done].
  cbn [mbind option_bind]. destruct (pad_encr_spec _ _ M Ep) as (_ & _ & _ & _ & _ & _ & _ & Mp & Rp).
  destruct sizes as (_ & -> & _). intros E.
  change (u8 (16 / 4 + 1)) with 5 in E. set (o1 := [AT_IV; 5; 0; 0] ++ v) in E.
  assert (L1 : len o1 = 16 + 4) by (unfold o1; cbn [app]; rewrite !len_cons; lia). rewrite <- L1 in E.
  destruct (write _ _ o1 _) as [out1|] eqn:E1; [|done]. apply write_full in E1 as [-> _]. cbn [mbind option_bind] in E.
  destruct (crypter_encrypt k plain v) as [c|] eqn:Ec; [|done]. destruct (decrypt_encrypt _ _ _ _ Ec) as [Dc Lc].
  set (o2 := [AT_ENCR_DATA; _; 0; 0] ++ c) in E.
  assert (L2 : len o2 = len c + 4) by (unfold o2; cbn [app]; rewrite !len_cons; lia). rewrite <- L2 in E.
  destruct (write _ _ o2 _) as [out2|] eqn:E2; [|done]. apply write_full in E2 as [-> _]. cbn [mbind option_bind] in E.
  injection E as <-. exists (o1 ++ o2). rewrite app_assoc. split; [done|]. right.
  exists k, v, (u8 (len c / 4 + 1)), c, plain. repeat split; try done.
  pose proof (len_nonneg c). rewrite wrap_small; div_lia.
Qed.


(** The buffers are not left. *)
Lemma len_write size buf octets skip out : write size buf octets skip = Some out -> len out <= size.
Proof. unfold write. case_if; [done|]. intros E. injection E as <-. rewrite len_app, len_take. lia. Qed.

Lemma len_encode_attributes l : forall out encr out' encr',
  encode_attributes l out encr = Some (out', encr') -> len out <= out_buf_size -> len out' <= out_buf_size.
Proof.
  induction l as [|[t d] l IH]; intros out encr out' encr'; cbn [encode_attributes]; [intros E; by injection E as <- _|].
  destruct (is_encrypted t d) as [[|]|]; [| |done]; cbn [mbind option_bind];
    (destruct (encode_attribute t d) as [[octets skip]|]; [|done]); cbn [mbind option_bind].
  - destruct (write _ encr _ _); [|done]. apply IH.
  - destruct (write _ out _ _) eqn:E; [|done]. intros G _. eapply IH; [exact G|]. by eapply len_write.
Qed.

Lemma len_add_encr crypto random out encr out' :
  add_encr crypto random out encr = Some (Some out') -> len out <= out_buf_size -> len out' <= out_buf_size.
Proof.
  unfold add_encr. destruct encr; [intros E; by injection E as <-|]. destruct crypto; [|done]. cbn [mbind option_bind].
  destruct (pad_encr _); [|done]. cbn [mbind option_bind]. destruct random; [|done].
  destruct (write _ out _ _); [|done]. cbn [mbind option_bind]. destruct (crypter_encrypt _ _ _); [|done].
  destruct (write _ _ _ _) eqn:E; [|done]. cbn [mbind option_bind]. intros G _. injection G as <-. by eapply len_write.
Qed.

(** A MAC at the end, or none. *)
Definition mac_octets (m : option chunk) : chunk := match m with Some s => AT_MAC :: 5 :: 0 :: 0 :: s | None => [] end.

Definition mac_pointer (gen : chunk) (m : option chunk) : option pointer :=
  match m with Some _ => Some (Pointer In_message (len gen - 16) 16) | None => None end.

Definition fresh (gen : chunk) : simaka_message :=
  {| hdr := gen; attributes := []; encrypted := false; p_bit := true; mac := None; encr := None; iv := None |}.

Lemma parse_tail fuel pre m this :
  (forall s, m = Some s -> len s = 16) ->
  parse_loop (S (S fuel)) In_message (pre ++ mac_octets m) (len pre) this
  = Return true (match m with Some _ => with_mac (mac_pointer (pre ++ mac_octets m) m) this | None => this end).
Proof.
  intros L. destruct m as [s|]; cbn [mac_octets mac_pointer].
  - specialize (L s eq_refl). rewrite <- (app_nil_r (AT_MAC :: 5 :: 0 :: 0 :: s)) at 1.
    rewrite parse_mac by done. rewrite app_nil_r, parse_end. do 4 f_equal. rewrite len_app, !len_cons. lia.
  - rewrite app_nil_r. by rewrite parse_end.
Qed.

(** The plaintext of the encrypted attributes. *)
Lemma parse_plain sl we plain this :
  Forall attribute_ok sl -> all_written true sl we -> len (concat we) mod 4 = 0 -> pad_encr (concat we) = Some plain ->
  encrypted this = true ->
  parse_attributes In_plain plain 0 this = Return true (fold_left received sl this).
Proof.
  intros F W M Ep Ee. destruct (pad_encr_spec _ _ M Ep) as (l & a & b & z & -> & L1 & L2 & _).
  pose proof (all_written_length _ _ _ W) as L. unfold parse_attributes. pose proof (len_nonneg z).
  destruct (Nat.le_exists_sub (length sl + 2) (S (length (concat we ++ AT_PADDING :: l :: a :: b :: z)))) as (f & -> & _).
  { rewrite length_app. unfold len in L. cbn [length]. lia. }
  replace (f + (length sl + 2))%nat with (length sl + S (S f))%nat by lia.
  pose proof (parse_list sl we (S (S f)) In_plain [] (AT_PADDING :: l :: a :: b :: z) this) as P. rewrite !Ee in P.
  cbn [app] in P. change (len []) with 0 in P. rewrite P; [|done|by apply attribute_ok_sendable; [|left]|done].
  rewrite <- (app_nil_r (AT_PADDING :: l :: a :: b :: z)), parse_padding by done.
  by rewrite app_nil_r, parse_end.
Qed.

(** A whole message. *)
Lemma parse_message crypto h pl sl wp we tail m :
  len h = 8 -> Forall attribute_ok pl -> Forall attribute_ok sl -> Forall (fun a => goes_encrypted a = false) pl ->
  all_written false pl wp -> all_written true sl we -> len (concat we) mod 4 = 0 ->
  sealed crypto (concat we) tail -> (forall s, m = Some s -> len s = 16) ->
  let gen := h ++ concat wp ++ tail ++ mac_octets m in
  message_octets (fresh gen) = gen ->
  exists m1, parse crypto (fresh gen) = Return true m1
    /\ attributes m1 = pl ++ sl /\ hdr m1 = gen /\ mac m1 = mac_pointer gen m.
Proof.
  intros Lh Fp Fs Np Wp We Me Se Lm gen Eo. pose proof (all_written_length _ _ _ Wp) as L.
  unfold parse. change (attributes (fresh gen)) with (@nil (Z * chunk)). cbv iota zeta. rewrite Eo.
  assert (Lg : Z.min hdr_size (len gen) = hdr_size).
  { unfold gen, hdr_size. rewrite len_app. pose proof (len_nonneg (concat wp ++ tail ++ mac_octets m)). lia. }
  rewrite Lg. unfold parse_attributes.
  destruct (Nat.le_exists_sub (length pl + 4) (S (length gen))) as (f & Ef & _).
  { unfold gen. rewrite !length_app. unfold len in *. lia. }
  rewrite Ef. replace (f + (length pl + 4))%nat with (length pl + S (S (S (S f))))%nat by lia.
  change hdr_size with 8. rewrite <- Lh. unfold gen at 1.
  rewrite (parse_list pl wp); [|done|by apply attribute_ok_sendable; [|right]|done].
  destruct (received_all pl (fresh gen)) as (A1 & A2 & A3 & A4 & A5 & A6). set (m1 := fold_left received pl (fresh gen)) in *.
  cbn in A1, A2, A3, A4, A5, A6.
  destruct Se as [[Ee ->]|(k & v & l & c & plain & -> & Ep & Ed & Lv & Ll & Lc & ->)].
  - cbn [app]. rewrite parse_tail by done.
    assert (sl = []) as ->.
    { apply all_written_length in We. rewrite Ee, len_nil in We. destruct sl; [done|]. cbn [length] in We. lia. }
    assert (Eg : gen = (h ++ concat wp) ++ mac_octets m) by (unfold gen; by rewrite app_assoc).
    rewrite <- Eg. set (m2 := match m with Some _ => _ | None => m1 end).
    assert (E : iv m2 = None /\ attributes m2 = pl /\ hdr m2 = gen /\ mac m2 = mac_pointer gen m)
      by (unfold m2; by destruct m).
    destruct E as (E1 & E2 & E3 & E4). exists m2. rewrite app_nil_r. split; [|done].
    unfold decrypt. rewrite E1. by destruct crypto.
  - set (p1 := h ++ concat wp) in *. rewrite <- !app_assoc, parse_iv by done.
    set (p2 := p1 ++ AT_IV :: 5 :: 0 :: 0 :: v). destruct (pad_encr_spec _ _ Me Ep) as (l' & a' & b' & z & Epl & _ & _ & Mp & Rp).
    rewrite parse_encr by lia. set (p3 := p2 ++ AT_ENCR_DATA :: l :: 0 :: 0 :: c).
    assert (Eg : gen = p3 ++ mac_octets m) by (unfold gen, p3, p2, p1; by rewrite <- !app_assoc).
    rewrite parse_tail, <- Eg by done.
    set (m2 := match m with Some _ => _ | None => _ end).
    assert (E : iv m2 = Some (Pointer In_message (len p1 + 4) 16) /\ encr m2 = Some (Pointer In_message (len p2 + 4) (len c))
      /\ attributes m2 = pl /\ hdr m2 = gen /\ mac m2 = mac_pointer gen m /\ encrypted m2 = false)
      by (unfold m2; by destruct m).
    clearbody m2. destruct E as (E1 & E2 & E3 & E4 & E5 & E6).
    assert (S1 : slice gen (len p1 + 4) 16 = Some v).
    { rewrite <- Lv. replace gen with ((p1 ++ [AT_IV; 5; 0; 0]) ++ v ++ (AT_ENCR_DATA :: l :: 0 :: 0 :: c) ++ mac_octets m)
        by (unfold gen, p1; by rewrite <- !app_assoc). apply slice_mid; [rewrite len_app; done|done]. }
    assert (S2 : slice gen (len p2 + 4) (len c) = Some c).
    { replace gen with ((p2 ++ [AT_ENCR_DATA; l; 0; 0]) ++ c ++ mac_octets m)
        by (unfold gen, p2, p1; by rewrite <- !app_assoc). apply slice_mid; [rewrite len_app; done|done]. }
    unfold decrypt, deref. rewrite E1, E2, E6. cbn [p_len points_into p_offset]. rewrite E4, S1, S2, Ed.
    destruct sizes as [-> _].
    assert (N : (16 =? 0) || (len c =? 0) || false = false).
    { cbn [orb Z.eqb]. rewrite orb_false_r. apply Z.eqb_neq.
      rewrite Lc, Epl, len_app, len_cons. pose proof (len_nonneg (concat we)).
      pose proof (len_nonneg (l' :: a' :: b' :: z)). lia. }
    rewrite N, Lc, Mp. cbn [negb Z.eqb].
    rewrite (parse_plain sl we plain) by done.
    destruct (received_all sl (with_encrypted true m2)) as (B1 & B2 & B3 & B4 & B5 & B6).
    eexists. split; [done|]. cbn in *. by rewrite B1, B2, B4, E3.
Qed.

(** The header with another length. *)
Definition relength (h : chunk) (n : Z) : chunk := take 2 h ++ be_bytes 2 n ++ drop 4 h.

Lemma set_length_header h r : len h = 8 -> set_length (h ++ r) = relength h (len (h ++ r)) ++ r.
Proof.
  intros L. unfold set_length, relength. unfold len in L. rewrite take_app_le, drop_app_le by lia. by rewrite <- !app_assoc.
Qed.

Lemma len_relength h n : len h = 8 -> len (relength h n) = 8.
Proof. intros L. unfold relength. rewrite !len_app, len_take, len_drop, len_be_bytes. lia. Qed.

Lemma eight_octets h : len h = 8 -> exists a b c d e f g i, h = [a; b; c; d; e; f; g; i].
Proof.
  unfold len. intros L. do 8 (destruct h as [|? h]; [cbn in L; lia|]). destruct h; [eauto 10|cbn in L; lia].
Qed.

(** The fields of the header that are not the length. *)
Lemma relength_bytes h n r :
  len h = 8 ->
  byte_at (relength h n ++ r) 0 = byte_at h 0 /\ byte_at (relength h n ++ r) 1 = byte_at h 1
  /\ byte_at (relength h n ++ r) 4 = byte_at h 4 /\ byte_at (relength h n ++ r) 5 = byte_at h 5
  /\ take 2 (drop 2 (relength h n ++ r)) = be_bytes 2 n.
Proof. intros L. by destruct (eight_octets h L) as (a & b & c & d & e & f & g & i & ->). Qed.

(** The header of a message that can be sent: a code, a type, and eight octets. *)
Definition header_ok (h : chunk) : Prop :=
  len h = 8 /\ (byte_at h 0 = EAP_REQUEST \/ byte_at h 0 = EAP_RESPONSE)
  /\ (byte_at h 4 = EAP_SIM \/ byte_at h 4 = EAP_AKA).

Lemma create_relength h r :
  header_ok h -> simaka_message_create_from_payload (relength h (len (h ++ r)) ++ r) = Some (fresh (relength h (len (h ++ r)) ++ r)).
Proof.
  intros (L & C & T). set (n := len (h ++ r)). destruct (relength_bytes h n r L) as (B0 & _ & B4 & _ & Bn).
  assert (Ln : len (relength h n ++ r) = n) by (rewrite len_app, len_relength by done; unfold n; rewrite len_app; lia).
  unfold simaka_message_create_from_payload, simaka_message_create_data. rewrite Bn, Ln, B0, B4.
  rewrite be_val_be_bytes. change (256 ^ Z.of_nat 2) with (2 ^ 16). fold (wrap 16 n).
  assert (8 <= n) by (unfold n; rewrite len_app; pose proof (len_nonneg r); lia).
  rewrite (proj2 (Z.ltb_ge n hdr_size)), Z.eqb_refl by (unfold hdr_size; lia). cbn [orb negb].
  by destruct C as [-> | ->], T as [-> | ->].
Qed.

Lemma message_octets_relength h r :
  len h = 8 -> len (h ++ r) < 65536 ->
  message_octets (fresh (relength h (len (h ++ r)) ++ r)) = relength h (len (h ++ r)) ++ r.
Proof.
  intros L B. set (n := len (h ++ r)) in *. destruct (relength_bytes h n r L) as (_ & _ & _ & _ & Bn).
  unfold message_octets. cbn [hdr fresh]. rewrite Bn, be_val_be_bytes. change (256 ^ Z.of_nat 2) with 65536.
  assert (0 <= n) by apply len_nonneg. rewrite Z.mod_small by lia. apply take_ge.
  assert (len (relength h n ++ r) = n) by (rewrite len_app, len_relength by done; unfold n; rewrite len_app; lia).
  unfold len in *. lia.
Qed.

Lemma take_before_mac (body z : chunk) : len z = 16 -> take (Z.to_nat (len (body ++ z) - 16)) (body ++ z) = body.
Proof. intros L. rewrite len_app, L. unfold len. apply take_app_length'. lia. Qed.

(** What [generate] puts together. *)
Lemma generate_shape crypto v sigdata this gen :
  header_ok (hdr this) -> Forall attribute_ok (attributes this) -> len v = 16 ->
  generate crypto (Some v) sigdata this = Some (Generated gen) ->
  exists wp we tail m, let r := concat wp ++ tail ++ mac_octets m in
    gen = relength (hdr this) (len (hdr this ++ r)) ++ r
    /\ all_written false (plain_attributes (attributes this)) wp
    /\ all_written true (secret_attributes (attributes this)) we
    /\ len (concat we) mod 4 = 0 /\ sealed crypto (concat we) tail /\ len gen <= 1024
    /\ (if has_mac (get_subtype this) then
          exists k s, m = Some s /\ crypto = Some k
            /\ get_signature k ((take (Z.to_nat (len gen - 16)) gen ++ replicate 16 0) ++ sigdata) = Some s
        else m = None).
Proof.
  intros (Lh & _) F Lv. unfold generate.
  replace (take (Z.to_nat hdr_size) (hdr this)) with (hdr this)
    by (symmetry; apply take_ge; unfold len in Lh; change (Z.to_nat hdr_size) with 8%nat; lia).
  destruct (encode_attributes _ _ _) as [[out encr]|] eqn:Ea; [|done]. cbn [mbind option_bind].
  pose proof (len_encode_attributes _ _ _ _ _ Ea) as L1. rewrite Lh in L1. specialize (L1 ltac:(done)).
  destruct (encode_attributes_spec _ _ _ _ _ F Ea) as (wp & we & -> & -> & Wp & We & M). cbn [app] in *.
  specialize (M eq_refl).
  destruct (add_encr _ _ _ _) as [[out|]|] eqn:Ee; cbn [mbind option_bind]; [|done|done].
  pose proof (len_add_encr _ _ _ _ _ Ee L1) as L2.
  destruct (add_encr_spec _ _ _ _ _ M Lv Ee) as (tail & -> & Se).
  destruct (has_mac (get_subtype this)) eqn:Hm.
  - unfold add_mac. destruct crypto as [k|]; [|done]. cbn [mbind option_bind]. destruct sizes as (_ & _ & ->).
    change (u8 (16 / 4 + 1)) with 5. set (mo := [AT_MAC; 5; 0; 0] ++ replicate (Z.to_nat 16) 0).
    change (16 + 4) with (len mo). destruct (write _ _ mo _) as [msg|] eqn:Ew; [|done]. cbn [mbind option_bind].
    apply write_full in Ew as [-> Lw]. intros E.
    destruct (get_signature _ _) as [s|] eqn:Es; [|done]. injection E as <-.
    destruct (verify_get_signature _ _ _ Es) as [_ Ls].
    set (r := concat wp ++ tail ++ mac_octets (Some s)). set (n := len (hdr this ++ r)).
    set (body := relength (hdr this) n ++ concat wp ++ tail ++ [AT_MAC; 5; 0; 0]).
    assert (Eb : set_length (((hdr this ++ concat wp) ++ tail) ++ mo) = body ++ replicate 16 0).
    { unfold body, mo. rewrite <- !app_assoc, set_length_header by done.
      replace (len (hdr this ++ concat wp ++ tail ++ [AT_MAC; 5; 0; 0] ++ replicate (Z.to_nat 16) 0)) with n; [done|].
      unfold n, r. cbn [mac_octets]. rewrite !len_app, !len_cons, len_replicate, ?len_nil. lia. }
    rewrite Eb in Es. rewrite Eb, !take_before_mac by done.
    exists wp, we, tail, (Some s). cbn zeta. fold r n.
    assert (Eg : relength (hdr this) n ++ r = body ++ s) by (unfold body, r; cbn [mac_octets]; by rewrite <- !app_assoc).
    rewrite Eg. repeat split; try done; [|by exists k, s].
    unfold out_buf_size in Lw. rewrite <- Eg, len_app, len_relength by done. unfold r, mo in *. cbn [mac_octets app] in *.
    rewrite !len_app, !len_cons, ?len_replicate in *. lia.
  - intros E. injection E as <-. exists wp, we, tail, None. cbn [mac_octets]. rewrite app_nil_r, <- app_assoc.
    unfold out_buf_size in L2. rewrite !len_app in L2.
    rewrite set_length_header by done. repeat split; try done.
    rewrite len_app, len_relength, len_app by done. lia.
Qed.

Lemma has_mac_not_skipped t :
  has_mac t = true ->
  case_of t [SIM_START; SIM_CLIENT_ERROR; AKA_AUTHENTICATION_REJECT; AKA_SYNCHRONIZATION_FAILURE; AKA_IDENTITY] = false.
Proof.
  intros Hm. apply not_true_iff_false. intros E. unfold has_mac, case_of in *. apply existsb_exists in Hm as (x & Hx & Ex).
  apply existsb_exists in E as (y & Hy & Ey). apply Z.eqb_eq in Ex, Ey. rewrite Ex in Ey.
  cbn in Hx, Hy. destruct Hx as [<-|[<-|[<-|[]]]], Hy as [<-|[<-|[<-|[<-|[<-|[]]]]]]; discriminate Ey.
Qed.

Lemma verify_signed k s sigdata body this :
  len s = 16 -> 8 <= len body -> len (body ++ s) <= 1024 -> take 2 (drop 2 body) = be_bytes 2 (len (body ++ s)) ->
  get_signature k ((body ++ replicate 16 0) ++ sigdata) = Some s ->
  has_mac (get_subtype this) = true -> hdr this = body ++ s -> mac this = Some (Pointer In_message (len (body ++ s) - 16) 16) ->
  verify (Some k) sigdata this = Return true (with_hdr (body ++ replicate 16 0) this).
Proof.
  intros Ls Lb Ln Bn Es Hm Eh Em. pose proof (has_mac_not_skipped _ Hm) as C.
  unfold verify, mac_required. unfold has_mac in Hm.
  rewrite C, Hm, Em. unfold deref. cbn [points_into p_offset p_len]. rewrite Eh.
  assert (Lo : len (body ++ s) - 16 = len body) by (rewrite len_app; lia). rewrite Lo.
  rewrite <- (app_nil_r s) at 1. rewrite (slice_mid body s []) by done. cbn zeta.
  assert (Z : zero_range (body ++ s) (len body) 16 = body ++ replicate 16 0).
  { unfold zero_range. unfold len. rewrite Nat2Z.id, take_app_length. f_equal.
    rewrite drop_ge by (rewrite length_app; unfold len in Ls; lia). by rewrite app_nil_r. }
  rewrite Z. unfold message_octets. cbn [hdr with_hdr].
  assert (T : take 2 (drop 2 (body ++ replicate 16 0)) = be_bytes 2 (len (body ++ s))).
  { rewrite <- Bn. unfold len in Lb. rewrite drop_app_le by lia. rewrite take_app_le by (rewrite length_drop; lia). done. }
  rewrite T, be_val_be_bytes. change (256 ^ Z.of_nat 2) with 65536. pose proof (len_nonneg (body ++ s)).
  rewrite Z.mod_small by lia.
  rewrite (take_ge (body ++ replicate 16 0)) by (rewrite length_app, length_replicate; unfold len in *; rewrite length_app in *; lia).
  by destruct (verify_get_signature _ _ _ Es) as [-> _].
Qed.

(** A receiver with the same keys gets the attributes of [this] from [gen], the plain ones
    before those that were encrypted, with the same code, identifier, type and subtype, and
    where the subtype has a MAC it verifies. *)
Definition reads_back (crypto : option keys) (sigdata : chunk) (this : simaka_message) (gen : chunk) : Prop :=
  exists m0 m1, simaka_message_create_from_payload gen = Some m0 /\ parse crypto m0 = Return true m1
    /\ attributes m1 = plain_attributes (attributes this) ++ secret_attributes (attributes this)
    /\ is_request m1 = is_request this /\ get_identifier m1 = get_identifier this
    /\ get_type m1 = get_type this /\ get_subtype m1 = get_subtype this
    /\ (has_mac (get_subtype this) = true -> exists m2, verify crypto sigdata m1 = Return true m2 /\ attributes m2 = attributes m1).

Lemma generate_reads_back crypto v sigdata this gen :
  header_ok (hdr this) -> Forall attribute_ok (attributes this) -> len v = 16 ->
  generate crypto (Some v) sigdata this = Some (Generated gen) -> reads_back crypto sigdata this gen.
Proof.
  intros Hh F Lv G. destruct (generate_shape _ _ _ _ _ Hh F Lv G) as (wp & we & tail & m & Eg & Wp & We & M & Se & Lg & Hm).
  cbn zeta in *. set (r := concat wp ++ tail ++ mac_octets m) in *. set (h := relength (hdr this) (len (hdr this ++ r))) in *.
  assert (Lh : len h = 8) by (apply len_relength, Hh).
  assert (Lm : forall s, m = Some s -> len s = 16).
  { intros s ->. destruct (has_mac _); [|done]. destruct Hm as (k & s' & E & _ & Es). injection E as <-.
    by destruct (verify_get_signature _ _ _ Es). }
  assert (Fp : Forall attribute_ok (plain_attributes (attributes this)) /\ Forall attribute_ok (secret_attributes (attributes this))
    /\ Forall (fun a => goes_encrypted a = false) (plain_attributes (attributes this))).
  { rewrite !Forall_forall in *. split; [|split]; intros a Ha; apply list_elem_of_In in Ha; apply filter_In in Ha as [Ha Hf];
      try (apply F; by apply list_elem_of_In). by apply negb_true_iff. }
  destruct Fp as (Fp & Fs & Np).
  assert (Eo : message_octets (fresh gen) = gen).
  { rewrite Eg. apply message_octets_relength; [apply Hh|]. rewrite Eg, len_app, Lh in Lg.
    rewrite len_app, (proj1 Hh). lia. }
  destruct (parse_message crypto h _ _ wp we tail m Lh Fp Fs Np Wp We M Se Lm) as (m1 & P & A & H1 & Mp); [fold r; rewrite <- Eg; exact Eo|].
  fold r in P, H1, Mp. rewrite <- Eg in P, H1, Mp. exists (fresh gen), m1.
  split; [rewrite Eg; exact (create_relength (hdr this) r Hh)|]. split; [done|]. split; [done|].
  destruct (relength_bytes (hdr this) (len (hdr this ++ r)) r (proj1 Hh)) as (B0 & B1 & B4 & B5 & Bn).
  fold h in B0, B1, B4, B5, Bn. unfold is_request, get_identifier, get_type, get_subtype in *. rewrite H1, Eg, B0, B1, B4, B5.
  repeat split. intros Hs. rewrite Hs in Hm. destruct Hm as (k & s & -> & -> & Es).
  set (body := h ++ concat wp ++ tail ++ [AT_MAC; 5; 0; 0]).
  assert (Eb : gen = body ++ s) by (rewrite Eg; unfold body, r; cbn [mac_octets]; by rewrite <- !app_assoc).
  specialize (Lm s eq_refl). rewrite Eb in Lg, Es. rewrite take_before_mac in Es by done.
  eexists. split; [apply (verify_signed k s sigdata body)|]; try done.
  - unfold body. rewrite len_app. pose proof (len_nonneg (concat wp ++ tail ++ [AT_MAC; 5; 0; 0])). lia.
  - unfold body, len in *. rewrite drop_app_le, take_app_le by (rewrite ?length_drop; lia).
    rewrite drop_app_le, take_app_le in Bn by (rewrite ?length_drop; lia). rewrite Bn.
    f_equal. rewrite <- Eb, Eg. rewrite !length_app. destruct Hh as [Lh' _]. unfold len in Lh'. lia.
  - unfold get_subtype. by rewrite H1, Eg, B5.
  - by rewrite H1.
  - by rewrite Mp, Eb.
Qed.

(** ** Messages that fit *)

Definition attribute_size (a : Z * chunk) : Z := match encode_attribute a.1 a.2 with Some (_, n) => n | None => 0 end.
Definition attributes_size (l : list (Z * chunk)) : Z := foldr (fun a n => attribute_size a + n) 0 l.

Lemma write_fits size buf octets skip :
  skip = len octets -> len buf + len octets <= size -> write size buf octets skip = Some (buf ++ octets).
Proof.
  intros -> L. unfold write. case_if; [lia|]. unfold len at 1. rewrite Nat2Z.id. by rewrite take_ge by done.
Qed.

Lemma is_encrypted_known a : attribute_ok a -> is_encrypted a.1 a.2 = Some (goes_encrypted a).
Proof.
  intros Ha. assert (F : Forall attribute_ok [a]) by by constructor.
  apply (attribute_ok_sendable true) in F; [|by left]. apply Forall_cons in F as [(_ & N & _) _].
  unfold goes_encrypted, is_encrypted. case_if; [done| |done]. destruct a as [t [|b d]]; [|done]. by destruct (N Heqb0).
Qed.

Lemma encode_attributes_fits l : forall out encr,
  Forall attribute_ok l -> len out + attributes_size l <= 1024 -> len encr + attributes_size l <= 512 ->
  exists out' encr', encode_attributes l out encr = Some (out', encr')
    /\ len out' + len encr' = len out + len encr + attributes_size l /\ len out <= len out' /\ len encr <= len encr'.
Proof.
  induction l as [|a l IH]; intros out encr F L1 L2; [exists out, encr; cbn in *; repeat split; lia|].
  apply Forall_cons in F as [Ha F]. assert (Sl : 0 <= attributes_size l).
  { clear -F. induction F as [|b l Hb _ IH]; [done|].
    change (attributes_size (b :: l)) with (attribute_size b + attributes_size l). unfold attribute_size.
    destruct b as [t d]. destruct (encode_written true t d Hb ltac:(done)) as (o & E & L & _). cbn [fst snd]. rewrite E. lia. }
  destruct a as [t d]. destruct (encode_written true t d Ha ltac:(done)) as (o & Eo & Lo & _).
  cbn [encode_attributes attributes_size foldr] in *. fold (attributes_size l) in *.
  assert (Sa : attribute_size (t, d) = len o) by (unfold attribute_size; cbn; by rewrite Eo). rewrite Sa in *.
  pose proof (is_encrypted_known _ Ha) as Ei. cbn [fst snd] in Ei. rewrite Ei, Eo. cbn [mbind option_bind].
  destruct (goes_encrypted (t, d)); rewrite write_fits by (done || unfold encr_buf_size, out_buf_size; lia); cbn [mbind option_bind].
  - destruct (IH out (encr ++ o) F) as (out' & encr' & -> & L & G1 & G2); rewrite ?len_app in *; [lia|lia|].
    exists out', encr'. repeat split; lia.
  - destruct (IH (out ++ o) encr F) as (out' & encr' & -> & L & G1 & G2); rewrite ?len_app in *; [lia|lia|].
    exists out', encr'. repeat split; lia.
Qed.

Lemma add_encr_fits k v out encr :
  len v = 16 -> len encr mod 4 = 0 -> len encr <= 496 -> len out + len encr <= 900 ->
  (forall p, is_Some (crypter_encrypt k p v)) ->
  exists out', add_encr (Some k) (Some v) out encr = Some (Some out') /\ len out' <= len out + len encr + 56.
Proof.
  intros Lv M L1 L2 Enc. pose proof (len_nonneg encr). unfold add_encr. destruct encr as [|x encr]; [exists out; split; [done|lia]|].
  cbn [mbind option_bind]. set (e := x :: encr) in *. destruct sizes as (Bs & Vs & _). unfold pad_encr. rewrite Bs, Vs.
  set (padding := 16 - len e mod 16). assert (R : 4 <= padding <= 16) by (unfold padding; div_lia). clearbody padding.
  rewrite (proj2 (Z.ltb_ge padding 2)) by lia.
  rewrite write_fits; cbn [app]; rewrite ?len_cons, ?len_replicate; [|lia|unfold encr_buf_size, out_buf_size; lia].
  cbn [mbind option_bind].
  rewrite write_fits; cbn [app]; rewrite ?len_cons, ?len_replicate; [|lia|unfold encr_buf_size, out_buf_size; lia]. cbn [mbind option_bind].
  match goal with |- context [crypter_encrypt k ?p v] => destruct (Enc p) as [c Ec]; rewrite Ec; set (p0 := p) in *;
    assert (Lp : len p0 = len e + padding) by (unfold p0; rewrite len_app, !len_cons, len_replicate; lia) end.
  destruct (decrypt_encrypt _ _ _ _ Ec) as [_ Lc].
  rewrite write_fits; cbn [app]; rewrite ?len_app, ?len_cons; [|lia|unfold out_buf_size; lia]. cbn [mbind option_bind].
  eexists. split; [done|]. rewrite !len_app, !len_cons, ?len_nil. lia.
Qed.

(** C26: A message whose attributes take at most 496 octets fits the buffers it is generated
    in, and a receiver with the same keys reads it back: the same attributes, the plain
    ones before those that were encrypted, with the same code, identifier, type and
    subtype, and a MAC that verifies where the subtype has one. *)
Theorem simaka_message_roundtrip k v sigdata this :
  header_ok (hdr this) -> Forall attribute_ok (attributes this) -> attributes_size (attributes this) <= 496 ->
  len v = 16 -> (forall p, is_Some (crypter_encrypt k p v)) -> (forall d, is_Some (get_signature k d)) ->
  exists gen, generate (Some k) (Some v) sigdata this = Some (Generated gen) /\ reads_back (Some k) sigdata this gen.
Proof.
  intros Hh F L Lv Enc Sig.
  assert (G : exists gen, generate (Some k) (Some v) sigdata this = Some (Generated gen)); cycle 1.
  { destruct G as [gen G]. exists gen. split; [done|]. by eapply generate_reads_back. }
  destruct Hh as [Lh _]. unfold generate.
  assert (Lt : len (take (Z.to_nat hdr_size) (hdr this)) = 8) by (rewrite len_take; unfold hdr_size; lia).
  destruct (encode_attributes_fits (attributes this) (take (Z.to_nat hdr_size) (hdr this)) [] F)
    as (out & encr & E & L1 & L2 & L3); rewrite ?Lt, ?len_nil in *; [lia|lia|].
  rewrite E. cbn [mbind option_bind].
  destruct (encode_attributes_spec _ _ _ _ _ F E) as (_ & _ & _ & _ & _ & _ & M).
  destruct (add_encr_fits k v out encr Lv (M eq_refl)) as (out2 & -> & Lo2); [lia|lia|done|].
  cbn [mbind option_bind]. destruct (has_mac _); [|by eexists].
  unfold add_mac. cbn [mbind option_bind]. destruct sizes as (_ & _ & ->).
  rewrite write_fits; cbn [app]; rewrite ?len_cons, ?len_replicate; [|lia|unfold out_buf_size; lia].
  cbn [mbind option_bind]. match goal with |- context [get_signature k ?d] => destruct (Sig d) as [s ->] end. by eexists.
Qed.

End Roundtrip.

(** * Messages of a peer *)

Section Safety.
Context (e : bool) (buf : chunk).

(** The positions where the parser finds an attribute. *)
Inductive reached (pos : Z) : Z -> Prop :=
| reached_here : reached pos pos
| reached_next p o n skip :
  reached pos p -> layout e buf p = Some (o, n, skip) -> skip < len buf - p -> reached pos (p + skip).

(** An attribute is not empty, and its actual length, if it has one, stays in the buffer. *)
Definition attribute_fits (p : Z) : Prop :=
  1 <= byte_at buf (p + 1)
  /\ (byte_at buf p ∈ AT_RES :: with_length ->
      (if byte_at buf p =? AT_RES then be_val [byte_at buf (p + 2); byte_at buf (p + 3)] / 8
       else be_val [byte_at buf (p + 2); byte_at buf (p + 3)]) <= len buf - p - 4).

Lemma case_of_in t l : case_of t l = true <-> t ∈ l.
Proof.
  unfold case_of. rewrite existsb_exists. setoid_rewrite Z.eqb_eq. split.
  - intros (x & Hx & ->). by apply list_elem_of_In.
  - intros Ht. exists t. split; [by apply list_elem_of_In|done].
Qed.

Lemma byte_at_range p : bytes_ok buf -> 0 <= byte_at buf p < 256.
Proof.
  intros B. unfold byte_at. destruct (nth_in_or_default (Z.to_nat p) buf 0) as [Hin| ->]; [|lia].
  rewrite Forall_forall in B. apply B. by apply list_elem_of_In.
Qed.

Lemma layout_inside p o n skip :
  bytes_ok buf -> attribute_fits p -> layout e buf p = Some (o, n, skip) ->
  0 < skip /\ 0 <= o /\ 0 <= n /\ o + n <= len buf - p.
Proof.
  intros B [F1 F2]. unfold layout, layout_of. pose proof (byte_at_range (p + 1) B).
  set (t := byte_at buf p) in *. set (l := byte_at buf (p + 1)) in *. set (a := be_val _) in *.
  assert (Ra : 0 <= a). { unfold a. rewrite be_val_two. pose proof (byte_at_range (p + 2) B). pose proof (byte_at_range (p + 3) B). lia. }
  clearbody a l. intros E.
  destruct (case_of t [AT_COUNTER_TOO_SMALL; _; _; _]); [case_if_in E; try done; simplify_eq; lia|].
  destruct (case_of t [AT_COUNTER; _; _; _]); [case_if_in E; try done; simplify_eq; lia|].
  destruct (case_of t [AT_NEXT_PSEUDONYM; _; _; _; _]) eqn:Ht.
  { assert (Ti : t ∈ AT_RES :: with_length).
    { apply case_of_in in Ht. unfold with_length. rewrite !elem_of_cons in *. tauto. }
    specialize (F2 Ti). destruct (t =? AT_RES); case_if_in E; try done; simplify_eq; (repeat split; [lia|lia| |lia]); [apply Z.div_pos; lia|done]. }
  destruct (case_of t [AT_NONCE_S; _; _; _; _]); [case_if_in E; try done; simplify_eq; lia|].
  destruct (case_of t [AT_ENCR_DATA; _]).
  { case_if_in E; [done|]. simplify_eq. rewrite (wrap_small 64) by lia. lia. }
  destruct (t =? AT_AUTS); case_if_in E; try done; simplify_eq; [lia|]. rewrite (wrap_small 64) by lia. lia.
Qed.


Lemma handle_inside w t offset n this :
  0 <= offset -> 0 <= n -> offset + n <= len buf ->
  exists ok this', handle w buf t offset n this = Return ok this' /\ encrypted this' = encrypted this.
Proof.
  intros Ho Hn L. unfold handle, slice. rewrite (proj2 (Z.leb_le 0 offset)), (proj2 (Z.leb_le _ (len buf))) by lia.
  cbn [andb]. repeat case_match; eexists _, _; (split; [reflexivity|done]).
Qed.

Lemma parse_loop_inside w pos : bytes_ok buf ->
  (forall p, reached pos p -> p + 4 <= len buf -> attribute_fits p) -> 0 <= pos ->
  forall fuel p this, reached pos p -> 0 <= p <= len buf -> len buf - p < Z.of_nat fuel -> encrypted this = e ->
  exists ok this', parse_loop fuel w buf p this = Return ok this'.
Proof.
  intros B F Hpos fuel. induction fuel as [|fuel IH]; intros p this R Rp Hf Ee; [lia|]. cbn [parse_loop].
  destruct (Z.eqb_spec (len buf - p) 0); [by eexists _, _|]. destruct (Z.ltb_spec (len buf - p) 2); [by eexists _, _|].
  rewrite Ee. destruct (layout e buf p) as [[[o n0] skip]|] eqn:El; [|by eexists _, _].
  assert (L4 : p + 4 <= len buf).
  { unfold layout, layout_of in El. destruct (Z_lt_dec (len buf - p) 4); [|lia]. exfalso.
    assert (X4 : len buf - p <? 4 = true) by by apply Z.ltb_lt.
    assert (X16 : len buf - p <? 16 = true) by (apply Z.ltb_lt; lia).
    assert (X20 : len buf - p <? 20 = true) by (apply Z.ltb_lt; lia).
    rewrite X4, X16, X20, !orb_true_r in El. case_if_in El; done. }
  destruct (layout_inside p o n0 skip B (F p R L4) El) as (S1 & S2 & S3 & S4).
  destruct (handle_inside w (byte_at buf p) (p + o) n0 this) as (ok & this' & -> & E'); [lia|lia|lia|].
  destruct ok; [|by eexists _, _]. rewrite Z.gtb_ltb. destruct (Z.ltb_spec skip (len buf - p)).
  - apply IH; [by eapply reached_next|lia|lia|congruence].
  - destruct fuel as [|fuel]; [lia|]. rewrite parse_end. by eexists _, _.
Qed.

End Safety.

(** The parser ends and reads nothing outside of the octets of its attributes, accepting
    or refusing them, if every attribute it comes to is not empty and has an actual length,
    where it has one, that stays within what is left. *)
Theorem parse_attributes_safe w buf pos this :
  bytes_ok buf -> 0 <= pos <= len buf ->
  (forall p, reached (encrypted this) buf pos p -> p + 4 <= len buf -> attribute_fits buf p) ->
  exists ok this', parse_attributes w buf pos this = Return ok this'.
Proof.
  intros B R F. eapply (parse_loop_inside (encrypted this) buf w pos B F); [lia|constructor|lia| |done]. unfold len. lia.
Qed.

(** The types whose attributes are stepped over by their length only. *)
Lemma layout_zero_length e buf p :
  byte_at buf p ∈ [AT_ENCR_DATA; AT_PADDING] -> byte_at buf (p + 1) = 0 -> 4 <= len buf - p ->
  exists o n, layout e buf p = Some (o, n, 0).
Proof.
  intros Ht Hl L. unfold layout. rewrite Hl. generalize (be_val [byte_at buf (p + 2); byte_at buf (p + 3)]). intros a.
  revert Ht. generalize (byte_at buf p). intros t Ht. cases_of Ht; unfold layout_of; switch;
    rewrite (proj2 (Z.ltb_ge _ 4)), Z.gtb_ltb, (proj2 (Z.ltb_ge _ (0 * 4))) by lia; cbn [orb]; by eexists _, _.
Qed.

(** C25: A peer's message with an AT_ENCR_DATA or AT_PADDING of length zero is parsed for ever:
    the parser stays where it is, however long it runs; and one with an identity whose
    actual length is that of the whole last attribute is read outside of the message. *)
Theorem parse_attributes_unsafe :
  (forall fuel w buf pos this,
     byte_at buf pos ∈ [AT_ENCR_DATA; AT_PADDING] -> byte_at buf (pos + 1) = 0 -> 4 <= len buf - pos ->
     parse_loop fuel w buf pos this = Running)
  /\ (forall w pre l d n this,
     1 <= l < 256 -> len d = 4 * l - 4 -> 4 * l - 4 < n <= 4 * l -> encrypted this = false ->
     parse_attributes w (pre ++ [AT_IDENTITY; l] ++ be_bytes 2 n ++ d) (len pre) this = Outside).
Proof.
  split.
  - intros fuel w buf pos this Ht Hl L. revert this. induction fuel as [|fuel IH]; intros this; [done|]. cbn [parse_loop].
    rewrite (proj2 (Z.eqb_neq _ 0)), (proj2 (Z.ltb_ge _ 2)) by lia.
    destruct (layout_zero_length (encrypted this) buf pos Ht Hl L) as (o & n & ->).
    assert (Hd : exists this', handle w buf (byte_at buf pos) (pos + o) n this = Return true this').
    { unfold handle. apply elem_of_cons in Ht as [->|Ht]; [by eexists|].
      apply elem_of_cons in Ht as [->|Ht]; [by eexists|by apply elem_of_nil in Ht]. }
    destruct Hd as [this' ->]. rewrite Z.gtb_ltb, (proj2 (Z.ltb_lt 0 _)), Z.add_0_r by lia. apply IH.
  - intros w pre l d n this Hl Ld Hn Ee. unfold parse_attributes. cbn [parse_loop].
    set (x := [AT_IDENTITY; l] ++ be_bytes 2 n ++ d). rewrite layout_shift, len_app.
    assert (Lx : len x = 4 * l) by (unfold x; rewrite !len_app, !len_cons, len_be_bytes, len_nil; lia).
    rewrite (proj2 (Z.eqb_neq _ 0)), (proj2 (Z.ltb_ge _ 2)) by lia.
    assert (El : layout (encrypted this) x 0 = Some (4, n, l * 4)).
    { unfold layout. rewrite Lx. change (byte_at x 0) with AT_IDENTITY. change (byte_at x (0 + 1)) with l.
      assert (Ea : be_val [byte_at x (0 + 2); byte_at x (0 + 3)] = n).
      { change [byte_at x (0 + 2); byte_at x (0 + 3)] with (be_bytes 2 n). rewrite be_val_be_bytes.
        apply Z.mod_small. change (256 ^ Z.of_nat 2) with 65536. lia. }
      rewrite Ea, Ee. unfold layout_of. switch.
      rewrite (proj2 (Z.ltb_ge l 1)), (proj2 (Z.ltb_ge _ 4)), !Z.gtb_ltb, (proj2 (Z.ltb_ge (l * 4) n)), (proj2 (Z.ltb_ge _ n)) by lia.
      done. }
    rewrite El. assert (B : byte_at (pre ++ x) (len pre) = AT_IDENTITY).
    { replace (len pre) with (len pre + 0) by lia. by rewrite byte_at_shift. }
    rewrite B. unfold handle. switch. rewrite slice_shift by done. unfold slice. rewrite Lx.
    by rewrite (proj2 (Z.leb_gt (4 + n) _)) by lia.
Qed.

(** * What a verified message proves *)

Lemma handle_keeps w buf t o n this ok this' :
  handle w buf t o n this = Return ok this' ->
  hdr this' = hdr this /\ (forall p, mac this' = Some p -> mac this = Some p \/ t = AT_MAC /\ p_len p = n).
Proof.
  unfold handle. destruct (Z.eqb_spec t AT_MAC) as [->|_].
  { intros E. injection E as _ <-. split; [done|]. intros p E. injection E as <-. by right. }
  repeat (case_match; try done); intros E; injection E as _ <-; (split; [done|by left]).
Qed.

Lemma layout_mac e buf p o n skip : byte_at buf p = AT_MAC -> layout e buf p = Some (o, n, skip) -> n = 16.
Proof. intros Ht. unfold layout. rewrite Ht. unfold layout_of. switch. intros E. case_if_in E; [done|]. by simplify_eq. Qed.

Lemma parse_loop_keeps fuel w buf pos this ok this' :
  parse_loop fuel w buf pos this = Return ok this' ->
  hdr this' = hdr this /\ (forall p, mac this' = Some p -> mac this = Some p \/ p_len p = 16).
Proof.
  revert pos this. induction fuel as [|fuel IH]; intros pos this; [done|]. cbn [parse_loop].
  destruct (_ =? 0); [intros E; injection E as _ <-; split; [done|by left]|].
  destruct (_ <? 2); [intros E; injection E as _ <-; split; [done|by left]|].
  destruct (layout _ _ _) as [[[o n] skip]|] eqn:El; [|intros E; injection E as _ <-; split; [done|by left]].
  assert (K : forall ok this1, handle w buf (byte_at buf pos) (pos + o) n this = Return ok this1 ->
    hdr this1 = hdr this /\ forall p, mac this1 = Some p -> mac this = Some p \/ p_len p = 16).
  { intros ok1 this1 Eh. apply handle_keeps in Eh as [K1 K2]. split; [done|]. intros p Ep.
    destruct (K2 p Ep) as [|[Em ->]]; [by left|]. right. by eapply layout_mac. }
  destruct (handle _ _ _ _ _ _) as [[|] this1| | |] eqn:Eh; [|intros E; injection E as _ <-; by eapply K|done..].
  intros E. destruct (IH _ _ E) as [H1 M1]. destruct (K _ _ eq_refl) as [H2 M2]. split; [congruence|].
  intros p Ep. destruct (M1 p Ep); [auto|by right].
Qed.

Lemma parse_keeps `{SimakaCrypto} crypto data this ok this' :
  simaka_message_create_from_payload data = Some this -> parse crypto this = Return ok this' ->
  hdr this' = data /\ forall p, mac this' = Some p -> p_len p = 16.
Proof.
  intros C. assert (E0 : this = fresh data).
  { unfold simaka_message_create_from_payload, simaka_message_create_data in C. case_if_in C; try done. by injection C as <-. }
  subst this. unfold parse. change (attributes (fresh data)) with (@nil (Z * chunk)). cbv iota.
  destruct (parse_attributes _ _ _ _) as [[|] m1| | |] eqn:E1; [| |done..]; apply parse_loop_keeps in E1 as [H1 M1]; cbn in H1.
  - assert (M1' : forall p, mac m1 = Some p -> p_len p = 16) by (intros p Ep; destruct (M1 p Ep); done).
    unfold decrypt. destruct crypto as [k|]; [|intros E; by injection E as _ <-].
    destruct (iv m1) as [iv|], (encr m1) as [en|]; try (intros E; by injection E as _ <-).
    destruct (_ || _); [intros E; by injection E as _ <-|]. destruct (negb _); [intros E; by injection E as _ <-|].
    unfold deref. destruct (points_into en); [|done]. destruct (slice _ _ _); [|done].
    destruct (points_into iv); [|done]. destruct (slice _ _ _); [|done].
    destruct (crypter_decrypt _ _ _); [|intros E; by injection E as _ <-].
    destruct (parse_attributes _ _ _ _) as [ok2 m2| | |] eqn:E2; [|done..]. apply parse_loop_keeps in E2 as [H2 M2].
    intros E. injection E as _ <-. cbn in *. split; [congruence|]. intros p Ep. destruct (M2 p Ep) as [X|X]; [by apply M1'|done].
  - intros E. injection E as _ <-. split; [done|]. intros p Ep. by destruct (M1 p Ep).
Qed.

(** The octets of a message, with 16 of them zeroed, are signed by those 16 with the keys. *)
Definition signed `{SimakaCrypto} (k : keys) (data sigdata : chunk) : Prop :=
  exists o s, slice data o 16 = Some s
    /\ verify_signature k (take (Z.to_nat (be_val (take 2 (drop 2 (zero_range data o 16))))) (zero_range data o 16) ++ sigdata) s = true.

Lemma verify_signed_message `{SimakaCrypto} crypto data sigdata m0 m1 m2 :
  simaka_message_create_from_payload data = Some m0 -> parse crypto m0 = Return true m1 -> has_mac (get_subtype m1) = true ->
  verify crypto sigdata m1 = Return true m2 -> exists k, crypto = Some k /\ signed k data sigdata.
Proof.
  intros C P Hm. destruct (parse_keeps _ _ _ _ _ C P) as [Eh Ml]. unfold verify.
  destruct (mac_required m1) as [[|]|] eqn:Er; [| |done].
  - destruct (mac m1) as [p|] eqn:Ep; [|done]. destruct crypto as [k|]; [|done]. unfold deref.
    destruct (points_into p); [|done]. destruct (slice _ _ _) as [s|] eqn:Es; [|done]. intros E. injection E as E _.
    exists k. split; [done|]. rewrite Eh, (Ml p eq_refl) in *. by exists (p_offset p), s.
  - pose proof (has_mac_not_skipped _ Hm) as N. unfold mac_required, has_mac in *. by rewrite N, Hm in Er.
Qed.

(** * Examples *)

(** A crypter that copies and a signer that signs with the last 16 octets. *)
Definition example_crypto : SimakaCrypto :=
  {| keys := unit; crypter_block_size := 16; crypter_iv_size := 16;
     crypter_encrypt := fun _ p _ => Some p; crypter_decrypt := fun _ c _ => Some c;
     signer_block_size := 16; get_signature := fun _ d => Some (be_bytes 16 (be_val d));
     verify_signature := fun _ d s => bool_decide (s = be_bytes 16 (be_val d)) |}.

Lemma example_laws : CryptoLaws (H := example_crypto).
Proof.
  constructor; [done| |]; cbn.
  - intros _ p v c E. by injection E as <-.
  - intros _ d s E. injection E as <-. split; [by apply bool_decide_eq_true|reflexivity].
Qed.

Definition example_message : simaka_message :=
  {| hdr := [EAP_REQUEST; 7; 0; 8; EAP_AKA; AKA_CHALLENGE; 0; 0];
     attributes := [(AT_NEXT_PSEUDONYM, [1; 2; 3; 4; 5]); (AT_RAND, replicate 16 9); (AT_AUTN, replicate 16 8)];
     encrypted := false; p_bit := true; mac := None; encr := None; iv := None |}.

Lemma simaka_message_roundtrip_witness :
  exists gen, generate (H := example_crypto) (Some tt) (Some (replicate 16 5)) [] example_message = Some (Generated gen)
    /\ reads_back (H := example_crypto) (Some tt) [] example_message gen.
Proof.
  apply (@simaka_message_roundtrip example_crypto example_laws tt (replicate 16 5) [] example_message).
  - repeat split; [by left|by right].
  - apply Forall_cons; split; [|apply Forall_cons; split; [|apply Forall_cons; split; [|constructor]]].
    + split; [repeat constructor; lia|]. do 2 right. left. by split; [left|].
    + split; [repeat constructor; lia|]. do 5 right. by left.
    + split; [repeat constructor; lia|]. do 4 right. left. split; [by right; right; left|done].
  - vm_compute. discriminate.
  - reflexivity.
  - intros p. by eexists.
  - intros d. by eexists.
Defined.

Lemma parse_attributes_safe_witness :
  exists ok this', parse_attributes In_message ([1; 23; 0; 12; 23; 1; 0; 0] ++ [AT_ANY_ID_REQ; 1; 0; 0]) 8 (fresh []) = Return ok this'.
Proof.
  apply parse_attributes_safe.
  - apply (bool_decide_unpack _). vm_compute. exact I.
  - unfold len. cbn. lia.
  - intros p R _. assert (p = 8) as ->.
    { induction R as [|p o n skip R -> El Hs]; [done|]. vm_compute in El. injection El as <- <- <-. vm_compute in Hs. done. }
    split; [vm_compute; discriminate|]. intros Hin. exfalso. apply case_of_in in Hin. vm_compute in Hin. discriminate Hin.
Defined.

(** A MAC among the encrypted attributes is a pointer into memory that was freed. *)
Example mac_among_encrypted_attributes :
  match parse (H := example_crypto) (Some tt)
          (fresh ([2; 7; 0; 64; 23; 1; 0; 0] ++ [AT_IV; 5; 0; 0] ++ replicate 16 0
                  ++ [AT_ENCR_DATA; 9; 0; 0] ++ [AT_MAC; 5; 0; 0] ++ replicate 16 0 ++ [AT_PADDING; 3; 0; 0; 0; 0; 0; 0; 0; 0; 0; 0])) with
  | Return true this => verify (H := example_crypto) (Some tt) [] this
  | r => r
  end = Dangling.
Proof. reflexivity. Qed.
