(* ===== verification/EapAka.v ===== *)
(** The server side of EAP-AKA: libcharon/plugins/eap_aka/eap_aka_server.c, with the key
    derivation of libsimaka/simaka_crypto.c. Messages are those of [Simaka]. The providers
    behind the manager, the random numbers and the algorithms are interfaces. *)

From S2P Require Import Prelude Simaka.

(** * Interfaces *)

(** Identities, as identification.c has them. *)
Class Identification := {
  identification_t : Type;
  get_encoding : identification_t -> chunk;
  identification_create_from_data : chunk -> identification_t;
}.

(** SHA-1, the pseudo-random function that was given a key, by the number of the block,
    and loading the keys of the signer and the crypter; [None] is an error. *)
Class Algorithms `{SimakaCrypto} := {
  sha1 : chunk -> option chunk;
  prf_bytes : chunk -> nat -> option chunk;
  set_keys : chunk -> chunk -> option keys;
}.

Record quintuplet := { q_rand : chunk; q_xres : chunk; q_ck : chunk; q_ik : chunk; q_autn : chunk }.

Section Server.
Context `{Identification} `{Algorithms}.

(** What the providers of the manager and the generator of random numbers answer while one
    message is processed. *)
Record answers := {
  provider_get_quintuplet : identification_t -> option quintuplet;
  provider_is_reauth : identification_t -> option (identification_t * chunk * Z);
  provider_is_pseudonym : identification_t -> option identification_t;
  provider_gen_reauth : identification_t -> chunk -> option identification_t;
  provider_gen_pseudonym : identification_t -> option identification_t;
  provider_resync : identification_t -> option chunk -> chunk -> bool;
  random_nonce : option chunk;
  random_iv : option chunk;
}.

(** * Key derivation *)

Definition KENCR_LEN : nat := 16.
Definition KAUTH_LEN : nat := 16.
Definition MSK_LEN : nat := 64.

Definition prf_blocks (key : chunk) (n : nat) : option chunk :=
  l ← mapM (prf_bytes key) (seq 0 n); Some (concat l).

Definition derive_keys_full (id : identification_t) (data : chunk) : option (chunk * chunk * keys) :=
  mk ← sha1 (get_encoding id ++ data);
  str ← prf_blocks mk 3;
  k ← set_keys (take KAUTH_LEN (drop KENCR_LEN str)) (take KENCR_LEN str);
  Some (mk, take MSK_LEN (drop (KENCR_LEN + KAUTH_LEN) str), k).

Definition derive_keys_reauth (mk : chunk) : option keys :=
  str ← prf_blocks mk 2;
  set_keys (take KAUTH_LEN (drop KENCR_LEN str)) (take KENCR_LEN str).

Definition derive_keys_reauth_msk (id : identification_t) (counter nonce_s mk : chunk) : option chunk :=
  xkey ← sha1 (get_encoding id ++ counter ++ nonce_s ++ mk);
  str ← prf_blocks xkey 2;
  Some (take MSK_LEN str).

(** * The server *)

(** [crypto] holds the keys once they were derived; an empty chunk is NULL. *)
Record eap_aka_server := {
  crypto : option keys;
  permanent : identification_t;
  pseudonym : option identification_t;
  reauth : option identification_t;
  identifier : Z;
  xres : chunk;
  rand : option chunk;
  msk : chunk;
  nonce : chunk;
  counter : chunk;
  use_reauth : bool;
  use_pseudonym : bool;
  use_permanent : bool;
  pending : Z;
  synchronized : bool;
  auth : list identification_t;
}.

Definition with_crypto x s := {| crypto := x; permanent := permanent s; pseudonym := pseudonym s; reauth :=
  reauth s; identifier := identifier s; xres := xres s; rand := rand s; msk := msk s; nonce := nonce s;
  counter := counter s; use_reauth := use_reauth s; use_pseudonym := use_pseudonym s; use_permanent :=
  use_permanent s; pending := pending s; synchronized := synchronized s; auth := auth s |}.
Definition with_permanent x s := {| crypto := crypto s; permanent := x; pseudonym := pseudonym s; reauth :=
  reauth s; identifier := identifier s; xres := xres s; rand := rand s; msk := msk s; nonce := nonce s;
  counter := counter s; use_reauth := use_reauth s; use_pseudonym := use_pseudonym s; use_permanent :=
  use_permanent s; pending := pending s; synchronized := synchronized s; auth := auth s |}.
Definition with_pseudonym x s := {| crypto := crypto s; permanent := permanent s; pseudonym := x; reauth :=
  reauth s; identifier := identifier s; xres := xres s; rand := rand s; msk := msk s; nonce := nonce s;
  counter := counter s; use_reauth := use_reauth s; use_pseudonym := use_pseudonym s; use_permanent :=
  use_permanent s; pending := pending s; synchronized := synchronized s; auth := auth s |}.
Definition with_reauth x s := {| crypto := crypto s; permanent := permanent s; pseudonym := pseudonym s;
  reauth := x; identifier := identifier s; xres := xres s; rand := rand s; msk := msk s; nonce := nonce s;
  counter := counter s; use_reauth := use_reauth s; use_pseudonym := use_pseudonym s; use_permanent :=
  use_permanent s; pending := pending s; synchronized := synchronized s; auth := auth s |}.
Definition with_identifier x s := {| crypto := crypto s; permanent := permanent s; pseudonym := pseudonym s;
  reauth := reauth s; identifier := x; xres := xres s; rand := rand s; msk := msk s; nonce := nonce s;
  counter := counter s; use_reauth := use_reauth s; use_pseudonym := use_pseudonym s; use_permanent :=
  use_permanent s; pending := pending s; synchronized := synchronized s; auth := auth s |}.
Definition with_xres x s := {| crypto := crypto s; permanent := permanent s; pseudonym := pseudonym s;
  reauth := reauth s; identifier := identifier s; xres := x; rand := rand s; msk := msk s; nonce := nonce s;
  counter := counter s; use_reauth := use_reauth s; use_pseudonym := use_pseudonym s; use_permanent :=
  use_permanent s; pending := pending s; synchronized := synchronized s; auth := auth s |}.
Definition with_rand x s := {| crypto := crypto s; permanent := permanent s; pseudonym := pseudonym s;
  reauth := reauth s; identifier := identifier s; xres := xres s; rand := x; msk := msk s; nonce := nonce s;
  counter := counter s; use_reauth := use_reauth s; use_pseudonym := use_pseudonym s; use_permanent :=
  use_permanent s; pending := pending s; synchronized := synchronized s; auth := auth s |}.
Definition with_msk x s := {| crypto := crypto s; permanent := permanent s; pseudonym := pseudonym s; reauth
  := reauth s; identifier := identifier s; xres := xres s; rand := rand s; msk := x; nonce := nonce s;
  counter := counter s; use_reauth := use_reauth s; use_pseudonym := use_pseudonym s; use_permanent :=
  use_permanent s; pending := pending s; synchronized := synchronized s; auth := auth s |}.
Definition with_nonce x s := {| crypto := crypto s; permanent := permanent s; pseudonym := pseudonym s;
  reauth := reauth s; identifier := identifier s; xres := xres s; rand := rand s; msk := msk s; nonce := x;
  counter := counter s; use_reauth := use_reauth s; use_pseudonym := use_pseudonym s; use_permanent :=
  use_permanent s; pending := pending s; synchronized := synchronized s; auth := auth s |}.
Definition with_counter x s := {| crypto := crypto s; permanent := permanent s; pseudonym := pseudonym s;
  reauth := reauth s; identifier := identifier s; xres := xres s; rand := rand s; msk := msk s; nonce :=
  nonce s; counter := x; use_reauth := use_reauth s; use_pseudonym := use_pseudonym s; use_permanent :=
  use_permanent s; pending := pending s; synchronized := synchronized s; auth := auth s |}.
Definition with_use_reauth x s := {| crypto := crypto s; permanent := permanent s; pseudonym := pseudonym s;
  reauth := reauth s; identifier := identifier s; xres := xres s; rand := rand s; msk := msk s; nonce :=
  nonce s; counter := counter s; use_reauth := x; use_pseudonym := use_pseudonym s; use_permanent :=
  use_permanent s; pending := pending s; synchronized := synchronized s; auth := auth s |}.
Definition with_use_pseudonym x s := {| crypto := crypto s; permanent := permanent s; pseudonym := pseudonym
  s; reauth := reauth s; identifier := identifier s; xres := xres s; rand := rand s; msk := msk s; nonce :=
  nonce s; counter := counter s; use_reauth := use_reauth s; use_pseudonym := x; use_permanent :=
  use_permanent s; pending := pending s; synchronized := synchronized s; auth := auth s |}.
Definition with_use_permanent x s := {| crypto := crypto s; permanent := permanent s; pseudonym := pseudonym
  s; reauth := reauth s; identifier := identifier s; xres := xres s; rand := rand s; msk := msk s; nonce :=
  nonce s; counter := counter s; use_reauth := use_reauth s; use_pseudonym := use_pseudonym s; use_permanent
  := x; pending := pending s; synchronized := synchronized s; auth := auth s |}.
Definition with_pending x s := {| crypto := crypto s; permanent := permanent s; pseudonym := pseudonym s;
  reauth := reauth s; identifier := identifier s; xres := xres s; rand := rand s; msk := msk s; nonce :=
  nonce s; counter := counter s; use_reauth := use_reauth s; use_pseudonym := use_pseudonym s; use_permanent
  := use_permanent s; pending := x; synchronized := synchronized s; auth := auth s |}.
Definition with_synchronized x s := {| crypto := crypto s; permanent := permanent s; pseudonym := pseudonym
  s; reauth := reauth s; identifier := identifier s; xres := xres s; rand := rand s; msk := msk s; nonce :=
  nonce s; counter := counter s; use_reauth := use_reauth s; use_pseudonym := use_pseudonym s; use_permanent
  := use_permanent s; pending := pending s; synchronized := x; auth := auth s |}.
Definition with_auth x s := {| crypto := crypto s; permanent := permanent s; pseudonym := pseudonym s;
  reauth := reauth s; identifier := identifier s; xres := xres s; rand := rand s; msk := msk s; nonce :=
  nonce s; counter := counter s; use_reauth := use_reauth s; use_pseudonym := use_pseudonym s; use_permanent
  := use_permanent s; pending := pending s; synchronized := synchronized s; auth := x |}.

Inductive status := NEED_MORE (out : chunk) | SUCCESS | FAILED.

(** [None]: memory is used that the code must not use, or it never ends. *)
Definition outcome : Type := option (eap_aka_server * status).

(** [chunk_equals_const]: NULL chunks are never equal. *)
Definition chunk_equals_const (a b : chunk) : bool :=
  match b with [] => false | _ => bool_decide (a = b) end.

(** A request of a subtype, with the next identifier. *)
Definition new_request (this : eap_aka_server) (subtype : Z) (attributes : list (Z * chunk)) : option (eap_aka_server * simaka_message) :=
  message ← simaka_message_create true (identifier this) EAP_AKA subtype;
  Some (with_identifier (u8 (identifier this + 1)) this,
        fold_left (fun m a => add_attribute m a.1 a.2) attributes message).

(** [generate_payload], and what follows it: the message is pending once it was generated. *)
Definition send (env : answers) (pending : Z) (this : eap_aka_server) (message : simaka_message) : outcome :=
  g ← generate (crypto this) (random_iv env) [] message;
  match g with
  | Failed => Some (this, FAILED)
  | Generated gen => Some (with_pending pending this, NEED_MORE gen)
  end.

Definition identity (env : answers) (this : eap_aka_server) : outcome :=
  '(this, message) ← new_request this AKA_IDENTITY
    (if use_reauth this then [(AT_ANY_ID_REQ, [])]
     else if use_pseudonym this then [(AT_FULLAUTH_ID_REQ, [])]
     else if use_permanent this then [(AT_PERMANENT_ID_REQ, [])]
     else []);
  send env AKA_IDENTITY this message.

Definition optional (t : Z) (id : option identification_t) : list (Z * chunk) :=
  match id with Some id => [(t, get_encoding id)] | None => [] end.

Definition challenge (env : answers) (this : eap_aka_server) : outcome :=
  match provider_get_quintuplet env (permanent this) with
  | None =>
    if use_pseudonym this then identity env (with_pseudonym None (with_use_pseudonym false this))
    else Some (this, FAILED)
  | Some q =>
    let id := match pseudonym this with Some id => id | None => permanent this end in
    let this := with_msk [] this in
    match derive_keys_full id (q_ik q ++ q_ck q) with
    | None => Some (this, FAILED)
    | Some (mk, msk, k) =>
      let this := with_xres (q_xres q) (with_rand (Some (q_rand q)) (with_msk msk (with_crypto (Some k) this))) in
      '(this, message) ← new_request this AKA_CHALLENGE
        ([(AT_RAND, q_rand q); (AT_AUTN, q_autn q)]
         ++ optional AT_NEXT_REAUTH_ID (provider_gen_reauth env (permanent this) mk)
         ++ optional AT_NEXT_PSEUDONYM (provider_gen_pseudonym env (permanent this)));
      send env AKA_CHALLENGE this message
    end
  end.

Definition reauthenticate (env : answers) (mk : chunk) (counter : Z) (this : eap_aka_server) : outcome :=
  match random_nonce env with
  | None => Some (this, FAILED)
  | Some nonce =>
    let counter := be_bytes 2 counter in
    let this := with_counter counter (with_nonce nonce this) in
    match derive_keys_reauth mk with
    | None => Some (this, FAILED)
    | Some k =>
      let this := with_crypto (Some k) this in
      id ← reauth this;
      match derive_keys_reauth_msk id counter nonce mk with
      | None => Some (this, FAILED)
      | Some msk =>
        '(this, message) ← new_request (with_msk msk this) SIM_REAUTHENTICATION
          ([(AT_COUNTER, counter); (AT_NONCE_S, nonce)]
           ++ optional AT_NEXT_REAUTH_ID (provider_gen_reauth env (permanent this) mk));
        send env SIM_REAUTHENTICATION this message
      end
    end
  end.

Definition initiate (env : answers) (this : eap_aka_server) : outcome :=
  if use_permanent this || use_pseudonym this || use_reauth this then identity env this
  else challenge env this.

(** The attributes of a message of the types [known] update [x]; one of another type that
    is not skippable refuses the message. *)
Fixpoint enumerate {A} (known : list Z) (f : A -> Z -> chunk -> A) (l : list (Z * chunk)) (x : A) : option A :=
  match l with
  | [] => Some x
  | (t, data) :: l =>
    if case_of t known then enumerate known f l (f x t data)
    else if simaka_attribute_skippable t then enumerate known f l x
    else None
  end.

(** The data of the last attribute of a type. *)
Definition last_of (t : Z) (l : list (Z * chunk)) : option chunk :=
  enumerate [t] (fun _ _ data => data) l [].

Definition process_identity (env : answers) (message : simaka_message) (this : eap_aka_server) : outcome :=
  if negb (pending this =? AKA_IDENTITY) then Some (this, FAILED)
  else
    match last_of AT_IDENTITY (attributes message) with
    | None | Some [] => Some (this, FAILED)
    | Some data =>
      let id := identification_create_from_data data in
      match (if use_reauth this then provider_is_reauth env id else None) with
      | Some (permanent, mk, counter) =>
        reauthenticate env mk counter (with_reauth (Some id) (with_permanent permanent this))
      | None =>
        let this := with_use_reauth false this in
        let this :=
          if use_pseudonym this then
            match provider_is_pseudonym env id with
            | Some permanent => with_use_permanent false (with_pseudonym (Some id) (with_permanent permanent this))
            | None => this
            end
          else this in
        let this :=
          match pseudonym this with
          | None => if use_permanent this then with_permanent id this else this
          | Some _ => this
          end in
        challenge env this
      end
    end.

(** Goes on if the MAC of a message verifies. *)
Definition verified (sigdata : chunk) (message : simaka_message) (this : eap_aka_server)
    (next : simaka_message -> outcome) : outcome :=
  match verify (crypto this) sigdata message with
  | Return true message => next message
  | Return false _ => Some (this, FAILED)
  | _ => None
  end.

Definition process_challenge (message : simaka_message) (this : eap_aka_server) : outcome :=
  if negb (pending this =? AKA_CHALLENGE) then Some (this, FAILED)
  else verified [] message this (fun message =>
    match last_of AT_RES (attributes message) with
    | None => Some (this, FAILED)
    | Some res =>
      if negb (chunk_equals_const res (xres this)) then Some (this, FAILED)
      else Some (with_auth (auth this ++ [permanent this]) this, SUCCESS)
    end).

Definition process_reauthentication (env : answers) (message : simaka_message) (this : eap_aka_server) : outcome :=
  if negb (pending this =? SIM_REAUTHENTICATION) then Some (this, FAILED)
  else verified (nonce this) message this (fun message =>
    match enumerate [AT_COUNTER; AT_COUNTER_TOO_SMALL]
            (fun x t data => if t =? AT_COUNTER then (data, x.2) else (x.1, true)) (attributes message) ([], false) with
    | None => Some (this, FAILED)
    | Some (_, true) => challenge env (with_crypto None (with_use_reauth false this))
    | Some (received, false) =>
      if negb (chunk_equals_const received (counter this)) then Some (this, FAILED)
      else Some (this, SUCCESS)
    end).

Definition process_synchronize (env : answers) (message : simaka_message) (this : eap_aka_server) : outcome :=
  if synchronized this then Some (this, FAILED)
  else
    match last_of AT_AUTS (attributes message) with
    | None | Some [] => Some (this, FAILED)
    | Some auts =>
      if negb (provider_resync env (permanent this) (rand this) auts) then Some (this, FAILED)
      else challenge env (with_synchronized true this)
    end.

(** The error code of the peer is only logged. *)
Definition process_client_error (message : simaka_message) (this : eap_aka_server) : outcome := Some (this, FAILED).

Definition process_authentication_reject (message : simaka_message) (this : eap_aka_server) : outcome := Some (this, FAILED).

Definition process (env : answers) (data : chunk) (this : eap_aka_server) : outcome :=
  match simaka_message_create_from_payload data with
  | None => Some (this, FAILED)
  | Some message =>
    match parse (crypto this) message with
    | Return false _ => Some (this, FAILED)
    | Return true message =>
      let subtype := get_subtype message in
      if subtype =? AKA_IDENTITY then process_identity env message this
      else if subtype =? AKA_CHALLENGE then process_challenge message this
      else if subtype =? SIM_REAUTHENTICATION then process_reauthentication env message this
      else if subtype =? AKA_SYNCHRONIZATION_FAILURE then process_synchronize env message this
      else if subtype =? SIM_CLIENT_ERROR then process_client_error message this
      else if subtype =? AKA_AUTHENTICATION_REJECT then process_authentication_reject message this
      else Some (this, FAILED)
    | _ => None
    end
  end.

Definition get_auth (this : eap_aka_server) : list identification_t := auth this.

Definition get_msk (this : eap_aka_server) : option chunk :=
  match msk this with [] => None | m => Some m end.

Definition set_identifier (identifier : Z) (this : eap_aka_server) : eap_aka_server := with_identifier identifier this.

Definition eap_aka_server_create (peer : identification_t) (request_identity : bool) (random : Z) : eap_aka_server :=
  {| crypto := None; permanent := peer; pseudonym := None; reauth := None; identifier := random; xres := []; rand := None;
     msk := []; nonce := []; counter := []; use_reauth := request_identity; use_pseudonym := request_identity;
     use_permanent := request_identity; pending := 0; synchronized := false; auth := [] |}.

End Server.
