(* ===== verification/EapAkaSpec.v ===== *)
(** EAP-AKA authenticates: whatever messages a peer sends, the server only succeeds if the
    peer proved that it has the answer to the challenge the home network gave for the
    identity that is reported; the right answer is accepted; and an exchange has a bounded
    number of rounds. *)

From S2P Require Import Prelude Simaka SimakaSpec EapAka.

Section Server.
Context `{Identification} `{Algorithms}.

Notation server := (@eap_aka_server _ _).

(** * Exchanges *)

(** The messages of a peer one after the other, as long as the server needs more. *)
Fixpoint exchange (l : list (answers * chunk)) (this : eap_aka_server) (out : chunk) : outcome :=
  match l with
  | [] => Some (this, NEED_MORE out)
  | (env, data) :: l =>
    match process env data this with
    | Some (this, NEED_MORE out) => exchange l this out
    | r => r
    end
  end.

Definition session (first : answers) (l : list (answers * chunk)) (this : eap_aka_server) : outcome :=
  match initiate first this with
  | Some (this, NEED_MORE out) => exchange l this out
  | r => r
  end.

(** * What is pending *)

(** The keys and the expected answer are those of a quintuplet for the permanent identity,
    which a provider gave. *)
Definition challenged (given : list answers) (this : eap_aka_server) : Prop :=
  exists env q id mk msk k, env ∈ given /\ provider_get_quintuplet env (permanent this) = Some q
    /\ (id = permanent this \/ pseudonym this = Some id)
    /\ derive_keys_full id (q_ik q ++ q_ck q) = Some (mk, msk, k)
    /\ xres this = q_xres q /\ crypto this = Some k /\ EapAka.msk this = msk.

(** The keys and the counter are those of an earlier authentication of the permanent
    identity, which a provider knew. *)
Definition reauthenticating (given : list answers) (this : eap_aka_server) : Prop :=
  exists env id mk n k, env ∈ given /\ provider_is_reauth env id = Some (permanent this, mk, n)
    /\ reauth this = Some id /\ derive_keys_reauth mk = Some k /\ crypto this = Some k /\ counter this = be_bytes 2 n
    /\ derive_keys_reauth_msk id (counter this) (nonce this) mk = Some (EapAka.msk this).

Definition invariant (given : list answers) (this : eap_aka_server) : Prop :=
  auth this = []
  /\ (pending this = AKA_IDENTITY
      \/ pending this = AKA_CHALLENGE /\ challenged given this
      \/ pending this = SIM_REAUTHENTICATION /\ reauthenticating given this).

(** An operation that needs more leaves a state that satisfies [P]. *)
Definition continues (r : outcome) (P : eap_aka_server -> Prop) : Prop :=
  forall this out, r = Some (this, NEED_MORE out) -> P this.

Lemma new_request_spec this subtype l this' message :
  new_request this subtype l = Some (this', message) -> this' = with_identifier (u8 (identifier this + 1)) this.
Proof. unfold new_request. destruct (simaka_message_create _ _ _ _); [|done]. cbn. intros E. by injection E as <- _. Qed.

Lemma send_spec env p this message this' out :
  send env p this message = Some (this', NEED_MORE out) -> this' = with_pending p this.
Proof.
  unfold send. destruct (generate _ _ _ _) as [[g|]|]; cbn; [|done|done]. intros E. by injection E as <- _.
Qed.

Lemma request_spec env p this subtype l :
  continues ('(this, message) ← new_request this subtype l; send env p this message)
    (fun this' => this' = with_pending p (with_identifier (u8 (identifier this + 1)) this)).
Proof.
  intros this' out. destruct (new_request this subtype l) as [[this1 message]|] eqn:E; [|done].
  cbn [mbind option_bind]. apply new_request_spec in E as ->. apply send_spec.
Qed.

Lemma identity_continues env this :
  continues (identity env this) (fun this' => this' = with_pending AKA_IDENTITY (with_identifier (u8 (identifier this + 1)) this)).
Proof. apply request_spec. Qed.

Definition authenticating (given : list answers) (this : eap_aka_server) : Prop :=
  auth this = [] /\ (pending this = AKA_IDENTITY \/ pending this = AKA_CHALLENGE /\ challenged given this).

Lemma challenge_continues env given this :
  env ∈ given -> auth this = [] -> continues (challenge env this) (authenticating given).
Proof.
  intros Hin A this' out. unfold challenge. destruct (provider_get_quintuplet env (permanent this)) as [q|] eqn:Eq.
  - set (id := match pseudonym this with Some id => id | None => permanent this end).
    destruct (derive_keys_full id _) as [[[mk m] k]|] eqn:Ed; [|done]. intros E. apply request_spec in E as ->.
    split; [done|]. right. split; [done|]. exists env, q, id, mk, m, k. cbn. repeat split; try done.
    unfold id. destruct (pseudonym this); [by right|by left].
  - destruct (use_pseudonym this); [|done]. intros E. apply identity_continues in E as ->. split; [done|by left].
Qed.

Lemma reauthenticate_continues env given mk n id this :
  env ∈ given -> auth this = [] -> reauth this = Some id ->
  provider_is_reauth env id = Some (permanent this, mk, n) ->
  continues (reauthenticate env mk n this)
    (fun this' => auth this' = [] /\ pending this' = SIM_REAUTHENTICATION /\ reauthenticating given this').
Proof.
  intros Hin A Er Ep this' out. unfold reauthenticate. destruct (random_nonce env) as [nonce|]; [|done].
  destruct (derive_keys_reauth mk) as [k|] eqn:Ek; [|done]. cbn [reauth with_crypto with_counter with_nonce]. rewrite Er.
  cbn [mbind option_bind]. destruct (derive_keys_reauth_msk _ _ _ _) as [m|] eqn:Em; [|done].
  intros E. apply request_spec in E as ->. split; [done|]. split; [done|]. by exists env, id, mk, n, k.
Qed.

Lemma authenticating_invariant given this : authenticating given this -> invariant given this.
Proof. intros [A [P|P]]; split; auto. Qed.

Lemma process_continues env data given this :
  env ∈ given -> auth this = [] -> continues (process env data this) (invariant given).
Proof.
  intros Hin A this' out. unfold process. destruct (simaka_message_create_from_payload data) as [m0|]; [|done].
  destruct (parse (crypto this) m0) as [[|] m1| | |]; [|done..].
  assert (Ch : forall s, auth s = [] -> continues (challenge env s) (invariant given))
    by (intros s As s' o E; apply authenticating_invariant; eapply challenge_continues; eauto).
  destruct (_ =? AKA_IDENTITY); [|destruct (_ =? AKA_CHALLENGE); [|destruct (_ =? SIM_REAUTHENTICATION);
    [|destruct (_ =? AKA_SYNCHRONIZATION_FAILURE); [|by repeat case_match]]]].
  - unfold process_identity. destruct (negb _); [done|]. destruct (last_of _ _) as [[|b d]|]; [done| |done].
    set (id := identification_create_from_data (b :: d)).
    destruct (use_reauth this) eqn:Ur; [destruct (provider_is_reauth env id) as [[[p mk] n]|] eqn:Er|].
    + intros E. apply (reauthenticate_continues env given mk n id) in E; [|done..].
      split; [apply E|]. right. right. apply E.
    + apply Ch. by repeat case_match.
    + apply Ch. by repeat case_match.
  - unfold process_challenge, verified. destruct (negb _); [done|]. destruct (verify _ _ _) as [[|] m2| | |]; [|done..].
    destruct (last_of _ _); [|done]. by destruct (negb _).
  - unfold process_reauthentication, verified. destruct (negb _); [done|]. destruct (verify _ _ _) as [[|] m2| | |]; [|done..].
    destruct (enumerate _ _ _ _) as [[c [|]]|]; [by apply Ch| |done]. by destruct (negb _).
  - unfold process_synchronize. destruct (synchronized this); [done|]. destruct (last_of _ _) as [[|b d]|]; [done| |done].
    destruct (negb _); [done|]. by apply Ch.
Qed.

(** * Success *)

(** The peer's message: signed with the keys, it holds these attributes. *)
Definition answered (k : keys) (data sigdata : chunk) (attrs : list (Z * chunk)) : Prop :=
  signed k data sigdata /\ exists m0 m1, simaka_message_create_from_payload data = Some m0
    /\ parse (Some k) m0 = Return true m1 /\ attributes m1 = attrs.

Lemma verify_attributes c sigdata m ok m' : verify c sigdata m = Return ok m' -> attributes m' = attributes m.
Proof.
  unfold verify. destruct (mac_required m) as [[|]|]; [|intros E; by injection E as _ <-..].
  destruct (mac m) as [p|]; [|intros E; by injection E as _ <-]. destruct c; [|intros E; by injection E as _ <-].
  unfold deref. destruct (points_into p); [|done]. destruct (slice _ _ _); [|done]. intros E. by injection E as _ <-.
Qed.

Lemma chunk_equals_const_true a b : chunk_equals_const a b = true -> a = b /\ b <> [].
Proof. unfold chunk_equals_const. destruct b; [done|]. intros E. by apply bool_decide_eq_true in E. Qed.

Lemma challenge_no_success env this this' : challenge env this <> Some (this', SUCCESS).
Proof.
  assert (Sd : forall p s m, send env p s m <> Some (this', SUCCESS))
    by (intros p s m; unfold send; destruct (generate _ _ _ _) as [[g|]|]; done).
  assert (Rq : forall p s t l, ('(s, m) ← new_request s t l; send env p s m) <> Some (this', SUCCESS))
    by (intros p s t l; destruct (new_request s t l) as [[s1 m]|]; [apply Sd|done]).
  unfold challenge. destruct (provider_get_quintuplet _ _).
  - destruct (derive_keys_full _ _) as [[[? ?] ?]|]; [apply Rq|done].
  - destruct (use_pseudonym this); [apply Rq|done].
Qed.

Lemma reauthenticate_no_success env mk n this this' : reauthenticate env mk n this <> Some (this', SUCCESS).
Proof.
  unfold reauthenticate. destruct (random_nonce env); [|done]. destruct (derive_keys_reauth mk); [|done].
  destruct (reauth _); [|done]. cbn [mbind option_bind]. destruct (derive_keys_reauth_msk _ _ _ _); [|done].
  destruct (new_request _ _ _) as [[s1 m]|]; [|done]. cbn [mbind option_bind]. unfold send.
  by destruct (generate _ _ _ _) as [[g|]|].
Qed.

(** How a message makes the server succeed. *)
Lemma process_success env data this this' :
  process env data this = Some (this', SUCCESS) ->
  exists k attrs, crypto this = Some k /\
  (pending this = AKA_CHALLENGE /\ this' = with_auth (auth this ++ [permanent this]) this
     /\ answered k data [] attrs /\ last_of AT_RES attrs = Some (xres this) /\ xres this <> []
   \/ pending this = SIM_REAUTHENTICATION /\ this' = this
     /\ answered k data (nonce this) attrs
     /\ enumerate [AT_COUNTER; AT_COUNTER_TOO_SMALL]
          (fun x t d => if t =? AT_COUNTER then (d, x.2) else (x.1, true)) attrs ([], false) = Some (counter this, false)).
Proof.
  unfold process. destruct (simaka_message_create_from_payload data) as [m0|] eqn:E0; [|done].
  destruct (parse (crypto this) m0) as [[|] m1| | |] eqn:E1; [|done..].
  assert (V : forall sigdata m2, has_mac (get_subtype m1) = true -> verify (crypto this) sigdata m1 = Return true m2 ->
    exists k, crypto this = Some k /\ answered k data sigdata (attributes m2)).
  { intros sd m2 Hm E2. destruct (verify_signed_message _ _ _ _ _ _ E0 E1 Hm E2) as (k & Ek & Sg). exists k. split; [done|].
    split; [done|]. exists m0, m1. rewrite <- Ek, (verify_attributes _ _ _ _ _ E2). done. }
  destruct (_ =? AKA_IDENTITY).
  { unfold process_identity. destruct (negb _); [done|]. destruct (last_of _ _) as [[|b d]|]; [done| |done].
    destruct (if use_reauth this then _ else None) as [[[p mk] n]|]; intros E;
      [by apply reauthenticate_no_success in E|by apply challenge_no_success in E]. }
  destruct (Z.eqb_spec (get_subtype m1) AKA_CHALLENGE) as [Es|_].
  { unfold process_challenge, verified. destruct (Z.eqb_spec (pending this) AKA_CHALLENGE) as [Ep|]; [|done]. cbn [negb].
    destruct (verify _ _ _) as [[|] m2| | |] eqn:E2; [|done..]. destruct (last_of _ _) as [res|] eqn:El; [|done].
    destruct (chunk_equals_const res (xres this)) eqn:Ec; [|done]. cbn [negb]. intros E. injection E as <-.
    apply chunk_equals_const_true in Ec as [-> N]. destruct (V [] m2) as (k & Ek & An); [by rewrite Es|done|].
    exists k, (attributes m2). split; [done|]. left. done. }
  destruct (Z.eqb_spec (get_subtype m1) SIM_REAUTHENTICATION) as [Es|_].
  { unfold process_reauthentication, verified. destruct (Z.eqb_spec (pending this) SIM_REAUTHENTICATION) as [Ep|]; [|done].
    cbn [negb]. destruct (verify _ _ _) as [[|] m2| | |] eqn:E2; [|done..].
    destruct (enumerate _ _ _ _) as [[c [|]]|] eqn:El; [intros E; by apply challenge_no_success in E| |done].
    destruct (chunk_equals_const c (counter this)) eqn:Ec; [|done]. cbn [negb]. intros E. injection E as <-.
    apply chunk_equals_const_true in Ec as [-> N]. destruct (V (nonce this) m2) as (k & Ek & An); [by rewrite Es|done|].
    exists k, (attributes m2). split; [done|]. right. done. }
  destruct (_ =? AKA_SYNCHRONIZATION_FAILURE); [|by repeat case_match].
  unfold process_synchronize. destruct (synchronized this); [done|]. destruct (last_of _ _) as [[|b d]|]; [done| |done].
  destruct (negb _); [done|]. intros E. by apply challenge_no_success in E.
Qed.

Lemma invariant_mono given given' this : (forall e, e ∈ given -> e ∈ given') -> invariant given this -> invariant given' this.
Proof.
  intros Sub [A [P|[[P C]|[P R]]]]; split; try done; [by left|right; left|right; right]; split; try done.
  - destruct C as (env & q & id & mk & m & k & Hin & C). exists env, q, id, mk, m, k. split; [by apply Sub|done].
  - destruct R as (env & id & mk & n & k & Hin & R). exists env, id, mk, n, k. split; [by apply Sub|done].
Qed.

Lemma initiate_continues env given this :
  env ∈ given -> auth this = [] -> continues (initiate env this) (invariant given).
Proof.
  intros Hin A this' out. unfold initiate. destruct (_ || _); intros E.
  - apply identity_continues in E as ->. split; [done|by left].
  - apply authenticating_invariant. by eapply challenge_continues.
Qed.

(** The state in which an exchange succeeds, and the message that makes it. *)
Lemma exchange_success given : forall l this out this',
  (forall e, e ∈ l.*1 -> e ∈ given) -> invariant given this -> exchange l this out = Some (this', SUCCESS) ->
  exists env data this0, (env, data) ∈ l /\ invariant given this0 /\ process env data this0 = Some (this', SUCCESS).
Proof.
  induction l as [|[env data] l IH]; intros this out this' Sub Inv E; [done|]. cbn [exchange] in E.
  assert (He : env ∈ given) by (apply Sub; by left).
  destruct (process env data this) as [[this1 [out1| |]]|] eqn:Ep; [|by exists env, data, this; simplify_eq; split; [left|]|done..].
  destruct (IH this1 out1 this') as (env' & data' & this0 & Hl & X); [|by eapply process_continues; [..|apply Inv|done]|done|].
  - intros e Hi. apply Sub. by right.
  - exists env', data', this0. split; [by right|done].
Qed.

(** C4: Whatever messages are processed, if the server succeeds then the last of them was
    signed with the keys of the exchange, and either it holds the answer XRES to the
    challenge a provider gave for exactly the identity that the server reports, from whose
    quintuplet the keys and the MSK were derived, or the exchange is a reauthentication of
    an identity a provider knew, with keys of its master key and the counter that was sent. *)
Theorem success_is_authenticated first l peer request_identity random this :
  session first l (eap_aka_server_create peer request_identity random) = Some (this, SUCCESS) ->
  exists env data k attrs, env ∈ first :: l.*1 /\ data ∈ l.*2 /\ crypto this = Some k /\
  ((exists q id mk, provider_get_quintuplet env (permanent this) = Some q
      /\ (id = permanent this \/ pseudonym this = Some id)
      /\ derive_keys_full id (q_ik q ++ q_ck q) = Some (mk, EapAka.msk this, k)
      /\ answered k data [] attrs /\ last_of AT_RES attrs = Some (q_xres q) /\ q_xres q <> []
      /\ auth this = [permanent this])
   \/ (exists id mk n, provider_is_reauth env id = Some (permanent this, mk, n) /\ derive_keys_reauth mk = Some k
      /\ derive_keys_reauth_msk id (be_bytes 2 n) (nonce this) mk = Some (EapAka.msk this)
      /\ answered k data (nonce this) attrs
      /\ enumerate [AT_COUNTER; AT_COUNTER_TOO_SMALL]
           (fun x t d => if t =? AT_COUNTER then (d, x.2) else (x.1, true)) attrs ([], false) = Some (be_bytes 2 n, false))).
Proof.
  set (given := first :: l.*1). set (this0 := eap_aka_server_create peer request_identity random). unfold session.
  destruct (initiate first this0) as [[s1 [out1| |]]|] eqn:E1; [| |done..]; intros E.
  2:{ exfalso. injection E as ->. unfold initiate in E1. destruct (_ || _).
      - unfold identity in E1. destruct (new_request _ _ _) as [[s m]|]; [|done]. cbn [mbind option_bind] in E1.
        unfold send in E1. by destruct (generate _ _ _ _) as [[g|]|].
      - by apply challenge_no_success in E1. }
  assert (I1 : invariant given s1) by (refine (initiate_continues first given this0 _ _ s1 out1 E1); [left|done]).
  destruct (exchange_success given l s1 out1 this) as (env & data & s & Hl & [A Inv] & Ep); [by right|done|done|].
  apply (list_elem_of_fmap_2 snd) in Hl. destruct (process_success _ _ _ _ Ep) as (k & attrs & Ek & [(P & -> & An & Er & N)|(P & -> & An & Er)]).
  - destruct Inv as [P'|[[_ C]|[P' _]]]; [rewrite P in P'; discriminate P'| |rewrite P in P'; discriminate P'].
    destruct C as (env' & q & id & mk & m & k' & Hin & Eq & Eid & Ed & Ex & Ec & Em). rewrite Ek in Ec. injection Ec as <-.
    exists env', data, k, attrs. split; [done|]. split; [done|]. split; [done|]. left. exists q, id, mk.
    cbn. rewrite <- Ex, A. rewrite <- Em in Ed. done.
  - destruct Inv as [P'|[[P' _]|[_ C]]]; [rewrite P in P'; discriminate P'|rewrite P in P'; discriminate P'|].
    destruct C as (env' & id & mk & n & k' & Hin & Eq & Ei & Ed & Ec & En & Em). rewrite Ek in Ec. injection Ec as <-.
    exists env', data, k, attrs. split; [done|]. split; [done|]. split; [done|]. right. exists id, mk, n. by rewrite <- En.
Qed.

(** * The number of rounds *)

Definition rank (pending : Z) : Z := if pending =? AKA_IDENTITY then 2 else if pending =? SIM_REAUTHENTICATION then 1 else 0.

(** What is left to try: identities to ask for, and one resynchronisation. *)
Definition measure (this : eap_aka_server) : Z :=
  rank (pending this) + 3 * Z.b2z (use_pseudonym this) + Z.b2z (negb (synchronized this)).

Lemma challenge_measure env this :
  continues (challenge env this) (fun this' =>
    synchronized this' = synchronized this
    /\ (pending this' = AKA_CHALLENGE /\ use_pseudonym this' = use_pseudonym this
        \/ pending this' = AKA_IDENTITY /\ use_pseudonym this = true /\ use_pseudonym this' = false)).
Proof.
  intros this' out. unfold challenge. destruct (provider_get_quintuplet _ _).
  - destruct (derive_keys_full _ _) as [[[? ?] ?]|]; [|done]. intros E. apply request_spec in E as ->. cbn. auto.
  - destruct (use_pseudonym this) eqn:Eu; [|done]. intros E. apply identity_continues in E as ->. cbn. auto.
Qed.

Lemma reauthenticate_measure env mk n this :
  continues (reauthenticate env mk n this) (fun this' =>
    synchronized this' = synchronized this /\ pending this' = SIM_REAUTHENTICATION /\ use_pseudonym this' = use_pseudonym this).
Proof.
  intros this' out. unfold reauthenticate. destruct (random_nonce env); [|done]. destruct (derive_keys_reauth mk); [|done].
  destruct (reauth _); [|done]. cbn [mbind option_bind]. destruct (derive_keys_reauth_msk _ _ _ _); [|done].
  intros E. by apply request_spec in E as ->.
Qed.

Lemma process_measure env data this :
  continues (process env data this) (fun this' => measure this' < measure this).
Proof.
  assert (Ch : forall s, synchronized s = synchronized this -> use_pseudonym s = use_pseudonym this -> 1 <= rank (pending this) ->
    continues (challenge env s) (fun this' => measure this' < measure this)).
  { intros s Es Eu L s' o E. destruct (challenge_measure _ _ _ _ E) as (Sy & [[P U]|(P & U & U')]); unfold measure.
    - rewrite P, U, Sy, Es, Eu. cbn. lia.
    - rewrite P, U', Sy, Es, <- Eu, U. cbn. lia. }
  intros this' out. unfold process. destruct (simaka_message_create_from_payload data) as [m0|]; [|done].
  destruct (parse (crypto this) m0) as [[|] m1| | |]; [|done..].
  destruct (_ =? AKA_IDENTITY); [|destruct (_ =? AKA_CHALLENGE); [|destruct (_ =? SIM_REAUTHENTICATION);
    [|destruct (_ =? AKA_SYNCHRONIZATION_FAILURE); [|by repeat case_match]]]].
  - unfold process_identity. destruct (Z.eqb_spec (pending this) AKA_IDENTITY) as [Ep|]; [|done]. cbn [negb].
    destruct (last_of _ _) as [[|b d]|]; [done| |done].
    destruct (if use_reauth this then _ else None) as [[[p mk] n]|].
    + intros E. destruct (reauthenticate_measure _ _ _ _ _ _ E) as (Sy & P & U). unfold measure. rewrite P, U, Sy, Ep. cbn. lia.
    + apply Ch; [by repeat case_match|by repeat case_match|by rewrite Ep].
  - unfold process_challenge, verified. destruct (negb _); [done|]. destruct (verify _ _ _) as [[|] m2| | |]; [|done..].
    destruct (last_of _ _); [|done]. by destruct (negb _).
  - unfold process_reauthentication, verified. destruct (Z.eqb_spec (pending this) SIM_REAUTHENTICATION) as [Ep|]; [|done].
    cbn [negb]. destruct (verify _ _ _) as [[|] m2| | |]; [|done..].
    destruct (enumerate _ _ _ _) as [[c [|]]|]; [apply Ch; by rewrite ?Ep| |done]. by destruct (negb _).
  - unfold process_synchronize. destruct (synchronized this) eqn:Es; [done|]. destruct (last_of _ _) as [[|b d]|]; [done| |done].
    destruct (negb _); [done|]. intros E.
    destruct (challenge_measure _ _ _ _ E) as (Sy & [[P U]|(P & U & U')]); unfold measure; cbn in Sy; rewrite P, Sy, Es.
    + rewrite U. cbn. assert (0 <= rank (pending this)) by (unfold rank; by repeat case_match). lia.
    + cbn in U. rewrite U', U. cbn. assert (0 <= rank (pending this)) by (unfold rank; by repeat case_match). lia.
Qed.

Lemma measure_nonneg this : 0 <= measure this.
Proof. unfold measure, rank. repeat case_match; destruct (use_pseudonym this), (synchronized this); cbn; lia. Qed.

Lemma exchange_measure l this out this' out' :
  exchange l this out = Some (this', NEED_MORE out') -> Z.of_nat (length l) <= measure this.
Proof.
  revert this out. induction l as [|[env data] l IH]; intros this out; cbn [exchange length]; [intros _; apply measure_nonneg|].
  destruct (process env data this) as [[this1 [out1| |]]|] eqn:Ep; [|done..]. intros E. apply IH in E.
  pose proof (process_measure _ _ _ _ _ Ep). cbn in *. lia.
Qed.

(** C27: An exchange has a bounded number of rounds: whatever a peer sends and whatever the
    providers answer, the server never asks for more than seven messages. *)
Theorem exchange_is_bounded first l peer request_identity random this out :
  session first l (eap_aka_server_create peer request_identity random) = Some (this, NEED_MORE out) -> (length l <= 6)%nat.
Proof.
  unfold session. set (this0 := eap_aka_server_create peer request_identity random).
  destruct (initiate first this0) as [[s1 [out1| |]]|] eqn:E1; [|done..]. intros E. apply exchange_measure in E.
  assert (M : measure s1 <= 6); [|lia].
  unfold measure, rank. repeat case_match; destruct (use_pseudonym s1), (synchronized s1); cbn; lia.
Qed.

(** * An honest peer *)

(** The response a peer makes to a challenge. *)
Definition response (identifier : Z) (res : chunk) : simaka_message :=
  {| hdr := [EAP_RESPONSE; identifier; 0; 8; EAP_AKA; AKA_CHALLENGE; 0; 0]; attributes := [(AT_RES, res)];
     encrypted := false; p_bit := true; mac := None; encr := None; iv := None |}.

(** To a response of a peer that has the keys the server answers by its RES: it succeeds,
    and reports the permanent identity, if RES is the XRES that is expected, and fails
    without a change otherwise. *)
Theorem response_is_checked `{!CryptoLaws} env this k v id res gen :
  pending this = AKA_CHALLENGE -> crypto this = Some k -> bytes_ok res -> len res < 32 -> len v = 16 ->
  generate (Some k) (Some v) [] (response id res) = Some (Generated gen) ->
  process env gen this =
    Some (if chunk_equals_const res (xres this) then (with_auth (auth this ++ [permanent this]) this, SUCCESS) else (this, FAILED)).
Proof.
  intros P K B L Lv G.
  assert (F : Forall attribute_ok (attributes (response id res))).
  { constructor; [|constructor]. split; [done|]. do 3 right. by left. }
  assert (Hh : header_ok (hdr (response id res))) by (split; [done|]; split; [by right|by right]).
  destruct (generate_reads_back (Some k) v [] (response id res) gen Hh F Lv G) as (m0 & m1 & E0 & E1 & Ea & _ & _ & _ & Es & Ev).
  destruct (Ev eq_refl) as (m2 & E2 & Ea2). unfold process. rewrite E0, K, E1, Es.
  change (get_subtype (response id res)) with AKA_CHALLENGE. change (AKA_CHALLENGE =? AKA_IDENTITY) with false.
  rewrite Z.eqb_refl. cbv iota. unfold process_challenge, verified. rewrite P, Z.eqb_refl, K, E2, Ea2, Ea.
  change (last_of AT_RES _) with (Some res). cbn [negb]. by destruct (chunk_equals_const _ _).
Qed.

End Server.

(** * Examples *)

(** Identities are their octets; hashing and the pseudo-random function copy. *)
Definition example_identification : Identification :=
  {| identification_t := chunk; get_encoding := fun id => id; identification_create_from_data := fun c => c |}.

Definition example_algorithms : Algorithms (H := example_crypto) :=
  {| sha1 := fun c => Some c; prf_bytes := fun c _ => Some (take 40 (c ++ replicate 40 0)); set_keys := fun _ _ => Some (tt : keys (SimakaCrypto := example_crypto)) |}.

Definition example_answers : answers (H := example_identification) :=
  {| provider_get_quintuplet := fun _ => Some {| q_rand := replicate 16 1; q_xres := [1; 2; 3; 4; 5; 6; 7; 8]; q_ck := replicate 16 2;
                                                 q_ik := replicate 16 3; q_autn := replicate 16 4 |};
     provider_is_reauth := fun _ => None; provider_is_pseudonym := fun _ => None; provider_gen_reauth := fun _ _ => None;
     provider_gen_pseudonym := fun _ => None; provider_resync := fun _ _ _ => false;
     random_nonce := None; random_iv := Some (replicate 16 0) |}.

Definition example_generate (m : simaka_message) : chunk :=
  match generate (H := example_crypto) (Some tt) (Some (replicate 16 0)) [] m with Some (Generated g) => g | _ => [] end.

(** The peer's identity and its answer to the challenge. *)
Definition example_identity : chunk :=
  example_generate {| hdr := [EAP_RESPONSE; 1; 0; 8; EAP_AKA; AKA_IDENTITY; 0; 0]; attributes := [(AT_IDENTITY, [48; 49; 50; 51])];
                      encrypted := false; p_bit := true; mac := None; encr := None; iv := None |}.
Definition example_answer : chunk := example_generate (response 2 [1; 2; 3; 4; 5; 6; 7; 8]).

Notation example_session l :=
  (session (H := example_identification) (H0 := example_crypto) (H1 := example_algorithms) example_answers
     (map (pair example_answers) l)
     (eap_aka_server_create (H := example_identification) (H0 := example_crypto) [48; 48] true 1)).

Definition is_success {A} (r : option (A * status)) : bool := match r with Some (_, SUCCESS) => true | _ => false end.
Definition needs_more {A} (r : option (A * status)) : bool := match r with Some (_, NEED_MORE _) => true | _ => false end.

Lemma is_success_true {A} (r : option (A * status)) : is_success r = true -> exists this, r = Some (this, SUCCESS).
Proof. destruct r as [[this []]|]; try done. by exists this. Qed.

Lemma needs_more_true {A} (r : option (A * status)) : needs_more r = true -> exists this out, r = Some (this, NEED_MORE out).
Proof. destruct r as [[this [out| |]]|]; try done. by exists this, out. Qed.

Lemma always_same {A B} (a b : A) (l : list B) : b ∈ a :: (map (pair a) l).*1 -> b = a.
Proof. induction l as [|x l IH]; cbn; rewrite !elem_of_cons; [by intros [?|?%elem_of_nil]|]. rewrite elem_of_cons in IH. tauto. Qed.

Definition example_state : option (eap_aka_server (H := example_identification) (H0 := example_crypto)) :=
  match example_session [example_identity] with Some (this, _) => Some this | None => None end.

(** The challenge that is answered. *)
Definition example_challenged : bool :=
  match example_state with
  | Some this => (pending this =? AKA_CHALLENGE) && chunk_equals_const [1; 2; 3; 4; 5; 6; 7; 8] (xres this)
                 && match crypto this with Some _ => true | None => false end
  | None => false
  end.

Lemma success_is_authenticated_witness :
  exists this env, example_session [example_identity; example_answer] = Some (this, SUCCESS)
    /\ provider_get_quintuplet env (permanent this) <> None.
Proof.
  destruct (is_success_true (example_session [example_identity; example_answer])) as [this S]; [vm_compute; reflexivity|].
  exists this.
  destruct (success_is_authenticated (H := example_identification) (H0 := example_crypto) (H1 := example_algorithms)
              example_answers (map (pair example_answers) [example_identity; example_answer]) [48; 48] true 1 this S)
    as (env & data & k & attrs & Henv & Hdata & _).
  exists env. split; [exact S|].
  rewrite (always_same _ _ _ Henv). discriminate.
Defined.

Lemma exchange_is_bounded_witness :
  exists this out, example_session [example_identity] = Some (this, NEED_MORE out) /\ (1 <= 6)%nat.
Proof.
  destruct (needs_more_true (example_session [example_identity])) as (this & out & S); [vm_compute; reflexivity|].
  exists this, out. split; [exact S|].
  exact (exchange_is_bounded (H := example_identification) (H0 := example_crypto) (H1 := example_algorithms)
           example_answers (map (pair example_answers) [example_identity]) [48; 48] true 1 this out S).
Defined.

Lemma response_is_checked_witness :
  match example_state with
  | Some this => exists this',
    process (H := example_identification) (H1 := example_algorithms) example_answers example_answer this = Some (this', SUCCESS)
  | None => False
  end.
Proof.
  assert (C : example_challenged = true) by (vm_compute; reflexivity). unfold example_challenged in C.
  destruct example_state as [this|]; [|discriminate C]. bool_to_prop.
  destruct (crypto this) as [k|] eqn:K; [|discriminate H0]. eexists.
  rewrite (response_is_checked (H := example_identification) (H0 := example_crypto) (H1 := example_algorithms)
             (H2 := example_laws) example_answers this k (replicate 16 0) 2 [1; 2; 3; 4; 5; 6; 7; 8] example_answer).
  - match goal with X : chunk_equals_const _ _ = true |- _ => rewrite X end. reflexivity.
  - assumption.
  - exact K.
  - repeat constructor; lia.
  - reflexivity.
  - reflexivity.
  - destruct k. vm_compute. reflexivity.
Defined.
