(* ===== verification/Ipa.v ===== *)
(** The connection of the ePDG to the home network: libcharon/plugins/osmo_epdg/ipa_client.c
    over the streams of libstrongswan/networking/streams/stream.c. The first half is what is
    read and written, with the octets of a socket as they arrive; the second is how the
    connection is kept, with the client, the reconnecting job, the callbacks of the
    watcher and a sender as threads. *)

From stdpp Require Import gmap.
From Stdlib Require Import Strings.String Strings.Ascii.
From S2P Require Import Prelude.

(** * Streams *)

Definition ENOENT : Z := 2.
Definition EINTR : Z := 4.
Definition EWOULDBLOCK : Z := 11.
Definition EINVAL : Z := 22.
Definition ECONNRESET : Z := 104.

(** What [recv] comes to: octets, which it may take only the first of, or a signal. *)
Inductive arrival := Segment (c : chunk) | Interrupt.

(** What it comes to after them. *)
Inductive ending := Waiting | Closed | Broken (error : Z).

(** What [send] comes to: a number of octets that are taken, or an error. *)
Inductive sending := Takes (n : Z) | Refuses (error : Z).

(** A connected socket, [errno] of the thread that uses it, the results of the next calls
    of [send] (after them it takes all octets) and what was sent. *)
Record stream := { arrivals : list arrival; after : ending; errno : Z; sends : list sending; sent : chunk }.

Definition with_arrivals x s := {| arrivals := x; after := after s; errno := errno s; sends := sends s; sent := sent s |}.
Definition with_errno x s := {| arrivals := arrivals s; after := after s; errno := x; sends := sends s; sent := sent s |}.
Definition with_sends x s := {| arrivals := arrivals s; after := after s; errno := errno s; sends := x; sent := sent s |}.
Definition with_sent x s := {| arrivals := arrivals s; after := after s; errno := errno s; sends := sends s; sent := x |}.

(** Reading returns octets, none of them at the end of the stream, or an error; or it waits. *)
Inductive received := Octets (c : chunk) | Error | Blocks.

(** [read_]: interrupted calls are repeated; EAGAIN and EWOULDBLOCK are the same. *)
Fixpoint recv_ (l : list arrival) (end_ : ending) (n : nat) (block : bool) (s : stream) : received * stream :=
  match l with
  | Segment c :: l =>
    (Octets (take n c), with_arrivals (if (length c <=? n)%nat then l else Segment (drop n c) :: l) s)
  | Interrupt :: l => recv_ l end_ n block (with_errno EINTR (with_arrivals l s))
  | [] =>
    match end_ with
    | Waiting => if block then (Blocks, s) else (Error, with_errno EWOULDBLOCK s)
    | Closed => (Octets [], s)
    | Broken e => if e =? EINTR then (Blocks, with_errno e s) else (Error, with_errno e s)
    end
  end.

Definition read_ (n : nat) (block : bool) (s : stream) : received * stream := recv_ (arrivals s) (after s) n block s.

(** [read_all], with what was read; every turn reads at least one octet. *)
Fixpoint read_all_loop (fuel n : nat) (got : chunk) (s : stream) : received * stream :=
  if (n =? 0)%nat then (Octets got, s)
  else match fuel with
  | O => (Blocks, s)
  | S fuel =>
    match read_ n true s with
    | (Octets [], s) => (Error, with_errno ECONNRESET s)
    | (Octets c, s) => read_all_loop fuel (n - length c) (got ++ c) s
    | r => r
    end
  end.

Definition read_all (n : nat) (s : stream) : received * stream := read_all_loop n n [] s.

(** [write_], which is repeated when it was interrupted, and [write_all]. *)
Fixpoint send_ (l : list sending) (c : chunk) (s : stream) : option Z * stream :=
  match l with
  | [] => (Some (len c), with_sends [] (with_sent (sent s ++ c) s))
  | Refuses e :: l =>
    if e =? EINTR then send_ l c (with_errno e s) else (None, with_errno e (with_sends l s))
  | Takes n :: l =>
    let n := Z.min n (len c) in
    (Some n, with_sent (sent s ++ take (Z.to_nat n) c) (with_sends l s))
  end.

Definition write_ (c : chunk) (s : stream) : option Z * stream := send_ (sends s) c s.

Fixpoint write_all_loop (fuel : nat) (c : chunk) (s : stream) : bool * stream :=
  match c with
  | [] => (true, s)
  | _ =>
    match fuel with
    | O => (false, s)
    | S fuel =>
      match write_ c s with
      | (None, s) => (false, s)
      | (Some n, s) =>
        if n <=? 0 then (false, with_errno ECONNRESET s)
        else write_all_loop fuel (drop (Z.to_nat n) c) s
      end
    end
  end.

Definition write_all (c : chunk) (s : stream) : bool * stream := write_all_loop (length c) c s.

(** * Libosmocore *)

(** Its message buffers, with the octets between [data] and [tail]; putting and pushing
    fails, and ends the daemon, without room. Its header of IPA messages with the length
    (which the code keeps in network order) and the protocol, and its numbers. *)
Class Osmocore := {
  msgb : Type;
  sizeof_msgb : Z;
  msgb_of : Z -> msgb;
  msgb_data : msgb -> chunk;
  msgb_put : chunk -> msgb -> option msgb;
  msgb_push : chunk -> msgb -> option msgb;
  msgb_pull : Z -> msgb -> msgb;
  msgb_reserve : Z -> msgb -> msgb;
  sizeof_head : Z;
  ipaccess_head : Z -> Z -> chunk;
  head_len : chunk -> Z;
  head_proto : chunk -> Z;
  IPAC_PROTO_IPACCESS : Z;
  IPAC_PROTO_OSMO : Z;
  IPAC_MSGT_PING : Z;
  IPAC_MSGT_PONG : Z;
  IPAC_MSGT_ID_GET : Z;
  IPAC_MSGT_ID_RESP : Z;
  IPAC_MSGT_ID_ACK : Z;
  IPAC_IDTAG_SERNR : Z;
  IPAC_IDTAG_UNITNAME : Z;
  IPAC_IDTAG_LOCATION1 : Z;
  IPAC_IDTAG_LOCATION2 : Z;
  IPAC_IDTAG_EQUIPVERS : Z;
  IPAC_IDTAG_SWVERSION : Z;
  IPAC_IDTAG_UNIT : Z;
}.

Definition IPA_ALLOC_SIZE : Z := 1200.

(** The octets of a C string without its end. *)
Definition c_str (s : string) : chunk := map (fun a => Z.of_nat (nat_of_ascii a)) (list_ascii_of_string s).

Section Messages.
Context `{Osmocore}.

(** [epdg_chunk_to_msgb], for memory of a size. *)
Definition epdg_chunk_to_msgb (chunk_len : Z) : option msgb :=
  if chunk_len <? sizeof_msgb then None else Some (msgb_of (chunk_len - sizeof_msgb)).

Definition msgb_length (m : msgb) : Z := len (msgb_data m).
Definition msgb_put_u8 (b : Z) (m : msgb) : option msgb := msgb_put [b mod 256] m.
Definition msgb_put_u16 (w : Z) (m : msgb) : option msgb := msgb_put (be_bytes 2 w) m.
Definition msgb_pull_u8 (m : msgb) : Z * msgb := (nth 0 (msgb_data m) 0, msgb_pull 1 m).

(** What happens while octets are read: [osmo_cb] gets a message, by what follows its l2
    header, or the client is told to reconnect. *)
Inductive event := Osmo_cb (l2 : chunk) | Reconnect (error : Z).

(** The state of a call: the socket, the events, and the number of buffers that were
    allocated and neither freed nor passed on. *)
Record io := { sock : stream; events : list event; buffers : Z }.

Definition with_sock x i := {| sock := x; events := events i; buffers := buffers i |}.
Definition emit e i := {| sock := sock i; events := events i ++ [e]; buffers := buffers i |}.
Definition allocated n i := {| sock := sock i; events := events i; buffers := buffers i + n |}.

(** A call returns, waits for octets that do not arrive, or ends the daemon. *)
Inductive ended (A : Type) := Returns (x : A) | Waits | Panics.
#[global] Arguments Returns {A} x.
#[global] Arguments Waits {A}.
#[global] Arguments Panics {A}.

(** [send_pdu]: the number of octets, or an error; the message is freed. *)
Definition send_pdu (osmo_proto : Z) (msg : msgb) (connected : option stream) : option (Z * option stream) :=
  let l := msgb_length msg + sizeof_head + 1 in
  msg ← msgb_push (ipaccess_head (u16 (l - sizeof_head)) IPAC_PROTO_OSMO ++ [osmo_proto]) msg;
  match connected with
  | None => Some (- ENOENT, None)
  | Some s =>
    let '(ok, s) := write_all (msgb_data msg) s in
    Some (if (ok : bool) then msgb_length msg else - EINVAL, Some s)
  end.

(** ** The base protocol *)

Definition ipa_pdu_base_send_simple (msg_type : Z) (i : io) : io :=
  with_sock (snd (write_all (ipaccess_head 1 IPAC_PROTO_IPACCESS ++ [msg_type]) (sock i))) i.

Definition ipa_tag_put_str (resp : msgb) (tag : Z) (value : string) : option msgb :=
  resp ← msgb_put_u16 (len (c_str value) + 1) resp;
  resp ← msgb_put_u8 tag resp;
  msgb_put (c_str value) resp.

Definition ipa_resp_tag_encode (resp : msgb) (tag : Z) : option msgb :=
  if (tag =? IPAC_IDTAG_SERNR) || (tag =? IPAC_IDTAG_UNITNAME) then ipa_tag_put_str resp tag "SWAN-00-00-00-00-00-00"
  else if (tag =? IPAC_IDTAG_LOCATION1) || (tag =? IPAC_IDTAG_LOCATION2) || (tag =? IPAC_IDTAG_EQUIPVERS)
          || (tag =? IPAC_IDTAG_SWVERSION) then ipa_tag_put_str resp tag "00:00:00:00:00:00"
  else if tag =? IPAC_IDTAG_UNIT then ipa_tag_put_str resp tag "0/0/0"
  else Some resp.

(** The loop over the requested tags: the response, [None] for an invalid request, or a
    panic; every turn takes an octet at least. *)
Fixpoint id_tags (fuel : nat) (req resp : msgb) : ended (option msgb) :=
  if msgb_length req <? 2 then Returns (Some resp)
  else match fuel with
  | O => Waits
  | S fuel =>
    let '(l, req) := msgb_pull_u8 req in
    if negb (l =? 1) then
      if msgb_length req <? l then Returns None else id_tags fuel (msgb_pull l req) resp
    else
      let '(tag, req) := msgb_pull_u8 req in
      match ipa_resp_tag_encode resp tag with
      | None => Panics
      | Some resp => id_tags fuel req resp
      end
  end.

Definition ipa_pdu_base_send_id_resp (req : msgb) (i : io) : ended io :=
  let i := allocated 1 i in
  match epdg_chunk_to_msgb IPA_ALLOC_SIZE with
  | None => Panics
  | Some resp =>
    let req := msgb_pull sizeof_head req in
    if msgb_length req <? 1 then Returns (allocated (-1) i)
    else
      match resp ← msgb_put (ipaccess_head 0 IPAC_PROTO_IPACCESS) (msgb_reserve 128 resp); msgb_put_u8 IPAC_MSGT_ID_RESP resp with
      | None => Panics
      | Some resp =>
        let '(_, req) := msgb_pull_u8 req in
        match id_tags (length (msgb_data req)) req resp with
        | Panics => Panics
        | Waits => Waits
        | Returns None => Returns (allocated (-1) i)
        | Returns (Some resp) =>
          let l2 := drop (Z.to_nat sizeof_head) (msgb_data resp) in
          let '(ok, s) := write_all (ipaccess_head (u16 (len l2)) IPAC_PROTO_IPACCESS ++ l2) (sock i) in
          let i := with_sock s i in
          if negb ok then Returns i
          else Returns (allocated (-1) (ipa_pdu_base_send_simple IPAC_MSGT_ID_ACK i))
        end
      end
  end.

Definition on_recv_ipa_pdu (pdu : msgb) (i : io) : ended io :=
  if msgb_length pdu <? sizeof_head + 1 then Returns i
  else
    let msg_type := nth (Z.to_nat sizeof_head) (msgb_data pdu) 0 in
    if msg_type =? IPAC_MSGT_PING then Returns (ipa_pdu_base_send_simple IPAC_MSGT_PONG i)
    else if msg_type =? IPAC_MSGT_PONG then Returns i
    else if msg_type =? IPAC_MSGT_ID_GET then ipa_pdu_base_send_id_resp pdu i
    else Returns i.

(** ** Reading *)

(** [read_error] tells the client to reconnect, and the caller not to go on. *)
Definition read_error (error : Z) (i : io) : ended (bool * io) := Returns (false, emit (Reconnect error) i).

(** A message that was read. *)
Definition on_pdu (osmo_cb : bool) (proto : Z) (req : msgb) (i : io) : ended io :=
  if proto =? IPAC_PROTO_IPACCESS then on_recv_ipa_pdu req i
  else if proto =? IPAC_PROTO_OSMO then
    if msgb_length req <? sizeof_head + 1 then Returns (allocated (-1) i)
    else if osmo_cb then Returns (allocated (-1) (emit (Osmo_cb (drop (Z.to_nat (sizeof_head + 1)) (msgb_data req))) i))
    else Returns (allocated (-1) i)
  else Returns (allocated (-1) i).

(** The rest of a header, after its first octets. *)
Definition read_head (c : chunk) (s : stream) : received * stream :=
  if len c <? sizeof_head then
    match read_all (Z.to_nat sizeof_head - length c) s with
    | (Octets c', s) => (Octets (c ++ c'), s)
    | r => r
    end
  else (Octets c, s).

(** The payload, after the header. *)
Definition read_payload (osmo_cb : bool) (head : chunk) (i : io) : ended (bool * io) :=
  let n := head_len head in
  if n + sizeof_head >? IPA_ALLOC_SIZE then read_error EINVAL i
  else
    match req ← epdg_chunk_to_msgb (IPA_ALLOC_SIZE + sizeof_msgb); msgb_put head req with
    | None => Panics
    | Some req =>
      match msgb_put (replicate (Z.to_nat n) 0) req with
      | None => Panics
      | Some _ =>
        match read_all (Z.to_nat n) (sock i) with
        | (Blocks, _) => Waits
        | (Error, s) => read_error (errno s) (with_sock s i)
        | (Octets c, s) =>
          match msgb_put c req with
          | None => Panics
          | Some req =>
            match on_pdu osmo_cb (head_proto head) req (allocated 1 (with_sock s i)) with
            | Returns i => Returns (true, i)
            | Waits => Waits
            | Panics => Panics
            end
          end
        end
      end
    end.

Definition on_stream_read (osmo_cb : bool) (i : io) : ended (bool * io) :=
  let '(r, s) := read_ (Z.to_nat sizeof_head) false (sock i) in
  match r with
  | Blocks => Waits
  | Error | Octets [] =>
    if errno s =? EWOULDBLOCK then Returns (true, with_sock s i)
    else read_error (errno s) (with_sock s i)
  | Octets c =>
    match read_head c s with
    | (Blocks, _) => Waits
    | (Error, s) => read_error (errno s) (with_sock s i)
    | (Octets head, s) => read_payload osmo_cb head (with_sock s i)
    end
  end.

End Messages.

(** * Keeping the connection *)

Definition INITIAL_BACKOFF_MS : Z := 10.
Definition MAX_BACKOFF_MS : Z := 15000.

(** Where a thread is in [connect_ipa]: about to look at the old stream, in its [destroy],
    about to forget it, about to connect; about to call [reconnect_ipa] without a stream;
    about to register [on_stream_read], to call it, in the call, about to call
    [reconnect_ipa] from it; about to reset the backoff; and returning with an error or
    without. *)
Inductive connecting :=
| Connect | Destroying (id : nat) | Destroyed | Opening | Failing | Registering | Registered
| Reading (id : nat) | Read_failed | Resetting | Failed | Connected.

(** The job: none runs, it is about to lock the mutex, or it connects. *)
Inductive job_pc := No_job | Locking | Job (c : connecting).

(** The callback of the watcher for a stream: it does not run, it reads, it is about to
    call [reconnect_ipa], or it is about to return FALSE. *)
Inductive callback_pc := Not_running | Running | Reconnecting | Returning.

(** A sender: before, or after it found a stream. *)
Inductive sender_pc := Checking | Writing.

Inductive thread := The_creator | The_job | The_callback.

#[global] Instance thread_eq_dec : EqDecision thread.
Proof. solve_decision. Defined.

(** A stream in memory, with its entry in the watcher. *)
Record watch := Watch { registered : bool; callback : callback_pc }.

(** [this->stream] is the address of a stream. The job that was scheduled stands for each
    of [scheduled], the delays. *)
Record ipa_client := {
  stream_ptr : option nat;
  streams : gmap nat watch;
  mutex : option thread;
  reconnecting : bool;
  reconnect_backoff_ms : Z;
  scheduled : list Z;
  creator : connecting;
  job : job_pc;
  sender : sender_pc;
}.

Definition with_stream_ptr x s := {| stream_ptr := x; streams := streams s; mutex := mutex s; reconnecting := reconnecting s;
  reconnect_backoff_ms := reconnect_backoff_ms s; scheduled := scheduled s; creator := creator s; job := job s; sender := sender s |}.
Definition with_streams x s := {| stream_ptr := stream_ptr s; streams := x; mutex := mutex s; reconnecting := reconnecting s;
  reconnect_backoff_ms := reconnect_backoff_ms s; scheduled := scheduled s; creator := creator s; job := job s; sender := sender s |}.
Definition with_mutex x s := {| stream_ptr := stream_ptr s; streams := streams s; mutex := x; reconnecting := reconnecting s;
  reconnect_backoff_ms := reconnect_backoff_ms s; scheduled := scheduled s; creator := creator s; job := job s; sender := sender s |}.
Definition with_reconnecting x s := {| stream_ptr := stream_ptr s; streams := streams s; mutex := mutex s; reconnecting := x;
  reconnect_backoff_ms := reconnect_backoff_ms s; scheduled := scheduled s; creator := creator s; job := job s; sender := sender s |}.
Definition with_backoff x s := {| stream_ptr := stream_ptr s; streams := streams s; mutex := mutex s; reconnecting := reconnecting s;
  reconnect_backoff_ms := x; scheduled := scheduled s; creator := creator s; job := job s; sender := sender s |}.
Definition with_scheduled x s := {| stream_ptr := stream_ptr s; streams := streams s; mutex := mutex s; reconnecting := reconnecting s;
  reconnect_backoff_ms := reconnect_backoff_ms s; scheduled := x; creator := creator s; job := job s; sender := sender s |}.
Definition with_creator x s := {| stream_ptr := stream_ptr s; streams := streams s; mutex := mutex s; reconnecting := reconnecting s;
  reconnect_backoff_ms := reconnect_backoff_ms s; scheduled := scheduled s; creator := x; job := job s; sender := sender s |}.
Definition with_job x s := {| stream_ptr := stream_ptr s; streams := streams s; mutex := mutex s; reconnecting := reconnecting s;
  reconnect_backoff_ms := reconnect_backoff_ms s; scheduled := scheduled s; creator := creator s; job := x; sender := sender s |}.
Definition with_sender x s := {| stream_ptr := stream_ptr s; streams := streams s; mutex := mutex s; reconnecting := reconnecting s;
  reconnect_backoff_ms := reconnect_backoff_ms s; scheduled := scheduled s; creator := creator s; job := job s; sender := x |}.

(** A step is done, the thread has to wait (or there is none), or it uses a stream that
    was freed or a NULL pointer. *)
Inductive stepped := Next (s : ipa_client) | Stuck | Crash.

(** [reconnect_ipa]: the mutex is recursive, and held within the call only by its caller. *)
Definition reconnect_ipa (who : thread) (s : ipa_client) (next : ipa_client -> stepped) : stepped :=
  if bool_decide (mutex s = None \/ mutex s = Some who) then
    if reconnecting s then next s
    else next (with_scheduled (scheduled s ++ [reconnect_backoff_ms s]) (with_reconnecting true s))
  else Stuck.

(** The watcher's [remove], which waits for the callback of a stream. *)
Definition unwatch (id : nat) (s : ipa_client) (next : watch -> stepped) : stepped :=
  match streams s !! id with
  | None => Crash
  | Some w => match callback w with Not_running => next w | _ => Stuck end
  end.

(** A step of [connect_ipa] by a thread; [ok] is whether connecting or reading succeeds. *)
Definition connect_ipa (who : thread) (ok : bool) (pc : connecting) (s : ipa_client) (go : connecting -> ipa_client -> stepped) : stepped :=
  match pc with
  | Connect => match stream_ptr s with Some id => go (Destroying id) s | None => go Opening s end
  | Destroying id => unwatch id s (fun _ => go Destroyed (with_streams (delete id (streams s)) s))
  | Destroyed => go Opening (with_stream_ptr None s)
  | Opening =>
    if ok then
      let id := fresh (dom (streams s)) in
      go Registering (with_stream_ptr (Some id) (with_streams (<[id := Watch false Not_running]> (streams s)) s))
    else go Failing (with_stream_ptr None s)
  | Failing => reconnect_ipa who s (go Failed)
  | Registering =>
    match stream_ptr s with
    | None => Crash
    | Some id => unwatch id s (fun _ => go Registered (with_streams (<[id := Watch true Not_running]> (streams s)) s))
    end
  | Registered => match stream_ptr s with None => Crash | Some id => go (Reading id) s end
  | Reading id =>
    match streams s !! id with
    | None => Crash
    | Some _ => if ok then go Resetting s else go Read_failed s
    end
  | Read_failed => reconnect_ipa who s (go Resetting)
  | Resetting => go Connected (with_backoff INITIAL_BACKOFF_MS s)
  | Failed | Connected => Stuck
  end.

(** A step of [reconnect_job]; a scheduled job may start at any time. *)
Definition reconnect_job (ok : bool) (s : ipa_client) : stepped :=
  match job s with
  | No_job => match scheduled s with [] => Stuck | _ :: l => Next (with_job Locking (with_scheduled l s)) end
  | Locking =>
    match mutex s with
    | None => Next (with_job (Job Connect) (with_mutex (Some The_job) s))
    | Some _ => Stuck
    end
  | Job Failed =>
    let backoff := Z.min (u32 (reconnect_backoff_ms s * 2)) MAX_BACKOFF_MS in
    Next (with_job No_job (with_mutex None (with_scheduled (scheduled s ++ [backoff]) (with_backoff backoff s))))
  | Job Connected => Next (with_job No_job (with_mutex None (with_reconnecting false s)))
  | Job pc => connect_ipa The_job ok pc s (fun pc s => Next (with_job (Job pc) s))
  end.

(** A step of the callback for a stream: the watcher's dispatch, [on_stream_read], and
    what the watcher does when it returned. *)
Definition watch_callback (id : nat) (ok : bool) (s : ipa_client) : stepped :=
  let set w s := Next (with_streams (<[id := w]> (streams s)) s) in
  match streams s !! id with
  | None => Stuck
  | Some w =>
    match callback w with
    | Not_running => if registered w then set (Watch (registered w) Running) s else Stuck
    | Running => set (Watch (registered w) (if ok then Not_running else Reconnecting)) s
    | Reconnecting => reconnect_ipa The_callback s (set (Watch (registered w) Returning))
    | Returning => set (Watch false Not_running) s
    end
  end.

(** A step of [send_pdu]; both halves read the pointer. *)
Definition send_step (s : ipa_client) : stepped :=
  match sender s, stream_ptr s with
  | Checking, None => Next s
  | Checking, Some _ => Next (with_sender Writing s)
  | Writing, None => Crash
  | Writing, Some id => match streams s !! id with None => Crash | Some _ => Next (with_sender Checking s) end
  end.

Inductive label := Creator (ok : bool) | Job_step (ok : bool) | Callback (id : nat) (ok : bool) | Sender.

Definition step (l : label) (s : ipa_client) : stepped :=
  match l with
  | Creator ok => connect_ipa The_creator ok (creator s) s (fun pc s => Next (with_creator pc s))
  | Job_step ok => reconnect_job ok s
  | Callback id ok => watch_callback id ok s
  | Sender => send_step s
  end.

(** A run is a sequence of steps of any threads. *)
Fixpoint run (l : list label) (s : ipa_client) : stepped :=
  match l with
  | [] => Next s
  | x :: l => match step x s with Next s => run l s | r => r end
  end.

Definition osmo_epdg_ipa_client_create : ipa_client :=
  {| stream_ptr := None; streams := ∅; mutex := None; reconnecting := false; reconnect_backoff_ms := INITIAL_BACKOFF_MS;
     scheduled := []; creator := Connect; job := No_job; sender := Checking |}.
