(* ===== verification/IpaSpec.v ===== *)
(** What the connection of [Ipa] does: the messages that are sent are the ones the other
    side gets, requests for the identity are answered, and a lost connection is made again,
    or not. *)

From stdpp Require Import gmap.
From Stdlib Require Import Strings.String.
From S2P Require Import Prelude Ipa.

(** * Keeping the connection *)

(** A job was scheduled, and none got far enough to register a new stream. *)
Definition early (pc : connecting) : bool :=
  match pc with Connect | Destroying _ | Destroyed | Opening | Failing | Failed => true | _ => false end.

Definition pending (s : ipa_client) : Prop :=
  reconnecting s = true /\ match job s with No_job | Locking => True | Job pc => early pc = true end.

(** The current stream is registered, and its callback is not about to give up. *)
Definition watched (s : ipa_client) : Prop :=
  exists id w, stream_ptr s = Some id /\ streams s !! id = Some w /\ registered w = true /\ callback w <> Returning.

(** The stream is new. *)
Definition opened (s : ipa_client) : Prop :=
  exists id, stream_ptr s = Some id /\ streams s !! id = Some (Watch false Not_running).

Definition jobs (s : ipa_client) : nat := length (scheduled s) + match job s with No_job => 0 | _ => 1 end.

Definition starting (s : ipa_client) : Prop :=
  reconnecting s = false /\ (forall id w, streams s !! id = Some w -> w = Watch false Not_running) /\
  match creator s with
  | Connect | Opening | Failing => stream_ptr s = None
  | Registering => opened s
  | _ => False
  end.

Record invariant (s : ipa_client) : Prop := {
  i_mutex : mutex s = match job s with Job _ => Some The_job | _ => None end;
  i_jobs : jobs s = if reconnecting s then 1%nat else 0%nat;
  i_opened : job s = Job Registering -> opened s;
  i_creator : match creator s with
              | Connect | Opening | Failing | Registering => starting s
              | Destroying _ | Destroyed => False
              | _ => True
              end;
  i_tended : starting s \/ pending s \/ job s = Job Registering \/ watched s;
}.

Lemma create_invariant : invariant osmo_epdg_ipa_client_create.
Proof. by split; try left. Qed.

(** [reconnect_ipa] leaves one job. *)
Lemma reconnect_ipa_next who s next s' :
  reconnect_ipa who s next = Next s' ->
  (mutex s = None \/ mutex s = Some who) /\
  next (if reconnecting s then s else with_scheduled (scheduled s ++ [reconnect_backoff_ms s]) (with_reconnecting true s)) = Next s'.
Proof. unfold reconnect_ipa. case_bool_decide; [|done]. by destruct (reconnecting s). Qed.

Lemma unwatch_next id s next s' :
  unwatch id s next = Next s' -> exists w, streams s !! id = Some w /\ callback w = Not_running /\ next w = Next s'.
Proof. unfold unwatch. destruct (streams s !! id) as [w|]; [|done]. destruct (callback w) eqn:E; try done. by exists w. Qed.

(** Inserting another stream, or a callback's progress, keeps the facts on a stream. *)
Lemma opened_insert s id w :
  streams s !! id <> Some (Watch false Not_running) -> opened s -> opened (with_streams (<[id := w]> (streams s)) s).
Proof.
  intros N (id' & E & L). exists id'. split; [done|]. cbn. rewrite lookup_insert_ne; [done|]. by intros ->.
Qed.

Lemma watched_insert s id w w' :
  streams s !! id = Some w -> (registered w = true -> callback w <> Returning -> registered w' = true /\ callback w' <> Returning) ->
  watched s -> watched (with_streams (<[id := w']> (streams s)) s).
Proof.
  intros L K (id' & w0 & E & L' & R & C). destruct (decide (id = id')) as [->|N].
  - rewrite L in L'. injection L' as ->. exists id', w'. cbn. rewrite lookup_insert_eq. destruct (K R C). done.
  - exists id', w0. cbn. by rewrite lookup_insert_ne.
Qed.

Definition tended (s : ipa_client) : Prop := starting s \/ pending s \/ job s = Job Registering \/ watched s.

(** With a job that runs the client is reconnecting, and the creator is past its start. *)
Lemma running_job s : invariant s -> job s <> No_job -> reconnecting s = true /\ scheduled s = [] /\ ~ starting s.
Proof.
  intros [_ J _ _ _] N. unfold jobs in J. destruct (job s); [done| |]; destruct (reconnecting s) eqn:R; try lia;
    (repeat split; [destruct (scheduled s); [done|cbn in J; lia]|intros [R' _]; congruence]).
Qed.

Lemma idle_client s : invariant s -> reconnecting s = false -> job s = No_job /\ scheduled s = [].
Proof. intros [_ J _ _ _] R. rewrite R in J. unfold jobs in J. destruct (scheduled s), (job s); cbn in J; try lia. done. Qed.

(** When [reconnect_ipa] returns, a job is there that connects from the start. *)
Lemma reconnect_ipa_invariant who s :
  who <> The_job -> invariant s -> mutex s = None \/ mutex s = Some who -> ~ starting s ->
  let s' := if reconnecting s then s else with_scheduled (scheduled s ++ [reconnect_backoff_ms s]) (with_reconnecting true s) in
  invariant s' /\ pending s'.
Proof.
  intros Hw Inv M NS. pose proof (idle_client s Inv) as Id. pose proof Inv as [Im Ij Io Ic It].
  assert (J : match job s with Job _ => False | _ => True end).
  { destruct (job s); try done. rewrite Im in M. destruct M as [M|M]; [done|]. by injection M as <-. }
  destruct (reconnecting s) eqn:R; cbn zeta.
  - split; [done|]. split; [done|]. by destruct (job s).
  - destruct (Id eq_refl) as [Ej Es]. assert (P : pending (with_scheduled (scheduled s ++ [reconnect_backoff_ms s]) (with_reconnecting true s)))
      by (split; [done|]; cbn; by rewrite Ej).
    split; [|done]. split; cbn.
    + by rewrite Im.
    + unfold jobs. cbn. by rewrite Es, Ej.
    + intros E. by rewrite E in J.
    + by destruct (creator s).
    + by right; left.
Qed.

Ltac next_eq := let E := fresh in intros E; injection E as <-.

Lemma creator_invariant ok s s' : invariant s -> step (Creator ok) s = Next s' -> invariant s'.
Proof.
  intros Inv. pose proof Inv as [Im Ij Io Ic It]. unfold step, connect_ipa. destruct (creator s) eqn:Ec; try done.
  - destruct Ic as (R & Q & C). rewrite Ec in C. rewrite C. next_eq. split; try done; unfold starting; cbn; auto.
  - destruct Ic as (R & Q & C). rewrite Ec in C. destruct (idle_client s Inv R) as [Ej Es]. destruct ok; next_eq.
    + set (id := fresh _).
      assert (St : starting (with_creator Registering (with_stream_ptr (Some id) (with_streams (<[id:=Watch false Not_running]> (streams s)) s)))).
      { split; [done|]. split; cbn; [|by exists id; cbn; rewrite lookup_insert_eq].
        intros id' w L. destruct (decide (id = id')) as [<-|N]; [rewrite lookup_insert_eq in L; congruence|].
        rewrite lookup_insert_ne in L by done. by apply Q in L. }
      split; try done; [|by left]. intros E. cbn in E. congruence.
    + assert (St : starting (with_creator Failing (with_stream_ptr None s))) by by split. split; try done; [|by left].
      intros E. cbn in E. congruence.
  - destruct Ic as (R & Q & C). rewrite Ec in C. destruct (idle_client s Inv R) as [Ej Es]. intros E.
    apply reconnect_ipa_next in E as [M E]. rewrite R in E. injection E as <-. split; cbn; try done.
    + unfold jobs. cbn. by rewrite Es, Ej.
    + right. left. split; [done|]. cbn. by rewrite Ej.
  - destruct Ic as (R & Q & C). rewrite Ec in C. destruct C as (id & Ep & El). rewrite Ep. intros E.
    apply unwatch_next in E as (w & Ew & Cw & E). injection E as <-. destruct (idle_client s Inv R) as [Ej Es].
    split; cbn; try done; [congruence|]. right. right. right. exists id, (Watch true Not_running). cbn. by rewrite lookup_insert_eq.
  - destruct (stream_ptr s) as [id|] eqn:Ep; [|done]. next_eq.
    split; try done. destruct It as [(_ & _ & X)|It]; [by rewrite Ec in X|by right].
  - destruct (streams s !! id); [|done]. intros E.
    assert (G : forall pc, match pc with Resetting | Read_failed => True | _ => False end -> invariant (with_creator pc s)).
    { intros pc Hp. split; try done; [by destruct pc|]. destruct It as [(_ & _ & X)|It]; [by rewrite Ec in X|by right]. }
    destruct ok; injection E as <-; by apply G.
  - intros E. apply reconnect_ipa_next in E as [M E].
    destruct (reconnect_ipa_invariant The_creator s) as [Inv' P]; try done; [by intros (_ & _ & X); rewrite Ec in X|].
    revert E Inv' P. generalize (if reconnecting s then s else with_scheduled (scheduled s ++ [reconnect_backoff_ms s]) (with_reconnecting true s)).
    intros s1 E [Im1 Ij1 Io1 Ic1 It1] P. injection E as <-. split; try done. by right; left.
  - next_eq. split; try done. destruct It as [(_ & _ & X)|It]; [by rewrite Ec in X|by right].
Qed.

(** A step of the job within [connect_ipa] that leaves the mutex and what is scheduled. *)
Lemma job_connecting s pc pc' s1 :
  invariant s -> job s = Job pc -> mutex s1 = mutex s -> reconnecting s1 = reconnecting s -> scheduled s1 = scheduled s ->
  creator s1 = creator s -> job s1 = Job pc' -> (pc' = Registering -> opened s1) ->
  early pc' = true \/ pc' = Registering \/ watched s1 -> invariant s1.
Proof.
  intros Inv E Em Er Es Ec Ej Ho Ht. destruct (running_job s Inv) as (R & S & NS); [by rewrite E|].
  pose proof Inv as [Im Ij Io Ic It]. split.
  - rewrite Em, Im, E, Ej. done.
  - rewrite Er. unfold jobs in *. rewrite Es, Ej. by rewrite E in Ij.
  - rewrite Ej. intros X. injection X as ->. by apply Ho.
  - rewrite Ec. destruct (creator s); try done; by destruct NS.
  - destruct Ht as [P|[P|P]]; [|right; right; left; congruence|by right; right; right].
    right. left. split; [congruence|]. by rewrite Ej.
Qed.

Lemma job_watched s pc : invariant s -> job s = Job pc -> early pc = false -> pc <> Registering -> watched s.
Proof.
  intros Inv E P N. destruct (running_job s Inv) as (R & S & NS); [by rewrite E|]. destruct (i_tended s Inv) as [X|[[_ X]|[X|X]]]; try done.
  - rewrite E in X. congruence.
  - rewrite E in X. congruence.
Qed.

Lemma starting_idle s : starting s -> reconnecting s = true -> False.
Proof. intros [R _]. by rewrite R. Qed.

Lemma job_invariant ok s s' : invariant s -> step (Job_step ok) s = Next s' -> invariant s'.
Proof.
  intros Inv. pose proof Inv as [Im Ij Io Ic It]. unfold step, reconnect_job. destruct (job s) as [| |pc] eqn:Ej.
  - destruct (scheduled s) as [|d l] eqn:Es; [done|]. next_eq.
    assert (R : reconnecting s = true) by (destruct (reconnecting s) eqn:R; [done|]; unfold jobs in Ij; rewrite Es in Ij; cbn in Ij; lia).
    split; try done.
    + cbn. unfold jobs in *. rewrite R, Es, Ej in *. cbn in *. lia.
    + right. left. by split.
  - destruct (mutex s) eqn:Em; [done|]. next_eq. destruct (running_job s Inv) as (R & S & NS); [by rewrite Ej|]. split; try done.
    + unfold jobs in *. cbn. by rewrite Ej in Ij.
    + right. left. by split.
  - destruct (running_job s Inv) as (R & S & NS); [by rewrite Ej|].
    assert (W : forall pc', early pc = false -> pc <> Registering -> watched (with_job (Job pc') s))
      by (intros pc' P N; exact (job_watched s pc Inv Ej P N)).
    destruct pc; cbn [connect_ipa].
    + destruct (stream_ptr s); next_eq; (eapply (job_connecting s); try done; by left).
    + intros E. apply unwatch_next in E as (w & _ & _ & E). injection E as <-. eapply (job_connecting s); try done; by left.
    + next_eq. eapply (job_connecting s); try done; by left.
    + destruct ok; next_eq; [|eapply (job_connecting s); try done; by left].
      eapply (job_connecting s); try done; [|by right; left]. intros _. eexists. cbn. by rewrite lookup_insert_eq.
    + intros E. apply reconnect_ipa_next in E as [_ E]. rewrite R in E. injection E as <-.
      eapply (job_connecting s); try done; by left.
    + destruct (stream_ptr s) as [id|] eqn:Ep; [|done]. intros E. apply unwatch_next in E as (w & _ & _ & E). injection E as <-.
      eapply (job_connecting s); try done. right. right. exists id, (Watch true Not_running). cbn. by rewrite lookup_insert_eq.
    + destruct (stream_ptr s); [|done]. next_eq. eapply (job_connecting s); try done. right. right. by apply W.
    + destruct (streams s !! id); [|done]. destruct ok; next_eq; (eapply (job_connecting s); try done; right; right; by apply W).
    + intros E. apply reconnect_ipa_next in E as [_ E]. rewrite R in E. injection E as <-.
      eapply (job_connecting s); try done. right. right. by apply W.
    + next_eq. eapply (job_connecting s); try done. right. right. by apply (job_watched s Resetting).
    + next_eq. split; try done; cbn.
      * unfold jobs. cbn. by rewrite R, S.
      * right. left. by split.
    + next_eq. split; try done; cbn.
      * unfold jobs. cbn. by rewrite S.
      * destruct (creator s); try done; by destruct NS.
      * right. right. right. by apply (job_watched s Connected).
Qed.

Lemma callback_invariant id ok s s' : invariant s -> step (Callback id ok) s = Next s' -> invariant s'.
Proof.
  intros Inv. unfold step, watch_callback. destruct (streams s !! id) as [w|] eqn:El; [|done].
  (* Another state of the callback keeps everything but the facts on a watched stream. *)
  assert (K : forall s1 w', streams s1 = streams s -> invariant s1 ->
    (watched s1 -> pending s1 \/ watched (with_streams (<[id := w']> (streams s1)) s1)) ->
    w <> Watch false Not_running -> invariant (with_streams (<[id := w']> (streams s1)) s1)).
  { intros s1 w' E1 [Im1 Ij1 Io1 Ic1 It1] Hw N.
    assert (Hs : ~ starting s1) by (intros (_ & Q & _); apply N; apply (Q id); by rewrite E1).
    split; try done.
    - intros E. apply opened_insert; [rewrite E1, El; congruence|by apply Io1].
    - cbn. by destruct (creator s1).
    - destruct It1 as [X|[X|[X|X]]]; [done|by right; left|by right; right; left|].
      destruct (Hw X); [by right; left|by right; right; right]. }
  destruct w as [r c]. cbn [callback registered] in *. destruct c.
  - destruct r; [|done]. next_eq. apply K; try done. intros W. right. by apply (watched_insert s id (Watch true Not_running)).
  - next_eq. apply K; try done. intros W. right. apply (watched_insert s id (Watch r Running)); try done. intros R _. cbn. by destruct ok.
  - intros E. apply reconnect_ipa_next in E as [M E].
    destruct (reconnect_ipa_invariant The_callback s) as [Inv' P]; try done.
    { intros (_ & Q & _). by apply Q in El. }
    injection E as <-. apply K; try done; [by destruct (reconnecting s)|auto].
  - next_eq. apply K; try done. intros W. right. by apply (watched_insert s id (Watch r Returning)).
Qed.

Lemma step_invariant l s s' : invariant s -> step l s = Next s' -> invariant s'.
Proof.
  destruct l as [ok|ok|id ok|]; [apply creator_invariant|apply job_invariant|apply callback_invariant|].
  intros [Im Ij Io Ic It]. unfold step, send_step. destruct (sender s), (stream_ptr s) as [id|]; try done.
  - next_eq. by split.
  - next_eq. by split.
  - destruct (streams s !! id); [|done]. next_eq. by split.
Qed.

Lemma run_invariant l s s' : invariant s -> run l s = Next s' -> invariant s'.
Proof.
  revert s. induction l as [|x l IH]; intros s Inv; cbn [run]; [intros E; by injection E as <-|].
  destruct (step x s) as [s1| |] eqn:E; [|done..]. apply IH. by eapply step_invariant.
Qed.

(** C23: The connection is never given up: in every interleaving, once the creator has
    returned, a reconnecting job was scheduled or runs, or the stream exists, is registered
    with the watcher, and its callback is not about to end; and there is never more than
    one such job. *)
Theorem connection_tended l s :
  run l osmo_epdg_ipa_client_create = Next s -> creator s = Failed \/ creator s = Connected ->
  (jobs s = 1%nat \/ jobs s = 0%nat /\ watched s) /\ (jobs s = 1%nat <-> reconnecting s = true).
Proof.
  intros R C. destruct (run_invariant _ _ _ create_invariant R) as [Im Ij Io Ic It]. rewrite Ij. split.
  - destruct (reconnecting s) eqn:Er; [by left|]. right. split; [done|].
    destruct It as [(_ & _ & X)|[[X _]|[X|X]]]; [by destruct C as [C|C]; rewrite C in X|congruence| |done].
    unfold jobs in Ij. rewrite X in Ij. lia.
  - by destruct (reconnecting s).
Qed.

(** ** A deadlock *)

(** The job, with the mutex, waits in [destroy] for a callback that waits for the mutex. *)
Definition deadlocked (id : nat) (s : ipa_client) : Prop :=
  job s = Job (Destroying id) /\ mutex s = Some The_job /\ (creator s = Failed \/ creator s = Connected)
  /\ exists r, streams s !! id = Some (Watch r Reconnecting).

Lemma deadlocked_stuck id s ok : deadlocked id s -> step (Job_step ok) s = Stuck /\ step (Callback id ok) s = Stuck.
Proof.
  intros (J & M & _ & r & L). unfold step, reconnect_job, watch_callback, reconnect_ipa. rewrite J, L. cbn. unfold unwatch.
  rewrite L, M. by destruct r.
Qed.

Lemma deadlocked_step id l s s' : deadlocked id s -> step l s = Next s' -> deadlocked id s'.
Proof.
  intros D. pose proof (deadlocked_stuck id s) as St. destruct l as [ok|ok|id' ok|].
  - destruct D as (_ & _ & [C|C] & _); unfold step; by rewrite C.
  - by destruct (St ok D) as [-> _].
  - destruct (decide (id' = id)) as [->|N]; [by destruct (St ok D) as [_ ->]|].
    destruct D as (J & M & C & r & L). unfold step, watch_callback. destruct (streams s !! id') as [w|]; [|done].
    assert (K : forall w', deadlocked id (with_streams (<[id' := w']> (streams s)) s)).
    { intros w'. split; [done|]. split; [done|]. split; [done|]. exists r. cbn. by rewrite lookup_insert_ne. }
    destruct (callback w).
    + destruct (registered w); [|done]. next_eq. apply K.
    + next_eq. apply K.
    + unfold reconnect_ipa. by rewrite M.
    + next_eq. apply K.
  - destruct D as (J & M & C & r & L). unfold step, send_step. destruct (sender s), (stream_ptr s) as [p|]; try done;
      try (next_eq; repeat split; eauto).
    destruct (streams s !! p); [|done]. next_eq. repeat split; eauto.
Qed.

(** [on_stream_read] fails within [connect_ipa] of the creator, and the watcher calls it
    once more, before the job that was scheduled runs. *)
Definition deadlocking : list label :=
  [Creator true; Creator true; Creator true; Creator true; Creator false; Creator true;
   Callback 0 true; Creator true; Job_step true; Job_step true; Job_step true; Callback 0 false].

(** C28: The reconnecting job and a callback may wait for each other for good: there is a run
    after which, whatever happens, the job stays in [destroy] with the mutex, the callback
    waits for the mutex, and no other job is scheduled. *)
Theorem reconnect_deadlocks :
  exists s id, run deadlocking osmo_epdg_ipa_client_create = Next s /\
  forall l s', run l s = Next s' ->
    job s' = Job (Destroying id) /\ mutex s' = Some The_job /\ scheduled s' = []
    /\ forall ok, step (Job_step ok) s' = Stuck /\ step (Callback id ok) s' = Stuck.
Proof.
  assert (E : exists s, run deadlocking osmo_epdg_ipa_client_create = Next s /\ deadlocked 0 s).
  { eexists. split; [vm_compute; reflexivity|]. split; [done|]. split; [done|]. split; [by right|]. by exists true. }
  destruct E as (s & R & D). exists s, 0%nat. split; [done|]. pose proof (run_invariant _ _ _ create_invariant R) as Inv.
  clear R. intros l. revert s D Inv. induction l as [|x l IH]; intros s D Inv s'; cbn [run].
  - intros E. injection E as <-. destruct (running_job s Inv) as (_ & S & _); [by destruct D as [-> _]|].
    pose proof (fun ok => deadlocked_stuck 0 s ok D). by destruct D as (J & M & _).
  - destruct (step x s) as [s1| |] eqn:E; [|done..]. apply IH; [by eapply deadlocked_step|by eapply step_invariant].
Qed.

(** A sender that found a stream uses it after the job freed it. *)
Example sender_uses_freed_stream :
  run [Creator true; Creator true; Creator true; Creator true; Creator false; Creator true; Creator true; Sender;
       Job_step true; Job_step true; Job_step true; Job_step true; Sender] osmo_epdg_ipa_client_create = Crash.
Proof. vm_compute. reflexivity. Qed.

(** The creator reads from a stream that the job freed after the callback failed. *)
Example creator_uses_freed_stream :
  run [Creator true; Creator true; Creator true; Creator true; Callback 0 true; Callback 0 false; Callback 0 true; Callback 0 true;
       Job_step true; Job_step true; Job_step true; Job_step true; Creator true] osmo_epdg_ipa_client_create = Crash.
Proof. vm_compute. reflexivity. Qed.

(** ** Delays *)

Definition delay_ok (d : Z) : Prop := INITIAL_BACKOFF_MS <= d <= MAX_BACKOFF_MS.
Definition delays_ok (s : ipa_client) : Prop := delay_ok (reconnect_backoff_ms s) /\ Forall delay_ok (scheduled s).

Lemma next_delay_ok d : delay_ok d -> delay_ok (Z.min (u32 (d * 2)) MAX_BACKOFF_MS).
Proof.
  unfold delay_ok, INITIAL_BACKOFF_MS, MAX_BACKOFF_MS, wrap. intros R.
  rewrite Z.mod_small by (change (2 ^ 32) with 4294967296; lia). lia.
Qed.

Lemma reconnect_ipa_delays who s next s' :
  delays_ok s -> (forall s1, delays_ok s1 -> next s1 = Next s' -> delays_ok s') -> reconnect_ipa who s next = Next s' -> delays_ok s'.
Proof.
  intros [D F] K E. apply reconnect_ipa_next in E as [_ E]. eapply K; [|done]. destruct (reconnecting s); [done|].
  split; [done|]. cbn. apply Forall_app. split; [done|by constructor].
Qed.

Lemma connect_ipa_delays who ok pc s go s' :
  delays_ok s -> (forall pc s1, delays_ok s1 -> go pc s1 = Next s' -> delays_ok s') -> connect_ipa who ok pc s go = Next s' -> delays_ok s'.
Proof.
  intros D K. unfold connect_ipa, unwatch. destruct pc; repeat (case_match; try done); try done;
    try (by apply K); try (by apply reconnect_ipa_delays; [done|intros s1; apply K]).
  apply K. by destruct D.
Qed.

Lemma step_delays l s s' : delays_ok s -> step l s = Next s' -> delays_ok s'.
Proof.
  intros D. destruct l as [ok|ok|id ok|]; unfold step.
  - apply connect_ipa_delays; [done|]. intros pc s1 D1. by next_eq.
  - assert (K : forall pc, connect_ipa The_job ok pc s (fun pc s => Next (with_job (Job pc) s)) = Next s' -> delays_ok s').
    { intros pc. apply connect_ipa_delays; [done|]. intros pc' s1 D1. by next_eq. }
    unfold reconnect_job. destruct (job s) as [| |[]]; try (by apply K).
    + destruct D as [D F]. destruct (scheduled s); [done|]. next_eq. split; [done|]. by inversion F.
    + destruct (mutex s); [done|]. by next_eq.
    + next_eq. destruct D as [D F]. pose proof (next_delay_ok _ D). split; [done|]. cbn. apply Forall_app. split; [done|by constructor].
    + by next_eq.
  - unfold watch_callback. destruct (streams s !! id) as [w|]; [|done]. destruct (callback w); try by next_eq.
    + destruct (registered w); [|done]. by next_eq.
    + apply reconnect_ipa_delays; [done|]. intros s1 D1. by next_eq.
  - unfold send_step. repeat (case_match; try done); by next_eq.
Qed.

(** An attempt of the job to connect that fails. *)
Definition attempt : list label := replicate 6 (Job_step false).

(** The client after its creator failed, with a delay. *)
Definition unconnected (d : Z) : ipa_client :=
  {| stream_ptr := None; streams := ∅; mutex := None; reconnecting := true; reconnect_backoff_ms := d; scheduled := [d];
     creator := Failed; job := No_job; sender := Checking |}.

Lemma attempt_fails d l : run (attempt ++ l) (unconnected d) = run l (unconnected (Z.min (u32 (d * 2)) MAX_BACKOFF_MS)).
Proof. reflexivity. Qed.

Lemma attempts_fail n d :
  delay_ok d -> run (concat (replicate n attempt)) (unconnected d) = Next (unconnected (Z.min (d * 2 ^ Z.of_nat n) MAX_BACKOFF_MS)).
Proof.
  revert d. induction n as [|n IH]; intros d D.
  { cbn. do 2 f_equal. unfold delay_ok in D. lia. }
  cbn [replicate concat]. rewrite attempt_fails, (IH _ (next_delay_ok d D)). do 2 f_equal.
  rewrite Nat2Z.inj_succ, Z.pow_succ_r by lia. unfold delay_ok, INITIAL_BACKOFF_MS, MAX_BACKOFF_MS, wrap in *.
  rewrite Z.mod_small by (change (2 ^ 32) with 4294967296; lia). assert (0 < 2 ^ Z.of_nat n) by lia. nia.
Qed.

(** The delay before connecting again is always between 10 ms and 15 s, and after n
    attempts that failed it is 10 ms doubled n times, or 15 s. *)
Theorem backoff_bounded :
  (forall l s, run l osmo_epdg_ipa_client_create = Next s -> delays_ok s)
  /\ forall n, exists s, run (replicate 3 (Creator false) ++ concat (replicate n attempt)) osmo_epdg_ipa_client_create = Next s
       /\ scheduled s = [Z.min (INITIAL_BACKOFF_MS * 2 ^ Z.of_nat n) MAX_BACKOFF_MS].
Proof.
  split.
  - intros l. assert (D : delays_ok osmo_epdg_ipa_client_create) by (split; [|constructor]; unfold delay_ok; cbn; done).
    revert D. generalize osmo_epdg_ipa_client_create. induction l as [|x l IH]; intros s D s'; cbn [run]; [by next_eq|].
    destruct (step x s) as [s1| |] eqn:E; [|done..]. apply IH. by eapply step_delays.
  - intros n. change (run (replicate 3 (Creator false) ++ concat (replicate n attempt)) osmo_epdg_ipa_client_create)
      with (run (concat (replicate n attempt)) (unconnected INITIAL_BACKOFF_MS)).
    rewrite attempts_fail by done. by eexists.
Qed.

(** * Streams *)

(** The octets that arrive, in segments of any sizes and with interruptions anywhere. *)
Definition octets (l : list arrival) : chunk := concat (map (fun a => match a with Segment c => c | Interrupt => [] end) l).
Definition segments_ok (l : list arrival) : Prop := Forall (fun a => match a with Segment c => c <> [] | Interrupt => True end) l.

Definition brings (s : stream) (c : chunk) : Prop := segments_ok (arrivals s) /\ octets (arrivals s) = c.

(** What reading leaves as it is. *)
Definition only_read (s s1 : stream) : Prop := after s1 = after s /\ sends s1 = sends s /\ sent s1 = sent s.

Lemma recv_octets n block l : forall s,
  (0 < n)%nat -> segments_ok l -> octets l <> [] ->
  exists c s1 rest, recv_ l (after s) n block s = (Octets c, s1) /\ octets l = c ++ rest /\ brings s1 rest
    /\ only_read s s1 /\ c <> [] /\ (length c <= n)%nat.
Proof.
  induction l as [|a l IH]; intros s Hn Ok Ne; [done|]. apply Forall_cons in Ok as [Oa Ok]. destruct a as [c|]; cbn [recv_].
  - exists (take n c). eexists. exists (drop n c ++ octets l). split; [done|]. rewrite app_assoc, take_drop. split; [done|].
    assert (L : (length (take n c) <= n)%nat) by (rewrite length_take; lia).
    assert (N : take n c <> []) by (destruct n; [lia|by destruct c]).
    split; [|done]. destruct (Nat.leb_spec (length c) n) as [H|H].
    + rewrite drop_ge by done. by split.
    + split; [|done]. constructor; [|done]. intros E. apply (f_equal length) in E. rewrite length_drop in E. cbn in E. lia.
  - change (after s) with (after (with_errno EINTR (with_arrivals l s))).
    destruct (IH (with_errno EINTR (with_arrivals l s)) Hn Ok Ne) as (c & s1 & rest & E & Eo & B & (A1 & A2 & A3) & N & L).
    by exists c, s1, rest.
Qed.

Lemma read_octets n block s c :
  (0 < n)%nat -> brings s c -> c <> [] ->
  exists c1 c2 s1, read_ n block s = (Octets c1, s1) /\ c = c1 ++ c2 /\ brings s1 c2 /\ only_read s s1 /\ c1 <> [] /\ (length c1 <= n)%nat.
Proof.
  intros Hn [Ok <-] Ne. destruct (recv_octets n block (arrivals s) s Hn Ok Ne) as (c1 & s1 & c2 & R & E & X).
  by exists c1, c2, s1.
Qed.

Lemma only_read_trans s1 s2 s3 : only_read s1 s2 -> only_read s2 s3 -> only_read s1 s3.
Proof. intros (A & B & C) (A' & B' & C'). repeat split; congruence. Qed.

Lemma read_all_loop_octets fuel : forall n got s a rest,
  (n <= fuel)%nat -> length a = n -> brings s (a ++ rest) ->
  exists s1, read_all_loop fuel n got s = (Octets (got ++ a), s1) /\ brings s1 rest /\ only_read s s1.
Proof.
  induction fuel as [|fuel IH]; intros n got s a rest Hn La B; cbn [read_all_loop].
  { destruct a; [|cbn in La; lia]. cbn in La. subst n. cbn. rewrite app_nil_r. by exists s. }
  destruct (Nat.eqb_spec n 0) as [->|N0].
  { destruct a; [|done]. rewrite app_nil_r. by exists s. }
  destruct (read_octets n true s (a ++ rest)) as (c1 & c2 & s1 & -> & E & B1 & O1 & Nc & Lc); [lia|done|by destruct a; [cbn in La; lia|]|].
  destruct c1 as [|x c1]; [done|]. set (c := x :: c1) in *.
  assert (Ea : a = c ++ drop (length c) a /\ c2 = drop (length c) a ++ rest).
  { assert (T : take (length c) (a ++ rest) = c) by (rewrite E; apply take_app_length).
    assert (D : drop (length c) (a ++ rest) = c2) by (rewrite E; apply drop_app_length).
    rewrite take_app_le in T by lia. rewrite drop_app_le in D by lia. rewrite <- D. split; [|done].
    rewrite <- T at 1. by rewrite take_drop. }
  destruct Ea as [Ea ->]. destruct (IH (n - length c)%nat (got ++ c) s1 (drop (length c) a) rest) as (s2 & E2 & B2 & O2).
  - unfold c. cbn [length]. lia.
  - rewrite length_drop. lia.
  - done.
  - exists s2. rewrite E2, <- app_assoc, <- Ea. split; [done|]. split; [done|]. by eapply only_read_trans.
Qed.

(** [read_all] gets the octets that were asked for, however they arrive. *)
Lemma read_all_octets s a rest :
  brings s (a ++ rest) -> exists s1, read_all (length a) s = (Octets a, s1) /\ brings s1 rest /\ only_read s s1.
Proof. intros B. by apply (read_all_loop_octets (length a) (length a) [] s a rest). Qed.





(** A peer that takes everything. *)
Lemma write_all_accepted c s : sends s = [] -> write_all c s = (true, with_sent (sent s ++ c) s).
Proof.
  intros E. unfold write_all. destruct c as [|x c]; cbn [length write_all_loop].
  - rewrite app_nil_r. by destruct s.
  - unfold write_. rewrite E. cbn [send_]. pose proof (len_cons x c). pose proof (len_nonneg c).
    rewrite (proj2 (Z.leb_gt _ _)) by lia. unfold len at 1. rewrite Nat2Z.id, drop_all.
    destruct (length c); cbn; by rewrite <- E; destruct s.
Qed.

(** * Messages *)

(** What libosmocore documents of its buffers and its header. *)
Class OsmocoreLaws `{Osmocore} := {
  headroom : msgb -> Z;
  tailroom : msgb -> Z;
  sizeof_msgb_nonneg : 0 <= sizeof_msgb;
  msgb_of_spec : forall n, 0 <= n -> msgb_data (msgb_of n) = [] /\ tailroom (msgb_of n) = n;
  msgb_put_fits : forall c m, len c <= tailroom m ->
    exists m', msgb_put c m = Some m' /\ msgb_data m' = msgb_data m ++ c /\ tailroom m' = tailroom m - len c;
  msgb_put_panics : forall c m, tailroom m < len c -> msgb_put c m = None;
  msgb_push_fits : forall c m, len c <= headroom m ->
    exists m', msgb_push c m = Some m' /\ msgb_data m' = c ++ msgb_data m;
  msgb_pull_spec : forall n m, 0 <= n <= len (msgb_data m) -> msgb_data (msgb_pull n m) = drop (Z.to_nat n) (msgb_data m);
  msgb_reserve_spec : forall n m, msgb_data m = [] -> 0 <= n ->
    msgb_data (msgb_reserve n m) = [] /\ tailroom (msgb_reserve n m) = tailroom m - n;
  sizeof_head_range : 0 < sizeof_head <= 128;
  len_head : forall n p, len (ipaccess_head n p) = sizeof_head;
  head_len_spec : forall n p, 0 <= n < 65536 -> head_len (ipaccess_head n p) = n;
  head_proto_spec : forall n p, 0 <= n < 65536 -> 0 <= p < 256 -> head_proto (ipaccess_head n p) = p;
  proto_range : 0 <= IPAC_PROTO_IPACCESS < 256 /\ 0 <= IPAC_PROTO_OSMO < 256 /\ IPAC_PROTO_IPACCESS <> IPAC_PROTO_OSMO;
  msg_types_distinct : NoDup [IPAC_MSGT_PING; IPAC_MSGT_PONG; IPAC_MSGT_ID_GET; IPAC_MSGT_ID_RESP; IPAC_MSGT_ID_ACK];
}.

Section Data.
Context `{OsmocoreLaws}.

(** A message as it is on the wire. *)
Definition message (proto : Z) (payload : chunk) : chunk := ipaccess_head (len payload) proto ++ payload.

Definition message_fits (payload : chunk) : Prop := len payload + sizeof_head <= IPA_ALLOC_SIZE.

Lemma length_head n p : length (ipaccess_head n p) = Z.to_nat sizeof_head.
Proof. pose proof (len_head n p). unfold len in *. lia. Qed.

Lemma read_head_octets s c h rest :
  c <> [] -> (length c <= Z.to_nat sizeof_head)%nat -> length h = Z.to_nat sizeof_head ->
  (exists c2, brings s c2 /\ h ++ rest = c ++ c2) ->
  exists s1, read_head c s = (Octets h, s1) /\ brings s1 rest /\ only_read s s1.
Proof.
  intros Nc Lc Lh (c2 & B & E). pose proof sizeof_head_range as Hs.
  assert (Ec : h = c ++ drop (length c) h /\ c2 = drop (length c) h ++ rest).
  { assert (T : take (length c) (h ++ rest) = c) by (rewrite E; apply take_app_length).
    assert (D : drop (length c) (h ++ rest) = c2) by (rewrite E; apply drop_app_length).
    rewrite take_app_le in T by lia. rewrite drop_app_le in D by lia. rewrite <- D. split; [|done].
    rewrite <- T at 1. by rewrite take_drop. }
  destruct Ec as [Eh ->]. unfold read_head, len. destruct (Z.ltb_spec (Z.of_nat (length c)) sizeof_head) as [L|L].
  - replace (Z.to_nat sizeof_head - length c)%nat with (length (drop (length c) h)) by (rewrite length_drop; lia).
    destruct (read_all_octets s _ _ B) as (s1 & -> & B1 & O1). exists s1. by rewrite <- Eh.
  - rewrite drop_ge in Eh, B by lia. rewrite app_nil_r in Eh. subst c. by exists s.
Qed.

(** A whole message that arrives is taken from the stream and processed. *)
Lemma on_stream_read_message cb i proto p rest :
  message_fits p -> 0 <= proto < 256 -> brings (sock i) (message proto p ++ rest) ->
  exists s req, brings s rest /\ only_read (sock i) s /\ msgb_data req = message proto p
    /\ on_stream_read cb i =
       match on_pdu cb proto req (allocated 1 (with_sock s i)) with
       | Returns i => Returns (true, i)
       | Waits => Waits
       | Panics => Panics
       end.
Proof.
  intros F Hp B. pose proof sizeof_head_range as Hs. pose proof (len_nonneg p) as Lp. unfold message_fits in F.
  assert (Ip : 0 <= len p < 65536) by (unfold IPA_ALLOC_SIZE in F; lia).
  set (h := ipaccess_head (len p) proto) in *.
  assert (Lh : length h = Z.to_nat sizeof_head) by apply length_head.
  unfold message in B. fold h in B. rewrite <- app_assoc in B. unfold on_stream_read.
  destruct (read_octets (Z.to_nat sizeof_head) false (sock i) (h ++ p ++ rest)) as (c1 & c2 & s1 & -> & E & B1 & O1 & N1 & L1);
    [lia|done|by destruct h; [cbn in Lh; lia|]|].
  destruct (read_head_octets s1 c1 h (p ++ rest) N1 L1 Lh) as (s2 & E2 & B2 & O2); [by exists c2|].
  destruct c1 as [|x c1]; [done|]. rewrite E2. unfold read_payload. cbn [sock with_sock].
  assert (Hl : head_len h = len p) by by apply head_len_spec. assert (Hpr : head_proto h = proto) by by apply head_proto_spec.
  rewrite Hl, Hpr.
  rewrite Z.gtb_ltb, (proj2 (Z.ltb_ge _ _)) by done.
  unfold epdg_chunk_to_msgb. pose proof sizeof_msgb_nonneg. rewrite (proj2 (Z.ltb_ge _ _)) by (unfold IPA_ALLOC_SIZE; lia).
  cbn [mbind option_bind]. replace (IPA_ALLOC_SIZE + sizeof_msgb - sizeof_msgb) with IPA_ALLOC_SIZE by lia.
  destruct (msgb_of_spec IPA_ALLOC_SIZE) as [D0 T0]; [done|].
  destruct (msgb_put_fits h (msgb_of IPA_ALLOC_SIZE)) as (m1 & -> & D1 & T1); [rewrite T0; unfold h; rewrite len_head; unfold IPA_ALLOC_SIZE; lia|].
  assert (T1' : len p <= tailroom m1) by (rewrite T1, T0; unfold h; rewrite len_head; lia).
  destruct (msgb_put_fits (replicate (Z.to_nat (len p)) 0) m1) as (mx & -> & _); [rewrite len_replicate; lia|].
  replace (Z.to_nat (len p)) with (length p) by (unfold len; lia).
  destruct (read_all_octets s2 p rest B2) as (s3 & -> & B3 & O3).
  destruct (msgb_put_fits p m1 T1') as (m2 & -> & D2 & _).
  exists s3, m2. split; [done|]. split; [by eapply only_read_trans; [|eapply only_read_trans]|]. split; [|done].
  by rewrite D2, D1, D0.
Qed.


(** The watcher calls [on_stream_read] again as long as it returns TRUE. *)
Fixpoint reads (n : nat) (cb : bool) (i : io) : ended (bool * io) :=
  match n with
  | O => Returns (true, i)
  | S n => match on_stream_read cb i with Returns (true, i) => reads n cb i | r => r end
  end.








(** The end of a connection is told from a pause by [errno] only, which reading nothing
    does not set: a thread that waited before takes it for a pause, each time it is called,
    and the others reconnect. *)
Theorem end_of_stream_by_errno cb i n :
  arrivals (sock i) = [] -> after (sock i) = Closed ->
  reads (S n) cb i = if errno (sock i) =? EWOULDBLOCK then Returns (true, i)
                     else Returns (false, emit (Reconnect (errno (sock i))) i).
Proof.
  intros A E. assert (R : on_stream_read cb i = if errno (sock i) =? EWOULDBLOCK then Returns (true, i)
                     else Returns (false, emit (Reconnect (errno (sock i))) i)).
  { unfold on_stream_read, read_. rewrite A, E. cbn [recv_]. by destruct i. }
  revert R. destruct (_ =? _) eqn:Er; intros R; cbn [reads]; rewrite R; [|done].
  induction n as [|n IH]; [done|]. cbn [reads]. by rewrite R.
Qed.

(** ** Requests for the identity *)

(** The value of a tag the client knows. *)
Definition tag_value (tag : Z) : option chunk :=
  if (tag =? IPAC_IDTAG_SERNR) || (tag =? IPAC_IDTAG_UNITNAME) then Some (c_str "SWAN-00-00-00-00-00-00")
  else if (tag =? IPAC_IDTAG_LOCATION1) || (tag =? IPAC_IDTAG_LOCATION2) || (tag =? IPAC_IDTAG_EQUIPVERS)
          || (tag =? IPAC_IDTAG_SWVERSION) then Some (c_str "00:00:00:00:00:00")
  else if tag =? IPAC_IDTAG_UNIT then Some (c_str "0/0/0")
  else None.

(** Length with the tag, tag and value. *)
Definition tag_entry (tag : Z) : chunk :=
  match tag_value tag with Some v => be_bytes 2 (len v + 1) ++ [tag mod 256] ++ v | None => [] end.

Definition id_request (tags : list Z) : chunk := IPAC_MSGT_ID_GET :: concat (map (fun tag => [1; tag]) tags).
Definition id_answer (tags : list Z) : chunk := [IPAC_MSGT_ID_RESP mod 256] ++ concat (map tag_entry tags).

(** A function that puts octets into a message, or ends the daemon if there is no room. *)
Definition puts (f : msgb -> option msgb) (c : chunk) : Prop :=
  forall m, 0 <= tailroom m ->
    (len c <= tailroom m -> exists m', f m = Some m' /\ msgb_data m' = msgb_data m ++ c /\ tailroom m' = tailroom m - len c)
    /\ (tailroom m < len c -> f m = None).

Lemma puts_put c : puts (msgb_put c) c.
Proof. intros m _. split; [apply msgb_put_fits|apply msgb_put_panics]. Qed.

Lemma puts_nothing : puts Some [].
Proof.
  intros m Hm. split; [|rewrite len_nil; lia]. intros _. exists m. rewrite app_nil_r, len_nil. repeat split. lia.
Qed.

Lemma puts_then f g a b : puts f a -> puts g b -> puts (fun m => m ← f m; g m) (a ++ b).
Proof.
  intros Pf Pg m Hm. destruct (Pf m Hm) as [F1 F2]. pose proof (len_nonneg a). pose proof (len_nonneg b). rewrite len_app.
  destruct (decide (len a <= tailroom m)) as [L|L].
  - destruct (F1 L) as (m1 & -> & D1 & T1). cbn [mbind option_bind]. destruct (Pg m1) as [G1 G2]; [lia|]. split; intros L2.
    + destruct G1 as (m2 & -> & D2 & T2); [lia|]. exists m2. rewrite D2, D1, app_assoc. repeat split. lia.
    + apply G2. lia.
  - split; [lia|]. intros _. rewrite F2 by lia. done.
Qed.

Lemma puts_tag_str tag v : puts (fun m => ipa_tag_put_str m tag v) (be_bytes 2 (len (c_str v) + 1) ++ [tag mod 256] ++ c_str v).
Proof. unfold ipa_tag_put_str. apply puts_then; [apply puts_put|]. apply puts_then; apply puts_put. Qed.

Lemma puts_tag tag : puts (fun m => ipa_resp_tag_encode m tag) (tag_entry tag).
Proof.
  unfold ipa_resp_tag_encode, tag_entry, tag_value.
  destruct (_ || _); [apply puts_tag_str|]. destruct (_ || _); [apply puts_tag_str|].
  destruct (_ =? _); [apply puts_tag_str|apply puts_nothing].
Qed.

Lemma id_tags_puts tags : forall fuel req resp,
  msgb_data req = concat (map (fun tag => [1; tag]) tags) -> (length tags <= fuel)%nat -> 0 <= tailroom resp ->
  let c := concat (map tag_entry tags) in
  (len c <= tailroom resp -> exists resp', id_tags fuel req resp = Returns (Some resp') /\ msgb_data resp' = msgb_data resp ++ c)
  /\ (tailroom resp < len c -> id_tags fuel req resp = Panics).
Proof.
  induction tags as [|tag tags IH]; intros fuel req resp D Hf Hr c; cbn [map concat] in *.
  { assert (E : id_tags fuel req resp = Returns (Some resp)).
    { destruct fuel; cbn [id_tags]; unfold msgb_length; rewrite D; done. }
    rewrite E. split; [|unfold c; rewrite len_nil; lia]. intros _. exists resp. by rewrite app_nil_r. }
  destruct fuel as [|fuel]; [cbn in Hf; lia|]. cbn [id_tags]. unfold msgb_pull_u8, msgb_length.
  set (l := concat (map (fun tag => [1; tag]) tags)) in *. pose proof (len_nonneg l). cbn [app] in D.
  rewrite D, !len_cons, (proj2 (Z.ltb_ge _ 2)) by lia. cbn [nth negb Z.eqb Pos.eqb].
  assert (D1 : msgb_data (msgb_pull 1 req) = tag :: l) by (rewrite msgb_pull_spec, D by (rewrite D, len_cons; pose proof (len_nonneg (tag :: l)); lia); done).
  rewrite D1. cbn [nth].
  assert (D2 : msgb_data (msgb_pull 1 (msgb_pull 1 req)) = l) by (rewrite msgb_pull_spec, D1 by (rewrite D1, len_cons; lia); done).
  destruct (puts_tag tag resp Hr) as [F1 F2]. unfold c. rewrite len_app. pose proof (len_nonneg (concat (map tag_entry tags))).
  destruct (decide (len (tag_entry tag) <= tailroom resp)) as [L|L].
  - destruct (F1 L) as (resp1 & -> & E1 & T1).
    destruct (IH fuel _ resp1 D2) as [G1 G2]; [cbn in Hf; lia|lia|]. split; intros L2.
    + destruct G1 as (resp2 & -> & E2); [lia|]. exists resp2. by rewrite E2, E1, app_assoc.
    + apply G2. lia.
  - split; [lia|]. intros _. by rewrite F2 by lia.
Qed.

(** The response fits its buffer, after the space that is reserved. *)
Definition answer_fits (tags : list Z) : bool := len (id_answer tags) + sizeof_head + 128 + sizeof_msgb <=? IPA_ALLOC_SIZE.

Lemma len_id_answer tags : len (id_answer tags) = 1 + len (concat (map tag_entry tags)).
Proof. unfold id_answer. cbn [app]. rewrite len_cons. lia. Qed.

Lemma send_id_resp tags req i :
  msgb_data req = message IPAC_PROTO_IPACCESS (id_request tags) -> sends (sock i) = [] ->
  ipa_pdu_base_send_id_resp req i =
    if answer_fits tags then
      Returns (with_sock (with_sent (sent (sock i) ++ message IPAC_PROTO_IPACCESS (id_answer tags)
                                     ++ message IPAC_PROTO_IPACCESS [IPAC_MSGT_ID_ACK]) (sock i)) i)
    else Panics.
Proof.
  intros D Hs. unfold ipa_pdu_base_send_id_resp, epdg_chunk_to_msgb, answer_fits. pose proof sizeof_head_range as Rh.
  pose proof (len_id_answer tags) as Ea. pose proof (len_nonneg (concat (map tag_entry tags))).
  destruct (Z.ltb_spec IPA_ALLOC_SIZE sizeof_msgb) as [L|L].
  { by rewrite (proj2 (Z.leb_gt _ _)) by lia. }
  destruct (msgb_of_spec (IPA_ALLOC_SIZE - sizeof_msgb)) as [D0 T0]; [lia|].
  destruct (msgb_reserve_spec 128 (msgb_of (IPA_ALLOC_SIZE - sizeof_msgb)) D0) as [Dr Tr]; [done|].
  set (resp := msgb_reserve 128 _) in *. unfold msgb_length, msgb_pull_u8.
  assert (D1 : msgb_data (msgb_pull sizeof_head req) = id_request tags).
  { rewrite msgb_pull_spec by (rewrite D; unfold message; rewrite len_app, len_head; pose proof (len_nonneg (id_request tags)); lia).
    rewrite D. unfold message. apply drop_app_length'. by rewrite length_head. }
  rewrite D1. unfold id_request at 1. rewrite len_cons. set (l := concat (map (fun tag => [1; tag]) tags)). pose proof (len_nonneg l).
  rewrite (proj2 (Z.ltb_ge _ 1)) by lia.
  assert (D2 : msgb_data (msgb_pull 1 (msgb_pull sizeof_head req)) = l).
  { rewrite msgb_pull_spec by (rewrite D1; unfold id_request; rewrite len_cons; fold l; lia). by rewrite D1. }
  set (head0 := ipaccess_head 0 IPAC_PROTO_IPACCESS). assert (L0 : len head0 = sizeof_head) by apply len_head.
  destruct (decide (sizeof_head <= tailroom resp)) as [Lr|Lr]; cycle 1.
  { rewrite msgb_put_panics by (fold head0; lia). cbn [mbind option_bind]. by rewrite (proj2 (Z.leb_gt _ _)) by lia. }
  destruct (msgb_put_fits head0 resp) as (r1 & -> & E1 & T1); [lia|]. cbn [mbind option_bind].
  destruct (puts_put [IPAC_MSGT_ID_RESP mod 256] r1) as [P1 P2]; [lia|]. unfold msgb_put_u8. change (len [_]) with 1 in P1, P2.
  destruct (decide (1 <= tailroom r1)) as [L1|L1]; cycle 1.
  { rewrite P2 by lia. by rewrite (proj2 (Z.leb_gt _ _)) by lia. }
  destruct (P1 L1) as (r2 & -> & E2 & T2). rewrite D2.
  destruct (id_tags_puts tags (length l) _ r2 D2) as [G1 G2]; [|lia|].
  { unfold l. clear. induction tags; cbn in *; lia. }
  destruct (Z.leb_spec (len (id_answer tags) + sizeof_head + 128 + sizeof_msgb) IPA_ALLOC_SIZE) as [Lf|Lf]; cycle 1.
  { by rewrite G2 by lia. }
  destruct G1 as (r3 & -> & E3); [lia|].
  assert (E : drop (Z.to_nat sizeof_head) (msgb_data r3) = id_answer tags).
  { rewrite E3, E2, E1, Dr, <- app_assoc. cbn [app]. apply drop_app_length'. unfold len in L0. lia. }
  rewrite E, wrap_small by (unfold IPA_ALLOC_SIZE in Lf; pose proof sizeof_msgb_nonneg; change (2 ^ 16) with 65536; lia).
  change (ipaccess_head (len (id_answer tags)) IPAC_PROTO_IPACCESS ++ id_answer tags) with (message IPAC_PROTO_IPACCESS (id_answer tags)).
  cbn [sock allocated]. rewrite write_all_accepted by done. cbn [negb]. unfold ipa_pdu_base_send_simple. cbn [sock with_sock].
  rewrite write_all_accepted by done. unfold allocated, with_sock, with_sent. cbn [sock events buffers arrivals after errno sends sent snd].
  rewrite <- app_assoc. replace (buffers i + 1 + -1) with (buffers i) by lia. done.
Qed.

(** To a request for tags the client answers with the values of those it knows, and
    acknowledges, if they fit the buffer of the response; with more tags than that the
    request ends the daemon. The buffer of the request is never freed. *)
Theorem id_request_answered cb i tags rest :
  message_fits (id_request tags) -> brings (sock i) (message IPAC_PROTO_IPACCESS (id_request tags) ++ rest) -> sends (sock i) = [] ->
  if answer_fits tags then
    exists i', on_stream_read cb i = Returns (true, i') /\ brings (sock i') rest /\ events i' = events i
      /\ sent (sock i') = sent (sock i) ++ message IPAC_PROTO_IPACCESS (id_answer tags) ++ message IPAC_PROTO_IPACCESS [IPAC_MSGT_ID_ACK]
      /\ buffers i' = buffers i + 1
  else on_stream_read cb i = Panics.
Proof.
  intros F B Hs. destruct proto_range as (Rp & _). pose proof sizeof_head_range as Rh.
  destruct (on_stream_read_message cb i IPAC_PROTO_IPACCESS (id_request tags) rest F Rp B) as (s & req & B1 & (O1 & O2 & O3) & D & ->).
  unfold on_pdu. rewrite Z.eqb_refl. unfold on_recv_ipa_pdu, msgb_length. rewrite D.
  assert (L : sizeof_head + 1 <= len (message IPAC_PROTO_IPACCESS (id_request tags))).
  { unfold message, id_request. rewrite len_app, len_head, len_cons. pose proof (len_nonneg (concat (map (fun tag => [1; tag]) tags))). lia. }
  rewrite (proj2 (Z.ltb_ge _ _)) by done.
  assert (N : nth (Z.to_nat sizeof_head) (message IPAC_PROTO_IPACCESS (id_request tags)) 0 = IPAC_MSGT_ID_GET).
  { unfold message. rewrite app_nth2 by (rewrite length_head; lia). by rewrite length_head, Nat.sub_diag. }
  rewrite N. pose proof msg_types_distinct as Nd. rewrite !NoDup_cons in Nd. destruct Nd as (N1 & N2 & _).
  rewrite (proj2 (Z.eqb_neq _ _)) by (intros E; apply N1; rewrite E; by right; left).
  rewrite (proj2 (Z.eqb_neq _ _)) by (intros E; apply N2; rewrite E; by left). rewrite Z.eqb_refl.
  rewrite (send_id_resp tags) by (cbn; congruence). destruct (answer_fits tags); [|done].
  eexists. split; [done|]. cbn. rewrite O3. done.
Qed.

End Data.

(** * Examples *)

(** Message buffers with the room at both ends, and the numbers of the protocol. *)
Record example_msgb := ExampleMsgb { ex_data : chunk; ex_headroom : Z; ex_tailroom : Z }.

Definition example_put (c : chunk) (m : example_msgb) : option example_msgb :=
  if len c <=? ex_tailroom m then Some (ExampleMsgb (ex_data m ++ c) (ex_headroom m) (ex_tailroom m - len c)) else None.
Definition example_push (c : chunk) (m : example_msgb) : option example_msgb :=
  if len c <=? ex_headroom m then Some (ExampleMsgb (c ++ ex_data m) (ex_headroom m - len c) (ex_tailroom m)) else None.

Definition example_osmocore : Osmocore :=
  {| msgb := example_msgb; sizeof_msgb := 160; msgb_of n := ExampleMsgb [] 0 n; msgb_data := ex_data;
     msgb_put := example_put; msgb_push := example_push;
     msgb_pull n m := ExampleMsgb (drop (Z.to_nat n) (ex_data m)) (ex_headroom m + n) (ex_tailroom m);
     msgb_reserve n m := ExampleMsgb (ex_data m) (ex_headroom m + n) (ex_tailroom m - n);
     sizeof_head := 3; ipaccess_head n p := be_bytes 2 n ++ [p]; head_len h := be_val (take 2 h); head_proto h := nth 2 h 0;
     IPAC_PROTO_IPACCESS := 254; IPAC_PROTO_OSMO := 238; IPAC_MSGT_PING := 0; IPAC_MSGT_PONG := 1; IPAC_MSGT_ID_GET := 4;
     IPAC_MSGT_ID_RESP := 5; IPAC_MSGT_ID_ACK := 6; IPAC_IDTAG_SERNR := 0; IPAC_IDTAG_UNITNAME := 1; IPAC_IDTAG_LOCATION1 := 2;
     IPAC_IDTAG_LOCATION2 := 3; IPAC_IDTAG_EQUIPVERS := 4; IPAC_IDTAG_SWVERSION := 5; IPAC_IDTAG_UNIT := 8 |}.

Definition example_osmocore_laws : OsmocoreLaws (H := example_osmocore).
Proof.
  apply (@Build_OsmocoreLaws example_osmocore ex_headroom ex_tailroom); cbn; try done.
  - intros c m L. unfold example_put. rewrite (proj2 (Z.leb_le _ _)) by done. by eexists.
  - intros c m L. unfold example_put. by rewrite (proj2 (Z.leb_gt _ _)) by done.
  - intros c m L. unfold example_push. rewrite (proj2 (Z.leb_le _ _)) by done. by eexists.
  - intros n p R. change (be_val (be_bytes 2 n) = n). rewrite be_val_be_bytes. apply Z.mod_small. done.
  - apply (bool_decide_unpack _). vm_compute. exact I.
Defined.

Definition example_stream (l : list arrival) (e : ending) (no : Z) : stream :=
  {| arrivals := l; after := e; errno := no; sends := []; sent := [] |}.

Definition example_io (l : list arrival) (e : ending) (no : Z) : io :=
  {| sock := example_stream l e no; events := []; buffers := 0 |}.

Lemma connection_tended_witness :
  exists s, run (replicate 3 (Creator false)) osmo_epdg_ipa_client_create = Next s /\ (jobs s = 1%nat \/ jobs s = 0%nat /\ watched s).
Proof.
  eexists. split; [reflexivity|].
  refine (proj1 (connection_tended (replicate 3 (Creator false)) _ _ _)); [reflexivity|by left].
Defined.



Lemma end_of_stream_by_errno_witness :
  reads (H := example_osmocore) 3 true (example_io [] Closed EWOULDBLOCK) = Returns (true, example_io [] Closed EWOULDBLOCK).
Proof. apply (end_of_stream_by_errno (H := example_osmocore) true (example_io [] Closed EWOULDBLOCK) 2); reflexivity. Defined.

Lemma id_request_answered_witness :
  answer_fits (H := example_osmocore) [8; 1] = true /\
  exists i', on_stream_read (H := example_osmocore) true (example_io [Segment [0; 5; 254; 4; 1; 8; 1; 1]] Waiting 0) = Returns (true, i')
    /\ buffers i' = 1.
Proof.
  split; [reflexivity|].
  pose proof (id_request_answered (H := example_osmocore) (H0 := example_osmocore_laws) true
                (example_io [Segment [0; 5; 254; 4; 1; 8; 1; 1]] Waiting 0) [8; 1] []) as A.
  change (answer_fits (H := example_osmocore) [8; 1]) with true in A. cbv iota in A.
  destruct A as (i' & E & _ & _ & _ & B); [vm_compute; discriminate|split; [repeat constructor; discriminate|reflexivity]|reflexivity|].
  exists i'. split; [exact E|exact B].
Defined.

(** Forty-two requested tags are too many. *)
Example id_request_panics : answer_fits (H := example_osmocore) (replicate 42 0) = false.
Proof. reflexivity. Qed.
