(* ===== verification/IkeSaManager.v ===== *)
(** The manager of the IKE_SAs: libcharon/sa/ike_sa_manager.c, with the identifiers of
    libcharon/sa/ike_sa_id.c. Threads check IKE_SAs out and in; what a thread does between
    taking a lock and giving it back, or waiting on a condition variable, is one step, and
    a run is any sequence of steps of any threads. Entries and IKE_SAs are in memory, so
    that using a freed one is a result. *)

From stdpp Require Import gmap.
From S2P Require Import Prelude Host.
From S2P Require Hash TaskManager.

(** * Identifiers *)

Definition IKEV1_MAJOR_VERSION : Z := 1.
Definition IKEV2_MAJOR_VERSION : Z := 2.

Record ike_sa_id_t := Ike_sa_id { ike_version : Z; initiator_spi : Z; responder_spi : Z; is_initiator_flag : bool }.

Definition set_responder_spi (x : Z) (this : ike_sa_id_t) : ike_sa_id_t :=
  Ike_sa_id (ike_version this) (initiator_spi this) x (is_initiator_flag this).
Definition set_initiator_spi (x : Z) (this : ike_sa_id_t) : ike_sa_id_t :=
  Ike_sa_id (ike_version this) x (responder_spi this) (is_initiator_flag this).
Definition switch_initiator (this : ike_sa_id_t) : ike_sa_id_t :=
  Ike_sa_id (ike_version this) (initiator_spi this) (responder_spi this) (negb (is_initiator_flag this)).

Definition equals (this other : ike_sa_id_t) : bool :=
  (ike_version this =? ike_version other)
  && ((ike_version this =? IKEV1_MAJOR_VERSION) || Bool.eqb (is_initiator_flag this) (is_initiator_flag other))
  && (initiator_spi this =? initiator_spi other) && (responder_spi this =? responder_spi other).

(** [entry_match_by_id] *)
Definition match_by_id (id entry_id : ike_sa_id_t) : bool :=
  equals id entry_id
  || (((responder_spi id =? 0) || (responder_spi entry_id =? 0))
      && ((ike_version id =? IKEV1_MAJOR_VERSION) || Bool.eqb (is_initiator_flag id) (is_initiator_flag entry_id))
      && (initiator_spi id =? initiator_spi entry_id)).

(** Our SPI, as far as we know which it is. *)
Definition local_spi (id : ike_sa_id_t) : Z :=
  if (ike_version id =? IKEV1_MAJOR_VERSION) || is_initiator_flag id then initiator_spi id else responder_spi id.

Definition ike_sa_id_hash (id : ike_sa_id_t) : Z := u32 (local_spi id).

(** * What the manager reads *)

(** Of an IKE_SA: its identifier, its state and the address of the peer. *)
Record ike_sa_t := { sa_id : ike_sa_id_t; sa_state : TaskManager.ike_sa_state; sa_other : host_t }.

(** Exchanges of messages, as far as they are told apart. *)
Inductive exchange_type := IKE_SA_INIT | ID_PROT | AGGRESSIVE | QUICK_MODE | Other_exchange.

(** Of a message: its SPIs, header, whether it is a fragment, the hash of its packet, and
    what [get_init_hash] makes of it. *)
Record message_t := {
  m_id : ike_sa_id_t;
  message_id : Z;
  major_version : Z;
  exchange : exchange_type;
  is_request : bool;
  is_fragment : bool;
  packet_hash : Z;
  get_init_hash : option chunk;
}.

(** [get_message_id_or_hash] *)
Definition get_message_id_or_hash (m : message_t) : Z :=
  if (major_version m =? IKEV1_MAJOR_VERSION)
     && ((message_id m =? 0) || match exchange m with QUICK_MODE => true | _ => false end)
  then packet_hash m else message_id m.

(** Whether a message starts an IKE_SA. *)
Definition is_init (m : message_t) : bool :=
  (responder_spi (m_id m) =? 0) && (message_id m =? 0)
  && if major_version m =? IKEV2_MAJOR_VERSION
     then match exchange m with IKE_SA_INIT => is_request m | _ => false end
     else match exchange m with ID_PROT | AGGRESSIVE => true | _ => false end.

(** * Entries *)

Definition thread := nat.

(** [sleepers] are the threads that wait on the condition variable and were not woken. *)
Record entry_t := {
  waiting_threads : Z;
  checked_out : option thread;
  driveout_new_threads : bool;
  driveout_waiting_threads : bool;
  ike_sa_id : ike_sa_id_t;
  ike_sa : nat;
  init_hash : option chunk;
  other : option host_t;
  half_open : bool;
  processing : Z;
  sleepers : list thread;
}.

Definition with_waiting_threads x e := {| waiting_threads := x; checked_out := checked_out e; driveout_new_threads :=
  driveout_new_threads e; driveout_waiting_threads := driveout_waiting_threads e; ike_sa_id := ike_sa_id e; ike_sa :=
  ike_sa e; init_hash := init_hash e; other := other e; half_open := half_open e; processing := processing e; sleepers
  := sleepers e |}.
Definition with_checked_out x e := {| waiting_threads := waiting_threads e; checked_out := x; driveout_new_threads :=
  driveout_new_threads e; driveout_waiting_threads := driveout_waiting_threads e; ike_sa_id := ike_sa_id e; ike_sa :=
  ike_sa e; init_hash := init_hash e; other := other e; half_open := half_open e; processing := processing e; sleepers
  := sleepers e |}.
Definition with_driveout_new_threads x e := {| waiting_threads := waiting_threads e; checked_out := checked_out e;
  driveout_new_threads := x; driveout_waiting_threads := driveout_waiting_threads e; ike_sa_id := ike_sa_id e; ike_sa :=
  ike_sa e; init_hash := init_hash e; other := other e; half_open := half_open e; processing := processing e; sleepers
  := sleepers e |}.
Definition with_driveout_waiting_threads x e := {| waiting_threads := waiting_threads e; checked_out := checked_out e;
  driveout_new_threads := driveout_new_threads e; driveout_waiting_threads := x; ike_sa_id := ike_sa_id e; ike_sa :=
  ike_sa e; init_hash := init_hash e; other := other e; half_open := half_open e; processing := processing e; sleepers
  := sleepers e |}.
Definition with_ike_sa_id x e := {| waiting_threads := waiting_threads e; checked_out := checked_out e;
  driveout_new_threads := driveout_new_threads e; driveout_waiting_threads := driveout_waiting_threads e; ike_sa_id :=
  x; ike_sa := ike_sa e; init_hash := init_hash e; other := other e; half_open := half_open e; processing := processing
  e; sleepers := sleepers e |}.
Definition with_ike_sa x e := {| waiting_threads := waiting_threads e; checked_out := checked_out e;
  driveout_new_threads := driveout_new_threads e; driveout_waiting_threads := driveout_waiting_threads e; ike_sa_id :=
  ike_sa_id e; ike_sa := x; init_hash := init_hash e; other := other e; half_open := half_open e; processing :=
  processing e; sleepers := sleepers e |}.
Definition with_init_hash x e := {| waiting_threads := waiting_threads e; checked_out := checked_out e;
  driveout_new_threads := driveout_new_threads e; driveout_waiting_threads := driveout_waiting_threads e; ike_sa_id :=
  ike_sa_id e; ike_sa := ike_sa e; init_hash := x; other := other e; half_open := half_open e; processing := processing
  e; sleepers := sleepers e |}.
Definition with_other x e := {| waiting_threads := waiting_threads e; checked_out := checked_out e;
  driveout_new_threads := driveout_new_threads e; driveout_waiting_threads := driveout_waiting_threads e; ike_sa_id :=
  ike_sa_id e; ike_sa := ike_sa e; init_hash := init_hash e; other := x; half_open := half_open e; processing :=
  processing e; sleepers := sleepers e |}.
Definition with_half_open x e := {| waiting_threads := waiting_threads e; checked_out := checked_out e;
  driveout_new_threads := driveout_new_threads e; driveout_waiting_threads := driveout_waiting_threads e; ike_sa_id :=
  ike_sa_id e; ike_sa := ike_sa e; init_hash := init_hash e; other := other e; half_open := x; processing := processing
  e; sleepers := sleepers e |}.
Definition with_processing x e := {| waiting_threads := waiting_threads e; checked_out := checked_out e;
  driveout_new_threads := driveout_new_threads e; driveout_waiting_threads := driveout_waiting_threads e; ike_sa_id :=
  ike_sa_id e; ike_sa := ike_sa e; init_hash := init_hash e; other := other e; half_open := half_open e; processing :=
  x; sleepers := sleepers e |}.
Definition with_sleepers x e := {| waiting_threads := waiting_threads e; checked_out := checked_out e;
  driveout_new_threads := driveout_new_threads e; driveout_waiting_threads := driveout_waiting_threads e; ike_sa_id :=
  ike_sa_id e; ike_sa := ike_sa e; init_hash := init_hash e; other := other e; half_open := half_open e; processing :=
  processing e; sleepers := x |}.

(** [-1] as uint32_t *)
Definition no_message : Z := u32 (-1).

Definition entry_create (id : ike_sa_id_t) (sa : nat) : entry_t :=
  {| waiting_threads := 0; checked_out := None; driveout_new_threads := false; driveout_waiting_threads := false;
     ike_sa_id := id; ike_sa := sa; init_hash := None; other := None; half_open := false; processing := no_message; sleepers := [] |}.

(** Waking one thread, whichever the system chooses, or all. *)
Definition signal (who : nat) (e : entry_t) : entry_t :=
  with_sleepers (delete (Nat.min who (pred (length (sleepers e)))) (sleepers e)) e.
Definition broadcast (e : entry_t) : entry_t := with_sleepers [] e.

(** [wait_for_entry]: the entry is free for the thread, refused, or the thread sleeps. *)
Inductive verdict := Acquired | Refused | Asleep.

Definition wait_loop (who : nat) (t : thread) (e : entry_t) : verdict * entry_t :=
  if match checked_out e with Some _ => negb (driveout_waiting_threads e) | None => false end then
    (Asleep, with_sleepers (sleepers e ++ [t]) (with_waiting_threads (waiting_threads e + 1) e))
  else if driveout_waiting_threads e then (Refused, signal who e)
  else (Acquired, e).

Definition wait_for_entry (who : nat) (t : thread) (e : entry_t) : verdict * entry_t :=
  if driveout_new_threads e then (Refused, e) else wait_loop who t e.

(** A thread that was woken goes on in the loop. *)
Definition woken (who : nat) (t : thread) (e : entry_t) : verdict * entry_t :=
  wait_loop who t (with_waiting_threads (waiting_threads e - 1) e).

(** * The manager *)

Record half_open_t := Half_open { ho_other : chunk; ho_count : Z; ho_count_responder : Z }.

(** The configuration: masks of the tables, and what is set by the user. *)
Record config := {
  table_mask : Z;
  segment_mask : Z;
  ikesa_limit : Z;
  spi_mask : Z;
  spi_label : Z;
}.

(** What a thread was about to do with an entry it waits for. *)
Inductive purpose := To_checkout | To_process (m : message_t) (id : ike_sa_id_t).

(** Where a thread is: outside of the manager; waiting for an entry; in
    [checkout_by_message] after its message was not seen before, with room for a new
    IKE_SA, about to forget the message again, or after it was seen; in
    [checkin_and_destroy] waiting for the other threads, and about to remove the entry's
    half-open state, its hash, and to free it. *)
Inductive pc :=
| Idle
| Waiting (e : nat) (p : purpose)
| New_message (m : message_t) (id : ike_sa_id_t) (hash : chunk)
| Room (m : message_t) (id : ike_sa_id_t) (hash : chunk)
| Forgetting (hash : chunk)
| Looking (m : message_t) (id : ike_sa_id_t)
| Driving (e : nat)
| Closing (e : nat)
| Unhashing (e : nat)
| Freeing (e : nat).

(** Tables are rows of items; those of the IKE_SAs hold addresses of entries. The mutex of
    a segment of the init hashes may be left locked by a thread. [held] are the IKE_SAs
    that threads hold, by what they were given. The counters are integers of any size. *)
Record manager := {
  ike_sa_table : gmap Z (list nat);
  heap : gmap nat entry_t;
  sas : gmap nat ike_sa_t;
  half_open_table : gmap Z (list half_open_t);
  half_open_count : Z;
  half_open_count_responder : Z;
  total_sa_count : Z;
  init_hashes_table : gmap Z (list (chunk * Z));
  init_locked : gmap Z thread;
  threads : gmap thread pc;
  held : list (thread * nat);
}.

Definition with_ike_sa_table x s := {| ike_sa_table := x; heap := heap s; sas := sas s; half_open_table :=
  half_open_table s; half_open_count := half_open_count s; half_open_count_responder := half_open_count_responder s;
  total_sa_count := total_sa_count s; init_hashes_table := init_hashes_table s; init_locked := init_locked s; threads :=
  threads s; held := held s |}.
Definition with_heap x s := {| ike_sa_table := ike_sa_table s; heap := x; sas := sas s; half_open_table :=
  half_open_table s; half_open_count := half_open_count s; half_open_count_responder := half_open_count_responder s;
  total_sa_count := total_sa_count s; init_hashes_table := init_hashes_table s; init_locked := init_locked s; threads :=
  threads s; held := held s |}.
Definition with_sas x s := {| ike_sa_table := ike_sa_table s; heap := heap s; sas := x; half_open_table :=
  half_open_table s; half_open_count := half_open_count s; half_open_count_responder := half_open_count_responder s;
  total_sa_count := total_sa_count s; init_hashes_table := init_hashes_table s; init_locked := init_locked s; threads :=
  threads s; held := held s |}.
Definition with_half_open_table x s := {| ike_sa_table := ike_sa_table s; heap := heap s; sas := sas s;
  half_open_table := x; half_open_count := half_open_count s; half_open_count_responder := half_open_count_responder s;
  total_sa_count := total_sa_count s; init_hashes_table := init_hashes_table s; init_locked := init_locked s; threads :=
  threads s; held := held s |}.
Definition with_half_open_count x s := {| ike_sa_table := ike_sa_table s; heap := heap s; sas := sas s;
  half_open_table := half_open_table s; half_open_count := x; half_open_count_responder := half_open_count_responder s;
  total_sa_count := total_sa_count s; init_hashes_table := init_hashes_table s; init_locked := init_locked s; threads :=
  threads s; held := held s |}.
Definition with_half_open_count_responder x s := {| ike_sa_table := ike_sa_table s; heap := heap s; sas := sas s;
  half_open_table := half_open_table s; half_open_count := half_open_count s; half_open_count_responder := x;
  total_sa_count := total_sa_count s; init_hashes_table := init_hashes_table s; init_locked := init_locked s; threads :=
  threads s; held := held s |}.
Definition with_total_sa_count x s := {| ike_sa_table := ike_sa_table s; heap := heap s; sas := sas s; half_open_table
  := half_open_table s; half_open_count := half_open_count s; half_open_count_responder := half_open_count_responder s;
  total_sa_count := x; init_hashes_table := init_hashes_table s; init_locked := init_locked s; threads := threads s;
  held := held s |}.
Definition with_init_hashes_table x s := {| ike_sa_table := ike_sa_table s; heap := heap s; sas := sas s;
  half_open_table := half_open_table s; half_open_count := half_open_count s; half_open_count_responder :=
  half_open_count_responder s; total_sa_count := total_sa_count s; init_hashes_table := x; init_locked := init_locked s;
  threads := threads s; held := held s |}.
Definition with_init_locked x s := {| ike_sa_table := ike_sa_table s; heap := heap s; sas := sas s; half_open_table :=
  half_open_table s; half_open_count := half_open_count s; half_open_count_responder := half_open_count_responder s;
  total_sa_count := total_sa_count s; init_hashes_table := init_hashes_table s; init_locked := x; threads := threads s;
  held := held s |}.
Definition with_threads x s := {| ike_sa_table := ike_sa_table s; heap := heap s; sas := sas s; half_open_table :=
  half_open_table s; half_open_count := half_open_count s; half_open_count_responder := half_open_count_responder s;
  total_sa_count := total_sa_count s; init_hashes_table := init_hashes_table s; init_locked := init_locked s; threads :=
  x; held := held s |}.
Definition with_held x s := {| ike_sa_table := ike_sa_table s; heap := heap s; sas := sas s; half_open_table :=
  half_open_table s; half_open_count := half_open_count s; half_open_count_responder := half_open_count_responder s;
  total_sa_count := total_sa_count s; init_hashes_table := init_hashes_table s; init_locked := init_locked s; threads :=
  threads s; held := x |}.

Definition row {A} (table : gmap Z (list A)) (r : Z) : list A := default [] (table !! r).

(** A step is done, it cannot be done now, or it uses freed memory. *)
Inductive stepped := Next (s : manager) | Stuck | Crash.

Definition goto (t : thread) (p : pc) (s : manager) : manager := with_threads (<[t := p]> (threads s)) s.
Definition pc_of (s : manager) (t : thread) : pc := default Idle (threads s !! t).

Definition load (e : nat) (s : manager) (next : entry_t -> stepped) : stepped :=
  match heap s !! e with Some x => next x | None => Crash end.
Definition store (e : nat) (x : entry_t) (s : manager) : manager := with_heap (<[e := x]> (heap s)) s.
Definition load_sa (sa : nat) (s : manager) (next : ike_sa_t -> stepped) : stepped :=
  match sas s !! sa with Some x => next x | None => Crash end.
Definition store_sa (sa : nat) (x : ike_sa_t) (s : manager) : manager := with_sas (<[sa := x]> (sas s)) s.

Definition give (t : thread) (sa : nat) (s : manager) : manager := with_held ((t, sa) :: held s) s.
Definition take_back (t : thread) (sa : nat) (s : manager) : manager :=
  with_held (filter (fun x => x <> (t, sa)) (held s)) s.

Section Manager.
Context (cfg : config) (hash_key : chunk).

Definition chunk_hash (c : chunk) : Z := Hash.SipHash.chunk_hash hash_key c.

Definition row_of (hash : Z) : Z := Z.land hash (table_mask cfg).

(** [get_spi], with what the callback or the generator of random numbers returns. *)
Definition get_spi (random : option Z) : Z :=
  match random with
  | None | Some 0 => 0
  | Some spi => Z.lor (Z.land spi (Z.lxor (spi_mask cfg) (u64 (-1)))) (spi_label cfg)
  end.

(** ** The table of IKE_SAs *)

Definition put_entry (e : nat) (x : entry_t) (s : manager) : manager :=
  let r := row_of (ike_sa_id_hash (ike_sa_id x)) in
  with_total_sa_count (total_sa_count s + 1) (with_ike_sa_table (<[r := e :: row (ike_sa_table s) r]> (ike_sa_table s)) (store e x s)).

Fixpoint remove_first (e : nat) (l : list nat) : option (list nat) :=
  match l with
  | [] => None
  | x :: l => if (x =? e)%nat then Some l else l ← remove_first e l; Some (x :: l)
  end.

Definition remove_entry (e : nat) (x : entry_t) (s : manager) : manager :=
  let r := row_of (ike_sa_id_hash (ike_sa_id x)) in
  match remove_first e (row (ike_sa_table s) r) with
  | Some l => with_total_sa_count (total_sa_count s - 1) (with_ike_sa_table (<[r := l]> (ike_sa_table s)) s)
  | None => s
  end.

(** The first entry of a row that matches; [None] if one on the way was freed. *)
Fixpoint find_match (match_ : entry_t -> bool) (h : gmap nat entry_t) (l : list nat) : option (option (nat * entry_t)) :=
  match l with
  | [] => Some None
  | e :: l =>
    x ← h !! e;
    if match_ x then Some (Some (e, x)) else find_match match_ h l
  end.

(** [get_entry_by_match_function]; the segment is locked until the end of the step. *)
Definition get_entry (id : ike_sa_id_t) (match_ : entry_t -> bool) (s : manager) (found : nat -> entry_t -> stepped) (not_found : stepped) : stepped :=
  match find_match match_ (heap s) (row (ike_sa_table s) (row_of (ike_sa_id_hash id))) with
  | None => Crash
  | Some None => not_found
  | Some (Some (e, x)) => found e x
  end.

Definition get_entry_by_id (id : ike_sa_id_t) := get_entry id (fun x => match_by_id id (ike_sa_id x)).
Definition get_entry_by_sa (id : ike_sa_id_t) (sa : nat) := get_entry id (fun x => (ike_sa x =? sa)%nat).

(** ** Half-open IKE_SAs *)

Definition counts (responder : bool) : Z := if responder then 1 else 0.

Fixpoint count_half_open (addr : chunk) (responder : bool) (l : list half_open_t) : option (list half_open_t) :=
  match l with
  | [] => None
  | h :: l =>
    if bool_decide (addr = ho_other h)
    then Some (Half_open (ho_other h) (ho_count h + 1) (ho_count_responder h + counts responder) :: l)
    else l ← count_half_open addr responder l; Some (h :: l)
  end.

Fixpoint uncount_half_open (addr : chunk) (responder : bool) (l : list half_open_t) : option (list half_open_t) :=
  match l with
  | [] => None
  | h :: l =>
    if bool_decide (addr = ho_other h) then
      if ho_count h - 1 =? 0 then Some l
      else Some (Half_open (ho_other h) (ho_count h - 1) (ho_count_responder h - counts responder) :: l)
    else l ← uncount_half_open addr responder l; Some (h :: l)
  end.

Definition is_responder (x : entry_t) : bool := negb (is_initiator_flag (ike_sa_id x)).
Definition address_of (x : entry_t) : chunk := match other x with Some h => get_address h | None => [] end.

Definition put_half_open (x : entry_t) (s : manager) : manager :=
  let r := row_of (chunk_hash (address_of x)) in
  let l := row (half_open_table s) r in
  let l := match count_half_open (address_of x) (is_responder x) l with
           | Some l => l
           | None => Half_open (address_of x) 1 (counts (is_responder x)) :: l
           end in
  with_half_open_count (half_open_count s + 1) (with_half_open_count_responder (half_open_count_responder s + counts (is_responder x))
    (with_half_open_table (<[r := l]> (half_open_table s)) s)).

Definition remove_half_open (x : entry_t) (s : manager) : manager :=
  let r := row_of (chunk_hash (address_of x)) in
  match uncount_half_open (address_of x) (is_responder x) (row (half_open_table s) r) with
  | Some l =>
    with_half_open_count (half_open_count s - 1) (with_half_open_count_responder (half_open_count_responder s - counts (is_responder x))
      (with_half_open_table (<[r := l]> (half_open_table s)) s))
  | None => s
  end.

Definition get_count (s : manager) : Z := total_sa_count s.

Definition get_half_open_count (ip : option host_t) (responder_only : bool) (s : manager) : Z :=
  match ip with
  | Some ip =>
    match find (fun h => bool_decide (get_address ip = ho_other h)) (row (half_open_table s) (row_of (chunk_hash (get_address ip)))) with
    | Some h => if responder_only then ho_count_responder h else ho_count h
    | None => 0
    end
  | None => if responder_only then half_open_count_responder s else half_open_count s
  end.

(** ** Hashes of initial messages *)

(** The mutex of the segment of a hash, unless another thread left it locked. *)
Definition with_hash_segment (t : thread) (hash : chunk) (s : manager) (next : Z -> Z -> stepped) : stepped :=
  let r := row_of (chunk_hash hash) in
  let segment := Z.land r (segment_mask cfg) in
  match init_locked s !! segment with
  | Some t' => if (t =? t')%nat then next r segment else Stuck
  | None => next r segment
  end.

Fixpoint find_hash (hash : chunk) (l : list (chunk * Z)) : option Z :=
  match l with
  | [] => None
  | (h, spi) :: l => if bool_decide (hash = h) then Some spi else find_hash hash l
  end.

Fixpoint remove_hash (hash : chunk) (l : list (chunk * Z)) : list (chunk * Z) :=
  match l with
  | [] => []
  | (h, spi) :: l => if bool_decide (hash = h) then l else (h, spi) :: remove_hash hash l
  end.

(** [check_and_put_init_hash]; if no SPI can be allocated its mutex is not unlocked. *)
Definition check_and_put_init_hash (t : thread) (hash : chunk) (random : option Z) (s : manager)
    (already_done not_found : Z -> manager -> stepped) (failed : manager -> stepped) : stepped :=
  with_hash_segment t hash s (fun r segment =>
    match find_hash hash (row (init_hashes_table s) r) with
    | Some spi => already_done spi s
    | None =>
      let spi := get_spi random in
      if spi =? 0 then failed (with_init_locked (<[segment := t]> (init_locked s)) s)
      else not_found spi (with_init_hashes_table (<[r := (hash, spi) :: row (init_hashes_table s) r]> (init_hashes_table s)) s)
    end).

Definition remove_init_hash (t : thread) (hash : chunk) (s : manager) (next : manager -> stepped) : stepped :=
  with_hash_segment t hash s (fun r _ =>
    next (with_init_hashes_table (<[r := remove_hash hash (row (init_hashes_table s) r)]> (init_hashes_table s)) s)).

(** ** Checking out *)

(** What a thread does with an entry that is free for it. *)
Definition acquire (t : thread) (p : purpose) (e : nat) (x : entry_t) (s : manager) : stepped :=
  let x := with_checked_out (Some t) x in
  match p with
  | To_checkout => Next (goto t Idle (give t (ike_sa x) (store e x s)))
  | To_process m id =>
    let x := if is_fragment m then x else with_processing (get_message_id_or_hash m) x in
    load_sa (ike_sa x) s (fun sa =>
      let id' := sa_id sa in
      let sa := if responder_spi id' =? 0
                then {| sa_id := set_responder_spi (responder_spi id) id'; sa_state := sa_state sa; sa_other := sa_other sa |}
                else sa in
      Next (goto t Idle (give t (ike_sa x) (store_sa (ike_sa x) sa (store e x s)))))
  end.

Definition judged (t : thread) (p : purpose) (e : nat) (v : verdict * entry_t) (s : manager) : stepped :=
  match v with
  | (Acquired, x) => acquire t p e x s
  | (Refused, x) => Next (goto t Idle (store e x s))
  | (Asleep, x) => Next (goto t (Waiting e p) (store e x s))
  end.

Definition checkout (who : nat) (t : thread) (id : ike_sa_id_t) (s : manager) : stepped :=
  get_entry_by_id id s (fun e x => judged t To_checkout e (wait_for_entry who t x) s) (Next s).

(** [create_new]: the thread holds an IKE_SA the manager does not know. *)
Definition create_new (t : thread) (version : Z) (initiator : bool) (random : option Z) (peer : host_t) (s : manager) : stepped :=
  let spi := get_spi random in
  if spi =? 0 then Next s
  else
    let id := if initiator then Ike_sa_id version spi 0 true else Ike_sa_id version 0 spi false in
    let sa := fresh (dom (sas s)) in
    Next (give t sa (store_sa sa {| sa_id := id; sa_state := TaskManager.IKE_CREATED; sa_other := peer |} s)).

Definition is_connecting (sa : ike_sa_t) : bool := match sa_state sa with TaskManager.IKE_CONNECTING => true | _ => false end.

Definition create_and_put_entry (sa : nat) (x : ike_sa_t) (s : manager) (next : nat -> entry_t -> manager -> stepped) : stepped :=
  let e := fresh (dom (heap s)) in
  let y := entry_create (sa_id x) sa in
  if is_connecting x then
    let y := with_other (Some (sa_other x)) (with_half_open true y) in
    next e y (put_entry e y (put_half_open y s))
  else next e y (put_entry e y s).

Definition checkout_new (t : thread) (sa : nat) (s : manager) : stepped :=
  load_sa sa s (fun x => create_and_put_entry sa x s (fun e y s => Next (store e (with_checked_out (Some t) y) s))).

(** The rest of [checkout_by_message] for a message that was seen before, or that belongs
    to an IKE_SA. *)
Definition find_by_message (who : nat) (t : thread) (m : message_t) (id : ike_sa_id_t) (s : manager) : stepped :=
  get_entry_by_id id s
    (fun e x => if processing x =? get_message_id_or_hash m then Next (goto t Idle s)
                else judged t (To_process m id) e (wait_for_entry who t x) s)
    (Next (goto t Idle s)).

Definition checkout_by_message (t : thread) (m : message_t) (random : option Z) (s : manager) : stepped :=
  let id := switch_initiator (m_id m) in
  if is_init m then
    let id := if negb (major_version m =? IKEV2_MAJOR_VERSION) && is_initiator_flag id then switch_initiator id else id in
    match get_init_hash m with
    | None => Next s
    | Some hash =>
      check_and_put_init_hash t hash random s
        (fun spi s => Next (goto t (Looking m (set_responder_spi spi id)) s))
        (fun spi s => Next (goto t (New_message m (set_responder_spi spi id) hash) s))
        (fun s => Next s)
    end
  else Next (goto t (Looking m id) s).

(** The new IKE_SA of an initial message, if it can be created. *)
Definition put_new (ok : bool) (t : thread) (m : message_t) (id : ike_sa_id_t) (hash : chunk) (peer : host_t) (s : manager) : stepped :=
  if ok then
    let sa := fresh (dom (sas s)) in
    let e := fresh (dom (heap s)) in
    let x := with_checked_out (Some t) (with_init_hash (Some hash) (with_processing (get_message_id_or_hash m) (entry_create id sa))) in
    Next (goto t Idle (give t sa (put_entry e x (store_sa sa {| sa_id := id; sa_state := TaskManager.IKE_CREATED; sa_other := peer |} s))))
  else Next (goto t (Forgetting hash) s).

(** ** Checking in *)

Definition checkin (who : nat) (t : thread) (sa : nat) (s : manager) : stepped :=
  load_sa sa s (fun y =>
    let s := take_back t sa s in
    get_entry_by_sa (sa_id y) sa s
      (fun e x =>
        let x := with_processing no_message (with_checked_out None (with_ike_sa_id (sa_id y) x)) in
        if half_open x && negb (is_connecting y) then
          let x := with_half_open false x in
          Next (store e (signal who x) (remove_half_open x s))
        else if half_open x && negb match other x with Some h => ip_equals (sa_other y) h | None => false end then
          let s := remove_half_open x s in
          let x := with_other (Some (sa_other y)) x in
          Next (store e (signal who x) (put_half_open x s))
        else if negb (half_open x) && is_connecting y then
          let x := with_other (Some (sa_other y)) (with_half_open true x) in
          Next (store e (signal who x) (put_half_open x s))
        else Next (store e (signal who x) s))
      (create_and_put_entry sa y s (fun _ _ s => Next s))).

(** The loop of [checkin_and_destroy]. *)
Definition drive_out (t : thread) (e : nat) (x : entry_t) (s : manager) : stepped :=
  if waiting_threads x =? 0 then Next (goto t (Closing e) (remove_entry e x (store e x s)))
  else
    let x := broadcast x in
    Next (goto t (Driving e) (store e (with_sleepers (sleepers x ++ [t]) x) s)).

Definition checkin_and_destroy (t : thread) (sa : nat) (s : manager) : stepped :=
  load_sa sa s (fun y =>
    let s := take_back t sa s in
    get_entry_by_sa (sa_id y) sa s
      (fun e x =>
        if driveout_waiting_threads x && driveout_new_threads x then Next (store e (broadcast (with_checked_out None x)) s)
        else drive_out t e (with_driveout_new_threads true (with_driveout_waiting_threads true x)) s)
      (Next (with_sas (delete sa (sas s)) s))).

(** [new_initiator_spi], by the thread that holds the IKE_SA. *)
Definition new_initiator_spi (who : nat) (sa : nat) (random : option Z) (s : manager) : stepped :=
  load_sa sa s (fun y =>
    if negb (is_connecting y) || negb (is_initiator_flag (sa_id y)) || (get_spi random =? 0) then Next s
    else
      get_entry_by_sa (sa_id y) sa s
        (fun e x =>
          if driveout_waiting_threads x && driveout_new_threads x then Next s
          else
            let spi := initiator_spi (sa_id y) in
            let mask := table_mask cfg in
            let new_spi := Z.lor (Z.land spi mask) (Z.land (get_spi random) (Z.lxor mask (u64 (-1)))) in
            let id := set_initiator_spi new_spi (sa_id y) in
            Next (store e (signal who (with_ike_sa_id id x))
                    (store_sa sa {| sa_id := id; sa_state := sa_state y; sa_other := sa_other y |} s)))
        (Next s)).

(** ** Steps *)

(** What a thread that is outside of the manager calls, with the IKE_SAs it holds. The last
    is a change the thread makes to an IKE_SA, which keeps our SPI. *)
Inductive call :=
| Checkout (id : ike_sa_id_t)
| Checkout_by_message (m : message_t) (random : option Z)
| Create_new (version : Z) (initiator : bool) (random : option Z) (peer : host_t)
| Checkout_new (sa : nat)
| Checkin (sa : nat)
| Checkin_and_destroy (sa : nat)
| New_initiator_spi (sa : nat) (random : option Z)
| Change (sa : nat) (x : ike_sa_t).

Definition sa_of (c : call) : option nat :=
  match c with
  | Checkout_new sa | Checkin sa | Checkin_and_destroy sa | New_initiator_spi sa _ | Change sa _ => Some sa
  | _ => None
  end.

(** The parts of an identifier that an IKE_SA does not change. *)
Definition same_local (id id' : ike_sa_id_t) : Prop :=
  ike_version id = ike_version id' /\ is_initiator_flag id = is_initiator_flag id' /\ local_spi id = local_spi id'.

#[global] Instance same_local_dec id id' : Decision (same_local id id').
Proof. unfold same_local. apply _. Defined.

Definition registered (sa : nat) (s : manager) : bool :=
  bool_decide (Exists (fun x => ike_sa (snd x) = sa) (map_to_list (heap s))).

Definition begin (who : nat) (t : thread) (c : call) (s : manager) : stepped :=
  match c with
  | Checkout id => checkout who t id s
  | Checkout_by_message m random => checkout_by_message t m random s
  | Create_new version initiator random peer => create_new t version initiator random peer s
  | Checkout_new sa => if registered sa s then Stuck else checkout_new t sa s
  | Checkin sa => checkin who t sa s
  | Checkin_and_destroy sa => checkin_and_destroy t sa s
  | New_initiator_spi sa random => new_initiator_spi who sa random s
  | Change sa x => load_sa sa s (fun y => if decide (same_local (sa_id y) (sa_id x)) then Next (store_sa sa x s) else Stuck)
  end.

(** A thread in the manager goes on; [ok] is whether an IKE_SA can be created. *)
Definition continue (who : nat) (ok : bool) (peer : host_t) (t : thread) (s : manager) : stepped :=
  match pc_of s t with
  | Idle => Stuck
  | Waiting e p => load e s (fun x => if bool_decide (t ∈ sleepers x) then Stuck else judged t p e (woken who t x) s)
  | New_message m id hash =>
    if (ikesa_limit cfg =? 0) || (get_count s <? ikesa_limit cfg) then Next (goto t (Room m id hash) s)
    else Next (goto t (Forgetting hash) s)
  | Room m id hash => put_new ok t m id hash peer s
  | Forgetting hash => remove_init_hash t hash s (fun s => Next (goto t Idle s))
  | Looking m id => find_by_message who t m id s
  | Driving e => load e s (fun x => if bool_decide (t ∈ sleepers x) then Stuck else drive_out t e x s)
  | Closing e => load e s (fun x => Next (goto t (Unhashing e) (if half_open x then remove_half_open x s else s)))
  | Unhashing e =>
    load e s (fun x =>
      match init_hash x with
      | Some hash => remove_init_hash t hash s (fun s => Next (goto t (Freeing e) s))
      | None => Next (goto t (Freeing e) s)
      end)
  | Freeing e =>
    load e s (fun x => load_sa (ike_sa x) s (fun _ =>
      Next (goto t Idle (with_heap (delete e (heap s)) (with_sas (delete (ike_sa x) (sas s)) s)))))
  end.

(** A thread may also be woken without reason. *)
Definition wake (t : thread) (s : manager) : stepped :=
  match pc_of s t with
  | Waiting e _ | Driving e =>
    load e s (fun x => Next (store e (with_sleepers (filter (fun t' => t' <> t) (sleepers x)) x) s))
  | _ => Stuck
  end.

(** A call is only made by a thread outside, on an IKE_SA that it holds. *)
Inductive label := Begin (who : nat) (t : thread) (c : call) | Continue (who : nat) (ok : bool) (peer : host_t) (t : thread) | Wake (t : thread).

Definition step (l : label) (s : manager) : stepped :=
  match l with
  | Begin who t c =>
    match pc_of s t with
    | Idle => if match sa_of c with Some sa => bool_decide ((t, sa) ∈ held s) | None => true end then begin who t c s else Stuck
    | _ => Stuck
    end
  | Continue who ok peer t => continue who ok peer t s
  | Wake t => wake t s
  end.

Fixpoint run (l : list label) (s : manager) : stepped :=
  match l with
  | [] => Next s
  | x :: l => match step x s with Next s => run l s | r => r end
  end.

Definition ike_sa_manager_create : manager :=
  {| ike_sa_table := ∅; heap := ∅; sas := ∅; half_open_table := ∅; half_open_count := 0; half_open_count_responder := 0;
     total_sa_count := 0; init_hashes_table := ∅; init_locked := ∅; threads := ∅; held := [] |}.

End Manager.
