(* ===== verification/IkeSaManagerSpec.v ===== *)
(** What the manager of [IkeSaManager] keeps: an IKE_SA is held by one thread at a time, no
    entry is used after it was freed, no thread is forgotten while it waits, the half-open
    IKE_SAs are counted, and an initial message makes one IKE_SA. *)

From stdpp Require Import gmap.
From S2P Require Import Prelude Host IkeSaManager.

(** * Counting *)

(** [n] is the number of those with a property. *)
Definition counted {A} (P : A -> Prop) (n : Z) : Prop :=
  exists l : list A, NoDup l /\ (forall x, x ∈ l <-> P x) /\ n = Z.of_nat (length l).

Lemma counted_iff {A} (P Q : A -> Prop) n : (forall x, P x <-> Q x) -> counted P n -> counted Q n.
Proof. intros E (l & N & M & ->). exists l. repeat split; try done; intros X; [by apply E, M|by apply M, E]. Qed.

Lemma counted_none {A} (P : A -> Prop) : (forall x, ~ P x) -> counted P 0.
Proof. intros N. exists []. repeat split; [constructor|by intros ?%elem_of_nil|intros X; by destruct (N x)]. Qed.

Lemma counted_zero {A} (P : A -> Prop) : counted P 0 -> forall x, ~ P x.
Proof. intros (l & _ & M & E) x X. apply M in X. destruct l; [by apply elem_of_nil in X|done]. Qed.

Lemma counted_add {A} (P Q : A -> Prop) n a :
  ~ P a -> (forall x, Q x <-> x = a \/ P x) -> counted P n -> counted Q (n + 1).
Proof.
  intros Na E (l & N & M & ->). exists (a :: l). split; [|split; [|cbn; lia]].
  - constructor; [|done]. by rewrite M.
  - intros x. rewrite elem_of_cons, M, E. done.
Qed.

Lemma counted_remove {A} `{EqDecision A} (P Q : A -> Prop) n a :
  P a -> (forall x, Q x <-> x <> a /\ P x) -> counted P n -> counted Q (n - 1).
Proof.
  intros Pa E (l & N & M & ->). assert (Ha : a ∈ l) by by apply M.
  apply list_elem_of_split in Ha as (l1 & l2 & ->). exists (l1 ++ l2).
  apply NoDup_app in N as (N1 & N2 & N3). apply NoDup_cons in N3 as [Nh N3]. split; [|split].
  - apply NoDup_app. split; [done|]. split; [|done]. intros x X1 X2. apply (N2 x X1). by right.
  - intros x. rewrite E, <- M, !elem_of_app, elem_of_cons. split; [|naive_solver].
    intros [X|X]; (split; [|naive_solver]); intros ->; [by apply (N2 a X); left|done].
  - rewrite !length_app. cbn. lia.
Qed.

Lemma counted_nonneg {A} (P : A -> Prop) n : counted P n -> 0 <= n.
Proof. intros (l & _ & _ & ->). lia. Qed.

Lemma counted_some {A} (P : A -> Prop) n : counted P n -> n <> 0 -> exists x, P x.
Proof. intros (l & _ & M & ->) N. destruct l as [|x l]; [done|]. exists x. apply M. by left. Qed.

Lemma counted_unique {A} (P : A -> Prop) n m : counted P n -> counted P m -> n = m.
Proof.
  intros (l & N & M & ->) (l' & N' & M' & ->). f_equal. apply Permutation_length, NoDup_Permutation; try done.
  intros x. by rewrite M, M'.
Qed.

(** * An entry and the threads at it *)

Inductive role := Away | Waits | Drives | Closes.

Definition role_in (p : pc) (e : nat) : role :=
  match p with
  | Waiting e' _ => if decide (e = e') then Waits else Away
  | Driving e' => if decide (e = e') then Drives else Away
  | Closing e' | Unhashing e' | Freeing e' => if decide (e = e') then Closes else Away
  | _ => Away
  end.

Definition at_entry (r : role) : Prop := r = Waits \/ r = Drives.

(** An entry in the table, with the roles of the threads and those that hold its IKE_SA:
    all but that someone is awake. *)
Record quiet (x : entry_t) (rl : thread -> role) (hold : thread -> Prop) : Prop := {
  l_waiting : counted (fun t => rl t = Waits) (waiting_threads x);
  l_sleepers : NoDup (sleepers x) /\ forall t, t ∈ sleepers x -> at_entry (rl t);
  l_open : forall t, rl t <> Closes;
  l_flags : driveout_new_threads x = driveout_waiting_threads x;
  l_drives : forall t, rl t = Drives -> checked_out x = Some t /\ driveout_waiting_threads x = true;
  l_driven : driveout_waiting_threads x = true -> exists t, rl t = Drives;
  l_held : forall t, hold t -> checked_out x = Some t /\ driveout_waiting_threads x = false;
  l_out : forall t, checked_out x = Some t -> hold t \/ rl t = Drives;
}.

(** The threads at an entry wait for one that holds its IKE_SA, or one of them is awake. *)
Definition attended (x : entry_t) (rl : thread -> role) : Prop :=
  (exists t, at_entry (rl t)) ->
  checked_out x <> None /\ driveout_waiting_threads x = false \/ exists t, at_entry (rl t) /\ t ∉ sleepers x.

Definition live (x : entry_t) (rl : thread -> role) (hold : thread -> Prop) : Prop := quiet x rl hold /\ attended x rl.

Definition upd (rl : thread -> role) (t : thread) (r : role) : thread -> role := fun t' => if decide (t' = t) then r else rl t'.

Lemma upd_same rl t r : upd rl t r t = r.
Proof. unfold upd. by case_decide. Qed.
Lemma upd_other rl t r t' : t' <> t -> upd rl t r t' = rl t'.
Proof. unfold upd. by case_decide. Qed.

Lemma quiet_ext x rl rl' hold hold' :
  (forall t, rl t = rl' t) -> (forall t, hold t <-> hold' t) -> quiet x rl hold -> quiet x rl' hold'.
Proof.
  intros R H [A [B1 B2] C D E F G I]. constructor.
  - eapply counted_iff; [|done]. intros t. cbn. by rewrite R.
  - split; [done|]. intros t X. rewrite <- R. by apply B2.
  - intros t. rewrite <- R. apply C.
  - done.
  - intros t. rewrite <- R. apply E.
  - intros X. destruct (F X) as [t Y]. exists t. by rewrite <- R.
  - intros t X. by apply G, H.
  - intros t X. rewrite <- R. destruct (I t X); [left; by apply H|by right].
Qed.

Lemma attended_ext x rl rl' : (forall t, rl t = rl' t) -> attended x rl -> attended x rl'.
Proof.
  intros R A [t X]. rewrite <- R in X. destruct (A (ex_intro _ t X)) as [Y|[t' [Y Z]]]; [by left|]. right. exists t'. by rewrite <- R.
Qed.

Lemma live_ext x rl rl' hold hold' :
  (forall t, rl t = rl' t) -> (forall t, hold t <-> hold' t) -> live x rl hold -> live x rl' hold'.
Proof. intros R H [Q A]. split; [by eapply quiet_ext|by eapply attended_ext]. Qed.

(** The rest of an entry does not matter. *)
Definition lock_of (x : entry_t) := (waiting_threads x, checked_out x, driveout_new_threads x, driveout_waiting_threads x, sleepers x).

Lemma live_lock x x' rl hold : lock_of x = lock_of x' -> live x rl hold -> live x' rl hold.
Proof.
  destruct x, x'. cbn. intros E. injection E as -> -> -> -> ->. intros [[A B C D F G I J] K]. by split; [split|].
Qed.

Lemma quiet_lock x x' rl hold : lock_of x = lock_of x' -> quiet x rl hold -> quiet x' rl hold.
Proof.
  destruct x, x'. cbn. intros E. injection E as -> -> -> -> ->. intros [A B C D F G I J]. by split.
Qed.

(** Waking one thread, or all but the one that waits for the others. *)
Lemma sleepers_signal who x t : t ∈ sleepers (signal who x) -> t ∈ sleepers x.
Proof. cbn. intros X. by apply list_elem_of_delete_inv in X. Qed.

Lemma nodup_delete {A} i (l : list A) : NoDup l -> NoDup (delete i l).
Proof. intros N. eapply sublist_NoDup; [done|apply sublist_delete]. Qed.

Lemma quiet_sleepers x rl hold l :
  NoDup l -> (forall t, t ∈ l -> at_entry (rl t)) -> quiet x rl hold -> quiet (with_sleepers l x) rl hold.
Proof. intros N S [A B C D E F G I]. by split. Qed.

Lemma quiet_signal who x rl hold : quiet x rl hold -> quiet (signal who x) rl hold.
Proof.
  intros Q. destruct (l_sleepers _ _ _ Q) as [N S]. apply quiet_sleepers; [by apply nodup_delete| |done].
  intros t X. apply S. by apply list_elem_of_delete_inv in X.
Qed.

Lemma delete_absent {A} (l : list A) i a : NoDup l -> l !! i = Some a -> a ∉ delete i l.
Proof.
  intros N L X. rewrite delete_take_drop in X. rewrite <- (take_drop_middle l i a L) in N.
  apply NoDup_app in N as (_ & N1 & N2). apply NoDup_cons in N2 as [N2 _]. apply elem_of_app in X as [X|X]; [|done].
  apply (N1 a X). by left.
Qed.

(** A signal is not lost: if anyone is at the entry, one of them is awake afterwards. *)
Lemma attended_signal who x rl hold : quiet x rl hold -> attended (signal who x) rl.
Proof.
  intros Q [t A]. right. destruct (l_sleepers _ _ _ Q) as [N S].
  destruct (sleepers x !! Nat.min who (pred (length (sleepers x)))) as [t'|] eqn:L.
  - exists t'. split; [apply S; by eapply list_elem_of_lookup_2|by apply delete_absent].
  - exists t. split; [done|]. cbn. apply lookup_ge_None in L. destruct (sleepers x); [by apply not_elem_of_nil|cbn in L; lia].
Qed.

Lemma live_signal who x rl hold : quiet x rl hold -> live (signal who x) rl hold.
Proof. intros Q. split; [by apply quiet_signal|by eapply attended_signal]. Qed.

(** ** What a thread does at an entry *)

Ltac upd_cases := repeat match goal with
  | H : context [upd _ ?t _ ?t'] |- _ => unfold upd in H; destruct (decide (t' = t)); subst
  | |- context [upd _ ?t _ ?t'] => unfold upd; destruct (decide (t' = t)); subst
  end; try done.

(** A waiting thread that is awake stops waiting. *)
Lemma quiet_leave x rl hold t :
  quiet x rl hold -> rl t = Waits -> t ∉ sleepers x -> quiet (with_waiting_threads (waiting_threads x - 1) x) (upd rl t Away) hold.
Proof.
  intros [A [B1 B2] C D E F G I] R S. constructor; cbn.
  - apply (counted_remove (fun t => rl t = Waits) _ _ t R); [|exact A]. intros t'. upd_cases; naive_solver.
  - split; [done|]. intros t' X. upd_cases. by apply B2.
  - intros t'. upd_cases.
  - done.
  - intros t' X. upd_cases. by apply E.
  - intros X. destruct (F X) as [t' Y]. exists t'. upd_cases. congruence.
  - done.
  - intros t' X. destruct (I t' X) as [Y|Y]; [by left|]. right. upd_cases. congruence.
Qed.

(** [wait_for_entry] leaves the entry in order whatever it finds. *)
Lemma wait_loop_asleep who t x x' rl hold :
  quiet x rl hold -> rl t = Away -> wait_loop who t x = (Asleep, x') -> live x' (upd rl t Waits) hold.
Proof.
  unfold wait_loop. intros [A [B1 B2] C D E F G I] R W. destruct (checked_out x) as [o|] eqn:O; [|by destruct (driveout_waiting_threads x)].
  destruct (driveout_waiting_threads x) eqn:W'; [done|]. injection W as <-. split; [constructor|]; cbn.
  - apply (counted_add (fun t => rl t = Waits) _ _ t); [by rewrite R| |exact A]. intros t'. upd_cases; naive_solver.
  - split.
    + apply NoDup_app. split; [done|]. split; [|apply NoDup_singleton]. intros t' X ->%list_elem_of_singleton.
      destruct (B2 _ X); congruence.
    + intros t' [X| ->%list_elem_of_singleton]%elem_of_app; upd_cases; [by left|by apply B2|by left].
  - intros t'. upd_cases.
  - congruence.
  - intros t' X. upd_cases. destruct (E _ X). congruence.
  - congruence.
  - rewrite O, W'. exact G.
  - rewrite O. intros t' X. destruct (I t' X) as [Y|Y]; [by left|]. destruct (E _ Y). congruence.
  - intros _. left. cbn. by rewrite O.
Qed.

Lemma wait_loop_refused who t x x' rl hold :
  quiet x rl hold -> rl t = Away -> wait_loop who t x = (Refused, x') -> live x' (upd rl t Away) hold.
Proof.
  unfold wait_loop. intros Q R W. eapply (live_ext _ rl _ hold); [|done|].
  - intros t'. upd_cases.
  - destruct (match checked_out x with Some _ => negb (driveout_waiting_threads x) | None => false end); [done|].
    destruct (driveout_waiting_threads x); [|done]. injection W as <-. by apply live_signal.
Qed.

(** Nobody holds an entry that is acquired; the thread holds it then. *)
Lemma wait_loop_acquired who t x x' rl hold hold' :
  quiet x rl hold -> rl t = Away -> wait_loop who t x = (Acquired, x') ->
  (forall t', hold' t' <-> t' = t \/ hold t') ->
  (forall t', ~ hold t') /\ x' = x /\ live (with_checked_out (Some t) x) (upd rl t Away) hold'.
Proof.
  unfold wait_loop. intros [A B C D E F G I] R W H. destruct (driveout_waiting_threads x) eqn:W'.
  { by destruct (checked_out x). }
  destruct (checked_out x) as [o|] eqn:O; [done|]. injection W as <-.
  assert (N : forall t', ~ hold t') by (intros t' X; destruct (G _ X); congruence).
  split; [done|]. split; [done|]. eapply (live_ext _ rl _ hold'); [intros t'; upd_cases|done|]. split; [constructor|]; cbn.
  - done.
  - done.
  - done.
  - congruence.
  - intros t' X. destruct (E _ X). congruence.
  - congruence.
  - intros t' [->|X]%H; [done|by apply N in X].
  - intros t' [= <-]. left. apply H. by left.
  - intros _. left. done.
Qed.

(** The holder checks the entry in. *)
Lemma quiet_checkin x rl hold hold' t :
  quiet x rl hold -> hold t -> (forall t', ~ hold' t') -> quiet (with_checked_out None x) rl hold'.
Proof.
  intros [A B C D E F G I] H N. destruct (G _ H) as [O W]. constructor; cbn; try done.
  - intros t' X. destruct (E _ X). congruence.
  - intros t' X. by apply N in X.
Qed.

(** The holder of an entry alone, as for [l_held]. *)
Lemma quiet_holder x rl hold t t' : quiet x rl hold -> hold t -> hold t' -> t' = t.
Proof. intros Q H H'. destruct (l_held _ _ _ Q _ H), (l_held _ _ _ Q _ H'). congruence. Qed.

(** The driving thread, and its sleep after it woke the others. *)
Lemma live_drive x x' rl hold t :
  quiet x rl hold -> rl t = Away /\ hold t \/ rl t = Drives /\ t ∉ sleepers x -> waiting_threads x <> 0 ->
  waiting_threads x' = waiting_threads x -> checked_out x' = checked_out x ->
  driveout_new_threads x' = true -> driveout_waiting_threads x' = true -> sleepers x' = [t] ->
  live x' (upd rl t Drives) (fun t' => hold t' /\ t' <> t).
Proof.
  intros [A B C D E F G I] T W EW EC EN ED ES.
  assert (O : checked_out x = Some t) by (destruct T as [[_ H]|[H _]]; [by destruct (G _ H)|by destruct (E _ H)]).
  assert (O' : forall t', rl t' = Drives -> t' = t) by (intros t' X; destruct (E _ X); congruence).
  split; [constructor|].
  - rewrite EW. eapply counted_iff; [|exact A]. intros t'. cbn. upd_cases. destruct T as [[X _]|[X _]]; by rewrite X.
  - rewrite ES. split; [apply NoDup_singleton|]. intros t' ->%list_elem_of_singleton. upd_cases. by right.
  - intros t'. upd_cases.
  - congruence.
  - intros t' X. rewrite EC, ED, O. upd_cases. by apply O' in X.
  - intros _. exists t. upd_cases.
  - intros t' [X N]. destruct (G _ X). congruence.
  - intros t'. rewrite EC, O. intros [= <-]. right. upd_cases.
  - intros _. right. destruct (counted_some _ _ A W) as [t' X]. exists t'. split.
    + upd_cases; [by right|by left].
    + rewrite ES. intros ->%list_elem_of_singleton. destruct T as [[Y _]|[Y _]]; cbn in X; congruence.
Qed.

(** When no thread waits the driving one is alone. *)
Lemma quiet_alone x rl hold t :
  quiet x rl hold -> rl t = Away /\ hold t \/ rl t = Drives /\ t ∉ sleepers x -> waiting_threads x = 0 ->
  (forall t', t' <> t -> rl t' = Away) /\ (forall t', hold t' -> t' = t).
Proof.
  intros [A B C D E F G I] T W. rewrite W in A.
  assert (O : checked_out x = Some t) by (destruct T as [[_ H]|[H _]]; [by destruct (G _ H)|by destruct (E _ H)]).
  split.
  - intros t' N. destruct (rl t') eqn:R; [done|by apply (counted_zero _ A) in R| |by apply C in R].
    destruct (E _ R). congruence.
  - intros t' H. destruct (G _ H). congruence.
Qed.

(** A thread is woken without reason. *)
Lemma live_wake x rl hold t :
  live x rl hold -> at_entry (rl t) -> live (with_sleepers (filter (fun t' => t' <> t) (sleepers x)) x) rl hold.
Proof.
  intros [Q _] R. destruct (l_sleepers _ _ _ Q) as [N S]. split.
  - apply quiet_sleepers; [by apply NoDup_filter| |done]. intros t' [_ X]%list_elem_of_filter. by apply S.
  - intros _. right. exists t. split; [done|]. cbn. intros [X _]%list_elem_of_filter. done.
Qed.

(** * The manager *)

Definition role_of (s : manager) (e : nat) (t : thread) : role := role_in (pc_of s t) e.
Definition holds (s : manager) (sa : nat) (t : thread) : Prop := (t, sa) ∈ held s.

(** Our SPI of an IKE_SA does not change when the responder's becomes known. *)
Definition spi_ok (id : ike_sa_id_t) : Prop := responder_spi id = 0 -> ike_version id = IKEV1_MAJOR_VERSION \/ is_initiator_flag id = true.

Definition pc_ok (p : pc) : Prop :=
  match p with New_message _ id _ | Room _ id _ => responder_spi id <> 0 | _ => True end.

(** One thread is about to free an entry, and no thread has to do with it anymore. *)
Definition closed (rl : thread -> role) (hold : thread -> Prop) : Prop :=
  (exists t, rl t = Closes /\ forall t', t' <> t -> rl t' = Away) /\ forall t, ~ hold t.

Section Kept.
Context (cfg : config).

Definition row_id (id : ike_sa_id_t) : Z := row_of cfg (ike_sa_id_hash id).
Definition tabled (s : manager) (e : nat) (x : entry_t) : Prop := e ∈ row (ike_sa_table s) (row_id (ike_sa_id x)).

Definition good (s : manager) (e : nat) (x : entry_t) : Prop :=
  tabled s e x /\ live x (role_of s e) (holds s (ike_sa x)) \/ ~ tabled s e x /\ closed (role_of s e) (holds s (ike_sa x)).

(** The table, the entries, the IKE_SAs and the threads belong together. *)
Record kept (s : manager) : Prop := {
  g_rows : forall r e, e ∈ row (ike_sa_table s) r -> exists x, heap s !! e = Some x /\ row_id (ike_sa_id x) = r;
  g_nodup : forall r, NoDup (row (ike_sa_table s) r);
  g_entries : forall e x, heap s !! e = Some x -> good s e x;
  g_free : forall e t, heap s !! e = None -> role_of s e t = Away;
  g_sas : forall e x, heap s !! e = Some x -> exists y, sas s !! ike_sa x = Some y /\ same_local (ike_sa_id x) (sa_id y);
  g_inj : forall e1 e2 x1 x2, heap s !! e1 = Some x1 -> heap s !! e2 = Some x2 -> ike_sa x1 = ike_sa x2 -> e1 = e2;
  g_spi : forall sa y, sas s !! sa = Some y -> spi_ok (sa_id y);
  g_held : NoDup (held s).*2;
  g_live : forall sa t, holds s sa t -> is_Some (sas s !! sa);
  g_pcs : forall t, pc_ok (pc_of s t);
}.

(** Of a step: thread [t] goes to [p], and [P] are the IKE_SAs that may change hands. *)
Definition moved (s s' : manager) (t : thread) (p : pc) : Prop :=
  pc_ok p /\ forall t', pc_of s' t' = if decide (t' = t) then p else pc_of s t'.

Definition handed (s s' : manager) (sa : nat) : Prop :=
  NoDup (held s').*2 /\ forall sa' t, sa' <> sa -> holds s' sa' t <-> holds s sa' t.

Lemma moved_role s s' t p e : moved s s' t p -> forall t', role_of s' e t' = upd (role_of s e) t (role_in p e) t'.
Proof. intros [_ M] t'. unfold role_of, upd. rewrite M. by case_decide. Qed.

Lemma moved_role_same s s' t p e : moved s s' t p -> role_in p e = role_of s e t -> forall t', role_of s' e t' = role_of s e t'.
Proof. intros M R t'. rewrite (moved_role _ _ _ _ _ M). unfold upd. by case_decide; subst. Qed.

Lemma moved_pcs s s' t p : moved s s' t p -> (forall t, pc_ok (pc_of s t)) -> forall t, pc_ok (pc_of s' t).
Proof. intros [P M] K t'. rewrite M. by case_decide. Qed.

Lemma closed_ext rl rl' hold hold' :
  (forall t, rl t = rl' t) -> (forall t, hold t <-> hold' t) -> closed rl hold -> closed rl' hold'.
Proof.
  intros R H [[t [T O]] N]. split; [exists t; rewrite <- R; split; [done|]; intros t' X; rewrite <- R; by apply O|].
  intros t' X. by apply (N t'), H.
Qed.

(** An entry of which nothing changed. *)
Lemma good_ext s s' e x :
  (tabled s e x <-> tabled s' e x) -> (forall t, role_of s' e t = role_of s e t) ->
  (forall t, holds s' (ike_sa x) t <-> holds s (ike_sa x) t) -> good s e x -> good s' e x.
Proof.
  intros T R H [[A B]|[A B]]; [left|right]; (split; [by rewrite <- T|]); [eapply live_ext|eapply closed_ext]; try exact B; naive_solver.
Qed.

Lemma tabled_live s e x : kept s -> heap s !! e = Some x -> tabled s e x -> live x (role_of s e) (holds s (ike_sa x)).
Proof. intros K L T. by destruct (g_entries _ K _ _ L) as [[_ B]|[B _]]. Qed.

Lemma same_local_row id id' : same_local id id' -> row_id id = row_id id'.
Proof. intros (_ & _ & E). unfold row_id, ike_sa_id_hash. by rewrite E. Qed.

(** A table entry changes. *)
Lemma kept_update s s' t p e x x' y' :
  kept s -> heap s !! e = Some x -> tabled s e x ->
  heap s' = <[e := x']> (heap s) -> ike_sa_table s' = ike_sa_table s -> sas s' = <[ike_sa x := y']> (sas s) ->
  moved s s' t p -> (forall e', e' <> e -> role_in p e' = role_of s e' t) -> handed s s' (ike_sa x) ->
  ike_sa x' = ike_sa x -> row_id (ike_sa_id x') = row_id (ike_sa_id x) -> same_local (ike_sa_id x') (sa_id y') -> spi_ok (sa_id y') ->
  live x' (upd (role_of s e) t (role_in p e)) (holds s' (ike_sa x)) -> kept s'.
Proof.
  intros K L T EH ET ES M MR [HN HH] Esa Erow SL SP LV. constructor.
  - intros r e1 X. rewrite ET in X. destruct (g_rows _ K _ _ X) as (x1 & L1 & R1). rewrite EH.
    destruct (decide (e1 = e)) as [->|N]; [|exists x1; by rewrite lookup_insert_ne].
    exists x'. rewrite lookup_insert_eq. split; [done|]. replace x1 with x in * by congruence. by rewrite Erow.
  - intros r. rewrite ET. apply (g_nodup _ K).
  - intros e1 x1. rewrite EH. intros [[-> <-]|[N L1]]%lookup_insert_Some.
    + left. unfold tabled. rewrite ET, Erow, Esa. split; [done|]. eapply live_ext; [| |exact LV]; [|done].
      intros t'. by rewrite (moved_role _ _ _ _ _ M).
    + apply (good_ext s); [by unfold tabled; rewrite ET| | |by apply (g_entries _ K)].
      * apply (moved_role_same _ _ _ _ _ M). by apply MR.
      * intros t'. apply HH. intros E. apply N. eapply (g_inj _ K); eauto.
  - intros e1 t'. rewrite EH. intros [N L1]%lookup_insert_None. rewrite (moved_role_same _ _ _ _ _ M); [by apply (g_free _ K)|]. by apply MR.
  - intros e1 x1. rewrite EH, ES. intros [[<- <-]|[N L1]]%lookup_insert_Some.
    + exists y'. by rewrite Esa, lookup_insert_eq.
    + destruct (g_sas _ K _ _ L1) as (y & L2 & S2). exists y. rewrite lookup_insert_ne; [done|].
      intros E. apply N. eapply (g_inj _ K); eauto.
  - intros e1 e2 x1 x2. rewrite EH. intros [[<- <-]|[N1 L1]]%lookup_insert_Some [[<- <-]|[N2 L2]]%lookup_insert_Some E; try done.
    + eapply (g_inj _ K); eauto. congruence.
    + eapply (g_inj _ K); eauto. congruence.
    + by eapply (g_inj _ K).
  - intros sa y. rewrite ES. intros [[<- <-]|[N1 L1]]%lookup_insert_Some; [done|]. by eapply (g_spi _ K).
  - done.
  - intros sa t' X. rewrite ES. destruct (decide (sa = ike_sa x)) as [->|N]; [by rewrite lookup_insert_eq|].
    rewrite lookup_insert_ne by done. eapply (g_live _ K). by apply HH.
  - by apply (moved_pcs _ _ _ _ M), (g_pcs _ K).
Qed.

(** An entry is added, for an IKE_SA that had none. *)
Lemma kept_add s s' t p e x y :
  kept s -> heap s !! e = None -> (forall e' x', heap s !! e' = Some x' -> ike_sa x' <> ike_sa x) ->
  heap s' = <[e := x]> (heap s) ->
  ike_sa_table s' = <[row_id (ike_sa_id x) := e :: row (ike_sa_table s) (row_id (ike_sa_id x))]> (ike_sa_table s) ->
  sas s' = <[ike_sa x := y]> (sas s) -> same_local (ike_sa_id x) (sa_id y) -> spi_ok (sa_id y) ->
  moved s s' t p -> (forall e', role_in p e' = role_of s e' t) -> handed s s' (ike_sa x) ->
  waiting_threads x = 0 -> sleepers x = [] -> driveout_new_threads x = false -> driveout_waiting_threads x = false ->
  (forall t', checked_out x = Some t' <-> holds s' (ike_sa x) t') -> kept s'.
Proof.
  intros K L U EH ET ES SL SP M MR [HN HH] W0 S0 D1 D2 O.
  assert (RR : forall r, row (ike_sa_table s') r = if decide (r = row_id (ike_sa_id x)) then e :: row (ike_sa_table s) r else row (ike_sa_table s) r).
  { intros r. unfold row. rewrite ET. case_decide; subst; [by rewrite lookup_insert_eq|by rewrite lookup_insert_ne]. }
  assert (NR : forall r, e ∉ row (ike_sa_table s) r) by (intros r X; destruct (g_rows _ K _ _ X) as (? & ? & _); congruence).
  assert (AW : forall t', role_of s' e t' = Away).
  { intros t'. rewrite (moved_role_same _ _ _ _ _ M (MR e)). by apply (g_free _ K). }
  constructor.
  - intros r e1. rewrite RR, EH. case_decide as D.
    + subst. intros [->|X]%elem_of_cons; [exists x; by rewrite lookup_insert_eq|].
      destruct (g_rows _ K _ _ X) as (x1 & L1 & R1). exists x1. rewrite lookup_insert_ne; [done|]. congruence.
    + intros X. destruct (g_rows _ K _ _ X) as (x1 & L1 & R1). exists x1. rewrite lookup_insert_ne; [done|]. congruence.
  - intros r. rewrite RR. case_decide; [|apply (g_nodup _ K)]. constructor; [apply NR|apply (g_nodup _ K)].
  - intros e1 x1. rewrite EH. intros [[<- <-]|[N L1]]%lookup_insert_Some.
    + left. unfold tabled. rewrite RR, decide_True by done. split; [by left|]. split; [constructor|].
      * rewrite W0. apply counted_none. intros t'. by rewrite AW.
      * rewrite S0. split; [constructor|]. by intros t' ?%elem_of_nil.
      * intros t'. by rewrite AW.
      * congruence.
      * intros t'. by rewrite AW.
      * congruence.
      * intros t' X. split; [by apply O|done].
      * intros t' X. left. by apply O.
      * intros [t' A]. rewrite AW in A. by destruct A.
    + apply (good_ext s); [|by apply (moved_role_same _ _ _ _ _ M)| |by apply (g_entries _ K)].
      * unfold tabled. rewrite RR. case_decide; [|done]. rewrite elem_of_cons. naive_solver.
      * intros t'. apply HH. by eapply U.
  - intros e1 t'. rewrite EH. intros [N L1]%lookup_insert_None. rewrite (moved_role_same _ _ _ _ _ M); [by apply (g_free _ K)|]. by apply MR.
  - intros e1 x1. rewrite EH, ES. intros [[<- <-]|[N L1]]%lookup_insert_Some; [exists y; by rewrite lookup_insert_eq|].
    destruct (g_sas _ K _ _ L1) as (y1 & L2 & S2). exists y1. rewrite lookup_insert_ne; [done|]. intros E. by apply (U _ _ L1).
  - intros e1 e2 x1 x2. rewrite EH. intros [[<- <-]|[N1 L1]]%lookup_insert_Some [[<- <-]|[N2 L2]]%lookup_insert_Some E; try done.
    + by destruct (U _ _ L2).
    + by destruct (U _ _ L1).
    + by eapply (g_inj _ K).
  - intros sa y1. rewrite ES. intros [[<- <-]|[N1 L1]]%lookup_insert_Some; [done|]. by eapply (g_spi _ K).
  - done.
  - intros sa t' X. rewrite ES. destruct (decide (sa = ike_sa x)) as [->|N]; [by rewrite lookup_insert_eq|].
    rewrite lookup_insert_ne by done. eapply (g_live _ K). by apply HH.
  - by apply (moved_pcs _ _ _ _ M), (g_pcs _ K).
Qed.

(** The table, the entries and the IKE_SAs stay, but for what is said of an IKE_SA. *)
Lemma kept_stays s s' t p :
  kept s -> heap s' = heap s -> ike_sa_table s' = ike_sa_table s ->
  moved s s' t p -> (forall e', role_in p e' = role_of s e' t) ->
  (forall e x, heap s !! e = Some x ->
     (exists y, sas s' !! ike_sa x = Some y /\ same_local (ike_sa_id x) (sa_id y)) /\
     forall t', holds s' (ike_sa x) t' <-> holds s (ike_sa x) t') ->
  (forall sa y, sas s' !! sa = Some y -> spi_ok (sa_id y)) -> NoDup (held s').*2 ->
  (forall sa t, holds s' sa t -> is_Some (sas s' !! sa)) -> kept s'.
Proof.
  intros K EH ET M MR R SP HN HL.
  assert (RO : forall e t', role_of s' e t' = role_of s e t') by (intros e; by apply (moved_role_same _ _ _ _ _ M)).
  constructor; rewrite ?EH, ?ET; try by apply K; try done.
  - intros e x L. apply (good_ext s); [by unfold tabled; rewrite ET|done| |by apply (g_entries _ K)]. by apply (R e x).
  - intros e t' L. rewrite RO. by apply (g_free _ K).
  - intros e x L. by apply (R e x).
  - exact SP.
  - exact HN.
  - exact HL.
  - by apply (moved_pcs _ _ _ _ M), (g_pcs _ K).
Qed.

(** Only a thread moves. *)
Lemma kept_move s s' t p :
  kept s -> heap s' = heap s -> ike_sa_table s' = ike_sa_table s -> sas s' = sas s -> held s' = held s ->
  moved s s' t p -> (forall e', role_in p e' = role_of s e' t) -> kept s'.
Proof.
  intros K EH ET ES ED M MR. eapply (kept_stays s); try done.
  - intros e x L. unfold holds. rewrite ES, ED. split; [by eapply (g_sas _ K)|done].
  - intros sa y. rewrite ES. by eapply (g_spi _ K).
  - rewrite ED. apply (g_held _ K).
  - unfold holds. rewrite ED, ES. by apply (g_live _ K).
Qed.

Lemma remove_first_some e l l' : remove_first e l = Some l' -> exists l1 l2, l = l1 ++ e :: l2 /\ l' = l1 ++ l2.
Proof.
  revert l'. induction l as [|a l IH]; intros l' X; cbn in X; [done|]. destruct (Nat.eqb_spec a e) as [->|N].
  - injection X as <-. by exists [], l.
  - destruct (remove_first e l) as [k|]; [|done]. injection X as <-. destruct (IH k eq_refl) as (l1 & l2 & -> & ->).
    by exists (a :: l1), l2.
Qed.

Lemma remove_first_in e l : e ∈ l -> is_Some (remove_first e l).
Proof.
  induction l as [|a l IH]; [by intros ?%elem_of_nil|]. cbn. destruct (Nat.eqb_spec a e) as [->|N]; [done|].
  intros [->|X]%elem_of_cons; [done|]. destruct (IH X) as [k ->]. done.
Qed.

Lemma remove_first_nodup e l l' : NoDup l -> remove_first e l = Some l' -> NoDup l' /\ forall a, a ∈ l' <-> a <> e /\ a ∈ l.
Proof.
  intros N X. apply remove_first_some in X as (l1 & l2 & -> & ->).
  apply NoDup_app in N as (N1 & N2 & N3). apply NoDup_cons in N3 as [Nh N3]. split.
  - apply NoDup_app. split; [done|]. split; [|done]. intros a X1 X2. apply (N2 a X1). by right.
  - intros a. rewrite !elem_of_app, elem_of_cons. split; [|naive_solver]. intros [X|X]; (split; [|naive_solver]); intros ->; [|done].
    apply (N2 _ X). by left.
Qed.

(** The thread that drives an entry, and that is alone there, takes it out of the table. *)
Lemma kept_close s s' t e x x' l :
  kept s -> heap s !! e = Some x -> tabled s e x ->
  heap s' = <[e := x']> (heap s) -> remove_first e (row (ike_sa_table s) (row_id (ike_sa_id x))) = Some l ->
  ike_sa_table s' = <[row_id (ike_sa_id x) := l]> (ike_sa_table s) -> sas s' = sas s ->
  moved s s' t (Closing e) -> (forall e', e' <> e -> role_of s e' t = Away) -> handed s s' (ike_sa x) ->
  ike_sa x' = ike_sa x -> ike_sa_id x' = ike_sa_id x ->
  (forall t', t' <> t -> role_of s e t' = Away) -> (forall t', ~ holds s' (ike_sa x) t') -> kept s'.
Proof.
  intros K L T EH RF ET ES M MR [HN HH] Esa Eid AW NH.
  destruct (remove_first_nodup _ _ _ (g_nodup _ K _) RF) as [NL ML].
  assert (RR : forall r, row (ike_sa_table s') r = if decide (r = row_id (ike_sa_id x)) then l else row (ike_sa_table s) r).
  { intros r. unfold row. rewrite ET. case_decide; subst; [by rewrite lookup_insert_eq|by rewrite lookup_insert_ne]. }
  assert (TT : forall e1 r, e1 ∈ row (ike_sa_table s') r <-> e1 <> e /\ e1 ∈ row (ike_sa_table s) r).
  { intros e1 r. rewrite RR. case_decide as D; [subst; apply ML|]. split; [|naive_solver]. intros X. split; [|done]. intros ->.
    destruct (g_rows _ K _ _ X) as (x1 & L1 & R1). congruence. }
  assert (MO : forall e1, e1 <> e -> forall t', role_of s' e1 t' = role_of s e1 t').
  { intros e1 N. apply (moved_role_same _ _ _ _ _ M). cbn. case_decide; [done|]. symmetry. by apply MR. }
  constructor.
  - intros r e1 [N X]%TT. destruct (g_rows _ K _ _ X) as (x1 & L1 & R1). exists x1. by rewrite EH, lookup_insert_ne.
  - intros r. rewrite RR. case_decide; [done|apply (g_nodup _ K)].
  - intros e1 x1. rewrite EH. intros [[<- <-]|[N L1]]%lookup_insert_Some.
    + right. unfold tabled. rewrite TT, Esa. split; [tauto|]. split; [|done]. exists t. split.
      * rewrite (moved_role _ _ _ _ _ M), upd_same. cbn. by case_decide.
      * intros t' N. rewrite (moved_role _ _ _ _ _ M), upd_other by done. by apply AW.
    + apply (good_ext s); [|by apply MO| |by apply (g_entries _ K)].
      * unfold tabled. rewrite TT. naive_solver.
      * intros t'. apply HH. intros E. apply N. eapply (g_inj _ K); eauto.
  - intros e1 t'. rewrite EH. intros [N L1]%lookup_insert_None. rewrite MO by done. by apply (g_free _ K).
  - intros e1 x1. rewrite EH, ES. intros [[<- <-]|[N L1]]%lookup_insert_Some; [|by eapply (g_sas _ K)].
    rewrite Esa, Eid. by eapply (g_sas _ K).
  - intros e1 e2 x1 x2. rewrite EH. intros [[<- <-]|[N1 L1]]%lookup_insert_Some [[<- <-]|[N2 L2]]%lookup_insert_Some E; try done.
    + eapply (g_inj _ K); eauto. congruence.
    + eapply (g_inj _ K); eauto. congruence.
    + by eapply (g_inj _ K).
  - intros sa y. rewrite ES. by eapply (g_spi _ K).
  - done.
  - intros sa t' X. rewrite ES. destruct (decide (sa = ike_sa x)) as [->|N]; [by apply NH in X|]. eapply (g_live _ K). by apply HH.
  - by apply (moved_pcs _ _ _ _ M), (g_pcs _ K).
Qed.

(** An entry that is out of the table is freed with its IKE_SA. *)
Lemma kept_freed s s' t e x :
  kept s -> heap s !! e = Some x -> role_of s e t = Closes -> heap s' = delete e (heap s) ->
  ike_sa_table s' = ike_sa_table s -> sas s' = delete (ike_sa x) (sas s) -> held s' = held s ->
  moved s s' t Idle -> (forall e', e' <> e -> role_of s e' t = Away) -> kept s'.
Proof.
  intros K L R EH ET ES ED M MR.
  destruct (g_entries _ K _ _ L) as [[T [Q _]]|[T [[t0 [R0 A0]] NH]]]; [by destruct (l_open _ _ _ Q t)|].
  assert (t0 = t) as -> by (destruct (decide (t = t0)) as [|N]; [done|]; apply A0 in N; congruence).
  assert (MO : forall e1, e1 <> e -> forall t', role_of s' e1 t' = role_of s e1 t').
  { intros e1 N. apply (moved_role_same _ _ _ _ _ M). cbn. symmetry. by apply MR. }
  constructor; rewrite ?ET; try by apply K; try done.
  - intros r e1 X. destruct (g_rows _ K _ _ X) as (x1 & L1 & R1). exists x1. rewrite EH, lookup_delete_ne; [done|]. intros <-.
    apply T. unfold tabled. congruence.
  - intros e1 x1. rewrite EH. intros [N L1]%lookup_delete_Some.
    apply (good_ext s); [by unfold tabled; rewrite ET|by apply MO|by unfold holds; rewrite ED|by apply (g_entries _ K)].
  - intros e1 t'. rewrite EH. intros [X|X]%lookup_delete_None.
    + subst. rewrite (moved_role _ _ _ _ _ M). unfold upd. case_decide; [done|by apply A0].
    + destruct (decide (e1 = e)) as [->|N]; [congruence|]. rewrite MO by done. by apply (g_free _ K).
  - intros e1 x1. rewrite EH, ES. intros [N L1]%lookup_delete_Some. destruct (g_sas _ K _ _ L1) as (y & L2 & S2).
    exists y. rewrite lookup_delete_ne; [done|]. intros E. apply N. eapply (g_inj _ K); eauto.
  - intros e1 e2 x1 x2. rewrite EH. intros [N1 L1]%lookup_delete_Some [N2 L2]%lookup_delete_Some. by apply (g_inj _ K).
  - intros sa y. rewrite ES. intros [_ L1]%lookup_delete_Some. by eapply (g_spi _ K).
  - rewrite ED. apply (g_held _ K).
  - intros sa t'. unfold holds. rewrite ED, ES. intros X. rewrite lookup_delete_ne; [by eapply (g_live _ K)|]. intros <-. by apply (NH t').
  - by apply (moved_pcs _ _ _ _ M), (g_pcs _ K).
Qed.

(** ** Steps *)

Definition well (P : manager -> Prop) (r : stepped) : Prop := match r with Next s => P s | Stuck => True | Crash => False end.

Lemma moved_goto s s1 t p : threads s1 = threads s -> pc_ok p -> moved s (goto t p s1) t p.
Proof.
  intros E P. split; [done|]. intros t'. unfold pc_of. cbn. rewrite E. case_decide; subst; [by rewrite lookup_insert_eq|by rewrite lookup_insert_ne].
Qed.

Lemma moved_stays s s1 t : kept s -> threads s1 = threads s -> moved s s1 t (pc_of s t).
Proof. intros K E. split; [apply (g_pcs _ K)|]. intros t'. unfold pc_of. rewrite E. by case_decide; subst. Qed.

Lemma handed_same s s' sa : kept s -> held s' = held s -> handed s s' sa.
Proof. intros K E. split; [rewrite E; apply (g_held _ K)|]. intros. unfold holds. by rewrite E. Qed.

Lemma handed_give s s' sa t :
  kept s -> held s' = (t, sa) :: held s -> (forall t', ~ holds s sa t') -> handed s s' sa /\ forall t', holds s' sa t' <-> t' = t \/ holds s sa t'.
Proof.
  intros K E N. unfold handed, holds. rewrite E. repeat split; cbn.
  - constructor; [|apply (g_held _ K)]. intros ([t' sa'] & -> & X)%list_elem_of_fmap. by apply (N t').
  - intros [[= -> ->]|X]%elem_of_cons; done.
  - by right.
  - intros [[= ->]|X]%elem_of_cons; [by left|by right].
  - intros [->|X]; [by left|by right].
Qed.

Lemma holds_unique s sa t t' : kept s -> holds s sa t -> holds s sa t' -> t' = t.
Proof.
  intros K. pose proof (g_held _ K) as N. unfold holds. revert N. induction (held s) as [|[u a] l IH]; [by intros _ ?%elem_of_nil|].
  cbn. intros [Na N]%NoDup_cons [[= -> ->]|X]%elem_of_cons [[= ->]|Y]%elem_of_cons; try done; [| |by apply IH].
  - destruct Na. apply list_elem_of_fmap. by exists (t', a).
  - destruct Na. apply list_elem_of_fmap. by exists (t, sa).
Qed.

Lemma take_back_holds s sa t sa' t' : holds (take_back t sa s) sa' t' <-> holds s sa' t' /\ ~ (t' = t /\ sa' = sa).
Proof. unfold holds, take_back. cbn. rewrite list_elem_of_filter. naive_solver. Qed.

Lemma filter_fst_nodup (P : thread * nat -> Prop) `{!forall x, Decision (P x)} l : NoDup l.*2 -> NoDup (filter P l).*2.
Proof. intros N. eapply sublist_NoDup; [exact N|]. apply fmap_sublist, sublist_filter. Qed.

Lemma handed_take s s' sa t :
  kept s -> held s' = held (take_back t sa s) -> holds s sa t -> handed s s' sa /\ forall t', ~ holds s' sa t'.
Proof.
  intros K E H.
  assert (X : forall sa' t', holds s' sa' t' <-> holds (take_back t sa s) sa' t') by (intros; unfold holds; by rewrite E).
  split; [split|].
  - rewrite E. apply filter_fst_nodup, (g_held _ K).
  - intros sa' t' N. rewrite X, take_back_holds. tauto.
  - intros t'. rewrite X, take_back_holds. intros [Y Z]. apply Z. split; [|done]. by eapply holds_unique.
Qed.

Lemma find_match_spec match_ h l :
  (forall e, e ∈ l -> is_Some (h !! e)) ->
  match find_match match_ h l with
  | Some (Some (e, x)) => e ∈ l /\ h !! e = Some x /\ match_ x = true
  | Some None => forall e x, e ∈ l -> h !! e = Some x -> match_ x = false
  | None => False
  end.
Proof.
  induction l as [|e l IH]; intros A; cbn; [by intros ? ? ?%elem_of_nil|].
  destruct (A e (ltac:(by left))) as [x L]. rewrite L. cbn. destruct (match_ x) eqn:M; [split; [by left|done]|].
  assert (A' : forall e, e ∈ l -> is_Some (h !! e)) by (intros e' X; apply A; by right). specialize (IH A').
  destruct (find_match match_ h l) as [[[e1 x1]|]|]; [|intros e1 x1 [->|X]%elem_of_cons L1; [congruence|by eapply IH]|done].
  destruct IH as (X & Y). split; [by right|done].
Qed.

(** Looking for an entry never meets a freed one. *)
Lemma get_entry_well P s s1 id match_ found not_found :
  kept s -> heap s1 = heap s -> ike_sa_table s1 = ike_sa_table s ->
  (forall e x, heap s !! e = Some x -> tabled s e x -> row_id (ike_sa_id x) = row_id id -> match_ x = true -> well P (found e x)) ->
  ((forall e x, heap s !! e = Some x -> tabled s e x -> row_id (ike_sa_id x) = row_id id -> match_ x = false) -> well P not_found) ->
  well P (get_entry cfg id match_ s1 found not_found).
Proof.
  intros K EH ET F NF. unfold get_entry. rewrite EH, ET. fold (row_id id).
  pose proof (find_match_spec match_ (heap s) (row (ike_sa_table s) (row_id id))) as FM.
  destruct (find_match _ _ _) as [[[e x]|]|].
  - destruct FM as (X & L & M); [intros e' X; destruct (g_rows _ K _ _ X) as (x' & L & _); by exists x'|].
    destruct (g_rows _ K _ _ X) as (x' & L' & R). apply F; try done; [|congruence]. unfold tabled. congruence.
  - apply NF. intros e x L T R. eapply FM; [|by rewrite <- R|done].
    intros e' X. destruct (g_rows _ K _ _ X) as (x' & L' & _). by exists x'.
  - apply FM. intros e' X. destruct (g_rows _ K _ _ X) as (x' & L' & _). by exists x'.
Qed.

(** The entry of an IKE_SA that is held is found by its identifier. *)
Lemma get_entry_by_sa_well P s s1 t sa y found not_found :
  kept s -> heap s1 = heap s -> ike_sa_table s1 = ike_sa_table s -> holds s sa t -> sas s !! sa = Some y ->
  (forall e x, heap s !! e = Some x -> tabled s e x -> ike_sa x = sa -> live x (role_of s e) (holds s (ike_sa x)) ->
     same_local (ike_sa_id x) (sa_id y) -> well P (found e x)) ->
  ((forall e x, heap s !! e = Some x -> ike_sa x <> sa) -> well P not_found) ->
  well P (get_entry_by_sa cfg (sa_id y) sa s1 found not_found).
Proof.
  intros K EH ET H Y F NF. unfold get_entry_by_sa. apply (get_entry_well P s); try done.
  - intros e x L T _ M%Nat.eqb_eq. destruct (g_sas _ K _ _ L) as (y' & L' & SL). apply F; try done.
    + by apply tabled_live.
    + congruence.
  - intros N. apply NF. intros e x L E. subst sa. destruct (g_sas _ K _ _ L) as (y' & L' & SL). replace y' with y in * by congruence.
    destruct (g_entries _ K _ _ L) as [[T _]|[_ [_ NH]]]; [|by apply NH in H].
    specialize (N e x L T (same_local_row _ _ SL)). by rewrite Nat.eqb_refl in N.
Qed.

(** What of an entry its threads do not change by waiting. *)
Definition data_of (x : entry_t) := (ike_sa_id x, ike_sa x, init_hash x, other x, half_open x, processing x).

Lemma wait_loop_data who t x : data_of (snd (wait_loop who t x)) = data_of x.
Proof. unfold wait_loop. repeat case_match; done. Qed.

Lemma data_ike_sa x x' : data_of x' = data_of x -> ike_sa x' = ike_sa x /\ ike_sa_id x' = ike_sa_id x.
Proof. intros E. by injection E. Qed.

(** A thread is at one entry. *)
Lemma role_elsewhere s t e e' : role_of s e t <> Away -> e' <> e -> role_of s e' t = Away.
Proof.
  unfold role_of. intros R N. destruct (pc_of s t); cbn in *; try done; repeat case_decide; congruence.
Qed.

Lemma sas_same s sa y : sas s !! sa = Some y -> sas s = <[sa := y]> (sas s).
Proof. intros L. by rewrite insert_id. Qed.

(** An entry that is in the table and is waited for, or acquired. *)
Lemma judged_kept who s t p e x0 x :
  kept s -> heap s !! e = Some x0 -> tabled s e x0 -> data_of x = data_of x0 ->
  quiet x (upd (role_of s e) t Away) (holds s (ike_sa x0)) -> (forall e', e' <> e -> role_of s e' t = Away) ->
  well kept (judged t p e (wait_loop who t x) s).
Proof.
  intros K L T D Q R. destruct (data_ike_sa _ _ D) as [Dsa Did].
  destruct (g_sas _ K _ _ L) as (y & Y & SL). pose proof (sas_same _ _ _ Y) as ES.
  pose proof (wait_loop_data who t x) as W. destruct (wait_loop who t x) as [v x'] eqn:WL. cbn in W.
  assert (UA : forall r t', upd (upd (role_of s e) t Away) t r t' = upd (role_of s e) t r t') by (intros; upd_cases).
  assert (AW : upd (role_of s e) t Away t = Away) by apply upd_same.
  destruct (data_ike_sa _ _ W) as [Wsa Wid].
  assert (H : forall p' s1 x1 y', threads s1 = threads s -> pc_ok p' -> (forall e', e' <> e -> role_in p' e' = Away) ->
    heap s1 = <[e := x1]> (heap s) -> ike_sa_table s1 = ike_sa_table s ->
    sas s1 = <[ike_sa x0 := y']> (sas s) -> same_local (ike_sa_id x0) (sa_id y') -> spi_ok (sa_id y') -> handed s s1 (ike_sa x0) ->
    ike_sa x1 = ike_sa x0 -> ike_sa_id x1 = ike_sa_id x0 ->
    live x1 (upd (upd (role_of s e) t Away) t (role_in p' e)) (holds s1 (ike_sa x0)) -> kept (goto t p' s1)).
  { intros p' s1 x1 y' E1 Pk Re E2 E3 E4 SL' SP HD Esa Eid LV. apply (kept_update s (goto t p' s1) t p' e x0 x1 y'); try done.
    - by apply moved_goto.
    - intros e' N. rewrite (Re e' N). by rewrite R.
    - by rewrite Eid.
    - by rewrite Eid.
    - eapply live_ext; [|done|exact LV]. intros t'. apply UA. }
  unfold judged. destruct v; cbn.
  - destruct (wait_loop_acquired who t x x' _ _ (fun t' => t' = t \/ holds s (ike_sa x0) t') Q AW WL) as (NH & -> & LV); [done|].
    destruct (handed_give s (give t (ike_sa x0) s) (ike_sa x0) t K eq_refl NH) as [HD HG].
    assert (LV' : live (with_checked_out (Some t) x) (upd (upd (role_of s e) t Away) t Away) (holds (give t (ike_sa x0) s) (ike_sa x0))).
    { eapply live_ext; [done| |exact LV]. intros t'. symmetry. apply HG. }
    destruct p as [|m id]; cbn; rewrite ?Dsa.
    + by apply (H Idle _ (with_checked_out (Some t) x) y); try done; apply (g_spi _ K _ _ Y).
    + set (x1 := if is_fragment m then _ else _).
      assert (X1 : ike_sa x1 = ike_sa x0 /\ ike_sa_id x1 = ike_sa_id x0 /\ lock_of (with_checked_out (Some t) x) = lock_of x1).
      { subst x1. destruct (is_fragment m); cbn; by rewrite Dsa. }
      destruct X1 as (X1 & X2 & X3). rewrite X1. unfold load_sa. rewrite Y. cbn.
      set (y1 := if _ =? 0 then _ else _).
      assert (Y1 : same_local (ike_sa_id x0) (sa_id y1) /\ spi_ok (sa_id y1)).
      { pose proof (g_spi _ K _ _ Y) as SP. subst y1. destruct (Z.eqb_spec (responder_spi (sa_id y)) 0) as [E0|N0]; [|done].
        destruct SL as (S1 & S2 & S3). specialize (SP E0). unfold same_local, spi_ok, local_spi in *. cbn.
        split; [|done]. rewrite S1, S2 in *. split; [done|]. split; [done|]. rewrite S3.
        destruct SP as [-> | ->]; [done|]. by rewrite orb_true_r. }
      destruct Y1 as [Y1 Y2]. apply (H Idle _ x1 y1); try done. by eapply live_lock.
  - apply (H Idle _ x' y); try done; [by apply (g_spi _ K _ _ Y)|by apply handed_same|congruence|congruence|].
    eapply wait_loop_refused; [exact Q|done|exact WL].
  - apply (H (Waiting e p) _ x' y); try done.
    + intros e' N. cbn. by case_decide.
    + by apply (g_spi _ K _ _ Y).
    + by apply handed_same.
    + congruence.
    + congruence.
    + cbn. rewrite decide_True by done. eapply wait_loop_asleep; [exact Q|done|exact WL].
Qed.

(** A thread that is not at an entry. *)
Definition outside (s : manager) (t : thread) : Prop := forall e, role_of s e t = Away.

(** It asks for one. *)
Lemma wait_for_entry_kept who s t p e x :
  kept s -> heap s !! e = Some x -> tabled s e x -> outside s t -> well kept (judged t p e (wait_for_entry who t x) s).
Proof.
  intros K L T O. destruct (tabled_live _ _ _ K L T) as [Q A].
  unfold wait_for_entry. destruct (driveout_new_threads x); [|].
  - cbn. destruct (g_sas _ K _ _ L) as (y & Y & SL). eapply (kept_update s _ t Idle e x x y); try done.
    + exact (sas_same _ _ _ Y).
    + by apply moved_goto.
    + by apply handed_same.
    + by apply (g_spi _ K _ _ Y).
    + eapply live_ext; [|done|split; [exact Q|exact A]]. intros t'. upd_cases.
  - eapply judged_kept; try done. eapply quiet_ext; [|done|exact Q]. intros t'. upd_cases.
Qed.

(** A thread that waits and was woken. *)
Lemma waited_at s t e p : kept s -> pc_of s t = Waiting e p -> exists x, heap s !! e = Some x /\ tabled s e x /\ role_of s e t = Waits.
Proof.
  intros K E. assert (R : role_of s e t = Waits) by (unfold role_of; rewrite E; cbn; by case_decide).
  destruct (heap s !! e) as [x|] eqn:L; [|by apply (g_free _ K e t) in L; congruence].
  exists x. split; [done|]. split; [|done]. destruct (g_entries _ K _ _ L) as [[T _]|[_ [[t' [R' A]] _]]]; [done|].
  destruct (decide (t = t')) as [->|N]; [congruence|]. apply A in N. congruence.
Qed.

Lemma woken_kept who s t p e :
  kept s -> pc_of s t = Waiting e p ->
  well kept (load e s (fun x => if bool_decide (t ∈ sleepers x) then Stuck else judged t p e (woken who t x) s)).
Proof.
  intros K E. destruct (waited_at _ _ _ _ K E) as (x & L & T & R). unfold load. rewrite L. case_bool_decide as S; [done|].
  destruct (tabled_live _ _ _ K L T) as [Q A]. unfold woken. eapply judged_kept; try done.
  - by apply quiet_leave.
  - intros e' N. eapply role_elsewhere; [|exact N]. congruence.
Qed.

Lemma checkout_kept who t id s : kept s -> outside s t -> well kept (checkout cfg who t id s).
Proof.
  intros K O. unfold checkout, get_entry_by_id. eapply get_entry_well; try done. intros e x L T _ _. by apply wait_for_entry_kept.
Qed.

(** A thread outside moves to where it is not at an entry either. *)
Lemma outside_move s s1 t p :
  kept s -> outside s t -> heap s1 = heap s -> ike_sa_table s1 = ike_sa_table s -> sas s1 = sas s -> held s1 = held s ->
  threads s1 = threads s -> pc_ok p -> (forall e, role_in p e = Away) -> kept (goto t p s1).
Proof. intros K O E1 E2 E3 E4 E5 P R. eapply (kept_move s _ t p); try done; [by apply moved_goto|]. intros e. by rewrite R, O. Qed.

Lemma find_by_message_kept who t m id s : kept s -> outside s t -> well kept (find_by_message cfg who t m id s).
Proof.
  intros K O. unfold find_by_message, get_entry_by_id. eapply get_entry_well; try done.
  - intros e x L T _ _. case_match; [by apply (outside_move s)|by apply wait_for_entry_kept].
  - intros _. by apply (outside_move s).
Qed.

(** ** Checking in *)

(** The counters of half-open IKE_SAs and the hashes are beside. *)
Definition core (s : manager) := (ike_sa_table s, heap s, sas s, threads s, held s).

Lemma core_eq s s' : core s' = core s ->
  ike_sa_table s' = ike_sa_table s /\ heap s' = heap s /\ sas s' = sas s /\ threads s' = threads s /\ held s' = held s.
Proof. intros E. by injection E. Qed.

Lemma core_put_half_open k x s : core (put_half_open cfg k x s) = core s.
Proof. done. Qed.

Lemma core_remove_half_open k x s : core (remove_half_open cfg k x s) = core s.
Proof. unfold remove_half_open. by case_match. Qed.

(** The holder of an entry changes it, and keeps or gives back its IKE_SA. *)
Lemma held_update s s' t e x x' y y' :
  kept s -> outside s t -> heap s !! e = Some x -> tabled s e x -> sas s !! ike_sa x = Some y ->
  heap s' = <[e := x']> (heap s) -> ike_sa_table s' = ike_sa_table s -> sas s' = <[ike_sa x := y']> (sas s) -> threads s' = threads s ->
  handed s s' (ike_sa x) -> ike_sa x' = ike_sa x -> row_id (ike_sa_id x') = row_id (ike_sa_id x) ->
  same_local (ike_sa_id x') (sa_id y') -> spi_ok (sa_id y') ->
  live x' (role_of s e) (holds s' (ike_sa x)) -> kept s'.
Proof.
  intros K O L T Y E1 E2 E3 E4 HD Esa Er SL SP LV. eapply (kept_update s _ t (pc_of s t)); try done.
  - by apply moved_stays.
  - eapply live_ext; [|done|exact LV]. intros t'. upd_cases.
Qed.

Lemma checkin_kept k who t sa s : kept s -> outside s t -> holds s sa t -> well kept (checkin cfg k who t sa s).
Proof.
  intros K O H. destruct (g_live _ K _ _ H) as [y Y]. unfold checkin, load_sa. rewrite Y.
  destruct (handed_take s (take_back t sa s) sa t K eq_refl H) as [HD NH].
  eapply (get_entry_by_sa_well _ s); try done.
  - intros e x L T <- [Q A] SL.
    set (x1 := with_processing _ _).
    assert (Q1 : quiet x1 (role_of s e) (holds (take_back t (ike_sa x) s) (ike_sa x))).
    { eapply quiet_lock; [|eapply (quiet_checkin x _ _ _ t Q H NH)]. done. }
    assert (F : forall s1 x2, core s1 = core (take_back t (ike_sa x) s) -> data_of (with_half_open true (with_other None x2)) = data_of (with_half_open true (with_other None x1)) ->
      lock_of x2 = lock_of x1 -> kept (store e (signal who x2) s1)).
    { intros s1 x2 C D LK. apply core_eq in C as (C1 & C2 & C3 & C4 & C5). injection D as D1 D2 D3 D4.
      eapply (held_update s _ t e x (signal who x2) y y); try done; cbn.
      - by rewrite C2.
      - rewrite C3. exact (sas_same _ _ _ Y).
      - split; unfold holds; cbn; rewrite C5; apply HD.
      - rewrite D1. symmetry. by apply same_local_row.
      - by rewrite D1.
      - by apply (g_spi _ K _ _ Y).
      - apply live_signal. eapply quiet_lock; [symmetry; exact LK|]. eapply quiet_ext; [done| |exact Q1].
        intros t'. unfold holds. cbn. by rewrite C5. }
    repeat case_match; apply F; rewrite ?core_put_half_open, ?core_remove_half_open; done.
  - intros U. unfold create_and_put_entry.
    set (e := fresh _). assert (L : heap s !! e = None) by (apply not_elem_of_dom, is_fresh).
    assert (F : forall s1 x, core s1 = core (take_back t sa s) -> data_of (with_half_open true (with_other None x)) = data_of (with_half_open true (with_other None (entry_create (sa_id y) sa))) ->
      lock_of x = lock_of (entry_create (sa_id y) sa) -> kept (put_entry cfg e x s1)).
    { intros s1 x C D LK. apply core_eq in C as (C1 & C2 & C3 & C4 & C5). injection D as D1 D2 D3 D4.
      injection LK as LK1 LK2 LK3 LK4 LK5.
      apply (kept_add s _ t (pc_of s t) e x y); try done; cbn; rewrite ?D1, ?D2, ?C1, ?C2, ?C3; try done.
      - exact (sas_same _ _ _ Y).
      - by apply (g_spi _ K _ _ Y).
      - by apply moved_stays.
      - split; unfold holds; cbn; rewrite C5; apply HD.
      - intros t'. rewrite LK2. split; [done|]. unfold holds. cbn. rewrite C5. intros X. by destruct (NH t'). }
    case_match; cbn; by apply F.
Qed.

(** ** Creating *)

(** An IKE_SA that is new is nobody's. *)
Lemma fresh_sa s : kept s -> sas s !! fresh (dom (sas s)) = None /\
  (forall t, ~ holds s (fresh (dom (sas s))) t) /\ forall e x, heap s !! e = Some x -> ike_sa x <> fresh (dom (sas s)).
Proof.
  intros K. assert (N : sas s !! fresh (dom (sas s)) = None) by (apply not_elem_of_dom, is_fresh). split; [done|]. split.
  - intros t X. apply (g_live _ K) in X as [y Y]. congruence.
  - intros e x L E. destruct (g_sas _ K _ _ L) as (y & Y & _). congruence.
Qed.

Lemma fresh_entry s : heap s !! fresh (dom (heap s)) = None.
Proof. apply not_elem_of_dom, is_fresh. Qed.

Lemma get_spi_nonzero random : (get_spi cfg random =? 0) = false -> get_spi cfg random <> 0.
Proof. intros X E. by rewrite E in X. Qed.

Lemma create_new_kept t version initiator random peer s : kept s -> well kept (create_new cfg t version initiator random peer s).
Proof.
  intros K. unfold create_new. destruct (get_spi cfg random =? 0) eqn:Z0; [done|]. cbn.
  destruct (fresh_sa s K) as (N & NH & U).
  set (id := if initiator then _ else _). assert (I : spi_ok id).
  { subst id. destruct initiator; cbn; [by right|]. intros E. cbn in E. by rewrite E in Z0. }
  destruct (handed_give s (give t (fresh (dom (sas s))) s) _ t K eq_refl NH) as [[HN HD] HG].
  eapply (kept_stays s _ t (pc_of s t)); try done.
  - by apply moved_stays.
  - intros e x L. split.
    + destruct (g_sas _ K _ _ L) as (y & Y & SL). exists y. cbn. rewrite lookup_insert_ne; [done|]. apply not_eq_sym. by eapply U.
    + intros t'. apply HD. by eapply U.
  - intros sa y. cbn. intros [[<- <-]|[_ L]]%lookup_insert_Some; [done|]. by eapply (g_spi _ K).
  - intros sa t'. cbn. destruct (decide (sa = fresh (dom (sas s)))) as [->|D]; [by rewrite lookup_insert_eq|].
    rewrite lookup_insert_ne by done. intros X. apply (g_live _ K _ t'). by apply HD.
Qed.

Lemma not_registered s sa : registered sa s = false -> forall e x, heap s !! e = Some x -> ike_sa x <> sa.
Proof.
  unfold registered. intros R e x L E. apply bool_decide_eq_false in R. apply R, Exists_exists.
  exists (e, x). split; [by apply elem_of_map_to_list|done].
Qed.

Lemma checkout_new_kept k t sa s : kept s -> outside s t -> holds s sa t -> registered sa s = false -> well kept (checkout_new cfg k t sa s).
Proof.
  intros K O H R. destruct (g_live _ K _ _ H) as [y Y]. unfold checkout_new, load_sa. rewrite Y.
  unfold create_and_put_entry. set (e := fresh _). pose proof (fresh_entry s : heap s !! e = None) as L.
  assert (F : forall s1 x, core s1 = core s -> data_of (with_half_open true (with_other None x)) = data_of (with_half_open true (with_other None (entry_create (sa_id y) sa))) ->
    lock_of x = lock_of (entry_create (sa_id y) sa) -> kept (store e (with_checked_out (Some t) x) (put_entry cfg e x s1))).
  { intros s1 x C D LK. apply core_eq in C as (C1 & C2 & C3 & C4 & C5). injection D as D1 D2 D3 D4.
    injection LK as LK1 LK2 LK3 LK4 LK5.
    apply (kept_add s _ t (pc_of s t) e (with_checked_out (Some t) x) y); try done; cbn; rewrite ?D1, ?D2, ?C1, ?C2, ?C3; try done.
    - by apply not_registered.
    - by rewrite insert_insert_eq.
    - exact (sas_same _ _ _ Y).
    - by apply (g_spi _ K _ _ Y).
    - by apply moved_stays.
    - by apply handed_same.
    - intros t'. unfold holds. cbn. rewrite C5. split; [by intros [= <-]|]. intros X. f_equal. by eapply holds_unique. }
  case_match; cbn; by apply F.
Qed.

Lemma with_hash_segment_well P k t h s next :
  (forall r, r = row_of cfg (chunk_hash k h) -> well P (next r (Z.land r (segment_mask cfg)))) -> well P (with_hash_segment cfg k t h s next).
Proof. intros F. unfold with_hash_segment. destruct (init_locked s !! _); [|by apply F]. destruct (_ =? _)%nat; [by apply F|done]. Qed.

Lemma checkout_by_message_kept k t m random s : kept s -> outside s t -> well kept (checkout_by_message cfg k t m random s).
Proof.
  intros K O. unfold checkout_by_message. destruct (is_init m); [|by apply (outside_move s)].
  destruct (get_init_hash m) as [h|]; [|done]. apply with_hash_segment_well. intros r ->. cbv zeta.
  destruct (find_hash _ _); [by apply (outside_move s)|]. destruct (get_spi cfg random =? 0) eqn:Z0; cbn.
  - eapply (kept_move s _ t (pc_of s t)); try done. by apply moved_stays.
  - apply (outside_move s); try done. cbn. by apply get_spi_nonzero.
Qed.

Lemma put_new_kept ok t m id h peer s : kept s -> pc_of s t = Room m id h -> well kept (put_new cfg ok t m id h peer s).
Proof.
  intros K E. assert (O : outside s t) by (intros e; unfold role_of; by rewrite E).
  unfold put_new. destruct ok; [|by apply (outside_move s)]. cbn.
  destruct (fresh_sa s K) as (N & NH & U). set (sa := fresh (dom (sas s))) in *.
  set (e := fresh _). pose proof (fresh_entry s : heap s !! e = None) as L.
  set (y := {| sa_id := id; sa_state := _; sa_other := _ |}). set (x := with_checked_out _ _).
  destruct (handed_give s (give t sa s) sa t K eq_refl NH) as [HD HG].
  apply (kept_add s _ t Idle e x y); try done.
  - intros E0. pose proof (g_pcs _ K t) as P. rewrite E in P. cbn in P, E0. congruence.
  - by apply moved_goto.
  - intros t'. unfold holds. cbn. rewrite elem_of_cons. split; [intros [= <-]; by left|].
    intros [[= ->]|X]; [done|]. by destruct (NH t').
Qed.

(** ** Destroying *)

(** The thread that drives an entry, at first and each time it is woken. *)
Lemma drive_out_kept s s1 t e x x1 :
  kept s -> heap s !! e = Some x -> tabled s e x -> (forall e', e' <> e -> role_of s e' t = Away) ->
  role_of s e t = Away /\ holds s (ike_sa x) t \/ role_of s e t = Drives /\ t ∉ sleepers x ->
  ike_sa_table s1 = ike_sa_table s -> heap s1 = heap s -> sas s1 = sas s -> threads s1 = threads s ->
  handed s s1 (ike_sa x) -> (forall t', holds s1 (ike_sa x) t' <-> holds s (ike_sa x) t' /\ t' <> t) ->
  data_of x1 = data_of x -> waiting_threads x1 = waiting_threads x -> checked_out x1 = checked_out x ->
  driveout_new_threads x1 = true -> driveout_waiting_threads x1 = true ->
  well kept (drive_out cfg t e x1 s1).
Proof.
  intros K L T R RT E1 E2 E3 E4 HD HH D W C DN DW. destruct (tabled_live _ _ _ K L T) as [Q A].
  destruct (g_sas _ K _ _ L) as (y & Y & SL). destruct (data_ike_sa _ _ D) as [Dsa Did].
  unfold drive_out. rewrite W. destruct (Z.eqb_spec (waiting_threads x) 0) as [W0|W0]; cbn.
  - destruct (quiet_alone _ _ _ _ Q RT W0) as [AL HL].
    destruct (remove_first_in e (row (ike_sa_table s) (row_id (ike_sa_id x))) T) as [l RF].
    unfold remove_entry. fold (row_id (ike_sa_id x1)). cbn [store with_heap ike_sa_table]. rewrite Did, E1, RF. cbn.
    apply (kept_close s _ t e x x1 l); try done.
    + cbn. by rewrite E2.
    + by apply moved_goto.
    + intros t' X. apply HH in X as [X N]. apply N. by apply HL.
  - apply (kept_update s _ t (Driving e) e x (with_sleepers [t] x1) y); try done.
    + cbn. by rewrite E2.
    + cbn. rewrite E3. exact (sas_same _ _ _ Y).
    + by apply moved_goto.
    + intros e' N. cbn. case_decide; [done|]. symmetry. by apply R.
    + cbn. by rewrite Did.
    + cbn. by rewrite Did.
    + by apply (g_spi _ K _ _ Y).
    + cbn. rewrite decide_True by done.
      eapply live_ext; [done| |eapply (live_drive x (with_sleepers [t] x1) _ _ t Q RT W0)]; try done.
      intros t'. symmetry. apply HH.
Qed.

Lemma checkin_and_destroy_kept t sa s : kept s -> outside s t -> holds s sa t -> well kept (checkin_and_destroy cfg t sa s).
Proof.
  intros K O H. destruct (g_live _ K _ _ H) as [y Y]. unfold checkin_and_destroy, load_sa. rewrite Y.
  destruct (handed_take s (take_back t sa s) sa t K eq_refl H) as [HD NH].
  eapply (get_entry_by_sa_well _ s); try done.
  - intros e x L T <- [Q A] SL. destruct (l_held _ _ _ Q _ H) as [_ W]. rewrite W. cbn.
    eapply (drive_out_kept s _ t e x); try done.
    + left. split; [apply O|done].
    + intros t'. rewrite take_back_holds. tauto.
  - intros U. destruct HD as [HN HD]. eapply (kept_stays s _ t (pc_of s t)); try done.
    + by apply moved_stays.
    + intros e x L. split.
      * destruct (g_sas _ K _ _ L) as (y' & Y' & SL). exists y'. cbn. rewrite lookup_delete_ne; [done|]. apply not_eq_sym. by eapply U.
      * intros t'. apply HD. by eapply U.
    + intros sa' y'. cbn. intros [_ L]%lookup_delete_Some. by eapply (g_spi _ K).
    + intros sa' t'. cbn. destruct (decide (sa' = sa)) as [->|N]; [intros X; by destruct (NH t')|].
      rewrite lookup_delete_ne by done. intros X. apply (g_live _ K _ t'). by apply HD.
Qed.

Lemma driving_at s t e : kept s -> role_of s e t = Drives -> exists x, heap s !! e = Some x /\ tabled s e x.
Proof.
  intros K R. destruct (heap s !! e) as [x|] eqn:L; [|by apply (g_free _ K e t) in L; congruence].
  exists x. split; [done|]. destruct (g_entries _ K _ _ L) as [[T _]|[_ [[t' [R' A]] _]]]; [done|].
  destruct (decide (t = t')) as [->|N]; [congruence|]. apply A in N. congruence.
Qed.

Lemma driving_kept t e s : kept s -> pc_of s t = Driving e ->
  well kept (load e s (fun x => if bool_decide (t ∈ sleepers x) then Stuck else drive_out cfg t e x s)).
Proof.
  intros K E. assert (R : role_of s e t = Drives) by (unfold role_of; rewrite E; cbn; by case_decide).
  destruct (driving_at _ _ _ K R) as (x & L & T). unfold load. rewrite L. case_bool_decide as S; [done|].
  destruct (tabled_live _ _ _ K L T) as [Q A]. destruct (l_drives _ _ _ Q _ R) as [C W].
  eapply (drive_out_kept s s t e x x); try done.
  - intros e' N. eapply role_elsewhere; [|exact N]. congruence.
  - by right.
  - by apply handed_same.
  - intros t'. split; [|tauto]. intros X. split; [done|]. destruct (l_held _ _ _ Q _ X). congruence.
  - by rewrite (l_flags _ _ _ Q).
Qed.

(** The entry of a thread that took it out of the table. *)
Lemma closes_at s t e : kept s -> role_of s e t = Closes -> exists x, heap s !! e = Some x /\ (forall e', e' <> e -> role_of s e' t = Away).
Proof.
  intros K R. destruct (heap s !! e) as [x|] eqn:L; [|by apply (g_free _ K e t) in L; congruence].
  exists x. split; [done|]. intros e' N. eapply role_elsewhere; [|exact N]. congruence.
Qed.

(** The steps of a thread after it took an entry out of the table. *)
Lemma closes_in s t e p : pc_of s t = p -> (forall e', role_in p e' = if decide (e' = e) then Closes else Away) -> role_of s e t = Closes.
Proof. intros <- R. unfold role_of. rewrite R. by case_decide. Qed.

Lemma closing_move s s1 t e p :
  kept s -> core s1 = core s -> role_of s e t = Closes -> pc_ok p -> (forall e', role_in p e' = if decide (e' = e) then Closes else Away) ->
  kept (goto t p s1).
Proof.
  intros K C R P RP. apply core_eq in C as (C1 & C2 & C3 & C4 & C5). destruct (closes_at _ _ _ K R) as (x & L & A).
  eapply (kept_move s _ t p); try done; [by apply moved_goto|]. intros e'. rewrite RP. case_decide; subst; [done|]. symmetry. by apply A.
Qed.

Lemma remove_init_hash_well P k t h s next :
  (forall x, well P (next (with_init_hashes_table x s))) -> well P (remove_init_hash cfg k t h s next).
Proof. intros F. apply with_hash_segment_well. intros r _. apply F. Qed.

Lemma closing_kept k t e s : kept s -> pc_of s t = Closing e ->
  well kept (load e s (fun x => Next (goto t (Unhashing e) (if half_open x then remove_half_open cfg k x s else s)))).
Proof.
  intros K E. assert (R : role_of s e t = Closes) by (eapply closes_in; [exact E|done]).
  destruct (closes_at _ _ _ K R) as (x & L & _). unfold load. rewrite L. eapply closing_move; try done.
  destruct (half_open x); [apply core_remove_half_open|done].
Qed.

Lemma unhashing_kept k t e s : kept s -> pc_of s t = Unhashing e ->
  well kept (load e s (fun x =>
    match init_hash x with
    | Some hash => remove_init_hash cfg k t hash s (fun s => Next (goto t (Freeing e) s))
    | None => Next (goto t (Freeing e) s)
    end)).
Proof.
  intros K E. assert (R : role_of s e t = Closes) by (eapply closes_in; [exact E|done]).
  destruct (closes_at _ _ _ K R) as (x & L & _). unfold load. rewrite L. destruct (init_hash x) as [h|].
  - apply remove_init_hash_well. intros y. by eapply closing_move.
  - by eapply closing_move.
Qed.

Lemma freeing_kept t e s : kept s -> pc_of s t = Freeing e ->
  well kept (load e s (fun x => load_sa (ike_sa x) s (fun _ =>
    Next (goto t Idle (with_heap (delete e (heap s)) (with_sas (delete (ike_sa x) (sas s)) s)))))).
Proof.
  intros K E. assert (R : role_of s e t = Closes) by (eapply closes_in; [exact E|done]).
  destruct (closes_at _ _ _ K R) as (x & L & A). unfold load, load_sa. rewrite L. destruct (g_sas _ K _ _ L) as (y & -> & _).
  eapply (kept_freed s _ t e x); try done. by apply moved_goto.
Qed.

(** ** Changes of an IKE_SA *)

(** The row of an entry does not change with a new initiator's SPI. *)
Lemma masked_row spi new_spi mask :
  Z.land (u32 (Z.lor (Z.land spi mask) (Z.land new_spi (Z.lxor mask (u64 (-1)))))) mask = Z.land (u32 spi) mask.
Proof.
  apply Z.bits_inj'. intros i I. unfold u32, u64. change (2 ^ 64) with (2 ^ 64). rewrite !Z.land_spec.
  destruct (Z.testbit mask i) eqn:M; [|by rewrite !andb_false_r]. rewrite !andb_true_r.
  destruct (Z.ltb_spec i 32) as [B|B]; [|by rewrite !Z.mod_pow2_bits_high by lia].
  rewrite !Z.mod_pow2_bits_low by lia. rewrite Z.lor_spec, !Z.land_spec, Z.lxor_spec, M.
  replace ((-1) mod 2 ^ 64) with (Z.ones 64) by reflexivity. rewrite Z.ones_spec_low by lia. cbn. by rewrite andb_true_r, andb_false_r, orb_false_r.
Qed.

Lemma spi_ok_same id id' : same_local id id' -> spi_ok id -> (responder_spi id' = 0 -> responder_spi id = 0 \/ ike_version id = IKEV1_MAJOR_VERSION \/ is_initiator_flag id = true) -> spi_ok id'.
Proof. intros (A & B & C) S I R. destruct (I R) as [E|E]; [apply S in E|]; by rewrite <- A, <- B. Qed.

Lemma spi_ok_local id id' : same_local id id' -> spi_ok id -> spi_ok id'.
Proof.
  intros SL S. eapply spi_ok_same; try done. intros R. destruct SL as (A & B & C). unfold local_spi in C. rewrite <- A, <- B in C.
  destruct (Z.eqb_spec (ike_version id) IKEV1_MAJOR_VERSION); [by right; left|]. destruct (is_initiator_flag id); [by right; right|].
  cbn in C. left. congruence.
Qed.

Lemma same_local_trans a b c : same_local a b -> same_local b c -> same_local a c.
Proof. intros (? & ? & ?) (? & ? & ?). unfold same_local. repeat split; congruence. Qed.

Lemma new_initiator_spi_kept who t sa random s : kept s -> outside s t -> holds s sa t -> well kept (new_initiator_spi cfg who sa random s).
Proof.
  intros K O H. destruct (g_live _ K _ _ H) as [y Y]. unfold new_initiator_spi, load_sa. rewrite Y.
  destruct (is_initiator_flag (sa_id y)) eqn:I; [|by rewrite orb_true_r]. destruct (_ || _); [done|].
  eapply (get_entry_by_sa_well _ s); try done. intros e x L T <- [Q A] SL. case_match; [done|]. cbv zeta.
  set (id := set_initiator_spi _ _).
  assert (LI : local_spi id = initiator_spi id) by (unfold local_spi; cbn; rewrite I; by rewrite orb_true_r).
  assert (LY : local_spi (sa_id y) = initiator_spi (sa_id y)) by (unfold local_spi; rewrite I; by rewrite orb_true_r).
  eapply (held_update s _ t e x (signal who (with_ike_sa_id id x)) y {| sa_id := id; sa_state := sa_state y; sa_other := sa_other y |}); try done.
  - by apply handed_same.
  - cbn. rewrite (same_local_row _ _ SL). unfold row_id, row_of, ike_sa_id_hash. rewrite LI, LY. apply masked_row.
  - intros _. by right.
  - apply live_signal. by eapply quiet_lock; [|exact Q].
Qed.

Lemma change_kept t sa x s : kept s -> holds s sa t ->
  well kept (load_sa sa s (fun y => if decide (same_local (sa_id y) (sa_id x)) then Next (store_sa sa x s) else Stuck)).
Proof.
  intros K H. destruct (g_live _ K _ _ H) as [y Y]. unfold load_sa. rewrite Y. case_decide as SL; [|done].
  eapply (kept_stays s _ t (pc_of s t)); try done.
  - by apply moved_stays.
  - intros e z L. split; [|done]. destruct (g_sas _ K _ _ L) as (y' & Y' & SL'). cbn. destruct (decide (ike_sa z = sa)) as [E|N].
    + subst sa. exists x. rewrite lookup_insert_eq. split; [done|]. replace y' with y in * by congruence. by eapply same_local_trans.
    + exists y'. by rewrite lookup_insert_ne.
  - intros sa' z. cbn. intros [[<- <-]|[_ L]]%lookup_insert_Some; [|by eapply (g_spi _ K)]. eapply spi_ok_local; [exact SL|]. by apply (g_spi _ K _ _ Y).
  - apply (g_held _ K).
  - intros sa' t'. cbn. intros X. destruct (decide (sa' = sa)) as [->|N]; [by rewrite lookup_insert_eq|].
    rewrite lookup_insert_ne by done. by eapply (g_live _ K).
Qed.

(** ** Every step *)

Lemma wake_kept t s : kept s -> well kept (wake t s).
Proof.
  intros K. unfold wake.
  assert (F : forall e, at_entry (role_of s e t) -> (role_of s e t = Closes -> False) ->
    well kept (load e s (fun x => Next (store e (with_sleepers (filter (fun t' => t' <> t) (sleepers x)) x) s)))).
  { intros e R N. assert (X : exists x, heap s !! e = Some x /\ tabled s e x).
    { destruct (heap s !! e) as [x|] eqn:L; [|apply (g_free _ K e t) in L; destruct R; congruence].
      exists x. split; [done|]. destruct (g_entries _ K _ _ L) as [[T _]|[_ [[t' [R' A]] _]]]; [done|].
      destruct (decide (t = t')) as [->|D]; [done|]. apply A in D. destruct R; congruence. }
    destruct X as (x & L & T). unfold load. rewrite L. cbn. destruct (g_sas _ K _ _ L) as (y & Y & SL).
    eapply (kept_update s _ t (pc_of s t) e x _ y); try done.
    - exact (sas_same _ _ _ Y).
    - by apply moved_stays.
    - by apply handed_same.
    - by apply (g_spi _ K _ _ Y).
    - eapply live_ext; [|done|apply (live_wake x _ _ t (tabled_live _ _ _ K L T) R)]. intros t'. upd_cases. }
  destruct (pc_of s t) eqn:E; try done; apply F; unfold role_of; rewrite E; cbn; rewrite decide_True by done; try done; [by left|by right].
Qed.

Lemma idle_outside s t : pc_of s t = Idle -> outside s t.
Proof. intros E e. unfold role_of. by rewrite E. Qed.

Lemma begin_kept k who t c s : kept s -> pc_of s t = Idle -> (forall sa, sa_of c = Some sa -> holds s sa t) -> well kept (begin cfg k who t c s).
Proof.
  intros K E H. pose proof (idle_outside _ _ E) as O. destruct c; cbn in *.
  - by apply checkout_kept.
  - by apply checkout_by_message_kept.
  - by apply create_new_kept.
  - destruct (registered sa s) eqn:R; [done|]. apply checkout_new_kept; auto.
  - apply checkin_kept; auto.
  - apply checkin_and_destroy_kept; auto.
  - eapply new_initiator_spi_kept; eauto.
  - eapply change_kept; eauto.
Qed.

Lemma continue_kept k who ok peer t s : kept s -> well kept (continue cfg k who ok peer t s).
Proof.
  intros K. unfold continue. destruct (pc_of s t) eqn:E; [done| | | | | | | | | ].
  - by apply woken_kept.
  - assert (O : outside s t) by (intros e; unfold role_of; by rewrite E).
    pose proof (g_pcs _ K t) as P. rewrite E in P. case_match; by apply (outside_move s).
  - by apply put_new_kept.
  - assert (O : outside s t) by (intros e; unfold role_of; by rewrite E).
    apply remove_init_hash_well. intros x. by apply (outside_move s).
  - apply find_by_message_kept; [done|]. intros e. unfold role_of. by rewrite E.
  - by apply driving_kept.
  - by apply closing_kept.
  - by apply unhashing_kept.
  - by apply freeing_kept.
Qed.

Lemma step_kept k l s : kept s -> well kept (step cfg k l s).
Proof.
  intros K. destruct l as [who t c|who ok peer t|t]; cbn; [|by apply continue_kept|by apply wake_kept].
  destruct (pc_of s t) eqn:E; try done. destruct (sa_of c) as [sa|] eqn:S.
  - case_bool_decide as H; [|done]. apply begin_kept; try done. intros sa' X. unfold holds. congruence.
  - apply begin_kept; try done. intros sa' X. congruence.
Qed.

Lemma created_kept : kept ike_sa_manager_create.
Proof.
  constructor; cbn; unfold row, holds, pc_of; cbn; intros; try (rewrite lookup_empty in *); cbn in *; try done.
  - by apply elem_of_nil in H.
  - constructor.
  - constructor.
  - by apply elem_of_nil in H.
Qed.

Lemma well_impl (P Q : manager -> Prop) r : (forall s, P s -> Q s) -> well P r -> well Q r.
Proof. intros I. destruct r; cbn; auto. Qed.

(** Of every run, and of another invariant that each step keeps. *)
Lemma run_well (P : manager -> Prop) k ls s :
  (forall l s, kept s -> P s -> well P (step cfg k l s)) -> kept s -> P s -> well (fun s => kept s /\ P s) (run cfg k ls s).
Proof.
  intros F. revert s. induction ls as [|l ls IH]; intros s K H; [done|]. cbn. pose proof (step_kept k l s K) as K'.
  specialize (F l s K H). destruct (step cfg k l s); try done. by apply IH.
Qed.

Lemma run_kept k ls : well kept (run cfg k ls ike_sa_manager_create).
Proof.
  apply (well_impl (fun s => kept s /\ True)); [by intros s []|]. apply run_well; [|apply created_kept|done].
  intros l s K _. eapply well_impl; [|by apply step_kept]. done.
Qed.

(** A thread at an entry that is awake can go on. *)
Lemma awake_continues k who ok peer t e x s :
  kept s -> heap s !! e = Some x -> at_entry (role_of s e t) -> t ∉ sleepers x -> exists s', continue cfg k who ok peer t s = Next s'.
Proof.
  intros K L R S. pose proof (continue_kept k who ok peer t s K) as W.
  assert (N : continue cfg k who ok peer t s <> Stuck).
  { unfold continue, role_of in *. destruct (pc_of s t); cbn in R; try (by destruct R); case_decide as D; try (by destruct R); subst e0.
    - unfold load. rewrite L, bool_decide_eq_false_2 by done. destruct (woken who t x) as [[] x']; try done.
      cbn. destruct p; [done|]. cbn. unfold load_sa. by case_match.
    - unfold load. rewrite L, bool_decide_eq_false_2 by done. unfold drive_out. by case_match. }
  destruct (continue cfg k who ok peer t s) as [s'| |]; [by exists s'|done|done].
Qed.

(** The entry a thread is at. *)
Lemma entry_of s t e : kept s -> at_entry (role_of s e t) -> exists x, heap s !! e = Some x /\ live x (role_of s e) (holds s (ike_sa x)).
Proof.
  intros K R. destruct (heap s !! e) as [x|] eqn:L; [|apply (g_free _ K e t) in L; destruct R; congruence].
  exists x. split; [done|]. destruct (g_entries _ K _ _ L) as [[_ V]|[_ [[t' [R' A]] _]]]; [done|].
  destruct (decide (t = t')) as [->|N]; [destruct R; congruence|]. apply A in N. destruct R; congruence.
Qed.

End Kept.

(** * What holds of every run *)

(** C5: An IKE_SA is held by one thread at a time: in every run of any threads no IKE_SA is
    with two threads, the one a thread holds is in memory, and if the manager has an entry
    for it that entry is in the table and checked out by the thread, so that no other
    thread gets it. *)
Theorem held_by_one_thread cfg k ls s t t' sa :
  run cfg k ls ike_sa_manager_create = Next s -> (t, sa) ∈ held s -> (t', sa) ∈ held s ->
  t = t' /\ is_Some (sas s !! sa) /\
  forall e x, heap s !! e = Some x -> ike_sa x = sa -> checked_out x = Some t /\ e ∈ row (ike_sa_table s) (row_id cfg (ike_sa_id x)).
Proof.
  intros E H H'. pose proof (run_kept cfg k ls) as K. rewrite E in K. cbn in K. split; [by eapply holds_unique|].
  split; [by eapply (g_live _ _ K)|]. intros e x L <-. destruct (g_entries _ _ K _ _ L) as [[T [Q _]]|[_ [_ N]]]; [|by destruct (N t)].
  split; [by apply (l_held _ _ _ Q)|done].
Qed.

(** C18: No run of any threads uses an entry or an IKE_SA after it was freed: not a thread that
    waits for an entry while another destroys it, not one that looks through a row, and not
    the thread that destroys it. *)
Theorem manager_uses_no_freed_memory cfg k ls : run cfg k ls ike_sa_manager_create <> Crash.
Proof. pose proof (run_kept cfg k ls) as K. by destruct (run cfg k ls ike_sa_manager_create). Qed.

(** C6: No thread is forgotten at an entry: as long as one waits for it, or waits for the
    others in order to destroy it, its IKE_SA is held by a thread outside of the manager,
    which may check it in, or one of the threads at the entry is awake and can go on. *)
Theorem no_thread_is_forgotten cfg k ls s t e :
  run cfg k ls ike_sa_manager_create = Next s -> (exists p, pc_of s t = Waiting e p) \/ pc_of s t = Driving e ->
  exists x, heap s !! e = Some x /\
    ((exists t', (t', ike_sa x) ∈ held s /\ checked_out x = Some t') \/
     exists t', ((exists p, pc_of s t' = Waiting e p) \/ pc_of s t' = Driving e) /\
       forall who ok peer, exists s', step cfg k (Continue who ok peer t') s = Next s').
Proof.
  intros E W. pose proof (run_kept cfg k ls) as K. rewrite E in K. cbn in K.
  assert (R : at_entry (role_of s e t)).
  { unfold role_of. destruct W as [[p W]|W]; rewrite W; cbn; rewrite decide_True by done; [by left|by right]. }
  destruct (entry_of _ _ _ _ K R) as (x & L & [Q A]). exists x. split; [done|].
  destruct (A (ex_intro _ t R)) as [[C D]|(t' & R' & S)].
  - left. destruct (checked_out x) as [t'|] eqn:O; [|done]. exists t'. split; [|done].
    destruct (l_out _ _ _ Q _ O) as [H|H]; [done|]. destruct (l_drives _ _ _ Q _ H). congruence.
  - right. exists t'. split; [|intros who ok peer; cbn; by eapply awake_continues].
    unfold role_of in R'. destruct (pc_of s t') eqn:P; cbn in R'; try (by destruct R'); case_decide; try (by destruct R'); subst; [left; by eexists|by right].
Qed.

(** * A run *)

Definition example_cfg : config := {| table_mask := 3; segment_mask := 1; ikesa_limit := 0; spi_mask := 0; spi_label := 0 |}.
Definition example_peer : host_t := Host AF_INET [10; 0; 0; 1] 500.

(** A thread makes an IKE_SA and puts it into the table, another waits for it, and the first
    destroys it. *)
Definition example_run : list label :=
  [Begin 0 1%nat (Create_new 2 true (Some 5) example_peer); Begin 0 1%nat (Checkout_new 0%nat);
   Begin 0 2%nat (Checkout (Ike_sa_id 2 5 0 true)); Begin 0 1%nat (Checkin_and_destroy 0%nat)].

Lemma held_by_one_thread_witness :
  exists s, run example_cfg [] (take 3 example_run) ike_sa_manager_create = Next s /\ is_Some (sas s !! 0%nat).
Proof.
  eexists. split; [vm_compute; reflexivity|].
  refine (proj1 (proj2 (held_by_one_thread example_cfg [] (take 3 example_run) _ 1%nat 1%nat 0%nat _ _ _))).
  - vm_compute. reflexivity.
  - by left.
  - by left.
Defined.

(** The one that waited is awake when the other wants to destroy the entry. *)
Lemma no_thread_is_forgotten_witness :
  exists s, run example_cfg [] example_run ike_sa_manager_create = Next s /\ exists x, heap s !! 0%nat = Some x.
Proof.
  eexists. split; [vm_compute; reflexivity|].
  destruct (no_thread_is_forgotten example_cfg [] example_run
    ltac:(let r := eval vm_compute in (run example_cfg [] example_run ike_sa_manager_create) in match r with Next ?s => exact s end) 1%nat 0%nat)
    as (x & L & _).
  - vm_compute. reflexivity.
  - right. vm_compute. reflexivity.
  - exists x. exact L.
Defined.
