(* ===== verification/IkeSaManagerBooks.v ===== *)
(** The books of the manager of [IkeSaManager]: that its counters are the numbers of entries
    and of half-open IKE_SAs, and that a hash of an initial message belongs to one IKE_SA. *)

From stdpp Require Import gmap.
From S2P Require Import Prelude Host IkeSaManager IkeSaManagerSpec.

(** * What the books are about *)

(** Of where a thread is: it keeps a hash for a new IKE_SA, or it took the half-open IKE_SA of
    an entry, and the hash, out of the books. *)
Inductive phase_t := Elsewhere | Keeps (h : chunk) | Uncounted (e : nat) | Unhashed (e : nat).

Definition phase (p : pc) : phase_t :=
  match p with
  | New_message _ _ h | Room _ _ h | Forgetting h => Keeps h
  | Unhashing e => Uncounted e
  | Freeing e => Unhashed e
  | _ => Elsewhere
  end.

Definition phase_of (s : manager) (t : thread) : phase_t := phase (pc_of s t).

(** Of an entry. *)
Definition view (x : entry_t) := (half_open x, other x, is_responder x, init_hash x).

(** An entry counts as half-open, for an address and a role. *)
Definition marked (s : manager) (e : nat) (a : chunk) (b : bool) : Prop :=
  exists x, heap s !! e = Some x /\ half_open x = true /\ address_of x = a /\ is_responder x = b /\
    forall t, phase_of s t <> Uncounted e /\ phase_of s t <> Unhashed e.

(** An entry, or a thread that will make one, has a hash. *)
Definition owns (s : manager) (o : nat + thread) (h : chunk) : Prop :=
  match o with
  | inl e => exists x, heap s !! e = Some x /\ init_hash x = Some h /\ forall t, phase_of s t <> Unhashed e
  | inr t => phase_of s t = Keeps h
  end.

(** * Half-open IKE_SAs of an address *)

Definition find_tally (a : chunk) (l : list half_open_t) : Z * Z :=
  match find (fun h => bool_decide (a = ho_other h)) l with Some h => (ho_count h, ho_count_responder h) | None => (0, 0) end.

Lemma find_tally_absent a l : a ∉ map ho_other l -> find_tally a l = (0, 0).
Proof.
  unfold find_tally. induction l as [|h l IH]; [done|]. cbn. rewrite not_elem_of_cons. intros [N X].
  rewrite bool_decide_eq_false_2 by done. by apply IH.
Qed.

Lemma count_half_open_some a b l l' : count_half_open a b l = Some l' ->
  map ho_other l' = map ho_other l /\
  forall a', find_tally a' l' = if decide (a' = a) then ((find_tally a l).1 + 1, (find_tally a l).2 + counts b) else find_tally a' l.
Proof.
  revert l'. unfold find_tally. induction l as [|h l IH]; intros l' E; cbn in *; [done|]. case_bool_decide as D.
  - injection E as <-. subst a. split; [done|]. intros a'. cbn. case_decide as D'; [by rewrite bool_decide_eq_true_2|].
    by rewrite bool_decide_eq_false_2.
  - destruct (count_half_open a b l) as [k|]; [|done]. injection E as <-. destruct (IH k eq_refl) as [E1 E2]. cbn. rewrite E1.
    split; [done|]. intros a'. specialize (E2 a'). case_decide as D'; subst.
    + rewrite bool_decide_eq_false_2 by done. exact E2.
    + case_bool_decide; [done|exact E2].
Qed.

Lemma count_half_open_none a b l : count_half_open a b l = None -> a ∉ map ho_other l.
Proof.
  induction l as [|h l IH]; intros E; cbn in *; [apply not_elem_of_nil|]. case_bool_decide as D; [done|].
  destruct (count_half_open a b l); [done|]. apply not_elem_of_cons. split; [done|by apply IH].
Qed.

Lemma uncount_half_open_some a b l l' : NoDup (map ho_other l) -> uncount_half_open a b l = Some l' ->
  map ho_other l' `sublist_of` map ho_other l /\
  forall a', find_tally a' l' = if decide (a' = a)
    then (if (find_tally a l).1 - 1 =? 0 then (0, 0) else ((find_tally a l).1 - 1, (find_tally a l).2 - counts b)) else find_tally a' l.
Proof.
  revert l'. induction l as [|h l IH]; intros l' N E; cbn in *; [done|]. apply NoDup_cons in N as [Nh N].
  unfold find_tally in *. cbn. case_bool_decide as D.
  - subst a. cbn. destruct (Z.eqb_spec (ho_count h - 1) 0); injection E as <-; cbn.
    + split; [by apply sublist_cons|]. intros a'. case_decide as D; [subst|by rewrite bool_decide_eq_false_2].
      by apply find_tally_absent.
    + split; [done|]. intros a'. case_decide as D; [by rewrite bool_decide_eq_true_2|by rewrite bool_decide_eq_false_2].
  - destruct (uncount_half_open a b l) as [k|]; [|done]. injection E as <-. destruct (IH k N eq_refl) as [E1 E2]. cbn.
    split; [by apply sublist_skip|]. intros a'. specialize (E2 a'). case_decide as D'; subst.
    + rewrite bool_decide_eq_false_2 by done. exact E2.
    + case_bool_decide; [done|exact E2].
Qed.

Lemma uncount_half_open_none a b l : uncount_half_open a b l = None -> a ∉ map ho_other l.
Proof.
  induction l as [|h l IH]; intros E; cbn in *; [apply not_elem_of_nil|]. case_bool_decide as D; [by destruct (_ =? _)|].
  destruct (uncount_half_open a b l); [done|]. apply not_elem_of_cons. split; [done|by apply IH].
Qed.

Section Books.
Context (cfg : config) (hash_key : chunk).

Definition hash_row (c : chunk) : Z := row_of cfg (chunk_hash hash_key c).
Definition tally (s : manager) (a : chunk) : Z * Z := find_tally a (row (half_open_table s) (hash_row a)).

(** The half-open IKE_SAs are those of [M]. *)
Record tallied (M : nat -> chunk -> bool -> Prop) (s : manager) : Prop := {
  t_nodup : forall r, NoDup (map ho_other (row (half_open_table s) r));
  t_addr : forall a, counted (fun e => exists b, M e a b) (tally s a).1 /\ counted (fun e => M e a true) (tally s a).2;
  t_all : counted (fun e => exists a b, M e a b) (half_open_count s);
  t_responder : counted (fun e => exists a, M e a true) (half_open_count_responder s);
}.

Lemma tallied_ext M M' s s' :
  (forall e a b, M' e a b <-> M e a b) -> half_open_table s' = half_open_table s -> half_open_count s' = half_open_count s ->
  half_open_count_responder s' = half_open_count_responder s -> tallied M s -> tallied M' s'.
Proof.
  intros I E1 E2 E3 [A B C D]. constructor; unfold tally in *; rewrite ?E1, ?E2, ?E3; try done.
  - intros a. destruct (B a) as [B1 B2]. split; (eapply counted_iff; [|done]); cbn; naive_solver.
  - eapply counted_iff; [|done]. cbn. naive_solver.
  - eapply counted_iff; [|done]. cbn. naive_solver.
Qed.

Lemma row_insert {A} (table : gmap Z (list A)) r l r' : row (<[r := l]> table) r' = if decide (r' = r) then l else row table r'.
Proof. unfold row. case_decide; subst; [by rewrite lookup_insert_eq|by rewrite lookup_insert_ne]. Qed.

(** One of [M] more is counted. *)
Lemma counted_add_if (P Q : nat -> Prop) n e b :
  ~ P e -> (forall e', Q e' <-> b = true /\ e' = e \/ P e') -> counted P n -> counted Q (n + counts b).
Proof.
  intros N I C. destruct b; cbn.
  - eapply counted_add; [exact N| |exact C]. intros e'. rewrite I. naive_solver.
  - rewrite Z.add_0_r. eapply counted_iff; [|exact C]. intros e'. rewrite I. naive_solver.
Qed.

Lemma counted_remove_if (P Q : nat -> Prop) n e b :
  (b = true -> P e) -> (b = false -> ~ P e) -> (forall e', Q e' <-> e' <> e /\ P e') -> counted P n -> counted Q (n - counts b).
Proof.
  intros Y N I C. destruct b; cbn.
  - eapply (counted_remove P Q); eauto.
  - rewrite Z.sub_0_r. eapply counted_iff; [|exact C]. intros e'. rewrite I. split; [|naive_solver]. intros X. split; [|done].
    intros ->. by apply N.
Qed.

Lemma put_half_open_tallied M M' e x s :
  tallied M s -> (forall a b, ~ M e a b) ->
  (forall e' a b, M' e' a b <-> e' = e /\ a = address_of x /\ b = is_responder x \/ M e' a b) ->
  tallied M' (put_half_open cfg hash_key x s).
Proof.
  intros [A B C D] N I. set (a := address_of x) in *. set (b := is_responder x) in *.
  assert (F : exists l, half_open_table (put_half_open cfg hash_key x s) = <[hash_row a := l]> (half_open_table s) /\ NoDup (map ho_other l) /\
    forall a', find_tally a' l = if decide (a' = a) then ((tally s a).1 + 1, (tally s a).2 + counts b) else find_tally a' (row (half_open_table s) (hash_row a))).
  { unfold put_half_open. cbn. fold a b. fold (hash_row a). destruct (count_half_open a b _) as [l|] eqn:E; eexists; (split; [done|]).
    - apply count_half_open_some in E as [E1 E2]. rewrite E1. done.
    - apply count_half_open_none in E. split; [by constructor|]. intros a'. unfold tally. rewrite (find_tally_absent a) by done.
      unfold find_tally. cbn. case_decide; [by rewrite bool_decide_eq_true_2|by rewrite bool_decide_eq_false_2]. }
  destruct F as (l & E & NL & TL). constructor.
  - intros r. rewrite E, row_insert. case_decide; [done|apply A].
  - intros a'. unfold tally. rewrite E, row_insert. destruct (decide (a' = a)) as [->|Na].
    + rewrite decide_True, TL, decide_True by done. cbn. destruct (B a) as [B1 B2]. split.
      * eapply (counted_add (fun e => exists b, M e a b)); [|intros e'; cbn|exact B1]; [by intros [b' X]; apply N in X|]. setoid_rewrite I. naive_solver.
      * eapply (counted_add_if (fun e => M e a true) _ _ e); [apply N| |exact B2]. intros e'. rewrite I. naive_solver.
    + assert (X : find_tally a' (if decide (hash_row a' = hash_row a) then l else row (half_open_table s) (hash_row a')) = tally s a').
      { unfold tally. case_decide as D'; [|done]. by rewrite TL, decide_False, D'. }
      rewrite X. destruct (B a') as [B1 B2]. split; (eapply counted_iff; [|eassumption]); intros e'; cbn; setoid_rewrite I; naive_solver.
  - eapply (counted_add (fun e => exists a b, M e a b)); [|intros e'; cbn|exact C]; [by intros (a' & b' & X); apply N in X|]. setoid_rewrite I. naive_solver.
  - eapply (counted_add_if (fun e => exists a, M e a true) _ _ e); [by intros (a' & X); apply N in X| |exact D]. intros e'. cbn. setoid_rewrite I. naive_solver.
Qed.

Lemma remove_half_open_tallied M M' e x s :
  tallied M s -> (forall a b, M e a b <-> a = address_of x /\ b = is_responder x) ->
  (forall e' a b, M' e' a b <-> e' <> e /\ M e' a b) ->
  tallied M' (remove_half_open cfg hash_key x s).
Proof.
  intros [A B C D] N I. set (a := address_of x) in *. set (b := is_responder x) in *.
  assert (Me : M e a b) by by apply N. unfold remove_half_open. cbv zeta. fold a b. fold (hash_row a).
  destruct (B a) as [B1 B2]. assert (C1 : counted (fun e' => exists b, M' e' a b) ((tally s a).1 - 1)).
  { eapply (counted_remove (fun e => exists b, M e a b)); [by exists b| |exact B1]. intros e'. cbn. setoid_rewrite I. naive_solver. }
  assert (C2 : counted (fun e' => M' e' a true) ((tally s a).2 - counts b)).
  { eapply (counted_remove_if (fun e => M e a true) _ _ e); [by intros <-| | |exact B2]; [intros E X; apply N in X as [_ X]; congruence|]. intros e'. by rewrite I. }
  destruct (uncount_half_open a b _) as [l|] eqn:E.
  - apply uncount_half_open_some in E as [E1 E2]; [|apply A]. constructor; cbn.
    + intros r. rewrite row_insert. case_decide; [|apply A]. eapply sublist_NoDup; [apply A|exact E1].
    + intros a'. unfold tally. cbn. rewrite row_insert. destruct (decide (a' = a)) as [->|Na].
      * rewrite decide_True, E2, decide_True by done. fold (tally s a). destruct (Z.eqb_spec ((tally s a).1 - 1) 0) as [E0|E0]; cbn; [|done].
        rewrite E0 in C1. split; [done|]. apply counted_none. intros e' X. apply (counted_zero _ C1 e'). by exists true.
      * assert (X : find_tally a' (if decide (hash_row a' = hash_row a) then l else row (half_open_table s) (hash_row a')) = tally s a').
        { unfold tally. case_decide as D'; [|done]. by rewrite E2, decide_False, D'. }
        rewrite X. destruct (B a') as [B3 B4]. split; (eapply counted_iff; [|eassumption]); intros e'; cbn; setoid_rewrite I; naive_solver.
    + eapply (counted_remove (fun e => exists a b, M e a b)); [by exists a, b| |exact C]. intros e'. cbn. setoid_rewrite I. naive_solver.
    + eapply (counted_remove_if (fun e => exists a, M e a true) _ _ e); [intros <-; by exists a| | |exact D]; [intros E3 [a' X]; apply N in X as [_ X]; congruence|].
      intros e'. setoid_rewrite I. naive_solver.
  - apply uncount_half_open_none in E. exfalso. unfold tally in B1. rewrite find_tally_absent in B1 by done.
    apply (counted_zero _ B1 e). by exists b.
Qed.

(** ** Hashes *)

(** The hashes in the table are those that are owned, each by one. *)
Record hashed (O : nat + thread -> chunk -> Prop) (s : manager) : Prop := {
  h_nodup : forall r, NoDup (map fst (row (init_hashes_table s) r));
  h_owned : forall h, h ∈ map fst (row (init_hashes_table s) (hash_row h)) <-> exists o, O o h;
  h_one : forall o o' h, O o h -> O o' h -> o = o';
}.

Lemma find_hash_none h l : find_hash h l = None <-> h ∉ map fst l.
Proof.
  induction l as [|[h' spi] l IH]; cbn; [split; [intros _; apply not_elem_of_nil|done]|]. rewrite not_elem_of_cons.
  case_bool_decide; [split; [done|tauto]|]. rewrite IH. tauto.
Qed.

Lemma remove_hash_spec h l : NoDup (map fst l) -> NoDup (map fst (remove_hash h l)) /\ forall h', h' ∈ map fst (remove_hash h l) <-> h' <> h /\ h' ∈ map fst l.
Proof.
  induction l as [|[h' spi] l IH]; cbn; intros N.
  - split; [done|]. intros h'. split; [by intros ?%elem_of_nil|by intros [_ ?%elem_of_nil]].
  - apply NoDup_cons in N as [Nh N]. case_bool_decide as D; cbn.
    + subst. split; [done|]. intros h''. rewrite elem_of_cons. split; [|tauto]. intros X. split; [|by right]. by intros ->.
    + destruct (IH N) as [I1 I2]. split.
      * constructor; [|done]. rewrite I2. tauto.
      * intros h''. rewrite !elem_of_cons, I2. split; [|naive_solver]. intros [->|[X Y]]; [split; [done|by left]|split; [done|by right]].
Qed.

Lemma hashed_ext O O' s s' : (forall o h, O' o h <-> O o h) -> init_hashes_table s' = init_hashes_table s -> hashed O s -> hashed O' s'.
Proof.
  intros I E [A B C]. constructor; rewrite ?E; [done| |].
  - intros h. rewrite B. naive_solver.
  - intros o o' h X Y. apply (C o o' h); by apply I.
Qed.

(** A hash gets an owner. *)
Lemma hashed_put O O' s s' o h spi :
  hashed O s -> find_hash h (row (init_hashes_table s) (hash_row h)) = None ->
  init_hashes_table s' = <[hash_row h := (h, spi) :: row (init_hashes_table s) (hash_row h)]> (init_hashes_table s) ->
  (forall o' h', O' o' h' <-> o' = o /\ h' = h \/ O o' h') -> hashed O' s'.
Proof.
  intros [A B C] F%find_hash_none E I. assert (N : forall o', ~ O o' h) by (intros o' X; apply F, B; by exists o').
  constructor.
  - intros r. rewrite E, row_insert. case_decide; [|apply A]. cbn. constructor; [done|apply A].
  - intros h'. rewrite E, row_insert. setoid_rewrite I. destruct (decide (h' = h)) as [->|D].
    + rewrite decide_True by done. cbn. split; [intros _; exists o; by left|by left].
    + assert (X : h' ∈ map fst (if decide (hash_row h' = hash_row h) then (h, spi) :: row (init_hashes_table s) (hash_row h) else row (init_hashes_table s) (hash_row h'))
        <-> h' ∈ map fst (row (init_hashes_table s) (hash_row h'))).
      { case_decide as D'; [|done]. cbn. rewrite elem_of_cons, D'. naive_solver. }
      rewrite X, B. naive_solver.
  - intros o1 o2 h' [[-> ->]|X]%I [[-> H2]|Y]%I; try done.
    + by apply N in Y.
    + subst. by apply N in X.
    + by eapply C.
Qed.

(** It loses it. *)
Lemma hashed_remove O O' s s' o h :
  hashed O s -> O o h -> init_hashes_table s' = <[hash_row h := remove_hash h (row (init_hashes_table s) (hash_row h))]> (init_hashes_table s) ->
  (forall o' h', O' o' h' <-> o' <> o /\ O o' h') -> (forall h', O o h' -> h' = h) -> hashed O' s'.
Proof.
  intros [A B C] Oo E I U. destruct (remove_hash_spec h _ (A (hash_row h))) as [R1 R2]. constructor.
  - intros r. rewrite E, row_insert. by case_decide.
  - intros h'. rewrite E, row_insert. setoid_rewrite I. destruct (decide (h' = h)) as [->|D].
    + rewrite decide_True, R2 by done. split; [tauto|]. intros (o' & N & X). by destruct N; eapply C.
    + assert (X : h' ∈ map fst (if decide (hash_row h' = hash_row h) then remove_hash h (row (init_hashes_table s) (hash_row h)) else row (init_hashes_table s) (hash_row h'))
        <-> h' ∈ map fst (row (init_hashes_table s) (hash_row h'))).
      { case_decide as D'; [|done]. rewrite R2, D'. tauto. }
      rewrite X, B. split; [|naive_solver]. intros [o' X']. exists o'. split; [|done]. intros ->. by apply D, U.
  - intros o1 o2 h' [_ X]%I [_ Y]%I. by eapply C.
Qed.

(** ** The books *)

Record books (s : manager) : Prop := {
  b_total : counted (fun e => exists r, e ∈ row (ike_sa_table s) r) (total_sa_count s);
  b_half_open : tallied (marked s) s;
  b_hashes : hashed (owns s) s;
  b_other : forall e x, heap s !! e = Some x -> half_open x = true -> is_Some (other x);
}.

(** Most steps do not touch them. *)
Record quietly (s s' : manager) : Prop := {
  q_view : forall e, view <$> heap s' !! e = view <$> heap s !! e;
  q_phase : forall t, phase_of s' t = phase_of s t;
  q_table : ike_sa_table s' = ike_sa_table s /\ total_sa_count s' = total_sa_count s;
  q_half : half_open_table s' = half_open_table s /\ half_open_count s' = half_open_count s /\ half_open_count_responder s' = half_open_count_responder s;
  q_hashes : init_hashes_table s' = init_hashes_table s;
}.

Lemma view_some s s' e x' : view <$> heap s' !! e = view <$> heap s !! e -> heap s' !! e = Some x' -> exists x, heap s !! e = Some x /\ view x = view x'.
Proof. intros V L. rewrite L in V. cbn in V. destruct (heap s !! e) as [x|]; [|done]. cbn in V. exists x. split; [done|congruence]. Qed.

Lemma view_fields x x' : view x = view x' ->
  half_open x = half_open x' /\ other x = other x' /\ is_responder x = is_responder x' /\ init_hash x = init_hash x' /\ address_of x = address_of x'.
Proof. intros E. injection E as E1 E2 E3 E4. repeat split; try done. unfold address_of. by rewrite E2. Qed.

Lemma marked_view s s' e a b : view <$> heap s' !! e = view <$> heap s !! e -> (forall t, phase_of s' t = phase_of s t) -> marked s e a b -> marked s' e a b.
Proof.
  intros V P (x & L & H1 & H2 & H3 & H4). symmetry in V. destruct (view_some _ _ _ _ V L) as (x' & L' & E).
  apply view_fields in E as (E1 & E2 & E3 & E4 & E5). exists x'. repeat split; try congruence; rewrite P; apply H4.
Qed.

Lemma owns_view s s' o h : (forall e, view <$> heap s' !! e = view <$> heap s !! e) -> (forall t, phase_of s' t = phase_of s t) -> owns s o h -> owns s' o h.
Proof.
  intros V P. destruct o as [e|t]; cbn; [|by rewrite P]. intros (x & L & H1 & H2). specialize (V e). symmetry in V.
  destruct (view_some _ _ _ _ V L) as (x' & L' & E). apply view_fields in E as (E1 & E2 & E3 & E4 & E5).
  exists x'. repeat split; try congruence; rewrite P; apply H2.
Qed.

Lemma quietly_books s s' : quietly s s' -> books s -> books s'.
Proof.
  intros [V P [T1 T2] (H1 & H2 & H3) HI] [A B C D]. constructor.
  - by rewrite T1, T2.
  - eapply tallied_ext; [|done..|exact B]. intros e a b. split; apply marked_view; done.
  - eapply hashed_ext; [|done|exact C]. intros o h. split; apply owns_view; done.
  - intros e x L H. destruct (view_some _ _ _ _ (V e) L) as (x' & L' & E). apply view_fields in E as (E1 & E2 & _).
    rewrite <- E2. eapply D; [exact L'|congruence].
Qed.

Lemma well_quietly s r : books s -> well (quietly s) r -> well books r.
Proof. intros B. apply well_impl. intros s' Q. by eapply quietly_books. Qed.

(** ** Steps that do not touch them *)

Lemma quietly_refl s : quietly s s.
Proof. by constructor. Qed.

(** What the books are kept in, and are about. *)
Definition accounts (s : manager) := (ike_sa_table s, total_sa_count s, half_open_table s, half_open_count s, half_open_count_responder s, init_hashes_table s).

Lemma quietly_accounts s s1 s2 : accounts s2 = accounts s1 -> heap s2 = heap s1 -> threads s2 = threads s1 -> quietly s s1 -> quietly s s2.
Proof.
  intros E H T [V P [T1 T2] (H1 & H2 & H3) HI]. injection E as E1 E2 E3 E4 E5 E6. constructor; unfold phase_of, pc_of in *; rewrite ?H, ?T; try done.
  - split; congruence.
  - repeat split; congruence.
  - congruence.
Qed.

Lemma quietly_store s s1 e x x' : quietly s s1 -> heap s1 !! e = Some x -> view x' = view x -> quietly s (store e x' s1).
Proof.
  intros [V P T H I] L E. constructor; try done. intros e'. cbn. rewrite <- V. destruct (decide (e' = e)) as [->|N].
  - rewrite lookup_insert_eq, L. cbn. by rewrite E.
  - by rewrite lookup_insert_ne.
Qed.

Lemma quietly_goto s s1 t p : quietly s s1 -> phase p = phase_of s1 t -> quietly s (goto t p s1).
Proof.
  intros [V P T H I] E. constructor; try done. intros t'. rewrite <- P. unfold phase_of, pc_of in *. cbn. destruct (decide (t' = t)) as [->|N].
  - by rewrite lookup_insert_eq.
  - by rewrite lookup_insert_ne.
Qed.

Lemma data_view x x' : data_of x' = data_of x -> view x' = view x.
Proof. intros E. injection E as E1 E2 E3 E4 E5 E6. unfold view, is_responder. congruence. Qed.

Lemma judged_quietly who s t p e x0 x :
  heap s !! e = Some x0 -> data_of x = data_of x0 -> phase_of s t = Elsewhere ->
  judged t p e (wait_loop who t x) s <> Crash -> well (quietly s) (judged t p e (wait_loop who t x) s).
Proof.
  intros L D P NC. pose proof (wait_loop_data who t x) as W. destruct (wait_loop who t x) as [v x']. cbn in W, NC.
  assert (V : view x' = view x0) by (apply data_view; congruence).
  assert (Q : forall p', phase p' = Elsewhere -> quietly s (goto t p' (store e x' s))).
  { intros p' E. apply quietly_goto; [|by rewrite E]. eapply quietly_store; [apply quietly_refl|exact L|exact V]. }
  destruct v; cbn in *; [|by apply Q|by apply Q].
  destruct p as [|m id]; cbn in *.
  - apply quietly_goto; [|done]. eapply quietly_accounts; [..|eapply (quietly_store s s e x0); [apply quietly_refl|exact L|]]; done.
  - unfold load_sa in *. destruct (sas s !! _); [|done]. cbn. apply quietly_goto; [|done].
    eapply quietly_accounts; [..|eapply (quietly_store s s e x0); [apply quietly_refl|exact L|]]; try done. by destruct (is_fragment m).
Qed.

Lemma well_not_crash P r : well P r -> r <> Crash.
Proof. by destruct r. Qed.

Lemma wait_for_entry_quietly who s t p e x :
  kept cfg s -> heap s !! e = Some x -> tabled cfg s e x -> outside s t -> phase_of s t = Elsewhere ->
  well (quietly s) (judged t p e (wait_for_entry who t x) s).
Proof.
  intros K L T O P. pose proof (well_not_crash _ _ (wait_for_entry_kept cfg who s t p e x K L T O)) as NC. unfold wait_for_entry in *.
  destruct (driveout_new_threads x); [|by eapply judged_quietly].
  cbn. apply quietly_goto; [|done]. by eapply quietly_store; [apply quietly_refl|exact L|].
Qed.

Lemma checkout_quietly who t id s : kept cfg s -> pc_of s t = Idle -> well (quietly s) (checkout cfg who t id s).
Proof.
  intros K E. unfold checkout, get_entry_by_id. eapply get_entry_well; try done.
  - intros e x L T _ _. apply wait_for_entry_quietly; try done; [by apply idle_outside|by unfold phase_of; rewrite E].
Qed.

Lemma find_by_message_quietly who t m id s : kept cfg s -> outside s t -> phase_of s t = Elsewhere -> well (quietly s) (find_by_message cfg who t m id s).
Proof.
  intros K O P. unfold find_by_message, get_entry_by_id. eapply get_entry_well; try done.
  - intros e x L T _ _. case_match; [by apply quietly_goto; [apply quietly_refl|]|by apply wait_for_entry_quietly].
  - intros _. by apply quietly_goto; [apply quietly_refl|].
Qed.

Lemma woken_quietly who s t p e :
  kept cfg s -> pc_of s t = Waiting e p ->
  well (quietly s) (load e s (fun x => if bool_decide (t ∈ sleepers x) then Stuck else judged t p e (woken who t x) s)).
Proof.
  intros K E. pose proof (well_not_crash _ _ (woken_kept cfg who s t p e K E)) as NC.
  destruct (waited_at _ _ _ _ _ K E) as (x & L & T & R). unfold load in *. rewrite L in *. case_bool_decide as S; [done|].
  unfold woken in *. eapply judged_quietly; try done. by unfold phase_of; rewrite E.
Qed.

Lemma wake_quietly t s : kept cfg s -> well (quietly s) (wake t s).
Proof.
  intros K. pose proof (well_not_crash _ _ (wake_kept cfg t s K)) as NC. unfold wake, load in *.
  destruct (pc_of s t); try done; destruct (heap s !! e) eqn:L; try done; cbn; (eapply quietly_store; [apply quietly_refl|exact L|done]).
Qed.

Lemma create_new_quietly t version initiator random peer s : well (quietly s) (create_new cfg t version initiator random peer s).
Proof. unfold create_new. destruct (_ =? 0); cbn; [apply quietly_refl|]. by eapply quietly_accounts; [..|apply quietly_refl]. Qed.

Lemma new_initiator_spi_quietly who t sa random s : kept cfg s -> holds s sa t -> well (quietly s) (new_initiator_spi cfg who sa random s).
Proof.
  intros K H. destruct (g_live _ _ K _ _ H) as [y Y]. unfold new_initiator_spi, load_sa. rewrite Y.
  destruct (negb (is_connecting y) || _ || _); [apply quietly_refl|].
  eapply (get_entry_by_sa_well _ _ s); try done.
  intros e x L T _ _ SL. case_match; [apply quietly_refl|]. cbv zeta.
  eapply (quietly_accounts _ (store e _ s)); [..|eapply (quietly_store s s e x); [apply quietly_refl|exact L|]]; try done.
  unfold view, is_responder. cbn. destruct SL as (_ & E & _). by rewrite E.
Qed.

Lemma change_quietly t sa x s : kept cfg s -> holds s sa t ->
  well (quietly s) (load_sa sa s (fun y => if decide (same_local (sa_id y) (sa_id x)) then Next (store_sa sa x s) else Stuck)).
Proof.
  intros K H. destruct (g_live _ _ K _ _ H) as [y Y]. unfold load_sa. rewrite Y. case_decide; [|done].
  by eapply quietly_accounts; [..|apply quietly_refl].
Qed.

(** ** Steps that keep them *)

(** A thread goes from one phase to another. *)
Definition phases (s s' : manager) (t : thread) (p : phase_t) : Prop := forall t', phase_of s' t' = if decide (t' = t) then p else phase_of s t'.

Lemma phases_goto s s1 t p : threads s1 = threads s -> phases s (goto t p s1) t (phase p).
Proof.
  intros E t'. unfold phase_of, pc_of. cbn. rewrite E. case_decide; subst; [by rewrite lookup_insert_eq|by rewrite lookup_insert_ne].
Qed.

Lemma phases_same s s1 t : threads s1 = threads s -> phases s s1 t (phase_of s t).
Proof. intros E t'. unfold phase_of, pc_of. rewrite E. by case_decide; subst. Qed.

(** Whether it concerns an entry. *)
Definition quiet_at (e : nat) (p : phase_t) : Prop := p <> Uncounted e /\ p <> Unhashed e.

Lemma phases_at s s' t p e : phases s s' t p -> (quiet_at e p <-> quiet_at e (phase_of s t)) ->
  (forall t', quiet_at e (phase_of s' t')) <-> forall t', quiet_at e (phase_of s t').
Proof.
  intros P Q. split; intros H t'; specialize (H t'); rewrite ?P in *; case_decide; subst; naive_solver.
Qed.

Lemma marked_other s s' t p e a b :
  phases s s' t p -> (quiet_at e p <-> quiet_at e (phase_of s t)) -> view <$> heap s' !! e = view <$> heap s !! e ->
  marked s' e a b <-> marked s e a b.
Proof.
  intros P Q V. pose proof (phases_at _ _ _ _ _ P Q) as PA. unfold marked. fold (quiet_at e). split; intros (x & L & H1 & H2 & H3 & H4).
  - destruct (view_some _ _ _ _ V L) as (x' & L' & E). apply view_fields in E as (E1 & E2 & E3 & E4 & E5).
    exists x'. repeat split; try congruence; by apply PA.
  - symmetry in V. destruct (view_some _ _ _ _ V L) as (x' & L' & E). apply view_fields in E as (E1 & E2 & E3 & E4 & E5).
    exists x'. repeat split; try congruence; by apply PA.
Qed.

Lemma owns_other s s' t p e h :
  phases s s' t p -> (p = Unhashed e <-> phase_of s t = Unhashed e) -> init_hash <$> heap s' !! e = init_hash <$> heap s !! e ->
  owns s' (inl e) h <-> owns s (inl e) h.
Proof.
  intros P Q V. assert (PA : (forall t', phase_of s' t' <> Unhashed e) <-> forall t', phase_of s t' <> Unhashed e).
  { split; intros H t'; specialize (H t'); rewrite ?P in *; case_decide; subst; naive_solver. }
  cbn. split; intros (x & L & H1 & H2); rewrite L in V; cbn in V.
  - destruct (heap s !! e) as [x'|] eqn:L'; [|done]. injection V as V. exists x'. split; [done|]. split; [congruence|by apply PA].
  - destruct (heap s' !! e) as [x'|] eqn:L'; [|done]. injection V as V. exists x'. split; [done|]. split; [congruence|by apply PA].
Qed.

Lemma owns_thread s s' t p t' h : phases s s' t p -> owns s' (inr t') h <-> if decide (t' = t) then p = Keeps h else owns s (inr t') h.
Proof. intros P. cbn. rewrite P. by case_decide. Qed.

(** An owner hands its hash to another. *)
Lemma hashed_transfer O O' s s' o1 o2 h :
  hashed O s -> O o1 h -> (forall h', O o1 h' -> h' = h) -> (forall h', ~ O o2 h') -> init_hashes_table s' = init_hashes_table s ->
  (forall o' h', O' o' h' <-> o' = o2 /\ h' = h \/ o' <> o1 /\ O o' h') -> hashed O' s'.
Proof.
  intros [A B C] O1 U1 N2 E I. constructor.
  - intros r. rewrite E. apply A.
  - intros h'. rewrite E, B. setoid_rewrite I. split.
    + intros [o X]. destruct (decide (h' = h)) as [->|D]; [exists o2; by left|]. exists o. right. split; [|done]. intros ->. by apply D, U1.
    + intros [o [[-> ->]|[_ X]]]; [by exists o1|by exists o].
  - intros o o' h' X%I Y%I. destruct X as [[-> ->]|[N X]], Y as [[-> E2]|[N' Y]]; try done.
    + destruct N'. by eapply C.
    + subst. destruct N. by eapply C.
    + by eapply C.
Qed.

Lemma live_quiet_at s e x t : live x (role_of s e) (holds s (ike_sa x)) -> quiet_at e (phase_of s t).
Proof.
  intros [Q _]. pose proof (l_open _ _ _ Q t) as N. unfold role_of, phase_of in *. destruct (pc_of s t); cbn in *; split; intros [= ->]; by rewrite decide_True in N.
Qed.

Lemma free_quiet_at s e t : kept cfg s -> heap s !! e = None -> quiet_at e (phase_of s t).
Proof.
  intros K L. pose proof (g_free _ _ K e t L) as N. unfold role_of, phase_of in *. destruct (pc_of s t); cbn in *; split; intros [= ->]; by rewrite decide_True in N.
Qed.

(** The thread that took the entry out of the table goes on to a phase. *)
Lemma closed_alone s e x t t' : kept cfg s -> heap s !! e = Some x -> role_of s e t = Closes -> t' <> t -> quiet_at e (phase_of s t').
Proof.
  intros K L R N. destruct (g_entries _ _ K _ _ L) as [[_ [Q _]]|[_ [[t0 [R0 A0]] _]]]; [by destruct (l_open _ _ _ Q t)|].
  assert (t = t0) as <- by (destruct (decide (t = t0)) as [|D]; [done|]; apply A0 in D; congruence).
  specialize (A0 _ N). unfold role_of, phase_of in *. destruct (pc_of s t'); cbn in *; split; intros [= ->]; by rewrite decide_True in A0.
Qed.

Lemma row_member s e : kept cfg s -> heap s !! e = None -> ~ exists r, e ∈ row (ike_sa_table s) r.
Proof. intros K L [r X]. destruct (g_rows _ _ K _ _ X) as (x & L' & _). congruence. Qed.

(** An entry is put into the table. *)
Lemma totaled_put s s' e r :
  kept cfg s -> books s -> heap s !! e = None -> ike_sa_table s' = <[r := e :: row (ike_sa_table s) r]> (ike_sa_table s) ->
  total_sa_count s' = total_sa_count s + 1 -> counted (fun e => exists r, e ∈ row (ike_sa_table s') r) (total_sa_count s').
Proof.
  intros K B L E1 E2. rewrite E2. eapply (counted_add (fun e => exists r, e ∈ row (ike_sa_table s) r)); [by apply (row_member s e)| |apply (b_total _ B)].
  intros e'. rewrite E1. setoid_rewrite row_insert. split.
  - intros [r' X]. case_decide; [|right; by exists r']. apply elem_of_cons in X as [->|X]; [by left|right; by exists r].
  - intros [->|[r' X]]; [exists r; rewrite decide_True by done; by left|]. exists r'. case_decide; [|done]. subst. by right.
Qed.

(** And taken out of it. *)
Lemma totaled_remove s s' e r l :
  kept cfg s -> books s -> remove_first e (row (ike_sa_table s) r) = Some l -> ike_sa_table s' = <[r := l]> (ike_sa_table s) ->
  total_sa_count s' = total_sa_count s - 1 -> counted (fun e => exists r, e ∈ row (ike_sa_table s') r) (total_sa_count s').
Proof.
  intros K B F E1 E2. destruct (remove_first_nodup _ _ _ (g_nodup _ _ K r) F) as [_ M].
  assert (X : e ∈ row (ike_sa_table s) r). { apply remove_first_some in F as (l1 & l2 & -> & _). apply elem_of_app. right. by left. }
  rewrite E2. eapply (counted_remove (fun e => exists r, e ∈ row (ike_sa_table s) r)); [by exists r| |apply (b_total _ B)].
  intros e'. rewrite E1. setoid_rewrite row_insert. split.
  - intros [r' Y]. case_decide; [subst; apply M in Y as [N Y]; split; [done|by exists r]|]. split; [|by exists r']. intros ->.
    destruct (g_rows _ _ K _ _ X) as (x & L & R), (g_rows _ _ K _ _ Y) as (x' & L' & R'). congruence.
  - intros [N [r' Y]]. exists r'. case_decide; [|done]. subst. by apply M.
Qed.

(** Only the table changes. *)
Lemma books_total s s' :
  heap s' = heap s -> threads s' = threads s -> half_open_table s' = half_open_table s -> half_open_count s' = half_open_count s ->
  half_open_count_responder s' = half_open_count_responder s -> init_hashes_table s' = init_hashes_table s ->
  counted (fun e => exists r, e ∈ row (ike_sa_table s') r) (total_sa_count s') -> books s -> books s'.
Proof.
  intros E1 E2 E3 E4 E5 E6 C [_ H I O]. constructor; [done| | |by rewrite E1].
  - eapply tallied_ext; [|done..|exact H]. intros. unfold marked, phase_of, pc_of. by rewrite E1, E2.
  - eapply hashed_ext; [|done|exact I]. intros [e|t] h; unfold owns, phase_of, pc_of; by rewrite ?E1, ?E2.
Qed.

Lemma drive_out_books s s1 t e x x1 :
  kept cfg s -> books s -> heap s !! e = Some x -> tabled cfg s e x -> phase_of s t = Elsewhere ->
  heap s1 = heap s -> threads s1 = threads s -> accounts s1 = accounts s -> data_of x1 = data_of x -> well books (drive_out cfg t e x1 s1).
Proof.
  intros K B L T P E1 E2 E3 D. pose proof (data_view _ _ D) as V. destruct (data_ike_sa _ _ D) as [_ Did].
  assert (Q : forall p x', phase p = Elsewhere -> view x' = view x -> quietly s (goto t p (store e x' s1))).
  { intros p x' Pp V'. eapply (quietly_accounts _ (goto t p (store e x' s))); [exact E3|cbn; by rewrite E1|cbn; by rewrite E2|].
    apply quietly_goto; [|by rewrite Pp]. eapply quietly_store; [apply quietly_refl|exact L|done]. }
  unfold drive_out. destruct (waiting_threads x1 =? 0); cbn; [|by eapply quietly_books; [by apply Q|]].
  destruct (remove_first_in e (row (ike_sa_table s) (row_id cfg (ike_sa_id x))) T) as [l RF]. injection E3 as F1 F2 F3 F4 F5 F6.
  unfold remove_entry. fold (row_id cfg (ike_sa_id x1)). cbn [store with_heap ike_sa_table]. rewrite Did, F1, RF.
  eapply (books_total (goto t (Closing e) (store e x1 s1))); try done; [|by eapply quietly_books; [by apply Q|]].
  eapply totaled_remove; try done. cbn. by rewrite F2.
Qed.

Lemma driving_books t e s : kept cfg s -> books s -> pc_of s t = Driving e ->
  well books (load e s (fun x => if bool_decide (t ∈ sleepers x) then Stuck else drive_out cfg t e x s)).
Proof.
  intros K B E. assert (R : role_of s e t = Drives) by (unfold role_of; rewrite E; cbn; by case_decide).
  destruct (driving_at _ _ _ _ K R) as (x & L & T). unfold load. rewrite L. case_bool_decide; [done|].
  eapply drive_out_books; try done. by unfold phase_of; rewrite E.
Qed.

Lemma checkin_and_destroy_books t sa s : kept cfg s -> books s -> pc_of s t = Idle -> holds s sa t -> well books (checkin_and_destroy cfg t sa s).
Proof.
  intros K B E H. destruct (g_live _ _ K _ _ H) as [y Y]. unfold checkin_and_destroy, load_sa. rewrite Y.
  eapply (get_entry_by_sa_well _ _ s); try done.
  - intros e x L T <- [Q A] SL. destruct (l_held _ _ _ Q _ H) as [_ W]. rewrite W. cbn.
    eapply (drive_out_books s); try done. by unfold phase_of; rewrite E.
  - intros _. cbn. eapply quietly_books; [|exact B]. by eapply quietly_accounts; [..|apply quietly_refl].
Qed.

(** *** Checking in *)

(** The entry of a half-open IKE_SA that is checked in changes. *)
Lemma checkin_marked s e x :
  heap s !! e = Some x -> (forall t, quiet_at e (phase_of s t)) -> half_open x = true ->
  forall a b, marked s e a b <-> a = address_of x /\ b = is_responder x.
Proof.
  intros L Q H a b. unfold marked. split; [intros (x' & L' & H1 & H2 & H3 & _); by replace x' with x in * by congruence|].
  intros [-> ->]. exists x. by repeat split; try apply Q.
Qed.

Lemma not_marked s e x : heap s !! e = Some x -> half_open x = false -> forall a b, ~ marked s e a b.
Proof. intros L H a b (x' & L' & H' & _). congruence. Qed.

(** An entry is new, or is replaced by its holder. *)
Lemma entry_books M s s' t p e x' :
  books s -> (forall t', quiet_at e (phase_of s t')) -> heap s' = <[e := x']> (heap s) -> phases s s' t p ->
  (forall e', quiet_at e' p <-> quiet_at e' (phase_of s t)) -> (half_open x' = true -> is_Some (other x')) ->
  counted (fun e => exists r, e ∈ row (ike_sa_table s') r) (total_sa_count s') -> hashed (owns s') s' -> tallied M s' ->
  (forall a b, M e a b <-> half_open x' = true /\ a = address_of x' /\ b = is_responder x') ->
  (forall e' a b, e' <> e -> M e' a b <-> marked s e' a b) -> books s'.
Proof.
  intros B Q EH PH QP O2 BT HH TM M1 M2. constructor; [done| |done|].
  - eapply tallied_ext; [|done..|exact TM]. intros e' a b. destruct (decide (e' = e)) as [->|N].
    + rewrite M1. pose proof (proj2 (phases_at _ _ _ _ e PH (QP e)) Q) as Q'. unfold marked. rewrite EH. setoid_rewrite lookup_insert_eq. split.
      * intros (x & [= <-] & H1 & H2 & H3 & _). done.
      * intros (H1 & -> & ->). exists x'. by repeat split; try apply Q'.
    + rewrite M2 by done. apply (marked_other _ _ _ _ _ _ _ PH); [done|]. by rewrite EH, lookup_insert_ne.
  - intros e' z. rewrite EH. intros [[<- <-]|[N L']]%lookup_insert_Some H'; [by apply O2|by eapply (b_other _ B)].
Qed.

(** Nothing changes in the hashes. *)
Lemma hashed_entry s s' e x x' :
  books s -> heap s !! e = Some x -> heap s' = <[e := x']> (heap s) -> threads s' = threads s -> init_hash x' = init_hash x ->
  init_hashes_table s' = init_hashes_table s -> hashed (owns s') s'.
Proof.
  intros B L EH ET I E. pose proof (phases_same s s' 0%nat ET) as PH.
  eapply (hashed_ext (owns s) _ s); [|exact E|apply (b_hashes _ B)]. intros [e'|t'] h.
  - apply (owns_other _ _ _ _ _ _ PH); [done|]. rewrite EH. destruct (decide (e' = e)) as [->|N].
    + rewrite lookup_insert_eq, L. cbn. by rewrite <- I.
    + by rewrite lookup_insert_ne.
  - rewrite (owns_thread _ _ _ _ _ _ PH). by case_decide; subst.
Qed.

(** An entry without hash is added. *)
Lemma hashed_new s s' e x' :
  kept cfg s -> books s -> heap s !! e = None -> heap s' = <[e := x']> (heap s) -> threads s' = threads s -> init_hash x' = None ->
  init_hashes_table s' = init_hashes_table s -> hashed (owns s') s'.
Proof.
  intros K B L EH ET I E. pose proof (phases_same s s' 0%nat ET) as PH.
  eapply (hashed_ext (owns s) _ s); [|exact E|apply (b_hashes _ B)]. intros [e'|t'] h.
  - destruct (decide (e' = e)) as [->|N].
    + cbn. rewrite EH, lookup_insert_eq. split; [intros (z & [= <-] & H1 & _); congruence|]. intros (z & H1 & _). congruence.
    + apply (owns_other _ _ _ _ _ _ PH); [done|]. by rewrite EH, lookup_insert_ne.
  - rewrite (owns_thread _ _ _ _ _ _ PH). by case_decide; subst.
Qed.

Lemma put_entry_books M s s1 t e x :
  kept cfg s -> books s -> heap s !! e = None -> tallied M s1 -> core s1 = core s \/ core s1 = core (take_back t (ike_sa x) s) ->
  total_sa_count s1 = total_sa_count s -> init_hashes_table s1 = init_hashes_table s -> init_hash x = None ->
  (half_open x = true -> is_Some (other x)) ->
  (forall a b, M e a b <-> half_open x = true /\ a = address_of x /\ b = is_responder x) ->
  (forall e' a b, e' <> e -> M e' a b <-> marked s e' a b) -> books (put_entry cfg e x s1).
Proof.
  intros K B L TM C E1 E2 I O M1 M2.
  assert (C' : ike_sa_table s1 = ike_sa_table s /\ heap s1 = heap s /\ threads s1 = threads s).
  { destruct C as [(C1 & C2 & _ & C4 & _)%core_eq|(C1 & C2 & _ & C4 & _)%core_eq]; done. }
  destruct C' as (C1 & C2 & C4). apply (entry_books M s _ t (phase_of s t) e x); try done.
  - intros t'. by apply free_quiet_at.
  - cbn. by rewrite C2.
  - by apply phases_same.
  - eapply (totaled_put s); [done|done|exact L|cbn; by rewrite C1|cbn; by rewrite E1].
  - eapply (hashed_new s _ e x); try done. cbn. by rewrite C2.
  - by eapply (tallied_ext M _ s1).
Qed.

(** A new half-open entry. *)
Lemma create_and_put_entry_books s s1 t sa y :
  kept cfg s -> books s -> s1 = s \/ s1 = take_back t sa s ->
  well books (create_and_put_entry cfg hash_key sa y s1 (fun _ _ s => Next s)).
Proof.
  intros K B C. unfold create_and_put_entry. set (e := fresh _). set (x := entry_create _ _).
  assert (C' : core s1 = core s \/ core s1 = core (take_back t sa s)) by (destruct C; subst; [by left|by right]).
  assert (L : heap s !! e = None) by (subst e; destruct C as [-> | ->]; exact (fresh_entry s)).
  assert (A : accounts s1 = accounts s) by (by destruct C as [-> | ->]). injection A as A1 A2 A3 A4 A5 A6.
  assert (T1 : tallied (marked s) s1) by (eapply tallied_ext; [|exact A3|exact A4|exact A5|apply (b_half_open _ B)]; done).
  assert (NM : forall a b, ~ marked s e a b) by (intros a b (z & Lz & _); congruence).
  destruct (is_connecting y); cbn -[put_entry put_half_open].
  - set (x2 := with_other _ _). eapply (put_entry_books (fun e' a b => e' = e /\ a = address_of x2 /\ b = is_responder x2 \/ marked s e' a b) s _ t); try done.
    + eapply put_half_open_tallied; [exact T1|exact NM|done].
    + intros a b. cbn. naive_solver.
    + naive_solver.
  - eapply (put_entry_books (marked s) s s1 t); try done. intros a b. split; [intros X; by apply NM in X|]. intros (X & _). discriminate X.
Qed.

Lemma checkout_new_books t sa s : kept cfg s -> books s -> holds s sa t -> well books (checkout_new cfg hash_key t sa s).
Proof.
  intros K B H. destruct (g_live _ _ K _ _ H) as [y Y]. unfold checkout_new, load_sa. rewrite Y.
  pose proof (create_and_put_entry_books s s t sa y K B (or_introl eq_refl)) as C. unfold create_and_put_entry in *.
  destruct (is_connecting y); cbn -[put_entry put_half_open] in *; (eapply quietly_books; [|exact C]);
    (eapply quietly_store; [apply quietly_refl|apply lookup_insert_eq|done]).
Qed.

(** An entry that is checked in, by what its IKE_SA has become. *)
Lemma checkin_found_books M s s1 e x x2 :
  books s -> heap s !! e = Some x -> (forall t, quiet_at e (phase_of s t)) -> tallied M s1 -> heap s1 = heap s -> threads s1 = threads s ->
  ike_sa_table s1 = ike_sa_table s -> total_sa_count s1 = total_sa_count s -> init_hashes_table s1 = init_hashes_table s ->
  init_hash x2 = init_hash x -> (half_open x2 = true -> is_Some (other x2)) ->
  (forall a b, M e a b <-> half_open x2 = true /\ a = address_of x2 /\ b = is_responder x2) ->
  (forall e' a b, e' <> e -> M e' a b <-> marked s e' a b) -> books (store e x2 s1).
Proof.
  intros B L Q TM E1 E2 E3 E4 E5 I2 O2 M1 M2. apply (entry_books M s _ 0%nat (phase_of s 0%nat) e x2); try done.
  - cbn. by rewrite E1.
  - by apply phases_same.
  - cbn. rewrite E3, E4. apply (b_total _ B).
  - eapply (hashed_entry s _ e x x2); try done. cbn. by rewrite E1.
  - by eapply (tallied_ext M _ s1).
Qed.

Lemma half_open_beside x s : let s' := remove_half_open cfg hash_key x s in
  core s' = core s /\ total_sa_count s' = total_sa_count s /\ init_hashes_table s' = init_hashes_table s.
Proof. cbn. unfold remove_half_open. by case_match. Qed.

Lemma checkin_books who t sa s : kept cfg s -> books s -> holds s sa t -> well books (checkin cfg hash_key who t sa s).
Proof.
  intros K B H. destruct (g_live _ _ K _ _ H) as [y Y]. unfold checkin, load_sa. rewrite Y.
  eapply (get_entry_by_sa_well _ _ s); try done; [|intros _; apply (create_and_put_entry_books s _ t); [done|done|by right]].
  intros e x L T <- LV SL. set (x1 := with_processing _ _). set (s0 := take_back t (ike_sa x) s).
  assert (Q : forall t', quiet_at e (phase_of s t')) by (intros; by eapply live_quiet_at).
  assert (R1 : is_responder x1 = is_responder x) by (unfold is_responder; cbn; by destruct SL as (_ & -> & _)).
  assert (T0 : tallied (marked s) s0) by (by eapply (tallied_ext (marked s) _ s); [| | | |apply (b_half_open _ B)]).
  set (out := fun e' a b => e' <> e /\ marked s e' a b).
  set (put := fun x2 e' a b => e' = e /\ a = address_of x2 /\ b = is_responder x2 \/ out e' a b).
  assert (RM : forall x2, half_open x = true -> other x2 = other x -> is_responder x2 = is_responder x -> tallied out (remove_half_open cfg hash_key x2 s0)).
  { intros x2 HO O2 R2. eapply remove_half_open_tallied; [exact T0| |done]. intros a b.
    rewrite (checkin_marked s e x L Q HO). unfold address_of. by rewrite O2, R2. }
  assert (PT : forall x2 s2, tallied out s2 -> tallied (put x2) (put_half_open cfg hash_key x2 s2)).
  { intros x2 s2 TO. eapply put_half_open_tallied; [exact TO|by intros a b [N _]|]. intros e' a b. unfold put. tauto. }
  assert (NM : half_open x = false -> forall e' a b, out e' a b <-> marked s e' a b).
  { intros HO e' a b. unfold out. split; [tauto|]. intros X. split; [|done]. intros ->. by eapply not_marked in X. }
  change (half_open x1) with (half_open x). change (half_open (with_ike_sa_id (sa_id y) x)) with (half_open x).
  destruct (half_open x) eqn:HO, (is_connecting y); cbn [andb negb].
  - destruct (negb _).
    + set (x2 := with_other _ _). destruct (half_open_beside x1 s0) as (C & CT & CI). apply core_eq in C as (C1 & C2 & C3 & C4 & C5).
      apply (checkin_found_books (put x2) s _ e x (signal who x2)); try done.
      * by apply PT, RM.
      * intros a b. unfold put, out. change (half_open (signal who x2)) with (half_open x). rewrite HO. naive_solver.
      * unfold put, out. naive_solver.
    + apply (checkin_found_books (marked s) s s0 e x (signal who x1)); try done.
      * intros _. exact (b_other _ B _ _ L HO).
      * intros a b. rewrite (checkin_marked s e x L Q) by done. unfold address_of. change (half_open (signal who x1)) with (half_open x).
        change (is_responder (signal who x1)) with (is_responder x1). rewrite R1, HO. tauto.
  - destruct (half_open_beside (with_half_open false x1) s0) as (C & CT & CI). apply core_eq in C as (C1 & C2 & C3 & C4 & C5).
    apply (checkin_found_books out s _ e x (signal who (with_half_open false x1))); try done.
    + by apply RM.
    + intros a b. unfold out. cbn. naive_solver.
    + unfold out. naive_solver.
  - set (x2 := with_other _ _). apply (checkin_found_books (put x2) s _ e x (signal who x2)); try done.
    + apply PT. eapply (tallied_ext (marked s) _ s0); [by apply NM|done..].
    + intros a b. unfold put, out. cbn. naive_solver.
    + intros e' a b N. unfold put. rewrite (NM eq_refl). naive_solver.
  - apply (checkin_found_books (marked s) s s0 e x (signal who x1)); try done; [cbn; congruence|].
    intros a b. change (half_open (signal who x1)) with (half_open x). rewrite HO. split; [|naive_solver]. intros X. by eapply not_marked in X.
Qed.

(** *** Initial messages *)

Definition quiet_at_all (p : phase_t) : Prop := match p with Uncounted _ | Unhashed _ => False | _ => True end.

Lemma quiet_all_at e p : quiet_at_all p -> quiet_at e p.
Proof. by destruct p. Qed.

(** A thread outside that goes on to another place. *)
Lemma goto_books s s1 t p :
  books s -> quiet_at_all (phase_of s t) -> quiet_at_all (phase p) -> heap s1 = heap s -> threads s1 = threads s ->
  accounts s1 = accounts (with_init_hashes_table (init_hashes_table s1) s) -> hashed (owns (goto t p s1)) (goto t p s1) -> books (goto t p s1).
Proof.
  intros B Q1 Q2 EH ET A HH. injection A as A1 A2 A3 A4 A5. pose proof (phases_goto s s1 t p ET) as PH. constructor.
  - cbn. rewrite A1, A2. apply (b_total _ B).
  - eapply (tallied_ext (marked s) _ s); [|done..|apply (b_half_open _ B)]. intros e a b. apply (marked_other _ _ _ _ _ _ _ PH).
    + split; intros _; by apply quiet_all_at.
    + cbn. by rewrite EH.
  - done.
  - cbn. rewrite EH. apply (b_other _ B).
Qed.

Lemma owns_goto s s1 t p o h : heap s1 = heap s -> threads s1 = threads s -> quiet_at_all (phase_of s t) -> quiet_at_all (phase p) ->
  owns (goto t p s1) o h <-> match o with inr t' => if decide (t' = t) then phase p = Keeps h else owns s o h | inl _ => owns s o h end.
Proof.
  intros EH ET Q1 Q2. pose proof (phases_goto s s1 t p ET) as PH. destruct o as [e|t'].
  - apply (owns_other _ _ _ _ _ _ PH); [|cbn; by rewrite EH]. split; intros E; [by rewrite E in Q2|by rewrite E in Q1].
  - apply (owns_thread _ _ _ _ _ _ PH).
Qed.

Lemma checkout_by_message_books t m random s : kept cfg s -> books s -> pc_of s t = Idle -> well books (checkout_by_message cfg hash_key t m random s).
Proof.
  intros K B E. assert (P : phase_of s t = Elsewhere) by (unfold phase_of; by rewrite E).
  assert (G : forall m id, books (goto t (Looking m id) s)).
  { intros m' id. eapply quietly_books; [|exact B]. by apply quietly_goto; [apply quietly_refl|]. }
  unfold checkout_by_message. destruct (is_init m); [|apply G].
  destruct (get_init_hash m) as [h|]; [|done]. apply with_hash_segment_well. intros r ->. cbv zeta. fold (hash_row h).
  destruct (find_hash _ _) eqn:F; [apply G|]. destruct (get_spi cfg random =? 0); cbn.
  - eapply quietly_books; [|exact B]. by eapply quietly_accounts; [..|apply quietly_refl].
  - set (p := New_message _ _ _). set (s1 := with_init_hashes_table _ s).
    assert (Q : quiet_at_all (phase_of s t)) by (by rewrite P). assert (Q' : quiet_at_all (phase p)) by done.
    apply (goto_books s); try done.
    eapply (hashed_put (owns s) _ s _ (inr t) h); [apply (b_hashes _ B)|exact F|done|].
    intros o h'. rewrite (owns_goto s s1 t p) by done. destruct o as [e|t']; [naive_solver|]. case_decide as D; [subst t'|naive_solver].
    cbn. rewrite P. split; [intros [= ->]; by left|]. intros [[_ ->]|X]; done.
Qed.

Lemma put_new_books ok t m id h peer s : kept cfg s -> books s -> pc_of s t = Room m id h -> well books (put_new cfg ok t m id h peer s).
Proof.
  intros K B E. assert (P : phase_of s t = Keeps h) by (unfold phase_of; by rewrite E). unfold put_new. destruct ok; cbn.
  - set (e := fresh (dom (heap s))). pose proof (fresh_entry s : heap s !! e = None) as L. set (x := with_checked_out _ _).
    set (s1 := give _ _ _). pose proof (phases_goto s s1 t Idle eq_refl) as PH. cbn [phase] in PH.
    assert (NM : forall a b, ~ marked s e a b) by (intros a b (z & Lz & _); congruence).
    apply (entry_books (marked s) s _ t Elsewhere e x); try done.
    + intros t'. by apply free_quiet_at.
    + intros e'. by rewrite P.
    + by eapply (totaled_put s); [| |exact L| |].
    + eapply (hashed_transfer (owns s) _ s _ (inr t) (inl e) h); [apply (b_hashes _ B)|done| |by intros h' (z & Lz & _); congruence|done|].
      * cbn. rewrite P. by intros h' [= ->].
      * intros [e'|t'] h'; [destruct (decide (e' = e)) as [->|N]|].
        -- cbn. rewrite lookup_insert_eq. split; [intros (z & [= <-] & [= <-] & _); by left|].
           intros [[_ ->]|[_ (z & Lz & _)]]; [|congruence]. exists x. split; [done|]. split; [done|]. intros t'. rewrite PH. case_decide; [done|].
           apply (free_quiet_at s e t' K L).
        -- rewrite (owns_other s _ t Elsewhere e' h'); [naive_solver|exact PH|by rewrite P|]. cbn. by rewrite lookup_insert_ne.
        -- rewrite (owns_thread _ _ _ _ _ _ PH). case_decide as D; naive_solver.
    + eapply (tallied_ext (marked s) _ s); [done..|apply (b_half_open _ B)].
    + intros a b. split; [intros X; by apply NM in X|intros (X & _); discriminate X].
  - eapply quietly_books; [|exact B]. by apply quietly_goto; [apply quietly_refl|].
Qed.

Lemma new_message_books m id h t s : books s -> pc_of s t = New_message m id h ->
  well books (if (ikesa_limit cfg =? 0) || (get_count s <? ikesa_limit cfg) then Next (goto t (Room m id h) s) else Next (goto t (Forgetting h) s)).
Proof.
  intros B E. case_match; cbn; (eapply quietly_books; [|exact B]); (apply quietly_goto; [apply quietly_refl|]; unfold phase_of; by rewrite E).
Qed.

Lemma forgetting_books t h s : books s -> pc_of s t = Forgetting h -> well books (remove_init_hash cfg hash_key t h s (fun s => Next (goto t Idle s))).
Proof.
  intros B E. assert (P : phase_of s t = Keeps h) by (unfold phase_of; by rewrite E). apply with_hash_segment_well. intros r ->. fold (hash_row h).
  set (s1 := with_init_hashes_table _ s). assert (Q : quiet_at_all (phase_of s t)) by (by rewrite P).
  apply (goto_books s); try done. eapply (hashed_remove (owns s) _ s _ (inr t) h); [apply (b_hashes _ B)|done|done| |cbn; rewrite P; by intros h' [= ->]].
  intros o h'. rewrite (owns_goto s s1 t Idle) by done. destruct o as [e|t']; [naive_solver|]. case_decide; naive_solver.
Qed.

(** *** Closing *)

Lemma closing_books t e s : kept cfg s -> books s -> pc_of s t = Closing e ->
  well books (load e s (fun x => Next (goto t (Unhashing e) (if half_open x then remove_half_open cfg hash_key x s else s)))).
Proof.
  intros K B E. assert (R : role_of s e t = Closes) by (eapply closes_in; [exact E|done]).
  destruct (closes_at _ _ _ _ K R) as (x & L & _). unfold load. rewrite L. cbn.
  assert (P : phase_of s t = Elsewhere) by (unfold phase_of; by rewrite E).
  assert (Q : forall t', quiet_at e (phase_of s t')).
  { intros t'. destruct (decide (t' = t)) as [->|N]; [by rewrite P|by eapply closed_alone]. }
  set (s1 := if half_open x then _ else s).
  assert (C : core s1 = core s /\ total_sa_count s1 = total_sa_count s /\ init_hashes_table s1 = init_hashes_table s).
  { subst s1. destruct (half_open x); [apply half_open_beside|done]. }
  destruct C as ((C1 & C2 & C3 & C4 & C5)%core_eq & CT & CI). pose proof (phases_goto s s1 t (Unhashing e) C4) as PH. cbn [phase] in PH.
  set (out := fun e' a b => e' <> e /\ marked s e' a b).
  assert (TO : tallied out s1).
  { subst s1. destruct (half_open x) eqn:HO.
    - eapply remove_half_open_tallied; [apply (b_half_open _ B)|by apply checkin_marked|done].
    - eapply (tallied_ext (marked s) _ s); [|done..|apply (b_half_open _ B)]. intros e' a b. unfold out. split; [tauto|].
      intros X. split; [|done]. intros ->. by eapply not_marked in X. }
  constructor.
  - cbn. rewrite C1, CT. apply (b_total _ B).
  - eapply (tallied_ext out _ s1); [|done..|exact TO]. intros e' a b. unfold out. destruct (decide (e' = e)) as [->|N].
    + split; [|tauto]. intros (z & _ & _ & _ & _ & X). destruct (X t) as [X1 _]. rewrite PH, decide_True in X1 by done. done.
    + rewrite (marked_other s _ t (Uncounted e)); [tauto|exact PH| |cbn; by rewrite C2]. rewrite P. unfold quiet_at. naive_solver.
  - eapply (hashed_ext (owns s) _ s); [|exact CI|apply (b_hashes _ B)]. intros [e'|t'] h.
    + apply (owns_other _ _ _ _ _ _ PH); [by rewrite P|cbn; by rewrite C2].
    + rewrite (owns_thread _ _ _ _ _ _ PH). case_decide; [subst|done]. cbn. by rewrite P.
  - cbn. rewrite C2. apply (b_other _ B).
Qed.

Lemma unhashing_books t e s : kept cfg s -> books s -> pc_of s t = Unhashing e ->
  well books (load e s (fun x =>
    match init_hash x with
    | Some hash => remove_init_hash cfg hash_key t hash s (fun s => Next (goto t (Freeing e) s))
    | None => Next (goto t (Freeing e) s)
    end)).
Proof.
  intros K B E. assert (R : role_of s e t = Closes) by (eapply closes_in; [exact E|done]).
  destruct (closes_at _ _ _ _ K R) as (x & L & _). unfold load. rewrite L.
  assert (P : phase_of s t = Uncounted e) by (unfold phase_of; by rewrite E).
  assert (F : forall s1, heap s1 = heap s -> threads s1 = threads s -> accounts s1 = accounts (with_init_hashes_table (init_hashes_table s1) s) ->
    ((forall o h, owns (goto t (Freeing e) s1) o h <-> o <> inl e /\ owns s o h) -> hashed (owns (goto t (Freeing e) s1)) (goto t (Freeing e) s1)) ->
    books (goto t (Freeing e) s1)).
  { intros s1 EH ET A HH. injection A as A1 A2 A3 A4 A5. pose proof (phases_goto s s1 t (Freeing e) ET) as PH. cbn [phase] in PH. constructor.
    - cbn. rewrite A1, A2. apply (b_total _ B).
    - eapply (tallied_ext (marked s) _ s); [|done..|apply (b_half_open _ B)]. intros e' a b. apply (marked_other _ _ _ _ _ _ _ PH); [|cbn; by rewrite EH].
      rewrite P. unfold quiet_at. naive_solver.
    - apply HH. intros [e'|t'] h.
      + destruct (decide (e' = e)) as [->|N].
        * split; [|naive_solver]. intros (z & _ & _ & X). destruct (X t). by rewrite PH, decide_True.
        * rewrite (owns_other _ _ _ _ _ _ PH); [naive_solver|rewrite P; naive_solver|cbn; by rewrite EH].
      + rewrite (owns_thread _ _ _ _ _ _ PH). case_decide; [subst|naive_solver]. cbn. rewrite P. naive_solver.
    - cbn. rewrite EH. apply (b_other _ B). }
  assert (Q : forall t', phase_of s t' <> Unhashed e).
  { intros t'. destruct (decide (t' = t)) as [->|N]; [by rewrite P|by apply (closed_alone s e x t t')]. }
  destruct (init_hash x) as [h|] eqn:I.
  - apply with_hash_segment_well. intros r ->. fold (hash_row h). apply F; try done. intros O.
    eapply (hashed_remove (owns s) _ s _ (inl e) h); [apply (b_hashes _ B)|by exists x|done|exact O|]. intros h' (z & Lz & Iz & _). congruence.
  - apply F; try done. intros O. eapply (hashed_ext (owns s) _ s); [|done|apply (b_hashes _ B)]. intros o h. rewrite O. split; [tauto|].
    intros X. split; [|done]. intros ->. destruct X as (z & Lz & Iz & _). congruence.
Qed.

Lemma freeing_books t e s : kept cfg s -> books s -> pc_of s t = Freeing e ->
  well books (load e s (fun x => load_sa (ike_sa x) s (fun _ =>
    Next (goto t Idle (with_heap (delete e (heap s)) (with_sas (delete (ike_sa x) (sas s)) s)))))).
Proof.
  intros K B E. assert (R : role_of s e t = Closes) by (eapply closes_in; [exact E|done]).
  destruct (closes_at _ _ _ _ K R) as (x & L & _). unfold load, load_sa. rewrite L. destruct (g_sas _ _ K _ _ L) as (y & -> & _). cbn.
  assert (P : phase_of s t = Unhashed e) by (unfold phase_of; by rewrite E).
  set (s1 := with_heap _ _). pose proof (phases_goto s s1 t Idle eq_refl) as PH. cbn [phase] in PH. constructor.
  - apply (b_total _ B).
  - eapply (tallied_ext (marked s) _ s); [|done..|apply (b_half_open _ B)]. intros e' a b. destruct (decide (e' = e)) as [->|N].
    + split; intros (z & Lz & _ & _ & _ & X); [cbn in Lz; by rewrite lookup_delete_eq in Lz|]. by destruct (X t).
    + apply (marked_other _ _ _ _ _ _ _ PH); [rewrite P; unfold quiet_at; naive_solver|]. cbn. by rewrite lookup_delete_ne.
  - eapply (hashed_ext (owns s) _ s); [|done|apply (b_hashes _ B)]. intros [e'|t'] h.
    + destruct (decide (e' = e)) as [->|N].
      * split; intros (z & Lz & _ & X); [cbn in Lz; by rewrite lookup_delete_eq in Lz|]. by destruct (X t).
      * apply (owns_other _ _ _ _ _ _ PH); [rewrite P; naive_solver|]. cbn. by rewrite lookup_delete_ne.
    + rewrite (owns_thread _ _ _ _ _ _ PH). case_decide; [subst|done]. cbn. by rewrite P.
  - intros e' z. cbn. intros [_ Lz]%lookup_delete_Some. by eapply (b_other _ B).
Qed.

(** *** Every step *)

Lemma begin_books who t c s : kept cfg s -> books s -> pc_of s t = Idle -> (forall sa, sa_of c = Some sa -> holds s sa t) -> well books (begin cfg hash_key who t c s).
Proof.
  intros K B E H. destruct c; cbn in *.
  - by apply (well_quietly s), checkout_quietly.
  - by apply checkout_by_message_books.
  - by apply (well_quietly s), create_new_quietly.
  - destruct (registered sa s); [done|]. apply checkout_new_books; auto.
  - apply checkin_books; auto.
  - apply checkin_and_destroy_books; auto.
  - apply (well_quietly s); [done|]. eapply new_initiator_spi_quietly; eauto.
  - apply (well_quietly s); [done|]. eapply change_quietly; eauto.
Qed.

Lemma continue_books who ok peer t s : kept cfg s -> books s -> well books (continue cfg hash_key who ok peer t s).
Proof.
  intros K B. unfold continue. destruct (pc_of s t) eqn:E; [done| | | | | | | | | ].
  - by apply (well_quietly s), woken_quietly.
  - by eapply new_message_books.
  - by apply put_new_books.
  - by apply forgetting_books.
  - apply (well_quietly s); [done|]. apply find_by_message_quietly; [done|intros e; unfold role_of; by rewrite E|unfold phase_of; by rewrite E].
  - by apply driving_books.
  - by apply closing_books.
  - by apply unhashing_books.
  - by apply freeing_books.
Qed.

Lemma step_books l s : kept cfg s -> books s -> well books (step cfg hash_key l s).
Proof.
  intros K B. destruct l as [who t c|who ok peer t|t]; cbn; [|by apply continue_books|by apply (well_quietly s), wake_quietly].
  destruct (pc_of s t) eqn:E; try done. destruct (sa_of c) as [sa|] eqn:S.
  - case_bool_decide as H; [|done]. apply begin_books; try done. intros sa' X. unfold holds. congruence.
  - apply begin_books; try done. intros sa' X. congruence.
Qed.

Lemma created_books : books ike_sa_manager_create.
Proof.
  constructor.
  - apply counted_none. intros e [r X]. by apply elem_of_nil in X.
  - constructor; cbn.
    + intros r. constructor.
    + intros a. split; apply counted_none; intros e; [intros [b (x & L & _)]|intros (x & L & _)]; done.
    + apply counted_none. by intros e (a & b & x & L & _).
    + apply counted_none. by intros e (a & x & L & _).
  - constructor; cbn.
    + intros r. constructor.
    + intros h. split; [by intros ?%elem_of_nil|]. by intros [[e|t] X]; [destruct X as (x & L & _)|].
    + by intros [e|t] [e'|t'] h X Y; try (destruct X as (? & ? & _)); try (destruct Y as (? & ? & _)).
  - done.
Qed.

Lemma run_books ls : well (fun s => kept cfg s /\ books s) (run cfg hash_key ls ike_sa_manager_create).
Proof. apply run_well; [apply step_books|apply created_kept|apply created_books]. Qed.

End Books.

(** * What holds of every run *)

Lemma get_half_open_count_tally cfg k ip r s :
  get_half_open_count cfg k (Some ip) r s = if r then (tally cfg k s (get_address ip)).2 else (tally cfg k s (get_address ip)).1.
Proof. unfold get_half_open_count, tally, find_tally, hash_row. destruct (find _ _); by destruct r. Qed.

(** C19: The counters are right in every run, whatever the threads do in between: the number of
    half-open IKE_SAs with an address, and of all, as [get_half_open_count] returns them with
    and without those we initiated, are the numbers of entries that are half-open, and
    [get_count] is the number of entries in the table. *)
Theorem half_open_counts cfg k ls s :
  run cfg k ls ike_sa_manager_create = Next s ->
  (forall ip r, counted (fun e => exists b, marked s e (get_address ip) b /\ (r = true -> b = true)) (get_half_open_count cfg k (Some ip) r s)) /\
  (forall r, counted (fun e => exists a b, marked s e a b /\ (r = true -> b = true)) (get_half_open_count cfg k None r s)) /\
  counted (fun e => exists r, e ∈ row (ike_sa_table s) r) (get_count s).
Proof.
  intros E. pose proof (run_books cfg k ls) as R. rewrite E in R. destruct R as [K [T [N A C D] H O]]. split; [|split; [|done]].
  - intros ip r. rewrite get_half_open_count_tally. destruct (A (get_address ip)) as [A1 A2].
    destruct r; (eapply counted_iff; [|eassumption]); intros e; cbn; naive_solver.
  - intros r. destruct r; cbn; (eapply counted_iff; [|eassumption]); intros e; cbn; naive_solver.
Qed.

(** C7: An initial message makes one IKE_SA, however often it is received and by whichever
    threads: no two entries of the table come from messages with the same hash, and while
    there is one no thread is about to make another. *)
Theorem one_sa_per_initial_message cfg k ls s e x h :
  run cfg k ls ike_sa_manager_create = Next s -> heap s !! e = Some x -> e ∈ row (ike_sa_table s) (row_id cfg (ike_sa_id x)) -> init_hash x = Some h ->
  (forall e' x', heap s !! e' = Some x' -> e' ∈ row (ike_sa_table s) (row_id cfg (ike_sa_id x')) -> init_hash x' = Some h -> e' = e) /\
  forall t m id, pc_of s t <> New_message m id h /\ pc_of s t <> Room m id h.
Proof.
  intros E L T I. pose proof (run_books cfg k ls) as R. rewrite E in R. destruct R as [K B].
  assert (O : forall e x, heap s !! e = Some x -> e ∈ row (ike_sa_table s) (row_id cfg (ike_sa_id x)) -> init_hash x = Some h -> owns s (inl e) h).
  { intros e' x' L' T' I'. exists x'. split; [done|]. split; [done|]. intros t. pose proof (tabled_live _ _ _ _ K L' T') as V. apply (live_quiet_at s e' x' t V). }
  pose proof (h_one _ _ _ _ (b_hashes _ _ _ B)) as U. split.
  - intros e' x' L' T' I'. pose proof (U _ _ _ (O _ _ L' T' I') (O _ _ L T I)) as X. congruence.
  - intros t m id. split; intros P; (assert (Ot : owns s (inr t) h) by (cbn; unfold phase_of; by rewrite P));
      pose proof (U _ _ _ Ot (O _ _ L T I)); done.
Qed.

(** ** A mutex that is not unlocked *)

(** What holds of the state after a step, if there is one. *)
Definition after (P : manager -> Prop) (r : stepped) : Prop := forall s, r = Next s -> P s.

Section Locked.
Context (cfg : config) (hash_key : chunk) (segment : Z) (t0 : thread).

Definition locked (s : manager) : Prop := init_locked s !! segment = Some t0.

Lemma locked_same s s' : init_locked s' = init_locked s -> locked s -> locked s'.
Proof. unfold locked. by intros ->. Qed.

Lemma after_next (P : manager -> Prop) s : P s -> after P (Next s).
Proof. intros H s' [= <-]. done. Qed.

Lemma locked_load e s next : (forall x, after locked (next x)) -> after locked (load e s next).
Proof. intros F. unfold load. case_match; [apply F|done]. Qed.

Lemma locked_load_sa sa s next : (forall x, after locked (next x)) -> after locked (load_sa sa s next).
Proof. intros F. unfold load_sa. case_match; [apply F|done]. Qed.

Lemma locked_get_entry id match_ s found not_found :
  (forall e x, after locked (found e x)) -> after locked not_found -> after locked (get_entry cfg id match_ s found not_found).
Proof. intros F N. unfold get_entry. by repeat case_match. Qed.

Lemma locked_judged t p e v s : locked s -> after locked (judged t p e v s).
Proof.
  intros L. destruct v as [[] x]; cbn; [|by apply after_next..]. destruct p; cbn; [by apply after_next|].
  apply locked_load_sa. intros y. by apply after_next.
Qed.

Lemma locked_create_and_put_entry sa x s next : (forall e y s', init_locked s' = init_locked s -> after locked (next e y s')) -> after locked (create_and_put_entry cfg hash_key sa x s next).
Proof. intros F. unfold create_and_put_entry. case_match; by apply F. Qed.

Lemma locked_with_hash_segment t h s next : (forall r seg, (seg = segment -> t = t0) -> after locked (next r seg)) -> locked s -> after locked (with_hash_segment cfg hash_key t h s next).
Proof.
  intros F L. unfold with_hash_segment. set (seg := Z.land _ _). destruct (init_locked s !! seg) as [t'|] eqn:E.
  - destruct (Nat.eqb_spec t t') as [->|]; [|done]. apply F. intros X. unfold locked in L. rewrite X in E. pose proof (eq_trans (eq_sym L) E) as [= Y]. by rewrite Y.
  - apply F. intros X. unfold locked in L. rewrite X in E. pose proof (eq_trans (eq_sym L) E) as Y. discriminate Y.
Qed.

Lemma locked_remove_half_open x s : init_locked (remove_half_open cfg hash_key x s) = init_locked s.
Proof. unfold remove_half_open. by case_match. Qed.

Lemma locked_remove_entry e x s : init_locked (remove_entry cfg e x s) = init_locked s.
Proof. unfold remove_entry. by case_match. Qed.

Lemma locked_drive_out t e x s : locked s -> after locked (drive_out cfg t e x s).
Proof.
  intros L. unfold drive_out. case_match; apply after_next; (eapply locked_same; [|exact L]); [|done]. exact (locked_remove_entry e x (store e x s)).
Qed.

Ltac locked_tac := first [ done | by apply after_next | apply locked_load; intros ? | apply locked_load_sa; intros ?
  | apply locked_get_entry; [intros ? ?|] | by apply locked_judged | by apply locked_drive_out
  | apply locked_create_and_put_entry; intros ? ? ? ? | case_match ].

Lemma locked_checkin who t sa s : locked s -> after locked (checkin cfg hash_key who t sa s).
Proof.
  intros L. unfold checkin. apply locked_load_sa. intros y. apply locked_get_entry; [intros e x; cbv zeta|].
  - repeat case_match; apply after_next; (eapply locked_same; [|exact L]); cbn; by rewrite ?locked_remove_half_open.
  - apply locked_create_and_put_entry. intros ? ? s' E. apply after_next. by eapply locked_same.
Qed.

Lemma locked_begin who t c s : locked s -> after locked (begin cfg hash_key who t c s).
Proof.
  intros L. destruct c; cbn.
  - unfold checkout, get_entry_by_id. repeat locked_tac.
  - unfold checkout_by_message. destruct (is_init m); [|by apply after_next]. destruct (get_init_hash m) as [h|]; [|by apply after_next].
    apply locked_with_hash_segment; [|done]. intros r seg S. cbv zeta. repeat case_match; apply after_next; try done.
    unfold locked. cbn. destruct (decide (seg = segment)) as [->|N]; [by rewrite lookup_insert_eq, S|by rewrite lookup_insert_ne].
  - unfold create_new. repeat locked_tac.
  - unfold checkout_new. case_match; [done|]. apply locked_load_sa. intros y. apply locked_create_and_put_entry. intros ? ? s' E.
    apply after_next. by eapply locked_same; [exact E|].
  - by apply locked_checkin.
  - unfold checkin_and_destroy, get_entry_by_sa. repeat locked_tac.
  - unfold new_initiator_spi, get_entry_by_sa. repeat locked_tac.
  - repeat locked_tac.
Qed.

Lemma locked_continue who ok peer t s : locked s -> after locked (continue cfg hash_key who ok peer t s).
Proof.
  intros L. unfold continue. destruct (pc_of s t); try done.
  - repeat locked_tac.
  - repeat locked_tac.
  - unfold put_new. repeat locked_tac.
  - apply locked_with_hash_segment; [|done]. intros r seg _. by apply after_next.
  - unfold find_by_message, get_entry_by_id. repeat locked_tac.
  - repeat locked_tac.
  - apply locked_load. intros x. apply after_next. eapply locked_same; [|exact L]. cbn. case_match; [apply locked_remove_half_open|done].
  - apply locked_load. intros x. case_match; [|by apply after_next]. apply locked_with_hash_segment; [|done]. intros r seg _. by apply after_next.
  - repeat locked_tac.
Qed.

Lemma locked_step l s : locked s -> after locked (step cfg hash_key l s).
Proof.
  intros L. destruct l; cbn; [|by apply locked_continue|].
  - repeat case_match; try done; by apply locked_begin.
  - unfold wake. case_match; repeat locked_tac.
Qed.

Lemma locked_run ls s : locked s -> after locked (run cfg hash_key ls s).
Proof.
  revert s. induction ls as [|l ls IH]; intros s L; [by apply after_next|]. cbn. pose proof (locked_step l s L) as S.
  destruct (step cfg hash_key l s) as [s'| |]; try done. by apply IH, S.
Qed.

End Locked.

(** The segment of the hash of an initial message. *)
Definition init_segment (cfg : config) (k : chunk) (h : chunk) : Z := Z.land (row_of cfg (chunk_hash k h)) (segment_mask cfg).

(** C29: When no SPI can be had for an initial message, the mutex of the segment of its hash is
    not unlocked: from then on, in every run, no other thread gets past a new initial
    message of that segment, nor past the removal of a hash of it. *)
Theorem failed_spi_locks_segment cfg k who t m h random s s' ls s'' t' :
  pc_of s t = Idle -> is_init m = true -> get_init_hash m = Some h -> find_hash h (row (init_hashes_table s) (hash_row cfg k h)) = None ->
  get_spi cfg random = 0 -> step cfg k (Begin who t (Checkout_by_message m random)) s = Next s' -> run cfg k ls s' = Next s'' -> t' <> t ->
  (forall who' m' h' random', is_init m' = true -> get_init_hash m' = Some h' -> init_segment cfg k h' = init_segment cfg k h ->
     step cfg k (Begin who' t' (Checkout_by_message m' random')) s'' = Stuck) /\
  (forall who' ok peer h', pc_of s'' t' = Forgetting h' -> init_segment cfg k h' = init_segment cfg k h ->
     step cfg k (Continue who' ok peer t') s'' = Stuck).
Proof.
  intros P I H F G S R N.
  assert (L : locked (init_segment cfg k h) t s').
  { cbn in S. rewrite P in S. unfold checkout_by_message, check_and_put_init_hash, with_hash_segment in S. rewrite I, H in S. fold (hash_row cfg k h) in S.
    rewrite F, G in S. cbn in S. unfold locked, init_segment. fold (hash_row cfg k h). destruct (init_locked s !! _).
    - destruct (_ =? _)%nat; [|done]. injection S as <-. cbn. by rewrite lookup_insert_eq.
    - injection S as <-. cbn. by rewrite lookup_insert_eq. }
  pose proof (locked_run cfg k _ _ ls s' L s'' R) as L'. clear S L R.
  assert (W : forall h' next, init_segment cfg k h' = init_segment cfg k h -> with_hash_segment cfg k t' h' s'' next = Stuck).
  { intros h' next E. unfold with_hash_segment. fold (init_segment cfg k h'). rewrite E, L'. destruct (Nat.eqb_spec t' t) as [E'|]; [by destruct N|done]. }
  split.
  - intros who' m' h' random' I' H' E. cbn. destruct (pc_of s'' t'); try done. unfold checkout_by_message, check_and_put_init_hash. rewrite I', H'. by apply W.
  - intros who' ok peer h' P' E. cbn. unfold continue. rewrite P'. by apply W.
Qed.

(** * A run *)

Definition example_key : chunk := replicate 16 0.

(** A request to start an IKE_SA. *)
Definition example_init : message_t :=
  {| m_id := Ike_sa_id 2 7 0 true; message_id := 0; major_version := 2; exchange := IKE_SA_INIT; is_request := true;
     is_fragment := false; packet_hash := 0; get_init_hash := Some [1; 2; 3] |}.

(** Two threads receive it, one makes the IKE_SA, which becomes half-open. *)
Definition example_init_run : list label :=
  [Begin 0 1%nat (Checkout_by_message example_init (Some 9)); Begin 0 2%nat (Checkout_by_message example_init (Some 10));
   Continue 0 true example_peer 1%nat; Continue 0 true example_peer 1%nat; Continue 0 true example_peer 2%nat;
   Begin 0 1%nat (Change 0%nat {| sa_id := Ike_sa_id 2 7 9 false; sa_state := TaskManager.IKE_CONNECTING; sa_other := example_peer |});
   Begin 0 1%nat (Checkin 0%nat)].

Definition example_state : manager :=
  match run example_cfg example_key example_init_run ike_sa_manager_create with Next s => s | _ => ike_sa_manager_create end.

Lemma half_open_counts_witness :
  get_half_open_count example_cfg example_key (Some example_peer) true example_state = 1 /\
  exists e b, marked example_state e [10; 0; 0; 1] b.
Proof.
  split; [vm_compute; reflexivity|].
  destruct (proj1 (half_open_counts example_cfg example_key example_init_run example_state ltac:(vm_compute; reflexivity)) example_peer true) as (l & _ & M & E).
  destruct l as [|e l]; [vm_compute in E; discriminate E|].
  destruct (proj1 (M e) ltac:(by left)) as (b & X & _). exists e, b. exact X.
Defined.

Lemma one_sa_per_initial_message_witness :
  exists x, heap example_state !! 0%nat = Some x /\ forall m id, pc_of example_state 2%nat <> Room m id [1; 2; 3].
Proof.
  eexists. split; [vm_compute; reflexivity|]. intros m id.
  refine (proj2 (proj2 (one_sa_per_initial_message example_cfg example_key example_init_run example_state 0%nat _ [1; 2; 3] _ _ _ _) 2%nat m id)).
  - vm_compute. reflexivity.
  - vm_compute. reflexivity.
  - vm_compute. by left.
  - vm_compute. reflexivity.
Defined.

(** Without random numbers the first message locks out the second thread. *)
Lemma failed_spi_locks_segment_witness :
  exists s, step example_cfg example_key (Begin 0 1%nat (Checkout_by_message example_init None)) ike_sa_manager_create = Next s /\
    step example_cfg example_key (Begin 0 2%nat (Checkout_by_message example_init (Some 10))) s = Stuck.
Proof.
  eexists. split; [vm_compute; reflexivity|].
  refine (proj1 (failed_spi_locks_segment example_cfg example_key 0 1%nat example_init [1; 2; 3] None ike_sa_manager_create _ [] _ 2%nat _ _ _ _ _ _ _ _) 0%nat example_init [1; 2; 3] (Some 10) _ _ _);
    try (vm_compute; reflexivity). done.
Defined.
