(* ===== verification/Bits.v ===== *)
(** Bit strings in network order: what the parser reads and the generator writes, when
    fields are smaller than a byte. *)

From S2P Require Import Prelude.

(** The [n] low-order bits of an integer, the most significant first. *)
Fixpoint bits (n : nat) (v : Z) : list bool :=
  match n with
  | O => []
  | S n => Z.testbit v (Z.of_nat n) :: bits n v
  end.

(** The integer a bit string denotes. *)
Fixpoint bits_val (l : list bool) : Z :=
  match l with
  | [] => 0
  | b :: l => Z.b2z b * 2 ^ Z.of_nat (length l) + bits_val l
  end.

Definition of_bytes (c : chunk) : list bool := c ≫= bits 8.

Lemma length_bits n v : length (bits n v) = n.
Proof. induction n; cbn; auto. Qed.

Lemma bits_val_range l : 0 <= bits_val l < 2 ^ Z.of_nat (length l).
Proof.
  induction l as [|b l IH]; cbn [bits_val length]; [cbn; lia|].
  rewrite Nat2Z.inj_succ, Z.pow_succ_r by lia. destruct b; cbn [Z.b2z]; lia.
Qed.

Lemma testbit_as_div v n : Z.b2z (Z.testbit v (Z.of_nat n)) = (v / 2 ^ Z.of_nat n) mod 2.
Proof. rewrite Z.testbit_spec' by lia. done. Qed.

Lemma bits_val_bits n v : bits_val (bits n v) = v mod 2 ^ Z.of_nat n.
Proof.
  induction n as [|n IH]; cbn [bits bits_val]; [by rewrite Z.mod_1_r|].
  rewrite IH, length_bits, testbit_as_div, Nat2Z.inj_succ, Z.pow_succ_r by lia.
  rewrite (Z.mul_comm 2), Z.rem_mul_r by lia. lia.
Qed.

Lemma bits_val_app a b :
  bits_val (a ++ b) = bits_val a * 2 ^ Z.of_nat (length b) + bits_val b.
Proof.
  induction a as [|x a IH]; cbn [bits_val app]; [lia|].
  rewrite IH, length_app, Nat2Z.inj_add, Z.pow_add_r by lia. ring.
Qed.

Lemma bits_inj n a b : 0 <= a < 2 ^ Z.of_nat n -> 0 <= b < 2 ^ Z.of_nat n ->
  bits n a = bits n b -> a = b.
Proof.
  intros Ha Hb H%(f_equal bits_val). rewrite !bits_val_bits in H.
  by rewrite !Z.mod_small in H.
Qed.

Lemma bits_ext n a b :
  (forall i, (i < n)%nat -> Z.testbit a (Z.of_nat i) = Z.testbit b (Z.of_nat i)) ->
  bits n a = bits n b.
Proof. induction n as [|n IH]; intros H; cbn; [done|]. rewrite H by lia. f_equal. auto. Qed.

Lemma bits_mod n k v : (n <= k)%nat -> bits n (v mod 2 ^ Z.of_nat k) = bits n v.
Proof. intros H. apply bits_ext. intros i Hi. by rewrite Z.mod_pow2_bits_low by lia. Qed.

Lemma bits_app n m v : bits (n + m) v = bits n (v / 2 ^ Z.of_nat m) ++ bits m v.
Proof.
  induction n as [|n IH]; [done|]. cbn [Nat.add bits app].
  rewrite IH. f_equal. rewrite Z.div_pow2_bits by lia. f_equal. lia.
Qed.

Lemma bits_u8 v : bits 8 (u8 v) = bits 8 v.
Proof. apply (bits_mod 8 8). lia. Qed.

Lemma length_of_bytes c : length (of_bytes c) = (8 * length c)%nat.
Proof.
  induction c as [|b c IH]; [done|].
  change (of_bytes (b :: c)) with (bits 8 b ++ of_bytes c).
  rewrite length_app, IH, length_bits. cbn [length]. lia.
Qed.

Lemma of_bytes_app a b : of_bytes (a ++ b) = of_bytes a ++ of_bytes b.
Proof. apply bind_app. Qed.

Lemma of_bytes_nil : of_bytes [] = [].
Proof. done. Qed.

Lemma of_bytes_take n c : of_bytes (take n c) = take (8 * n) (of_bytes c).
Proof.
  rewrite <- (take_drop n c) at 2. rewrite of_bytes_app.
  destruct (decide (n <= length c)%nat).
  - rewrite take_app_length'; [done|]. rewrite length_of_bytes, length_take. lia.
  - rewrite drop_ge by lia. rewrite of_bytes_nil, app_nil_r, (take_ge (of_bytes _)); [done|].
    rewrite length_of_bytes, length_take. lia.
Qed.

Lemma of_bytes_drop n c : of_bytes (drop n c) = drop (8 * n) (of_bytes c).
Proof.
  rewrite <- (take_drop n c) at 2. rewrite of_bytes_app.
  destruct (decide (n <= length c)%nat).
  - rewrite drop_app_length'; [done|]. rewrite length_of_bytes, length_take. lia.
  - rewrite (drop_ge c) by lia. rewrite of_bytes_nil, app_nil_r, (drop_ge (of_bytes _)); [done|].
    rewrite length_of_bytes, length_take. lia.
Qed.

Lemma of_bytes_be_bytes n v : of_bytes (be_bytes n v) = bits (8 * n) v.
Proof.
  induction n as [|n IH]; [done|]. cbn [be_bytes].
  change (of_bytes (?b :: ?c)) with (bits 8 b ++ of_bytes c). rewrite IH.
  replace (8 * S n)%nat with (8 + 8 * n)%nat by lia. rewrite bits_app. f_equal.
  rewrite (bits_mod 8 8) by lia. f_equal. f_equal.
  rewrite Nat2Z.inj_mul, Z.pow_mul_r by lia. done.
Qed.

Lemma bits_val_of_bytes c : bytes_ok c -> bits_val (of_bytes c) = be_val c.
Proof.
  induction 1 as [|b c Hb Hc IH]; [done|].
  change (of_bytes (b :: c)) with (bits 8 b ++ of_bytes c).
  rewrite bits_val_app, IH, bits_val_bits, length_of_bytes. cbn [be_val].
  rewrite Z.mod_small by exact Hb. unfold len.
  rewrite Nat2Z.inj_mul, Z.pow_mul_r by lia. done.
Qed.

(** A byte string is determined by its bits. *)
Lemma of_bytes_inj a b : bytes_ok a -> bytes_ok b -> of_bytes a = of_bytes b -> a = b.
Proof.
  intros Ha Hb H. apply be_val_inj; [done|done| |].
  - apply (f_equal length) in H. rewrite !length_of_bytes in H. lia.
  - by rewrite <- !bits_val_of_bytes, H.
Qed.

