(* ===== verification/Payloads.v ===== *)
(** The payloads of IKE messages: libcharon/encoding/payloads. Each kind of payload is
    a structure with a table of encoding rules, by which the generator reads its members
    and the parser writes them; the members are found by name, where the C code has
    their offset. A structure starts zeroed, so a number that is not in the map is 0, a
    chunk that is not there is empty, and maps without zeroes make structures with equal
    members equal. *)

From Stdlib Require Import Strings.String.
From stdpp Require Export gmap strings.
From S2P Require Import Prelude Host TrafficSelector.
#[local] Open Scope Z_scope.

(** * Encoding rules (encodings.h) *)

Inductive encoding_type :=
  | U_INT_4 | U_INT_8 | U_INT_16 | U_INT_32
  | RESERVED_BIT | RESERVED_BYTE | FLAG
  | PAYLOAD_LENGTH | HEADER_LENGTH
  | SPI_SIZE | SPI
  | ATTRIBUTE_FORMAT | ATTRIBUTE_TYPE | ATTRIBUTE_LENGTH_OR_VALUE | ATTRIBUTE_LENGTH
  | ATTRIBUTE_VALUE
  | TS_TYPE | ADDRESS
  | CHUNK_DATA | IKE_SPI | ENCRYPTED_DATA
  | PAYLOAD_LIST (payload_type : Z).   (** [PAYLOAD_LIST + payload_type] *)

#[global] Instance encoding_type_eq_dec : EqDecision encoding_type.
Proof. solve_decision. Defined.

Record encoding_rule := Rule { rule_type : encoding_type; offset : string }.

(** * Payload types (payload.h) *)

Definition PL_NONE : Z := 0.
Definition PLV1_SECURITY_ASSOCIATION : Z := 1.
Definition PLV1_KEY_EXCHANGE : Z := 4.
Definition PLV1_ID : Z := 5.
Definition PLV1_CERTIFICATE : Z := 6.
Definition PLV1_CERTREQ : Z := 7.
Definition PLV1_HASH : Z := 8.
Definition PLV1_SIGNATURE : Z := 9.
Definition PLV1_NONCE : Z := 10.
Definition PLV1_NOTIFY : Z := 11.
Definition PLV1_DELETE : Z := 12.
Definition PLV1_VENDOR_ID : Z := 13.
Definition PLV1_CONFIGURATION : Z := 14.
Definition PLV1_NAT_D : Z := 20.
Definition PLV1_NAT_OA : Z := 21.
Definition PLV2_SECURITY_ASSOCIATION : Z := 33.
Definition PLV2_KEY_EXCHANGE : Z := 34.
Definition PLV2_ID_INITIATOR : Z := 35.
Definition PLV2_ID_RESPONDER : Z := 36.
Definition PLV2_CERTIFICATE : Z := 37.
Definition PLV2_CERTREQ : Z := 38.
Definition PLV2_AUTH : Z := 39.
Definition PLV2_NONCE : Z := 40.
Definition PLV2_NOTIFY : Z := 41.
Definition PLV2_DELETE : Z := 42.
Definition PLV2_VENDOR_ID : Z := 43.
Definition PLV2_TS_INITIATOR : Z := 44.
Definition PLV2_TS_RESPONDER : Z := 45.
Definition PLV2_ENCRYPTED : Z := 46.
Definition PLV2_CONFIGURATION : Z := 47.
Definition PLV2_EAP : Z := 48.
Definition PLV2_FRAGMENT : Z := 53.
Definition PLV1_NAT_D_DRAFT_00_03 : Z := 130.
Definition PLV1_NAT_OA_DRAFT_00_03 : Z := 131.
Definition PLV1_FRAGMENT : Z := 132.
Definition PL_HEADER : Z := 256.
Definition PL_UNKNOWN : Z := 257.
Definition PLV2_PROPOSAL_SUBSTRUCTURE : Z := 258.
Definition PLV1_PROPOSAL_SUBSTRUCTURE : Z := 259.
Definition PLV2_TRANSFORM_SUBSTRUCTURE : Z := 260.
Definition PLV1_TRANSFORM_SUBSTRUCTURE : Z := 261.
Definition PLV2_TRANSFORM_ATTRIBUTE : Z := 262.
Definition PLV1_TRANSFORM_ATTRIBUTE : Z := 263.
Definition PLV2_TRAFFIC_SELECTOR_SUBSTRUCTURE : Z := 264.
Definition PLV2_CONFIGURATION_ATTRIBUTE : Z := 265.
Definition PLV1_CONFIGURATION_ATTRIBUTE : Z := 266.
Definition PLV1_ENCRYPTED : Z := 267.

Definition IKEV1_DOI_IPSEC : Z := 1.
Definition SIT_IDENTITY_ONLY : Z := 1.
Definition IKE_HEADER_LENGTH : Z := 28.

(** * The structures *)

(** The constructor that made a payload, so its table of methods. *)
Inductive payload_class :=
  | C_IKE_HEADER | C_SA | C_PROPOSAL | C_TRANSFORM | C_ATTRIBUTE | C_NONCE | C_ID | C_AUTH
  | C_CERT | C_CERTREQ | C_TS_SUBSTRUCTURE | C_TS | C_KE | C_NOTIFY | C_DELETE | C_VENDOR_ID
  | C_HASH | C_CP | C_CONFIGURATION_ATTRIBUTE | C_EAP | C_ENCRYPTED | C_FRAGMENT
  | C_ENCRYPTED_FRAGMENT | C_UNKNOWN.

#[global] Instance payload_class_eq_dec : EqDecision payload_class.
Proof. solve_decision. Defined.

(** [type_] is the member [type], or what [get_type] returns for the kinds with one type;
    [elements] is the list the structure has, if it has one. *)
Inductive payload := Payload {
  class : payload_class;
  type_ : Z;
  nums : gmap string Z;
  chunks : gmap string chunk;
  elements : list payload;
}.

Definition store {A} `{EqDecision A} (zero : A) (m : string) (v : A) (mem : gmap string A)
    : gmap string A :=
  if decide (v = zero) then delete m mem else <[m := v]> mem.

Definition num (m : string) (p : payload) : Z := default 0 (nums p !! m).
Definition bytes (m : string) (p : payload) : chunk := default [] (chunks p !! m).

Definition set_num (m : string) (v : Z) (p : payload) : payload :=
  Payload (class p) (type_ p) (store 0 m v (nums p)) (chunks p) (elements p).
Definition set_bytes (m : string) (c : chunk) (p : payload) : payload :=
  Payload (class p) (type_ p) (nums p) (store [] m c (chunks p)) (elements p).
Definition set_elements (es : list payload) (p : payload) : payload :=
  Payload (class p) (type_ p) (nums p) (chunks p) es.

Definition zeroed (c : payload_class) (t : Z) : payload := Payload c t ∅ ∅ [].

(** * The tables of rules *)

(** Next payload, critical flag, seven reserved bits and length, as most of the IKEv2
    payloads start; [r] names the array of the reserved bits. *)
Definition reserved_bits (names : list string) : list encoding_rule :=
  Rule RESERVED_BIT <$> names.

Definition seven_reserved : list string :=
  ["reserved[0]"; "reserved[1]"; "reserved[2]"; "reserved[3]"; "reserved[4]"; "reserved[5]";
   "reserved[6]"]%string.
Definition seven_reserved_bit : list string :=
  ["reserved_bit[0]"; "reserved_bit[1]"; "reserved_bit[2]"; "reserved_bit[3]";
   "reserved_bit[4]"; "reserved_bit[5]"; "reserved_bit[6]"]%string.

Definition generic_header (reserved : list string) : list encoding_rule :=
  [Rule U_INT_8 "next_payload"; Rule FLAG "critical"] ++ reserved_bits reserved
  ++ [Rule PAYLOAD_LENGTH "payload_length"].

(** The same with eight reserved bits and no flag. *)
Definition generic_header_v1 : list encoding_rule :=
  [Rule U_INT_8 "next_payload"] ++ reserved_bits (seven_reserved ++ ["reserved[7]"%string])
  ++ [Rule PAYLOAD_LENGTH "payload_length"].

Definition ike_header_encodings : list encoding_rule :=
  [Rule IKE_SPI "initiator_spi"; Rule IKE_SPI "responder_spi"; Rule U_INT_8 "next_payload";
   Rule U_INT_4 "maj_version"; Rule U_INT_4 "min_version"; Rule U_INT_8 "exchange_type";
   Rule RESERVED_BIT "reserved[0]"; Rule RESERVED_BIT "reserved[1]";
   Rule FLAG "flags.response"; Rule FLAG "flags.version"; Rule FLAG "flags.initiator";
   Rule FLAG "flags.authonly"; Rule FLAG "flags.commit"; Rule FLAG "flags.encryption";
   Rule U_INT_32 "message_id"; Rule HEADER_LENGTH "length"].

Definition sa_encodings_v1 : list encoding_rule :=
  generic_header_v1 ++
  [Rule U_INT_32 "doi"; Rule U_INT_32 "situation";
   Rule (PAYLOAD_LIST PLV1_PROPOSAL_SUBSTRUCTURE) "proposals"].

Definition sa_encodings_v2 : list encoding_rule :=
  generic_header seven_reserved ++ [Rule (PAYLOAD_LIST PLV2_PROPOSAL_SUBSTRUCTURE) "proposals"].

Definition proposal_encodings (transform_type : Z) : list encoding_rule :=
  [Rule U_INT_8 "next_payload"; Rule RESERVED_BYTE "reserved";
   Rule PAYLOAD_LENGTH "proposal_length"; Rule U_INT_8 "proposal_number";
   Rule U_INT_8 "protocol_id"; Rule SPI_SIZE "spi_size"; Rule U_INT_8 "transforms_count";
   Rule SPI "spi"; Rule (PAYLOAD_LIST transform_type) "transforms"].
Definition proposal_encodings_v1 := proposal_encodings PLV1_TRANSFORM_SUBSTRUCTURE.
Definition proposal_encodings_v2 := proposal_encodings PLV2_TRANSFORM_SUBSTRUCTURE.

Definition transform_encodings_v2 : list encoding_rule :=
  [Rule U_INT_8 "next_payload"; Rule RESERVED_BYTE "reserved[0]";
   Rule PAYLOAD_LENGTH "transform_length"; Rule U_INT_8 "transform_ton";
   Rule RESERVED_BYTE "reserved[1]"; Rule U_INT_16 "transform_id_v2";
   Rule (PAYLOAD_LIST PLV2_TRANSFORM_ATTRIBUTE) "attributes"].
Definition transform_encodings_v1 : list encoding_rule :=
  [Rule U_INT_8 "next_payload"; Rule RESERVED_BYTE "reserved[0]";
   Rule PAYLOAD_LENGTH "transform_length"; Rule U_INT_8 "transform_ton";
   Rule U_INT_8 "transform_id_v1"; Rule RESERVED_BYTE "reserved[1]";
   Rule RESERVED_BYTE "reserved[2]";
   Rule (PAYLOAD_LIST PLV1_TRANSFORM_ATTRIBUTE) "attributes"].

Definition attribute_encodings : list encoding_rule :=
  [Rule ATTRIBUTE_FORMAT "attribute_format"; Rule ATTRIBUTE_TYPE "attribute_type";
   Rule ATTRIBUTE_LENGTH_OR_VALUE "attribute_length_or_value";
   Rule ATTRIBUTE_VALUE "attribute_value"].

Definition nonce_encodings := generic_header seven_reserved ++ [Rule CHUNK_DATA "nonce"].

Definition id_encodings_v2 : list encoding_rule :=
  generic_header seven_reserved_bit ++
  [Rule U_INT_8 "id_type"; Rule RESERVED_BYTE "reserved_byte[0]";
   Rule RESERVED_BYTE "reserved_byte[1]"; Rule RESERVED_BYTE "reserved_byte[2]";
   Rule CHUNK_DATA "id_data"].
Definition id_encodings_v1 : list encoding_rule :=
  [Rule U_INT_8 "next_payload"; Rule RESERVED_BYTE "reserved_byte[0]";
   Rule PAYLOAD_LENGTH "payload_length"; Rule U_INT_8 "id_type"; Rule U_INT_8 "protocol_id";
   Rule U_INT_16 "port"; Rule CHUNK_DATA "id_data"].

Definition auth_encodings : list encoding_rule :=
  generic_header seven_reserved_bit ++
  [Rule U_INT_8 "auth_method"; Rule RESERVED_BYTE "reserved_byte[0]";
   Rule RESERVED_BYTE "reserved_byte[1]"; Rule RESERVED_BYTE "reserved_byte[2]";
   Rule CHUNK_DATA "auth_data"].

Definition cert_encodings : list encoding_rule :=
  generic_header seven_reserved ++ [Rule U_INT_8 "encoding"; Rule CHUNK_DATA "data"].
Definition certreq_encodings : list encoding_rule :=
  generic_header seven_reserved ++ [Rule U_INT_8 "encoding"; Rule CHUNK_DATA "data"].

Definition ts_substructure_encodings : list encoding_rule :=
  [Rule TS_TYPE "ts_type"; Rule U_INT_8 "ip_protocol_id"; Rule PAYLOAD_LENGTH "payload_length";
   Rule U_INT_16 "start_port"; Rule U_INT_16 "end_port";
   Rule ADDRESS "starting_address"; Rule ADDRESS "ending_address"].
Definition ts_encodings : list encoding_rule :=
  generic_header seven_reserved_bit ++
  [Rule U_INT_8 "ts_num"; Rule RESERVED_BYTE "reserved_byte[0]";
   Rule RESERVED_BYTE "reserved_byte[1]"; Rule RESERVED_BYTE "reserved_byte[2]";
   Rule (PAYLOAD_LIST PLV2_TRAFFIC_SELECTOR_SUBSTRUCTURE) "substrs"].

Definition ke_encodings_v2 : list encoding_rule :=
  generic_header seven_reserved_bit ++
  [Rule U_INT_16 "dh_group_number"; Rule RESERVED_BYTE "reserved_byte[0]";
   Rule RESERVED_BYTE "reserved_byte[1]"; Rule CHUNK_DATA "key_exchange_data"].
Definition ke_encodings_v1 : list encoding_rule :=
  [Rule U_INT_8 "next_payload"; Rule RESERVED_BYTE "reserved_byte[0]";
   Rule PAYLOAD_LENGTH "payload_length"; Rule CHUNK_DATA "key_exchange_data"].

Definition notify_encodings_v2 : list encoding_rule :=
  generic_header seven_reserved ++
  [Rule U_INT_8 "protocol_id"; Rule SPI_SIZE "spi_size"; Rule U_INT_16 "notify_type";
   Rule SPI "spi"; Rule CHUNK_DATA "notify_data"].
Definition notify_encodings_v1 : list encoding_rule :=
  generic_header_v1 ++
  [Rule U_INT_32 "doi"; Rule U_INT_8 "protocol_id"; Rule SPI_SIZE "spi_size";
   Rule U_INT_16 "notify_type"; Rule SPI "spi"; Rule CHUNK_DATA "notify_data"].

Definition delete_encodings_v2 : list encoding_rule :=
  generic_header seven_reserved ++
  [Rule U_INT_8 "protocol_id"; Rule U_INT_8 "spi_size"; Rule U_INT_16 "spi_count";
   Rule CHUNK_DATA "spis"].
Definition delete_encodings_v1 : list encoding_rule :=
  generic_header_v1 ++
  [Rule U_INT_32 "doi"; Rule U_INT_8 "protocol_id"; Rule U_INT_8 "spi_size";
   Rule U_INT_16 "spi_count"; Rule CHUNK_DATA "spis"].

Definition vendor_id_encodings := generic_header seven_reserved ++ [Rule CHUNK_DATA "data"].

Definition hash_encodings : list encoding_rule :=
  [Rule U_INT_8 "next_payload"; Rule RESERVED_BYTE "reserved";
   Rule PAYLOAD_LENGTH "payload_length"; Rule CHUNK_DATA "hash"].

Definition cp_encodings_v2 : list encoding_rule :=
  generic_header seven_reserved_bit ++
  [Rule U_INT_8 "cfg_type"; Rule RESERVED_BYTE "reserved_byte[0]";
   Rule RESERVED_BYTE "reserved_byte[1]"; Rule RESERVED_BYTE "reserved_byte[2]";
   Rule (PAYLOAD_LIST PLV2_CONFIGURATION_ATTRIBUTE) "attributes"].
Definition cp_encodings_v1 : list encoding_rule :=
  generic_header seven_reserved_bit ++
  [Rule U_INT_8 "cfg_type"; Rule RESERVED_BYTE "reserved_byte[0]"; Rule U_INT_16 "identifier";
   Rule (PAYLOAD_LIST PLV1_CONFIGURATION_ATTRIBUTE) "attributes"].

Definition configuration_attribute_encodings_v2 : list encoding_rule :=
  [Rule RESERVED_BIT "reserved"; Rule ATTRIBUTE_TYPE "attr_type";
   Rule ATTRIBUTE_LENGTH "length_or_value"; Rule ATTRIBUTE_VALUE "value"].
Definition configuration_attribute_encodings_v1 : list encoding_rule :=
  [Rule ATTRIBUTE_FORMAT "af_flag"; Rule ATTRIBUTE_TYPE "attr_type";
   Rule ATTRIBUTE_LENGTH_OR_VALUE "length_or_value"; Rule ATTRIBUTE_VALUE "value"].

Definition eap_encodings := generic_header seven_reserved ++ [Rule CHUNK_DATA "data"].

Definition encrypted_encodings_v2 : list encoding_rule :=
  [Rule U_INT_8 "next_payload"; Rule U_INT_8 "flags"; Rule PAYLOAD_LENGTH "payload_length";
   Rule CHUNK_DATA "encrypted"].
Definition encrypted_encodings_v1 : list encoding_rule := [Rule ENCRYPTED_DATA "encrypted"].
Definition encodings_fragment : list encoding_rule :=
  [Rule U_INT_8 "next_payload"; Rule U_INT_8 "flags"; Rule PAYLOAD_LENGTH "payload_length";
   Rule U_INT_16 "fragment_number"; Rule U_INT_16 "total_fragments";
   Rule CHUNK_DATA "encrypted"].

Definition fragment_encodings : list encoding_rule :=
  [Rule U_INT_8 "next_payload"; Rule RESERVED_BYTE "reserved";
   Rule PAYLOAD_LENGTH "payload_length"; Rule U_INT_16 "fragment_id";
   Rule U_INT_8 "fragment_number"; Rule U_INT_8 "flags"; Rule CHUNK_DATA "data"].

Definition unknown_encodings := generic_header seven_reserved ++ [Rule CHUNK_DATA "data"].

Definition is_id_v1 (t : Z) : bool :=
  (t =? PLV1_ID) || (t =? PLV1_NAT_OA) || (t =? PLV1_NAT_OA_DRAFT_00_03).

(** [get_encoding_rules] of each kind. *)
Definition rules_of (c : payload_class) (t : Z) : list encoding_rule :=
  match c with
  | C_IKE_HEADER => ike_header_encodings
  | C_SA => if t =? PLV1_SECURITY_ASSOCIATION then sa_encodings_v1 else sa_encodings_v2
  | C_PROPOSAL =>
      if t =? PLV2_PROPOSAL_SUBSTRUCTURE then proposal_encodings_v2 else proposal_encodings_v1
  | C_TRANSFORM =>
      if t =? PLV2_TRANSFORM_SUBSTRUCTURE then transform_encodings_v2 else transform_encodings_v1
  | C_ATTRIBUTE => attribute_encodings
  | C_NONCE => nonce_encodings
  | C_ID => if is_id_v1 t then id_encodings_v1 else id_encodings_v2
  | C_AUTH => auth_encodings
  | C_CERT => cert_encodings
  | C_CERTREQ => certreq_encodings
  | C_TS_SUBSTRUCTURE => ts_substructure_encodings
  | C_TS => ts_encodings
  | C_KE => if t =? PLV2_KEY_EXCHANGE then ke_encodings_v2 else ke_encodings_v1
  | C_NOTIFY => if t =? PLV2_NOTIFY then notify_encodings_v2 else notify_encodings_v1
  | C_DELETE => if t =? PLV2_DELETE then delete_encodings_v2 else delete_encodings_v1
  | C_VENDOR_ID => vendor_id_encodings
  | C_HASH => hash_encodings
  | C_CP => if t =? PLV2_CONFIGURATION then cp_encodings_v2 else cp_encodings_v1
  | C_CONFIGURATION_ATTRIBUTE =>
      if t =? PLV2_CONFIGURATION_ATTRIBUTE then configuration_attribute_encodings_v2
      else configuration_attribute_encodings_v1
  | C_EAP => eap_encodings
  | C_ENCRYPTED => if t =? PLV2_ENCRYPTED then encrypted_encodings_v2 else encrypted_encodings_v1
  | C_FRAGMENT => fragment_encodings
  | C_ENCRYPTED_FRAGMENT => encodings_fragment
  | C_UNKNOWN => unknown_encodings
  end.

Definition get_encoding_rules (p : payload) : list encoding_rule := rules_of (class p) (type_ p).

(** What precedes the variable part, by the kind of payload. *)
Definition ike_header_get_header_length : Z := IKE_HEADER_LENGTH.
Definition sa_get_header_length (p : payload) : Z :=
  if type_ p =? PLV1_SECURITY_ASSOCIATION then 12 else 4.
Definition proposal_get_header_length (p : payload) : Z := 8 + num "spi_size" p.
Definition ke_get_header_length (p : payload) : Z :=
  if type_ p =? PLV2_KEY_EXCHANGE then 8 else 4.
Definition notify_get_header_length (p : payload) : Z :=
  if type_ p =? PLV2_NOTIFY then 8 + num "spi_size" p else 12 + num "spi_size" p.
Definition delete_get_header_length (p : payload) : Z :=
  if type_ p =? PLV2_DELETE then 8 else 12.
Definition encrypted_get_header_length (p : payload) : Z :=
  if type_ p =? PLV2_ENCRYPTED then 4 else 0.
Definition transform_get_header_length : Z := 8.
Definition attribute_get_header_length : Z := 0.
Definition nonce_get_header_length : Z := 4.
Definition id_get_header_length : Z := 8.
Definition auth_get_header_length : Z := 8.
Definition cert_get_header_length : Z := 5.
Definition certreq_get_header_length : Z := 5.
Definition ts_substructure_get_header_length : Z := 8.
Definition ts_get_header_length : Z := 8.
Definition vendor_id_get_header_length : Z := 4.
Definition hash_get_header_length : Z := 4.
Definition cp_get_header_length : Z := 8.
Definition configuration_attribute_get_header_length : Z := 4.
Definition eap_get_header_length : Z := 4.
Definition fragment_get_header_length : Z := 8.
Definition frag_get_header_length : Z := 8.
Definition unknown_get_header_length : Z := 4.

Definition get_header_length (p : payload) : Z :=
  match class p with
  | C_SA => sa_get_header_length p
  | C_PROPOSAL => proposal_get_header_length p
  | C_TRANSFORM => transform_get_header_length
  | C_ATTRIBUTE => attribute_get_header_length
  | C_NONCE => nonce_get_header_length
  | C_ID => id_get_header_length
  | C_AUTH => auth_get_header_length
  | C_CERT => cert_get_header_length
  | C_CERTREQ => certreq_get_header_length
  | C_TS_SUBSTRUCTURE => ts_substructure_get_header_length
  | C_TS => ts_get_header_length
  | C_KE => ke_get_header_length p
  | C_NOTIFY => notify_get_header_length p
  | C_DELETE => delete_get_header_length p
  | C_VENDOR_ID => vendor_id_get_header_length
  | C_HASH => hash_get_header_length
  | C_CP => cp_get_header_length
  | C_CONFIGURATION_ATTRIBUTE => configuration_attribute_get_header_length
  | C_EAP => eap_get_header_length
  | C_ENCRYPTED => encrypted_get_header_length p
  | C_FRAGMENT => fragment_get_header_length
  | C_ENCRYPTED_FRAGMENT => frag_get_header_length
  | C_UNKNOWN => unknown_get_header_length
  | C_IKE_HEADER => ike_header_get_header_length
  end.

(** * Constructors *)

(** The length member of a structure starts as [get_header_length]. *)
Definition with_length (m : string) (p : payload) : payload :=
  set_num m (u16 (get_header_length p)) p.

Definition null_spi : chunk := replicate 8 0.

Definition EXCHANGE_TYPE_UNDEFINED : Z := 255.

(** A 64-bit SPI is its eight bytes in memory. *)
Definition ike_header_create : payload :=
  set_bytes "initiator_spi" null_spi (set_bytes "responder_spi" null_spi
    (set_num "length" IKE_HEADER_LENGTH
       (set_num "exchange_type" EXCHANGE_TYPE_UNDEFINED (zeroed C_IKE_HEADER PL_HEADER)))).
Definition sa_payload_create (t : Z) : payload :=
  with_length "payload_length"
    (set_num "doi" IKEV1_DOI_IPSEC (set_num "situation" SIT_IDENTITY_ONLY (zeroed C_SA t))).
Definition proposal_substructure_create (t : Z) : payload :=
  with_length "proposal_length" (zeroed C_PROPOSAL t).
Definition transform_substructure_create (t : Z) : payload :=
  with_length "transform_length" (zeroed C_TRANSFORM t).
Definition transform_attribute_create (t : Z) : payload := zeroed C_ATTRIBUTE t.
Definition nonce_payload_create (t : Z) : payload :=
  with_length "payload_length" (zeroed C_NONCE t).
Definition id_payload_create (t : Z) : payload := with_length "payload_length" (zeroed C_ID t).
Definition auth_payload_create : payload :=
  with_length "payload_length" (zeroed C_AUTH PLV2_AUTH).
Definition cert_payload_create (t : Z) : payload :=
  with_length "payload_length" (zeroed C_CERT t).
Definition certreq_payload_create (t : Z) : payload :=
  with_length "payload_length" (zeroed C_CERTREQ t).
Definition traffic_selector_substructure_create : payload :=
  set_num "ts_type" TS_IPV4_ADDR_RANGE
    (with_length "payload_length" (zeroed C_TS_SUBSTRUCTURE PLV2_TRAFFIC_SELECTOR_SUBSTRUCTURE)).
Definition ts_payload_create (is_initiator : bool) : payload :=
  with_length "payload_length"
    (zeroed C_TS (if is_initiator then PLV2_TS_INITIATOR else PLV2_TS_RESPONDER)).
Definition ke_payload_create (t : Z) : payload := with_length "payload_length" (zeroed C_KE t).
Definition notify_payload_create (t : Z) : payload :=
  with_length "payload_length" (set_num "doi" IKEV1_DOI_IPSEC (zeroed C_NOTIFY t)).

Definition PROTO_NONE : Z := 0.
Definition PROTO_IKE : Z := 1.
Definition PROTO_AH : Z := 2.
Definition PROTO_ESP : Z := 3.
Definition PROTO_IPCOMP : Z := 4.

Definition delete_payload_create (t protocol_id : Z) : payload :=
  let this := with_length "payload_length"
                (set_num "protocol_id" (u8 protocol_id)
                   (set_num "doi" IKEV1_DOI_IPSEC (zeroed C_DELETE t))) in
  if protocol_id =? PROTO_IKE then
    if t =? PLV1_DELETE then set_num "spi_size" 16 this else this
  else set_num "spi_size" 4 this.

Definition vendor_id_payload_create_data (t : Z) (data : chunk) : payload :=
  let this := set_bytes "data" data (zeroed C_VENDOR_ID t) in
  set_num "payload_length" (u16 (get_header_length this + len data)) this.
Definition vendor_id_payload_create (t : Z) : payload := vendor_id_payload_create_data t [].
Definition hash_payload_create (t : Z) : payload :=
  with_length "payload_length" (zeroed C_HASH t).

Definition CFG_REQUEST : Z := 1.

Definition cp_payload_create_type (t cfg_type : Z) : payload :=
  with_length "payload_length" (set_num "cfg_type" (u8 cfg_type) (zeroed C_CP t)).
Definition cp_payload_create (t : Z) : payload := cp_payload_create_type t CFG_REQUEST.
Definition configuration_attribute_create (t : Z) : payload := zeroed C_CONFIGURATION_ATTRIBUTE t.
Definition eap_payload_create : payload := with_length "payload_length" (zeroed C_EAP PLV2_EAP).
Definition encrypted_payload_create (t : Z) : payload :=
  with_length "payload_length" (zeroed C_ENCRYPTED t).
Definition fragment_payload_create : payload :=
  with_length "payload_length" (zeroed C_FRAGMENT PLV1_FRAGMENT).
Definition encrypted_fragment_payload_create : payload :=
  with_length "payload_length" (zeroed C_ENCRYPTED_FRAGMENT PLV2_FRAGMENT).
Definition unknown_payload_create (t : Z) : payload :=
  with_length "payload_length" (zeroed C_UNKNOWN t).

(** * payload.c *)

Definition payload_create (t : Z) : payload :=
  if t =? PL_HEADER then ike_header_create
  else if (t =? PLV2_SECURITY_ASSOCIATION) || (t =? PLV1_SECURITY_ASSOCIATION)
  then sa_payload_create t
  else if (t =? PLV2_PROPOSAL_SUBSTRUCTURE) || (t =? PLV1_PROPOSAL_SUBSTRUCTURE)
  then proposal_substructure_create t
  else if (t =? PLV2_TRANSFORM_SUBSTRUCTURE) || (t =? PLV1_TRANSFORM_SUBSTRUCTURE)
  then transform_substructure_create t
  else if (t =? PLV2_TRANSFORM_ATTRIBUTE) || (t =? PLV1_TRANSFORM_ATTRIBUTE)
  then transform_attribute_create t
  else if (t =? PLV2_NONCE) || (t =? PLV1_NONCE) then nonce_payload_create t
  else if (t =? PLV2_ID_INITIATOR) || (t =? PLV2_ID_RESPONDER) || (t =? PLV1_ID)
          || (t =? PLV1_NAT_OA) || (t =? PLV1_NAT_OA_DRAFT_00_03)
  then id_payload_create t
  else if t =? PLV2_AUTH then auth_payload_create
  else if (t =? PLV2_CERTIFICATE) || (t =? PLV1_CERTIFICATE) then cert_payload_create t
  else if (t =? PLV2_CERTREQ) || (t =? PLV1_CERTREQ) then certreq_payload_create t
  else if t =? PLV2_TRAFFIC_SELECTOR_SUBSTRUCTURE then traffic_selector_substructure_create
  else if t =? PLV2_TS_INITIATOR then ts_payload_create true
  else if t =? PLV2_TS_RESPONDER then ts_payload_create false
  else if (t =? PLV2_KEY_EXCHANGE) || (t =? PLV1_KEY_EXCHANGE) then ke_payload_create t
  else if (t =? PLV2_NOTIFY) || (t =? PLV1_NOTIFY) then notify_payload_create t
  else if (t =? PLV2_DELETE) || (t =? PLV1_DELETE) then delete_payload_create t 0
  else if (t =? PLV2_VENDOR_ID) || (t =? PLV1_VENDOR_ID) then vendor_id_payload_create t
  else if (t =? PLV1_HASH) || (t =? PLV1_SIGNATURE) || (t =? PLV1_NAT_D)
          || (t =? PLV1_NAT_D_DRAFT_00_03)
  then hash_payload_create t
  else if (t =? PLV2_CONFIGURATION) || (t =? PLV1_CONFIGURATION) then cp_payload_create t
  else if (t =? PLV2_CONFIGURATION_ATTRIBUTE) || (t =? PLV1_CONFIGURATION_ATTRIBUTE)
  then configuration_attribute_create t
  else if t =? PLV2_EAP then eap_payload_create
  else if (t =? PLV2_ENCRYPTED) || (t =? PLV1_ENCRYPTED) then encrypted_payload_create t
  else if t =? PLV1_FRAGMENT then fragment_payload_create
  else if t =? PLV2_FRAGMENT then encrypted_fragment_payload_create
  else unknown_payload_create t.

Definition IKEV1_MAJOR_VERSION : Z := 1.
Definition IKEV2_MAJOR_VERSION : Z := 2.

Definition known_v1 (t : Z) : bool :=
  ((PLV1_SECURITY_ASSOCIATION <=? t) && (t <=? PLV1_CONFIGURATION))
  || ((PLV1_NAT_D <=? t) && (t <=? PLV1_NAT_OA))
  || ((PLV1_NAT_D_DRAFT_00_03 <=? t) && (t <=? PLV1_FRAGMENT)).
Definition known_v2 (t : Z) : bool :=
  ((PLV2_SECURITY_ASSOCIATION <=? t) && (t <=? PLV2_EAP)) || (t =? PLV2_FRAGMENT).

Definition payload_is_known (t maj_ver : Z) : bool :=
  if PL_HEADER <=? t then true
  else if maj_ver =? 0 then known_v1 t || known_v2 t
  else if maj_ver =? IKEV1_MAJOR_VERSION then known_v1 t
  else if maj_ver =? IKEV2_MAJOR_VERSION then known_v2 t
  else false.

(** The instance the parser fills. *)
Definition create_instance (t maj_ver : Z) : payload :=
  if payload_is_known t maj_ver then payload_create t else unknown_payload_create t.

(** * Members all kinds have *)

Definition get_type (p : payload) : Z :=
  match class p with C_UNKNOWN => PL_UNKNOWN | _ => type_ p end.

Definition get_next_type (p : payload) : Z :=
  match class p with
  | C_ATTRIBUTE | C_TS_SUBSTRUCTURE | C_CONFIGURATION_ATTRIBUTE => PL_NONE
  | _ => num "next_payload" p
  end.

Definition set_next_type (t : Z) (p : payload) : payload :=
  match class p with
  | C_PROPOSAL | C_TRANSFORM | C_ATTRIBUTE | C_TS_SUBSTRUCTURE | C_CONFIGURATION_ATTRIBUTE => p
  | C_ENCRYPTED_FRAGMENT =>
      if (num "fragment_number" p =? 1) && (num "next_payload" p =? PL_NONE)
      then set_num "next_payload" (u8 t) p else p
  | _ => set_num "next_payload" (u8 t) p
  end.

(** [get_length]; that of encrypted payloads depends on the transform and is not here. *)
Definition get_length (p : payload) : Z :=
  match class p with
  | C_IKE_HEADER => num "length" p
  | C_PROPOSAL => num "proposal_length" p
  | C_TRANSFORM => num "transform_length" p
  | C_ATTRIBUTE =>
      if negb (num "attribute_format" p =? 0) then 4 else num "attribute_length_or_value" p + 4
  | C_CONFIGURATION_ATTRIBUTE => get_header_length p + len (bytes "value" p)
  | _ => num "payload_length" p
  end.

(** The loops of [compute_length]: the length member is added to in its 16 bits. *)
Definition sum_lengths (m : string) (p : payload) : payload :=
  set_num m (fold_left (fun l e => u16 (l + get_length e)) (elements p)
               (u16 (get_header_length p))) p.
Definition count_elements (m : string) (p : payload) : payload :=
  set_num m (fold_left (fun n _ => u8 (n + 1)) (elements p) 0) p.

Definition insert_last (e : payload) (p : payload) : payload :=
  set_elements (elements p ++ [e]) p.

(** What is done to the element that was last so far. *)
Definition update_last (f : payload -> payload) (p : payload) : payload :=
  set_elements (match reverse (elements p) with
                | [] => []
                | last :: before => reverse (f last :: before)
                end) p.
