(* ===== verification/Proposal.v ===== *)
(** Proposals of algorithms: libstrongswan/crypto/proposal/proposal.c. A proposal has, for
    each type of transforms, the algorithms in the order of preference; two peers select
    from two proposals one algorithm of each type. The types that occur are kept in a
    sorted array, in which the selection goes through them. *)

From stdpp Require Import sorting strings.
From S2P Require Import Prelude Payloads.
#[local] Open Scope Z_scope.

(** * Algorithms (transform.h, crypter.h, signer.h, prf.h, diffie_hellman.h) *)

Definition ENCRYPTION_ALGORITHM : Z := 1.
Definition PSEUDO_RANDOM_FUNCTION : Z := 2.
Definition INTEGRITY_ALGORITHM : Z := 3.
Definition DIFFIE_HELLMAN_GROUP : Z := 4.
Definition EXTENDED_SEQUENCE_NUMBERS : Z := 5.

Definition NO_EXT_SEQ_NUMBERS : Z := 0.
Definition EXT_SEQ_NUMBERS : Z := 1.

Definition ENCR_DES : Z := 2.
Definition ENCR_3DES : Z := 3.
Definition ENCR_AES_CBC : Z := 12.
Definition ENCR_AES_CTR : Z := 13.
Definition ENCR_AES_CCM_ICV8 : Z := 14.
Definition ENCR_AES_CCM_ICV12 : Z := 15.
Definition ENCR_AES_CCM_ICV16 : Z := 16.
Definition ENCR_AES_GCM_ICV8 : Z := 18.
Definition ENCR_AES_GCM_ICV12 : Z := 19.
Definition ENCR_AES_GCM_ICV16 : Z := 20.
Definition ENCR_NULL_AUTH_AES_GMAC : Z := 21.
Definition ENCR_CAMELLIA_CBC : Z := 23.
Definition ENCR_CAMELLIA_CTR : Z := 24.
Definition ENCR_CAMELLIA_CCM_ICV8 : Z := 25.
Definition ENCR_CAMELLIA_CCM_ICV12 : Z := 26.
Definition ENCR_CAMELLIA_CCM_ICV16 : Z := 27.
Definition ENCR_CHACHA20_POLY1305 : Z := 28.

Definition AUTH_HMAC_MD5_96 : Z := 1.
Definition AUTH_HMAC_SHA1_96 : Z := 2.
Definition AUTH_AES_XCBC_96 : Z := 5.
Definition AUTH_HMAC_MD5_128 : Z := 6.
Definition AUTH_HMAC_SHA1_160 : Z := 7.
Definition AUTH_AES_CMAC_96 : Z := 8.
Definition AUTH_AES_128_GMAC : Z := 9.
Definition AUTH_AES_192_GMAC : Z := 10.
Definition AUTH_AES_256_GMAC : Z := 11.
Definition AUTH_HMAC_SHA2_256_128 : Z := 12.
Definition AUTH_HMAC_SHA2_384_192 : Z := 13.
Definition AUTH_HMAC_SHA2_512_256 : Z := 14.
Definition AUTH_CAMELLIA_XCBC_96 : Z := 1030.

Definition PRF_HMAC_MD5 : Z := 1.
Definition PRF_HMAC_SHA1 : Z := 2.
Definition PRF_AES128_XCBC : Z := 4.
Definition PRF_HMAC_SHA2_256 : Z := 5.
Definition PRF_HMAC_SHA2_384 : Z := 6.
Definition PRF_HMAC_SHA2_512 : Z := 7.
Definition PRF_AES128_CMAC : Z := 8.
Definition PRF_CAMELLIA128_XCBC : Z := 1028.

Definition MODP_NONE : Z := 0.
Definition MODP_2048_BIT : Z := 14.
Definition MODP_3072_BIT : Z := 15.
Definition MODP_4096_BIT : Z := 16.
Definition MODP_6144_BIT : Z := 17.
Definition MODP_8192_BIT : Z := 18.
Definition ECP_256_BIT : Z := 19.
Definition ECP_384_BIT : Z := 20.
Definition ECP_521_BIT : Z := 21.
Definition ECP_256_BP : Z := 28.
Definition ECP_384_BP : Z := 29.
Definition ECP_512_BP : Z := 30.
Definition CURVE_25519 : Z := 31.
Definition CURVE_448 : Z := 32.
Definition NTRU_128_BIT : Z := 1031.
Definition NTRU_192_BIT : Z := 1032.
Definition NTRU_256_BIT : Z := 1033.
Definition NH_128_BIT : Z := 1040.

(** One of the cases of a [switch]. *)
Definition one_of (v : Z) (vs : list Z) : bool := existsb (Z.eqb v) vs.

Definition encryption_algorithm_is_aead (alg : Z) : bool :=
  one_of alg [ENCR_AES_CCM_ICV8; ENCR_AES_CCM_ICV12; ENCR_AES_CCM_ICV16; ENCR_AES_GCM_ICV8;
              ENCR_AES_GCM_ICV12; ENCR_AES_GCM_ICV16; ENCR_NULL_AUTH_AES_GMAC;
              ENCR_CAMELLIA_CCM_ICV8; ENCR_CAMELLIA_CCM_ICV12; ENCR_CAMELLIA_CCM_ICV16;
              ENCR_CHACHA20_POLY1305].

(** * Proposals *)

Record entry_t := Entry { entry_type : Z; entry_alg : Z; entry_key_size : Z }.

#[global] Instance entry_eq_dec : EqDecision entry_t.
Proof. solve_decision. Defined.

Record proposal_t := Proposal {
  protocol : Z;
  transforms : list entry_t;
  types : list Z;
  spi : Z;                    (** 64 bits, in the byte order of the host *)
  number : Z;
  transform_number : Z;
}.

#[global] Instance proposal_eq_dec : EqDecision proposal_t.
Proof. solve_decision. Defined.

Definition with_transforms (ts : list entry_t) (this : proposal_t) : proposal_t :=
  Proposal (protocol this) ts (types this) (spi this) (number this) (transform_number this).
Definition with_types (ts : list Z) (this : proposal_t) : proposal_t :=
  Proposal (protocol this) (transforms this) ts (spi this) (number this) (transform_number this).
Definition set_spi (s : Z) (this : proposal_t) : proposal_t :=
  Proposal (protocol this) (transforms this) (types this) s (number this) (transform_number this).

Definition proposal_create_v1 (protocol number transform : Z) : proposal_t :=
  Proposal protocol [] [] 0 number transform.
Definition proposal_create (protocol number : Z) : proposal_t :=
  proposal_create_v1 protocol number 0.

(** * The set of types *)

(** Integrity algorithms come before pseudo random functions. *)
Definition type_for_sort (t : Z) : Z :=
  if t =? PSEUDO_RANDOM_FUNCTION then INTEGRITY_ALGORITHM
  else if t =? INTEGRITY_ALGORITHM then PSEUDO_RANDOM_FUNCTION
  else t.

Definition type_sort (a b : Z) : Z := type_for_sort a - type_for_sort b.
Definition type_find (a b : Z) : Z := type_sort a b.

(** A type that is not after another; [qsort] puts the array in this order. *)
Definition type_le (a b : Z) : Prop := type_sort a b <= 0.

#[global] Instance type_le_dec a b : Decision (type_le a b).
Proof. unfold type_le. apply _. Defined.

(** [bsearch] finds an element of a sorted array, if there is one. *)
Definition contains_type (ts : list Z) (type : Z) : bool :=
  existsb (fun t => type_find type t =? 0) ts.

Definition add_type (ts : list Z) (type : Z) : list Z :=
  if contains_type ts type then ts else merge_sort type_le (ts ++ [type]).

(** The loop takes one element of each array per turn, as long as they have one. *)
Fixpoint merge_loop (ts os acc : list Z) : list Z :=
  match ts, os with
  | [], [] => acc
  | t :: ts, [] => merge_loop ts [] (add_type acc t)
  | [], o :: os => (fix go os acc := match os with
                                    | [] => acc
                                    | o :: os => go os (add_type acc o)
                                    end) os (add_type acc o)
  | t :: ts, o :: os => merge_loop ts os (add_type (add_type acc t) o)
  end.
Definition merge_types (this other : proposal_t) : list Z :=
  merge_loop (types this) (types other) [].

Definition remove_type (type : Z) (this : proposal_t) : proposal_t :=
  match list_find (fun t => type_find type t = 0) (types this) with
  | Some (i, _) => with_types (delete i (types this)) this
  | None => this
  end.

(** * Algorithms of a proposal *)

Definition add_algorithm (type alg key_size : Z) (this : proposal_t) : proposal_t :=
  with_types (add_type (types this) type)
    (with_transforms (transforms this ++ [Entry type alg key_size]) this).

(** What the enumerator for a type returns: algorithms with their key sizes. *)
Definition alg_filter (type : Z) (e : entry_t) : bool := entry_type e =? type.
Definition create_enumerator (this : proposal_t) (type : Z) : list (Z * Z) :=
  (fun e => (entry_alg e, entry_key_size e)) <$> List.filter (alg_filter type) (transforms this).

Definition get_algorithm (this : proposal_t) (type : Z) : option (Z * Z) :=
  head (create_enumerator this type).

Definition has_dh_group (this : proposal_t) (group : Z) : bool :=
  let groups := fst <$> create_enumerator this DIFFIE_HELLMAN_GROUP in
  existsb (fun current => current =? group) groups
  || (match groups with [] => true | _ => false end && (group =? MODP_NONE)).

Definition is_group (group : Z) (e : entry_t) : bool :=
  (entry_type e =? DIFFIE_HELLMAN_GROUP) && (entry_alg e =? group).

Definition promote_dh_group (group : Z) (this : proposal_t) : bool * proposal_t :=
  if existsb (is_group group) (transforms this) then
    (true, with_transforms
             (Entry DIFFIE_HELLMAN_GROUP group 0
              :: List.filter (fun e => negb (is_group group e)) (transforms this)) this)
  else (false, this).

(** * Selection *)

Definition PROPOSAL_PREFER_SUPPLIED : Z := 1.
Definition PROPOSAL_SKIP_PRIVATE : Z := 2.
Definition PROPOSAL_SKIP_DH : Z := 4.

Definition has_flag (flags flag : Z) : bool := negb (Z.land flags flag =? 0).

(** The inner loop: whether an algorithm is one of the other's. *)
Fixpoint match_alg (skip_private : bool) (a : Z * Z) (others : list (Z * Z)) : bool :=
  match others with
  | [] => false
  | o :: others =>
      if (fst a =? fst o) && (snd a =? snd o) then
        if skip_private && (fst a >=? 1024) then match_alg skip_private a others else true
      else match_alg skip_private a others
  end.

(** The order of [this] is preferred. *)
Fixpoint compare_algs (skip_private : bool) (algs others : list (Z * Z)) : option (Z * Z) :=
  match algs with
  | [] => None
  | a :: algs =>
      if match_alg skip_private a others then Some a else compare_algs skip_private algs others
  end.

(** The algorithm and its key size, both zero if none is needed. *)
Definition select_algo (this other : proposal_t) (type flags : Z) : option (Z * Z) :=
  let optional := (type =? DIFFIE_HELLMAN_GROUP)
                  && ((protocol this =? PROTO_ESP) || (protocol this =? PROTO_AH)) in
  let e1 := create_enumerator this type in
  let e2 := create_enumerator other type in
  let none_proposed := existsb (fun a : Z * Z => fst a =? 0) in
  let found := match e1, e2 with
               | [], [] => true
               | [], _ => optional && none_proposed e2
               | _, [] => optional && none_proposed e1
               | _, _ => false
               end in
  if found then Some (0, 0)
  else compare_algs (has_flag flags PROPOSAL_SKIP_PRIVATE) e1 e2.

Fixpoint select_loop (this other : proposal_t) (flags : Z) (skip_integrity : bool)
    (ts : list Z) (selected : option proposal_t) : option (option proposal_t) :=
  match ts with
  | [] => Some selected
  | type :: ts =>
      if (type =? INTEGRITY_ALGORITHM) && skip_integrity then
        select_loop this other flags skip_integrity ts selected
      else if (type =? DIFFIE_HELLMAN_GROUP) && has_flag flags PROPOSAL_SKIP_DH then
        select_loop this other flags skip_integrity ts selected
      else match select_algo this other type flags with
           | Some (alg, ks) =>
               if (alg =? 0) && negb (type =? EXTENDED_SEQUENCE_NUMBERS) then
                 select_loop this other flags skip_integrity ts selected
               else
                 let selected := add_algorithm type alg ks <$> selected in
                 let skip_integrity :=
                   skip_integrity
                   || ((type =? ENCRYPTION_ALGORITHM) && encryption_algorithm_is_aead alg) in
                 select_loop this other flags skip_integrity ts selected
           | None => None
           end
  end.

(** [None] if an algorithm is missing; without [selected] the test alone is made. *)
Definition select_algos (this other : proposal_t) (selected : option proposal_t) (flags : Z)
    : option (option proposal_t) :=
  select_loop this other flags false (merge_types this other) selected.

Definition select_proposal (this other : proposal_t) (flags : Z) : option proposal_t :=
  if negb (protocol this =? protocol other) then None
  else
    let selected :=
      if has_flag flags PROPOSAL_PREFER_SUPPLIED then
        set_spi (spi this) (proposal_create_v1 (protocol this) (number this) (transform_number this))
      else
        set_spi (spi other)
          (proposal_create_v1 (protocol this) (number other) (transform_number other)) in
    match select_algos this other (Some selected) flags with
    | Some selected => selected
    | None => None
    end.

Definition matches (this other : proposal_t) (flags : Z) : bool :=
  if negb (protocol this =? protocol other) then false
  else match select_algos this other None flags with Some _ => true | None => false end.

(** The first proposal of the preferred list, and its first partner in the other. *)
Fixpoint first_match (proposal : proposal_t) (matching : list proposal_t) (flags : Z)
    : option proposal_t :=
  match matching with
  | [] => None
  | m :: matching =>
      match select_proposal proposal m flags with
      | Some selected => Some selected
      | None => first_match proposal matching flags
      end
  end.

Fixpoint select_lists (preferred matching : list proposal_t) (flags : Z) : option proposal_t :=
  match preferred with
  | [] => None
  | proposal :: preferred =>
      match first_match proposal matching flags with
      | Some selected => Some selected
      | None => select_lists preferred matching flags
      end
  end.

Definition proposal_select (configured supplied : list proposal_t) (flags : Z)
    : option proposal_t :=
  if has_flag flags PROPOSAL_PREFER_SUPPLIED then select_lists supplied configured flags
  else select_lists configured supplied flags.

(** * Comparison and copies *)

Fixpoint algs_equal (e1 e2 : list (Z * Z)) : bool :=
  match e1, e2 with
  | [], [] => true
  | a1 :: e1, a2 :: e2 =>
      if negb (fst a1 =? fst a2) || negb (snd a1 =? snd a2) then false else algs_equal e1 e2
  | _, _ => false
  end.
Definition algo_list_equals (this other : proposal_t) (type : Z) : bool :=
  algs_equal (create_enumerator this type) (create_enumerator other type).

(** For an object and itself the code does not look at the types. *)
Definition equals (this other : proposal_t) : bool :=
  forallb (algo_list_equals this other) (merge_types this other).

Definition clone_keeps (flags : Z) (e : entry_t) : bool :=
  negb ((entry_alg e >=? 1024) && has_flag flags PROPOSAL_SKIP_PRIVATE)
  && negb ((entry_type e =? DIFFIE_HELLMAN_GROUP) && has_flag flags PROPOSAL_SKIP_DH).

Fixpoint clone_loop (flags : Z) (es : list entry_t) (clone : proposal_t) : proposal_t :=
  match es with
  | [] => clone
  | e :: es =>
      if clone_keeps flags e then
        clone_loop flags es
          (with_types (add_type (types clone) (entry_type e))
             (with_transforms (transforms clone ++ [e]) clone))
      else clone_loop flags es clone
  end.

Definition clone_ (this : proposal_t) (flags : Z) : proposal_t :=
  let clone := clone_loop flags (transforms this) (proposal_create (protocol this) 0) in
  Proposal (protocol clone) (transforms clone) (types clone) (spi this) (number this)
    (transform_number this).

(** * Proposals that are configured *)

Definition integ_prf_map : list (Z * Z) :=
  [(AUTH_HMAC_SHA1_96, PRF_HMAC_SHA1); (AUTH_HMAC_SHA1_160, PRF_HMAC_SHA1);
   (AUTH_HMAC_SHA2_256_128, PRF_HMAC_SHA2_256); (AUTH_HMAC_SHA2_384_192, PRF_HMAC_SHA2_384);
   (AUTH_HMAC_SHA2_512_256, PRF_HMAC_SHA2_512); (AUTH_HMAC_MD5_96, PRF_HMAC_MD5);
   (AUTH_HMAC_MD5_128, PRF_HMAC_MD5); (AUTH_AES_XCBC_96, PRF_AES128_XCBC);
   (AUTH_CAMELLIA_XCBC_96, PRF_CAMELLIA128_XCBC); (AUTH_AES_CMAC_96, PRF_AES128_CMAC)].

Definition remove_transform (type : Z) (this : proposal_t) : proposal_t :=
  remove_type type
    (with_transforms (List.filter (fun e => negb (entry_type e =? type)) (transforms this)) this).

(** The functions of the integrity algorithms; what is added while the enumerator runs is
    of another type. *)
Definition add_prfs (this : proposal_t) : proposal_t :=
  fold_left (fun this (a : Z * Z) =>
               match List.find (fun m : Z * Z => fst a =? fst m) integ_prf_map with
               | Some (_, prf) => add_algorithm PSEUDO_RANDOM_FUNCTION prf 0 this
               | None => this
               end) (create_enumerator this INTEGRITY_ALGORITHM) this.

Definition lacks (this : proposal_t) (type : Z) : bool :=
  match get_algorithm this type with Some _ => false | None => true end.

Definition check_ike (this : proposal_t) : option proposal_t :=
  let this := if lacks this PSEUDO_RANDOM_FUNCTION then add_prfs this else this in
  if lacks this PSEUDO_RANDOM_FUNCTION then None
  else
    let this := with_transforms
                  (List.filter (fun e => negb ((entry_type e =? DIFFIE_HELLMAN_GROUP)
                                               && (entry_alg e =? 0))) (transforms this)) this in
    if lacks this DIFFIE_HELLMAN_GROUP then None else Some this.

Definition check_encryption (this : proposal_t) : option proposal_t :=
  let algs := fst <$> create_enumerator this ENCRYPTION_ALGORITHM in
  let any_enc := match algs with [] => false | _ => true end in
  let any_aead := existsb encryption_algorithm_is_aead algs in
  let all_aead := forallb encryption_algorithm_is_aead algs in
  if negb any_enc then None
  else if any_aead && negb all_aead then None
  else if all_aead then Some (remove_transform INTEGRITY_ALGORITHM this)
  else if (protocol this =? PROTO_IKE) && lacks this INTEGRITY_ALGORITHM then None
  else Some this.

(** AES-GMAC becomes the integrity algorithm, other encryption algorithms go. *)
Definition map_gmac (e : entry_t) : list entry_t :=
  if entry_type e =? ENCRYPTION_ALGORITHM then
    if entry_alg e =? ENCR_NULL_AUTH_AES_GMAC then
      if entry_key_size e =? 128 then [Entry INTEGRITY_ALGORITHM AUTH_AES_128_GMAC 0]
      else if entry_key_size e =? 192 then [Entry INTEGRITY_ALGORITHM AUTH_AES_192_GMAC 0]
      else if entry_key_size e =? 256 then [Entry INTEGRITY_ALGORITHM AUTH_AES_256_GMAC 0]
      else []
    else []
  else [e].

Definition check_integrity (this : proposal_t) : option proposal_t :=
  let this := remove_type ENCRYPTION_ALGORITHM
                (with_transforms (flat_map map_gmac (transforms this)) this) in
  if lacks this INTEGRITY_ALGORITHM then None else Some this.

Definition check_proposal (this : proposal_t) : option proposal_t :=
  this ← (if protocol this =? PROTO_IKE then check_ike this
          else Some (remove_transform PSEUDO_RANDOM_FUNCTION this));
  this ← (if (protocol this =? PROTO_IKE) || (protocol this =? PROTO_ESP)
          then check_encryption this else check_integrity this);
  Some (if ((protocol this =? PROTO_AH) || (protocol this =? PROTO_ESP))
           && lacks this EXTENDED_SEQUENCE_NUMBERS
        then add_algorithm EXTENDED_SEQUENCE_NUMBERS NO_EXT_SEQ_NUMBERS 0 this else this).

(** The keywords are known to lib->proposal; a string is the tokens between its dashes. *)
Record proposal_token_t := Token { token_type : Z; token_algorithm : Z; token_keysize : Z }.

Section Keywords.

Variable get_token : string -> option proposal_token_t.

Definition add_string_algo (alg : string) (this : proposal_t) : option proposal_t :=
  token ← get_token alg;
  Some (add_algorithm (token_type token) (token_algorithm token) (token_keysize token) this).

Fixpoint add_tokens (algs : list string) (failed : bool) (this : proposal_t)
    : option proposal_t :=
  match algs with
  | [] => if failed then None else Some this
  | alg :: algs => this ← add_string_algo alg this; add_tokens algs false this
  end.

Definition proposal_create_from_string (protocol : Z) (algs : list string) : option proposal_t :=
  this ← add_tokens algs true (proposal_create protocol 0);
  check_proposal this.

End Keywords.

(** * Default proposals *)

(** The algorithms that plugins implement, as lib->crypto enumerates them. *)
Record crypto_factory_t := CryptoFactory {
  aeads : list Z; crypters : list Z; signers : list Z; prfs : list Z; dh_groups : list Z }.

(** The loop of a round: some of the algorithms are added, with some key sizes. *)
Definition add_round (type : Z) (sizes : Z -> list Z) (algs : list Z) (this : proposal_t)
    : proposal_t :=
  fold_left (fun this alg =>
               fold_left (fun this size => add_algorithm type alg size this) (sizes alg) this)
    algs this.

Definition sizes_of (known : list Z) (sizes : list Z) (alg : Z) : list Z :=
  if one_of alg known then sizes else [].

Definition strong_aeads (alg : Z) : list Z :=
  if one_of alg [ENCR_AES_GCM_ICV16; ENCR_AES_CCM_ICV16; ENCR_CAMELLIA_CCM_ICV16]
  then [128; 192; 256]
  else if alg =? ENCR_CHACHA20_POLY1305 then [0] else [].
Definition weak_aeads : Z -> list Z :=
  sizes_of [ENCR_AES_GCM_ICV12; ENCR_AES_GCM_ICV8; ENCR_AES_CCM_ICV12; ENCR_AES_CCM_ICV8;
            ENCR_CAMELLIA_CCM_ICV12; ENCR_CAMELLIA_CCM_ICV8] [128; 192; 256].
Definition strong_crypters : Z -> list Z :=
  sizes_of [ENCR_AES_CBC; ENCR_AES_CTR; ENCR_CAMELLIA_CBC; ENCR_CAMELLIA_CTR] [128; 192; 256].
Definition weak_crypters : Z -> list Z := sizes_of [ENCR_3DES] [0].
Definition strong_signers : Z -> list Z :=
  sizes_of [AUTH_HMAC_SHA2_256_128; AUTH_HMAC_SHA2_384_192; AUTH_HMAC_SHA2_512_256] [0].
Definition weak_signers : Z -> list Z :=
  sizes_of [AUTH_AES_XCBC_96; AUTH_AES_CMAC_96; AUTH_HMAC_SHA1_96] [0].
Definition strong_prfs : Z -> list Z :=
  sizes_of [PRF_HMAC_SHA2_256; PRF_HMAC_SHA2_384; PRF_HMAC_SHA2_512; PRF_AES128_XCBC;
            PRF_AES128_CMAC] [0].
Definition weak_prfs : Z -> list Z := sizes_of [PRF_HMAC_SHA1] [0].
Definition curves : Z -> list Z :=
  sizes_of [ECP_256_BIT; ECP_384_BIT; ECP_521_BIT; ECP_256_BP; ECP_384_BP; ECP_512_BP;
            CURVE_25519; CURVE_448; NTRU_128_BIT; NTRU_192_BIT; NTRU_256_BIT; NH_128_BIT] [0].
Definition strong_groups : Z -> list Z :=
  sizes_of [MODP_3072_BIT; MODP_4096_BIT; MODP_6144_BIT; MODP_8192_BIT] [0].
Definition weak_groups : Z -> list Z := sizes_of [MODP_2048_BIT] [0].

Definition proposal_add_supported_ike (lib_crypto : crypto_factory_t) (aead : bool)
    (this : proposal_t) : option proposal_t :=
  this ←
    (if aead then
       let this := add_round ENCRYPTION_ALGORITHM strong_aeads (aeads lib_crypto) this in
       let this := add_round ENCRYPTION_ALGORITHM weak_aeads (aeads lib_crypto) this in
       match transforms this with [] => None | _ => Some this end
     else
       let this := add_round ENCRYPTION_ALGORITHM strong_crypters (crypters lib_crypto) this in
       let this := add_round ENCRYPTION_ALGORITHM weak_crypters (crypters lib_crypto) this in
       match transforms this with
       | [] => None
       | _ =>
           let this := add_round INTEGRITY_ALGORITHM strong_signers (signers lib_crypto) this in
           Some (add_round INTEGRITY_ALGORITHM weak_signers (signers lib_crypto) this)
       end);
  let this := add_round PSEUDO_RANDOM_FUNCTION strong_prfs (prfs lib_crypto) this in
  let this := add_round PSEUDO_RANDOM_FUNCTION weak_prfs (prfs lib_crypto) this in
  let this := add_round DIFFIE_HELLMAN_GROUP curves (dh_groups lib_crypto) this in
  let this := add_round DIFFIE_HELLMAN_GROUP strong_groups (dh_groups lib_crypto) this in
  Some (add_round DIFFIE_HELLMAN_GROUP weak_groups (dh_groups lib_crypto) this).

Definition add_default_signers (this : proposal_t) : proposal_t :=
  let this := add_algorithm INTEGRITY_ALGORITHM AUTH_HMAC_SHA2_256_128 0 this in
  let this := add_algorithm INTEGRITY_ALGORITHM AUTH_HMAC_SHA2_384_192 0 this in
  let this := add_algorithm INTEGRITY_ALGORITHM AUTH_HMAC_SHA2_512_256 0 this in
  let this := add_algorithm INTEGRITY_ALGORITHM AUTH_HMAC_SHA1_96 0 this in
  let this := add_algorithm INTEGRITY_ALGORITHM AUTH_AES_XCBC_96 0 this in
  add_algorithm EXTENDED_SEQUENCE_NUMBERS NO_EXT_SEQ_NUMBERS 0 this.

Definition proposal_create_default (lib_crypto : crypto_factory_t) (protocol : Z)
    : option proposal_t :=
  let this := proposal_create protocol 0 in
  if protocol =? PROTO_IKE then proposal_add_supported_ike lib_crypto false this
  else if protocol =? PROTO_ESP then
    let this := add_algorithm ENCRYPTION_ALGORITHM ENCR_AES_CBC 128 this in
    let this := add_algorithm ENCRYPTION_ALGORITHM ENCR_AES_CBC 192 this in
    let this := add_algorithm ENCRYPTION_ALGORITHM ENCR_AES_CBC 256 this in
    Some (add_default_signers this)
  else if protocol =? PROTO_AH then Some (add_default_signers this)
  else Some this.

Definition proposal_create_default_aead (lib_crypto : crypto_factory_t) (protocol : Z)
    : option proposal_t :=
  let this := proposal_create protocol 0 in
  if protocol =? PROTO_IKE then proposal_add_supported_ike lib_crypto true this
  else if protocol =? PROTO_ESP then
    let this := add_algorithm ENCRYPTION_ALGORITHM ENCR_AES_GCM_ICV16 128 this in
    let this := add_algorithm ENCRYPTION_ALGORITHM ENCR_AES_GCM_ICV16 192 this in
    Some (add_algorithm ENCRYPTION_ALGORITHM ENCR_AES_GCM_ICV16 256 this)
  else None.
