(* ===== verification/ProposalTypes.v ===== *)
(** What proposals keep: the array of types is sorted and holds exactly the types of the
    transforms, in every proposal that the operations of proposal.c make. *)

From stdpp Require Import sorting strings.
From S2P Require Import Prelude Payloads Proposal.
#[local] Open Scope Z_scope.

(** * The order of types *)

Lemma type_for_sort_inj a b : type_for_sort a = type_for_sort b -> a = b.
Proof.
  unfold type_for_sort, PSEUDO_RANDOM_FUNCTION, INTEGRITY_ALGORITHM. case_if; lia.
Qed.

#[global] Instance type_le_total : Total type_le.
Proof. intros a b. unfold type_le, type_sort. lia. Qed.
#[global] Instance type_le_trans : Transitive type_le.
Proof. intros a b c. unfold type_le, type_sort. lia. Qed.
#[global] Instance type_le_refl : Reflexive type_le.
Proof. intros a. unfold type_le, type_sort. lia. Qed.
#[global] Instance type_le_anti : AntiSymm (=) type_le.
Proof. intros a b. unfold type_le, type_sort. intros. apply type_for_sort_inj. lia. Qed.

Lemma type_find_zero a b : type_find a b = 0 <-> a = b.
Proof.
  unfold type_find, type_sort. split; [|intros ->; lia].
  intros. apply type_for_sort_inj. lia.
Qed.

(** * Sets of types *)

(** A sorted array without duplicates, what the arrays of types are. *)
Definition type_set (ts : list Z) : Prop := StronglySorted type_le ts /\ NoDup ts.

Lemma type_set_nil : type_set [].
Proof. split; constructor. Qed.

Lemma contains_type_spec ts t : contains_type ts t = true <-> t ∈ ts.
Proof.
  unfold contains_type. rewrite existsb_exists. setoid_rewrite Z.eqb_eq.
  setoid_rewrite type_find_zero. setoid_rewrite <- list_elem_of_In. naive_solver.
Qed.

Lemma elem_of_add_type ts t x : x ∈ add_type ts t <-> x ∈ ts \/ x = t.
Proof.
  unfold add_type. destruct (contains_type ts t) eqn:C.
  - apply contains_type_spec in C. naive_solver.
  - rewrite merge_sort_Permutation, elem_of_app, list_elem_of_singleton. done.
Qed.

Lemma add_type_set ts t : type_set ts -> type_set (add_type ts t).
Proof.
  intros [S N]. unfold add_type. destruct (contains_type ts t) eqn:C; [done|]. split.
  - by apply StronglySorted_merge_sort; apply _.
  - rewrite merge_sort_Permutation. apply NoDup_app. split; [done|]. split; [|apply NoDup_singleton].
    intros x Hx ->%list_elem_of_singleton. apply contains_type_spec in Hx. congruence.
Qed.

(** The array is determined by its elements. *)
Lemma type_set_eq ts us : type_set ts -> type_set us -> (forall t, t ∈ ts <-> t ∈ us) -> ts = us.
Proof.
  intros [S1 N1] [S2 N2] H. apply (StronglySorted_unique type_le); try done.
  by apply NoDup_Permutation.
Qed.

Definition adds (os acc : list Z) : list Z := fold_left add_type os acc.

Lemma adds_set os : forall acc, type_set acc -> type_set (adds os acc).
Proof. induction os as [|o os IH]; intros acc H; [done|]. apply IH. by apply add_type_set. Qed.

Lemma elem_of_adds os : forall acc x, x ∈ adds os acc <-> x ∈ acc \/ x ∈ os.
Proof.
  induction os as [|o os IH]; intros acc x; cbn; [set_solver|].
  unfold adds in IH. rewrite IH, elem_of_add_type. set_solver.
Qed.

Lemma merge_loop_left ts : forall acc, merge_loop ts [] acc = adds ts acc.
Proof. induction ts as [|t ts IH]; intros acc; cbn; [done|]. by rewrite IH. Qed.

Lemma merge_loop_right os : forall acc, merge_loop [] os acc = adds os acc.
Proof.
  destruct os as [|o os]; intros acc; [done|]. cbn. generalize (add_type acc o).
  induction os as [|o' os IH]; intros acc'; cbn; [done|]. by rewrite IH.
Qed.

Lemma merge_loop_spec ts : forall os acc, type_set acc ->
  type_set (merge_loop ts os acc)
  /\ forall x, x ∈ merge_loop ts os acc <-> x ∈ acc \/ x ∈ ts \/ x ∈ os.
Proof.
  induction ts as [|t ts IH]; intros os acc H.
  - rewrite merge_loop_right. split; [by apply adds_set|].
    intros x. rewrite elem_of_adds. set_solver.
  - destruct os as [|o os].
    + rewrite merge_loop_left. split; [by apply adds_set|].
      intros x. rewrite elem_of_adds. set_solver.
    + cbn. destruct (IH os (add_type (add_type acc t) o)) as [S E];
        [by repeat apply add_type_set|].
      split; [done|]. intros x. rewrite E, !elem_of_add_type. set_solver.
Qed.

Lemma merge_types_set this other : type_set (merge_types this other).
Proof. apply merge_loop_spec, type_set_nil. Qed.

Lemma elem_of_merge_types this other t :
  t ∈ merge_types this other <-> t ∈ types this \/ t ∈ types other.
Proof.
  unfold merge_types. destruct (merge_loop_spec (types this) (types other) [] type_set_nil) as [_ E].
  rewrite E. set_solver.
Qed.

Lemma merge_types_comm this other : merge_types this other = merge_types other this.
Proof.
  apply type_set_eq; try apply merge_types_set. intros t. rewrite !elem_of_merge_types. tauto.
Qed.

(** * Types of the transforms *)

Definition has_type (this : proposal_t) (t : Z) : Prop :=
  exists e, e ∈ transforms this /\ entry_type e = t.

Record typed (this : proposal_t) : Prop := Typed {
  typed_set : type_set (types this);
  typed_types : forall t, t ∈ types this <-> has_type this t }.

(** The same for the types but one. *)
Definition typed_but (t : Z) (this : proposal_t) : Prop :=
  type_set (types this) /\ forall u, u <> t -> u ∈ types this <-> has_type this u.

Lemma proposal_create_typed p n v : typed (proposal_create_v1 p n v).
Proof.
  split; [apply type_set_nil|]. intros t. split.
  - intros H. by apply elem_of_nil in H.
  - intros (e & H & _). by apply elem_of_nil in H.
Qed.

(** An entry of a type is added with its type. *)
Lemma entry_added_typed e this : typed this ->
  typed (with_types (add_type (types this) (entry_type e))
           (with_transforms (transforms this ++ [e]) this)).
Proof.
  intros [S T]. split; cbn; [by apply add_type_set|]. intros t.
  rewrite elem_of_add_type, T. unfold has_type; cbn. setoid_rewrite elem_of_app.
  setoid_rewrite list_elem_of_singleton. naive_solver.
Qed.

Lemma add_algorithm_typed t a k this : typed this -> typed (add_algorithm t a k this).
Proof. apply (entry_added_typed (Entry t a k)). Qed.

Lemma set_spi_typed s this : typed this -> typed (set_spi s this).
Proof. intros [S T]. by split. Qed.

Lemma elem_of_filter_bool {A} (f : A -> bool) x l : x ∈ List.filter f l <-> x ∈ l /\ f x = true.
Proof. by rewrite !list_elem_of_In, filter_In. Qed.

Lemma is_group_spec g e :
  is_group g e = true <-> entry_type e = DIFFIE_HELLMAN_GROUP /\ entry_alg e = g.
Proof. unfold is_group. by rewrite andb_true_iff, !Z.eqb_eq. Qed.

Lemma promote_dh_group_typed g this : typed this -> typed (snd (promote_dh_group g this)).
Proof.
  intros [S T]. unfold promote_dh_group. destruct (existsb _ _) eqn:X; cbn; [|by split].
  apply existsb_exists in X as (e0 & H0%list_elem_of_In & [G0 _]%is_group_spec).
  split; cbn; [done|]. intros t. rewrite T. unfold has_type; cbn.
  setoid_rewrite elem_of_cons. setoid_rewrite elem_of_filter_bool. split.
  - intros (e & He & Ht). destruct (is_group g e) eqn:G.
    + apply is_group_spec in G as [G _]. eexists. split; [by left|]. cbn. congruence.
    + exists e. split; [right; by rewrite G|done].
  - intros (e & [->|[He _]] & Ht); [|by exists e]. exists e0. cbn in Ht. split; [done|congruence].
Qed.

Lemma clone_loop_typed flags es : forall clone, typed clone -> typed (clone_loop flags es clone).
Proof.
  induction es as [|e es IH]; intros clone H; cbn; [done|].
  destruct (clone_keeps flags e); apply IH; [by apply entry_added_typed|done].
Qed.

Lemma clone_typed flags this : typed (clone_ this flags).
Proof.
  destruct (clone_loop_typed flags (transforms this) _ (proposal_create_typed (protocol this) 0 0))
    as [S T].
  by split.
Qed.

(** Cloning keeps the order of what it keeps. *)
Lemma clone_loop_transforms flags es : forall clone,
  transforms (clone_loop flags es clone) = transforms clone ++ List.filter (clone_keeps flags) es
  /\ protocol (clone_loop flags es clone) = protocol clone.
Proof.
  induction es as [|e es IH]; intros clone; cbn; [by rewrite app_nil_r|].
  destruct (clone_keeps flags e); [|apply IH].
  destruct (IH (with_types (add_type (types clone) (entry_type e))
                  (with_transforms (transforms clone ++ [e]) clone))) as [I1 I2].
  rewrite I1, I2. cbn. by rewrite <- app_assoc.
Qed.

Lemma clone_transforms flags this :
  transforms (clone_ this flags) = List.filter (clone_keeps flags) (transforms this).
Proof. unfold clone_; cbn. by rewrite (proj1 (clone_loop_transforms _ _ _)). Qed.

(** A type that is removed, with or without its entries. *)
Lemma remove_type_spec t this : type_set (types this) ->
  type_set (types (remove_type t this))
  /\ (forall x, x ∈ types (remove_type t this) <-> x ∈ types this /\ x <> t)
  /\ transforms (remove_type t this) = transforms this
  /\ protocol (remove_type t this) = protocol this.
Proof.
  intros [S N]. unfold remove_type. destruct (list_find _ _) as [[i u]|] eqn:F.
  - apply list_find_Some in F as (Hi & ->%type_find_zero & _). cbn.
    rewrite delete_take_drop. pose proof (take_drop_middle _ _ _ Hi) as M.
    rewrite <- M in S, N. apply StronglySorted_app in S as (HR & S1 & S2).
    apply StronglySorted_cons in S2 as [S2 S3].
    apply NoDup_app in N as (N1 & N2 & N3). apply NoDup_cons in N3 as [N3 N4].
    split; [split|split; [|done]].
    + apply StronglySorted_app_2; try done. intros x y Hx Hy. apply HR; [done|by right].
    + apply NoDup_app. split; [done|]. split; [|done]. intros x Hx Hd.
      apply (N2 x Hx). by right.
    + intros x. rewrite <- M at 3. rewrite !elem_of_app, elem_of_cons.
      split; [|naive_solver]. intros [Hx|Hx]; split; try tauto; intros ->; [|done].
      apply (N2 _ Hx). by left.
  - split; [done|]. split; [|done]. intros x. split; [|tauto]. intros Hx. split; [done|].
    intros ->. apply list_find_None in F. rewrite Forall_forall in F.
    apply (F t Hx). by apply type_find_zero.
Qed.

Lemma remove_transform_typed t this : typed this -> typed (remove_transform t this).
Proof.
  intros [S T]. unfold remove_transform.
  set (this' := with_transforms _ this).
  destruct (remove_type_spec t this' S) as (S' & E & Tr & _).
  split; [done|]. intros u. rewrite E. unfold has_type. rewrite Tr. cbn.
  rewrite T. unfold has_type. setoid_rewrite elem_of_filter_bool. setoid_rewrite negb_true_iff.
  setoid_rewrite Z.eqb_neq. naive_solver.
Qed.

(** Entries that go while others of their type stay. *)
Lemma filter_typed f this : typed this ->
  (forall e, e ∈ transforms this -> exists e', e' ∈ transforms this /\ f e' = true
                                              /\ entry_type e' = entry_type e) ->
  typed (with_transforms (List.filter f (transforms this)) this).
Proof.
  intros [S T] H. split; [done|]. intros t. cbn. rewrite T. unfold has_type. cbn.
  setoid_rewrite elem_of_filter_bool. split.
  - intros (e & He & Ht). destruct (H e He) as (e' & ? & ? & ?). exists e'.
    split; [done|congruence].
  - intros (e & [He _] & Ht). by exists e.
Qed.

(** * Algorithms *)

Lemma elem_of_algs this t a :
  a ∈ create_enumerator this t <-> exists e, e ∈ transforms this /\ entry_type e = t
                                             /\ a = (entry_alg e, entry_key_size e).
Proof.
  unfold create_enumerator. rewrite list_elem_of_fmap.
  setoid_rewrite elem_of_filter_bool. unfold alg_filter. setoid_rewrite Z.eqb_eq. naive_solver.
Qed.

Lemma has_type_algs this t : has_type this t <-> create_enumerator this t <> [].
Proof.
  split.
  - intros (e & He & Ht) E. assert ((entry_alg e, entry_key_size e) ∈ create_enumerator this t) as H.
    { apply elem_of_algs. eauto. }
    rewrite E in H. by apply elem_of_nil in H.
  - destruct (create_enumerator this t) as [|a l] eqn:E; [done|]. intros _.
    assert (a ∈ create_enumerator this t) as (e & ? & ? & _)%elem_of_algs by (rewrite E; by left).
    by exists e.
Qed.

Lemma lacks_spec this t : lacks this t = true <-> create_enumerator this t = [].
Proof. unfold lacks, get_algorithm. by destruct (create_enumerator this t). Qed.

Lemma lacks_type this t : lacks this t = false <-> has_type this t.
Proof. rewrite has_type_algs. unfold lacks, get_algorithm. by destruct (create_enumerator this t). Qed.

Lemma algs_added t a k u this :
  create_enumerator (add_algorithm t a k this) u
  = create_enumerator this u ++ (if t =? u then [(a, k)] else []).
Proof.
  unfold create_enumerator, add_algorithm; cbn. rewrite List.filter_app, fmap_app. f_equal.
  cbn. unfold alg_filter; cbn. by destruct (t =? u).
Qed.

Lemma algs_created p n v s u : create_enumerator (set_spi s (proposal_create_v1 p n v)) u = [].
Proof. done. Qed.
