(* ===== verification/Selection.v ===== *)
(** What two peers agree on: the algorithms that proposal.c selects are the agreement of
    the two proposals as it is specified here, type by type. *)

From stdpp Require Import sorting strings.
From S2P Require Import Prelude Payloads Proposal ProposalTypes.
#[local] Open Scope Z_scope.

(** * Algorithms both have *)

Section Agreement.

Variable this other : proposal_t.
Variable flags : Z.

(** Private algorithms may mean something else to a peer of another implementation. *)
Definition allowed (a : Z * Z) : Prop :=
  has_flag flags PROPOSAL_SKIP_PRIVATE = true -> fst a < 1024.

Definition common (t : Z) (a : Z * Z) : Prop :=
  a ∈ create_enumerator other t /\ allowed a.

(** The one [this] prefers. *)
Definition preferred (t : Z) (a : Z * Z) : Prop :=
  exists before after, create_enumerator this t = before ++ a :: after
                       /\ common t a /\ Forall (fun b => ~ common t b) before.

Definition proposes_none (p : proposal_t) : Prop :=
  exists k, (MODP_NONE, k) ∈ create_enumerator p DIFFIE_HELLMAN_GROUP.

Definition group_optional : Prop := protocol this = PROTO_ESP \/ protocol this = PROTO_AH.

(** No group is needed for a tunnel if one side wants none and the other accepts that. *)
Definition without_group : Prop :=
  group_optional
  /\ (create_enumerator this DIFFIE_HELLMAN_GROUP = [] /\ proposes_none other
      \/ create_enumerator other DIFFIE_HELLMAN_GROUP = [] /\ proposes_none this).

(** Encryption that protects the integrity as well. *)
Definition combined (encryption : list (Z * Z)) : Prop :=
  exists a, a ∈ encryption /\ encryption_algorithm_is_aead (fst a) = true.

(** Types that are not negotiated. *)
Definition left_out (encryption : list (Z * Z)) (t : Z) : Prop :=
  (t = DIFFIE_HELLMAN_GROUP /\ has_flag flags PROPOSAL_SKIP_DH = true)
  \/ (t = INTEGRITY_ALGORITHM /\ combined encryption).

(** Zero means none, except for extended sequence numbers. *)
Definition effective (t : Z) (a : Z * Z) : list (Z * Z) :=
  if (fst a =? 0) && negb (t =? EXTENDED_SEQUENCE_NUMBERS) then [] else [a].

(** The algorithms of a type that are agreed on, one at most, where [encryption] is agreed
    on for encryption. *)
Inductive agreed (encryption : list (Z * Z)) (t : Z) : list (Z * Z) -> Prop :=
  | agreed_unused : create_enumerator this t = [] -> create_enumerator other t = [] ->
      agreed encryption t []
  | agreed_left_out : left_out encryption t -> agreed encryption t []
  | agreed_no_group : ~ left_out encryption t -> t = DIFFIE_HELLMAN_GROUP -> without_group ->
      agreed encryption t []
  | agreed_on a : ~ left_out encryption t -> preferred t a ->
      agreed encryption t (effective t a).

(** What is agreed on for all types. *)
Definition agreement (f : Z -> list (Z * Z)) : Prop :=
  protocol this = protocol other /\ forall t, agreed (f ENCRYPTION_ALGORITHM) t (f t).

(** * One type *)

Lemma match_alg_spec a others :
  match_alg (has_flag flags PROPOSAL_SKIP_PRIVATE) a others = true <-> a ∈ others /\ allowed a.
Proof.
  unfold allowed. generalize (has_flag flags PROPOSAL_SKIP_PRIVATE) as skip. intros skip.
  destruct a as [x k]. induction others as [|[y j] others IH]; cbn.
  - split; [done|]. by intros [H%elem_of_nil _].
  - rewrite elem_of_cons, pair_eq.
    destruct ((x =? y) && (k =? j)) eqn:E; [|rewrite IH].
    + apply andb_true_iff in E as [->%Z.eqb_eq ->%Z.eqb_eq].
      destruct (skip && (y >=? 1024)) eqn:S.
      * rewrite IH. apply andb_true_iff in S as [-> S]. rewrite Z.geb_leb, Z.leb_le in S. cbn.
        split; [tauto|]. intros [_ H]. specialize (H eq_refl). lia.
      * split; [|done]. intros _. split; [tauto|]. intros ->. cbn in S.
        rewrite Z.geb_leb, Z.leb_gt in S. done.
    + apply andb_false_iff in E. rewrite !Z.eqb_neq in E. cbn. intuition.
Qed.

Lemma compare_algs_some others algs a :
  compare_algs (has_flag flags PROPOSAL_SKIP_PRIVATE) algs others = Some a <->
  exists before after, algs = before ++ a :: after /\ (a ∈ others /\ allowed a)
                       /\ Forall (fun b => ~ (b ∈ others /\ allowed b)) before.
Proof.
  induction algs as [|b algs IH]; cbn.
  - split; [done|]. intros (before & after & H & _). by destruct before.
  - destruct (match_alg _ b others) eqn:M.
    + apply match_alg_spec in M. split.
      * intros [= <-]. exists [], algs. split; [done|]. split; [done|constructor].
      * intros ([|c before] & after & H & _ & F); injection H as -> E; [done|].
        by inversion F.
    + assert (~ (b ∈ others /\ allowed b)) as N by (rewrite <- match_alg_spec; congruence).
      rewrite IH. split.
      * intros (before & after & -> & H & F). exists (b :: before), after.
        split; [done|]. split; [done|by constructor].
      * intros ([|c before] & after & H & Ha & F); injection H as -> E; [tauto|].
        inversion F. by exists before, after.
Qed.

Lemma compare_algs_none others algs :
  compare_algs (has_flag flags PROPOSAL_SKIP_PRIVATE) algs others = None <->
  Forall (fun b => ~ (b ∈ others /\ allowed b)) algs.
Proof.
  induction algs as [|b algs IH]; cbn; [done|].
  rewrite Forall_cons, <- match_alg_spec, <- IH. destruct (match_alg _ b others); naive_solver.
Qed.

Lemma preferred_unique t a b : preferred t a -> preferred t b -> a = b.
Proof.
  intros H1 H2. assert (Some a = Some b) as E; [|congruence].
  apply compare_algs_some in H1, H2. congruence.
Qed.

Lemma preferred_none t : compare_algs (has_flag flags PROPOSAL_SKIP_PRIVATE)
    (create_enumerator this t) (create_enumerator other t) = None -> forall a, ~ preferred t a.
Proof.
  intros H a P. apply compare_algs_some in P. congruence.
Qed.

Lemma none_proposed_spec p :
  existsb (fun a : Z * Z => fst a =? 0) (create_enumerator p DIFFIE_HELLMAN_GROUP) = true
  <-> proposes_none p.
Proof.
  rewrite existsb_exists. unfold proposes_none. split.
  - intros ([x k] & H%list_elem_of_In & E%Z.eqb_eq). cbn in E. subst. by exists k.
  - intros [k H%list_elem_of_In]. by exists (MODP_NONE, k).
Qed.

Lemma optional_spec t : (t =? DIFFIE_HELLMAN_GROUP)
    && ((protocol this =? PROTO_ESP) || (protocol this =? PROTO_AH)) = true
  <-> t = DIFFIE_HELLMAN_GROUP /\ group_optional.
Proof. by rewrite andb_true_iff, orb_true_iff, !Z.eqb_eq. Qed.

(** What [select_algo] returns. *)
Inductive selected_algo (t : Z) : option (Z * Z) -> Prop :=
  | selected_unused : create_enumerator this t = [] -> create_enumerator other t = [] ->
      selected_algo t (Some (0, 0))
  | selected_no_group : t = DIFFIE_HELLMAN_GROUP -> without_group -> selected_algo t (Some (0, 0))
  | selected_alg a : preferred t a -> selected_algo t (Some a)
  | selected_nothing : (create_enumerator this t <> [] \/ create_enumerator other t <> []) ->
      ~ (t = DIFFIE_HELLMAN_GROUP /\ without_group) -> (forall a, ~ preferred t a) ->
      selected_algo t None.

Lemma select_algo_spec t : selected_algo t (select_algo this other t flags).
Proof.
  unfold select_algo. set (o := (t =? DIFFIE_HELLMAN_GROUP) && _).
  pose proof (optional_spec t) as O. fold o in O.
  destruct (create_enumerator this t) as [|a1 l1] eqn:E1;
    destruct (create_enumerator other t) as [|a2 l2] eqn:E2.
  - by constructor 1.
  - destruct (o && _) eqn:X.
    + apply andb_true_iff in X as [[-> Og]%O X]. rewrite <- E2 in X.
      apply none_proposed_spec in X. constructor 2; [done|]. split; [done|]. left. done.
    + cbn. constructor 4; [right; by rewrite E2| |].
      * intros [-> [Og [[_ N]|[N _]]]]; [|congruence]. apply none_proposed_spec in N.
        rewrite E2 in N. rewrite N, andb_true_r in X. by rewrite (proj2 O (conj eq_refl Og)) in X.
      * intros a (before & after & H & _). rewrite E1 in H. by destruct before.
  - destruct (o && _) eqn:X.
    + apply andb_true_iff in X as [[-> Og]%O X]. rewrite <- E1 in X.
      apply none_proposed_spec in X. constructor 2; [done|]. split; [done|]. right. done.
    + assert (forall l, compare_algs (has_flag flags PROPOSAL_SKIP_PRIVATE) l [] = None) as N.
      { induction l as [|b l IH]; [done|exact IH]. }
      rewrite N. constructor 4; [left; by rewrite E1| |].
      * intros [-> [Og [[F _]|[_ F]]]]; [congruence|]. apply none_proposed_spec in F.
        rewrite E1 in F. rewrite F, andb_true_r in X. by rewrite (proj2 O (conj eq_refl Og)) in X.
      * intros a (before & after & _ & [H _] & _). rewrite E2 in H. by apply elem_of_nil in H.
  - rewrite <- E1, <- E2. destruct (compare_algs _ _ _) as [a|] eqn:C.
    + constructor 3. by apply compare_algs_some in C.
    + constructor 4; [left; by rewrite E1| |by apply preferred_none].
      intros [-> [_ [[F _]|[F _]]]]; congruence.
Qed.

(** * All types *)

(** What is selected for a type, when [combined_before] tells whether the encryption that
    was selected before is combined. *)
Definition choice (combined_before : bool) (t : Z) : option (list (Z * Z)) :=
  if ((t =? INTEGRITY_ALGORITHM) && combined_before)
     || ((t =? DIFFIE_HELLMAN_GROUP) && has_flag flags PROPOSAL_SKIP_DH) then Some []
  else effective t <$> select_algo this other t flags.

Definition is_combined (encryption : option (list (Z * Z))) : bool :=
  match encryption with Some [a] => encryption_algorithm_is_aead (fst a) | _ => false end.

Definition add_choice (t : Z) (l : list (Z * Z)) (s : proposal_t) : proposal_t :=
  fold_left (fun s (a : Z * Z) => add_algorithm t (fst a) (snd a) s) l s.

Lemma select_loop_step c t ts s :
  select_loop this other flags c (t :: ts) s =
  match choice c t with
  | None => None
  | Some l => select_loop this other flags
                (c || ((t =? ENCRYPTION_ALGORITHM) && is_combined (Some l))) ts (add_choice t l <$> s)
  end.
Proof.
  assert (add_choice t [] <$> s = s) as Hn by by destruct s.
  unfold choice. cbn [select_loop].
  destruct ((t =? INTEGRITY_ALGORITHM) && c); cbn [orb];
    [by rewrite Hn; cbn; rewrite andb_false_r, orb_false_r|].
  destruct ((t =? DIFFIE_HELLMAN_GROUP) && has_flag flags PROPOSAL_SKIP_DH);
    [by rewrite Hn; cbn; rewrite andb_false_r, orb_false_r|].
  destruct (select_algo this other t flags) as [[x k]|]; [|done]. cbn [fmap option_fmap option_map].
  unfold effective. cbn [fst]. destruct ((x =? 0) && _).
  - by rewrite Hn; cbn; rewrite andb_false_r, orb_false_r.
  - by destruct s.
Qed.

(** The selection for a type does not depend on when it is made, but that encryption comes
    before integrity. *)
Definition final_choice (t : Z) : option (list (Z * Z)) :=
  choice (is_combined (choice false ENCRYPTION_ALGORITHM)) t.

Lemma choice_other c c' t : t <> INTEGRITY_ALGORITHM -> choice c t = choice c' t.
Proof. intros H%Z.eqb_neq. unfold choice. by rewrite H. Qed.

Definition add_all (ts : list Z) (s : proposal_t) : proposal_t :=
  fold_left (fun s t => add_choice t (default [] (final_choice t)) s) ts s.

Definition chosen (t : Z) : bool := match final_choice t with Some _ => true | None => false end.

Lemma select_loop_final ts : forall c s, type_set ts ->
  (INTEGRITY_ALGORITHM ∈ ts ->
   c || bool_decide (ENCRYPTION_ALGORITHM ∈ ts) && is_combined (choice false ENCRYPTION_ALGORITHM)
   = is_combined (choice false ENCRYPTION_ALGORITHM)) ->
  select_loop this other flags c ts s =
  if forallb chosen ts then Some (add_all ts <$> s) else None.
Proof.
  induction ts as [|t ts IH]; intros c s [S N] HI; [by destruct s|].
  apply StronglySorted_cons in S as [S1 S2]. apply NoDup_cons in N as [N1 N2].
  rewrite Forall_forall in S1. rewrite select_loop_step.
  assert (choice c t = final_choice t) as ->.
  { destruct (decide (t = INTEGRITY_ALGORITHM)) as [->|Ht]; [|by apply choice_other].
    unfold final_choice. f_equal. rewrite <- HI by left. rewrite bool_decide_eq_false_2, orb_false_r;
      [done|]. rewrite elem_of_cons. intros [|H%S1]; [done|]. by apply H. }
  cbn [forallb]. unfold chosen at 1. destruct (final_choice t) as [l|] eqn:F; [|done].
  rewrite IH; [|by split|]; cbn [andb].
  - destruct (forallb chosen ts); [|done]. destruct s; [|done]. cbn. by rewrite F.
  - intros H. assert (t <> INTEGRITY_ALGORITHM) as Ht by (intros ->; done).
    rewrite <- (HI (list_elem_of_further _ _ _ H)) at 2. destruct c; [done|]. cbn [orb].
    unfold final_choice in F. rewrite (choice_other _ false) in F by done.
    destruct (t =? ENCRYPTION_ALGORITHM) eqn:E.
    + apply Z.eqb_eq in E as ->. cbn [andb]. rewrite F. rewrite (bool_decide_eq_true_2 (_ ∈ _ :: _)) by left.
      rewrite bool_decide_eq_false_2 by done. cbn. by rewrite orb_false_r.
    + apply Z.eqb_neq in E. cbn [andb orb]. f_equal. apply bool_decide_ext. rewrite elem_of_cons.
      naive_solver.
Qed.

(** * Choices are what is agreed on *)

Lemma effective_length t a : (length (effective t a) <= 1)%nat.
Proof. unfold effective. case_match; cbn; lia. Qed.

Lemma combined_spec l : (length l <= 1)%nat -> combined l <-> is_combined (Some l) = true.
Proof.
  intros H. unfold combined. destruct l as [|a [|b l]]; cbn in *; [| |lia].
  - split; [|done]. by intros (a & H0%elem_of_nil & _).
  - setoid_rewrite list_elem_of_singleton. naive_solver.
Qed.

Definition occurs (t : Z) : Prop := create_enumerator this t <> [] \/ create_enumerator other t <> [].

Lemma left_out_test c encryption t : combined encryption <-> c = true ->
  ((t =? INTEGRITY_ALGORITHM) && c)
  || ((t =? DIFFIE_HELLMAN_GROUP) && has_flag flags PROPOSAL_SKIP_DH) = true
  <-> left_out encryption t.
Proof.
  intros H. unfold left_out. rewrite H, orb_true_iff, !andb_true_iff, !Z.eqb_eq. tauto.
Qed.

Lemma choice_agreed c encryption t l : combined encryption <-> c = true -> occurs t ->
  choice c t = Some l <-> agreed encryption t l.
Proof.
  intros Hc Ho. pose proof (left_out_test c encryption t Hc) as L. unfold choice.
  destruct (_ || _) eqn:T.
  { pose proof (proj1 L eq_refl) as T'. split; [intros [= <-]; by constructor 2|].
    destruct 1; tauto. }
  assert (~ left_out encryption t) as NL by (rewrite <- L; congruence). clear L T.
  destruct (select_algo_spec t) as [E1 E2|E W|a P|_ NW NP].
  - destruct Ho; done.
  - subst. cbn. split; [intros [= <-]; by constructor 3|].
    destruct 1 as [| | |a ? P]; try done.
    destruct P as (before & after & E & [Hm _] & _), W as [_ [[W _]|[W _]]].
    + rewrite W in E. by destruct before.
    + rewrite W in Hm. by apply elem_of_nil in Hm.
  - cbn. split; [intros [= <-]; by constructor 4|].
    destruct 1 as [E _| |_ -> W|b _ Q]; try done.
    + destruct P as (before & after & F & _). rewrite E in F. by destruct before.
    + destruct P as (before & after & E & [Hm _] & _), W as [_ [[W _]|[W _]]].
      * rewrite W in E. by destruct before.
      * rewrite W in Hm. by apply elem_of_nil in Hm.
    + by rewrite (preferred_unique t a b).
  - split; [done|]. destruct 1 as [E1 E2| |_ -> W|b _ Q]; try done.
    + destruct Ho; done.
    + tauto.
    + by destruct (NP b).
Qed.

(** Nothing is chosen for a type that neither proposes, but for extended sequence numbers,
    which are not asked for then. *)
Lemma choice_absent c : ~ occurs ENCRYPTION_ALGORITHM -> choice c ENCRYPTION_ALGORITHM = Some [].
Proof.
  intros B. unfold choice.
  cbn [orb andb Z.eqb Pos.eqb ENCRYPTION_ALGORITHM INTEGRITY_ALGORITHM DIFFIE_HELLMAN_GROUP].
  destruct (select_algo_spec ENCRYPTION_ALGORITHM) as [| |a P|[H|H] _ _]; try done.
  - destruct P as (before & after & E & _). destruct B. left. rewrite E. by destruct before.
  - destruct B. by left.
  - destruct B. by right.
Qed.

Lemma choice_length c t l : choice c t = Some l -> (length l <= 1)%nat.
Proof.
  unfold choice. case_match; [intros [= <-]; cbn; lia|].
  destruct (select_algo _ _ _ _) as [a|]; [|done]. intros [= <-]. apply effective_length.
Qed.

Lemma agreed_absent encryption t l : ~ occurs t -> agreed encryption t l <-> l = [].
Proof.
  intros H. unfold occurs in H.
  assert (create_enumerator this t = [] /\ create_enumerator other t = []) as [E1 E2].
  { destruct (create_enumerator this t), (create_enumerator other t); naive_solver. }
  split; [|intros ->; by constructor 1]. destruct 1 as [| | |a ? P]; try done.
  destruct P as (before & after & E & _). rewrite E1 in E. by destruct before.
Qed.

Lemma agreed_length encryption t l : agreed encryption t l -> (length l <= 1)%nat.
Proof. destruct 1; cbn; try lia. apply effective_length. Qed.

(** * The selected proposal *)

Lemma algs_add_choice t l s u : create_enumerator (add_choice t l s) u
  = create_enumerator s u ++ (if t =? u then l else []).
Proof.
  revert s. induction l as [|[x k] l IH]; intros s; cbn.
  - by destruct (t =? u); rewrite app_nil_r.
  - unfold add_choice in IH. rewrite IH, algs_added, <- app_assoc. by destruct (t =? u).
Qed.

Lemma algs_add_all ts : NoDup ts -> forall s u, create_enumerator (add_all ts s) u
  = create_enumerator s u ++ (if decide (u ∈ ts) then default [] (final_choice u) else []).
Proof.
  induction 1 as [|t ts Ht Hn IH]; intros s u; cbn; [by rewrite app_nil_r|].
  unfold add_all in IH. rewrite IH, algs_add_choice, <- app_assoc. f_equal.
  destruct (t =? u) eqn:E.
  - apply Z.eqb_eq in E as <-. rewrite decide_False, app_nil_r by done.
    by rewrite decide_True by left.
  - apply Z.eqb_neq in E. cbn. apply decide_ext. rewrite elem_of_cons. naive_solver.
Qed.

Lemma add_choice_typed t l s : typed s -> typed (add_choice t l s).
Proof.
  revert s. induction l as [|a l IH]; intros s H; [done|]. by apply IH, add_algorithm_typed.
Qed.

Lemma add_choice_head t l s : protocol (add_choice t l s) = protocol s /\ spi (add_choice t l s) = spi s
  /\ number (add_choice t l s) = number s /\ transform_number (add_choice t l s) = transform_number s.
Proof.
  revert s. induction l as [|a l IH]; intros s; [done|].
  change (add_choice t (a :: l) s) with (add_choice t l (add_algorithm t (fst a) (snd a) s)).
  by destruct (IH (add_algorithm t (fst a) (snd a) s)) as (-> & -> & -> & ->).
Qed.

Lemma add_all_kept ts : forall s, typed s ->
  typed (add_all ts s) /\ protocol (add_all ts s) = protocol s /\ spi (add_all ts s) = spi s
  /\ number (add_all ts s) = number s /\ transform_number (add_all ts s) = transform_number s.
Proof.
  induction ts as [|t ts IH]; intros s H; [done|].
  destruct (IH (add_choice t (default [] (final_choice t)) s)) as (T & E).
  - by apply add_choice_typed.
  - split; [done|]. by destruct (add_choice_head t (default [] (final_choice t)) s) as (<- & <- & <- & <-).
Qed.

Hypothesis this_typed : typed this.
Hypothesis other_typed : typed other.

Lemma occurs_types t : occurs t <-> t ∈ merge_types this other.
Proof.
  rewrite elem_of_merge_types, (typed_types _ this_typed), (typed_types _ other_typed), !has_type_algs.
  done.
Qed.

Lemma select_algos_final s :
  select_algos this other s flags
  = if forallb chosen (merge_types this other) then Some (add_all (merge_types this other) <$> s)
    else None.
Proof.
  apply select_loop_final; [apply merge_types_set|]. intros _. cbn [orb].
  destruct (bool_decide (ENCRYPTION_ALGORITHM ∈ _)) eqn:B; [done|]. cbn [andb].
  apply bool_decide_eq_false in B. rewrite <- occurs_types in B. by rewrite choice_absent.
Qed.

(** The algorithms of an agreement are those that are chosen. *)
Lemma encryption_chosen encryption : agreed encryption ENCRYPTION_ALGORITHM encryption ->
  combined encryption <-> is_combined (choice false ENCRYPTION_ALGORITHM) = true.
Proof.
  intros H. pose proof (combined_spec _ (agreed_length _ _ _ H)) as C. rewrite C.
  assert (choice false ENCRYPTION_ALGORITHM = Some encryption) as ->; [|done].
  destruct (decide (ENCRYPTION_ALGORITHM ∈ merge_types this other)) as [B|B];
    rewrite <- occurs_types in B.
  - rewrite (choice_other _ (is_combined (Some encryption))) by done.
    by apply (choice_agreed _ encryption).
  - rewrite choice_absent by done. by apply agreed_absent in H as ->.
Qed.

Lemma choices_agreed f : (forall t, agreed (f ENCRYPTION_ALGORITHM) t (f t)) <->
  forallb chosen (merge_types this other) = true /\
  forall t, f t = if decide (t ∈ merge_types this other) then default [] (final_choice t) else [].
Proof.
  rewrite forallb_forall. split.
  - intros H. pose proof (encryption_chosen _ (H _)) as C.
    assert (forall t, occurs t -> final_choice t = Some (f t)) as F.
    { intros t Ho. by apply (choice_agreed _ _ _ _ C Ho). }
    split.
    + intros t Ht%list_elem_of_In%occurs_types. unfold chosen. by rewrite F.
    + intros t. destruct (decide _) as [B|B]; rewrite <- occurs_types in B; [by rewrite F|].
      by apply (agreed_absent (f ENCRYPTION_ALGORITHM) t (f t) B), H.
  - intros [Hc Hf].
    assert (forall t, occurs t -> final_choice t = Some (f t)) as F.
    { intros t Ho%occurs_types. rewrite Hf, decide_True by done.
      apply list_elem_of_In, Hc in Ho. unfold chosen in Ho. by destruct (final_choice t). }
    assert (combined (f ENCRYPTION_ALGORITHM)
            <-> is_combined (choice false ENCRYPTION_ALGORITHM) = true) as C.
    { destruct (decide (ENCRYPTION_ALGORITHM ∈ merge_types this other)) as [B|B];
        rewrite <- occurs_types in B.
      - rewrite (choice_other _ (is_combined (choice false ENCRYPTION_ALGORITHM))) by done.
        fold (final_choice ENCRYPTION_ALGORITHM). rewrite F by done. apply combined_spec.
        exact (choice_length _ _ _ (F _ B)).
      - rewrite choice_absent by done. rewrite Hf. rewrite occurs_types in B.
        rewrite decide_False by done. rewrite combined_spec by (cbn; lia). done. }
    intros t. destruct (decide (t ∈ merge_types this other)) as [B|B]; rewrite <- occurs_types in B.
    + by apply (choice_agreed _ _ _ _ C B), F.
    + apply agreed_absent; [done|]. rewrite Hf. rewrite occurs_types in B. by rewrite decide_False.
Qed.

Lemma select_algos_agreed s :
  match select_algos this other (Some s) flags with
  | Some (Some r) =>
      (forall t, create_enumerator s t = []) ->
      (forall t, agreed (create_enumerator r ENCRYPTION_ALGORITHM) t (create_enumerator r t))
      /\ (forall f, (forall t, agreed (f ENCRYPTION_ALGORITHM) t (f t)) ->
            forall t, f t = create_enumerator r t)
  | Some None => False
  | None => forall f, ~ forall t, agreed (f ENCRYPTION_ALGORITHM) t (f t)
  end.
Proof.
  rewrite select_algos_final. destruct (forallb chosen _) eqn:C.
  - cbn. intros Hs.
    assert (forall t, create_enumerator (add_all (merge_types this other) s) t
      = if decide (t ∈ merge_types this other) then default [] (final_choice t) else []) as E.
    { intros t. rewrite algs_add_all by apply merge_types_set. by rewrite Hs. }
    split.
    + by apply choices_agreed.
    + intros f [_ Hf]%choices_agreed t. by rewrite Hf, E.
  - intros f [H _]%choices_agreed. congruence.
Qed.

Lemma matches_agreed :
  matches this other flags = true <-> exists f, agreement f.
Proof.
  unfold matches, agreement. destruct (protocol this =? protocol other) eqn:P.
  - cbn [negb]. rewrite select_algos_final. apply Z.eqb_eq in P.
    destruct (forallb chosen _) eqn:C; [|split; [done|]].
    + split; [|done]. intros _. eexists. split; [done|]. by apply choices_agreed.
    + intros (f & _ & [H _]%choices_agreed). congruence.
  - apply Z.eqb_neq in P. split; [done|]. by intros (f & ? & _).
Qed.

End Agreement.

(** The proposal that was supplied, whose number and SPI the selected one has. *)
Definition supplied_of (this other : proposal_t) (flags : Z) : proposal_t :=
  if has_flag flags PROPOSAL_PREFER_SUPPLIED then this else other.

Record selected_from (this other : proposal_t) (flags : Z) (s : proposal_t) : Prop := {
  selected_agreement : agreement this other flags (create_enumerator s);
  selected_typed : typed s;
  selected_protocol : protocol s = protocol this;
  selected_spi : spi s = spi (supplied_of this other flags);
  selected_number : number s = number (supplied_of this other flags);
}.

Lemma select_agreement this other flags : typed this -> typed other ->
  match select_proposal this other flags with
  | Some s => selected_from this other flags s
              /\ forall f, agreement this other flags f -> forall t, f t = create_enumerator s t
  | None => forall f, ~ agreement this other flags f
  end.
Proof.
  intros H1 H2. unfold select_proposal.
  destruct (protocol this =? protocol other) eqn:P; cbn [negb];
    [apply Z.eqb_eq in P|apply Z.eqb_neq in P; by intros f [? _]].
  set (s := if has_flag flags PROPOSAL_PREFER_SUPPLIED then _ else _).
  assert (typed s /\ protocol s = protocol this /\ (forall t, create_enumerator s t = [])
          /\ spi s = spi (supplied_of this other flags)
          /\ number s = number (supplied_of this other flags)) as (S1 & S2 & S3 & S4 & S5).
  { subst s. unfold supplied_of. destruct (has_flag flags PROPOSAL_PREFER_SUPPLIED);
      (split; [apply set_spi_typed, proposal_create_typed|by split_and!]). }
  clearbody s. pose proof (select_algos_agreed this other flags H1 H2 s) as A.
  pose proof (select_algos_final this other flags H1 H2 (Some s)) as F.
  destruct (select_algos this other (Some s) flags) as [[r|]|]; [|done|].
  - destruct (forallb _ _); [|done]. injection F as F.
    destruct (add_all_kept this other flags (merge_types this other) s S1) as (K1 & K2 & K3 & K4 & _).
    rewrite <- F in *. destruct (A S3) as [A1 A2]. split; [split; [by split|congruence..]|].
    intros f [_ Hf]. by apply A2.
  - intros f [_ Hf]. by apply (A f).
Qed.
