(* ===== verification/ProposalSpec.v ===== *)
(** What proposal.c promises: which proposal is selected from two lists, that what was
    configured is not weakened by a peer, and that the sets of types are kept; and where
    this fails. *)

From stdpp Require Import sorting strings.
From S2P Require Import Prelude Payloads Proposal ProposalTypes Selection.
#[local] Open Scope Z_scope.

(** * Lists of proposals *)

Section Lists.

Variable flags : Z.

Definition no_agreement (p q : proposal_t) : Prop := forall f, ~ agreement p q flags f.

Lemma first_match_spec p qs : typed p -> Forall typed qs ->
  match first_match p qs flags with
  | Some s => exists j q, qs !! j = Some q /\ selected_from p q flags s
                          /\ Forall (no_agreement p) (take j qs)
  | None => Forall (no_agreement p) qs
  end.
Proof.
  intros Hp. induction 1 as [|q qs Hq Hqs IH]; cbn; [done|].
  pose proof (select_agreement p q flags Hp Hq) as A.
  destruct (select_proposal p q flags) as [s|].
  - exists 0%nat, q. split; [done|]. split; [apply A|constructor].
  - destruct (first_match p qs flags) as [s|].
    + destruct IH as (j & q' & L & Sf & F). exists (S j), q'. split; [done|]. split; [done|].
      by constructor.
    + by constructor.
Qed.

(** The pairs before the one at [i] and [j] in the order of the search. *)
Definition none_before (ps qs : list proposal_t) (i j : nat) : Prop :=
  forall i' j' p q, ps !! i' = Some p -> qs !! j' = Some q ->
    (i' < i)%nat \/ (i' = i /\ (j' < j)%nat) -> no_agreement p q.

Lemma select_lists_spec ps qs : Forall typed ps -> Forall typed qs ->
  match select_lists ps qs flags with
  | Some s => exists i j p q, ps !! i = Some p /\ qs !! j = Some q /\ selected_from p q flags s
                              /\ none_before ps qs i j
  | None => forall p q, p ∈ ps -> q ∈ qs -> no_agreement p q
  end.
Proof.
  intros Hp Hq. induction Hp as [|p ps Hp Hps IH]; cbn.
  { intros p q H. by apply elem_of_nil in H. }
  pose proof (first_match_spec p qs Hp Hq) as A. destruct (first_match p qs flags) as [s|].
  - destruct A as (j & q & L & Sf & F). exists 0%nat, j, p, q. do 3 (split; [done|]).
    intros i' j' p' q' L1 L2 [H|[-> H]]; [lia|]. injection L1 as <-.
    rewrite Forall_forall in F. apply F. apply list_elem_of_lookup. exists j'.
    by rewrite lookup_take_lt.
  - rewrite Forall_forall in A. destruct (select_lists ps qs flags) as [s|].
    + destruct IH as (i & j & p' & q & L1 & L2 & Sf & F). exists (S i), j, p', q.
      do 3 (split; [done|]). intros [|i'] j' p1 q1 M1 M2 H; cbn in M1.
      * injection M1 as <-. apply A. by apply list_elem_of_lookup_2 in M2.
      * apply (F i' j'); try done. lia.
    + intros p' q [->|H]%elem_of_cons Hq'; [by apply A|by apply IH].
Qed.

End Lists.

(** The proposals whose order counts, and the others. *)
Definition ordered_first (configured supplied : list proposal_t) (flags : Z) : list proposal_t :=
  if has_flag flags PROPOSAL_PREFER_SUPPLIED then supplied else configured.
Definition ordered_second (configured supplied : list proposal_t) (flags : Z) : list proposal_t :=
  if has_flag flags PROPOSAL_PREFER_SUPPLIED then configured else supplied.

(** C33: From two lists of proposals the first pair with an agreement is selected, in the
    order of the preferred list and then of the other; the selected proposal has exactly
    what the two agree on for each type, the most preferred algorithm both have, with the
    number and the SPI of the supplied one. Nothing is selected only if no pair agrees. *)
Theorem proposal_select_agrees configured supplied flags
  (Hc : Forall typed configured) (Hs : Forall typed supplied) :
  let ps := ordered_first configured supplied flags in
  let qs := ordered_second configured supplied flags in
  match proposal_select configured supplied flags with
  | Some s => exists i j p q, ps !! i = Some p /\ qs !! j = Some q /\ selected_from p q flags s
                              /\ none_before flags ps qs i j
  | None => forall p q, p ∈ ps -> q ∈ qs -> no_agreement flags p q
  end.
Proof.
  unfold proposal_select, ordered_first, ordered_second.
  destruct (has_flag flags PROPOSAL_PREFER_SUPPLIED); by apply select_lists_spec.
Qed.

(** * What was configured is kept *)

(** The keywords name no algorithm by zero that has to be there. *)
Definition names_algorithms (get_token : string -> option proposal_token_t) : Prop :=
  forall name token, get_token name = Some token ->
    token_type token ∈ [ENCRYPTION_ALGORITHM; PSEUDO_RANDOM_FUNCTION; INTEGRITY_ALGORITHM] ->
    token_algorithm token <> 0.

Definition nonzero (this : proposal_t) : Prop :=
  forall t a, a ∈ create_enumerator this t ->
    t ∈ [ENCRYPTION_ALGORITHM; PSEUDO_RANDOM_FUNCTION; INTEGRITY_ALGORITHM] -> fst a <> 0.

(** What [check_proposal] sees to for IKE. *)
Record ike_configured (this : proposal_t) : Prop := {
  ike_typed : typed this;
  ike_protocol : protocol this = PROTO_IKE;
  ike_nonzero : nonzero this;
  ike_encryption : create_enumerator this ENCRYPTION_ALGORITHM <> [];
  ike_prf : create_enumerator this PSEUDO_RANDOM_FUNCTION <> [];
  ike_group : create_enumerator this DIFFIE_HELLMAN_GROUP <> []
              /\ Forall (fun a => fst a <> 0) (create_enumerator this DIFFIE_HELLMAN_GROUP);
  ike_integrity :
    Forall (fun a => encryption_algorithm_is_aead (fst a) = true)
      (create_enumerator this ENCRYPTION_ALGORITHM)
    \/ create_enumerator this INTEGRITY_ALGORITHM <> []
       /\ Forall (fun a => encryption_algorithm_is_aead (fst a) = false)
            (create_enumerator this ENCRYPTION_ALGORITHM);
}.

Lemma add_nonzero t a k this : nonzero this ->
  (t ∈ [ENCRYPTION_ALGORITHM; PSEUDO_RANDOM_FUNCTION; INTEGRITY_ALGORITHM] -> a <> 0) ->
  nonzero (add_algorithm t a k this).
Proof.
  intros H Ha u b. rewrite algs_added, elem_of_app. intros [Hb|Hb] Hu; [by apply (H u)|].
  destruct (t =? u) eqn:E; [|by apply elem_of_nil in Hb].
  apply Z.eqb_eq in E as ->. apply list_elem_of_singleton in Hb as ->. by apply Ha.
Qed.

Lemma tokens_added get_token algs : names_algorithms get_token -> forall failed this c,
  typed this -> nonzero this -> add_tokens get_token algs failed this = Some c ->
  typed c /\ nonzero c /\ protocol c = protocol this.
Proof.
  intros Hn. induction algs as [|name algs IH]; intros failed this c Ht Hz; cbn.
  { destruct failed; [done|]. by intros [= <-]. }
  unfold add_string_algo. destruct (get_token name) as [token|] eqn:G; [|done]. cbn.
  intros H. apply IH in H; [exact H|by apply add_algorithm_typed|].
  apply add_nonzero; [done|]. intros Hu. by apply (Hn name).
Qed.

Lemma prfs_added this : typed this ->
  typed (add_prfs this) /\ protocol (add_prfs this) = protocol this
  /\ (nonzero this -> nonzero (add_prfs this)).
Proof.
  unfold add_prfs. generalize (create_enumerator this INTEGRITY_ALGORITHM) as l. intros l. revert this.
  induction l as [|a l IH]; intros this Ht; [done|]. cbn [fold_left].
  destruct (List.find _ _) as [[i prf]|] eqn:F; [|by apply IH].
  destruct (IH (add_algorithm PSEUDO_RANDOM_FUNCTION prf 0 this)) as (T & P & Z);
    [by apply add_algorithm_typed|].
  split; [done|]. split; [done|]. intros Hz. apply Z, add_nonzero; [done|]. intros _ ->.
  apply find_some in F as [F _]. vm_compute in F. by destruct_or! F.
Qed.

Lemma filter_none {A} (f g : A -> bool) l : (forall x, g x = true -> f x = false) ->
  List.filter f (List.filter g l) = [].
Proof.
  intros H. induction l as [|x l IH]; cbn; [done|]. destruct (g x) eqn:G; [|done]. cbn.
  by rewrite H.
Qed.
Lemma filter_all {A} (f g : A -> bool) l : (forall x, g x = true -> f x = true) ->
  List.filter f (List.filter g l) = List.filter g l.
Proof.
  intros H. induction l as [|x l IH]; cbn; [done|]. destruct (g x) eqn:G; [|done]. cbn.
  by rewrite H, IH.
Qed.

(** Algorithms after entries were removed. *)
Lemma algs_filtered f this t :
  create_enumerator (with_transforms (List.filter f (transforms this)) this) t
  = (fun e => (entry_alg e, entry_key_size e))
      <$> List.filter f (List.filter (alg_filter t) (transforms this)).
Proof.
  unfold create_enumerator; cbn. f_equal. induction (transforms this) as [|e es IH]; cbn; [done|].
  destruct (f e) eqn:F, (alg_filter t e) eqn:G; cbn; rewrite ?F, ?G, IH; done.
Qed.

Lemma algs_removed t this u : type_set (types this) ->
  create_enumerator (remove_transform t this) u
  = if u =? t then [] else create_enumerator this u.
Proof.
  intros S. unfold remove_transform. set (this' := with_transforms _ this).
  destruct (remove_type_spec t this' S) as (_ & _ & Tr & _).
  unfold create_enumerator at 1. rewrite Tr.
  change (create_enumerator this' u = if u =? t then [] else create_enumerator this u).
  subst this'. rewrite algs_filtered. destruct (u =? t) eqn:E.
  - apply Z.eqb_eq in E as ->. by rewrite filter_none by (intros e ->%Z.eqb_eq; by rewrite Z.eqb_refl).
  - apply Z.eqb_neq in E. rewrite filter_all; [done|]. intros e ->%Z.eqb_eq.
    by apply negb_true_iff, Z.eqb_neq.
Qed.

Lemma nonzero_kept this this' : nonzero this ->
  (forall t, incl (create_enumerator this' t) (create_enumerator this t)) -> nonzero this'.
Proof.
  intros H I t a Ha Ht. apply (H t); [|done]. apply list_elem_of_In, I, list_elem_of_In, Ha.
Qed.

Lemma prfs_ensured this : typed this ->
  let this' := if lacks this PSEUDO_RANDOM_FUNCTION then add_prfs this else this in
  typed this' /\ protocol this' = protocol this /\ (nonzero this -> nonzero this').
Proof. intros. cbn. destruct (lacks _ _); [by apply prfs_added|done]. Qed.

Definition not_none (e : entry_t) : bool :=
  negb ((entry_type e =? DIFFIE_HELLMAN_GROUP) && (entry_alg e =? 0)).

(** A group that is not none keeps the type, so the set of types stays right. *)
Lemma none_removed this : typed this ->
  let this' := with_transforms (List.filter not_none (transforms this)) this in
  lacks this' DIFFIE_HELLMAN_GROUP = false ->
  typed this' /\ (forall t, t <> DIFFIE_HELLMAN_GROUP ->
                    create_enumerator this' t = create_enumerator this t)
  /\ Forall (fun a => fst a <> 0) (create_enumerator this' DIFFIE_HELLMAN_GROUP)
  /\ incl (create_enumerator this' DIFFIE_HELLMAN_GROUP) (create_enumerator this DIFFIE_HELLMAN_GROUP).
Proof.
  intros Ht this' Hl. apply lacks_type in Hl as (e0 & H0 & T0). subst this'. cbn in H0.
  split; [|split; [|split]].
  - apply filter_typed; [done|]. intros e He. destruct (not_none e) eqn:N; [by exists e|].
    exists e0. apply elem_of_filter_bool in H0 as [H0 N0]. split; [done|]. split; [done|].
    unfold not_none in N. apply negb_false_iff, andb_true_iff in N as [N _].
    apply Z.eqb_eq in N. congruence.
  - intros t Hn. rewrite algs_filtered, filter_all; [done|]. intros e He%Z.eqb_eq. unfold not_none.
    apply Z.eqb_neq in Hn. by rewrite He, Hn.
  - apply Forall_forall. intros a Ha. rewrite algs_filtered in Ha.
    apply list_elem_of_fmap in Ha as (e & -> & He). cbn.
    apply elem_of_filter_bool in He as [He N]. apply elem_of_filter_bool in He as [_ He].
    apply Z.eqb_eq in He. unfold not_none in N. rewrite He in N. cbn in N.
    by apply negb_true_iff, Z.eqb_neq in N.
  - rewrite algs_filtered. intros a Ha. apply list_elem_of_In, list_elem_of_fmap in Ha as (e & -> & He).
    apply elem_of_filter_bool in He as [He _]. apply list_elem_of_In, list_elem_of_fmap. by exists e.
Qed.

(** What holds of the algorithms of all encryption entries. *)
Lemma all_encryption this b :
  forallb (fun a => Bool.eqb (encryption_algorithm_is_aead a) b)
    (fst <$> create_enumerator this ENCRYPTION_ALGORITHM) = true ->
  Forall (fun a => encryption_algorithm_is_aead (fst a) = b)
    (create_enumerator this ENCRYPTION_ALGORITHM).
Proof.
  intros H. rewrite forallb_forall in H. apply Forall_forall. intros a Ha.
  apply eqb_prop, H, list_elem_of_In, list_elem_of_fmap. by exists a.
Qed.

Lemma remove_transform_kept t this : typed this ->
  typed (remove_transform t this) /\ protocol (remove_transform t this) = protocol this
  /\ forall u, create_enumerator (remove_transform t this) u
               = if u =? t then [] else create_enumerator this u.
Proof.
  intros H. split; [by apply remove_transform_typed|]. split.
  - apply (remove_type_spec t (with_transforms _ this)). apply H.
  - intros u. apply algs_removed, H.
Qed.

Lemma encryption_checked this this' : typed this -> check_encryption this = Some this' ->
  typed this' /\ protocol this' = protocol this
  /\ (forall t, create_enumerator this' t = create_enumerator this t
                \/ t = INTEGRITY_ALGORITHM /\ create_enumerator this' t = [])
  /\ create_enumerator this' ENCRYPTION_ALGORITHM <> []
  /\ (Forall (fun a => encryption_algorithm_is_aead (fst a) = true)
        (create_enumerator this' ENCRYPTION_ALGORITHM)
      \/ (protocol this = PROTO_IKE -> create_enumerator this' INTEGRITY_ALGORITHM <> [])
         /\ Forall (fun a => encryption_algorithm_is_aead (fst a) = false)
              (create_enumerator this' ENCRYPTION_ALGORITHM)).
Proof.
  intros Ht. unfold check_encryption. pose proof (all_encryption this) as A.
  set (algs := fst <$> create_enumerator this ENCRYPTION_ALGORITHM) in *.
  assert (algs <> [] -> create_enumerator this ENCRYPTION_ALGORITHM <> []) as N.
  { intros H E. apply H. subst algs. by rewrite E. }
  destruct (match algs with [] => false | _ => true end) eqn:E; [|done]. cbn [negb].
  assert (algs <> []) as NA by (by destruct algs). apply N in NA. clear N E.
  destruct (forallb encryption_algorithm_is_aead algs) eqn:All; cbn [negb];
    [rewrite andb_false_r|rewrite andb_true_r].
  - intros [= <-]. destruct (remove_transform_kept INTEGRITY_ALGORITHM this Ht) as (T & P & G).
    split; [done|]. split; [done|]. split; [|split].
    + intros t. rewrite G. destruct (t =? INTEGRITY_ALGORITHM) eqn:F; [|by left].
      apply Z.eqb_eq in F. by right.
    + by rewrite G.
    + left. rewrite G. apply A. rewrite forallb_forall in All |- *. intros a Ha. by rewrite All.
  - destruct (existsb encryption_algorithm_is_aead algs) eqn:Mixed; [done|].
    assert (forallb (fun a => Bool.eqb (encryption_algorithm_is_aead a) false) algs = true) as Pure.
    { rewrite forallb_forall. intros a Ha.
      destruct (encryption_algorithm_is_aead a) eqn:F; [|done].
      assert (existsb encryption_algorithm_is_aead algs = true) by (apply existsb_exists; eauto).
      congruence. }
    destruct (_ && _) eqn:Missing; [done|]. intros [= <-].
    split; [done|]. split; [done|]. split; [by left|]. split; [done|]. right.
    split; [|by apply A]. intros Hp. rewrite Hp in Missing. cbn in Missing.
    by apply has_type_algs, lacks_type.
Qed.

Lemma check_ike_kept this this2 : typed this -> check_ike this = Some this2 ->
  typed this2 /\ protocol this2 = protocol this /\ (nonzero this -> nonzero this2)
  /\ create_enumerator this2 PSEUDO_RANDOM_FUNCTION <> []
  /\ create_enumerator this2 DIFFIE_HELLMAN_GROUP <> []
  /\ Forall (fun a => fst a <> 0) (create_enumerator this2 DIFFIE_HELLMAN_GROUP).
Proof.
  intros Ht. unfold check_ike. destruct (prfs_ensured this Ht) as (T1 & P1 & Z1).
  set (this1 := if lacks this PSEUDO_RANDOM_FUNCTION then _ else _) in *. clearbody this1.
  destruct (lacks this1 PSEUDO_RANDOM_FUNCTION) eqn:L1; [done|].
  set (this' := with_transforms _ this1).
  destruct (lacks this' DIFFIE_HELLMAN_GROUP) eqn:L2; [done|]. intros [= <-].
  destruct (none_removed this1 T1 L2) as (T2 & A2 & N2 & I2).
  change (with_transforms (List.filter not_none (transforms this1)) this1) with this' in *.
  split; [done|]. split; [done|]. split; [|split; [|split; [|done]]].
  - intros Hz. apply (nonzero_kept this1); [by apply Z1|]. intros t.
    destruct (decide (t = DIFFIE_HELLMAN_GROUP)) as [->|Hn]; [done|]. rewrite A2 by done.
    apply incl_refl.
  - rewrite A2 by done. by apply has_type_algs, lacks_type.
  - by apply has_type_algs, lacks_type.
Qed.

Lemma ike_checked this this' : typed this -> nonzero this -> protocol this = PROTO_IKE ->
  check_proposal this = Some this' -> ike_configured this'.
Proof.
  intros Ht Hz Hp. unfold check_proposal. rewrite Hp. cbn [Z.eqb Pos.eqb PROTO_IKE orb].
  destruct (check_ike this) as [this2|] eqn:K; [|done].
  destruct (check_ike_kept this this2 Ht K) as (T2 & P2 & Z2 & F2 & G2 & N2). specialize (Z2 Hz).
  rewrite Hp in P2. clear K. cbn [mbind option_bind]. rewrite P2. cbn [Z.eqb Pos.eqb PROTO_IKE orb].
  destruct (check_encryption this2) as [this3|] eqn:C; [|done].
  destruct (encryption_checked this2 this3 T2 C) as (T3 & P3 & A3 & E3 & I3).
  cbn [mbind option_bind]. rewrite P3, P2. cbn [Z.eqb Pos.eqb PROTO_AH PROTO_ESP PROTO_IKE orb andb].
  intros [= <-].
  assert (forall t, t <> INTEGRITY_ALGORITHM ->
    create_enumerator this3 t = create_enumerator this2 t) as A3'.
  { intros t Hn. by destruct (A3 t) as [|[? _]]. }
  split; [done|congruence| |done|by rewrite A3'|by rewrite A3'|].
  - apply (nonzero_kept this2); [done|]. intros t.
    destruct (A3 t) as [->|[_ ->]]; [apply incl_refl|apply incl_nil_l].
  - destruct I3 as [I3|[I3 N3]]; [by left|right]. split; [by apply I3|done].
Qed.

Lemma ike_from_string get_token algs c : names_algorithms get_token ->
  proposal_create_from_string get_token PROTO_IKE algs = Some c -> ike_configured c.
Proof.
  intros Hn. unfold proposal_create_from_string.
  destruct (add_tokens _ _ _ _) as [this|] eqn:A; [|done]. intros C.
  assert (nonzero (proposal_create PROTO_IKE 0)) as Z0.
  { intros t a H. by apply elem_of_nil in H. }
  destruct (tokens_added get_token algs Hn true _ this (proposal_create_typed PROTO_IKE 0 0) Z0 A)
    as (T & N & P).
  by apply (ike_checked this).
Qed.

(** An algorithm that one side has to have is agreed on. *)
Lemma agreed_both this other flags encryption t l : agreed this other flags encryption t l ->
  forall a, a ∈ l -> a ∈ create_enumerator this t /\ a ∈ create_enumerator other t.
Proof.
  destruct 1 as [| | |b _ (before & after & E & [H _] & _)]; intros a Ha;
    try (by apply elem_of_nil in Ha).
  assert (a = b) as ->.
  { unfold effective in Ha. case_match; [by apply elem_of_nil in Ha|].
    by apply list_elem_of_singleton in Ha. }
  split; [|done]. rewrite E. set_solver.
Qed.

Lemma agreed_required this other flags encryption t l : agreed this other flags encryption t l ->
  ~ left_out flags encryption t -> ~ (t = DIFFIE_HELLMAN_GROUP /\ group_optional this) ->
  occurs this other t ->
  (forall a, a ∈ create_enumerator this t -> a ∈ create_enumerator other t ->
     fst a <> 0 \/ t = EXTENDED_SEQUENCE_NUMBERS) ->
  exists a, l = [a].
Proof.
  intros H NL NG Ho Hz. destruct H as [E1 E2| |_ -> [W _]|a _ P]; [destruct Ho; done|done|tauto|].
  destruct P as (before & after & E & [H _] & _).
  destruct (Hz a) as [Ha|Ha]; [rewrite E; set_solver|done| |]; exists a; unfold effective.
  - apply Z.eqb_neq in Ha. by rewrite Ha.
  - subst t. by rewrite andb_false_r.
Qed.

(** What IKE needs: algorithms of the configured proposal that the peer has as well. *)
Record protects (c q s : proposal_t) : Prop := {
  protects_both : forall t a, a ∈ create_enumerator s t ->
    a ∈ create_enumerator c t /\ a ∈ create_enumerator q t;
  protects_encryption : exists e, create_enumerator s ENCRYPTION_ALGORITHM = [e]
    /\ (encryption_algorithm_is_aead (fst e) = true
        \/ exists i, create_enumerator s INTEGRITY_ALGORITHM = [i]);
  protects_prf : exists f, create_enumerator s PSEUDO_RANDOM_FUNCTION = [f];
  protects_group : exists g, create_enumerator s DIFFIE_HELLMAN_GROUP = [g] /\ fst g <> 0;
}.

Lemma agreement_protects c q s this other flags : ike_configured c ->
  has_flag flags PROPOSAL_SKIP_DH = false ->
  (this = c /\ other = q \/ this = q /\ other = c) ->
  selected_from this other flags s -> protects c q s.
Proof.
  intros [Tc Pc Zc Ec Fc [Gc Gz] Ic] Hd Hw [[P A] _ _ _ _].
  assert (protocol this = PROTO_IKE) as Pt by (destruct_and?; destruct Hw as [[-> ->]|[-> ->]]; congruence).
  assert (forall t a, a ∈ create_enumerator s t ->
    a ∈ create_enumerator c t /\ a ∈ create_enumerator q t) as Both.
  { intros t a Ha. pose proof (agreed_both _ _ _ _ _ _ (A t) a Ha).
    destruct Hw as [[-> ->]|[-> ->]]; tauto. }
  assert (forall t, create_enumerator c t <> [] -> occurs this other t) as Occ.
  { intros t Ht. unfold occurs. destruct Hw as [[-> ->]|[-> ->]]; tauto. }
  assert (forall t, t ∈ [ENCRYPTION_ALGORITHM; PSEUDO_RANDOM_FUNCTION; INTEGRITY_ALGORITHM] ->
    create_enumerator c t <> [] -> ~ left_out flags (create_enumerator s ENCRYPTION_ALGORITHM) t ->
    exists a, create_enumerator s t = [a]) as Req.
  { intros t Ht Hne HL. apply (agreed_required _ _ _ _ _ _ (A t) HL); [|by apply Occ|].
    - intros [-> _]. rewrite !elem_of_cons, elem_of_nil in Ht. by destruct_or! Ht.
    - intros a H1 H2. left. apply (Zc t); [|done]. by destruct Hw as [[-> ->]|[-> ->]]. }
  assert (forall e t, t <> INTEGRITY_ALGORITHM -> ~ left_out flags e t) as NL.
  { intros e t Hn [[_ H]|[H _]]; congruence. }
  destruct (Req ENCRYPTION_ALGORITHM) as [e He]; [by left|done|by apply NL|].
  split; [done| |apply Req; [by right; left|done|by apply NL]|].
  - exists e. split; [done|]. destruct (encryption_algorithm_is_aead (fst e)) eqn:Ae; [by left|right].
    assert (e ∈ create_enumerator c ENCRYPTION_ALGORITHM) as Hec by (apply Both; rewrite He; by left).
    destruct Ic as [Ic|[Ic _]]; [rewrite Forall_forall in Ic; apply Ic in Hec; congruence|].
    apply Req; [set_solver|done|]. rewrite He. intros [[H _]|[_ (x & Hx%list_elem_of_singleton & Hy)]];
      [done|congruence].
  - destruct (agreed_required _ _ _ _ _ _ (A DIFFIE_HELLMAN_GROUP)) as [g Hg].
    + by apply NL.
    + intros [_ [H|H]]; rewrite Pt in H; done.
    + by apply Occ.
    + intros a H1 H2. left. rewrite Forall_forall in Gz. apply Gz.
      by destruct Hw as [[-> ->]|[-> ->]].
    + exists g. split; [done|]. rewrite Forall_forall in Gz. apply Gz, Both. rewrite Hg. by left.
Qed.

(** Whatever a peer proposes for an IKE_SA, what is selected of proposals that were
    configured by keywords has one algorithm for encryption, one pseudo random function and
    one group, that are all in one of the configured and one of the peer's proposals, and one
    for integrity unless encryption provides it: a peer cannot have protection left out. *)
Theorem ike_selection_protects get_token configured supplied flags s
  (Hn : names_algorithms get_token)
  (Hc : Forall (fun c => exists algs,
          proposal_create_from_string get_token PROTO_IKE algs = Some c) configured)
  (Hs : Forall typed supplied) (Hd : has_flag flags PROPOSAL_SKIP_DH = false) :
  proposal_select configured supplied flags = Some s ->
  exists c q, c ∈ configured /\ q ∈ supplied /\ protects c q s.
Proof.
  assert (Forall ike_configured configured) as Hi.
  { apply (Forall_impl _ _ _ Hc). intros c [algs H]. by apply (ike_from_string get_token algs). }
  assert (Forall typed configured) as Ht by (apply (Forall_impl _ _ _ Hi); by intros c []).
  unfold proposal_select. intros H. rewrite Forall_forall in Hi.
  destruct (has_flag flags PROPOSAL_PREFER_SUPPLIED).
  - pose proof (select_lists_spec flags _ _ Hs Ht) as L. rewrite H in L.
    destruct L as (i & j & p & q & L1%list_elem_of_lookup_2 & L2%list_elem_of_lookup_2 & S1 & _).
    exists q, p. do 2 (split; [done|]). apply (agreement_protects q p s p q flags); auto.
  - pose proof (select_lists_spec flags _ _ Ht Hs) as L. rewrite H in L.
    destruct L as (i & j & p & q & L1%list_elem_of_lookup_2 & L2%list_elem_of_lookup_2 & S1 & _).
    exists p, q. do 2 (split; [done|]). apply (agreement_protects p q s p q flags); auto.
Qed.

(** * The types are kept *)

(** AES-GMAC is to become the integrity algorithm and there is no other. *)
Definition forgets_integrity (this : proposal_t) : bool :=
  negb ((protocol this =? PROTO_IKE) || (protocol this =? PROTO_ESP))
  && existsb (fun e => (entry_type e =? ENCRYPTION_ALGORITHM)
                       && match map_gmac e with [] => false | _ => true end) (transforms this)
  && lacks this INTEGRITY_ALGORITHM.

Lemma map_gmac_types this e : e ∈ flat_map map_gmac (transforms this) ->
  exists e', e' ∈ transforms this /\
    (e' = e /\ entry_type e <> ENCRYPTION_ALGORITHM
     \/ entry_type e = INTEGRITY_ALGORITHM /\ entry_type e' = ENCRYPTION_ALGORITHM
        /\ map_gmac e' <> []).
Proof.
  intros H. apply list_elem_of_In, in_flat_map in H as (e' & He' & Hm).
  exists e'. split; [by apply list_elem_of_In|].
  pose proof Hm as Hm'. unfold map_gmac in Hm'.
  destruct (entry_type e' =? ENCRYPTION_ALGORITHM) eqn:E.
  - right. apply Z.eqb_eq in E. split; [|split; [done|by intros H; rewrite H in Hm]].
    revert Hm'. repeat case_match; cbn; try done; by intros [<-|[]].
  - left. destruct Hm' as [<-|[]]. apply Z.eqb_neq in E. done.
Qed.

Lemma integrity_checked this this' : typed this ->
  (existsb (fun e => (entry_type e =? ENCRYPTION_ALGORITHM)
                     && match map_gmac e with [] => false | _ => true end) (transforms this) = true ->
   lacks this INTEGRITY_ALGORITHM = false) ->
  check_integrity this = Some this' -> typed this'.
Proof.
  intros [S T] Hg. unfold check_integrity. set (this1 := with_transforms _ this).
  destruct (remove_type_spec ENCRYPTION_ALGORITHM this1 S) as (S' & E & Tr & _).
  destruct (lacks (remove_type ENCRYPTION_ALGORITHM this1) _); [done|]. intros [= <-].
  split; [done|]. intros t.
  rewrite E. change (types this1) with (types this). rewrite T. unfold has_type. rewrite Tr.
  change (transforms this1) with (flat_map map_gmac (transforms this)). split.
  - intros [(e & He & Ht) Hn]. exists e. split; [|done]. apply list_elem_of_In, in_flat_map.
    exists e. split; [by apply list_elem_of_In|]. unfold map_gmac. apply Z.eqb_neq in Hn.
    rewrite Ht, Hn. by left.
  - intros (e & (e' & He' & [[-> Hn]|(Hi & He & Hm)])%map_gmac_types & <-); [by eauto|].
    split; [|by rewrite Hi]. rewrite Hi. apply lacks_type, Hg, existsb_exists. exists e'.
    split; [by apply list_elem_of_In|]. rewrite He. cbn. by destruct (map_gmac e').
Qed.

Lemma check_proposal_typed this this' : typed this -> forgets_integrity this = false ->
  check_proposal this = Some this' -> typed this'.
Proof.
  intros Ht. unfold forgets_integrity, check_proposal.
  assert (typed (remove_transform PSEUDO_RANDOM_FUNCTION this)
    /\ protocol (remove_transform PSEUDO_RANDOM_FUNCTION this) = protocol this
    /\ forall u, create_enumerator (remove_transform PSEUDO_RANDOM_FUNCTION this) u
                 = if u =? PSEUDO_RANDOM_FUNCTION then [] else create_enumerator this u)
    as (T1 & P1 & A1) by (by apply remove_transform_kept).
  assert (forall c, typed c -> typed (if ((protocol c =? PROTO_AH) || (protocol c =? PROTO_ESP))
      && lacks c EXTENDED_SEQUENCE_NUMBERS
    then add_algorithm EXTENDED_SEQUENCE_NUMBERS NO_EXT_SEQ_NUMBERS 0 c else c)) as Last.
  { intros c Hc. case_match; [by apply add_algorithm_typed|done]. }
  destruct (protocol this =? PROTO_IKE) eqn:PI; cbn [orb negb].
  - intros _. destruct (check_ike this) as [c|] eqn:C; [|done].
    destruct (check_ike_kept this c Ht C) as (T & P & _). cbn [mbind option_bind].
    rewrite P, PI. cbn [orb]. destruct (check_encryption c) as [d|] eqn:D; [|done].
    intros [= <-]. apply Last. by apply (encryption_checked c d).
  - cbn [mbind option_bind]. rewrite P1, PI. cbn [orb].
    destruct (protocol this =? PROTO_ESP) eqn:PE; cbn [negb].
    + intros _. destruct (check_encryption _) as [d|] eqn:D; [|done]. intros [= <-]. apply Last.
      by apply (encryption_checked _ d T1).
    + destruct (check_integrity _) as [d|] eqn:D; [|done]. intros Hg [= <-]. apply Last.
      apply (integrity_checked _ d T1); [|done]. intros X.
      cbn [andb] in Hg.
      assert (lacks (remove_transform PSEUDO_RANDOM_FUNCTION this) INTEGRITY_ALGORITHM
              = lacks this INTEGRITY_ALGORITHM) as -> by (unfold lacks, get_algorithm; by rewrite A1).
      destruct (lacks this INTEGRITY_ALGORITHM); [|done]. rewrite andb_true_r in Hg.
      rewrite <- Hg. symmetry. apply existsb_exists in X as (e & He & X). apply existsb_exists.
      exists e. split; [|done]. apply list_elem_of_In in He. apply list_elem_of_In.
      unfold remove_transform in He.
      destruct (remove_type_spec PSEUDO_RANDOM_FUNCTION (with_transforms
        (List.filter (fun e => negb (entry_type e =? PSEUDO_RANDOM_FUNCTION)) (transforms this)) this)
        (typed_set _ Ht)) as (_ & _ & Tr & _).
      rewrite Tr in He. by apply elem_of_filter_bool in He as [He _].
Qed.

(** The proposals that the operations make from one another. *)
Inductive made : proposal_t -> Prop :=
  | made_create p n v : made (proposal_create_v1 p n v)
  | made_add t a k this : made this -> made (add_algorithm t a k this)
  | made_spi s this : made this -> made (set_spi s this)
  | made_promoted g this : made this -> made (snd (promote_dh_group g this))
  | made_clone flags this : made this -> made (clone_ this flags)
  | made_selected flags this other s : made this -> made other ->
      select_proposal this other flags = Some s -> made s
  | made_checked this this' : made this -> forgets_integrity this = false ->
      check_proposal this = Some this' -> made this'.

(** In every proposal that is made from others by the operations of proposal.c the array
    of types is sorted, without duplicates, and holds exactly the types of the transforms, so
    that the binary search finds them and no type is passed over in a selection; except for
    proposals in which AES-GMAC is to become the only integrity algorithm. *)
Theorem types_kept this : made this ->
  StronglySorted type_le (types this) /\ NoDup (types this)
  /\ forall t, t ∈ types this <-> exists e, e ∈ transforms this /\ entry_type e = t.
Proof.
  intros H. assert (typed this) as [[S N] T]; [|done]. induction H.
  - apply proposal_create_typed.
  - by apply add_algorithm_typed.
  - by apply set_spi_typed.
  - by apply promote_dh_group_typed.
  - apply clone_typed.
  - pose proof (select_agreement this other flags IHmade1 IHmade2) as A. rewrite H1 in A. apply A.
  - by apply (check_proposal_typed this).
Qed.

(** * Where this fails *)

Definition gmac_proposal (size : Z) : option proposal_t :=
  check_proposal (add_algorithm ENCRYPTION_ALGORITHM ENCR_NULL_AUTH_AES_GMAC size
                    (proposal_create PROTO_AH 0)).

(** An AH proposal whose only integrity algorithm is AES-GMAC, as the keywords of
    AES-GMAC are turned into it, lacks the type: proposals with different key sizes count as
    equal and match, and against a peer's proposal without any integrity algorithm one is
    selected that has none. *)
Theorem gmac_forgets_integrity size size' s n :
  size ∈ [128; 192; 256] -> size' ∈ [128; 192; 256] ->
  exists p p' selected,
    gmac_proposal size = Some p /\ gmac_proposal size' = Some p' /\
    create_enumerator p INTEGRITY_ALGORITHM <> [] /\ INTEGRITY_ALGORITHM ∉ types p /\
    equals p p' = true /\ matches p p' 0 = true /\
    select_proposal p (set_spi s (add_algorithm EXTENDED_SEQUENCE_NUMBERS NO_EXT_SEQ_NUMBERS 0
                                    (proposal_create PROTO_AH n))) 0 = Some selected /\
    create_enumerator selected INTEGRITY_ALGORITHM = [].
Proof.
  assert (forall z, z ∈ [128; 192; 256] -> z = 128 \/ z = 192 \/ z = 256) as H by set_solver.
  intros H1 H2. destruct (H _ H1) as [E1|[E1|E1] ], (H _ H2) as [E2|[E2|E2] ]; subst; do 3 eexists;
    (do 2 (split; [vm_compute; reflexivity|]));
    (split; [done|]); (split; [apply (bool_decide_unpack _); vm_compute; exact I|]);
    (do 3 (split; [vm_compute; reflexivity|])); reflexivity.
Qed.

(** The default ESP proposal with AEAD algorithms does not match any proposal that has
    a transform for extended sequence numbers, in either role and with any flags. *)
Theorem default_aead_never_matches lib_crypto p q flags :
  proposal_create_default_aead lib_crypto PROTO_ESP = Some p -> typed q ->
  create_enumerator q EXTENDED_SEQUENCE_NUMBERS <> [] ->
  select_proposal p q flags = None /\ select_proposal q p flags = None.
Proof.
  unfold proposal_create_default_aead. cbn [Z.eqb Pos.eqb PROTO_ESP PROTO_IKE].
  intros [= <-] Hq Hn. set (p := add_algorithm _ _ _ _).
  assert (typed p) as Hp by (do 3 apply add_algorithm_typed; apply proposal_create_typed).
  assert (create_enumerator p EXTENDED_SEQUENCE_NUMBERS = []) as E by done. clearbody p.
  assert (forall this other enc l, occurs this other EXTENDED_SEQUENCE_NUMBERS ->
    (create_enumerator this EXTENDED_SEQUENCE_NUMBERS = []
     \/ create_enumerator other EXTENDED_SEQUENCE_NUMBERS = []) ->
    ~ agreed this other flags enc EXTENDED_SEQUENCE_NUMBERS l) as No.
  { intros this other enc l Ho He. destruct 1 as [E1 E2|[[H _]|[H _]]|_ H _|a _ P]; try done.
    - by destruct Ho.
    - destruct P as (before & after & F & [G _] & _). destruct He as [He|He].
      + rewrite He in F. by destruct before.
      + rewrite He in G. by apply elem_of_nil in G. }
  split.
  - pose proof (select_agreement p q flags Hp Hq) as A. destruct (select_proposal p q flags) as [s|];
      [|done]. destruct A as [[[_ A] _ _ _ _] _].
    by destruct (No p q _ _ (or_intror Hn) (or_introl E) (A EXTENDED_SEQUENCE_NUMBERS)).
  - pose proof (select_agreement q p flags Hq Hp) as A. destruct (select_proposal q p flags) as [s|];
      [|done]. destruct A as [[[_ A] _ _ _ _] _].
    by destruct (No q p _ _ (or_introl Hn) (or_intror E) (A EXTENDED_SEQUENCE_NUMBERS)).
Qed.

(** Proposals are equal if they have the same algorithms in the same order for each type. *)
Lemma algs_equal_spec e1 : forall e2, algs_equal e1 e2 = true <-> e1 = e2.
Proof.
  induction e1 as [|[x k] e1 IH]; intros [|[y j] e2]; cbn; try done.
  destruct (negb (x =? y) || negb (k =? j)) eqn:E.
  - split; [done|]. intros H. injection H as -> -> _. by rewrite !Z.eqb_refl in E.
  - apply orb_false_iff in E as [E1%negb_false_iff%Z.eqb_eq E2%negb_false_iff%Z.eqb_eq]. subst.
    rewrite IH. split; [by intros ->|by intros [=]].
Qed.

Lemma equals_spec this other : typed this -> typed other ->
  equals this other = true <->
  forall t, create_enumerator this t = create_enumerator other t.
Proof.
  intros H1 H2. unfold equals. rewrite forallb_forall. unfold algo_list_equals.
  setoid_rewrite algs_equal_spec. setoid_rewrite <- list_elem_of_In. split; [|auto].
  intros H t. destruct (decide (t ∈ merge_types this other)) as [M|M]; [by apply H|].
  rewrite <- (occurs_types this other H1 H2) in M. unfold occurs in M.
  destruct (create_enumerator this t), (create_enumerator other t); naive_solver.
Qed.

(** * Examples *)

Definition ike_proposal (number : Z) (algs : list (Z * Z * Z)) : proposal_t :=
  fold_left (fun this a => add_algorithm a.1.1 a.1.2 a.2 this) algs (proposal_create PROTO_IKE number).

Lemma ike_proposal_typed n algs : typed (ike_proposal n algs).
Proof.
  unfold ike_proposal. assert (typed (proposal_create PROTO_IKE n)) as H by apply proposal_create_typed.
  revert H. generalize (proposal_create PROTO_IKE n). induction algs as [|a algs IH]; intros p H; [done|].
  by apply IH, add_algorithm_typed.
Qed.

(** AES-GCM, or AES-CBC with HMAC; the peer only has the latter, with another preference. *)
Definition configured_combined : proposal_t :=
  ike_proposal 0 [(ENCRYPTION_ALGORITHM, ENCR_AES_GCM_ICV16, 256); (PSEUDO_RANDOM_FUNCTION, PRF_HMAC_SHA2_256, 0);
                  (DIFFIE_HELLMAN_GROUP, CURVE_25519, 0)].
Definition configured_classic : proposal_t :=
  ike_proposal 0 [(ENCRYPTION_ALGORITHM, ENCR_AES_CBC, 256); (ENCRYPTION_ALGORITHM, ENCR_AES_CBC, 128);
                  (INTEGRITY_ALGORITHM, AUTH_HMAC_SHA2_256_128, 0); (PSEUDO_RANDOM_FUNCTION, PRF_HMAC_SHA2_256, 0);
                  (DIFFIE_HELLMAN_GROUP, CURVE_25519, 0); (DIFFIE_HELLMAN_GROUP, MODP_3072_BIT, 0)].
Definition supplied_classic : proposal_t :=
  set_spi 9 (ike_proposal 1
    [(ENCRYPTION_ALGORITHM, ENCR_AES_CBC, 128); (ENCRYPTION_ALGORITHM, ENCR_AES_CBC, 256);
     (INTEGRITY_ALGORITHM, AUTH_HMAC_SHA1_96, 0); (INTEGRITY_ALGORITHM, AUTH_HMAC_SHA2_256_128, 0);
     (PSEUDO_RANDOM_FUNCTION, PRF_HMAC_SHA2_256, 0); (DIFFIE_HELLMAN_GROUP, MODP_3072_BIT, 0)]).

Lemma proposal_select_agrees_witness :
  exists s, proposal_select [configured_combined; configured_classic] [supplied_classic] 0 = Some s
  /\ (number s, spi s) = (1, 9)
  /\ create_enumerator s ENCRYPTION_ALGORITHM = [(ENCR_AES_CBC, 256)]
  /\ exists i j p q, [configured_combined; configured_classic] !! i = Some p /\ [supplied_classic] !! j = Some q
     /\ selected_from p q 0 s
     /\ none_before 0 [configured_combined; configured_classic] [supplied_classic] i j.
Proof.
  pose proof (proposal_select_agrees [configured_combined; configured_classic] [supplied_classic] 0) as H.
  destruct (proposal_select [configured_combined; configured_classic] [supplied_classic] 0) as [s|] eqn:E;
    [|vm_compute in E; discriminate E].
  exists s. split; [reflexivity|].
  split; [vm_compute in E; injection E as <-; vm_compute; reflexivity|].
  split; [vm_compute in E; injection E as <-; vm_compute; reflexivity|].
  apply H.
  - constructor; [apply ike_proposal_typed|]. constructor; [apply ike_proposal_typed|constructor].
  - constructor; [apply set_spi_typed, ike_proposal_typed|constructor].
Defined.

(** A small set of keywords, and a peer that offers no integrity algorithm first. *)
Definition example_token (name : string) : option proposal_token_t :=
  if String.eqb name "aes128" then Some (Token ENCRYPTION_ALGORITHM ENCR_AES_CBC 128)
  else if String.eqb name "sha256" then Some (Token INTEGRITY_ALGORITHM AUTH_HMAC_SHA2_256_128 0)
  else if String.eqb name "modp3072" then Some (Token DIFFIE_HELLMAN_GROUP MODP_3072_BIT 0)
  else None.
Definition example_configured : list proposal_t :=
  match proposal_create_from_string example_token PROTO_IKE ["aes128"; "sha256"; "modp3072"]%string with
  | Some c => [c]
  | None => []
  end.
Definition supplied_without_integrity : proposal_t :=
  ike_proposal 1 [(ENCRYPTION_ALGORITHM, ENCR_AES_CBC, 128); (PSEUDO_RANDOM_FUNCTION, PRF_HMAC_SHA2_256, 0);
                  (DIFFIE_HELLMAN_GROUP, MODP_3072_BIT, 0)].

Lemma ike_selection_protects_witness :
  select_proposal (hd supplied_classic example_configured) supplied_without_integrity 0 = None
  /\ exists s, proposal_select example_configured [supplied_without_integrity; supplied_classic] 0 = Some s
     /\ exists c q, c ∈ example_configured /\ q ∈ [supplied_without_integrity; supplied_classic] /\ protects c q s.
Proof.
  split; [vm_compute; reflexivity|].
  destruct (proposal_select example_configured [supplied_without_integrity; supplied_classic] 0) as [s|] eqn:E;
    [|vm_compute in E; discriminate E].
  exists s. split; [reflexivity|].
  apply (ike_selection_protects example_token example_configured [supplied_without_integrity; supplied_classic] 0).
  - intros name token. unfold example_token.
    repeat match goal with |- context [if ?b then _ else _] => destruct b end; intros G; try discriminate G;
      injection G as <-; intros _; cbn; discriminate.
  - constructor; [|constructor]. exists ["aes128"; "sha256"; "modp3072"]%string. vm_compute. reflexivity.
  - constructor; [apply ike_proposal_typed|]. constructor; [apply set_spi_typed, ike_proposal_typed|constructor].
  - reflexivity.
  - exact E.
Defined.
