(* ===== verification/Parser.v ===== *)
(** The parser of IKE messages: libcharon/encoding/parser.c. It walks the table of
    encoding rules of a payload. The input is a list of bytes with a position; a read
    outside of it is a result of its own, and so is a loop that ran out of fuel. *)

From Stdlib Require Import Strings.String.
From stdpp Require Import gmap strings.
From S2P Require Import Prelude TrafficSelector Payloads.
#[local] Open Scope Z_scope.

(** * Results *)

Inductive result (A : Type) :=
  | Ok (a : A)
  | Parse_error                 (** the parser returns PARSE_ERROR *)
  | Outside                     (** an access outside of the input, buffer or table *)
  | Exhausted.                  (** fuel ran out *)
Arguments Ok {A} a.
Arguments Parse_error {A}.
Arguments Outside {A}.
Arguments Exhausted {A}.

Definition bind {A B} (x : result A) (f : A -> result B) : result B :=
  match x with
  | Ok a => f a
  | Parse_error => Parse_error
  | Outside => Outside
  | Exhausted => Exhausted
  end.

Declare Scope codec_scope.
Delimit Scope codec_scope with codec.
#[global] Open Scope codec_scope.
Notation "'let*' x := e 'in' f" := (bind e (fun x => f))
  (at level 200, x name, e at level 100, f at level 200) : codec_scope.
Notation "'let*' ' p := e 'in' f" := (bind e (fun x => match x with p => f end))
  (at level 200, p pattern, e at level 100, f at level 200) : codec_scope.

(** * The parser *)

Record parser := Parser {
  major_version : Z;
  bit_pos : Z;
  byte_pos : Z;                    (** from the start of the input *)
  input : chunk;
  rules : list encoding_rule;      (** the table that was loaded last *)
}.

Definition set_pos (bit byte : Z) (this : parser) : parser :=
  Parser (major_version this) bit byte (input this) (rules this).
Definition set_rules (rs : list encoding_rule) (this : parser) : parser :=
  Parser (major_version this) (bit_pos this) (byte_pos this) (input this) rs.

Definition parser_create (data : chunk) : parser := Parser 0 0 0 data [].
Definition set_major_version (v : Z) (this : parser) : parser :=
  Parser v (bit_pos this) (byte_pos this) (input this) (rules this).
Definition reset_context (this : parser) : parser := set_pos 0 0 this.
Definition get_remaining_byte_count (this : parser) : Z := len (input this) - byte_pos this.

(** [byte_pos + n > input_roof] *)
Definition short (this : parser) (n : Z) : bool := byte_pos this + n >? len (input this).

(** Reading [n] bytes at [byte_pos]. *)
Definition read_bytes (this : parser) (n : Z) : result chunk :=
  if (byte_pos this <? 0) || (n <? 0) || (byte_pos this + n >? len (input this)) then Outside
  else Ok (take (Z.to_nat n) (drop (Z.to_nat (byte_pos this)) (input this))).

Definition read_uint (this : parser) (n : Z) : result Z :=
  let* c := read_bytes this n in Ok (be_val c).

Definition parse_uint4 (this : parser) : result (Z * parser) :=
  if short this 1 then Parse_error
  else if bit_pos this =? 0 then
    let* b := read_uint this 1 in
    Ok (Z.shiftr b 4, set_pos 4 (byte_pos this) this)
  else if bit_pos this =? 4 then
    let* b := read_uint this 1 in
    Ok (Z.land b 15, set_pos 0 (byte_pos this + 1) this)
  else Parse_error.

Definition parse_uint8 (this : parser) : result (Z * parser) :=
  if short this 1 then Parse_error
  else if negb (bit_pos this =? 0) then Parse_error
  else let* b := read_uint this 1 in Ok (b, set_pos (bit_pos this) (byte_pos this + 1) this).

Definition parse_uint15 (this : parser) : result (Z * parser) :=
  if short this 2 then Parse_error
  else if negb (bit_pos this =? 1) then Parse_error
  else let* v := read_uint this 2 in
       Ok (Z.land v (u16 (Z.lnot 32768)), set_pos 0 (byte_pos this + 2) this).

Definition parse_uint16 (this : parser) : result (Z * parser) :=
  if short this 2 then Parse_error
  else if negb (bit_pos this =? 0) then Parse_error
  else let* v := read_uint this 2 in Ok (v, set_pos (bit_pos this) (byte_pos this + 2) this).

Definition parse_uint32 (this : parser) : result (Z * parser) :=
  if short this 4 then Parse_error
  else if negb (bit_pos this =? 0) then Parse_error
  else let* v := read_uint this 4 in Ok (v, set_pos (bit_pos this) (byte_pos this + 4) this).

Definition parse_bytes (this : parser) (n : Z) : result (chunk * parser) :=
  if short this n then Parse_error
  else if negb (bit_pos this =? 0) then Parse_error
  else let* c := read_bytes this n in Ok (c, set_pos (bit_pos this) (byte_pos this + n) this).

Definition parse_bit (this : parser) : result (Z * parser) :=
  if short this 1 then Parse_error
  else
    let* b := read_uint this 1 in
    let mask := Z.shiftl 1 (7 - bit_pos this) in
    let bit := (bit_pos this + 1) mod 8 in
    Ok (if Z.land b mask =? 0 then 0 else 1,
        set_pos bit (if bit =? 0 then byte_pos this + 1 else byte_pos this) this).

Definition parse_chunk (this : parser) (length : Z) : result (chunk * parser) :=
  if short this length then Parse_error
  else if negb (bit_pos this =? 0) then Parse_error
  else let* c := read_bytes this length in
       Ok (c, set_pos (bit_pos this) (byte_pos this + length) this).

(** The local variables of [parse_payload] that one rule leaves to a later one. *)
Record locals := Locals {
  payload_length : Z;
  spi_size : Z;
  attribute_length : Z;
  ts_type : Z;
  attribute_format : Z;
}.

Definition no_locals : locals := Locals 0 0 0 0 0.
Definition with_payload_length (v : Z) (l : locals) : locals :=
  Locals v (spi_size l) (attribute_length l) (ts_type l) (attribute_format l).
Definition with_spi_size (v : Z) (l : locals) : locals :=
  Locals (payload_length l) v (attribute_length l) (ts_type l) (attribute_format l).
Definition with_attribute_length (v : Z) (l : locals) : locals :=
  Locals (payload_length l) (spi_size l) v (ts_type l) (attribute_format l).
Definition with_ts_type (v : Z) (l : locals) : locals :=
  Locals (payload_length l) (spi_size l) (attribute_length l) v (attribute_format l).
Definition with_attribute_format (v : Z) (l : locals) : locals :=
  Locals (payload_length l) (spi_size l) (attribute_length l) (ts_type l) v.

(** The lists the parser and the generator have a case for. *)
Definition is_list_type (t : Z) : bool :=
  (t =? PLV2_PROPOSAL_SUBSTRUCTURE) || (t =? PLV1_PROPOSAL_SUBSTRUCTURE)
  || (t =? PLV2_TRANSFORM_SUBSTRUCTURE) || (t =? PLV1_TRANSFORM_SUBSTRUCTURE)
  || (t =? PLV2_TRANSFORM_ATTRIBUTE) || (t =? PLV1_TRANSFORM_ATTRIBUTE)
  || (t =? PLV2_CONFIGURATION_ATTRIBUTE) || (t =? PLV1_CONFIGURATION_ATTRIBUTE)
  || (t =? PLV2_TRAFFIC_SELECTOR_SUBSTRUCTURE).

(** What the loop over the rules works on. *)
Definition parsing : Type := payload * locals * parser.

Section ParsePayload.

(** [parse_payload] one level deeper: a substructure of a type. *)
Variable parse_sub : Z -> parser -> result (payload * parser).

(** The while loop, and the check that the lengths add up. *)
Fixpoint parse_list_loop (fuel : nat) (t length : Z) (es : list payload) (this : parser)
    : result (list payload * parser) :=
  if length >? 0 then
    match fuel with
    | O => Exhausted
    | S fuel =>
        let* '(payload, this') := parse_sub t this in
        parse_list_loop fuel t (length - (byte_pos this' - byte_pos this)) (es ++ [payload]) this'
    end
  else if negb (length =? 0) then Parse_error
  else Ok (es, this).

(** One turn of the loop consumes a byte at least, see [ParserSpec]. *)
Definition parse_list (t length : Z) (es : list payload) (this : parser)
    : result (list payload * parser) :=
  if length <? 0 then Parse_error
  else if negb (bit_pos this =? 0) then Parse_error
  else parse_list_loop (Z.to_nat length) t length es this.

(** A number is stored at the offset of its rule, and handed on by [f]. *)
Definition store_num (m : string) (f : Z -> locals -> locals) (pld : payload) (l : locals)
    (r : result (Z * parser)) : result parsing :=
  let* '(v, this) := r in Ok (set_num m v pld, f v l, this).
Definition store_bytes (m : string) (pld : payload) (l : locals) (r : result (chunk * parser))
    : result parsing :=
  let* '(c, this) := r in Ok (set_bytes m c pld, l, this).

Definition ignore (v : Z) (l : locals) : locals := l.

(** The body of the switch. *)
Definition parse_rule (r : encoding_rule) (x : parsing) : result parsing :=
  let '(pld, l, this) := x in
  let header_length := get_header_length pld in
  let m := offset r in
  match rule_type r with
  | U_INT_4 => store_num m ignore pld l (parse_uint4 this)
  | U_INT_8 | RESERVED_BYTE => store_num m ignore pld l (parse_uint8 this)
  | U_INT_16 => store_num m ignore pld l (parse_uint16 this)
  | U_INT_32 | HEADER_LENGTH => store_num m ignore pld l (parse_uint32 this)
  | IKE_SPI => store_bytes m pld l (parse_bytes this 8)
  | RESERVED_BIT | FLAG => store_num m ignore pld l (parse_bit this)
  | PAYLOAD_LENGTH =>
      let* '(v, this) := parse_uint16 this in
      if v <? 4 then Parse_error else Ok (set_num m v pld, with_payload_length v l, this)
  | SPI_SIZE => store_num m with_spi_size pld l (parse_uint8 this)
  | SPI => store_bytes m pld l (parse_chunk this (spi_size l))
  | PAYLOAD_LIST t =>
      if negb (is_list_type t) then Parse_error
      else if payload_length l <? header_length then Parse_error
      else
        let* '(es, this) := parse_list t (payload_length l - header_length) (elements pld) this in
        Ok (set_elements es pld, l, this)
  | CHUNK_DATA =>
      if payload_length l <? header_length then Parse_error
      else store_bytes m pld l (parse_chunk this (payload_length l - header_length))
  | ENCRYPTED_DATA =>
      store_bytes m pld l (parse_chunk this (len (input this) - byte_pos this))
  | ATTRIBUTE_FORMAT => store_num m with_attribute_format pld l (parse_bit this)
  | ATTRIBUTE_TYPE => store_num m ignore pld l (parse_uint15 this)
  | ATTRIBUTE_LENGTH | ATTRIBUTE_LENGTH_OR_VALUE =>
      store_num m with_attribute_length pld l (parse_uint16 this)
  | ATTRIBUTE_VALUE =>
      if attribute_format l =? 0
      then store_bytes m pld l (parse_chunk this (attribute_length l))
      else Ok (pld, l, this)
  | TS_TYPE => store_num m with_ts_type pld l (parse_uint8 this)
  | ADDRESS =>
      store_bytes m pld l (parse_chunk this (if ts_type l =? TS_IPV4_ADDR_RANGE then 4 else 16))
  end.

(** [remaining] rules, the next with number [rule_number] in the table that is loaded. *)
Fixpoint parse_rules (remaining rule_number : nat) (x : parsing) : result parsing :=
  match remaining with
  | O => Ok x
  | S remaining =>
      let '(_, _, this) := x in
      match rules this !! rule_number with
      | None => Outside
      | Some rule =>
          let* x := parse_rule rule x in parse_rules remaining (S rule_number) x
      end
  end.

End ParsePayload.

(** [depth] is how many levels of substructures are parsed. *)
Fixpoint parse_payload (depth : nat) (t : Z) (this : parser) : result (payload * parser) :=
  match depth with
  | O => Exhausted
  | S depth =>
      let pld := create_instance t (major_version this) in
      let this := set_rules (get_encoding_rules pld) this in
      let rule_count := length (rules this) in
      let* '(pld, _, this) := parse_rules (parse_payload depth) rule_count 0 (pld, no_locals, this) in
      Ok (pld, this)
  end.

(** Security association, proposal, transform and attribute. *)
Definition parse (t : Z) (this : parser) : result (payload * parser) := parse_payload 4 t this.
