(* ===== verification/Generator.v ===== *)
(** The generator of IKE messages: libcharon/encoding/generator.c. It writes payloads by
    their encoding rules to a buffer that grows; the bytes nothing was written to are
    those of [heap]. *)

From Stdlib Require Import Strings.String.
From stdpp Require Import gmap strings.
From S2P Require Import Prelude Payloads Parser.
#[local] Open Scope Z_scope.

Definition GENERATOR_DATA_BUFFER_SIZE : Z := 500.
Definition GENERATOR_DATA_BUFFER_INCREASE_VALUE : Z := 500.

Record generator := Generator {
  buffer : chunk;                  (** all that is allocated, so [roof_position] is its end *)
  out_position : Z;                (** from the start of the buffer *)
  current_bit : Z;
  data_struct : payload;           (** what is generated, as last set *)
  header_length_offset : Z;
  gen_attribute_format : Z;
  gen_attribute_length : Z;
}.

Definition set_buffer (b : chunk) (this : generator) : generator :=
  Generator b (out_position this) (current_bit this) (data_struct this)
    (header_length_offset this) (gen_attribute_format this) (gen_attribute_length this).
Definition set_out (pos bit : Z) (this : generator) : generator :=
  Generator (buffer this) pos bit (data_struct this)
    (header_length_offset this) (gen_attribute_format this) (gen_attribute_length this).
Definition set_data_struct (p : payload) (this : generator) : generator :=
  Generator (buffer this) (out_position this) (current_bit this) p
    (header_length_offset this) (gen_attribute_format this) (gen_attribute_length this).
Definition set_header_length_offset (o : Z) (this : generator) : generator :=
  Generator (buffer this) (out_position this) (current_bit this) (data_struct this)
    o (gen_attribute_format this) (gen_attribute_length this).
Definition set_gen_attribute_format (v : Z) (this : generator) : generator :=
  Generator (buffer this) (out_position this) (current_bit this) (data_struct this)
    (header_length_offset this) v (gen_attribute_length this).
Definition set_gen_attribute_length (v : Z) (this : generator) : generator :=
  Generator (buffer this) (out_position this) (current_bit this) (data_struct this)
    (header_length_offset this) (gen_attribute_format this) v.

Section Generator.

(** What [malloc] and [realloc] leave at an offset of the buffer. *)
Variable heap : Z -> Z.

Definition fresh (from n : Z) : chunk := (fun i => u8 (heap i)) <$> seqZ from n.

Definition generator_create : generator :=
  Generator (fresh 0 GENERATOR_DATA_BUFFER_SIZE) 0 0 (zeroed C_UNKNOWN 0) 0 0 0.

Definition get_size (this : generator) : Z := len (buffer this).
Definition get_space (this : generator) : Z := len (buffer this) - out_position this.
Definition get_offset (this : generator) : Z := out_position this.

(** Each turn adds 4000 bits. *)
Fixpoint make_space_loop (fuel : nat) (this : generator) (bits : Z) : result generator :=
  if get_space this * 8 - current_bit this <? bits then
    match fuel with
    | O => Exhausted
    | S fuel =>
        let new := fresh (get_size this) GENERATOR_DATA_BUFFER_INCREASE_VALUE in
        make_space_loop fuel (set_buffer (buffer this ++ new) this) bits
    end
  else Ok this.

Definition make_space_available (this : generator) (bits : Z) : result generator :=
  make_space_loop (S (Z.to_nat bits)) this bits.

(** [*out_position] and an assignment to it. *)
Definition read_out (this : generator) : result Z :=
  match buffer this !! Z.to_nat (out_position this) with
  | Some b => Ok b
  | None => Outside
  end.
Definition write_out (b : Z) (this : generator) : result generator :=
  if out_position this <? len (buffer this)
  then Ok (set_buffer (<[Z.to_nat (out_position this) := u8 b]> (buffer this)) this)
  else Outside.
Definition advance (this : generator) : generator :=
  set_out (out_position this + 1) (current_bit this) this.

Fixpoint write_bytes_loop (c : chunk) (this : generator) : result generator :=
  match c with
  | [] => Ok this
  | b :: c => let* this := write_out b this in write_bytes_loop c (advance this)
  end.

Definition write_bytes_to_buffer (c : chunk) (this : generator) : result generator :=
  let* this := make_space_available this (len c * 8) in write_bytes_loop c this.

Definition number_of_bits (int_type : encoding_type) : option Z :=
  match int_type with
  | U_INT_4 => Some 4
  | TS_TYPE | RESERVED_BYTE | SPI_SIZE | U_INT_8 => Some 8
  | U_INT_16 | PAYLOAD_LENGTH | ATTRIBUTE_LENGTH => Some 16
  | U_INT_32 => Some 32
  | ATTRIBUTE_TYPE => Some 15
  | IKE_SPI => Some 64
  | _ => None
  end.

(** The second switch; [m] is the offset of the member. *)
Definition generate_int (int_type : encoding_type) (m : string) (this : generator)
    : result generator :=
  let v := num m (data_struct this) in
  match int_type with
  | U_INT_4 =>
      if current_bit this =? 0 then
        let* b := read_out this in
        let* this := write_out (Z.lor (u8 (Z.shiftl v 4)) (Z.land b 15)) this in
        Ok (set_out (out_position this) 4 this)
      else if current_bit this =? 4 then
        let* b := read_out this in
        let* this := write_out (Z.lor (Z.land b 240) (Z.land v 15)) this in
        Ok (set_out (out_position this + 1) 0 this)
      else Ok this
  | TS_TYPE | RESERVED_BYTE | SPI_SIZE | U_INT_8 =>
      let* this := write_out v this in Ok (advance this)
  | ATTRIBUTE_TYPE =>
      if negb (current_bit this =? 1) then Ok this
      else
        let* b := read_out this in
        let attribute_format_flag := Z.land b 128 in
        let val := Z.land v 32767 in
        let val := if negb (attribute_format_flag =? 0) then Z.lor val 32768 else val in
        let* this := write_bytes_to_buffer (be_bytes 2 val) this in
        Ok (set_out (out_position this) 0 this)
  | U_INT_16 | PAYLOAD_LENGTH | ATTRIBUTE_LENGTH => write_bytes_to_buffer (be_bytes 2 v) this
  | U_INT_32 => write_bytes_to_buffer (be_bytes 4 v) this
  | IKE_SPI => write_bytes_to_buffer (bytes m (data_struct this)) this
  | _ => Ok this
  end.

Definition generate_u_int_type (int_type : encoding_type) (m : string) (this : generator)
    : result generator :=
  match number_of_bits int_type with
  | None => Ok this
  | Some bits =>
      if (bits mod 8 =? 0) && negb (current_bit this =? 0) then Ok this
      else
        let* this := make_space_available this bits in generate_int int_type m this
  end.

Definition generate_flag (m : string) (this : generator) : result generator :=
  let flag_value := if negb (num m (data_struct this) =? 0) then 1 else 0 in
  let flag := u8 (Z.shiftl flag_value (7 - current_bit this)) in
  let* this := make_space_available this 1 in
  let* this := if current_bit this =? 0 then write_out 0 this else Ok this in
  let* b := read_out this in
  let* this := write_out (Z.lor b flag) this in
  let bit := current_bit this + 1 in
  Ok (if 8 <=? bit then set_out (out_position this + 1) (bit mod 8) this
      else set_out (out_position this) bit this).

Definition generate_from_chunk (m : string) (this : generator) : result generator :=
  if negb (current_bit this =? 0) then Ok this
  else write_bytes_to_buffer (bytes m (data_struct this)) this.

(** The generated bytes, and where the length of the header is to be written. *)
Definition get_chunk (this : generator) : chunk * Z :=
  (take (Z.to_nat (out_position this)) (buffer this), header_length_offset this).

Section GeneratePayload.

Variable generate_sub : payload -> generator -> result generator.

Fixpoint generate_list (es : list payload) (this : generator) : result generator :=
  match es with
  | [] => Ok this
  | e :: es => let* this := generate_sub e this in generate_list es this
  end.

(** The body of the loop. A list of a type that is not in the switch would end the
    function; as lists are last in their tables, going on is the same. *)
Definition generate_rule (r : encoding_rule) (this : generator) : result generator :=
  let m := offset r in
  match rule_type r with
  | U_INT_4 | U_INT_8 | U_INT_16 | U_INT_32 | PAYLOAD_LENGTH | IKE_SPI | RESERVED_BYTE
  | SPI_SIZE | TS_TYPE | ATTRIBUTE_TYPE | ATTRIBUTE_LENGTH =>
      generate_u_int_type (rule_type r) m this
  | RESERVED_BIT | FLAG => generate_flag m this
  | HEADER_LENGTH =>
      generate_u_int_type U_INT_32 m (set_header_length_offset (get_offset this) this)
  | ADDRESS | SPI | CHUNK_DATA | ENCRYPTED_DATA => generate_from_chunk m this
  | PAYLOAD_LIST t =>
      if is_list_type t then generate_list (elements (data_struct this)) this else Ok this
  | ATTRIBUTE_FORMAT =>
      let* this := generate_flag m this in
      Ok (set_gen_attribute_format (num m (data_struct this)) this)
  | ATTRIBUTE_LENGTH_OR_VALUE =>
      if negb (gen_attribute_format this =? 0) then generate_u_int_type U_INT_16 m this
      else
        let* this := generate_u_int_type U_INT_16 m this in
        Ok (set_gen_attribute_length (num m (data_struct this)) this)
  | ATTRIBUTE_VALUE =>
      if gen_attribute_format this =? 0 then generate_from_chunk m this else Ok this
  end.

Fixpoint generate_rules (rs : list encoding_rule) (this : generator) : result generator :=
  match rs with
  | [] => Ok this
  | r :: rs => let* this := generate_rule r this in generate_rules rs this
  end.

End GeneratePayload.

Fixpoint generate_payload (depth : nat) (p : payload) (this : generator) : result generator :=
  match depth with
  | O => Exhausted
  | S depth =>
      generate_rules (generate_payload depth) (get_encoding_rules p) (set_data_struct p this)
  end.

Definition generate (p : payload) (this : generator) : result generator :=
  generate_payload 4 p this.

End Generator.
