(* ===== verification/Encoding.v ===== *)
(** What an IKE payload is on the wire, independently of how the generator and the parser
    go about it: the bits of each rule, which payloads are well-formed, and the facts
    about the tables of rules that the two rely on. *)

From Stdlib Require Import Strings.String.
From stdpp Require Import gmap strings.
From S2P Require Import Prelude TrafficSelector Bits Payloads Parser.
#[local] Open Scope Z_scope.

(** * The format *)

(** An attribute without a value field has the value in its length field. The second
    kind of attributes has no such flag in its IKEv2 format. *)
Definition value_format (p : payload) : Z :=
  match class p with
  | C_ATTRIBUTE => num "attribute_format" p
  | C_CONFIGURATION_ATTRIBUTE =>
      if type_ p =? PLV2_CONFIGURATION_ATTRIBUTE then 0 else num "af_flag" p
  | _ => 0
  end.
Definition value_member (p : payload) : string :=
  match class p with C_ATTRIBUTE => "attribute_value" | _ => "value" end.

(** The bits of a rule, where [es] are those of the elements. *)
Definition rule_bits (es : list bool) (p : payload) (r : encoding_rule) : list bool :=
  let m := offset r in
  match rule_type r with
  | RESERVED_BIT | FLAG | ATTRIBUTE_FORMAT => [negb (num m p =? 0)]
  | U_INT_4 => bits 4 (num m p)
  | U_INT_8 | RESERVED_BYTE | SPI_SIZE | TS_TYPE => bits 8 (num m p)
  | ATTRIBUTE_TYPE => bits 15 (num m p)
  | U_INT_16 | PAYLOAD_LENGTH | ATTRIBUTE_LENGTH | ATTRIBUTE_LENGTH_OR_VALUE => bits 16 (num m p)
  | U_INT_32 | HEADER_LENGTH => bits 32 (num m p)
  | IKE_SPI | SPI | CHUNK_DATA | ADDRESS | ENCRYPTED_DATA => of_bytes (bytes m p)
  | ATTRIBUTE_VALUE => if value_format p =? 0 then of_bytes (bytes m p) else []
  | PAYLOAD_LIST _ => es
  end.

Definition rules_bits (es : list bool) (p : payload) (rs : list encoding_rule) : list bool :=
  rs ≫= rule_bits es p.

Fixpoint encode (p : payload) : list bool :=
  rules_bits (flat_map encode (elements p)) p (get_encoding_rules p).

Definition encode_all (ps : list payload) : list bool := flat_map encode ps.

(** * Well-formed payloads *)

(** What the length field counts besides the header. *)
Definition body_rule (es : list bool) (p : payload) (r : encoding_rule) : list bool :=
  match rule_type r with
  | CHUNK_DATA | ADDRESS | PAYLOAD_LIST _ => rule_bits es p r
  | _ => []
  end.
Definition body_bits (es : list bool) (p : payload) : list bool :=
  get_encoding_rules p ≫= body_rule es p.

Definition fits (w v : Z) : bool := (0 <=? v) && (v <? 2 ^ w).
Definition octets (c : chunk) : bool := forallb (fits 8) c.

(** Every member has a value its field can hold, and the length fields say what follows. *)
Definition rule_ok (p : payload) (r : encoding_rule) : bool :=
  let m := offset r in
  let v := num m p in
  match rule_type r with
  | RESERVED_BIT | FLAG | ATTRIBUTE_FORMAT => fits 1 v
  | U_INT_4 => fits 4 v
  | U_INT_8 | RESERVED_BYTE | TS_TYPE => fits 8 v
  | ATTRIBUTE_TYPE => fits 15 v
  | U_INT_16 => fits 16 v
  | U_INT_32 | HEADER_LENGTH => fits 32 v
  | PAYLOAD_LENGTH =>
      fits 16 v && (4 <=? v)
      && (8 * v =? 8 * get_header_length p
                   + Z.of_nat (length (body_bits (encode_all (elements p)) p)))
  | SPI_SIZE => fits 8 v && (v =? len (bytes "spi" p))
  | ATTRIBUTE_LENGTH | ATTRIBUTE_LENGTH_OR_VALUE =>
      fits 16 v && (negb (value_format p =? 0) || (v =? len (bytes (value_member p) p)))
  | ATTRIBUTE_VALUE =>
      octets (bytes m p) && ((value_format p =? 0) || (len (bytes m p) =? 0))
  | IKE_SPI => octets (bytes m p) && (len (bytes m p) =? 8)
  | SPI | CHUNK_DATA => octets (bytes m p)
  | ADDRESS =>
      octets (bytes m p)
      && (len (bytes m p) =? if num "ts_type" p =? TS_IPV4_ADDR_RANGE then 4 else 16)
  | ENCRYPTED_DATA => false
  | PAYLOAD_LIST t =>
      is_list_type t
      && forallb (fun e => (type_ e =? t) && bool_decide (class e = class (payload_create t)))
           (elements p)
  end.

(** What the rules do not mention is as the constructor left it. *)
Definition base_of (p : payload) : payload :=
  match class p with
  | C_UNKNOWN => unknown_payload_create (type_ p)
  | _ => payload_create (type_ p)
  end.

Definition is_bytes_rule (r : encoding_rule) : bool :=
  match rule_type r with
  | IKE_SPI | SPI | CHUNK_DATA | ADDRESS | ENCRYPTED_DATA | ATTRIBUTE_VALUE => true
  | _ => false
  end.
Definition is_list_rule (r : encoding_rule) : bool :=
  match rule_type r with PAYLOAD_LIST _ => true | _ => false end.
Definition is_num_rule (r : encoding_rule) : bool := negb (is_bytes_rule r) && negb (is_list_rule r).

Definition num_members (rs : list encoding_rule) : list string :=
  offset <$> List.filter is_num_rule rs.
Definition bytes_members (rs : list encoding_rule) : list string :=
  offset <$> List.filter is_bytes_rule rs.

Definition clear {A} (ms : list string) (mem : gmap string A) : gmap string A :=
  foldr delete mem ms.

Definition as_created (p : payload) : bool :=
  let rs := get_encoding_rules p in
  bool_decide (class p = class (base_of p)) && (type_ p =? type_ (base_of p))
  && bool_decide (clear (num_members rs) (nums p) = clear (num_members rs) (nums (base_of p)))
  && bool_decide (clear (bytes_members rs) (chunks p)
                  = clear (bytes_members rs) (chunks (base_of p)))
  && bool_decide (map_Forall (fun _ v => v <> 0) (nums p))
  && bool_decide (map_Forall (fun _ c => c <> []) (chunks p))
  && (existsb is_list_rule rs || match elements p with [] => true | _ => false end).

Fixpoint well_formed (p : payload) : bool :=
  forallb (rule_ok p) (get_encoding_rules p) && as_created p && forallb well_formed (elements p).

Lemma well_formed_unfold p : well_formed p = true ->
  Forall (fun r => rule_ok p r = true) (get_encoding_rules p) /\ as_created p = true /\
  Forall (fun e => well_formed e = true) (elements p).
Proof.
  destruct p as [c t m ch es]. cbn [well_formed elements].
  rewrite !andb_true_iff, !forallb_forall, !Forall_forall.
  setoid_rewrite <- list_elem_of_In. tauto.
Qed.

(** * Members *)

Lemma lookup_store {A} `{EqDecision A} (zero : A) m v (mem : gmap string A) k :
  store zero m v mem !! k =
  if decide (k = m) then (if decide (v = zero) then None else Some v) else mem !! k.
Proof.
  unfold store. destruct (decide (k = m)) as [->|]; destruct (decide (v = zero)).
  - apply lookup_delete_eq.
  - apply lookup_insert_eq.
  - by apply lookup_delete_ne.
  - by apply lookup_insert_ne.
Qed.

Lemma num_set_num m v p k : num k (set_num m v p) = if decide (k = m) then v else num k p.
Proof.
  unfold num, set_num; cbn [nums]. rewrite lookup_store. repeat case_decide; naive_solver.
Qed.
Lemma num_set_bytes m c p k : num k (set_bytes m c p) = num k p.
Proof. done. Qed.
Lemma bytes_set_bytes m c p k : bytes k (set_bytes m c p) = if decide (k = m) then c else bytes k p.
Proof.
  unfold bytes, set_bytes; cbn [chunks]. rewrite lookup_store. repeat case_decide; naive_solver.
Qed.
Lemma bytes_set_num m v p k : bytes k (set_num m v p) = bytes k p.
Proof. done. Qed.

(** * Induction on payloads *)

Fixpoint height (p : payload) : nat := S (list_max (map height (elements p))).

Lemma height_elements p e : e ∈ elements p -> (height e < height p)%nat.
Proof.
  destruct p as [c t m ch es]; cbn. intros He%(list_elem_of_fmap_2 height).
  pose proof (proj1 (list_max_le (map height es) _) (le_n _)) as G.
  rewrite Forall_forall in G. specialize (G _ He). unfold list_max in G. lia.
Qed.

Lemma payload_height_ind (P : payload -> Prop) :
  (forall p, (forall e, e ∈ elements p -> P e) -> P p) -> forall p, P p.
Proof.
  intros H. assert (forall n p, (height p <= n)%nat -> P p) as G; [|eauto].
  induction n as [|n IH]; intros p Hp; [destruct p; cbn in Hp; lia|].
  apply H. intros e He. apply IH. apply height_elements in He. lia.
Qed.

(** How many levels a kind of payloads has. *)
Definition rank (c : payload_class) : nat :=
  match c with
  | C_SA => 4 | C_PROPOSAL => 3 | C_TRANSFORM | C_TS | C_CP => 2 | _ => 1
  end.

Lemma rank_le c : (1 <= rank c <= 4)%nat.
Proof. destruct c; cbn; lia. Qed.

Ltac each_table c :=
  destruct c; cbn [rules_of];
  repeat match goal with |- context [if ?b then _ else _] => destruct b eqn:? end;
  vm_compute.

Definition lists_deeper (c : payload_class) (rs : list encoding_rule) : bool :=
  forallb (fun r => match rule_type r with
                    | PAYLOAD_LIST t => (rank (class (payload_create t)) <? rank c)%nat
                                        && is_list_type t && (PL_HEADER <=? t)
                    | _ => true
                    end) rs.

Lemma lists_deeper_all c t : lists_deeper c (rules_of c t) = true.
Proof. each_table c; reflexivity. Qed.

(** * Alignment *)

(** Where in a byte a field starts; after the first half of a byte only the second half
    may follow. *)
Inductive cursor := At (k : Z) | Nibble.

Definition bit_of (c : cursor) : Z := match c with At k => k | Nibble => 4 end.

Definition next (c : cursor) (r : encoding_rule) : option cursor :=
  match rule_type r, c with
  | U_INT_4, At k => if k =? 0 then Some Nibble else None
  | U_INT_4, Nibble => Some (At 0)
  | (RESERVED_BIT | FLAG | ATTRIBUTE_FORMAT), At k => Some (At ((k + 1) mod 8))
  | ATTRIBUTE_TYPE, At k => if k =? 1 then Some (At 0) else None
  | _, Nibble => None
  | _, At k => if k =? 0 then Some (At 0) else None
  end.

Fixpoint aligned (c : cursor) (rs : list encoding_rule) : bool :=
  match rs with
  | [] => bit_of c =? 0
  | r :: rs => match next c r with Some c => aligned c rs | None => false end
  end.

Lemma aligned_all c t : aligned (At 0) (rules_of c t) = true.
Proof. each_table c; reflexivity. Qed.

Fixpoint lists_last (rs : list encoding_rule) : bool :=
  match rs with
  | [] => true
  | r :: rs => (negb (is_list_rule r) || match rs with [] => true | _ => false end) && lists_last rs
  end.

Lemma lists_last_all c t : lists_last (rules_of c t) = true.
Proof. each_table c; reflexivity. Qed.

(** Bits a rule has whatever the payload. *)
Definition fixed_bits (r : encoding_rule) : nat :=
  match rule_type r with
  | RESERVED_BIT | FLAG | ATTRIBUTE_FORMAT => 1
  | U_INT_4 => 4
  | U_INT_8 | RESERVED_BYTE | SPI_SIZE | TS_TYPE => 8
  | ATTRIBUTE_TYPE => 15
  | U_INT_16 | PAYLOAD_LENGTH | ATTRIBUTE_LENGTH | ATTRIBUTE_LENGTH_OR_VALUE => 16
  | U_INT_32 | HEADER_LENGTH => 32
  | IKE_SPI => 64
  | _ => 0
  end.

(** Only the IKEv1 encrypted payload, the whole message, has no fixed part. *)
Lemma fixed_bits_all c t :
  c = C_ENCRYPTED /\ t <> PLV2_ENCRYPTED \/
  match rules_of c t with r :: _ => (1 <= fixed_bits r)%nat | [] => False end.
Proof.
  destruct c; cbn [rules_of];
    repeat match goal with |- context [if ?b then _ else _] => destruct b eqn:? end;
    try (right; vm_compute; lia).
  left. split; [done|]. by apply Z.eqb_neq.
Qed.

(** * Lengths *)

Lemma rule_bits_fixed es p r : Z.of_nat (length es) mod 8 = 0 ->
  Z.of_nat (length (rule_bits es p r)) mod 8 = Z.of_nat (fixed_bits r) mod 8.
Proof.
  intros H. assert (forall c, Z.of_nat (length (of_bytes c)) mod 8 = 0) as Hc.
  { intros c. rewrite length_of_bytes, Nat2Z.inj_mul, Z.mul_comm. by apply Z.mod_mul. }
  destruct r as [ty m]. unfold rule_bits, fixed_bits; cbn [rule_type offset].
  destruct ty; rewrite ?length_bits; try done; try apply Hc.
  case_match; [apply Hc|done].
Qed.

Lemma aligned_bits es p c rs : Z.of_nat (length es) mod 8 = 0 -> aligned c rs = true ->
  (bit_of c + Z.of_nat (length (rules_bits es p rs))) mod 8 = 0.
Proof.
  intros He. revert c. induction rs as [|r rs IH]; intros c Ha; cbn [aligned] in Ha.
  { apply Z.eqb_eq in Ha. by rewrite Ha. }
  destruct (next c r) as [c'|] eqn:Hn; [|done]. specialize (IH c' Ha).
  unfold rules_bits in *. cbn [mbind list_bind]. rewrite length_app, Nat2Z.inj_add.
  pose proof (rule_bits_fixed es p r He) as Hr.
  assert (bit_of c' = (bit_of c + Z.of_nat (fixed_bits r)) mod 8) as Hb.
  { destruct r as [ty m]. unfold next in Hn. destruct ty, c; cbn in Hn |- *; simplify_eq;
      repeat case_match; simplify_eq; bool_to_prop; subst; cbn; try done; div_lia. }
  rewrite Hb in IH. rewrite Z.add_assoc. rewrite Z.add_mod_idemp_l in IH by lia.
  rewrite Z.add_mod, (Z.add_mod (bit_of c)), Hr, <- (Z.add_mod (bit_of c)), <- Z.add_mod by lia.
  done.
Qed.

Lemma encode_unfold p :
  encode p = rules_bits (encode_all (elements p)) p (get_encoding_rules p).
Proof. by destruct p. Qed.

Lemma encode_bytes p : Z.of_nat (length (encode p)) mod 8 = 0.
Proof.
  induction p as [p IH] using payload_height_ind. rewrite encode_unfold.
  assert (Z.of_nat (length (encode_all (elements p))) mod 8 = 0) as He.
  { unfold encode_all. induction (elements p) as [|e es IHes]; [done|].
    cbn [flat_map]. rewrite length_app, Nat2Z.inj_add, Z.add_mod by lia.
    rewrite IH by left. rewrite IHes; [done|]. intros e' H'. apply IH. by right. }
  exact (aligned_bits _ p (At 0) _ He (aligned_all _ _)).
Qed.

Lemma encode_all_bytes ps : Z.of_nat (length (encode_all ps)) mod 8 = 0.
Proof.
  unfold encode_all. induction ps as [|p ps IH]; [done|].
  cbn [flat_map]. by rewrite length_app, Nat2Z.inj_add, Z.add_mod, encode_bytes, IH by lia.
Qed.
