(* ===== verification/ParserSpec.v ===== *)
(** The parser of IKE messages reads bit strings: every primitive is [read] or
    [read_chunk], so that it stays inside of the input; parsing ends with four levels of
    substructures whatever the input is, and the bits of a well-formed payload are parsed
    to that payload. *)

From Stdlib Require Import Strings.String.
From stdpp Require Import gmap strings.
From S2P Require Import Prelude TrafficSelector Bits Payloads Parser Encoding.
#[local] Open Scope Z_scope.

(** * Positions as numbers of bits *)

Definition at_bit (this : parser) : Z := 8 * byte_pos this + bit_pos this.

Record valid (this : parser) : Prop := {
  valid_bit : 0 <= bit_pos this < 8;
  valid_byte : 0 <= byte_pos this;
  valid_end : at_bit this <= 8 * len (input this);
  valid_input : bytes_ok (input this);
}.

Definition seek (k : Z) (this : parser) : parser := set_pos (k mod 8) (k / 8) this.

(** The bits that are left. *)
Definition remaining (this : parser) : list bool :=
  drop (Z.to_nat (bit_pos this)) (of_bytes (drop (Z.to_nat (byte_pos this)) (input this))).

Definition enough (n : Z) (this : parser) : bool := at_bit this + n <=? 8 * len (input this).

Definition read (n : nat) (this : parser) : result (Z * parser) :=
  if enough (Z.of_nat n) this
  then Ok (bits_val (take n (remaining this)), seek (at_bit this + Z.of_nat n) this)
  else Parse_error.

Definition read_chunk (n : Z) (this : parser) : result (chunk * parser) :=
  if enough (8 * n) this
  then Ok (take (Z.to_nat n) (drop (Z.to_nat (byte_pos this)) (input this)),
           seek (at_bit this + 8 * n) this)
  else Parse_error.

Lemma at_bit_seek k this : at_bit (seek k this) = k.
Proof. unfold at_bit, seek; cbn. div_lia. Qed.

Lemma valid_seek k this :
  valid this -> 0 <= k <= 8 * len (input this) -> valid (seek k this).
Proof.
  intros [] Hk. split; rewrite ?at_bit_seek; cbn; [|div_lia|lia|done].
  apply Z.mod_pos_bound. lia.
Qed.

Lemma remaining_as_drop this : valid this ->
  remaining this = drop (Z.to_nat (at_bit this)) (of_bytes (input this)).
Proof.
  intros []. unfold remaining, at_bit. rewrite of_bytes_drop, drop_drop. f_equal. lia.
Qed.

Lemma length_remaining this : valid this ->
  Z.of_nat (length (remaining this)) = 8 * len (input this) - at_bit this.
Proof.
  intros Hv. rewrite remaining_as_drop by done. destruct Hv.
  rewrite length_drop, length_of_bytes. unfold len, at_bit in *. lia.
Qed.

Lemma remaining_seek n this : valid this -> enough (Z.of_nat n) this = true ->
  remaining (seek (at_bit this + Z.of_nat n) this) = drop n (remaining this).
Proof.
  intros Hv He%Z.leb_le. pose proof (valid_seek (at_bit this + Z.of_nat n) this Hv).
  rewrite !remaining_as_drop; [|done|]; destruct Hv; unfold at_bit in *.
  - fold (at_bit (seek (8 * byte_pos this + bit_pos this + Z.of_nat n) this)).
    rewrite at_bit_seek, drop_drop. f_equal. lia.
  - apply H. lia.
Qed.

Lemma enough_remaining n this : valid this ->
  enough (Z.of_nat n) this = true <-> (n <= length (remaining this))%nat.
Proof.
  intros Hv. pose proof (length_remaining this Hv). unfold enough. rewrite Z.leb_le. lia.
Qed.

(** * The primitives *)

(** The bytes a primitive looks at. *)
Lemma read_bytes_ok this n : valid this -> 0 <= n -> byte_pos this + n <= len (input this) ->
  read_bytes this n = Ok (take (Z.to_nat n) (drop (Z.to_nat (byte_pos this)) (input this))).
Proof.
  intros [] Hn Hl. unfold read_bytes.
  destruct (_ || _) eqn:E; [|done]. bool_to_prop. lia.
Qed.

Lemma read_uint_ok this n : valid this -> 0 <= n -> byte_pos this + n <= len (input this) ->
  read_uint this n =
  Ok (bits_val (take (8 * Z.to_nat n) (of_bytes (drop (Z.to_nat (byte_pos this)) (input this))))).
Proof.
  intros Hv Hn Hl. unfold read_uint. rewrite read_bytes_ok by done. cbn [bind]. f_equal.
  rewrite <- of_bytes_take. destruct Hv. rewrite bits_val_of_bytes; auto with chunk.
Qed.

Lemma short_enough this (n : Z) (k : Z) :
  valid this -> 0 < k -> 8 * (n - 1) < bit_pos this + k <= 8 * n ->
  short this n = negb (enough k this).
Proof.
  intros [] Hk Hn. unfold short, enough, at_bit in *.
  destruct (Z.gtb_spec (byte_pos this + n) (len (input this)));
    destruct (Z.leb_spec (8 * byte_pos this + bit_pos this + k) (8 * len (input this)));
    cbn; auto; lia.
Qed.

Lemma set_pos_seek this n bit byte : 0 <= bit < 8 -> 8 * byte + bit = at_bit this + n ->
  set_pos bit byte this = seek (at_bit this + n) this.
Proof. intros Hb H. unfold seek. rewrite <- H. f_equal; div_lia. Qed.

(** Whole bytes at a byte boundary. *)
Lemma read_aligned this n bit byte :
  valid this -> bit_pos this = 0 -> bit = 0 -> byte = byte_pos this + n -> 0 < n ->
  (if short this n then Parse_error
   else let* v := read_uint this n in Ok (v, set_pos bit byte this))
  = read (8 * Z.to_nat n) this.
Proof.
  intros Hv Hb -> -> Hn. unfold read.
  rewrite (short_enough this n (8 * n)) by (done || lia).
  replace (Z.of_nat (8 * Z.to_nat n)) with (8 * n) by lia.
  destruct (enough (8 * n) this) eqn:E; [|done]. cbn [negb].
  apply Z.leb_le in E. unfold at_bit in E.
  rewrite read_uint_ok by (done || lia). cbn [bind]. f_equal. f_equal.
  - unfold remaining. by rewrite Hb.
  - apply set_pos_seek; unfold at_bit; lia.
Qed.

Ltac aligned_read := intros Hv Hb; rewrite Hb; cbn [negb Z.eqb];
  match goal with |- context [short _ ?n] => exact (read_aligned _ n _ _ Hv Hb eq_refl eq_refl eq_refl) end.

Lemma parse_uint8_read this : valid this -> bit_pos this = 0 -> parse_uint8 this = read 8 this.
Proof. unfold parse_uint8. aligned_read. Qed.
Lemma parse_uint16_read this : valid this -> bit_pos this = 0 -> parse_uint16 this = read 16 this.
Proof. unfold parse_uint16. aligned_read. Qed.
Lemma parse_uint32_read this : valid this -> bit_pos this = 0 -> parse_uint32 this = read 32 this.
Proof. unfold parse_uint32. aligned_read. Qed.

Lemma parse_chunk_read this n :
  valid this -> bit_pos this = 0 -> 0 <= n -> parse_chunk this n = read_chunk n this.
Proof.
  intros Hv Hb Hn. unfold parse_chunk, read_chunk. rewrite Hb. cbn [negb Z.eqb].
  assert (short this n = negb (enough (8 * n) this)) as ->.
  { unfold short, enough, at_bit.
    destruct (Z.gtb_spec (byte_pos this + n) (len (input this)));
    destruct (Z.leb_spec (8 * byte_pos this + bit_pos this + 8 * n) (8 * len (input this)));
    cbn; auto; lia. }
  destruct (enough (8 * n) this) eqn:E; [|done]. cbn [negb].
  apply Z.leb_le in E. unfold at_bit in E.
  rewrite read_bytes_ok by (done || lia). cbn [bind]. f_equal. f_equal.
  apply set_pos_seek; unfold at_bit; lia.
Qed.

Lemma parse_bytes_read this n :
  valid this -> bit_pos this = 0 -> 0 <= n -> parse_bytes this n = read_chunk n this.
Proof. apply parse_chunk_read. Qed.

(** Parts of the byte at the position. *)
Lemma byte_at_pos this : valid this -> byte_pos this < len (input this) ->
  exists (b : Z) (rest : chunk), byte_ok b /\ drop (Z.to_nat (byte_pos this)) (input this) = b :: rest /\
  bytes_ok rest.
Proof.
  intros [] Hl. assert (bytes_ok (drop (Z.to_nat (byte_pos this)) (input this))) as Ho
    by auto with chunk.
  destruct (drop _ _) as [|b rest] eqn:E.
  - apply (f_equal length) in E. rewrite length_drop in E. unfold len in *. cbn in E. lia.
  - inversion_clear Ho. eauto.
Qed.

Lemma read_byte this : valid this -> byte_pos this < len (input this) ->
  exists (b : Z) (rest : chunk), byte_ok b /\ bytes_ok rest /\ read_uint this 1 = Ok b /\ remaining this = drop (Z.to_nat (bit_pos this)) (bits 8 b) ++ of_bytes rest.
Proof.
  intros Hv Hl. destruct (byte_at_pos this Hv Hl) as (b & rest & Hb & E & Hr).
  exists b, rest. split_and!; [done|done| |].
  - rewrite read_uint_ok by (done || lia). rewrite E.
    change (of_bytes (b :: rest)) with (bits 8 b ++ of_bytes rest).
    rewrite take_app_length' by (by rewrite length_bits).
    rewrite bits_val_bits, Z.mod_small by done. done.
  - unfold remaining. rewrite E. change (of_bytes (b :: rest)) with (bits 8 b ++ of_bytes rest).
    apply drop_app_le. rewrite length_bits. destruct Hv. lia.
Qed.

Lemma enough_byte this k : valid this -> 0 < k -> bit_pos this + k <= 8 ->
  enough k this = true -> byte_pos this < len (input this).
Proof. intros [] Hk Hb E%Z.leb_le. unfold at_bit in *. lia. Qed.

Lemma parse_bit_read this : valid this -> parse_bit this = read 1 this.
Proof.
  intros Hv. unfold parse_bit, read. pose proof Hv as [Hb _ _ _].
  rewrite (short_enough this 1 1) by (done || lia). change (Z.of_nat 1) with 1.
  destruct (enough 1 this) eqn:E; [|done]. cbn [negb].
  apply enough_byte in E; [|done|lia|lia].
  destruct (read_byte this Hv E) as (b & rest & Hb8 & Hr & -> & ->). cbn [bind]. f_equal.
  assert (exists k, bit_pos this = Z.of_nat k /\ (k < 8)%nat) as (k & Ek & Hk).
  { exists (Z.to_nat (bit_pos this)). lia. }
  rewrite Ek, Nat2Z.id. f_equal.
  - rewrite take_app_le by (rewrite length_drop, length_bits; lia).
    do 8 (destruct k as [|k]; [clear -Hb8; apply Z.eqb_eq; by_bytes b Hb8|]). lia.
  - rewrite <- Ek. case_if; bool_to_prop; apply set_pos_seek; unfold at_bit; div_lia.
Qed.

Lemma parse_uint4_read this : valid this -> bit_pos this = 0 \/ bit_pos this = 4 ->
  parse_uint4 this = read 4 this.
Proof.
  intros Hv Hb. unfold parse_uint4, read.
  rewrite (short_enough this 1 4) by (done || lia). change (Z.of_nat 4) with 4.
  destruct (enough 4 this) eqn:E; [|done]. cbn [negb].
  apply enough_byte in E; [|done|lia|lia].
  destruct (read_byte this Hv E) as (b & rest & Hb8 & Hr & -> & ->). cbn [bind].
  destruct Hb as [Hb|Hb]; rewrite Hb; cbn [Z.eqb Pos.eqb]; (f_equal; f_equal;
    [rewrite take_app_le by (rewrite length_drop, length_bits; lia); clear -Hb8; apply Z.eqb_eq; by_bytes b Hb8
    |apply set_pos_seek; unfold at_bit; lia]).
Qed.

Lemma parse_uint15_read this : valid this -> bit_pos this = 1 ->
  parse_uint15 this = read 15 this.
Proof.
  intros Hv Hb. unfold parse_uint15, read. rewrite Hb. cbn [negb Z.eqb Pos.eqb].
  rewrite (short_enough this 2 15) by (done || lia). change (Z.of_nat 15) with 15.
  destruct (enough 15 this) eqn:E; [|done]. cbn [negb].
  apply Z.leb_le in E. unfold at_bit in E.
  rewrite read_uint_ok by (done || lia). cbn [bind]. f_equal. f_equal.
  - unfold remaining. rewrite Hb.
    set (l := of_bytes _).
    assert (16 <= length l)%nat as Hl.
    { subst l. rewrite length_of_bytes, length_drop. destruct Hv. unfold len in *. lia. }
    destruct l as [|x l]; [cbn in Hl; lia|]. change (Z.to_nat 1) with 1%nat.
    change (8 * Z.to_nat 2)%nat with (S 15). cbn [take drop].
    change (u16 (Z.lnot 32768)) with (Z.ones 15). rewrite Z.land_ones by lia.
    change (bits_val (x :: ?y)) with (Z.b2z x * 2 ^ Z.of_nat (length y) + bits_val y).
    rewrite length_take_le by (cbn in Hl; lia).
    rewrite Z.add_comm, Z.mod_add by lia. apply Z.mod_small.
    pose proof (bits_val_range (take 15 l)) as R.
    by rewrite length_take_le in R by (cbn in Hl; lia).
  - apply set_pos_seek; unfold at_bit; lia.
Qed.

(** * The parser stays inside and ends *)

Record moved (n : Z) (this this' : parser) : Prop := {
  moved_valid : valid this';
  moved_input : input this' = input this;
  moved_version : major_version this' = major_version this;
  moved_bits : at_bit this + n <= at_bit this';
}.

Lemma moved_trans n m a b c : moved n a b -> moved m b c -> moved (n + m) a c.
Proof. intros [] []. split; [done|congruence|congruence|lia]. Qed.

Lemma bit_pos_at this : valid this -> bit_pos this = at_bit this mod 8.
Proof. intros []. unfold at_bit. div_lia. Qed.

Lemma moved_seek this n : valid this -> 0 <= n -> enough n this = true ->
  moved n this (seek (at_bit this + n) this).
Proof.
  intros Hv Hn He. split; [|done|done|].
  - apply valid_seek; [done|]. apply Z.leb_le in He. destruct Hv. unfold at_bit in *. lia.
  - rewrite at_bit_seek. lia.
Qed.

(** What is true of every step of the parser: [P] of what it read, and of where it is. *)
Definition ends_in {A} (n : Z) (c : cursor) (this : parser) (P : A -> Prop)
    (x : result (A * parser)) : Prop :=
  match x with
  | Ok (a, this') => P a /\ moved n this this' /\ bit_pos this' = bit_of c
  | Parse_error => True
  | Outside | Exhausted => False
  end.

Lemma read_ends this n c : valid this -> bit_of c = (at_bit this + Z.of_nat n) mod 8 ->
  ends_in (Z.of_nat n) c this (fun v => 0 <= v < 2 ^ Z.of_nat n) (read n this).
Proof.
  intros Hv Hc. unfold read. destruct (enough _ _) eqn:E; [|done]. split; [|split].
  - pose proof (bits_val_range (take n (remaining this))) as R.
    rewrite length_take_le in R; [lia|]. by apply enough_remaining.
  - apply moved_seek; [done|lia|done].
  - rewrite Hc. done.
Qed.

Lemma read_chunk_ends this n : valid this -> bit_pos this = 0 -> 0 <= n ->
  ends_in (8 * n) (At 0) this (fun _ => True) (read_chunk n this).
Proof.
  intros Hv Hb Hn. unfold read_chunk. destruct (enough _ _) eqn:E; [|done]. split_and!; [done| |].
  - by apply moved_seek; [|lia|].
  - cbn. rewrite (bit_pos_at this) in Hb by done. div_lia.
Qed.

Definition same_kind (p q : payload) : Prop := class q = class p /\ type_ q = type_ p.

Definition is_octet (m : string) (r : encoding_rule) : Prop := offset r = m -> rule_type r = U_INT_8.

(** What parsing a payload with rules [rs] keeps, and that a member that is an octet on the
    wire is one. *)
Record kept (rs : list encoding_rule) (p q : payload) : Prop := {
  kept_kind : same_kind p q;
  kept_nums : forall k, k ∉ offset <$> rs -> num k q = num k p;
  kept_bytes : forall k, k ∉ offset <$> rs -> bytes k q = bytes k p;
  kept_octet : forall k, Forall (is_octet k) rs -> num k p < 256 -> num k q < 256;
}.

Lemma kept_trans rs rs' p q r : kept rs p q -> kept rs' q r -> kept (rs ++ rs') p r.
Proof.
  intros [[K1 K2] N B O] [[K1' K2'] N' B' O']. split; [split; congruence|..]; intros k.
  3: rewrite Forall_app; intros []; by auto.
  all: rewrite fmap_app, not_elem_of_app; intros [H1 H2]; by rewrite ?N', ?N, ?B', ?B.
Qed.
Lemma kept_set_num r v p : (rule_type r = U_INT_8 -> v < 256) -> kept [r] p (set_num (offset r) v p).
Proof.
  intros Hv. split; [done| |done|]; intros k H; rewrite num_set_num.
  - rewrite decide_False; [done|]. intros ->. apply H. by left.
  - case_decide as E; [|done]. intros _. inversion_clear H as [|? ? H1]. auto.
Qed.
Lemma kept_set_bytes r c p : kept [r] p (set_bytes (offset r) c p).
Proof.
  split; [done|done| |done]. intros k H. rewrite bytes_set_bytes, decide_False; [done|].
  intros ->. apply H. by left.
Qed.

Definition sound_locals (l : locals) : Prop := 0 <= spi_size l /\ 0 <= attribute_length l.

(** After a rule that is not a list the same table is loaded. *)
Definition rule_ends (n : Z) (c : cursor) (r : encoding_rule) (pld : payload) (this : parser)
    (x : result parsing) : Prop :=
  match x with
  | Ok (pld', l', this') =>
      kept [r] pld pld' /\ sound_locals l' /\ moved n this this' /\ bit_pos this' = bit_of c /\
      (is_list_rule r = false -> rules this' = rules this /\ elements pld' = elements pld)
  | Parse_error => True
  | Outside | Exhausted => False
  end.

Lemma read_rules n this v this' : read n this = Ok (v, this') -> rules this' = rules this.
Proof. unfold read. destruct (enough _ _); [|done]. by intros [= _ <-]. Qed.
Lemma read_chunk_rules n this v this' : read_chunk n this = Ok (v, this') -> rules this' = rules this.
Proof. unfold read_chunk. destruct (enough _ _); [|done]. by intros [= _ <-]. Qed.

Lemma store_num_ends n c r m f pld l this :
  offset r = m -> valid this -> bit_of c = (at_bit this + Z.of_nat n) mod 8 ->
  (forall v, 0 <= v -> sound_locals (f v l)) -> (rule_type r = U_INT_8 -> n = 8%nat) ->
  rule_ends (Z.of_nat n) c r pld this (store_num m f pld l (read n this)).
Proof.
  intros <- Hv Hc Hf H8. pose proof (read_ends this n c Hv Hc) as H. unfold store_num.
  destruct (read n this) as [[v this']| | |] eqn:E; cbn in *; try done.
  destruct H as (Hp & Hm & Hb). apply read_rules in E. split_and!; auto; [|apply Hf, Hp].
  apply kept_set_num. intros ->%H8. apply Hp.
Qed.

Lemma store_bytes_ends k n r m pld l this :
  offset r = m -> valid this -> bit_pos this = 0 -> 0 <= n -> sound_locals l -> k <= 8 * n ->
  rule_ends k (At 0) r pld this (store_bytes m pld l (read_chunk n this)).
Proof.
  intros <- Hv Hb Hn Hl Hk. pose proof (read_chunk_ends this n Hv Hb Hn) as H. unfold store_bytes.
  destruct (read_chunk n this) as [[v this']| | |] eqn:E; cbn -[Z.mul] in *; try done.
  destruct H as (Hp & [] & Hb'). apply read_chunk_rules in E.
  split_and!; [apply kept_set_bytes|done|split; auto; lia|done|done].
Qed.

(** Substructures that can be parsed [d] levels deep. *)
Definition sub_ends (d : nat) (sub : Z -> parser -> result (payload * parser)) : Prop :=
  forall t this, is_list_type t = true -> (rank (class (payload_create t)) <= d)%nat ->
  valid this -> bit_pos this = 0 -> ends_in 8 (At 0) this (fun _ => True) (sub t this).

Lemma moved_byte n this this' :
  moved n this this' -> bit_pos this = 0 -> bit_pos this' = 0 -> 0 < n ->
  byte_pos this < byte_pos this'.
Proof. intros [] H H' Hn. unfold at_bit in *. lia. Qed.

Lemma parse_list_loop_ends d sub t :
  sub_ends d sub -> is_list_type t = true -> (rank (class (payload_create t)) <= d)%nat ->
  forall fuel length es this, length <= Z.of_nat fuel -> valid this -> bit_pos this = 0 ->
  ends_in 0 (At 0) this (fun _ => True) (parse_list_loop sub fuel t length es this).
Proof.
  intros Hsub Ht Hd. induction fuel as [|fuel IH]; intros length es this Hl Hv Hb;
    cbn [parse_list_loop]; destruct (Z.gtb_spec length 0); try lia;
    try (case_match; cbn; [done|split_and!; [done|split; auto; lia|done]]).
  specialize (Hsub t this Ht Hd Hv Hb).
  destruct (sub t this) as [[pld this1]| | |]; cbn [bind]; cbn in Hsub; try done.
  destruct Hsub as (_ & Hm & Hb1). pose proof (moved_byte _ _ _ Hm Hb Hb1 ltac:(lia)).
  specialize (IH (length - (byte_pos this1 - byte_pos this)) (es ++ [pld]) this1).
  destruct (parse_list_loop _ _ _ _ _ this1) as [[es' this2]| | |];
    cbn in IH |- *; try (apply IH; [lia|apply Hm|done]).
  destruct IH as (_ & Hm2 & Hb2); [lia|apply Hm|done|].
  split_and!; [done| |done]. destruct (moved_trans _ _ _ _ _ Hm Hm2). split; auto; lia.
Qed.

Lemma next_bit c c' r this : valid this -> bit_pos this = bit_of c -> next c r = Some c' ->
  bit_of c' = (at_bit this + Z.of_nat (fixed_bits r)) mod 8.
Proof.
  intros Hv Hb Hn. rewrite bit_pos_at in Hb by done. destruct r as [ty m].
  destruct ty, c; cbn in *; simplify_eq; repeat case_match; simplify_eq; bool_to_prop;
    cbn in *; div_lia.
Qed.

Definition list_within (d : nat) (r : encoding_rule) : Prop :=
  match rule_type r with
  | PAYLOAD_LIST t => is_list_type t = true /\ (rank (class (payload_create t)) <= d)%nat
  | _ => True
  end.

Lemma parse_rule_ends d sub r c c' pld l this :
  sub_ends d sub -> valid this -> bit_pos this = bit_of c -> next c r = Some c' ->
  sound_locals l ->
  list_within d r ->
  rule_ends (Z.of_nat (fixed_bits r)) c' r pld this (parse_rule sub r (pld, l, this)).
Proof.
  intros Hsub Hv Hb Hn Hl Ht. pose proof (next_bit _ _ _ _ Hv Hb Hn) as Hc.
  pose proof Hl as [Hs Ha]. destruct r as [ty m].
  destruct ty; cbn [rule_type offset fixed_bits list_within] in *; cbn [parse_rule rule_type offset].
  all: try (assert (bit_pos this = 0 /\ c' = At 0) as [H0 ->];
    [destruct c as [k|]; cbn in Hn; [|done]; destruct (Z.eqb_spec k 0); [|done];
     cbn in Hb; split; [lia|congruence]|]).
  all: try rewrite (parse_uint8_read this Hv H0).
  all: try rewrite (parse_uint16_read this Hv H0).
  all: try rewrite (parse_uint32_read this Hv H0).
  all: try rewrite (parse_bit_read this Hv).
  all: try apply store_num_ends; try done.
  all: try (intros; by split).
  - rewrite parse_uint4_read; [by apply store_num_ends|done|].
    rewrite Hb. destruct c as [k|]; [|by right]. cbn in Hn.
    destruct (Z.eqb_spec k 0); [by left|done].
  - pose proof (read_ends this 16 (At 0) Hv Hc) as H.
    destruct (read 16 this) as [[v this']| | |] eqn:E; cbn -[Z.mul] in *; try done.
    destruct (v <? 4); [done|]. destruct H as (Hp & Hm & Hb'). apply read_rules in E.
    split_and!; try done. by apply kept_set_num.
  - rewrite parse_chunk_read by done. apply store_bytes_ends; auto; lia.
  - rewrite parse_uint15_read; [by apply store_num_ends; try (intros; by split)|done|].
    rewrite Hb. destruct c as [k|]; [|done]. cbn in Hn. destruct (Z.eqb_spec k 1); [done|done].
  - case_match; [rewrite parse_chunk_read by done; apply store_bytes_ends; auto; lia|].
    split_and!; try done. by split; [done|done|done|cbn; lia].
  - rewrite parse_chunk_read by (done || case_match; done). apply store_bytes_ends; auto;
      case_match; lia.
  - destruct (Z.ltb_spec (payload_length l) (get_header_length pld)); [done|].
    rewrite parse_chunk_read by (done || lia). apply store_bytes_ends; auto; lia.
  - rewrite parse_bytes_read by done. apply store_bytes_ends; auto; lia.
  - pose proof (valid_end _ Hv) as Hend.
    assert (0 <= len (input this) - byte_pos this) by (unfold at_bit in Hend; lia).
    rewrite parse_chunk_read by done. apply store_bytes_ends; auto; lia.
  - destruct Ht as [Ht Hd]. rewrite Ht. cbn [negb].
    destruct (Z.ltb_spec (payload_length l) (get_header_length pld)); [done|].
    unfold parse_list. rewrite (proj2 (Z.ltb_ge _ _)), H0 by lia. cbn [negb Z.eqb].
    pose proof (parse_list_loop_ends d sub payload_type Hsub Ht Hd
                  (Z.to_nat (payload_length l - get_header_length pld))
                  (payload_length l - get_header_length pld) (elements pld) this) as G.
    destruct (parse_list_loop _ _ _ _ _ _) as [[es this']| | |]; cbn in *;
      try (apply G; [lia|done|done]).
    destruct G as (_ & Hm & Hb'); [lia|done|done|]. by split_and!.
Qed.

(** The table that is loaded is [pre ++ rs]; a list is last, so that it does not matter
    which table is loaded after it. *)
Lemma parse_rules_ends d sub : sub_ends d sub ->
  forall rs pre c pld l this,
  valid this -> bit_pos this = bit_of c -> aligned c rs = true -> lists_last rs = true ->
  sound_locals l ->
  Forall (list_within d) rs ->
  rules this = pre ++ rs ->
  match parse_rules sub (length rs) (length pre) (pld, l, this) with
  | Ok (pld', _, this') =>
      kept rs pld pld' /\ bit_pos this' = 0 /\
      moved (match rs with [] => 0 | r :: _ => Z.of_nat (fixed_bits r) end) this this' /\
      (existsb is_list_rule rs = false -> elements pld' = elements pld)
  | Parse_error => True
  | Outside | Exhausted => False
  end.
Proof.
  intros Hsub. induction rs as [|r rs IH]; intros pre c pld l this Hv Hb Ha Hlast Hl Hr Ht.
  { cbn. apply Z.eqb_eq in Ha. split_and!; [done|congruence| |done]. split; auto. lia. }
  cbn [aligned lists_last] in *. apply andb_true_iff in Hlast as [Hr1 Hlast].
  destruct (next c r) as [c'|] eqn:Hn; [|done]. inversion_clear Hr.
  cbn [length parse_rules].
  assert (rules this !! length pre = Some r) as -> by (rewrite Ht; by apply list_lookup_middle).
  pose proof (parse_rule_ends d sub r c c' pld l this Hsub Hv Hb Hn Hl H) as R.
  destruct (parse_rule sub r (pld, l, this)) as [[[pld1 l1] this1]| | |]; cbn [bind]; cbn in R;
    try done.
  destruct R as (Hk & Hl1 & Hm & Hb1 & Hr2).
  assert (rs = [] \/ rules this1 = (pre ++ [r]) ++ rs) as [->|Ht1].
  { destruct (is_list_rule r); [left; by destruct rs|right].
    rewrite (proj1 (Hr2 eq_refl)), Ht. by rewrite <- app_assoc. }
  - cbn. apply Z.eqb_eq in Ha. split_and!; [done|congruence|done|].
    rewrite orb_false_r. apply Hr2.
  - specialize (IH (pre ++ [r]) c' pld1 l1 this1 (moved_valid _ _ _ Hm) Hb1 Ha Hlast Hl1 H0 Ht1).
    rewrite length_app in IH. cbn [length] in IH. rewrite Nat.add_1_r in IH.
    destruct (parse_rules _ _ _ _) as [[[pld2 l2] this2]| | |]; try done.
    destruct IH as (Hk2 & Hb2 & Hm2 & He2). split_and!; [|done| |].
    + exact (kept_trans _ _ _ _ _ Hk Hk2).
    + destruct (moved_trans _ _ _ _ _ Hm Hm2). split; auto. destruct rs; lia.
    + cbn [existsb]. intros [E1 E2]%orb_false_iff. rewrite He2 by done. by apply Hr2.
Qed.

Lemma set_rules_valid rs this : valid this -> valid (set_rules rs this).
Proof. intros []. by split. Qed.

Lemma create_instance_kind t v : type_ (create_instance t v) = t /\ (class (create_instance t v) = C_ENCRYPTED -> t = PLV2_ENCRYPTED \/ t = PLV1_ENCRYPTED).
Proof.
  unfold create_instance, payload_create. destruct (payload_is_known t v); [|done].
  repeat match goal with |- context [if ?b then _ else _] => destruct b eqn:? end;
    bool_to_prop; subst; (split; [done|intros; (discriminate || (rewrite <- !Z.eqb_eq; tauto) || auto)]).
Qed.

Lemma list_type_known t : is_list_type t = true -> PL_HEADER <= t /\ t <> PLV1_ENCRYPTED.
Proof.
  unfold is_list_type. rewrite !orb_true_iff, !Z.eqb_eq. intros H.
  repeat destruct H as [H|H]; subst; by vm_compute.
Qed.

Lemma lists_within c t d : (rank c <= S d)%nat -> Forall (list_within d) (rules_of c t).
Proof.
  intros Hd. apply Forall_forall. intros r Hr. pose proof (lists_deeper_all c t) as HD.
  unfold lists_deeper in HD. rewrite forallb_forall in HD.
  specialize (HD r (proj1 (list_elem_of_In _ _) Hr)). unfold list_within.
  destruct (rule_type r); try done.
  rewrite !andb_true_iff, Nat.ltb_lt in HD. split; [tauto|lia].
Qed.

(** Enough depth for the kind of payload that is parsed. *)
Lemma parse_payload_ends d : forall t this,
  (rank (class (create_instance t (major_version this))) <= d)%nat ->
  valid this -> bit_pos this = 0 ->
  match parse_payload d t this with
  | Ok (p, this') => moved 0 this this' /\ bit_pos this' = 0 /\
      (t <> PLV1_ENCRYPTED -> moved 1 this this') /\
      let base := create_instance t (major_version this) in
      kept (get_encoding_rules base) base p /\
      (existsb is_list_rule (get_encoding_rules base) = false -> elements p = elements base)
  | Parse_error => True
  | Outside | Exhausted => False
  end.
Proof.
  induction d as [|d IH]; intros t this Hd Hv Hb.
  { pose proof (rank_le (class (create_instance t (major_version this)))). lia. }
  cbn [parse_payload]. set (base := create_instance t (major_version this)) in *.
  pose proof (create_instance_kind t (major_version this)) as [Kt Kc]. fold base in Kt, Kc.
  assert (sub_ends d (parse_payload d)) as Hsub.
  { intros t' this' Ht Hr Hv' Hb'. specialize (IH t' this').
    assert (PL_HEADER <= t' /\ t' <> PLV1_ENCRYPTED) as [Hk Hne].
    { by apply list_type_known. }
    unfold create_instance in IH at 1. unfold payload_is_known in IH.
    rewrite (proj2 (Z.leb_le _ _) Hk) in IH.
    destruct (parse_payload d t' this') as [[p this1]| | |]; cbn -[Z.mul]; try (apply IH; done).
    destruct IH as (Hm & Hb1 & H1 & _); [done|done|done|]. split_and!; [done| |done].
    destruct (H1 Hne) as [V I M B]. split; auto.
    rewrite (bit_pos_at _ V) in Hb1. rewrite (bit_pos_at _ Hv') in Hb'. div_lia. }
  pose proof (parse_rules_ends d (parse_payload d) Hsub (get_encoding_rules base) [] (At 0) base
    no_locals (set_rules (get_encoding_rules base) this) (set_rules_valid _ _ Hv) Hb
    (aligned_all _ _) (lists_last_all _ _) (conj (Z.le_refl 0) (Z.le_refl 0))
    (lists_within _ _ _ Hd) eq_refl) as R.
  cbn [rules set_rules]. change (length (@nil encoding_rule)) with 0%nat in R.
  destruct (parse_rules _ _ _ _) as [[[pld l] this1]| | |]; cbn [bind]; try done.
  destruct R as (Hk & Hb1 & [V I M B] & He). split_and!; [|done|intros Hne|done|done].
  - split; auto. change (at_bit (set_rules _ this)) with (at_bit this) in B.
    destruct (get_encoding_rules base); lia.
  - split; auto. change (at_bit (set_rules _ this)) with (at_bit this) in B.
    pose proof (fixed_bits_all (class base) (type_ base)) as [[Fc Ft]|F].
    + destruct (Kc Fc); congruence.
    + unfold get_encoding_rules in B. destruct (rules_of _ _); [done|lia].
Qed.
