(* ===== verification/ParserComplete.v ===== *)
(** The bits of a well-formed payload are parsed to that payload: the loop over the rules
    fills in one member after the other ([fill]), and what it remembers in local variables
    is what the payload says ([locals_of]). *)

From Stdlib Require Import Strings.String.
From stdpp Require Import gmap strings.
From S2P Require Import Prelude TrafficSelector Bits Payloads Parser Encoding ParserSpec.
#[local] Open Scope Z_scope.

(** * Members *)

Lemma lookup_clear {A} ms (mem : gmap string A) k :
  clear ms mem !! k = if decide (k ∈ ms) then None else mem !! k.
Proof.
  induction ms as [|m ms IH].
  { destruct (decide (k ∈ [])) as [H|]; [by apply elem_of_nil in H|done]. }
  change (clear (m :: ms) mem) with (delete m (clear ms mem)).
  destruct (decide (k = m)) as [->|Hn].
  - rewrite lookup_delete_eq, decide_True; [done|left].
  - rewrite lookup_delete_ne, IH by done. apply decide_ext. rewrite elem_of_cons. naive_solver.
Qed.

Definition fill_rule (p : payload) (r : encoding_rule) (q : payload) : payload :=
  let m := offset r in
  match rule_type r with
  | IKE_SPI | SPI | CHUNK_DATA | ADDRESS | ENCRYPTED_DATA => set_bytes m (bytes m p) q
  | ATTRIBUTE_VALUE => if value_format p =? 0 then set_bytes m (bytes m p) q else q
  | PAYLOAD_LIST _ => set_elements (elements p) q
  | _ => set_num m (num m p) q
  end.

Definition fill (p : payload) (rs : list encoding_rule) (q : payload) : payload :=
  fold_left (fun q r => fill_rule p r q) rs q.

Definition local_rule (p : payload) (r : encoding_rule) (l : locals) : locals :=
  let v := num (offset r) p in
  match rule_type r with
  | PAYLOAD_LENGTH => with_payload_length v l
  | SPI_SIZE => with_spi_size v l
  | ATTRIBUTE_FORMAT => with_attribute_format v l
  | ATTRIBUTE_LENGTH | ATTRIBUTE_LENGTH_OR_VALUE => with_attribute_length v l
  | TS_TYPE => with_ts_type v l
  | _ => l
  end.

Definition locals_of (p : payload) (rs : list encoding_rule) : locals :=
  fold_left (fun l r => local_rule p r l) rs no_locals.

Lemma fill_snoc p rs r q : fill p (rs ++ [r]) q = fill_rule p r (fill p rs q).
Proof. unfold fill. by rewrite fold_left_app. Qed.
Lemma locals_snoc p rs r : locals_of p (rs ++ [r]) = local_rule p r (locals_of p rs).
Proof. unfold locals_of. by rewrite fold_left_app. Qed.

Lemma fill_kind p rs q : same_kind q (fill p rs q).
Proof.
  induction rs as [|r rs IH] using rev_ind; [done|]. rewrite fill_snoc.
  unfold fill_rule. destruct IH. destruct (rule_type r); try case_match; by split.
Qed.

Lemma members_snoc f rs r k :
  k ∈ offset <$> List.filter f (rs ++ [r]) <->
  k ∈ offset <$> List.filter f rs \/ f r = true /\ k = offset r.
Proof.
  rewrite List.filter_app, fmap_app, elem_of_app. cbn. destruct (f r); cbn.
  - rewrite list_elem_of_singleton. naive_solver.
  - rewrite elem_of_nil. naive_solver.
Qed.

Lemma fill_nums p rs q k :
  nums (fill p rs q) !! k =
  if decide (k ∈ num_members rs) then (if decide (num k p = 0) then None else Some (num k p))
  else nums q !! k.
Proof.
  induction rs as [|r rs IH] using rev_ind.
  { destruct (decide (k ∈ num_members [])) as [H|]; [by apply elem_of_nil in H|done]. }
  rewrite fill_snoc. unfold num_members in *.
  destruct (is_num_rule r) eqn:E.
  - assert (fill_rule p r (fill p rs q) = set_num (offset r) (num (offset r) p) (fill p rs q)) as ->.
    { destruct r as [[] m]; done. }
    cbn [nums set_num]. rewrite lookup_store, IH.
    destruct (decide (k = offset r)) as [->|Hk].
    + rewrite (decide_True (P := offset r ∈ _)); [done|]. apply members_snoc. auto.
    + apply decide_ext. rewrite members_snoc. naive_solver.
  - assert (nums (fill_rule p r (fill p rs q)) = nums (fill p rs q)) as ->.
    { unfold fill_rule. destruct r as [[] m]; try done. cbn [rule_type].
      by destruct (value_format p =? 0). }
    rewrite IH. apply decide_ext. rewrite members_snoc, E. naive_solver.
Qed.

Lemma fill_chunks p rs q k :
  (forall r, r ∈ rs -> rule_type r = ATTRIBUTE_VALUE -> value_format p <> 0 ->
   bytes (offset r) p = [] /\ chunks q !! offset r = None) ->
  chunks (fill p rs q) !! k =
  if decide (k ∈ bytes_members rs) then (if decide (bytes k p = []) then None else Some (bytes k p))
  else chunks q !! k.
Proof.
  induction rs as [|r rs IH] using rev_ind; intros Hv.
  { destruct (decide (k ∈ bytes_members [])) as [H|]; [by apply elem_of_nil in H|done]. }
  assert (Hr := Hv r ltac:(apply elem_of_app; right; left)).
  assert (IH' := IH ltac:(intros r' H'; apply Hv, elem_of_app; by left)). clear IH Hv.
  rewrite fill_snoc. unfold bytes_members in *.
  destruct (is_bytes_rule r) eqn:E.
  - destruct (decide (k = offset r)) as [->|Hk].
    + rewrite (decide_True (P := offset r ∈ _)) by (apply members_snoc; auto).
      destruct (decide (rule_type r = ATTRIBUTE_VALUE /\ value_format p <> 0)) as [[Ea Ef]|Hn].
      * destruct (Hr Ea Ef) as [Hb Hq]. rewrite (decide_True (P := bytes _ _ = [])) by done.
        destruct r as [ty m]. cbn in *. subst ty. cbn. rewrite (proj2 (Z.eqb_neq _ _) Ef).
        rewrite IH', Hq. repeat case_decide; done.
      * assert (fill_rule p r (fill p rs q) =
                set_bytes (offset r) (bytes (offset r) p) (fill p rs q)) as ->.
        { destruct r as [[] m]; try done. unfold fill_rule; cbn [rule_type offset] in *.
          destruct (Z.eqb_spec (value_format p) 0); [done|]. by destruct Hn. }
        cbn [chunks set_bytes]. rewrite lookup_store. repeat case_decide; done.
    + assert (chunks (fill_rule p r (fill p rs q)) !! k = chunks (fill p rs q) !! k) as ->.
      { assert (forall c x, chunks (set_bytes (offset r) c x) !! k = chunks x !! k) as G.
        { intros. cbn. rewrite lookup_store. by rewrite decide_False. }
        destruct r as [[] m]; cbn [fill_rule rule_type offset] in *; try done; try apply G.
        destruct (value_format p =? 0); [apply G|done]. }
      rewrite IH'. apply decide_ext. rewrite members_snoc. naive_solver.
  - assert (chunks (fill_rule p r (fill p rs q)) = chunks (fill p rs q)) as ->.
    { destruct r as [[] m]; done. }
    rewrite IH'. apply decide_ext. rewrite members_snoc, E. naive_solver.
Qed.

Lemma fill_elements p rs q :
  elements (fill p rs q) = if existsb is_list_rule rs then elements p else elements q.
Proof.
  induction rs as [|r rs IH] using rev_ind; [done|].
  rewrite fill_snoc, existsb_app. cbn [existsb]. rewrite orb_false_r.
  destruct (is_list_rule r) eqn:E.
  - rewrite orb_true_r. destruct r as [[] m]; done.
  - rewrite orb_false_r, <- IH. destruct r as [[] m]; try done.
    unfold fill_rule; cbn [rule_type]. by destruct (value_format p =? 0).
Qed.

Lemma as_created_unfold p : as_created p = true ->
  class p = class (base_of p) /\ type_ p = type_ (base_of p) /\
  clear (num_members (get_encoding_rules p)) (nums p)
    = clear (num_members (get_encoding_rules p)) (nums (base_of p)) /\
  clear (bytes_members (get_encoding_rules p)) (chunks p)
    = clear (bytes_members (get_encoding_rules p)) (chunks (base_of p)) /\
  map_Forall (fun _ v => v <> 0) (nums p) /\ map_Forall (fun _ c => c <> []) (chunks p) /\
  (existsb is_list_rule (get_encoding_rules p) = true \/ elements p = []).
Proof.
  unfold as_created. rewrite !andb_true_iff, orb_true_iff, !bool_decide_eq_true, Z.eqb_eq.
  intros. destruct (elements p); intuition congruence.
Qed.

Lemma num_canonical p k : map_Forall (fun _ v => v <> 0) (nums p) ->
  nums p !! k = if decide (num k p = 0) then None else Some (num k p).
Proof.
  intros H. unfold num. destruct (nums p !! k) eqn:E; cbn; [|done].
  rewrite decide_False; [done|]. exact (H _ _ E).
Qed.
Lemma bytes_canonical p k : map_Forall (fun _ c => c <> []) (chunks p) ->
  chunks p !! k = if decide (bytes k p = []) then None else Some (bytes k p).
Proof.
  intros H. unfold bytes. destruct (chunks p !! k) eqn:E; cbn; [|done].
  case_decide; [|done]. by destruct (H _ _ E).
Qed.

Lemma elements_base p : elements (base_of p) = [].
Proof.
  unfold base_of, payload_create. destruct (class p); try done;
    repeat match goal with |- context [if ?b then _ else _] => destruct b end; done.
Qed.

(** No constructor sets a value of an attribute. *)
Lemma attribute_value_base c t k :
  Rule ATTRIBUTE_VALUE k ∈ rules_of c t -> c = C_ATTRIBUTE \/ c = C_CONFIGURATION_ATTRIBUTE.
Proof.
  destruct c; cbn [rules_of]; auto;
    repeat match goal with |- context [if ?b then _ else _] => destruct b end;
    intros H%list_elem_of_In; exfalso; vm_compute in H; intuition congruence.
Qed.

Lemma payload_create_attribute t :
  class (payload_create t) = C_ATTRIBUTE \/ class (payload_create t) = C_CONFIGURATION_ATTRIBUTE ->
  chunks (payload_create t) = ∅.
Proof.
  unfold payload_create;
    repeat match goal with |- context [if ?b then _ else _] => destruct b end; try done.
  all: intros [H|H]; discriminate H.
Qed.

Lemma payload_ext p q : class p = class q -> type_ p = type_ q -> nums p = nums q ->
  chunks p = chunks q -> elements p = elements q -> p = q.
Proof. destruct p, q; cbn. congruence. Qed.

Lemma fill_all p : well_formed p = true -> fill p (get_encoding_rules p) (base_of p) = p.
Proof.
  intros (Hr & Hc & _)%well_formed_unfold.
  apply as_created_unfold in Hc as (Hcl & Hty & Hn & Hb & Zn & Zb & Hl).
  set (rs := get_encoding_rules p) in *.
  pose proof (fill_kind p rs (base_of p)) as [K1 K2].
  apply payload_ext; [congruence|congruence| | |].
  - apply map_eq. intros k. rewrite fill_nums.
    case_decide as Hk; [by rewrite num_canonical|].
    apply (f_equal (lookup k)) in Hn. rewrite !lookup_clear, !decide_False in Hn by done. done.
  - apply map_eq. intros k. rewrite fill_chunks.
    + case_decide as Hk; [by rewrite bytes_canonical|].
      apply (f_equal (lookup k)) in Hb. rewrite !lookup_clear, !decide_False in Hb by done. done.
    + intros r Hrs Hv Hf. rewrite Forall_forall in Hr. specialize (Hr r Hrs).
      unfold rule_ok in Hr. destruct r as [ty mm]. cbn in Hv. subst ty. cbn in Hr |- *.
      apply andb_true_iff in Hr as [_ Hr]. rewrite (proj2 (Z.eqb_neq _ _) Hf) in Hr.
      apply Z.eqb_eq, len_zero_inv in Hr. split; [done|].
      apply attribute_value_base in Hrs.
      assert (base_of p = payload_create (type_ p)) as Eb.
      { unfold base_of. destruct Hrs as [-> | ->]; done. }
      rewrite Eb, payload_create_attribute; [apply lookup_empty|]. rewrite <- Eb, <- Hcl. done.
  - rewrite fill_elements, elements_base. fold rs in Hl.
    destruct Hl as [-> | ->]; [done|]. by case_match.
Qed.

(** * Reading known bits *)

(** From one parser to the other [l] is read. *)
Record took (l : list bool) (this this' : parser) : Prop := {
  took_valid : valid this';
  took_input : input this' = input this;
  took_version : major_version this' = major_version this;
  took_bits : remaining this = l ++ remaining this';
}.

Lemma took_trans l k a b c : took l a b -> took k b c -> took (l ++ k) a c.
Proof. intros [] []. split; [done|congruence|congruence|]. rewrite <- app_assoc. congruence. Qed.

Lemma took_at l this this' : valid this -> took l this this' ->
  at_bit this' = at_bit this + Z.of_nat (length l).
Proof.
  intros Hv [V I M B]. pose proof (length_remaining _ Hv) as H1.
  pose proof (length_remaining _ V) as H2. rewrite B, length_app in H1. rewrite I in H2. lia.
Qed.

Lemma enough_app n this l rest :
  valid this -> remaining this = l ++ rest -> length l = n -> enough (Z.of_nat n) this = true.
Proof. intros Hv Hr Hn. apply enough_remaining; [done|]. rewrite Hr, length_app. lia. Qed.

Lemma took_seek l this rest : valid this -> remaining this = l ++ rest ->
  took l this (seek (at_bit this + Z.of_nat (length l)) this) /\
  remaining (seek (at_bit this + Z.of_nat (length l)) this) = rest.
Proof.
  intros Hv Hr. pose proof (enough_app _ _ _ _ Hv Hr eq_refl) as He.
  pose proof (remaining_seek _ _ Hv He) as Hs. rewrite Hr, drop_app_length in Hs.
  split; [|done]. split; [|done|done|congruence].
  apply (moved_valid _ _ _ (moved_seek _ _ Hv (Nat2Z.is_nonneg _) He)).
Qed.

Lemma read_bits n v this rest :
  valid this -> remaining this = bits n v ++ rest -> fits (Z.of_nat n) v = true ->
  exists this', read n this = Ok (v, this') /\ took (bits n v) this this' /\
  remaining this' = rest.
Proof.
  intros Hv Hr Hf. unfold fits in Hf. apply andb_true_iff in Hf as [H0%Z.leb_le H1%Z.ltb_lt].
  pose proof (took_seek _ _ _ Hv Hr) as Ht. rewrite length_bits in Ht.
  eexists. split; [|exact Ht]. unfold read.
  rewrite (enough_app n this _ _ Hv Hr (length_bits n v)). f_equal. f_equal.
  rewrite Hr, take_app_length' by (by rewrite length_bits).
  rewrite bits_val_bits. by apply Z.mod_small.
Qed.

Lemma octets_ok c : octets c = true -> bytes_ok c.
Proof.
  unfold octets, fits. rewrite forallb_forall, Forall_forall. intros H x Hx%list_elem_of_In.
  specialize (H x Hx). apply andb_true_iff in H as [H0%Z.leb_le H1%Z.ltb_lt]. done.
Qed.

Lemma read_chunk_bits c this rest :
  valid this -> bit_pos this = 0 -> remaining this = of_bytes c ++ rest -> octets c = true ->
  exists this', read_chunk (len c) this = Ok (c, this') /\ took (of_bytes c) this this' /\
  remaining this' = rest.
Proof.
  intros Hv Hb Hr Hc%octets_ok. pose proof (took_seek _ _ _ Hv Hr) as Ht.
  rewrite length_of_bytes in Ht.
  replace (Z.of_nat (8 * length c)) with (8 * len c) in Ht by (unfold len; lia).
  eexists. split; [|exact Ht]. unfold read_chunk.
  pose proof (enough_app _ _ _ _ Hv Hr eq_refl) as He. rewrite length_of_bytes in He.
  replace (Z.of_nat (8 * length c)) with (8 * len c) in He by (unfold len; lia). rewrite He.
  f_equal. f_equal. apply of_bytes_inj; [|done|].
  - destruct Hv. auto with chunk.
  - unfold remaining in Hr. rewrite Hb in Hr. cbn in Hr. rewrite drop_0 in Hr.
    rewrite of_bytes_take, Hr. unfold len. rewrite Nat2Z.id.
    by rewrite take_app_length' by (by rewrite length_of_bytes).
Qed.

(** * What the tables remember *)

Definition needs_spi (c : payload_class) : bool :=
  match c with C_PROPOSAL | C_NOTIFY => true | _ => false end.

(** When the loop comes to a rule, what the rule uses was read before. *)
Definition ready (rs : list encoding_rule) (p : payload) (pre : list encoding_rule)
    (r : encoding_rule) : Prop :=
  let l := locals_of p pre in
  match rule_type r with
  | SPI => offset r = "spi"%string /\ spi_size l = num "spi_size" p /\
           In (Rule SPI_SIZE "spi_size") rs
  | CHUNK_DATA | PAYLOAD_LIST _ =>
      (exists m, In (Rule PAYLOAD_LENGTH m) rs /\ payload_length l = num m p) /\
      (needs_spi (class p) = true -> existsb (String.eqb "spi_size") (num_members pre) = true) /\
      existsb is_list_rule pre = false /\
      forall es, rs ≫= body_rule es p = rule_bits es p r
  | ADDRESS => ts_type l = num "ts_type" p
  | ATTRIBUTE_VALUE =>
      offset r = value_member p /\ attribute_format l = value_format p /\
      exists m, attribute_length l = num m p /\
      (In (Rule ATTRIBUTE_LENGTH m) rs \/ In (Rule ATTRIBUTE_LENGTH_OR_VALUE m) rs)
  | _ => True
  end.

Fixpoint all_ready (table : list encoding_rule) (p : payload) (pre rs : list encoding_rule)
    : Prop :=
  match rs with
  | [] => True
  | r :: rs => ready table p pre r /\ all_ready table p (pre ++ [r]) rs
  end.

Ltac is_ready :=
  repeat split;
  try (intros; cbn; rewrite ?app_nil_r; reflexivity);
  try (eexists; split; [|reflexivity]; cbn; tauto);
  try (eexists; split; [reflexivity|]; cbn; tauto);
  try (cbn; tauto).

Lemma tables_ready p : all_ready (get_encoding_rules p) p [] (get_encoding_rules p).
Proof.
  destruct p as [c t m ch es].
  destruct c; unfold get_encoding_rules; cbn [rules_of class type_];
    repeat match goal with |- context [if ?b then _ else _] => destruct b eqn:? end.
  all: cbn; repeat match goal with H : _ = _ |- _ => rewrite ?H; clear H end; is_ready.
Qed.

(** * Rules *)

Definition parses_to (sub : Z -> parser -> result (payload * parser)) (e : payload) : Prop :=
  forall this rest, valid this -> bit_pos this = 0 -> remaining this = encode e ++ rest ->
  exists this', sub (type_ e) this = Ok (e, this') /\ took (encode e) this this' /\
  remaining this' = rest /\ bit_pos this' = 0.

Lemma took_nil this : valid this -> took [] this this.
Proof. by split. Qed.

Lemma took_bytes l this this' : valid this -> took l this this' -> bit_pos this = 0 ->
  bit_pos this' = 0 -> 8 * (byte_pos this' - byte_pos this) = Z.of_nat (length l).
Proof. intros Hv Ht H H'. apply took_at in Ht; [|done]. unfold at_bit in *. lia. Qed.

Lemma parse_list_loop_encode sub t : forall es fuel length acc this rest,
  Forall (fun e => parses_to sub e /\ type_ e = t /\ encode e <> []) es ->
  valid this -> bit_pos this = 0 -> remaining this = encode_all es ++ rest ->
  8 * length = Z.of_nat (Datatypes.length (encode_all es)) -> length <= Z.of_nat fuel ->
  exists this', parse_list_loop sub fuel t length acc this = Ok (acc ++ es, this') /\
  took (encode_all es) this this' /\ remaining this' = rest /\ bit_pos this' = 0.
Proof.
  induction es as [|e es IH]; intros fuel length acc this rest Hes Hv Hb Hr Hl Hf.
  { cbn in Hl. assert (length = 0) as -> by lia. exists this.
    rewrite app_nil_r. split_and!; [by destruct fuel|by apply took_nil|done|done]. }
  inversion_clear Hes as [|? ? (He & Ht & Hne) Hes'].
  cbn [encode_all flat_map] in *. rewrite <- app_assoc in Hr.
  destruct (He this _ Hv Hb Hr) as (this1 & E1 & T1 & R1 & B1).
  pose proof (took_bytes _ _ _ Hv T1 Hb B1) as Hd.
  assert (0 < Z.of_nat (Datatypes.length (encode e))) by (destruct (encode e); [done|cbn; lia]).
  rewrite length_app in Hl.
  destruct fuel as [|fuel]; [lia|]. cbn [parse_list_loop].
  destruct (Z.gtb_spec length 0); [|lia]. subst t. rewrite E1. cbn [bind].
  destruct (IH fuel (length - (byte_pos this1 - byte_pos this)) (acc ++ [e]) this1 rest Hes'
              (took_valid _ _ _ T1) B1 R1) as (this2 & E2 & T2 & R2 & B2);
    [fold (encode_all es) in *; lia|lia|].
  exists this2. rewrite E2, <- app_assoc. split_and!; [done| |done|done].
  exact (took_trans _ _ _ _ _ T1 T2).
Qed.

Lemma took_bit_pos c c' r l this this' :
  valid this -> took l this this' -> bit_pos this = bit_of c -> next c r = Some c' ->
  Z.of_nat (length l) mod 8 = Z.of_nat (fixed_bits r) mod 8 -> bit_pos this' = bit_of c'.
Proof.
  intros Hv Ht Hb Hn Hl. rewrite (next_bit _ _ _ _ Hv Hb Hn).
  rewrite (bit_pos_at this' (took_valid _ _ _ Ht)), (took_at _ _ _ Hv Ht).
  rewrite Z.add_mod, Hl by lia. by rewrite <- Z.add_mod by lia.
Qed.

(** What a rule does, when the bits at the position are those of the payload. *)
Definition rule_done (p : payload) (es : list bool) (r : encoding_rule) (q : payload) (l : locals)
    (this : parser) (rest : list bool) (x : result parsing) : Prop :=
  exists this', x = Ok (fill_rule p r q, local_rule p r l, this') /\
  took (rule_bits es p r) this this' /\ remaining this' = rest /\
  (is_list_rule r = false -> rules this' = rules this).

Lemma store_num_done p es r q l n f this rest :
  valid this -> remaining this = rule_bits es p r ++ rest ->
  rule_bits es p r = bits n (num (offset r) p) -> fits (Z.of_nat n) (num (offset r) p) = true ->
  fill_rule p r q = set_num (offset r) (num (offset r) p) q ->
  local_rule p r l = f (num (offset r) p) l ->
  rule_done p es r q l this rest (store_num (offset r) f q l (read n this)).
Proof.
  intros Hv Hr Hb Hf Hq Hl. unfold rule_done. rewrite Hb, Hq, Hl in *.
  destruct (read_bits n _ _ _ Hv Hr Hf) as (this' & E & T & R). exists this'.
  unfold store_num. rewrite E. split_and!; [done|done|done|]. intros _. by apply read_rules in E.
Qed.

Lemma store_bytes_done p es r q l this rest n :
  valid this -> bit_pos this = 0 -> remaining this = rule_bits es p r ++ rest ->
  rule_bits es p r = of_bytes (bytes (offset r) p) -> octets (bytes (offset r) p) = true ->
  fill_rule p r q = set_bytes (offset r) (bytes (offset r) p) q -> local_rule p r l = l ->
  n = len (bytes (offset r) p) ->
  rule_done p es r q l this rest (store_bytes (offset r) q l (parse_chunk this n)).
Proof.
  intros Hv H0 Hr Hb Hf Hq Hl ->. unfold rule_done.
  rewrite parse_chunk_read by (done || apply len_nonneg). rewrite Hb, Hq, Hl in *.
  destruct (read_chunk_bits _ _ _ Hv H0 Hr Hf) as (this' & E & T & R). exists this'.
  unfold store_bytes. rewrite E. split_and!; [done|done|done|]. intros _.
  by apply read_chunk_rules in E.
Qed.

Lemma flag_bits v : fits 1 v = true -> bits 1 v = [negb (v =? 0)].
Proof.
  unfold fits. rewrite andb_true_iff, Z.leb_le, Z.ltb_lt. intros H.
  assert (v = 0 \/ v = 1) as [-> | ->] by lia; done.
Qed.

Lemma header_fill p pre q : same_kind p q ->
  (needs_spi (class p) = true -> existsb (String.eqb "spi_size") (num_members pre) = true) ->
  get_header_length (fill p pre q) = get_header_length p.
Proof.
  intros [K1 K2] Hn. destruct (fill_kind p pre q) as [F1 F2].
  unfold get_header_length, sa_get_header_length, proposal_get_header_length,
    ke_get_header_length, notify_get_header_length, delete_get_header_length,
    encrypted_get_header_length. rewrite F1, F2, K1, K2.
  assert (needs_spi (class p) = true -> num "spi_size" (fill p pre q) = num "spi_size" p) as G.
  { intros H%Hn. unfold num at 1. rewrite fill_nums, decide_True.
    - by case_decide as E; cbn; rewrite ?E.
    - apply existsb_exists in H as (k & Hk%list_elem_of_In & ->%String.eqb_eq). done. }
  destruct (class p); rewrite ?G by done; done.
Qed.

(** The rules of a well-formed payload that say how much follows. *)
Section Rules.

Variable p : payload.
Hypothesis Hok : Forall (fun r => rule_ok p r = true) (get_encoding_rules p).

Lemma ok_in r : In r (get_encoding_rules p) -> rule_ok p r = true.
Proof. rewrite Forall_forall in Hok. intros H%list_elem_of_In. by apply Hok. Qed.

Lemma ok_length m : In (Rule PAYLOAD_LENGTH m) (get_encoding_rules p) ->
  8 * (num m p - get_header_length p)
  = Z.of_nat (length (get_encoding_rules p ≫= body_rule (encode_all (elements p)) p)).
Proof.
  intros H%ok_in. unfold rule_ok in H; cbn [rule_type offset] in H.
  rewrite !andb_true_iff, Z.eqb_eq in H. unfold body_bits in H. lia.
Qed.

Lemma ok_spi : In (Rule SPI_SIZE "spi_size") (get_encoding_rules p) ->
  num "spi_size" p = len (bytes "spi" p).
Proof.
  intros H%ok_in. unfold rule_ok in H; cbn [rule_type offset] in H.
  rewrite !andb_true_iff, Z.eqb_eq in H. tauto.
Qed.

Lemma ok_attribute m : value_format p = 0 ->
  In (Rule ATTRIBUTE_LENGTH m) (get_encoding_rules p) \/
  In (Rule ATTRIBUTE_LENGTH_OR_VALUE m) (get_encoding_rules p) ->
  num m p = len (bytes (value_member p) p).
Proof.
  intros Hf [H%ok_in|H%ok_in]; unfold rule_ok in H; cbn [rule_type offset] in H;
    rewrite Hf in H; cbn [negb Z.eqb orb] in H; rewrite andb_true_iff, Z.eqb_eq in H; tauto.
Qed.

Variables (sub : Z -> parser -> result (payload * parser)).
Hypothesis Helements :
  Forall (fun e => parses_to sub e /\ encode e <> []) (elements p).

Lemma parse_rule_encode pre r q c c' this rest :
  same_kind p q -> elements q = [] ->
  In r (get_encoding_rules p) -> ready (get_encoding_rules p) p pre r ->
  valid this -> bit_pos this = bit_of c -> next c r = Some c' ->
  remaining this = rule_bits (encode_all (elements p)) p r ++ rest ->
  rule_done p (encode_all (elements p)) r (fill p pre q) (locals_of p pre) this rest
    (parse_rule sub r (fill p pre q, locals_of p pre, this)).
Proof.
  intros Hk Hq Hin Hready Hv Hb Hn Hr. pose proof (ok_in _ Hin) as Hrok.
  destruct r as [ty m]. unfold rule_ok in Hrok. cbn [rule_type offset] in Hrok.
  unfold ready in Hready. cbn [rule_type offset] in Hready.
  destruct ty; cbn [parse_rule rule_type offset].
  all: try (assert (bit_pos this = 0 /\ c' = At 0) as [H0 ->];
    [destruct c as [k|]; cbn in Hn; [|done]; destruct (Z.eqb_spec k 0); [|done];
     cbn in Hb; split; [lia|congruence]|]).
  all: try rewrite (parse_uint8_read this Hv H0).
  all: try rewrite (parse_uint16_read this Hv H0).
  all: try rewrite (parse_uint32_read this Hv H0).
  all: try rewrite (parse_bit_read this Hv).
  all: try (eapply store_num_done; [done|done|try done|try done|done|done]).
  all: try (symmetry; apply flag_bits; done).
  all: try (rewrite !andb_true_iff in Hrok; tauto).
  - rewrite parse_uint4_read; [by eapply store_num_done|done|].
    rewrite Hb. destruct c as [k|]; [|by right]. cbn in Hn.
    destruct (Z.eqb_spec k 0); [by left|done].
  - rewrite !andb_true_iff, Z.leb_le in Hrok.
    destruct (read_bits 16 _ _ _ Hv Hr) as (this' & E & T & R); [tauto|].
    rewrite E. cbn [bind]. rewrite (proj2 (Z.ltb_ge _ _)) by tauto.
    exists this'. split_and!; [done|done|done|]. intros _. by apply read_rules in E.
  - destruct Hready as (-> & Hs & Hi). eapply store_bytes_done; try done. by rewrite Hs, ok_spi.
  - rewrite parse_uint15_read; [by eapply store_num_done|done|].
    rewrite Hb. destruct c as [k|]; [|done]. cbn in Hn. destruct (Z.eqb_spec k 1); [done|done].
  - destruct Hready as (-> & -> & m' & Ha & Hi). rewrite andb_true_iff in Hrok.
    destruct (Z.eqb_spec (value_format p) 0) as [Hf|Hf].
    + eapply store_bytes_done; try done; try tauto.
      * unfold rule_bits; cbn [rule_type]. by rewrite Hf.
      * unfold fill_rule; cbn [rule_type]. by rewrite Hf.
      * rewrite Ha. by apply ok_attribute.
    + assert (rule_bits (encode_all (elements p)) p (Rule ATTRIBUTE_VALUE (value_member p)) = [])
        as Hnil.
      { unfold rule_bits; cbn [rule_type]. by rewrite (proj2 (Z.eqb_neq _ _) Hf). }
      exists this. rewrite Hnil in *. split_and!; [|by apply took_nil|done|done].
      unfold fill_rule; cbn [rule_type]. by rewrite (proj2 (Z.eqb_neq _ _) Hf).
  - rewrite andb_true_iff, Z.eqb_eq in Hrok. eapply store_bytes_done; try done; [tauto|].
    rewrite Hready. symmetry. tauto.
  - destruct Hready as ((m' & Hi & Hl) & Hs & _ & Hbody).
    rewrite header_fill by done. pose proof (ok_length _ Hi) as Hlen.
    rewrite Hbody in Hlen. unfold rule_bits in Hlen; cbn [rule_type offset] in Hlen.
    rewrite length_of_bytes in Hlen. rewrite Hl, (proj2 (Z.ltb_ge _ _)) by lia.
    eapply store_bytes_done; try done. cbn [offset]. unfold len. lia.
  - rewrite andb_true_iff, Z.eqb_eq in Hrok.
    eapply (store_bytes_done _ _ (Rule IKE_SPI m)); try done; [tauto|symmetry; tauto].
  - done.
  - rewrite andb_true_iff in Hrok. destruct Hrok as [Ht Hes]. rewrite Ht. cbn [negb].
    destruct Hready as ((m' & Hi & Hl) & Hs & Hpre & Hbody).
    rewrite header_fill by done. pose proof (ok_length _ Hi) as Hlen.
    rewrite Hbody in Hlen. unfold rule_bits in Hlen; cbn [rule_type offset] in Hlen.
    rewrite Hl, (proj2 (Z.ltb_ge _ _)) by lia. unfold parse_list.
    rewrite (proj2 (Z.ltb_ge _ _)), H0 by lia. cbn [negb Z.eqb].
    rewrite fill_elements, Hpre, Hq.
    destruct (parse_list_loop_encode sub payload_type (elements p)
                (Z.to_nat (num m' p - get_header_length p)) (num m' p - get_header_length p) []
                this rest) as (this' & E & T & R & B); try done; [|lia|].
    { rewrite forallb_forall in Hes. rewrite Forall_forall in *. intros e He.
      destruct (Helements e He). apply list_elem_of_In, Hes in He.
      rewrite andb_true_iff, Z.eqb_eq in He. tauto. }
    rewrite E. cbn [bind]. exists this'. by split_and!.
Qed.

End Rules.

Lemma well_formed_nonempty p : well_formed p = true -> encode p <> [].
Proof.
  intros (Hok & _)%well_formed_unfold Hn. rewrite encode_unfold in Hn.
  unfold get_encoding_rules in *. destruct (fixed_bits_all (class p) (type_ p)) as [[Hc Ht]|Hf].
  - rewrite Hc in Hok. cbn [rules_of] in Hok. rewrite (proj2 (Z.eqb_neq _ _) Ht) in Hok.
    inversion_clear Hok. done.
  - destruct (rules_of _ _) as [|r rs]; [done|]. unfold rules_bits in Hn. cbn in Hn.
    inversion_clear Hok as [|? ? Hr _].
    apply app_eq_nil in Hn as [Hn _]. apply (f_equal length) in Hn.
    destruct r as [ty m]; unfold rule_bits, fixed_bits, rule_ok in *; cbn [rule_type offset] in *;
      destruct ty; rewrite ?length_bits in Hn; cbn in Hn; try lia.
    rewrite length_of_bytes in Hn. rewrite andb_true_iff, Z.eqb_eq in Hr. unfold len in Hr. lia.
Qed.

(** * The loop over the rules *)

Lemma parse_rules_encode sub p base :
  same_kind p base -> elements base = [] ->
  Forall (fun r => rule_ok p r = true) (get_encoding_rules p) ->
  Forall (fun e => parses_to sub e /\ encode e <> []) (elements p) ->
  forall rs pre c this rest,
  get_encoding_rules p = pre ++ rs -> all_ready (get_encoding_rules p) p pre rs ->
  aligned c rs = true -> lists_last rs = true -> valid this -> bit_pos this = bit_of c ->
  rules this = pre ++ rs ->
  remaining this = rules_bits (encode_all (elements p)) p rs ++ rest ->
  exists l this',
  parse_rules sub (length rs) (length pre) (fill p pre base, locals_of p pre, this)
  = Ok (fill p (pre ++ rs) base, l, this') /\
  took (rules_bits (encode_all (elements p)) p rs) this this' /\ remaining this' = rest /\
  bit_pos this' = 0.
Proof.
  intros Hk He Hok Hel. induction rs as [|r rs IH];
    intros pre c this rest Hp Hready Ha Hlast Hv Hb Ht Hr.
  { rewrite app_nil_r. apply Z.eqb_eq in Ha. eexists _, this. split_and!; [done| |done|congruence].
    by apply took_nil. }
  destruct Hready as [Hr1 Hready]. cbn [aligned lists_last] in *.
  apply andb_true_iff in Hlast as [Hl1 Hlast]. destruct (next c r) as [c'|] eqn:Hn; [|done].
  unfold rules_bits in Hr. cbn [mbind list_bind] in Hr. rewrite <- app_assoc in Hr.
  cbn [length parse_rules].
  assert (rules this !! length pre = Some r) as -> by (rewrite Ht; by apply list_lookup_middle).
  assert (In r (get_encoding_rules p)) as Hin by (rewrite Hp, in_app_iff; cbn; tauto).
  destruct (parse_rule_encode p Hok sub Hel pre r base c c' this _ Hk He Hin Hr1 Hv Hb Hn Hr)
    as (this1 & E1 & T1 & R1 & Hrules). rewrite E1. cbn [bind].
  rewrite <- fill_snoc, <- locals_snoc.
  pose proof (took_bit_pos c c' r _ _ _ Hv T1 Hb Hn
                (rule_bits_fixed _ p r (encode_all_bytes (elements p)))) as B1.
  assert (rs = [] \/ rules this1 = (pre ++ [r]) ++ rs) as [->|Ht1].
  { destruct (is_list_rule r); [left; by destruct rs|right].
    rewrite Hrules, Ht by done. by rewrite <- app_assoc. }
  - cbn. apply Z.eqb_eq in Ha. eexists _, this1. split_and!; [done| |done|congruence].
    by rewrite app_nil_r.
  - assert (S (length pre) = length (pre ++ [r])) as -> by (rewrite length_app; cbn; lia).
    destruct (IH (pre ++ [r]) c' this1 rest) as (l & this2 & E2 & T2 & R2 & B2); try done.
    + by rewrite <- app_assoc.
    + apply (took_valid _ _ _ T1).
    + exists l, this2. rewrite E2, <- app_assoc. split_and!; [done| |done|done].
      exact (took_trans _ _ _ _ _ T1 T2).
Qed.

(** The instance that is made for a payload: that of its type. *)
Definition known_as (v : Z) (p : payload) : Prop := create_instance (type_ p) v = base_of p.

Lemma substructure_known p t v : is_list_type t = true -> type_ p = t ->
  class p = class (payload_create t) -> known_as v p.
Proof.
  intros Ht <- Hc. unfold known_as, create_instance, payload_is_known, base_of.
  destruct (list_type_known _ Ht) as [Hk _]. rewrite (proj2 (Z.leb_le _ _) Hk).
  destruct (class p); try done. exfalso. clear Hk. revert Hc Ht.
  unfold is_list_type. rewrite !orb_true_iff, !Z.eqb_eq.
  intros Hc H. repeat destruct H as [H|H]; rewrite H in Hc; discriminate Hc.
Qed.

Lemma well_formed_elements p e : well_formed p = true -> e ∈ elements p ->
  well_formed e = true /\ (rank (class e) < rank (class p))%nat /\ forall v, known_as v e.
Proof.
  intros (Hok & Hc & Hw)%well_formed_unfold He.
  apply as_created_unfold in Hc as (_ & _ & _ & _ & _ & _ & [Hl|Hl]);
    [|rewrite Hl in He; by apply elem_of_nil in He].
  apply existsb_exists in Hl as (r & Hr & Hlist). rewrite !Forall_forall in *.
  pose proof (Hok r (proj2 (list_elem_of_In _ _) Hr)) as Hrok.
  destruct r as [[] m]; try done. unfold rule_ok in Hrok; cbn [rule_type offset] in Hrok.
  rewrite andb_true_iff, forallb_forall in Hrok. destruct Hrok as [Ht Hes].
  apply list_elem_of_In in He as Hi. specialize (Hes e Hi).
  rewrite andb_true_iff, Z.eqb_eq, bool_decide_eq_true in Hes. destruct Hes as [Et Ec].
  split_and!; [by apply Hw| |intros v; by eapply substructure_known].
  pose proof (lists_deeper_all (class p) (type_ p)) as HD. unfold lists_deeper in HD.
  rewrite forallb_forall in HD. specialize (HD _ Hr). cbn [rule_type] in HD.
  rewrite !andb_true_iff, Nat.ltb_lt in HD. rewrite Ec. tauto.
Qed.

Lemma parse_payload_encode d : forall p this rest,
  (rank (class p) <= d)%nat -> well_formed p = true -> known_as (major_version this) p ->
  valid this -> bit_pos this = 0 -> remaining this = encode p ++ rest ->
  exists this', parse_payload d (type_ p) this = Ok (p, this') /\ took (encode p) this this' /\
  remaining this' = rest /\ bit_pos this' = 0.
Proof.
  induction d as [|d IH]; intros p this rest Hd Hw Hkn Hv Hb Hr.
  { pose proof (rank_le (class p)). lia. }
  pose proof (well_formed_unfold _ Hw) as (Hok & Hc & _).
  apply as_created_unfold in Hc as (Hc1 & Hc2 & _).
  cbn [parse_payload]. unfold known_as in Hkn. rewrite Hkn.
  assert (get_encoding_rules (base_of p) = get_encoding_rules p) as ->.
  { unfold get_encoding_rules. congruence. }
  rewrite encode_unfold in Hr.
  destruct (parse_rules_encode (parse_payload d) p (base_of p) (conj (eq_sym Hc1) (eq_sym Hc2))
              (elements_base p) Hok) with (rs := get_encoding_rules p) (pre := @nil encoding_rule)
    (c := At 0) (this := set_rules (get_encoding_rules p) this) (rest := rest)
    as (l & this' & E & [T1 T2 T3 T4] & R & B); try done.
  - apply Forall_forall. intros e He. destruct (well_formed_elements _ _ Hw He) as (We & Re & Ke).
    split; [|by apply well_formed_nonempty]. intros this1 rest1 V1 B1 R1. apply IH; try done. lia.
  - apply tables_ready.
  - apply aligned_all.
  - apply lists_last_all.
  - by apply set_rules_valid.
  - cbn [rules set_rules]. cbn [length fill fold_left locals_of] in E. unfold locals_of in E.
    cbn [fold_left] in E. change ([] ++ ?x) with x in E. rewrite E. cbn [bind].
    exists this'. rewrite fill_all by done. rewrite encode_unfold. split_and!; try done.
Qed.
