(* ===== verification/GeneratorSpec.v ===== *)
(** The generator of IKE messages writes the bits of the format ([Encoding.encode]), inside
    of its buffer, whatever the memory it allocates holds. *)

From Stdlib Require Import Strings.String.
From stdpp Require Import gmap strings.
From S2P Require Import Prelude Bits Payloads Parser Encoding Generator.
#[local] Open Scope Z_scope.

(** * What was written so far *)

Definition byte_out (this : generator) : Z :=
  default 0 (buffer this !! Z.to_nat (out_position this)).

Definition output (this : generator) : list bool :=
  of_bytes (take (Z.to_nat (out_position this)) (buffer this))
  ++ take (Z.to_nat (current_bit this)) (bits 8 (byte_out this)).

(** The position is in the buffer; the bits of a byte after those of flags are zero. *)
Record at_cursor (c : cursor) (this : generator) : Prop := {
  out_bit : current_bit this = bit_of c /\ 0 <= bit_of c < 8;
  out_pos : 0 <= out_position this;
  out_end : 8 * out_position this + current_bit this <= 8 * len (buffer this);
  out_bytes : bytes_ok (buffer this);
  out_clean : match c with At k => byte_out this mod 2 ^ (8 - k) = 0 \/ k = 0 | Nibble => True end;
}.

(** One more piece of output, from the same structure. *)
Record wrote (l : list bool) (c : cursor) (this this' : generator) : Prop := {
  wrote_cursor : at_cursor c this';
  wrote_output : output this' = output this ++ l;
  wrote_data : data_struct this' = data_struct this;
  wrote_format : gen_attribute_format this' = gen_attribute_format this;
}.

Lemma of_bytes_u8 c : of_bytes (u8 <$> c) = of_bytes c.
Proof.
  induction c as [|b c IH]; [done|].
  change (of_bytes (u8 <$> b :: c)) with (bits 8 (u8 b) ++ of_bytes (u8 <$> c)).
  by rewrite IH, bits_u8.
Qed.

Lemma u8_ok b : byte_ok (u8 b).
Proof. apply (wrap_range 8). lia. Qed.

Lemma u8_all_ok c : bytes_ok (u8 <$> c).
Proof. apply Forall_fmap, Forall_true. intros. apply u8_ok. Qed.

Section Spec.

Variable heap : Z -> Z.

Lemma fresh_ok from n : bytes_ok (fresh heap from n).
Proof. apply Forall_fmap, Forall_true. intros. apply u8_ok. Qed.

Lemma len_fresh from n : 0 <= n -> len (fresh heap from n) = n.
Proof. intros. unfold len, fresh. rewrite length_fmap, length_seqZ. lia. Qed.

Lemma created_at : at_cursor (At 0) (generator_create heap).
Proof.
  split; cbn [bit_of current_bit out_position buffer generator_create];
    [lia|done| |apply fresh_ok|by right].
  rewrite len_fresh; done.
Qed.

Lemma created_output : output (generator_create heap) = [].
Proof. done. Qed.

(** * Space *)

Definition grown (extra : chunk) (this : generator) : generator :=
  set_buffer (buffer this ++ extra) this.

Lemma grown_at c extra this : bytes_ok extra -> at_cursor c this ->
  at_cursor c (grown extra this) /\ output (grown extra this) = output this.
Proof.
  intros He [[Hb Hr] Hp Hend Ho Hc].
  assert (current_bit this <> 0 -> byte_out (grown extra this) = byte_out this) as Hbyte.
  { intros Hn. unfold byte_out; cbn. rewrite lookup_app_l; [done|]. unfold len in *. lia. }
  split.
  - split; cbn [grown set_buffer current_bit out_position buffer]; auto.
    + rewrite len_app. pose proof (len_nonneg extra). lia.
    + by apply bytes_ok_app.
    + destruct c as [k|]; [|done]. destruct Hc as [Hc| ->]; [|by right].
      destruct (decide (k = 0)); [by right|left].
      fold (grown extra this). cbn in Hb. by rewrite Hbyte by lia.
  - unfold output. cbn [grown set_buffer out_position buffer current_bit].
    rewrite take_app_le by (unfold len in *; lia). f_equal.
    destruct (decide (current_bit this = 0)) as [->|]; [done|].
    fold (grown extra this). by rewrite Hbyte.
Qed.

Lemma make_space_ok bits : forall fuel this,
  0 <= current_bit this < 8 ->
  bits <= Z.of_nat fuel * 4000 + (get_space this * 8 - current_bit this) ->
  exists extra, make_space_loop heap fuel this bits = Ok (grown extra this) /\ bytes_ok extra /\
  bits <= (get_space this + len extra) * 8 - current_bit this.
Proof.
  induction fuel as [|fuel IH]; intros this Hb Hf; cbn [make_space_loop];
    destruct (Z.ltb_spec (get_space this * 8 - current_bit this) bits); try lia;
    try (exists []; unfold grown; rewrite app_nil_r, len_nil;
         split_and!; [by destruct this|done|lia]).
  set (new := fresh heap (get_size this) GENERATOR_DATA_BUFFER_INCREASE_VALUE).
  assert (len new = 500) as Hn by (by apply len_fresh).
  destruct (IH (set_buffer (buffer this ++ new) this)) as (extra & E & Ho & Hl); [done| |].
  { unfold get_space in *; cbn. rewrite len_app. lia. }
  exists (new ++ extra). split_and!.
  - rewrite E. unfold grown; cbn. by rewrite <- app_assoc.
  - apply bytes_ok_app. split; [apply fresh_ok|done].
  - unfold get_space in *; cbn in Hl. rewrite len_app in *. lia.
Qed.

Lemma make_space_available_ok bits c this : at_cursor c this -> 0 <= bits ->
  exists this', make_space_available heap this bits = Ok this' /\ at_cursor c this' /\
  output this' = output this /\ (exists extra, this' = grown extra this) /\
  8 * out_position this' + current_bit this' + bits <= 8 * len (buffer this').
Proof.
  intros Hc Hb. pose proof Hc as [[H1 H2] Hp Hend Ho _].
  destruct (make_space_ok bits (S (Z.to_nat bits)) this) as (extra & E & He & Hl); [lia| |].
  { unfold get_space. lia. }
  destruct (grown_at c extra this He Hc) as [G1 G2].
  exists (grown extra this). split_and!; [done|done|done|eauto|].
  cbn. rewrite len_app. unfold get_space in Hl. lia.
Qed.

(** * Writing bytes *)

Definition spliced (c : chunk) (this : generator) : generator :=
  set_out (out_position this + len c) (current_bit this)
    (set_buffer (take (Z.to_nat (out_position this)) (buffer this) ++ (u8 <$> c)
                 ++ drop (Z.to_nat (out_position this) + length c) (buffer this)) this).

Lemma write_bytes_loop_ok c : forall this,
  0 <= out_position this -> out_position this + len c <= len (buffer this) ->
  write_bytes_loop c this = Ok (spliced c this).
Proof.
  induction c as [|b c IH]; intros this Hp Hl; cbn [write_bytes_loop].
  { unfold spliced. rewrite len_nil, Z.add_0_r. cbn [fmap list_fmap app length].
    rewrite Nat.add_0_r, take_drop. by destruct this. }
  rewrite len_cons in Hl. pose proof (len_nonneg c).
  unfold write_out. rewrite (proj2 (Z.ltb_lt _ _)) by lia. cbn [bind].
  rewrite IH; cbn; rewrite ?len_insert; try lia. f_equal. unfold spliced; cbn.
  rewrite len_cons. unfold set_out, set_buffer, advance; cbn. f_equal; [|lia].
  assert (Z.to_nat (out_position this) < length (buffer this))%nat by (unfold len in *; lia).
  replace (Z.to_nat (out_position this + 1)) with (S (Z.to_nat (out_position this))) by lia.
  rewrite (take_S_r _ _ (u8 b)) by (rewrite list_lookup_insert_eq; done).
  rewrite take_insert_ge, <- app_assoc by lia. cbn. do 2 f_equal.
  rewrite drop_insert_lt by lia. do 2 f_equal. lia.
Qed.

Lemma output_spliced c this : at_cursor (At 0) this ->
  out_position this + len c <= len (buffer this) ->
  at_cursor (At 0) (spliced c this) /\ output (spliced c this) = output this ++ of_bytes c.
Proof.
  intros [[Hb _] Hp Hend Ho _] Hl. cbn in Hb. pose proof (len_nonneg c). split.
  - split; cbn; [done|lia| | |by right].
    + rewrite !len_app, len_take, len_drop. unfold len in *. rewrite length_fmap. lia.
    + rewrite !bytes_ok_app. split_and!; [auto with chunk|apply u8_all_ok|auto with chunk].
  - unfold output. cbn [spliced set_out set_buffer out_position buffer current_bit].
    rewrite Hb. cbn [Z.to_nat take]. rewrite !app_nil_r, app_assoc.
    rewrite take_app_length'.
    + by rewrite of_bytes_app, of_bytes_u8.
    + rewrite length_app, length_take, length_fmap. unfold len in *. lia.
Qed.

Lemma write_bytes_ok c this : at_cursor (At 0) this ->
  exists this', write_bytes_to_buffer heap c this = Ok this' /\
  wrote (of_bytes c) (At 0) this this'.
Proof.
  intros Hc. unfold write_bytes_to_buffer. pose proof (len_nonneg c).
  destruct (make_space_available_ok (len c * 8) _ _ Hc) as (this1 & -> & C1 & O1 & [ex ->] & S1);
    [lia|]. cbn [bind]. pose proof (proj1 (out_bit _ _ C1)) as Hb. cbn [bit_of] in Hb.
  rewrite write_bytes_loop_ok by (destruct C1; lia).
  destruct (output_spliced c _ C1) as [G1 G2]; [destruct C1; lia|].
  eexists. split; [done|]. split; [done|by rewrite G2, O1|done|done].
Qed.

Lemma chunk_ok m this : at_cursor (At 0) this ->
  exists this', generate_from_chunk heap m this = Ok this' /\
  wrote (of_bytes (bytes m (data_struct this))) (At 0) this this'.
Proof.
  intros Hc. unfold generate_from_chunk. rewrite (proj1 (out_bit _ _ Hc)). cbn [bit_of negb Z.eqb].
  by apply write_bytes_ok.
Qed.

(** * Parts of a byte *)

(** The byte that is written to, once there is space for a bit. *)
Lemma split_at c this : at_cursor c this -> out_position this < len (buffer this) ->
  exists pre b post, buffer this = pre ++ b :: post /\ Z.of_nat (length pre) = out_position this /\
  byte_out this = b /\ byte_ok b /\ bytes_ok pre /\ bytes_ok post.
Proof.
  intros [_ Hp _ Ho _] Hl.
  destruct (lookup_lt_is_Some_2 (buffer this) (Z.to_nat (out_position this))) as [b Hb];
    [unfold len in *; lia|].
  pose proof (take_drop_middle _ _ _ Hb) as E.
  exists (take (Z.to_nat (out_position this)) (buffer this)), b,
    (drop (S (Z.to_nat (out_position this))) (buffer this)).
  split_and!; [done| | | | |].
  - rewrite length_take. unfold len in *. lia.
  - unfold byte_out. by rewrite Hb.
  - rewrite Forall_lookup in Ho. eauto.
  - auto with chunk.
  - auto with chunk.
Qed.

(** A byte is replaced and [n] bits more of it are output. *)
Lemma write_byte c c' v n this :
  at_cursor c this -> out_position this < len (buffer this) ->
  let b := byte_out this in
  let bit := bit_of c + Z.of_nat n in
  bit <= 8 -> 0 <= bit_of c' < 8 -> bit_of c' = bit mod 8 ->
  take (Z.to_nat (bit_of c)) (bits 8 v) = take (Z.to_nat (bit_of c)) (bits 8 b) ->
  match c' with At k => u8 v mod 2 ^ (8 - k) = 0 \/ k = 0 | Nibble => True end ->
  exists this1, write_out v this = Ok this1 /\
  (forall bit', bit' = bit mod 8 ->
   wrote (drop (Z.to_nat (bit_of c)) (take (Z.to_nat bit) (bits 8 v))) c' this
     (set_out (out_position this + bit / 8) bit' this1)).
Proof.
  intros Hc Hl b bit H8 Hr Hc' Hsame Hclean.
  destruct (split_at _ _ Hc Hl) as (pre & b0 & post & E & Hpre & Hb & Hb8 & Hpo & Hqo).
  pose proof Hc as [[Hbit Hr0] Hp Hend Ho _].
  unfold write_out. rewrite (proj2 (Z.ltb_lt _ _) Hl). eexists. split; [done|].
  assert (Z.to_nat (out_position this) = length pre) as Hn by lia.
  assert (<[Z.to_nat (out_position this) := u8 v]> (buffer this) = pre ++ u8 v :: post) as Hbuf.
  { rewrite Hn, E. rewrite insert_app_r_alt by lia. by rewrite Nat.sub_diag. }
  assert (output this = of_bytes pre ++ take (Z.to_nat (bit_of c)) (bits 8 b)) as Hout.
  { unfold output. rewrite Hn, E, take_app_length, Hbit. done. }
  assert (forall x : Z, length [x] = 1%nat) as Hx by done.
  intros bit' ->. unfold set_buffer, set_out;
    cbn [buffer out_position current_bit data_struct header_length_offset gen_attribute_format
         gen_attribute_length]. rewrite Hbuf.
  destruct (decide (bit = 8)) as [H|H].
  - assert (bit mod 8 = 0) as Hm by (rewrite H; done). assert (bit / 8 = 1) as Hd by (rewrite H; done).
    rewrite Hm in *. rewrite Hd. destruct c' as [k|]; [|done]. cbn [bit_of] in Hc'. subst k.
    split; [split|..]; cbn [current_bit out_position buffer bit_of data_struct gen_attribute_format];
      auto; try lia.
    + rewrite len_app, len_cons. unfold len in *. lia.
    + apply bytes_ok_app. split; [done|]. constructor; [apply u8_ok|done].
    + rewrite Hout. unfold output. cbn [out_position buffer current_bit].
      replace (Z.to_nat (out_position this + 1)) with (length (pre ++ [u8 v]))
        by (rewrite length_app; cbn; lia).
      rewrite (cons_middle (u8 v) pre post), app_assoc, take_app_length. cbn [Z.to_nat take].
      rewrite app_nil_r, of_bytes_app, <- app_assoc. f_equal.
      change (of_bytes [u8 v]) with (bits 8 (u8 v) ++ []). rewrite app_nil_r, bits_u8.
      rewrite H. change (Z.to_nat 8) with 8%nat. rewrite (take_ge _ 8) by (by rewrite length_bits).
      rewrite <- Hsame. by rewrite take_drop.
  - assert (bit mod 8 = bit) as Hm by (apply Z.mod_small; subst bit; lia).
    assert (bit / 8 = 0) as Hd by (apply Z.div_small; subst bit; lia).
    rewrite Hm in *. rewrite Hd, Z.add_0_r.
    assert (byte_out (Generator (pre ++ u8 v :: post) (out_position this) bit (data_struct this)
              (header_length_offset this) (gen_attribute_format this) (gen_attribute_length this))
            = u8 v) as Hbo.
    { unfold byte_out; cbn [buffer out_position]. rewrite Hn. by rewrite list_lookup_middle. }
    split; [split|..]; cbn [current_bit out_position buffer data_struct gen_attribute_format];
      auto; try lia.
    + rewrite len_app, len_cons. unfold len in *. lia.
    + apply bytes_ok_app. split; [done|]. constructor; [apply u8_ok|done].
    + rewrite Hbo. done.
    + rewrite Hout. unfold output. rewrite Hbo. cbn [out_position buffer current_bit].
      rewrite Hn, take_app_length, bits_u8, <- app_assoc. f_equal.
      rewrite <- Hsame, <- (take_drop (Z.to_nat (bit_of c)) (take (Z.to_nat bit) (bits 8 v))) at 1.
      f_equal. rewrite take_take. f_equal. subst bit. lia.
Qed.

(** Setting a bit of a byte whose bits from there on are zero. *)
Definition flag_sets (k : nat) (f b : Z) : bool :=
  let v := Z.lor b (u8 (Z.shiftl f (7 - Z.of_nat k))) in
  negb (b mod 2 ^ (8 - Z.of_nat k) =? 0)
  || (bool_decide (take k (bits 8 v) = take k (bits 8 b))
      && bool_decide (drop k (take (k + 1) (bits 8 v)) = [negb (f =? 0)])
      && (u8 v mod 2 ^ (8 - Z.of_nat (k + 1)) =? 0)).

Lemma flag_sets_all k f b : (k < 8)%nat -> f = 0 \/ f = 1 -> byte_ok b -> flag_sets k f b = true.
Proof.
  intros Hk Hf Hb. do 8 (destruct k as [|k]; [destruct Hf as [-> | ->]; by_bytes b Hb|]). lia.
Qed.

Lemma read_out_ok c this : at_cursor c this -> out_position this < len (buffer this) ->
  read_out this = Ok (byte_out this) /\ byte_ok (byte_out this).
Proof.
  intros Hc Hl. destruct (split_at _ _ Hc Hl) as (pre & b & post & E & Hp & Hb & Hb8 & _).
  unfold read_out. rewrite Hb. split; [|done]. rewrite E.
  replace (Z.to_nat (out_position this)) with (length pre) by lia. by rewrite list_lookup_middle.
Qed.

Lemma write_zero this : at_cursor (At 0) this -> out_position this < len (buffer this) ->
  exists this1, write_out 0 this = Ok this1 /\ wrote [] (At 0) this this1 /\ byte_out this1 = 0 /\
  out_position this1 = out_position this /\ len (buffer this1) = len (buffer this).
Proof.
  intros Hc Hl.
  destruct (write_byte (At 0) (At 0) 0 0 this Hc Hl) as (this1 & E & W); try done; [by right|].
  unfold write_out in E. rewrite (proj2 (Z.ltb_lt _ _) Hl) in E. injection E as E.
  specialize (W 0 eq_refl). change (drop _ _) with (@nil bool) in W.
  change ((bit_of (At 0) + Z.of_nat 0) / 8) with 0 in W. rewrite Z.add_0_r in W.
  assert (set_out (out_position this) 0 this1 = this1) as Hs.
  { subst this1. unfold set_out, set_buffer; cbn. destruct Hc as [[H _] _ _ _ _]. cbn in H.
    by rewrite H. }
  exists this1. rewrite Hs in W. unfold write_out. rewrite (proj2 (Z.ltb_lt _ _) Hl), E.
  split_and!; [done|done| | |]; subst this1; cbn; rewrite ?len_insert; try done.
  unfold byte_out; cbn. rewrite list_lookup_insert_eq; [done|].
  destruct Hc. unfold len in *. lia.
Qed.

Lemma set_bit k f this :
  at_cursor (At k) this -> out_position this < len (buffer this) -> f = 0 \/ f = 1 ->
  byte_out this mod 2 ^ (8 - k) = 0 ->
  exists this', (let* b := read_out this in
                 let* this := write_out (Z.lor b (u8 (Z.shiftl f (7 - current_bit this)))) this in
                 let bit := current_bit this + 1 in
                 Ok (if 8 <=? bit then set_out (out_position this + 1) (bit mod 8) this
                     else set_out (out_position this) bit this)) = Ok this' /\
  wrote [negb (f =? 0)] (At ((k + 1) mod 8)) this this'.
Proof.
  intros Hc Hl Hf Hb0. pose proof Hc as [[Hbit Hr] Hp _ _ _]. cbn [bit_of] in *.
  destruct (read_out_ok _ _ Hc Hl) as [-> Hb8]. cbn [bind]. rewrite Hbit.
  assert (Hk : k = Z.of_nat (Z.to_nat k)) by lia.
  pose proof (flag_sets_all (Z.to_nat k) f (byte_out this) ltac:(lia) Hf Hb8) as F.
  unfold flag_sets in F. rewrite <- Hk, Hb0 in F. cbn [Z.eqb negb orb] in F.
  rewrite !andb_true_iff, !bool_decide_eq_true, Z.eqb_eq in F. destruct F as [[F1 F2] F3].
  destruct (write_byte (At k) (At ((k + 1) mod 8))
              (Z.lor (byte_out this) (u8 (Z.shiftl f (7 - k)))) 1 this Hc Hl)
    as (this1 & E & W); cbn [bit_of]; try lia; try done.
  { apply Z.mod_pos_bound. lia. }
  { destruct (decide (k = 7)) as [->|]; [by right|left]. rewrite (Z.mod_small (k + 1)) by lia.
    replace (Z.of_nat (Z.to_nat k + 1)) with (k + 1) in F3 by lia. done. }
  rewrite E. cbn [bind]. eexists. split; [done|].
  assert (current_bit this1 = k /\ out_position this1 = out_position this) as [-> ->].
  { unfold write_out in E. rewrite (proj2 (Z.ltb_lt _ _) Hl) in E. injection E as <-. done. }
  specialize (W _ eq_refl). cbn [bit_of] in W. change (Z.of_nat 1) with 1 in W.
  replace (Z.to_nat (k + 1)) with (Z.to_nat k + 1)%nat in W by lia. rewrite F2 in W.
  destruct (Z.leb_spec 8 (k + 1)).
  - assert (k = 7) as -> by lia. exact W.
  - rewrite Z.div_small, Z.add_0_r, Z.mod_small in W by lia. rewrite Z.mod_small by lia. done.
Qed.

Lemma wrote_trans l k c1 c2 a b d : wrote l c1 a b -> wrote k c2 b d -> wrote (l ++ k) c2 a d.
Proof.
  intros [] []. split; [done|rewrite app_assoc; congruence|congruence|congruence].
Qed.

Lemma flag_ok k m this : at_cursor (At k) this ->
  exists this', generate_flag heap m this = Ok this' /\
  wrote [negb (num m (data_struct this) =? 0)] (At ((k + 1) mod 8)) this this'.
Proof.
  intros Hc. unfold generate_flag.
  pose proof (proj1 (out_bit _ _ Hc)) as Hbit. cbn [bit_of] in Hbit.
  destruct (make_space_available_ok 1 _ _ Hc) as (this1 & -> & C1 & O1 & [ex ->] & S1); [lia|].
  cbn [bind]. pose proof (out_bit _ _ C1) as [Hb1 Hr]. cbn [bit_of] in *.
  rewrite Hbit. change (current_bit (grown ex this)) with (current_bit this). rewrite Hbit.
  assert (Hl : out_position (grown ex this) < len (buffer (grown ex this))) by lia.
  set (fv := if negb (num m (data_struct this) =? 0) then 1 else 0).
  assert (fv = 0 \/ fv = 1) as Hf by (subst fv; case_match; auto).
  assert (negb (num m (data_struct this) =? 0) = negb (fv =? 0)) as ->.
  { subst fv. by destruct (num m (data_struct this) =? 0). }
  clearbody fv. destruct (Z.eqb_spec k 0) as [->|Hk].
  - destruct (write_zero _ C1 Hl) as (this2 & -> & W2 & B2 & P2 & L2). cbn [bind].
    destruct (set_bit 0 fv this2 (wrote_cursor _ _ _ _ W2)) as (this3 & E3 & W3);
      [lia|done|by rewrite B2|].
    assert (current_bit this2 = 0) as Hz by apply (proj1 (out_bit _ _ (wrote_cursor _ _ _ _ W2))).
    rewrite Hz in E3. exists this3. split; [exact E3|].
    destruct (wrote_trans _ _ _ _ _ _ _ W2 W3). split; auto. cbn in *. congruence.
  - cbn [bind]. destruct (set_bit k fv _ C1 Hl Hf) as (this3 & E3 & W3).
    { by destruct (out_clean _ _ C1). }
    rewrite Hb1 in E3. exists this3. split; [exact E3|].
    destruct W3. split; auto. congruence.
Qed.

(** * Integers *)

Lemma bits_4_shift x b : 0 <= b -> take 4 (bits 8 (Z.lor (u8 (Z.shiftl x 4)) (Z.land b 15))) = bits 4 x.
Proof.
  intros Hb. change (bits 8 ?w) with (bits (4 + 4) w). rewrite bits_app.
  rewrite take_app_length' by (by rewrite length_bits). apply bits_ext. intros i Hi.
  rewrite Z.div_pow2_bits, Z.lor_spec, Z.land_spec by lia.
  change (Z.of_nat 4) with 4. unfold wrap. rewrite Z.mod_pow2_bits_low by lia.
  rewrite Z.shiftl_spec by lia. replace (Z.of_nat i + 4 - 4) with (Z.of_nat i) by lia.
  change 15 with (Z.ones 4). rewrite Z.ones_spec_high by lia. by rewrite andb_false_r, orb_false_r.
Qed.

Lemma bits_4_low x b :
  let w := Z.lor (Z.land b 240) (Z.land x 15) in
  take 4 (bits 8 w) = take 4 (bits 8 b) /\ drop 4 (bits 8 w) = bits 4 x.
Proof.
  intros w. change (bits 8 ?w) with (bits (4 + 4) w). rewrite !bits_app.
  rewrite !take_app_length', drop_app_length' by (by rewrite length_bits).
  split; apply bits_ext; intros i Hi; subst w; rewrite ?Z.div_pow2_bits, ?Z.lor_spec, ?Z.land_spec by lia;
    do 4 (destruct i as [|i]; [cbn; by rewrite ?andb_true_r, ?andb_false_r, ?orb_false_r|]); lia.
Qed.

Lemma with_space bits c this (f : generator -> result generator) (P : generator -> Prop) :
  at_cursor c this -> 0 <= bits ->
  (forall this1, at_cursor c this1 -> output this1 = output this ->
   data_struct this1 = data_struct this -> gen_attribute_format this1 = gen_attribute_format this ->
   8 * out_position this1 + current_bit this1 + bits <= 8 * len (buffer this1) ->
   exists this', f this1 = Ok this' /\ P this') ->
  exists this', (let* this1 := make_space_available heap this bits in f this1) = Ok this' /\ P this'.
Proof.
  intros Hc Hb Hf.
  destruct (make_space_available_ok bits _ _ Hc Hb) as (this1 & -> & C1 & O1 & [ex ->] & S1).
  by apply Hf.
Qed.

Lemma wrote_same l c this this1 this' : output this1 = output this ->
  data_struct this1 = data_struct this -> gen_attribute_format this1 = gen_attribute_format this ->
  wrote l c this1 this' -> wrote l c this this'.
Proof. intros O D F []. split; congruence. Qed.

Lemma write_out_frame v this this1 : write_out v this = Ok this1 ->
  out_position this1 = out_position this /\ current_bit this1 = current_bit this.
Proof. unfold write_out. case_match; [|done]. by intros [= <-]. Qed.

Lemma byte_written v this : at_cursor (At 0) this -> out_position this < len (buffer this) ->
  exists this', (let* this := write_out v this in Ok (advance this)) = Ok this' /\
  wrote (bits 8 v) (At 0) this this'.
Proof.
  intros Hc Hl. destruct (write_byte (At 0) (At 0) v 8 this Hc Hl) as (this1 & E & W);
    cbn [bit_of]; try lia; try done.
  rewrite E. cbn [bind]. eexists. split; [done|].
  destruct (write_out_frame _ _ _ E) as [Ep Eb].
  unfold advance. rewrite Ep, Eb, (proj1 (out_bit _ _ Hc)). cbn [bit_of].
  specialize (W 0 eq_refl). change (drop _ _) with (bits 8 v) in W.
  change ((bit_of (At 0) + Z.of_nat 8) / 8) with 1 in W. done.
Qed.

Lemma nibble_high v this : at_cursor (At 0) this -> out_position this < len (buffer this) ->
  exists this', (let* b := read_out this in
                 let* this := write_out (Z.lor (u8 (Z.shiftl v 4)) (Z.land b 15)) this in
                 Ok (set_out (out_position this) 4 this)) = Ok this' /\
  wrote (bits 4 v) Nibble this this'.
Proof.
  intros Hc Hl. destruct (read_out_ok _ _ Hc Hl) as [-> Hb]. cbn [bind].
  destruct (write_byte (At 0) Nibble (Z.lor (u8 (Z.shiftl v 4)) (Z.land (byte_out this) 15)) 4
              this Hc Hl) as (this1 & E & W); cbn [bit_of]; try lia; try done.
  rewrite E. cbn [bind]. eexists. split; [done|].
  destruct (write_out_frame _ _ _ E) as [-> _]. specialize (W 4 eq_refl).
  change (Z.to_nat (bit_of (At 0) + Z.of_nat 4)) with 4%nat in W.
  rewrite bits_4_shift in W by apply Hb.
  change ((bit_of (At 0) + Z.of_nat 4) / 8) with 0 in W. by rewrite Z.add_0_r in W.
Qed.

Lemma nibble_low v this : at_cursor Nibble this -> out_position this < len (buffer this) ->
  exists this', (let* b := read_out this in
                 let* this := write_out (Z.lor (Z.land b 240) (Z.land v 15)) this in
                 Ok (set_out (out_position this + 1) 0 this)) = Ok this' /\
  wrote (bits 4 v) (At 0) this this'.
Proof.
  intros Hc Hl. destruct (read_out_ok _ _ Hc Hl) as [-> Hb]. cbn [bind].
  destruct (bits_4_low v (byte_out this)) as [F1 F2].
  destruct (write_byte Nibble (At 0) (Z.lor (Z.land (byte_out this) 240) (Z.land v 15)) 4
              this Hc Hl) as (this1 & E & W); cbn [bit_of]; try lia; try done.
  rewrite E. cbn [bind]. eexists. split; [done|].
  destruct (write_out_frame _ _ _ E) as [-> _]. specialize (W 0 eq_refl).
  change (Z.to_nat (bit_of Nibble + Z.of_nat 4)) with 8%nat in W.
  rewrite (take_ge _ 8) in W by (by rewrite length_bits).
  change (Z.to_nat (bit_of Nibble)) with 4%nat in W. rewrite F2 in W. done.
Qed.

(** The 15 bits after the format flag are written with the flag. *)
Definition with_flag (b v : Z) : Z :=
  let val := Z.land v 32767 in
  if negb (Z.land b 128 =? 0) then Z.lor val 32768 else val.

Lemma with_flag_bits b v : byte_ok b ->
  bits 16 (with_flag b v) = take 1 (bits 8 b) ++ bits 15 v.
Proof.
  intros Hb. change (bits 16 ?w) with (bits (1 + 15) w). rewrite bits_app. f_equal.
  - assert (negb (Z.land b 128 =? 0) = Z.testbit b 7) as E.
    { apply eqb_prop. by_bytes b Hb. }
    change (take 1 (bits 8 b)) with [Z.testbit b 7]. rewrite <- E.
    cbn [bits]. rewrite Z.div_pow2_bits by lia. f_equal. unfold with_flag.
    change (Z.of_nat 0 + Z.of_nat 15) with 15.
    destruct (negb _); rewrite ?Z.lor_spec, Z.land_spec; by rewrite andb_false_r.
  - apply bits_ext. intros i Hi. unfold with_flag.
    assert (Z.testbit (Z.land v 32767) (Z.of_nat i) = Z.testbit v (Z.of_nat i)) as E.
    { rewrite Z.land_spec. change 32767 with (Z.ones 15). rewrite Z.ones_spec_low by lia.
      by rewrite andb_true_r. }
    destruct (negb _); [|done]. rewrite Z.lor_spec, E. change 32768 with (2 ^ 15).
    rewrite Z.pow2_bits_false by lia. by rewrite orb_false_r.
Qed.

Lemma byte_out_grown ex this : 0 <= out_position this < len (buffer this) ->
  byte_out (grown ex this) = byte_out this.
Proof. intros. unfold byte_out; cbn. rewrite lookup_app_l; [done|]. unfold len in *. lia. Qed.

Lemma attribute_type_written v this : at_cursor (At 1) this ->
  out_position this < len (buffer this) ->
  exists this', (let* this := write_bytes_to_buffer heap (be_bytes 2 (with_flag (byte_out this) v)) this in
                 Ok (set_out (out_position this) 0 this)) = Ok this' /\
  wrote (bits 15 v) (At 0) this this'.
Proof.
  intros Hc Hl. set (val := with_flag (byte_out this) v). unfold write_bytes_to_buffer.
  destruct (read_out_ok _ _ Hc Hl) as [_ Hb8].
  destruct (make_space_available_ok (len (be_bytes 2 val) * 8) _ _ Hc)
    as (this1 & -> & C1 & O1 & [ex ->] & S1); [done|]. cbn [bind].
  change (len (be_bytes 2 val) * 8) with 16 in S1.
  pose proof C1 as [[Hb _] Hp Hend Ho _]. cbn [bit_of] in Hb.
  rewrite write_bytes_loop_ok by (change (len (be_bytes 2 val)) with 2; lia). cbn [bind].
  eexists. split; [done|]. unfold spliced, set_out, set_buffer.
  cbn [out_position current_bit buffer data_struct header_length_offset gen_attribute_format
       gen_attribute_length]. change (len (be_bytes 2 val)) with 2.
  set (pre := take _ _). set (post := drop _ _).
  assert (length pre = Z.to_nat (out_position (grown ex this))) as Hpre.
  { subst pre. rewrite length_take. unfold len in *. lia. }
  split; [split|..]; cbn [current_bit out_position buffer data_struct gen_attribute_format bit_of];
    try done; try lia.
  - subst post. rewrite !len_app, len_drop. unfold len at 1 2. rewrite Hpre, length_fmap.
    change (length (be_bytes 2 val)) with 2%nat. lia.
  - subst pre post. rewrite !bytes_ok_app. split_and!; [auto with chunk|apply u8_all_ok|auto with chunk].
  - unfold output at 1. cbn [out_position buffer current_bit Z.to_nat take].
    rewrite app_assoc, take_app_length', app_nil_r, of_bytes_app, of_bytes_u8, of_bytes_be_bytes.
    + change (8 * 2)%nat with 16%nat. subst val. rewrite with_flag_bits by done.
      rewrite <- O1. unfold output. fold pre. rewrite Hb, byte_out_grown by (destruct Hc; lia).
      by rewrite <- app_assoc.
    + rewrite length_app, Hpre, length_fmap. change (length (be_bytes 2 val)) with 2%nat. lia.
Qed.

Lemma write_uint n k v this : (8 * n)%nat = k -> at_cursor (At 0) this ->
  exists this', write_bytes_to_buffer heap (be_bytes n v) this = Ok this' /\
  wrote (bits k v) (At 0) this this'.
Proof. intros <- Hc. rewrite <- of_bytes_be_bytes. by apply write_bytes_ok. Qed.

(** Every rule with an integer writes its bits, at the places the tables have it. *)
Lemma u_int_ok es p r c c' this ty :
  at_cursor c this -> data_struct this = p -> next c r = Some c' ->
  (rule_type r = ty /\ number_of_bits ty <> None \/
   rule_type r = HEADER_LENGTH /\ ty = U_INT_32 \/
   rule_type r = ATTRIBUTE_LENGTH_OR_VALUE /\ ty = U_INT_16) ->
  exists this', generate_u_int_type heap ty (offset r) this = Ok this' /\
  wrote (rule_bits es p r) c' this this'.
Proof.
  intros Hc <- Hn Hty. destruct r as [rt m]; cbn [rule_type offset] in *.
  unfold generate_u_int_type.
  assert (exists bits, number_of_bits ty = Some bits /\ 0 < bits /\
          (bits mod 8 =? 0) && negb (current_bit this =? 0) = false) as (bits & -> & Hpos & ->).
  { rewrite (proj1 (out_bit _ _ Hc)).
    destruct Hty as [[-> Hb]|[[-> ->]|[-> ->]]]; try (destruct ty; try done);
      destruct c; cbn in Hn |- *; simplify_eq; eexists; (split; [reflexivity|]); (split; [lia|]);
      repeat case_match; simplify_eq; try done; bool_to_prop; subst; done. }
  apply (with_space bits c); [done|lia|]. intros this1 C1 O1 D1 F1 S1.
  assert (out_position this1 < len (buffer this1)) as Hl.
  { pose proof (out_bit _ _ C1). lia. }
  enough (exists this', generate_int heap ty m this1 = Ok this' /\
            wrote (rule_bits es (data_struct this) (Rule rt m)) c' this1 this') as (this' & E & W).
  { exists this'. split; [done|]. by eapply wrote_same. }
  clear O1 F1 S1 Hpos. rewrite <- D1. clear this Hc D1. rename this1 into this, C1 into Hc.
  destruct Hty as [[-> Hb]|[[-> ->]|[-> ->]]].
  all: try (destruct ty; try done; clear Hb).
  all: destruct c as [k|]; cbn [next rule_type] in Hn; try done.
  all: try (destruct (Z.eqb_spec k 0); [subst k|done]).
  all: try (destruct (Z.eqb_spec k 1); [subst k|done]).
  all: simplify_eq; unfold generate_int, rule_bits; cbn [rule_type offset].
  all: try (by apply byte_written).
  all: try apply (write_uint 2 16); try apply (write_uint 4 32); try done.
  all: try (rewrite (proj1 (out_bit _ _ Hc)); cbn [bit_of Z.eqb Pos.eqb negb]).
  - by apply nibble_high.
  - by apply nibble_low.
  - destruct (read_out_ok _ _ Hc Hl) as [-> _]. cbn [bind]. by apply attribute_type_written.
  - by apply write_bytes_ok.
Qed.

(** * Payloads *)

(** IKEv2 configuration attributes have no format flag; the generator uses what the last
    transform attribute left. *)
Definition is_v2_attribute (p : payload) : bool :=
  match class p with
  | C_CONFIGURATION_ATTRIBUTE => type_ p =? PLV2_CONFIGURATION_ATTRIBUTE
  | C_CP => type_ p =? PLV2_CONFIGURATION
  | _ => false
  end.

(** Generating these sets the format. *)
Definition has_format (p : payload) : bool :=
  match class p with
  | C_SA | C_PROPOSAL | C_TRANSFORM | C_ATTRIBUTE => true
  | C_CP => negb (type_ p =? PLV2_CONFIGURATION)
  | C_CONFIGURATION_ATTRIBUTE => negb (type_ p =? PLV2_CONFIGURATION_ATTRIBUTE)
  | _ => false
  end.

Fixpoint formats (p : payload) (known : bool) (rs : list encoding_rule) : Prop :=
  match rs with
  | [] => True
  | r :: rs =>
      match rule_type r with
      | ATTRIBUTE_FORMAT =>
          has_format p = true /\ num (offset r) p = value_format p /\ formats p true rs
      | ATTRIBUTE_VALUE => known = true /\ formats p known rs
      | _ => formats p known rs
      end
  end.

Lemma tables_formats p : formats p (is_v2_attribute p) (get_encoding_rules p).
Proof.
  destruct p as [c t m ch es].
  destruct c; unfold get_encoding_rules; cbn [rules_of class type_];
    repeat match goal with |- context [if ?b then _ else _] => destruct b eqn:? end;
    cbn; repeat match goal with H : _ = _ |- _ => rewrite ?H; clear H end; auto.
Qed.

Definition same_formats (p q : payload) : bool :=
  eqb (is_v2_attribute p) (is_v2_attribute q) && eqb (has_format p) (has_format q).

Definition lists_agree (c : payload_class) (t : Z) (rs : list encoding_rule) : bool :=
  forallb (fun r => match rule_type r with
                    | PAYLOAD_LIST t' =>
                        same_formats (zeroed c t) (zeroed (class (payload_create t')) t')
                    | _ => true
                    end) rs.

Lemma lists_agree_all c t : lists_agree c t (rules_of c t) = true.
Proof.
  destruct c; unfold lists_agree, same_formats, is_v2_attribute, has_format;
    cbn [rules_of class zeroed type_];
    repeat match goal with |- context [if ?b then _ else _] => destruct b eqn:? end;
    cbn; repeat match goal with H : _ = _ |- _ => rewrite ?H; clear H end; reflexivity.
Qed.

Lemma at_cursor_ext c this this' : buffer this' = buffer this ->
  out_position this' = out_position this -> current_bit this' = current_bit this ->
  at_cursor c this -> at_cursor c this' /\ output this' = output this.
Proof.
  intros Hb Hp Hc [H1 H2 H3 H4 H5]. unfold output.
  assert (byte_out this' = byte_out this) as Ho by (unfold byte_out; by rewrite Hb, Hp).
  rewrite Ho, Hb, Hp, Hc. split; [|done].
  split; rewrite ?Hc, ?Hp, ?Hb; auto. by rewrite Ho.
Qed.

(** What a rule that is not a list does. *)
Record ruled (es : list bool) (p : payload) (r : encoding_rule) (c : cursor)
    (this this' : generator) : Prop := {
  ruled_cursor : at_cursor c this';
  ruled_data : data_struct this' = p;
  ruled_output : exists l, output this' = output this ++ l /\
    ((rule_type r = ATTRIBUTE_VALUE -> gen_attribute_format this = value_format p) ->
     l = rule_bits es p r);
  ruled_format : gen_attribute_format this'
    = if decide (rule_type r = ATTRIBUTE_FORMAT) then num (offset r) p
      else gen_attribute_format this;
}.

Lemma wrote_ruled es p r c this this' l :
  wrote l c this this' -> data_struct this = p -> rule_type r <> ATTRIBUTE_FORMAT ->
  ((rule_type r = ATTRIBUTE_VALUE -> gen_attribute_format this = value_format p) ->
   l = rule_bits es p r) ->
  ruled es p r c this this'.
Proof.
  intros [] Hd Hr Hl. split; [done|congruence|eauto|]. by rewrite decide_False.
Qed.

Lemma rule_written sub es p r c c' this :
  at_cursor c this -> data_struct this = p -> next c r = Some c' -> is_list_rule r = false ->
  exists this', generate_rule heap sub r this = Ok this' /\ ruled es p r c' this this'.
Proof.
  intros Hc Hp Hn Hlist. destruct r as [ty m]. unfold generate_rule; cbn [rule_type offset].
  assert (forall ty', (ty = ty' /\ number_of_bits ty' <> None \/
            ty = ATTRIBUTE_LENGTH_OR_VALUE /\ ty' = U_INT_16) -> ty <> ATTRIBUTE_FORMAT ->
          exists this', generate_u_int_type heap ty' m this = Ok this' /\
            wrote (rule_bits es p (Rule ty m)) c' this this') as Hint.
  { intros ty' H1 H2. apply (u_int_ok es p (Rule ty m) c c' this ty' Hc Hp Hn).
    cbn [rule_type]. tauto. }
  destruct ty; try discriminate Hlist;
    try (edestruct Hint as (g & -> & W);
           [by left; split; [reflexivity|]|done|];
         exists g; (split; [done|]); by eapply wrote_ruled).
  all: destruct c as [k|]; cbn [next rule_type] in Hn; try done.
  all: try (destruct (Z.eqb_spec k 0); [subst k|done]).
  all: apply (inj Some) in Hn; subst c'.
  (* flags *)
  all: try (destruct (flag_ok k m this Hc) as (g & -> & W); rewrite Hp in W; cbn [bind];
            try (exists g; split; [done|]; by eapply wrote_ruled)).
  - (* HEADER_LENGTH *)
    destruct (at_cursor_ext (At 0) this (set_header_length_offset (get_offset this) this))
      as [C O]; try done.
    destruct (u_int_ok es p (Rule HEADER_LENGTH m) (At 0) (At 0) _ U_INT_32 C)
      as (g & E & W); try done; [cbn; tauto|].
    exists g. split; [done|]. apply (wrote_same _ _ this) in W; try done. by eapply wrote_ruled.
  - (* SPI *)
    destruct (chunk_ok m this Hc) as (g & -> & W). rewrite Hp in W.
    exists g. split; [done|]. by eapply wrote_ruled.
  - (* ATTRIBUTE_FORMAT *)
    destruct W as [C O D F]. eexists. split; [done|].
    destruct (at_cursor_ext _ g (set_gen_attribute_format (num m (data_struct g)) g) 
                eq_refl eq_refl eq_refl C) as [C' O'].
    split; [done|by rewrite <- Hp, <- D| |].
    + eexists. split; [by rewrite O', O|done].
    + rewrite decide_True by done. cbn. by rewrite D, Hp.
  - (* ATTRIBUTE_LENGTH_OR_VALUE *)
    destruct (Hint U_INT_16) as (g & -> & W); [by right|done|].
    case_match; [exists g; split; [done|]; by eapply wrote_ruled|].
    eexists. split; [done|]. destruct W as [C O D F].
    destruct (at_cursor_ext _ g (set_gen_attribute_length (num m (data_struct g)) g)
                eq_refl eq_refl eq_refl C) as [C' O'].
    eapply (wrote_ruled es p _ _ this); [split; [done|by rewrite O', O|done|done]|done|done|done].
  - (* ATTRIBUTE_VALUE *)
    destruct (Z.eqb_spec (gen_attribute_format this) 0) as [Hf|Hf].
    + destruct (chunk_ok m this Hc) as (g & -> & W). rewrite Hp in W.
      exists g. split; [done|]. eapply wrote_ruled; [done|done|done|].
      intros H. cbn. by rewrite <- H, Hf.
    + exists this. split; [done|]. split; [done|done| |done].
      exists []. rewrite app_nil_r. split; [done|]. intros H. cbn.
      rewrite <- H by done. by rewrite (proj2 (Z.eqb_neq _ _) Hf).
  - (* ADDRESS *)
    destruct (chunk_ok m this Hc) as (g & -> & W). rewrite Hp in W.
    exists g. split; [done|]. by eapply wrote_ruled.
  - destruct (chunk_ok m this Hc) as (g & -> & W). rewrite Hp in W.
    exists g. split; [done|]. by eapply wrote_ruled.
  - destruct (chunk_ok m this Hc) as (g & -> & W). rewrite Hp in W.
    exists g. split; [done|]. by eapply wrote_ruled.
Qed.

(** What generating a payload does; the bits of a well-formed payload are those of the
    format, if the flag a configuration attribute is generated by is clear. *)
Record generated (p : payload) (this this' : generator) (l : list bool) : Prop := {
  generated_cursor : at_cursor (At 0) this';
  generated_output : output this' = output this ++ l;
  generated_bits : well_formed p = true ->
    (is_v2_attribute p = true -> gen_attribute_format this = 0) -> l = encode p;
  generated_format : well_formed p = true -> has_format p = false ->
    gen_attribute_format this' = gen_attribute_format this;
}.

Definition writes (sub : payload -> generator -> result generator) (p : payload) : Prop :=
  forall this, at_cursor (At 0) this ->
  exists this' l, sub p this = Ok this' /\ generated p this this' l.

(** An attribute of IKEv2 sets no format. *)
Lemma v2_no_format p : is_v2_attribute p = true -> has_format p = false /\ value_format p = 0.
Proof.
  unfold is_v2_attribute, has_format, value_format. destruct (class p); try done; by intros ->.
Qed.

Lemma list_written sub p es : forall this,
  at_cursor (At 0) this -> (forall e, e ∈ es -> writes sub e) ->
  exists this' l, generate_list sub es this = Ok this' /\
  at_cursor (At 0) this' /\ output this' = output this ++ l /\
  (forallb well_formed es = true -> (forall e, e ∈ es -> same_formats p e = true) ->
   ((is_v2_attribute p = true -> gen_attribute_format this = 0) -> l = encode_all es) /\
   (has_format p = false -> gen_attribute_format this' = gen_attribute_format this)).
Proof.
  induction es as [|e es IH]; intros this Hc Hw; cbn [generate_list].
  { exists this, []. rewrite app_nil_r. split_and!; auto. }
  destruct (Hw e ltac:(by left) this Hc) as (g1 & l1 & -> & [C1 O1 B1 F1]). cbn [bind].
  destruct (IH g1 C1) as (g2 & l2 & E2 & C2 & O2 & B2).
  { intros e' He. apply Hw. by right. }
  exists g2, (l1 ++ l2). split_and!; [done|done|by rewrite O2, O1, app_assoc|].
  cbn [forallb]. intros [W1 W2]%andb_true_iff Hs.
  destruct (B2 W2) as [B3 F3]; [intros e' He; apply Hs; by right|].
  pose proof (Hs e ltac:(by left)) as [V1%eqb_prop V2%eqb_prop]%andb_true_iff.
  rewrite <- V1 in *. rewrite <- V2 in *. split.
  - intros Hf. rewrite B1, B3; [done| |done|done]. intros H. rewrite F1; auto.
    by apply v2_no_format.
  - intros H. rewrite F3, F1; done.
Qed.

Lemma rules_written sub p rs : forall c known this,
  at_cursor c this -> data_struct this = p -> aligned c rs = true -> lists_last rs = true ->
  (forall t m, Rule (PAYLOAD_LIST t) m ∈ rs -> is_list_type t = true) ->
  (existsb is_list_rule rs = true -> forall e, e ∈ elements p -> writes sub e) ->
  exists this' l, generate_rules heap sub rs this = Ok this' /\
  at_cursor (At 0) this' /\ output this' = output this ++ l /\
  (formats p known rs ->
   (forall t m, Rule (PAYLOAD_LIST t) m ∈ rs -> forallb well_formed (elements p) = true /\
    (forall e, e ∈ elements p -> same_formats p e = true)) ->
   ((known = true -> gen_attribute_format this = value_format p) ->
    (is_v2_attribute p = true -> gen_attribute_format this = 0) ->
    l = rules_bits (encode_all (elements p)) p rs) /\
   (has_format p = false -> gen_attribute_format this' = gen_attribute_format this)).
Proof.
  induction rs as [|[ty m] rs IH]; intros c known this Hc Hp Ha Hl Ht Hw; cbn [generate_rules].
  { exists this, []. cbn in Ha. apply Z.eqb_eq in Ha.
    rewrite app_nil_r. split_and!; try done.
    destruct Hc as [[H1 H2] H3 H4 H5 H6]. rewrite Ha in *. split; auto; try done; by right. }
  cbn [aligned lists_last] in Ha, Hl. destruct (next c (Rule ty m)) as [c'|] eqn:Hn; [|done].
  apply andb_true_iff in Hl as [Hl1 Hl2].
  destruct (is_list_rule (Rule ty m)) eqn:El.
  - (* a list, the last rule *)
    destruct rs; [|done]. destruct ty; try done.
    assert (c = At 0) as ->.
    { destruct c as [k|]; [|done]. cbn in Hn. by destruct (Z.eqb_spec k 0); subst. }
    unfold generate_rule; cbn [rule_type]. rewrite (Ht _ m) by left. rewrite Hp.
    destruct (list_written sub p (elements p) this Hc (Hw eq_refl)) as (g & l & -> & C & O & B).
    exists g, l. split_and!; [done|done|done|]. intros Hf He.
    destruct (He payload_type m) as [He1 He2]; [by left|].
    destruct B as [B F]; [done|done|]. split; [|done]. intros _ Hv. rewrite B by done.
    unfold rules_bits; cbn. by rewrite app_nil_r.
  - destruct (rule_written sub (encode_all (elements p)) p _ c c' this Hc Hp Hn El)
      as (g1 & -> & [C1 D1 (l1 & O1 & B1) F1]). cbn [bind].
    cbn [rule_type offset] in *.
    set (known' := match ty with ATTRIBUTE_FORMAT => true | _ => known end).
    destruct (IH c' known' g1 C1 D1 Ha Hl2) as (g & l & E & C & O & B).
    { intros t' m' H. eapply Ht. by right. }
    { intros H. apply Hw. cbn [existsb]. by rewrite El, H. }
    exists g, (l1 ++ l). split_and!; [done|done|by rewrite O, O1, app_assoc|].
    intros Hf He. cbn [formats rule_type offset] in Hf.
    assert (formats p known' rs /\ (ty = ATTRIBUTE_VALUE -> known = true) /\
            (ty = ATTRIBUTE_FORMAT -> has_format p = true /\ num m p = value_format p))
      as (Hf' & Hval & Hfmt).
    { subst known'. destruct ty; try (split_and!; done); cbv iota in Hf; split_and!; try done; tauto. }
    destruct B as [B F]; [done|intros t' m' H; eapply He; by right|].
    destruct (decide (ty = ATTRIBUTE_FORMAT)) as [->|Hne].
    + destruct (Hfmt eq_refl) as [Hh Hm].
      split; [|by rewrite Hh]. intros Hk Hv. unfold rules_bits; cbn [mbind list_bind].
      rewrite B1, B; [done|by rewrite F1| |done].
      intros H. apply v2_no_format in H as [H _]. congruence.
    + assert (known' = known) as Hk' by (subst known'; by destruct ty).
      split; [|intros H; by rewrite F, F1]. intros Hk Hv. unfold rules_bits; cbn [mbind list_bind].
      rewrite B1, B; [done|by rewrite F1, Hk'|by rewrite F1|auto].
Qed.

(** The kind of the elements decides whether they have the flag. *)
Lemma elements_formats p t m e : Rule (PAYLOAD_LIST t) m ∈ get_encoding_rules p ->
  well_formed p = true -> e ∈ elements p -> same_formats p e = true.
Proof.
  intros Hr%list_elem_of_In (Hok & _)%well_formed_unfold He.
  pose proof (lists_agree_all (class p) (type_ p)) as Ha.
  unfold lists_agree in Ha. rewrite forallb_forall in Ha.
  specialize (Ha _ Hr). cbn [rule_type] in Ha.
  rewrite Forall_forall in Hok. specialize (Hok _ (proj2 (list_elem_of_In _ _) Hr)).
  unfold rule_ok in Hok; cbn [rule_type] in Hok.
  rewrite andb_true_iff, forallb_forall in Hok. destruct Hok as [_ Hok].
  apply list_elem_of_In in He. specialize (Hok _ He).
  rewrite andb_true_iff, Z.eqb_eq, bool_decide_eq_true in Hok. destruct Hok as [H1 H2].
  revert Ha. unfold same_formats, is_v2_attribute, has_format. cbn [class zeroed type_].
  by rewrite H1, H2.
Qed.

Lemma generate_payload_writes d : forall p, (height p <= d)%nat -> writes (generate_payload heap d) p.
Proof.
  induction d as [|d IH]; intros p Hh this Hc; [destruct p; cbn in Hh; lia|].
  cbn [generate_payload].
  destruct (at_cursor_ext (At 0) this (set_data_struct p this)) as [C O]; try done.
  destruct (rules_written (generate_payload heap d) p (get_encoding_rules p) (At 0)
              (is_v2_attribute p) (set_data_struct p this) C)
    as (g & l & -> & Cg & Og & B); [done|apply aligned_all|apply lists_last_all| | |].
  - intros t m H. pose proof (lists_deeper_all (class p) (type_ p)) as Hd.
    unfold lists_deeper in Hd. rewrite forallb_forall in Hd.
    apply list_elem_of_In in H. specialize (Hd _ H). cbn in Hd. by bool_to_prop.
  - intros _ e He. apply IH. apply height_elements in He. lia.
  - assert (well_formed p = true -> forall t m, Rule (PAYLOAD_LIST t) m ∈ get_encoding_rules p ->
            forallb well_formed (elements p) = true /\
            (forall e, e ∈ elements p -> same_formats p e = true)) as Hes.
    { intros Hw t m H. pose proof (well_formed_unfold _ Hw) as (_ & _ & He).
      rewrite Forall_forall in He. split; [|intros e H'; by eapply elements_formats].
      apply forallb_forall. intros e H'. by apply He, list_elem_of_In. }
    exists g, l. split; [done|]. split; [done|by rewrite Og, O| |].
    + intros Hw Hf. rewrite encode_unfold. destruct (B (tables_formats p) (Hes Hw)) as [B' _].
      apply B'; [|done]. intros H. rewrite (proj2 (v2_no_format _ H)). by apply Hf.
    + intros Hw. exact (proj2 (B (tables_formats p) (Hes Hw))).
Qed.

(** A payload without a list in its table is generated without looking at its elements. *)
Lemma generate_no_list d p this : existsb is_list_rule (get_encoding_rules p) = false ->
  is_v2_attribute p = false -> at_cursor (At 0) this ->
  exists this', generate_payload heap (S d) p this = Ok this' /\ at_cursor (At 0) this' /\
  output this' = output this ++ rules_bits [] p (get_encoding_rules p).
Proof.
  intros Hl Hv Hc. cbn [generate_payload].
  destruct (at_cursor_ext (At 0) this (set_data_struct p this)) as [C O]; try done.
  assert (forall t m, Rule (PAYLOAD_LIST t) m ∈ get_encoding_rules p -> False) as Hno.
  { intros t m H%list_elem_of_In. assert (existsb is_list_rule (get_encoding_rules p) = true); [|congruence].
    apply existsb_exists. by exists (Rule (PAYLOAD_LIST t) m). }
  destruct (rules_written (generate_payload heap d) p (get_encoding_rules p) (At 0) false
              (set_data_struct p this) C)
    as (g & l & -> & Cg & Og & B); [done|apply aligned_all|apply lists_last_all| | |].
  - intros t m H. by destruct (Hno t m).
  - by rewrite Hl.
  - exists g. split_and!; [done|done|]. rewrite Og, O. f_equal.
    pose proof (tables_formats p) as F. rewrite Hv in F.
    destruct (B F) as [B' _]; [intros t m H; by destruct (Hno t m)|].
    rewrite B'; [|done|by rewrite Hv].
    unfold rules_bits. clear -Hl. induction (get_encoding_rules p) as [|r rs IH]; [done|].
    cbn [existsb] in Hl. apply orb_false_iff in Hl as [H1 H2].
    cbn [mbind list_bind]. rewrite IH by done. f_equal. destruct r as [[] m]; done.
Qed.

End Spec.
