(* ===== verification/CodecSpec.v ===== *)
(** The generator and the parser of IKE messages together: a well-formed payload is parsed
    back from what was generated for it, and neither leaves its memory, whatever the
    payload or the input is. *)

From Stdlib Require Import Strings.String.
From stdpp Require Import gmap strings.
From S2P Require Import Prelude Host TrafficSelector Bits Payloads Parser Generator Encoding.
From S2P Require Import ParserSpec ParserComplete GeneratorSpec.
#[local] Open Scope Z_scope.

(** * Bytes and bits *)

Lemma chunk_output this : at_cursor (At 0) this ->
  of_bytes (fst (get_chunk this)) = output this /\ bytes_ok (fst (get_chunk this)).
Proof.
  intros [[Hb _] _ _ Ho _]. cbn in Hb |- *. split; [|auto with chunk].
  unfold output. rewrite Hb. cbn. by rewrite app_nil_r.
Qed.

Lemma well_formed_height p : well_formed p = true -> (height p <= rank (class p))%nat.
Proof.
  induction p as [p IH] using payload_height_ind. intros Hw.
  assert (list_max (map height (elements p)) <= pred (rank (class p)))%nat as H.
  { apply list_max_le. rewrite Forall_forall. intros n (e & -> & He)%list_elem_of_fmap_1.
    destruct (well_formed_elements p e Hw He) as (We & Re & _). specialize (IH e He We). lia. }
  pose proof (rank_le (class p)). destruct p; cbn in *. lia.
Qed.

Lemma valid_create v data : bytes_ok data -> valid (set_major_version v (parser_create data)).
Proof. intros. split; cbn; try done; unfold at_bit; cbn; pose proof (len_nonneg data); lia. Qed.

Lemma remaining_create v data : remaining (set_major_version v (parser_create data)) = of_bytes data.
Proof. done. Qed.

(** * Several payloads *)

Section Chain.

Variable heap : Z -> Z.

(** What [message.c] and [encrypted_payload.c] do with their lists. *)
Definition generate_all (ps : list payload) (this : generator) : result generator :=
  generate_list (generate heap) ps this.

(** No configuration payload of IKEv2 follows a payload that leaves an attribute format,
    as it is in the order of [message.c]. *)
Fixpoint formats_ordered (ps : list payload) : bool :=
  match ps with
  | [] => true
  | p :: ps =>
      (negb (has_format p) || forallb (fun q => negb (is_v2_attribute q)) ps) && formats_ordered ps
  end.

Lemma generate_all_writes ps : forall this,
  at_cursor (At 0) this -> forallb well_formed ps = true -> formats_ordered ps = true ->
  gen_attribute_format this = 0 \/ forallb (fun q => negb (is_v2_attribute q)) ps = true ->
  exists this', generate_all ps this = Ok this' /\ at_cursor (At 0) this' /\
  output this' = output this ++ encode_all ps.
Proof.
  induction ps as [|p ps IH]; intros this Hc Hw Ho Hf; unfold generate_all; cbn [generate_list].
  { exists this. rewrite app_nil_r. done. }
  cbn [forallb formats_ordered] in *. rewrite !andb_true_iff in *.
  destruct Hw as [W1 W2]. destruct Ho as [O1 O2].
  assert (height p <= 4)%nat as Hh.
  { pose proof (well_formed_height p W1). pose proof (rank_le (class p)). lia. }
  destruct (generate_payload_writes heap 4 p Hh this Hc) as (g & l & E & [C O B F]).
  unfold generate at 1. rewrite E. cbn [bind].
  destruct (IH g C W2 O2) as (g' & E' & C' & Out').
  - destruct (has_format p) eqn:Hp; [right; by destruct O1|].
    destruct Hf as [Hf|[_ Hf]]; [left; rewrite F; done|by right].
  - exists g'. unfold generate_all in E'. rewrite E'. split_and!; [done|done|].
    rewrite Out', O, <- app_assoc. f_equal. cbn [encode_all flat_map]. f_equal.
    apply B; [done|]. intros Hv. destruct Hf as [Hf|[Hf _]]; [done|]. by rewrite Hv in Hf.
Qed.

End Chain.

(** * Round trip *)

Lemma parse_encode p v data rest : bytes_ok data -> of_bytes data = encode p ++ of_bytes rest ->
  well_formed p = true -> known_as v p ->
  exists this', parse (type_ p) (set_major_version v (parser_create data)) = Ok (p, this') /\
  8 * byte_pos this' = Z.of_nat (length (encode p)).
Proof.
  intros Hd He Hw Hk. pose proof (valid_create v data Hd) as Hv.
  destruct (parse_payload_encode 4 p (set_major_version v (parser_create data)) (of_bytes rest)
    (proj2 (rank_le _)) Hw Hk Hv eq_refl)
    as (this' & E & T & _ & B); [by rewrite remaining_create|].
  exists this'. split; [done|]. apply took_bytes in T; try done. cbn in T. lia.
Qed.

Lemma generate_encode heap p : well_formed p = true ->
  exists g, generate heap p (generator_create heap) = Ok g /\
  of_bytes (fst (get_chunk g)) = encode p /\ bytes_ok (fst (get_chunk g)).
Proof.
  intros Hw. destruct (generate_all_writes heap [p] (generator_create heap)) as (g & E & C & O).
  - apply created_at.
  - cbn. by rewrite Hw.
  - cbn. by rewrite orb_true_r.
  - by left.
  - destruct (chunk_output g C) as [H1 H2]. exists g. split_and!; [|rewrite H1, O|done].
    + revert E. unfold generate_all. cbn [generate_list]. by destruct (generate _ _ _).
    + rewrite created_output. cbn. by rewrite app_nil_r.
Qed.

(** C8: A well-formed payload of any kind - security associations with their proposals,
    transforms and attributes included - is generated without leaving the buffer, whatever
    the allocated memory held before, and the parser, told a version that knows the type,
    reads from the bytes, with anything after them, the same payload, and stops where the
    generated bytes end. *)
Theorem payload_roundtrip (heap : Z -> Z) (version : Z) (p : payload) (rest : chunk)
  (Hw : well_formed p = true) (Hk : known_as version p) (Hr : bytes_ok rest) :
  exists g this',
    generate heap p (generator_create heap) = Ok g /\
    let data := fst (get_chunk g) in
    parse (type_ p) (set_major_version version (parser_create (data ++ rest))) = Ok (p, this') /\
    byte_pos this' = len data.
Proof.
  destruct (generate_encode heap p Hw) as (g & E & Ho & Hb). exists g.
  destruct (parse_encode p version (fst (get_chunk g) ++ rest) rest) as (this' & P & B); try done.
  - by apply bytes_ok_app.
  - by rewrite of_bytes_app, Ho.
  - exists this'. rewrite <- Ho, length_of_bytes in B.
    split; [done|]. split; [done|]. unfold len. lia.
Qed.

(** C20: On any bytes, for any payload type and version, the parser ends with four levels
    of substructures, reads only inside of the input and stops at a byte of it: a payload
    or PARSE_ERROR is the result. *)
Theorem parse_stays_inside (t version : Z) (data : chunk) (Hd : bytes_ok data) :
  match parse t (set_major_version version (parser_create data)) with
  | Ok (p, this') => 0 <= byte_pos this' <= len data /\ bit_pos this' = 0 /\ input this' = data
  | Parse_error => True
  | Outside | Exhausted => False
  end.
Proof.
  pose proof (valid_create version data Hd) as Hv.
  pose proof (parse_payload_ends 4 t _ (proj2 (rank_le _)) Hv eq_refl) as H. unfold parse.
  destruct (parse_payload 4 t _) as [[p this']| | |]; try done.
  destruct H as ([[Vb V0 Ve _] I _ _] & B & _). cbn in I. unfold at_bit in Ve.
  rewrite I in *. split_and!; [done|lia|done|done].
Qed.

(** C21: Generating any payload with at most four levels, well-formed or not, after anything
    that was generated, ends and writes only inside of the buffer, which only grows: the
    earlier output is kept, what is added is a whole number of bytes. *)
Theorem generate_stays_inside (heap : Z -> Z) (p : payload) (this : generator)
  (Hh : (height p <= 4)%nat) (Hc : at_cursor (At 0) this) :
  exists this' added,
    generate heap p this = Ok this' /\ at_cursor (At 0) this' /\
    fst (get_chunk this') = fst (get_chunk this) ++ added.
Proof.
  destruct (generate_payload_writes heap 4 p Hh this Hc) as (g & l & E & [C O _ _]).
  destruct (chunk_output _ Hc) as [O1 B1]. destruct (chunk_output _ C) as [O2 B2].
  set (a := fst (get_chunk this)) in *. set (b := fst (get_chunk g)) in *.
  exists g, (drop (length a) b). split; [done|]. split; [done|].
  rewrite <- O1, <- O2 in O.
  fold b. transitivity (take (length a) b ++ drop (length a) b); [by rewrite take_drop|]. f_equal.
  apply of_bytes_inj; [auto with chunk|done|].
  rewrite of_bytes_take, O, <- length_of_bytes. by rewrite take_app_length.
Qed.

(** * Witnesses *)

(** A security association with one proposal of AES-CBC with a key of 128 bits. *)
Module Example_sa.
Definition key_length : payload :=
  set_num "attribute_format" 1 (set_num "attribute_type" 14
    (set_num "attribute_length_or_value" 128
       (transform_attribute_create PLV2_TRANSFORM_ATTRIBUTE))).
Definition encr : payload :=
  insert_last key_length (set_num "transform_ton" 1 (set_num "transform_id_v2" 12
    (set_num "transform_length" 12
       (transform_substructure_create PLV2_TRANSFORM_SUBSTRUCTURE)))).
Definition proposal : payload :=
  insert_last encr (set_num "proposal_number" 1 (set_num "protocol_id" PROTO_ESP
    (set_num "spi_size" 4 (set_num "transforms_count" 1 (set_num "proposal_length" 24
       (set_bytes "spi" [192; 1; 2; 3]
          (proposal_substructure_create PLV2_PROPOSAL_SUBSTRUCTURE))))))).
Definition sa : payload :=
  insert_last proposal (set_num "payload_length" 28 (set_num "next_payload" PLV2_NONCE
    (sa_payload_create PLV2_SECURITY_ASSOCIATION))).
Definition heap (i : Z) : Z := 165 + i.
End Example_sa.

Lemma payload_roundtrip_witness :
  exists g this',
    generate Example_sa.heap Example_sa.sa (generator_create Example_sa.heap) = Ok g /\
    let data := fst (get_chunk g) in
    parse PLV2_SECURITY_ASSOCIATION (set_major_version 2 (parser_create (data ++ [1; 2; 3])))
      = Ok (Example_sa.sa, this') /\
    byte_pos this' = len data.
Proof.
  apply (payload_roundtrip Example_sa.heap 2 Example_sa.sa [1; 2; 3]).
  - vm_compute. reflexivity.
  - reflexivity.
  - repeat constructor; discriminate.
Defined.

Lemma parse_stays_inside_witness :
  match parse PLV2_SECURITY_ASSOCIATION (set_major_version 2 (parser_create [0; 0; 0; 9; 0])) with
  | Ok (p, this') => 0 <= byte_pos this' <= 5 /\ bit_pos this' = 0 /\ input this' = [0; 0; 0; 9; 0]
  | Parse_error => True
  | Outside | Exhausted => False
  end.
Proof.
  apply (parse_stays_inside PLV2_SECURITY_ASSOCIATION 2 [0; 0; 0; 9; 0]).
  repeat constructor; discriminate.
Defined.

Lemma generate_stays_inside_witness :
  exists this' added,
    generate Example_sa.heap Example_sa.sa (generator_create Example_sa.heap) = Ok this' /\
    at_cursor (At 0) this' /\
    fst (get_chunk this') = fst (get_chunk (generator_create Example_sa.heap)) ++ added.
Proof.
  apply (generate_stays_inside Example_sa.heap Example_sa.sa (generator_create Example_sa.heap)).
  - vm_compute. lia.
  - apply created_at.
Defined.

(** The generator keeps the format of the last transform attribute: a configuration
    attribute of IKEv2 that follows loses its value. *)
Example value_lost :
  let address := set_num "attr_type" 1 (set_num "length_or_value" 4
                   (set_bytes "value" [10; 0; 0; 1]
                      (configuration_attribute_create PLV2_CONFIGURATION_ATTRIBUTE))) in
  let cp := insert_last address (set_num "payload_length" 16 (cp_payload_create PLV2_CONFIGURATION)) in
  (let* g := generate_all Example_sa.heap [cp; Example_sa.sa]
               (generator_create Example_sa.heap) in Ok (len (fst (get_chunk g)))) = Ok 44 /\
  (let* g := generate_all Example_sa.heap [Example_sa.sa; cp]
               (generator_create Example_sa.heap) in Ok (len (fst (get_chunk g)))) = Ok 40.
Proof. vm_compute. done. Qed.
