(* ===== verification/Verify.v ===== *)
(** Which payloads are accepted: the method [verify] of each kind of payload in
    libcharon/encoding/payloads. Some of them also repair the payload they accept. *)

From Stdlib Require Import Strings.String.
From stdpp Require Import gmap strings.
From S2P Require Import Prelude Host TrafficSelector Payloads.
#[local] Open Scope Z_scope.

Definition among (v : Z) (vs : list Z) : bool := existsb (Z.eqb v) vs.

(** * ike_header.c *)

Definition ID_PROT : Z := 2.
Definition AUTH_ONLY : Z := 3.
Definition AGGRESSIVE : Z := 4.
Definition INFORMATIONAL_V1 : Z := 5.
Definition TRANSACTION : Z := 6.
Definition QUICK_MODE : Z := 32.
Definition NEW_GROUP_MODE : Z := 33.
Definition IKE_SA_INIT : Z := 34.
Definition IKE_AUTH : Z := 35.
Definition CREATE_CHILD_SA : Z := 36.
Definition INFORMATIONAL : Z := 37.
Definition IKE_SESSION_RESUME : Z := 38.

Definition ike_header_verify (this : payload) : bool :=
  let exchange_type := num "exchange_type" this in
  let maj_version := num "maj_version" this in
  let accepted :=
    if among exchange_type [ID_PROT; AGGRESSIVE] then
      (num "message_id" this =? 0) && negb (maj_version =? IKEV2_MAJOR_VERSION)
    else if among exchange_type [AUTH_ONLY; INFORMATIONAL_V1; TRANSACTION; QUICK_MODE;
                                 NEW_GROUP_MODE]
    then negb (maj_version =? IKEV2_MAJOR_VERSION)
    else if among exchange_type [IKE_SA_INIT; IKE_AUTH; CREATE_CHILD_SA; INFORMATIONAL;
                                 IKE_SESSION_RESUME]
    then negb (maj_version =? IKEV1_MAJOR_VERSION)
    else negb (maj_version =? IKEV1_MAJOR_VERSION) && negb (maj_version =? IKEV2_MAJOR_VERSION) in
  accepted && negb (be_val (bytes "initiator_spi" this) =? 0).

(** * Security associations *)

Section Elements.

(** [verify] of the elements of a list. *)
Variable verify_sub : payload -> bool.

(** Proposal numbers do not decrease. *)
Fixpoint sa_verify_loop (expected_number : Z) (proposals : list payload) : bool :=
  match proposals with
  | [] => true
  | substruct :: proposals =>
      let current_number := num "proposal_number" substruct in
      negb (current_number <? expected_number) && verify_sub substruct
      && sa_verify_loop current_number proposals
  end.

Definition sa_verify (this : payload) : bool :=
  sa_verify_loop (if type_ this =? PLV2_SECURITY_ASSOCIATION then 1 else 0) (elements this).

Definition proposal_spi_ok (this : payload) : bool :=
  let spi_len := len (bytes "spi" this) in
  let protocol_id := num "protocol_id" this in
  if protocol_id =? PROTO_IPCOMP then (spi_len =? 2) || (spi_len =? 4)
  else if (protocol_id =? PROTO_AH) || (protocol_id =? PROTO_ESP) then spi_len =? 4
  else if protocol_id =? PROTO_IKE then
    if type_ this =? PLV1_PROPOSAL_SUBSTRUCTURE then spi_len <=? 16
    else (spi_len =? 0) || (spi_len =? 8)
  else true.

Definition proposal_verify (this : payload) : bool :=
  ((num "next_payload" this =? PL_NONE) || (num "next_payload" this =? 2))
  && (num "transforms_count" this =? Z.of_nat (length (elements this)))
  && proposal_spi_ok this && forallb verify_sub (elements this).

Definition transform_verify (this : payload) : bool :=
  ((num "next_payload" this =? PL_NONE) || (num "next_payload" this =? 3))
  && forallb verify_sub (elements this).

(** * Traffic selectors and configuration *)

Definition ts_verify (this : payload) : bool :=
  (num "ts_num" this =? Z.of_nat (length (elements this))) && forallb verify_sub (elements this).

Definition cp_verify (this : payload) : bool := forallb verify_sub (elements this).

End Elements.

Definition ts_substructure_verify (this : payload) : bool :=
  let start_port := num "start_port" this in
  let end_port := num "end_port" this in
  let both n := (len (bytes "starting_address" this) =? n) && (len (bytes "ending_address" this) =? n) in
  negb ((end_port <? start_port) && (negb (start_port =? 65535) && negb (end_port =? 0)))
  && (if num "ts_type" this =? TS_IPV4_ADDR_RANGE then both 4
      else if num "ts_type" this =? TS_IPV6_ADDR_RANGE then both 16
      else false).

Definition INTERNAL_IP4_ADDRESS : Z := 1.
Definition INTERNAL_IP4_NETMASK : Z := 2.
Definition INTERNAL_IP4_DNS : Z := 3.
Definition INTERNAL_IP4_NBNS : Z := 4.
Definition INTERNAL_ADDRESS_EXPIRY : Z := 5.
Definition INTERNAL_IP4_DHCP : Z := 6.
Definition INTERNAL_IP6_ADDRESS : Z := 8.
Definition INTERNAL_IP6_DNS : Z := 10.
Definition INTERNAL_IP6_NBNS : Z := 11.
Definition INTERNAL_IP6_DHCP : Z := 12.
Definition INTERNAL_IP4_SUBNET : Z := 13.
Definition SUPPORTED_ATTRIBUTES : Z := 14.
Definition INTERNAL_IP6_SUBNET : Z := 15.
Definition P_CSCF_IP4_ADDRESS : Z := 20.
Definition P_CSCF_IP6_ADDRESS : Z := 21.

(** The field is tested also when it is a value. *)
Definition configuration_attribute_verify (this : payload) : bool :=
  let attr_type := num "attr_type" this in
  let v := num "length_or_value" this in
  if among attr_type [INTERNAL_IP4_ADDRESS; INTERNAL_IP4_NETMASK; INTERNAL_IP4_DNS;
                      INTERNAL_IP4_NBNS; INTERNAL_ADDRESS_EXPIRY; INTERNAL_IP4_DHCP;
                      P_CSCF_IP4_ADDRESS]
  then among v [0; 4]
  else if attr_type =? INTERNAL_IP4_SUBNET then among v [0; 8]
  else if (attr_type =? INTERNAL_IP6_ADDRESS) && (type_ this =? PLV1_CONFIGURATION_ATTRIBUTE)
          && (v =? 16) then true
  else if among attr_type [INTERNAL_IP6_ADDRESS; INTERNAL_IP6_SUBNET] then among v [0; 17]
  else if among attr_type [INTERNAL_IP6_DNS; INTERNAL_IP6_NBNS; INTERNAL_IP6_DHCP;
                           P_CSCF_IP6_ADDRESS]
  then among v [0; 16]
  else if attr_type =? SUPPORTED_ATTRIBUTES then v mod 2 =? 0
  else true.

(** * Single payloads *)

Definition nonce_verify (this : payload) : bool :=
  let n := len (bytes "nonce" this) in
  negb ((256 <? n) || ((type_ this =? PLV2_NONCE) && (n <? 16))
        || ((type_ this =? PLV1_NONCE) && (n <? 8))).

Definition ID_IPV4_ADDR : Z := 1.
Definition ID_IPV4_ADDR_SUBNET : Z := 4.
Definition ID_IPV6_ADDR : Z := 5.
Definition ID_IPV6_ADDR_SUBNET : Z := 6.
Definition ID_IPV4_ADDR_RANGE : Z := 7.
Definition ID_IPV6_ADDR_RANGE : Z := 8.

Definition id_verify (this : payload) : bool :=
  let id_type := num "id_type" this in
  if among (type_ this) [PLV1_NAT_OA; PLV1_NAT_OA_DRAFT_00_03]
     && negb (among id_type [ID_IPV4_ADDR; ID_IPV6_ADDR]) then false
  else if among id_type [ID_IPV4_ADDR_RANGE; ID_IPV4_ADDR_SUBNET]
  then len (bytes "id_data" this) =? 8
  else if among id_type [ID_IPV6_ADDR_RANGE; ID_IPV6_ADDR_SUBNET]
  then len (bytes "id_data" this) =? 32
  else true.

Definition ENC_X509_SIGNATURE : Z := 4.
Definition ENC_X509_HASH_AND_URL : Z := 12.
Definition ENC_X509_HASH_AND_URL_BUNDLE : Z := 13.
Definition HASH_SIZE_SHA1 : Z := 20.

Definition isprint (c : Z) : bool := (32 <=? c) && (c <=? 126).

(** The loop over the URL: it ended at a zero, at what is not printable, or not at all. *)
Inductive url_end := Terminated | Unprintable | Unterminated.

Fixpoint scan_url (url : chunk) : url_end :=
  match url with
  | [] => Unterminated
  | c :: url => if c =? 0 then Terminated else if negb (isprint c) then Unprintable else scan_url url
  end.

(** All certificates are accepted; a URL that is not terminated gets a zero. *)
Definition cert_verify (this : payload) : payload :=
  let data := bytes "data" this in
  if among (num "encoding" this) [ENC_X509_HASH_AND_URL; ENC_X509_HASH_AND_URL_BUNDLE] then
    if len data <=? 20 then set_num "invalid_hash_and_url" 1 this
    else match scan_url (drop 20 data) with
         | Terminated => this
         | Unprintable => set_num "invalid_hash_and_url" 1 this
         | Unterminated => set_bytes "data" (data ++ [0]) this
         end
  else this.

Definition certreq_verify (this : payload) : bool :=
  negb ((type_ this =? PLV2_CERTREQ) && (num "encoding" this =? ENC_X509_SIGNATURE)
        && negb (len (bytes "data" this) mod HASH_SIZE_SHA1 =? 0)).

Definition INVALID_MAJOR_VERSION : Z := 5.
Definition INVALID_SYNTAX : Z := 7.
Definition NO_PROPOSAL_CHOSEN : Z := 14.
Definition INVALID_KE_PAYLOAD : Z := 17.
Definition INITIAL_CONTACT : Z := 16384.
Definition IPCOMP_SUPPORTED : Z := 16387.
Definition NAT_DETECTION_SOURCE_IP : Z := 16388.
Definition NAT_DETECTION_DESTINATION_IP : Z := 16389.
Definition COOKIE : Z := 16390.
Definition USE_TRANSPORT_MODE : Z := 16391.
Definition HTTP_CERT_LOOKUP_SUPPORTED : Z := 16392.
Definition REKEY_SA : Z := 16393.
Definition ESP_TFC_PADDING_NOT_SUPPORTED : Z := 16394.
Definition NON_FIRST_FRAGMENTS_ALSO : Z := 16395.
Definition MOBIKE_SUPPORTED : Z := 16396.
Definition ADDITIONAL_IP4_ADDRESS : Z := 16397.
Definition ADDITIONAL_IP6_ADDRESS : Z := 16398.
Definition NO_ADDITIONAL_ADDRESSES : Z := 16399.
Definition UPDATE_SA_ADDRESSES : Z := 16400.
Definition COOKIE2 : Z := 16401.
Definition AUTH_LIFETIME : Z := 16403.
Definition SIGNATURE_HASH_ALGORITHMS : Z := 16431.
Definition DPD_R_U_THERE : Z := 36136.
Definition DPD_R_U_THERE_ACK : Z := 36137.
Definition ME_ENDPOINT : Z := 40963.
Definition ME_CONNECTID : Z := 40965.
Definition ME_CONNECTKEY : Z := 40966.
Definition ME_CONNECTAUTH : Z := 40967.

Definition notify_bad_length (this : payload) : bool :=
  let t := num "notify_type" this in
  let n := len (bytes "notify_data" this) in
  let v2 := type_ this =? PLV2_NOTIFY in
  if t =? INVALID_KE_PAYLOAD then v2 && negb (n =? 2)
  else if among t [NAT_DETECTION_SOURCE_IP; NAT_DETECTION_DESTINATION_IP; ME_CONNECTAUTH]
  then negb (n =? HASH_SIZE_SHA1)
  else if among t [INVALID_SYNTAX; INVALID_MAJOR_VERSION; NO_PROPOSAL_CHOSEN]
  then v2 && negb (n =? 0)
  else if t =? COOKIE then (n <? 1) || (64 <? n)
  else if t =? ADDITIONAL_IP4_ADDRESS then negb (n =? 4)
  else if t =? ADDITIONAL_IP6_ADDRESS then negb (n =? 16)
  else if t =? SIGNATURE_HASH_ALGORITHMS then negb (n mod 2 =? 0)
  else if t =? AUTH_LIFETIME then negb (n =? 4)
  else if t =? IPCOMP_SUPPORTED then negb (n =? 3)
  else if t =? ME_ENDPOINT then negb (n =? 8) && negb (n =? 12) && negb (n =? 24)
  else if t =? ME_CONNECTID then (n <? 4) || (16 <? n)
  else if t =? ME_CONNECTKEY then (n <? 16) || (32 <? n)
  else if among t [DPD_R_U_THERE; DPD_R_U_THERE_ACK] then negb (n =? 4)
  else false.

Definition notify_verify (this : payload) : bool :=
  among (num "protocol_id" this) [PROTO_NONE; PROTO_IKE; PROTO_AH; PROTO_ESP]
  && negb (notify_bad_length this).

Definition delete_verify (this : payload) : bool :=
  let protocol_id := num "protocol_id" this in
  let spi_size := num "spi_size" this in
  (if among protocol_id [PROTO_AH; PROTO_ESP] then spi_size =? 4
   else if among protocol_id [PROTO_IKE; 0] then
     if type_ this =? PLV2_DELETE then spi_size =? 0 else spi_size =? 16
   else false)
  && (len (bytes "spis" this) =? num "spi_count" this * spi_size).

Definition eap_verify (this : payload) : bool :=
  let data := bytes "data" this in
  let code := default 0 (data !! 0%nat) in
  (4 <=? len data) && (len data =? be_val (take 2 (drop 2 data)))
  && (if among code [1; 2] then negb (len data <? 4)
      else if among code [3; 4] then len data =? 4
      else false).

Definition fragment_verify (this : payload) : bool := negb (num "fragment_number" this =? 0).

Definition frag_verify (this : payload) : option payload :=
  let fragment_number := num "fragment_number" this in
  let total_fragments := num "total_fragments" this in
  if (fragment_number =? 0) || (total_fragments =? 0) || (total_fragments <? fragment_number)
  then None
  else if (1 <? fragment_number) && negb (num "next_payload" this =? 0)
  then Some (set_num "next_payload" 0 this)
  else Some this.

(** * All kinds *)

(** Whether [verify] returns SUCCESS. *)
Fixpoint verified (this : payload) : bool :=
  match class this with
  | C_IKE_HEADER => ike_header_verify this
  | C_SA => sa_verify verified this
  | C_PROPOSAL => proposal_verify verified this
  | C_TRANSFORM => transform_verify verified this
  | C_NONCE => nonce_verify this
  | C_ID => id_verify this
  | C_CERTREQ => certreq_verify this
  | C_TS_SUBSTRUCTURE => ts_substructure_verify this
  | C_TS => ts_verify verified this
  | C_NOTIFY => notify_verify this
  | C_DELETE => delete_verify this
  | C_CP => cp_verify verified this
  | C_CONFIGURATION_ATTRIBUTE => configuration_attribute_verify this
  | C_EAP => eap_verify this
  | C_FRAGMENT => fragment_verify this
  | C_ENCRYPTED_FRAGMENT => match frag_verify this with Some _ => true | None => false end
  | C_ATTRIBUTE | C_AUTH | C_CERT | C_KE | C_VENDOR_ID | C_HASH | C_ENCRYPTED | C_UNKNOWN => true
  end.

(** The payload after [verify], if it was accepted. *)
Definition verify (this : payload) : option payload :=
  match class this with
  | C_CERT => Some (cert_verify this)
  | C_ENCRYPTED_FRAGMENT => frag_verify this
  | _ => if verified this then Some this else None
  end.
