(* ===== verification/EncryptedPayload.v ===== *)
(** Encrypted payloads: libcharon/encoding/payloads/encrypted_payload.c. The list of an
    encrypted payload is its [elements]; what is encrypted is its member [encrypted]. The
    transform, with its generator of IVs and the generator of padding, is code of the
    crypto layer and a parameter, as is the memory the generator of payloads allocates. *)

From Stdlib Require Import Strings.String.
From stdpp Require Import gmap strings.
From S2P Require Import Prelude Payloads Parser Generator Verify.
#[local] Open Scope Z_scope.

Inductive status :=
  | SUCCESS | FAILED | PARSE_ERROR | VERIFY_ERROR | INVALID_STATE | INVALID_ARG | NOT_SUPPORTED
  | NEED_MORE.

#[global] Instance status_eq_dec : EqDecision status.
Proof. solve_decision. Defined.

(** An aead_t with its IV generator, and the random numbers for padding. [encrypt] gives
    the ciphertext with the ICV behind it, [decrypt] takes that. *)
Record aead := Aead {
  get_block_size : Z;
  get_iv_size : Z;
  get_icv_size : Z;
  aead_encrypt : forall plain assoc iv : chunk, option chunk;
  aead_decrypt : forall crypt assoc iv : chunk, option chunk;
  get_iv_gen : option (forall seq size : Z, option chunk);
  create_rng : option (forall size : Z, option chunk);    (** lib->crypto's, for padding *)
}.

(** * Lengths *)

Definition compute_overhead (a : aead) (n : Z) : Z :=
  get_block_size a - n mod get_block_size a + get_iv_size a + get_icv_size a.

(** [this->aead] is [None] until [set_transform]. *)
Definition compute_length (transform : option aead) (this : payload) : payload :=
  let encrypted := bytes "encrypted" this in
  let n :=
    if negb (len encrypted =? 0) then len encrypted
    else
      let n := fold_left (fun n e => n + get_length e) (elements this) 0 in
      match transform with Some a => n + compute_overhead a n | None => n end in
  set_num "payload_length" (u16 (n + encrypted_get_header_length this)) this.

(** [get_length], which stores what it returns. *)
Definition encrypted_get_length (transform : option aead) (this : payload) : Z * payload :=
  let this := compute_length transform this in (num "payload_length" this, this).

Definition add_payload (transform : option aead) (e : payload) (this : payload) : payload :=
  let this :=
    match elements this with
    | [] => set_num "next_payload" (u8 (get_type e)) this
    | _ => update_last (set_next_type (get_type e)) this
    end in
  compute_length transform (insert_last (set_next_type PL_NONE e) this).

Definition remove_payload (this : payload) : option (payload * payload) :=
  match elements this with
  | [] => None
  | e :: es => Some (e, set_elements es this)
  end.

(** * Encryption *)

Section Encrypted.

Variable heap : Z -> Z.

(** The loop over the list: a payload is generated when the type of the next one is known;
    [done] are those that were generated, [next_type] what follows the last. *)
Fixpoint generate_loop (next_type : Z) (done : list payload) (current : payload)
    (rest : list payload) (g : generator) : result (list payload * generator) :=
  match rest with
  | [] =>
      let current := set_next_type next_type current in
      let* g := Generator.generate heap current g in Ok (done ++ [current], g)
  | next :: rest =>
      let current := set_next_type (get_type next) current in
      let* g := Generator.generate heap current g in
      generate_loop next_type (done ++ [current]) next rest g
  end.

(** The plaintext, and the payload with its types set. *)
Definition generate (this : payload) (g : generator) : result (chunk * payload * generator) :=
  match elements this with
  | [] => Ok ([], this, g)
  | current :: rest =>
      let this := set_num "next_payload" (u8 (get_type current)) this in
      let* '(es, g) := generate_loop PL_NONE [] current rest g in
      Ok (fst (get_chunk g), set_elements es this, g)
  end.

Definition append_header (transform : option aead) (this : payload) (assoc : chunk)
    : chunk * payload :=
  let next_payload := num "next_payload" this in
  let flags := num "flags" this in
  let '(n, this) := encrypted_get_length transform this in
  (assoc ++ next_payload :: flags :: be_bytes 2 n, this).

Definition encrypt_content (a : aead) (mid : Z) (plain assoc : chunk) : status * chunk :=
  match create_rng a, get_iv_gen a with
  | Some get_bytes, Some get_iv =>
      let bs := get_block_size a in
      let padding := bs - len plain mod bs in
      match get_iv mid (get_iv_size a), get_bytes (padding - 1) with
      | Some iv, Some random =>
          match aead_encrypt a (plain ++ random ++ [u8 (padding - 1)]) assoc iv with
          | Some crypt => (SUCCESS, iv ++ crypt)
          | None => (FAILED, [])
          end
      | _, _ => (FAILED, [])
      end
  | _, _ => (NOT_SUPPORTED, [])
  end.

(** When encryption fails the payload keeps a buffer of no use; its length is not known
    here, and the caller destroys it. *)
Definition encrypt (transform : option aead) (mid : Z) (assoc : chunk) (this : payload)
    : result (status * payload) :=
  match transform with
  | None => Ok (INVALID_STATE, this)
  | Some a =>
      let* '(plain, this, _) := generate this (generator_create heap) in
      let '(assoc, this) := append_header transform this assoc in
      let '(s, encrypted) := encrypt_content a (u64 (Z.shiftl mid 32)) plain assoc in
      Ok (s, if decide (s = SUCCESS) then set_bytes "encrypted" encrypted this else this)
  end.

(** IKEv1 pads with zeros and authenticates nothing. *)
Definition encrypt_v1 (transform : option aead) (iv : chunk) (this : payload)
    : result (status * payload) :=
  match transform with
  | None => Ok (INVALID_STATE, this)
  | Some a =>
      let* '(plain, this, _) := generate this (generator_create heap) in
      let bs := get_block_size a in
      let padding := bs - len plain mod bs in
      match aead_encrypt a (plain ++ replicate (Z.to_nat padding) 0) [] iv with
      | Some encrypted => Ok (SUCCESS, set_bytes "encrypted" encrypted this)
      | None => Ok (FAILED, this)
      end
  end.

(** * Decryption *)

(** The while loop; a payload that was parsed has consumed a byte, see [MessageSpec]. The
    test of the length looks at the start of the plaintext every time. *)
Fixpoint parse_loop (fuel : nat) (plain : chunk) (type : Z) (this : payload) (p : parser)
    : result (status * payload) :=
  if type =? PL_NONE then Ok (SUCCESS, this)
  else
    match fuel with
    | O => Exhausted
    | S fuel =>
        if (len plain <? 4) || (len plain <? be_val (take 2 (drop 2 plain)))
        then Ok (PARSE_ERROR, this)
        else
          match Parser.parse type p with
          | Ok (payload, p) =>
              match verify payload with
              | None => Ok (VERIFY_ERROR, this)
              | Some payload =>
                  parse_loop fuel plain (get_next_type payload) (insert_last payload this) p
              end
          | Parse_error => Ok (PARSE_ERROR, this)
          | Outside => Outside
          | Exhausted => Exhausted
          end
    end.

Definition parse (this : payload) (plain : chunk) : result (status * payload) :=
  let p := set_major_version (if type_ this =? PLV1_ENCRYPTED then 1 else 2) (parser_create plain) in
  parse_loop (S (length plain)) plain (num "next_payload" this) this p.

(** The status, the plaintext, and [encrypted] with what was decrypted in place. Without
    plaintext the byte before it is read, the last one of the IV if there is one. The
    plaintext is set, with its padding, when the padding is bad. *)
Definition decrypt_content (a : aead) (encrypted assoc : chunk)
    : result (status * option chunk * chunk) :=
  let bs := get_block_size a in
  let iv_len := get_iv_size a in
  let icv_len := get_icv_size a in
  let iv := take (Z.to_nat iv_len) encrypted in
  let crypt := drop (Z.to_nat iv_len) encrypted in
  if (len encrypted <? iv_len + icv_len) || negb ((len crypt - icv_len) mod bs =? 0)
  then Ok (FAILED, None, encrypted)
  else
    match aead_decrypt a crypt assoc iv with
    | None => Ok (FAILED, None, encrypted)
    | Some plain =>
        let encrypted := iv ++ plain ++ drop (length plain) crypt in
        match last (iv ++ plain) with
        | None => Outside
        | Some n =>
            let padding := n + 1 in
            if len plain <? padding then Ok (PARSE_ERROR, Some plain, encrypted)
            else Ok (SUCCESS, Some (take (Z.to_nat (len plain - padding)) plain), encrypted)
        end
    end.

Definition decrypt (transform : option aead) (assoc : chunk) (this : payload)
    : result (status * payload) :=
  match transform with
  | None => Ok (INVALID_STATE, this)
  | Some a =>
      let '(assoc, this) := append_header transform this assoc in
      let* '(s, plain, encrypted) := decrypt_content a (bytes "encrypted" this) assoc in
      let this := set_bytes "encrypted" encrypted this in
      match s, plain with
      | SUCCESS, Some plain => parse this plain
      | _, _ => Ok (s, this)
      end
  end.

Definition decrypt_v1 (transform : option aead) (iv : chunk) (this : payload)
    : result (status * payload) :=
  match transform with
  | None => Ok (INVALID_STATE, this)
  | Some a =>
      let encrypted := bytes "encrypted" this in
      if negb (len iv =? get_block_size a) || (len encrypted <? len iv)
         || negb (len encrypted mod len iv =? 0)
      then Ok (FAILED, this)
      else
        match aead_decrypt a encrypted [] iv with
        | None => Ok (FAILED, this)
        | Some plain => parse (set_bytes "encrypted" plain this) plain
        end
  end.

(** * Reassembled payloads *)

(** [from_plain] stands for the methods that are set. *)
Definition encrypted_payload_create_from_plain (next : Z) (plain : chunk) : payload :=
  set_bytes "encrypted" plain
    (set_num "next_payload" (u8 next)
       (set_num "from_plain" 1 (encrypted_payload_create PLV2_ENCRYPTED))).

Definition get_length_plain (transform : option aead) (this : payload) : Z * payload :=
  let n := u16 (len (bytes "encrypted" this)) in
  let n := match transform with Some a => u16 (n + compute_overhead a n) | None => n end in
  let this := set_num "payload_length" (u16 (n + encrypted_get_header_length this)) this in
  (num "payload_length" this, this).

(** [encrypted.ptr] is NULL when there are no data. *)
Definition decrypt_plain (this : payload) : result (status * payload) :=
  if len (bytes "encrypted" this) =? 0 then Ok (FAILED, this)
  else parse this (bytes "encrypted" this).

(** * Encrypted fragments *)

Definition frag_get_length (transform : option aead) (this : payload) : Z * payload :=
  let encrypted := bytes "encrypted" this in
  let n :=
    if negb (len encrypted =? 0) then u16 (len encrypted)
    else
      let n := u16 (len (bytes "plain" this)) in
      match transform with Some a => u16 (n + compute_overhead a n) | None => n end in
  let this := set_num "payload_length" (u16 (n + frag_get_header_length)) this in
  (num "payload_length" this, this).

Definition encrypted_fragment_payload_create_from_data (n total : Z) (plain : chunk) : payload :=
  set_bytes "plain" plain
    (set_num "total_fragments" (u16 total)
       (set_num "fragment_number" (u16 n) encrypted_fragment_payload_create)).

Definition append_header_frag (transform : option aead) (this : payload) (assoc : chunk)
    : chunk * payload :=
  let '(n, this) := frag_get_length transform this in
  (assoc ++ num "next_payload" this :: num "flags" this :: be_bytes 2 n
   ++ be_bytes 2 (num "fragment_number" this) ++ be_bytes 2 (num "total_fragments" this), this).

Definition frag_encrypt (transform : option aead) (mid : Z) (assoc : chunk) (this : payload)
    : status * payload :=
  match transform with
  | None => (INVALID_STATE, this)
  | Some a =>
      let '(assoc, this) := append_header_frag transform this assoc in
      let mid := Z.lor (u64 (Z.shiftl mid 32)) (num "fragment_number" this) in
      let '(s, encrypted) := encrypt_content a mid (bytes "plain" this) assoc in
      (s, if decide (s = SUCCESS) then set_bytes "encrypted" encrypted this else this)
  end.

(** The plaintext so far is freed, and copied when there is no other: reading it is an access
    outside of the memory if it was not empty. *)
Definition frag_decrypt (transform : option aead) (assoc : chunk) (this : payload)
    : result (status * payload) :=
  match transform with
  | None => Ok (INVALID_STATE, this)
  | Some a =>
      let '(assoc, this) := append_header_frag transform this assoc in
      let* '(s, plain, encrypted) := decrypt_content a (bytes "encrypted" this) assoc in
      let this := set_bytes "encrypted" encrypted this in
      match plain with
      | Some plain => Ok (s, set_bytes "plain" plain this)
      | None => if len (bytes "plain" this) =? 0 then Ok (s, this) else Outside
      end
  end.

(** * The methods of an encrypted payload or fragment *)

Definition encrypted_method_get_length (transform : option aead) (this : payload) : Z * payload :=
  match class this with
  | C_ENCRYPTED_FRAGMENT => frag_get_length transform this
  | C_ENCRYPTED =>
      if num "from_plain" this =? 0 then encrypted_get_length transform this
      else get_length_plain transform this
  | _ => (get_length this, this)
  end.

(** The chunk is the associated data, or the IV of IKEv1. *)
Definition encrypted_method_encrypt (transform : option aead) (mid : Z) (c : chunk)
    (this : payload) : result (status * payload) :=
  match class this with
  | C_ENCRYPTED_FRAGMENT => Ok (frag_encrypt transform mid c this)
  | _ => if type_ this =? PLV1_ENCRYPTED then encrypt_v1 transform c this
         else encrypt transform mid c this
  end.

Definition encrypted_method_decrypt (transform : option aead) (c : chunk) (this : payload)
    : result (status * payload) :=
  match class this with
  | C_ENCRYPTED_FRAGMENT => frag_decrypt transform c this
  | _ => if type_ this =? PLV1_ENCRYPTED then decrypt_v1 transform c this
         else if num "from_plain" this =? 0 then decrypt transform c this
         else decrypt_plain this
  end.

End Encrypted.
