(* ===== verification/MessageRules.v ===== *)
(** The message rules of libcharon/encoding/message.c: which payloads a message of an
    exchange may have, how often and whether encrypted, and in which order they are sent. *)

From S2P Require Import Prelude Payloads Verify.
#[local] Open Scope Z_scope.

Record payload_rule := PayloadRule {
  rule_payload : Z;
  min_occurrence : Z;
  max_occurrence : Z;
  rule_encrypted : bool;
  sufficient : bool;
}.

(** [order_notify] is 0 where the type of the notify does not matter. *)
Record payload_order := PayloadOrder { order_type : Z; order_notify : Z }.

Record message_rule := MessageRule {
  rule_exchange_type : Z;
  rule_is_request : bool;
  encrypted : bool;
  rule_list : list payload_rule;
  order_list : list payload_order;
}.

Definition MAX_CERTREQ_PAYLOADS : Z := 20.
Definition MAX_CERT_PAYLOADS : Z := 8.
Definition MAX_DELETE_PAYLOADS : Z := 20.
Definition MAX_NAT_D_PAYLOADS : Z := 10.
Definition MAX_NOTIFY_PAYLOADS : Z := 20.
Definition MAX_VID_PAYLOADS : Z := 20.
Definition ADDITIONAL_TS_POSSIBLE : Z := 16386.

Definition ike_sa_init_i_rules : list payload_rule :=
  [PayloadRule PLV2_NOTIFY 0 MAX_NOTIFY_PAYLOADS false false;
   PayloadRule PLV2_SECURITY_ASSOCIATION 1 1 false false;
   PayloadRule PLV2_KEY_EXCHANGE 1 1 false false;
   PayloadRule PLV2_NONCE 1 1 false false;
   PayloadRule PLV2_VENDOR_ID 0 MAX_VID_PAYLOADS false false].

Definition ike_sa_init_i_order : list payload_order :=
  [PayloadOrder PLV2_NOTIFY COOKIE;
   PayloadOrder PLV2_SECURITY_ASSOCIATION 0;
   PayloadOrder PLV2_KEY_EXCHANGE 0;
   PayloadOrder PLV2_NONCE 0;
   PayloadOrder PLV2_NOTIFY NAT_DETECTION_SOURCE_IP;
   PayloadOrder PLV2_NOTIFY NAT_DETECTION_DESTINATION_IP;
   PayloadOrder PLV2_NOTIFY 0;
   PayloadOrder PLV2_VENDOR_ID 0].

Definition ike_sa_init_r_rules : list payload_rule :=
  [PayloadRule PLV2_NOTIFY 0 MAX_NOTIFY_PAYLOADS false true;
   PayloadRule PLV2_SECURITY_ASSOCIATION 1 1 false false;
   PayloadRule PLV2_KEY_EXCHANGE 1 1 false false;
   PayloadRule PLV2_NONCE 1 1 false false;
   PayloadRule PLV2_CERTREQ 0 MAX_CERTREQ_PAYLOADS false false;
   PayloadRule PLV2_VENDOR_ID 0 MAX_VID_PAYLOADS false false].

Definition ike_sa_init_r_order : list payload_order :=
  [PayloadOrder PLV2_SECURITY_ASSOCIATION 0;
   PayloadOrder PLV2_KEY_EXCHANGE 0;
   PayloadOrder PLV2_NONCE 0;
   PayloadOrder PLV2_NOTIFY NAT_DETECTION_SOURCE_IP;
   PayloadOrder PLV2_NOTIFY NAT_DETECTION_DESTINATION_IP;
   PayloadOrder PLV2_NOTIFY HTTP_CERT_LOOKUP_SUPPORTED;
   PayloadOrder PLV2_CERTREQ 0;
   PayloadOrder PLV2_NOTIFY 0;
   PayloadOrder PLV2_VENDOR_ID 0].

Definition ike_auth_i_rules : list payload_rule :=
  [PayloadRule PLV2_FRAGMENT 0 1 true true;
   PayloadRule PLV2_NOTIFY 0 MAX_NOTIFY_PAYLOADS true false;
   PayloadRule PLV2_EAP 0 1 true true;
   PayloadRule PLV2_AUTH 0 1 true true;
   PayloadRule PLV2_ID_INITIATOR 0 1 true false;
   PayloadRule PLV2_CERTIFICATE 0 MAX_CERT_PAYLOADS true false;
   PayloadRule PLV2_CERTREQ 0 MAX_CERTREQ_PAYLOADS true false;
   PayloadRule PLV2_ID_RESPONDER 0 1 true false;
   PayloadRule PLV2_SECURITY_ASSOCIATION 0 1 true false;
   PayloadRule PLV2_TS_INITIATOR 0 1 true false;
   PayloadRule PLV2_TS_RESPONDER 0 1 true false;
   PayloadRule PLV2_CONFIGURATION 0 1 true false;
   PayloadRule PLV2_VENDOR_ID 0 MAX_VID_PAYLOADS true false].

Definition ike_auth_i_order : list payload_order :=
  [PayloadOrder PLV2_ID_INITIATOR 0;
   PayloadOrder PLV2_CERTIFICATE 0;
   PayloadOrder PLV2_NOTIFY INITIAL_CONTACT;
   PayloadOrder PLV2_NOTIFY HTTP_CERT_LOOKUP_SUPPORTED;
   PayloadOrder PLV2_CERTREQ 0;
   PayloadOrder PLV2_ID_RESPONDER 0;
   PayloadOrder PLV2_AUTH 0;
   PayloadOrder PLV2_EAP 0;
   PayloadOrder PLV2_CONFIGURATION 0;
   PayloadOrder PLV2_NOTIFY IPCOMP_SUPPORTED;
   PayloadOrder PLV2_NOTIFY USE_TRANSPORT_MODE;
   PayloadOrder PLV2_NOTIFY ESP_TFC_PADDING_NOT_SUPPORTED;
   PayloadOrder PLV2_NOTIFY NON_FIRST_FRAGMENTS_ALSO;
   PayloadOrder PLV2_SECURITY_ASSOCIATION 0;
   PayloadOrder PLV2_TS_INITIATOR 0;
   PayloadOrder PLV2_TS_RESPONDER 0;
   PayloadOrder PLV2_NOTIFY MOBIKE_SUPPORTED;
   PayloadOrder PLV2_NOTIFY ADDITIONAL_IP4_ADDRESS;
   PayloadOrder PLV2_NOTIFY ADDITIONAL_IP6_ADDRESS;
   PayloadOrder PLV2_NOTIFY NO_ADDITIONAL_ADDRESSES;
   PayloadOrder PLV2_NOTIFY 0;
   PayloadOrder PLV2_VENDOR_ID 0;
   PayloadOrder PLV2_FRAGMENT 0].

Definition ike_auth_r_rules : list payload_rule :=
  [PayloadRule PLV2_FRAGMENT 0 1 true true;
   PayloadRule PLV2_NOTIFY 0 MAX_NOTIFY_PAYLOADS true true;
   PayloadRule PLV2_EAP 0 1 true true;
   PayloadRule PLV2_AUTH 0 1 true true;
   PayloadRule PLV2_CERTIFICATE 0 MAX_CERT_PAYLOADS true false;
   PayloadRule PLV2_ID_RESPONDER 0 1 true false;
   PayloadRule PLV2_SECURITY_ASSOCIATION 0 1 true false;
   PayloadRule PLV2_TS_INITIATOR 0 1 true false;
   PayloadRule PLV2_TS_RESPONDER 0 1 true false;
   PayloadRule PLV2_CONFIGURATION 0 1 true false;
   PayloadRule PLV2_VENDOR_ID 0 MAX_VID_PAYLOADS true false].

Definition ike_auth_r_order : list payload_order :=
  [PayloadOrder PLV2_ID_RESPONDER 0;
   PayloadOrder PLV2_CERTIFICATE 0;
   PayloadOrder PLV2_AUTH 0;
   PayloadOrder PLV2_EAP 0;
   PayloadOrder PLV2_CONFIGURATION 0;
   PayloadOrder PLV2_NOTIFY IPCOMP_SUPPORTED;
   PayloadOrder PLV2_NOTIFY USE_TRANSPORT_MODE;
   PayloadOrder PLV2_NOTIFY ESP_TFC_PADDING_NOT_SUPPORTED;
   PayloadOrder PLV2_NOTIFY NON_FIRST_FRAGMENTS_ALSO;
   PayloadOrder PLV2_SECURITY_ASSOCIATION 0;
   PayloadOrder PLV2_TS_INITIATOR 0;
   PayloadOrder PLV2_TS_RESPONDER 0;
   PayloadOrder PLV2_NOTIFY AUTH_LIFETIME;
   PayloadOrder PLV2_NOTIFY MOBIKE_SUPPORTED;
   PayloadOrder PLV2_NOTIFY ADDITIONAL_IP4_ADDRESS;
   PayloadOrder PLV2_NOTIFY ADDITIONAL_IP6_ADDRESS;
   PayloadOrder PLV2_NOTIFY NO_ADDITIONAL_ADDRESSES;
   PayloadOrder PLV2_NOTIFY 0;
   PayloadOrder PLV2_VENDOR_ID 0;
   PayloadOrder PLV2_FRAGMENT 0].

Definition informational_i_rules : list payload_rule :=
  [PayloadRule PLV2_FRAGMENT 0 1 true true;
   PayloadRule PLV2_NOTIFY 0 MAX_NOTIFY_PAYLOADS true false;
   PayloadRule PLV2_CONFIGURATION 0 1 true false;
   PayloadRule PLV2_DELETE 0 MAX_DELETE_PAYLOADS true false;
   PayloadRule PLV2_VENDOR_ID 0 MAX_VID_PAYLOADS true false].

Definition informational_i_order : list payload_order :=
  [PayloadOrder PLV2_NOTIFY UPDATE_SA_ADDRESSES;
   PayloadOrder PLV2_NOTIFY NAT_DETECTION_SOURCE_IP;
   PayloadOrder PLV2_NOTIFY NAT_DETECTION_DESTINATION_IP;
   PayloadOrder PLV2_NOTIFY COOKIE2;
   PayloadOrder PLV2_NOTIFY 0;
   PayloadOrder PLV2_DELETE 0;
   PayloadOrder PLV2_CONFIGURATION 0;
   PayloadOrder PLV2_FRAGMENT 0].

Definition informational_r_rules : list payload_rule :=
  [PayloadRule PLV2_FRAGMENT 0 1 true true;
   PayloadRule PLV2_NOTIFY 0 MAX_NOTIFY_PAYLOADS true false;
   PayloadRule PLV2_CONFIGURATION 0 1 true false;
   PayloadRule PLV2_DELETE 0 MAX_DELETE_PAYLOADS true false;
   PayloadRule PLV2_VENDOR_ID 0 MAX_VID_PAYLOADS true false].

Definition informational_r_order : list payload_order :=
  [PayloadOrder PLV2_NOTIFY UPDATE_SA_ADDRESSES;
   PayloadOrder PLV2_NOTIFY NAT_DETECTION_SOURCE_IP;
   PayloadOrder PLV2_NOTIFY NAT_DETECTION_DESTINATION_IP;
   PayloadOrder PLV2_NOTIFY COOKIE2;
   PayloadOrder PLV2_NOTIFY 0;
   PayloadOrder PLV2_DELETE 0;
   PayloadOrder PLV2_CONFIGURATION 0;
   PayloadOrder PLV2_FRAGMENT 0].

Definition create_child_sa_i_rules : list payload_rule :=
  [PayloadRule PLV2_FRAGMENT 0 1 true true;
   PayloadRule PLV2_NOTIFY 0 MAX_NOTIFY_PAYLOADS true false;
   PayloadRule PLV2_SECURITY_ASSOCIATION 1 1 true false;
   PayloadRule PLV2_NONCE 1 1 true false;
   PayloadRule PLV2_KEY_EXCHANGE 0 1 true false;
   PayloadRule PLV2_TS_INITIATOR 0 1 true false;
   PayloadRule PLV2_TS_RESPONDER 0 1 true false;
   PayloadRule PLV2_CONFIGURATION 0 1 true false;
   PayloadRule PLV2_VENDOR_ID 0 MAX_VID_PAYLOADS true false].

Definition create_child_sa_i_order : list payload_order :=
  [PayloadOrder PLV2_NOTIFY REKEY_SA;
   PayloadOrder PLV2_NOTIFY IPCOMP_SUPPORTED;
   PayloadOrder PLV2_NOTIFY USE_TRANSPORT_MODE;
   PayloadOrder PLV2_NOTIFY ESP_TFC_PADDING_NOT_SUPPORTED;
   PayloadOrder PLV2_NOTIFY NON_FIRST_FRAGMENTS_ALSO;
   PayloadOrder PLV2_SECURITY_ASSOCIATION 0;
   PayloadOrder PLV2_NONCE 0;
   PayloadOrder PLV2_KEY_EXCHANGE 0;
   PayloadOrder PLV2_TS_INITIATOR 0;
   PayloadOrder PLV2_TS_RESPONDER 0;
   PayloadOrder PLV2_NOTIFY 0;
   PayloadOrder PLV2_FRAGMENT 0].

Definition create_child_sa_r_rules : list payload_rule :=
  [PayloadRule PLV2_FRAGMENT 0 1 true true;
   PayloadRule PLV2_NOTIFY 0 MAX_NOTIFY_PAYLOADS true true;
   PayloadRule PLV2_SECURITY_ASSOCIATION 1 1 true false;
   PayloadRule PLV2_NONCE 1 1 true false;
   PayloadRule PLV2_KEY_EXCHANGE 0 1 true false;
   PayloadRule PLV2_TS_INITIATOR 0 1 true false;
   PayloadRule PLV2_TS_RESPONDER 0 1 true false;
   PayloadRule PLV2_CONFIGURATION 0 1 true false;
   PayloadRule PLV2_VENDOR_ID 0 MAX_VID_PAYLOADS true false].

Definition create_child_sa_r_order : list payload_order :=
  [PayloadOrder PLV2_NOTIFY IPCOMP_SUPPORTED;
   PayloadOrder PLV2_NOTIFY USE_TRANSPORT_MODE;
   PayloadOrder PLV2_NOTIFY ESP_TFC_PADDING_NOT_SUPPORTED;
   PayloadOrder PLV2_NOTIFY NON_FIRST_FRAGMENTS_ALSO;
   PayloadOrder PLV2_SECURITY_ASSOCIATION 0;
   PayloadOrder PLV2_NONCE 0;
   PayloadOrder PLV2_KEY_EXCHANGE 0;
   PayloadOrder PLV2_TS_INITIATOR 0;
   PayloadOrder PLV2_TS_RESPONDER 0;
   PayloadOrder PLV2_NOTIFY ADDITIONAL_TS_POSSIBLE;
   PayloadOrder PLV2_NOTIFY 0;
   PayloadOrder PLV2_FRAGMENT 0].

Definition id_prot_i_rules : list payload_rule :=
  [PayloadRule PLV1_NOTIFY 0 MAX_NOTIFY_PAYLOADS false false;
   PayloadRule PLV1_SECURITY_ASSOCIATION 0 1 false false;
   PayloadRule PLV1_KEY_EXCHANGE 0 1 false false;
   PayloadRule PLV1_NONCE 0 1 false false;
   PayloadRule PLV1_VENDOR_ID 0 MAX_VID_PAYLOADS false false;
   PayloadRule PLV1_CERTREQ 0 MAX_CERTREQ_PAYLOADS false false;
   PayloadRule PLV1_NAT_D 0 MAX_NAT_D_PAYLOADS false false;
   PayloadRule PLV1_NAT_D_DRAFT_00_03 0 MAX_NAT_D_PAYLOADS false false;
   PayloadRule PLV1_ID 0 1 true false;
   PayloadRule PLV1_CERTIFICATE 0 MAX_CERT_PAYLOADS true false;
   PayloadRule PLV1_SIGNATURE 0 1 true false;
   PayloadRule PLV1_HASH 0 1 true false;
   PayloadRule PLV1_FRAGMENT 0 1 false true].

Definition id_prot_i_order : list payload_order :=
  [PayloadOrder PLV1_SECURITY_ASSOCIATION 0;
   PayloadOrder PLV1_KEY_EXCHANGE 0;
   PayloadOrder PLV1_NONCE 0;
   PayloadOrder PLV1_ID 0;
   PayloadOrder PLV1_CERTIFICATE 0;
   PayloadOrder PLV1_SIGNATURE 0;
   PayloadOrder PLV1_HASH 0;
   PayloadOrder PLV1_CERTREQ 0;
   PayloadOrder PLV1_NOTIFY 0;
   PayloadOrder PLV1_VENDOR_ID 0;
   PayloadOrder PLV1_NAT_D 0;
   PayloadOrder PLV1_NAT_D_DRAFT_00_03 0;
   PayloadOrder PLV1_FRAGMENT 0].

Definition id_prot_r_rules : list payload_rule :=
  [PayloadRule PLV1_NOTIFY 0 MAX_NOTIFY_PAYLOADS false false;
   PayloadRule PLV1_SECURITY_ASSOCIATION 0 1 false false;
   PayloadRule PLV1_KEY_EXCHANGE 0 1 false false;
   PayloadRule PLV1_NONCE 0 1 false false;
   PayloadRule PLV1_VENDOR_ID 0 MAX_VID_PAYLOADS false false;
   PayloadRule PLV1_CERTREQ 0 MAX_CERTREQ_PAYLOADS false false;
   PayloadRule PLV1_NAT_D 0 MAX_NAT_D_PAYLOADS false false;
   PayloadRule PLV1_NAT_D_DRAFT_00_03 0 MAX_NAT_D_PAYLOADS false false;
   PayloadRule PLV1_ID 0 1 true false;
   PayloadRule PLV1_CERTIFICATE 0 MAX_CERT_PAYLOADS true false;
   PayloadRule PLV1_SIGNATURE 0 1 true false;
   PayloadRule PLV1_HASH 0 1 true false;
   PayloadRule PLV1_FRAGMENT 0 1 false true].

Definition id_prot_r_order : list payload_order :=
  [PayloadOrder PLV1_SECURITY_ASSOCIATION 0;
   PayloadOrder PLV1_KEY_EXCHANGE 0;
   PayloadOrder PLV1_NONCE 0;
   PayloadOrder PLV1_ID 0;
   PayloadOrder PLV1_CERTIFICATE 0;
   PayloadOrder PLV1_SIGNATURE 0;
   PayloadOrder PLV1_HASH 0;
   PayloadOrder PLV1_CERTREQ 0;
   PayloadOrder PLV1_NOTIFY 0;
   PayloadOrder PLV1_VENDOR_ID 0;
   PayloadOrder PLV1_NAT_D 0;
   PayloadOrder PLV1_NAT_D_DRAFT_00_03 0;
   PayloadOrder PLV1_FRAGMENT 0].

Definition aggressive_i_rules : list payload_rule :=
  [PayloadRule PLV1_NOTIFY 0 MAX_NOTIFY_PAYLOADS false false;
   PayloadRule PLV1_SECURITY_ASSOCIATION 0 1 false false;
   PayloadRule PLV1_KEY_EXCHANGE 0 1 false false;
   PayloadRule PLV1_NONCE 0 1 false false;
   PayloadRule PLV1_VENDOR_ID 0 MAX_VID_PAYLOADS false false;
   PayloadRule PLV1_CERTREQ 0 MAX_CERTREQ_PAYLOADS false false;
   PayloadRule PLV1_NAT_D 0 MAX_NAT_D_PAYLOADS false false;
   PayloadRule PLV1_NAT_D_DRAFT_00_03 0 MAX_NAT_D_PAYLOADS false false;
   PayloadRule PLV1_ID 0 1 false false;
   PayloadRule PLV1_CERTIFICATE 0 MAX_CERT_PAYLOADS true false;
   PayloadRule PLV1_SIGNATURE 0 1 true false;
   PayloadRule PLV1_HASH 0 1 true false;
   PayloadRule PLV1_FRAGMENT 0 1 false true].

Definition aggressive_i_order : list payload_order :=
  [PayloadOrder PLV1_SECURITY_ASSOCIATION 0;
   PayloadOrder PLV1_KEY_EXCHANGE 0;
   PayloadOrder PLV1_NONCE 0;
   PayloadOrder PLV1_ID 0;
   PayloadOrder PLV1_CERTIFICATE 0;
   PayloadOrder PLV1_CERTREQ 0;
   PayloadOrder PLV1_NOTIFY 0;
   PayloadOrder PLV1_VENDOR_ID 0;
   PayloadOrder PLV1_HASH 0;
   PayloadOrder PLV1_NAT_D 0;
   PayloadOrder PLV1_NAT_D_DRAFT_00_03 0;
   PayloadOrder PLV1_SIGNATURE 0;
   PayloadOrder PLV1_FRAGMENT 0].

Definition aggressive_r_rules : list payload_rule :=
  [PayloadRule PLV1_NOTIFY 0 MAX_NOTIFY_PAYLOADS false false;
   PayloadRule PLV1_SECURITY_ASSOCIATION 0 1 false false;
   PayloadRule PLV1_KEY_EXCHANGE 0 1 false false;
   PayloadRule PLV1_NONCE 0 1 false false;
   PayloadRule PLV1_VENDOR_ID 0 MAX_VID_PAYLOADS false false;
   PayloadRule PLV1_CERTREQ 0 MAX_CERTREQ_PAYLOADS false false;
   PayloadRule PLV1_NAT_D 0 MAX_NAT_D_PAYLOADS false false;
   PayloadRule PLV1_NAT_D_DRAFT_00_03 0 MAX_NAT_D_PAYLOADS false false;
   PayloadRule PLV1_ID 0 1 false false;
   PayloadRule PLV1_CERTIFICATE 0 MAX_CERT_PAYLOADS false false;
   PayloadRule PLV1_SIGNATURE 0 1 false false;
   PayloadRule PLV1_HASH 0 1 false false;
   PayloadRule PLV1_FRAGMENT 0 1 false true].

Definition aggressive_r_order : list payload_order :=
  [PayloadOrder PLV1_SECURITY_ASSOCIATION 0;
   PayloadOrder PLV1_KEY_EXCHANGE 0;
   PayloadOrder PLV1_NONCE 0;
   PayloadOrder PLV1_ID 0;
   PayloadOrder PLV1_CERTIFICATE 0;
   PayloadOrder PLV1_CERTREQ 0;
   PayloadOrder PLV1_NOTIFY 0;
   PayloadOrder PLV1_VENDOR_ID 0;
   PayloadOrder PLV1_NAT_D 0;
   PayloadOrder PLV1_NAT_D_DRAFT_00_03 0;
   PayloadOrder PLV1_SIGNATURE 0;
   PayloadOrder PLV1_HASH 0;
   PayloadOrder PLV1_FRAGMENT 0].

Definition informational_i_rules_v1 : list payload_rule :=
  [PayloadRule PLV1_NOTIFY 0 MAX_NOTIFY_PAYLOADS false false;
   PayloadRule PLV1_NOTIFY 0 MAX_NOTIFY_PAYLOADS true false;
   PayloadRule PLV1_DELETE 0 MAX_DELETE_PAYLOADS true false;
   PayloadRule PLV1_VENDOR_ID 0 MAX_VID_PAYLOADS true false].

Definition informational_i_order_v1 : list payload_order :=
  [PayloadOrder PLV1_NOTIFY 0;
   PayloadOrder PLV1_DELETE 0;
   PayloadOrder PLV1_VENDOR_ID 0].

Definition informational_r_rules_v1 : list payload_rule :=
  [PayloadRule PLV1_NOTIFY 0 MAX_NOTIFY_PAYLOADS false false;
   PayloadRule PLV1_NOTIFY 0 MAX_NOTIFY_PAYLOADS true false;
   PayloadRule PLV1_DELETE 0 MAX_DELETE_PAYLOADS true false;
   PayloadRule PLV1_VENDOR_ID 0 MAX_VID_PAYLOADS true false].

Definition informational_r_order_v1 : list payload_order :=
  [PayloadOrder PLV1_NOTIFY 0;
   PayloadOrder PLV1_DELETE 0;
   PayloadOrder PLV1_VENDOR_ID 0].

Definition quick_mode_i_rules : list payload_rule :=
  [PayloadRule PLV1_NOTIFY 0 MAX_NOTIFY_PAYLOADS true false;
   PayloadRule PLV1_VENDOR_ID 0 MAX_VID_PAYLOADS true false;
   PayloadRule PLV1_HASH 0 1 true false;
   PayloadRule PLV1_SECURITY_ASSOCIATION 0 2 true false;
   PayloadRule PLV1_NONCE 0 1 true false;
   PayloadRule PLV1_KEY_EXCHANGE 0 1 true false;
   PayloadRule PLV1_ID 0 2 true false;
   PayloadRule PLV1_NAT_OA 0 2 true false;
   PayloadRule PLV1_NAT_OA_DRAFT_00_03 0 2 true false;
   PayloadRule PLV1_FRAGMENT 0 1 false true].

Definition quick_mode_i_order : list payload_order :=
  [PayloadOrder PLV1_NOTIFY 0;
   PayloadOrder PLV1_VENDOR_ID 0;
   PayloadOrder PLV1_HASH 0;
   PayloadOrder PLV1_SECURITY_ASSOCIATION 0;
   PayloadOrder PLV1_NONCE 0;
   PayloadOrder PLV1_KEY_EXCHANGE 0;
   PayloadOrder PLV1_ID 0;
   PayloadOrder PLV1_NAT_OA 0;
   PayloadOrder PLV1_NAT_OA_DRAFT_00_03 0;
   PayloadOrder PLV1_FRAGMENT 0].

Definition quick_mode_r_rules : list payload_rule :=
  [PayloadRule PLV1_NOTIFY 0 MAX_NOTIFY_PAYLOADS true false;
   PayloadRule PLV1_VENDOR_ID 0 MAX_VID_PAYLOADS true false;
   PayloadRule PLV1_HASH 0 1 true false;
   PayloadRule PLV1_SECURITY_ASSOCIATION 0 2 true false;
   PayloadRule PLV1_NONCE 0 1 true false;
   PayloadRule PLV1_KEY_EXCHANGE 0 1 true false;
   PayloadRule PLV1_ID 0 2 true false;
   PayloadRule PLV1_NAT_OA 0 2 true false;
   PayloadRule PLV1_NAT_OA_DRAFT_00_03 0 2 true false;
   PayloadRule PLV1_FRAGMENT 0 1 false true].

Definition quick_mode_r_order : list payload_order :=
  [PayloadOrder PLV1_NOTIFY 0;
   PayloadOrder PLV1_VENDOR_ID 0;
   PayloadOrder PLV1_HASH 0;
   PayloadOrder PLV1_SECURITY_ASSOCIATION 0;
   PayloadOrder PLV1_NONCE 0;
   PayloadOrder PLV1_KEY_EXCHANGE 0;
   PayloadOrder PLV1_ID 0;
   PayloadOrder PLV1_NAT_OA 0;
   PayloadOrder PLV1_NAT_OA_DRAFT_00_03 0;
   PayloadOrder PLV1_FRAGMENT 0].

Definition transaction_payload_rules_v1 : list payload_rule :=
  [PayloadRule PLV1_HASH 0 1 true false;
   PayloadRule PLV1_CONFIGURATION 1 1 false false].

Definition transaction_payload_order_v1 : list payload_order :=
  [PayloadOrder PLV1_HASH 0;
   PayloadOrder PLV1_CONFIGURATION 0].

Definition message_rules : list message_rule :=
  [MessageRule IKE_SA_INIT true false ike_sa_init_i_rules ike_sa_init_i_order;
   MessageRule IKE_SA_INIT false false ike_sa_init_r_rules ike_sa_init_r_order;
   MessageRule IKE_AUTH true true ike_auth_i_rules ike_auth_i_order;
   MessageRule IKE_AUTH false true ike_auth_r_rules ike_auth_r_order;
   MessageRule INFORMATIONAL true true informational_i_rules informational_i_order;
   MessageRule INFORMATIONAL false true informational_r_rules informational_r_order;
   MessageRule CREATE_CHILD_SA true true create_child_sa_i_rules create_child_sa_i_order;
   MessageRule CREATE_CHILD_SA false true create_child_sa_r_rules create_child_sa_r_order;
   MessageRule ID_PROT true false id_prot_i_rules id_prot_i_order;
   MessageRule ID_PROT false false id_prot_r_rules id_prot_r_order;
   MessageRule AGGRESSIVE true false aggressive_i_rules aggressive_i_order;
   MessageRule AGGRESSIVE false false aggressive_r_rules aggressive_r_order;
   MessageRule INFORMATIONAL_V1 true true informational_i_rules_v1 informational_i_order_v1;
   MessageRule INFORMATIONAL_V1 false true informational_r_rules_v1 informational_r_order_v1;
   MessageRule QUICK_MODE true true quick_mode_i_rules quick_mode_i_order;
   MessageRule QUICK_MODE false true quick_mode_r_rules quick_mode_r_order;
   MessageRule TRANSACTION true true transaction_payload_rules_v1 transaction_payload_order_v1;
   MessageRule TRANSACTION false true transaction_payload_rules_v1 transaction_payload_order_v1].
