(* ===== verification/Message.v ===== *)
(** IKE messages: libcharon/encoding/message.c. A message is put together from payloads,
    ordered, wrapped in an encrypted payload and generated, or parsed, decrypted and
    checked against the rules of its exchange. Fragments are in [Fragments]. *)

From Stdlib Require Import Strings.String.
From stdpp Require Import gmap strings.
From S2P Require Import Prelude Host Payloads Parser Generator Verify EncryptedPayload MessageRules.
#[local] Open Scope Z_scope.

(** ike_sa_id.c; an SPI is its eight bytes in memory. *)
Record ike_sa_id := IkeSaId {
  ike_version : Z;
  initiator_spi : chunk;
  responder_spi : chunk;
  is_initiator_flag : bool;
}.

(** The UDP packet; without data [get_data] has no pointer. *)
Record packet := Packet {
  source : option host_t;
  destination : option host_t;
  packet_data : chunk;
}.

Record message := Message {
  major_version : Z;
  minor_version : Z;
  first_payload : Z;
  exchange_type : Z;
  is_request : bool;
  is_encrypted : bool;
  version_flag : bool;
  reserved : bool * bool;
  sort_disabled : bool;
  message_id : Z;
  sa_id : option ike_sa_id;
  message_packet : packet;
  payloads : list payload;
  message_parser : option parser;
  rule : option message_rule;
}.

Definition set_ike_sa_id (id : ike_sa_id) (this : message) : message :=
  Message (major_version this) (minor_version this) (first_payload this) (exchange_type this)
    (is_request this) (is_encrypted this) (version_flag this) (reserved this)
    (sort_disabled this) (message_id this) (Some id) (message_packet this) (payloads this)
    (message_parser this) (rule this).
Definition set_message_id (v : Z) (this : message) : message :=
  Message (major_version this) (minor_version this) (first_payload this) (exchange_type this)
    (is_request this) (is_encrypted this) (version_flag this) (reserved this)
    (sort_disabled this) (u32 v) (sa_id this) (message_packet this) (payloads this)
    (message_parser this) (rule this).
Definition set_versions (major minor : Z) (this : message) : message :=
  Message (u8 major) (u8 minor) (first_payload this) (exchange_type this)
    (is_request this) (is_encrypted this) (version_flag this) (reserved this)
    (sort_disabled this) (message_id this) (sa_id this) (message_packet this) (payloads this)
    (message_parser this) (rule this).
Definition set_first_payload (t : Z) (this : message) : message :=
  Message (major_version this) (minor_version this) t (exchange_type this)
    (is_request this) (is_encrypted this) (version_flag this) (reserved this)
    (sort_disabled this) (message_id this) (sa_id this) (message_packet this) (payloads this)
    (message_parser this) (rule this).
Definition set_exchange_type (t : Z) (this : message) : message :=
  Message (major_version this) (minor_version this) (first_payload this) t
    (is_request this) (is_encrypted this) (version_flag this) (reserved this)
    (sort_disabled this) (message_id this) (sa_id this) (message_packet this) (payloads this)
    (message_parser this) (rule this).
Definition set_request (b : bool) (this : message) : message :=
  Message (major_version this) (minor_version this) (first_payload this) (exchange_type this)
    b (is_encrypted this) (version_flag this) (reserved this)
    (sort_disabled this) (message_id this) (sa_id this) (message_packet this) (payloads this)
    (message_parser this) (rule this).
Definition set_is_encrypted (b : bool) (this : message) : message :=
  Message (major_version this) (minor_version this) (first_payload this) (exchange_type this)
    (is_request this) b (version_flag this) (reserved this)
    (sort_disabled this) (message_id this) (sa_id this) (message_packet this) (payloads this)
    (message_parser this) (rule this).
Definition set_version_flag (this : message) : message :=
  Message (major_version this) (minor_version this) (first_payload this) (exchange_type this)
    (is_request this) (is_encrypted this) true (reserved this)
    (sort_disabled this) (message_id this) (sa_id this) (message_packet this) (payloads this)
    (message_parser this) (rule this).
Definition set_reserved (r : bool * bool) (this : message) : message :=
  Message (major_version this) (minor_version this) (first_payload this) (exchange_type this)
    (is_request this) (is_encrypted this) (version_flag this) r
    (sort_disabled this) (message_id this) (sa_id this) (message_packet this) (payloads this)
    (message_parser this) (rule this).
Definition disable_sort (this : message) : message :=
  Message (major_version this) (minor_version this) (first_payload this) (exchange_type this)
    (is_request this) (is_encrypted this) (version_flag this) (reserved this)
    true (message_id this) (sa_id this) (message_packet this) (payloads this)
    (message_parser this) (rule this).
Definition set_packet (p : packet) (this : message) : message :=
  Message (major_version this) (minor_version this) (first_payload this) (exchange_type this)
    (is_request this) (is_encrypted this) (version_flag this) (reserved this)
    (sort_disabled this) (message_id this) (sa_id this) p (payloads this)
    (message_parser this) (rule this).
Definition set_payloads (ps : list payload) (this : message) : message :=
  Message (major_version this) (minor_version this) (first_payload this) (exchange_type this)
    (is_request this) (is_encrypted this) (version_flag this) (reserved this)
    (sort_disabled this) (message_id this) (sa_id this) (message_packet this) ps
    (message_parser this) (rule this).
Definition set_parser (p : option parser) (this : message) : message :=
  Message (major_version this) (minor_version this) (first_payload this) (exchange_type this)
    (is_request this) (is_encrypted this) (version_flag this) (reserved this)
    (sort_disabled this) (message_id this) (sa_id this) (message_packet this) (payloads this)
    p (rule this).
Definition set_rule (r : option message_rule) (this : message) : message :=
  Message (major_version this) (minor_version this) (first_payload this) (exchange_type this)
    (is_request this) (is_encrypted this) (version_flag this) (reserved this)
    (sort_disabled this) (message_id this) (sa_id this) (message_packet this) (payloads this)
    (message_parser this) r.

Definition set_packet_data (c : chunk) (this : message) : message :=
  set_packet (Packet (source (message_packet this)) (destination (message_packet this)) c) this.

(** The key material of an IKE_SA; the functions from [get_hash_phase2] on are those of
    IKEv1. *)
Record keymat := Keymat {
  get_version : Z;
  get_aead : bool -> option aead;
  get_hash_phase2 : message -> option chunk;
  keymat_get_iv : Z -> option chunk;
  update_iv : Z -> chunk -> bool;
  confirm_iv : Z -> bool;
}.

Definition IKEV1 : Z := 1.
Definition is_keymat_v1 (k : option keymat) : bool :=
  match k with Some k => get_version k =? IKEV1 | None => false end.

Definition message_create_from_packet (p : packet) : message :=
  Message 0 0 PL_NONE EXCHANGE_TYPE_UNDEFINED true false false (false, false) false 0 None p []
    (Some (parser_create (packet_data p))) None.

Definition message_create (major minor : Z) : message :=
  set_versions major minor (message_create_from_packet (Packet None None [])).

(** * Rules and payloads *)

Definition get_message_rule (this : message) : option message_rule :=
  List.find (fun r => (exchange_type this =? rule_exchange_type r)
                      && eqb (is_request this) (rule_is_request r)) message_rules.

Definition get_payload_rule (r : message_rule) (t : Z) : option payload_rule :=
  List.find (fun r => rule_payload r =? t) (rule_list r).

Definition map_last {A} (f : A -> A) (l : list A) : list A :=
  match reverse l with
  | [] => []
  | x :: before => reverse (f x :: before)
  end.

Definition add_payload (p : payload) (this : message) : message :=
  let t := get_type p in
  let this :=
    match payloads this with
    | [] => set_first_payload t this
    | _ => set_payloads (map_last (set_next_type t) (payloads this)) this
    end in
  set_payloads (payloads this ++ [set_next_type PL_NONE p]) this.

Definition notify_compute_length (this : payload) : payload :=
  set_num "payload_length" (u16 (get_header_length this + len (bytes "notify_data" this))) this.
Definition set_notification_data (data : chunk) (this : payload) : payload :=
  notify_compute_length (set_bytes "notify_data" data this).

Definition add_notify (flush : bool) (t : Z) (data : chunk) (this : message) : message :=
  let this := if flush then set_payloads [] this else this in
  let notify :=
    notify_payload_create (if major_version this =? IKEV2_MAJOR_VERSION then PLV2_NOTIFY
                           else PLV1_NOTIFY) in
  let notify := set_num "notify_type" (u16 t) notify in
  add_payload (set_notification_data data notify) this.

Definition get_payload (t : Z) (this : message) : option payload :=
  List.find (fun p => get_type p =? t) (payloads this).

Definition get_notify (t : Z) (this : message) : option payload :=
  List.find (fun p => ((get_type p =? PLV2_NOTIFY) || (get_type p =? PLV1_NOTIFY))
                      && (num "notify_type" p =? t)) (payloads this).

(** * Generating *)

Definition order_matches (o : payload_order) (p : payload) : bool :=
  (get_type p =? order_type o)
  && (negb (order_type o =? PLV2_NOTIFY) || (order_notify o =? 0)
      || (order_notify o =? num "notify_type" p)).

(** The payloads of one rule move to the message. *)
Fixpoint order_step (o : payload_order) (ps : list payload) (this : message)
    : list payload * message :=
  match ps with
  | [] => ([], this)
  | p :: ps =>
      if order_matches o p then order_step o ps (add_payload p this)
      else let '(others, this) := order_step o ps this in (p :: others, this)
  end.

Fixpoint order_loop (os : list payload_order) (ps : list payload) (this : message)
    : list payload * message :=
  match os with
  | [] => (ps, this)
  | o :: os => let '(ps, this) := order_step o ps this in order_loop os ps this
  end.

(** Payloads without a rule are taken from the end of the list. *)
Definition order_payloads (r : message_rule) (this : message) : message :=
  let '(others, this) := order_loop (order_list r) (payloads this) (set_payloads [] this) in
  fold_left (fun this p => add_payload p this) (reverse others) this.

(** The payloads that are not encrypted stay in the message. *)
Fixpoint wrap_loop (r : message_rule) (ps : list payload) (encrypted : payload) (this : message)
    : payload * message :=
  match ps with
  | [] => (encrypted, this)
  | current :: ps =>
      let encrypt := match get_payload_rule r (get_type current) with
                     | Some rule => rule_encrypted rule
                     | None => true
                     end in
      if encrypt || is_encrypted this
      then wrap_loop r ps (EncryptedPayload.add_payload None current encrypted) this
      else wrap_loop r ps encrypted (add_payload current this)
  end.

Definition wrap_payloads (r : message_rule) (this : message) : payload * message :=
  let is_fragment p := get_type p =? PLV2_FRAGMENT in
  match last (List.filter is_fragment (payloads this)) with
  | Some encrypted =>
      (encrypted, set_payloads (List.filter (fun p => negb (is_fragment p)) (payloads this)) this)
  | None =>
      wrap_loop r (payloads this)
        (encrypted_payload_create (if is_encrypted this then PLV1_ENCRYPTED else PLV2_ENCRYPTED))
        (set_payloads [] this)
  end.

Definition ike_header_create_version (major minor : Z) : payload :=
  let this := set_num "min_version" (u8 minor) (set_num "maj_version" (u8 major) ike_header_create) in
  if major =? IKEV2_MAJOR_VERSION then set_num "flags.initiator" 1 this else this.

Definition create_header (id : ike_sa_id) (this : message) : payload :=
  let h := ike_header_create_version (major_version this) (minor_version this) in
  let h := set_num "exchange_type" (u8 (exchange_type this)) h in
  let h := set_num "message_id" (message_id this) h in
  let h :=
    if major_version this =? IKEV2_MAJOR_VERSION then
      set_num "flags.initiator" (Z.b2z (is_initiator_flag id))
        (set_num "flags.version" (Z.b2z (version_flag this))
           (set_num "flags.response" (Z.b2z (negb (is_request this))) h))
    else set_num "flags.encryption" (Z.b2z (is_encrypted this)) h in
  let h := set_bytes "responder_spi" (responder_spi id)
             (set_bytes "initiator_spi" (initiator_spi id) h) in
  set_num "reserved[1]" (Z.b2z (snd (reserved this)))
    (set_num "reserved[0]" (Z.b2z (fst (reserved this))) h).

Section Message.

(** The memory of the generator, and the setting that lets SonicWall boxes in. *)
Variable heap : Z -> Z.
Variable accept_unencrypted_mainmode_messages : bool.

Definition hash_payload (hash : chunk) : payload :=
  let this := set_bytes "hash" hash (hash_payload_create PLV1_HASH) in
  set_num "payload_length" (u16 (len hash + get_header_length this)) this.

(** What is sent with a hash starts with it. *)
Definition insert_hash (k : option keymat) (this : message) : message * bool :=
  match k with
  | Some k =>
      if get_version k =? IKEV1 then
        match get_hash_phase2 k this with
        | Some hash =>
            let this := set_payloads (hash_payload hash :: payloads this) this in
            if exchange_type this =? INFORMATIONAL_V1 then (set_is_encrypted true this, true)
            else (this, false)
        | None => (this, false)
        end
      else (this, false)
  | None => (this, false)
  end.

Definition needs_encryption (r : message_rule) (p : payload) : bool :=
  match get_payload_rule r (get_type p) with Some rule => rule_encrypted rule | None => false end.

(** Whether the message is to be encrypted. *)
Definition encrypting (r : message_rule) (hash_encrypts : bool) (this : message) : message * bool :=
  if major_version this =? IKEV2_MAJOR_VERSION then (this, encrypted r)
  else if hash_encrypts then (this, true)
  else if existsb (needs_encryption r) (payloads this) then (set_is_encrypted true this, true)
  else (this, false).

(** The message, what was generated so far, and the payload that is to be encrypted with
    its transform. *)
Definition generated : Type := message * generator * option (payload * aead).

(** The header and the payloads, each with the type of the next. *)
Definition generate_parts (id : ike_sa_id) (next_type : Z) (this : message)
    : result (message * generator) :=
  let* '(ps, g) := generate_loop heap next_type [] (create_header id this) (payloads this)
                     (generator_create heap) in
  Ok (set_payloads (tail ps) this, g).

Definition next_type (this : message) (wrapped : option (payload * aead)) : Z :=
  match wrapped with
  | None => PL_NONE
  | Some (e, _) => if is_encrypted this then get_next_type e else get_type e
  end.

(** The last step: nothing is encrypted, or there is a transform. An ike_sa_id that was not
    set is a null pointer. *)
Definition generate_with (wrapped : option (payload * aead)) (this : message)
    : result (status * generated) :=
  let this := match wrapped with None => set_is_encrypted false this | Some _ => this end in
  match sa_id this with
  | None => Outside
  | Some id =>
      let* '(this, g) := generate_parts id (next_type this wrapped) this in
      Ok (SUCCESS, (this, g, wrapped))
  end.

(** Without a status SUCCESS there is nothing generated. *)
Definition generate_message (k : option keymat) (this : message)
    : result (status * generated) :=
  let failed s this := Ok (s, (this, generator_create heap, None)) in
  if exchange_type this =? EXCHANGE_TYPE_UNDEFINED then failed INVALID_STATE this
  else if match source (message_packet this), destination (message_packet this) with
          | Some _, Some _ => false | _, _ => true end
  then failed INVALID_STATE this
  else
    let this := set_rule (get_message_rule this) this in
    match rule this with
    | None => failed NOT_SUPPORTED this
    | Some r =>
        let this := if sort_disabled this then this else order_payloads r this in
        let '(this, hash_encrypts) := insert_hash k this in
        let '(this, enc) := encrypting r hash_encrypts this in
        let transform := match k with Some k => get_aead k false | None => None end in
        if enc then
          match transform with
          | Some a =>
              let '(e, this) := wrap_payloads r this in generate_with (Some (e, a)) this
          | None =>
              if (exchange_type this =? INFORMATIONAL) || (exchange_type this =? INFORMATIONAL_V1)
              then generate_with None this
              else failed FAILED this
          end
        else generate_with None this
    end.

(** [htoun32] at the place of the length in the header. *)
Definition fill_length (v : Z) (g : generator) : result generator :=
  let o := header_length_offset g in
  if (o <? 0) || (len (buffer g) <? o + 4) then Outside
  else Ok (set_buffer (take (Z.to_nat o) (buffer g) ++ be_bytes 4 v
                       ++ drop (Z.to_nat (o + 4)) (buffer g)) g).

(** The IV for the next message is the end of this one. *)
Definition last_block (a : aead) (data : chunk) : result chunk :=
  let bs := get_block_size a in
  if (bs <? 0) || (len data <? bs) then Outside else Ok (drop (Z.to_nat (len data - bs)) data).

Definition finish (k : option keymat) (g : generator) (this : message)
    : result (status * message) :=
  let data := fst (get_chunk g) in
  let* g := fill_length (len data) g in
  let data := fst (get_chunk g) in
  let this := set_packet_data data this in
  if is_encrypted this && negb (exchange_type this =? INFORMATIONAL_V1) then
    match k with
    | Some k' =>
        match get_aead k' false with
        | Some a =>
            if negb (is_keymat_v1 k) then Outside
            else
              let* block := last_block a data in
              Ok (if update_iv k' (message_id this) block && confirm_iv k' (message_id this)
                  then SUCCESS else FAILED, this)
        | None => Outside
        end
    | None => Outside
    end
  else Ok (SUCCESS, this).

Definition finalize_message (k : option keymat) (x : generated) : result (status * message) :=
  let '(this, g, wrapped) := x in
  match wrapped with
  | None => finish k g this
  | Some (e, a) =>
      let encrypt_with c e g this :=
        let* '(s, e) := encrypted_method_encrypt heap (Some a) (message_id this) c e in
        let this := set_payloads (payloads this ++ [e]) this in
        if decide (s = SUCCESS) then
          let* g := Generator.generate heap e g in finish k g this
        else Ok (INVALID_STATE, this) in
      if is_encrypted this then
        match k with
        | Some k' =>
            if negb (is_keymat_v1 k) then Outside
            else match keymat_get_iv k' (message_id this) with
                 | None => Ok (FAILED, this)
                 | Some iv => encrypt_with iv e g this
                 end
        | None => Outside
        end
      else
        let n := len (fst (get_chunk g)) in
        let '(l, e) := encrypted_method_get_length (Some a) e in
        let* g := fill_length (n + l) g in
        encrypt_with (fst (get_chunk g)) e g this
  end.

Definition generate (k : option keymat) (this : message) : result (status * message) :=
  let* '(s, x) := generate_message k this in
  if decide (s = SUCCESS) then finalize_message k x else let '(this, _, _) := x in Ok (s, this).

(** * Parsing *)

Definition set_from_header (h : payload) (this : message) : message :=
  let this :=
    set_ike_sa_id (IkeSaId (num "maj_version" h) (bytes "initiator_spi" h)
                     (bytes "responder_spi" h) (negb (num "flags.initiator" h =? 0))) this in
  let this := set_exchange_type (num "exchange_type" h) this in
  let this := set_message_id (num "message_id" h) this in
  let this := set_versions (num "maj_version" h) (num "min_version" h) this in
  let this :=
    if major_version this =? IKEV2_MAJOR_VERSION
    then set_request (num "flags.response" h =? 0) this
    else set_is_encrypted (negb (num "flags.encryption" h =? 0)) this in
  let this := set_first_payload (get_next_type h) this in
  let this :=
    if (first_payload this =? PLV1_FRAGMENT) && is_encrypted this
    then set_is_encrypted false this else this in
  set_reserved (negb (num "reserved[0]" h =? 0), negb (num "reserved[1]" h =? 0)) this.

(** A reassembled message has no parser. *)
Definition parse_header (this : message) : result (status * message) :=
  match message_parser this with
  | None => Ok (SUCCESS, this)
  | Some p =>
      match Parser.parse PL_HEADER (reset_context p) with
      | Parse_error => Ok (PARSE_ERROR, this)
      | Outside => Outside
      | Exhausted => Exhausted
      | Ok (h, p) =>
          match verify h with
          | None => Ok (FAILED, set_parser (Some p) this)
          | Some h =>
              let this := set_from_header h this in
              Ok (SUCCESS, set_parser (Some (set_major_version (major_version this) p)) this)
          end
      end
  end.

Fixpoint parse_loop (fuel : nat) (t : Z) (p : parser) (this : message) : result (status * message) :=
  if t =? PL_NONE then Ok (SUCCESS, set_parser (Some p) this)
  else
    match fuel with
    | O => Exhausted
    | S fuel =>
        match Parser.parse t p with
        | Parse_error => Ok (PARSE_ERROR, this)
        | Outside => Outside
        | Exhausted => Exhausted
        | Ok (payload, p) =>
            match verify payload with
            | None => Ok (VERIFY_ERROR, this)
            | Some payload =>
                let this := set_payloads (payloads this ++ [payload]) this in
                if (t =? PLV2_ENCRYPTED) || (t =? PLV2_FRAGMENT)
                then Ok (SUCCESS, set_parser (Some p) this)
                else parse_loop fuel (get_next_type payload) p this
            end
        end
    end.

(** An encrypted message of IKEv1 is one payload. *)
Definition parse_payloads (p : parser) (this : message) : result (status * message) :=
  if is_encrypted this then
    match Parser.parse PLV1_ENCRYPTED p with
    | Parse_error => Ok (PARSE_ERROR, this)
    | Outside => Outside
    | Exhausted => Exhausted
    | Ok (encryption, p) =>
        let encryption := set_next_type (first_payload this) encryption in
        Ok (SUCCESS, set_parser (Some p) (set_payloads (payloads this ++ [encryption]) this))
    end
  else parse_loop (S (length (input p))) (first_payload this) p this.

(** The payloads in an encrypted payload are appended; [previous] is the last payload. *)
Fixpoint extract (es : list payload) (this : message) : message :=
  match es with
  | [] => this
  | e :: es =>
      let t := get_type e in
      let this := match payloads this with
                  | [] => set_first_payload t this
                  | ps => set_payloads (map_last (set_next_type t) ps) this
                  end in
      extract es (set_payloads (payloads this ++ [e]) this)
  end.

(** [chunk.len -= length]; the message is what is before the encrypted payload. *)
Definition associated (data : chunk) (n : Z) : chunk := take (Z.to_nat (len data - n)) data.

Definition decrypt_and_extract (k : option keymat) (encryption : payload) (this : message)
    : result (status * message) :=
  match k with
  | None => Ok (INVALID_ARG, this)
  | Some k' =>
      match get_aead k' true with
      | None => Ok (INVALID_ARG, this)
      | Some a =>
          let done (x : result (status * payload)) (ok : bool) :=
            let* '(s, e) := x in
            if decide (s = SUCCESS) then
              if ok then Ok (SUCCESS, extract (elements e) this) else Ok (FAILED, this)
            else Ok (s, this) in
          match message_parser this with
          | None => done (encrypted_method_decrypt None [] encryption) true
          | Some _ =>
              let data := packet_data (message_packet this) in
              let bs := get_block_size a in
              let '(n, encryption) := encrypted_method_get_length (Some a) encryption in
              if (len data <? n) || (len data <? bs) then Ok (VERIFY_ERROR, this)
              else if is_keymat_v1 k then
                match keymat_get_iv k' (message_id this) with
                | None => Ok (FAILED, this)
                | Some iv =>
                    let* block := last_block a data in
                    done (encrypted_method_decrypt (Some a) iv encryption)
                      (update_iv k' (message_id this) block)
                end
              else done (encrypted_method_decrypt (Some a) (associated data n) encryption) true
          end
      end
  end.

Definition decrypt_fragment (k : option keymat) (fragment : payload) (this : message)
    : result (status * payload) :=
  match k with
  | None => Ok (INVALID_ARG, fragment)
  | Some k' =>
      match get_aead k' true with
      | None => Ok (INVALID_ARG, fragment)
      | Some a =>
          let data := packet_data (message_packet this) in
          let '(n, fragment) := encrypted_method_get_length (Some a) fragment in
          if (len data <? n) || (len data <? get_block_size a) then Ok (VERIFY_ERROR, fragment)
          else encrypted_method_decrypt (Some a) (associated data n) fragment
      end
  end.

Definition accept_unencrypted_mm (t : Z) (this : message) : bool :=
  (exchange_type this =? ID_PROT) && ((t =? PLV1_ID) || (t =? PLV1_HASH))
  && accept_unencrypted_mainmode_messages.

(** What may not come unencrypted. *)
Definition not_encrypted (r : message_rule) (t : Z) (this : message) : bool :=
  negb (t =? PL_UNKNOWN) && negb (exchange_type this =? AGGRESSIVE)
  && match get_payload_rule r t with Some rule => rule_encrypted rule | None => true end
  && negb (accept_unencrypted_mm t this).

(** The loop over the list: [before] was dealt with. After the last payload the enumerator
    is done, also when payloads are appended: [was_encrypted] is never seen set. *)
Fixpoint decrypt_loop (k : option keymat) (r : message_rule) (before rest : list payload)
    (this : message) : result (status * message) :=
  match rest with
  | [] => Ok (SUCCESS, this)
  | payload :: rest =>
      let t := get_type payload in
      if (t =? PLV2_ENCRYPTED) || (t =? PLV1_ENCRYPTED) then
        let this := set_payloads (before ++ rest) this in
        match rest with
        | _ :: _ => Ok (VERIFY_ERROR, this)
        | [] => decrypt_and_extract k payload this
        end
      else if t =? PLV2_FRAGMENT then
        match rest with
        | _ :: _ => Ok (VERIFY_ERROR, this)
        | [] =>
            let* '(s, payload) := decrypt_fragment k payload this in
            Ok (s, set_payloads (before ++ [payload]) this)
        end
      else if not_encrypted r t this then Ok (FAILED, this)
      else decrypt_loop k r (before ++ [payload]) rest this
  end.

Definition decrypt_payloads (k : option keymat) (r : message_rule) (this : message)
    : result (status * message) :=
  decrypt_loop k r [] (payloads this) this.

(** The payloads of a type are counted. *)
Definition count_type (t : Z) (ps : list payload) : Z :=
  Z.of_nat (length (List.filter (fun p => get_type p =? t) ps)).

Fixpoint verify_loop (rules : list payload_rule) (complete : bool) (ps : list payload) : bool :=
  match rules with
  | [] => true
  | rule :: rules =>
      let found := count_type (rule_payload rule) ps in
      if found >? max_occurrence rule then false
      else if negb complete && (found <? min_occurrence rule) then false
      else verify_loop rules (complete || (negb (found =? 0) && sufficient rule)) ps
  end.

Definition verify_message (r : message_rule) (this : message) : bool :=
  verify_loop (rule_list r) false (payloads this).

(** The hash of an IKEv1 message, and the confirmation of its IV. *)
Definition check_hash (k : option keymat) (this : message) : result status :=
  match k with
  | Some k' =>
      if negb (get_version k' =? IKEV1) then Ok SUCCESS
      else
        let confirmed :=
          if is_encrypted this && negb (exchange_type this =? INFORMATIONAL_V1)
          then if confirm_iv k' (message_id this) then SUCCESS else FAILED
          else SUCCESS in
        match get_hash_phase2 k' this with
        | None => Ok confirmed
        | Some hash =>
            if negb (first_payload this =? PLV1_HASH) then Ok VERIFY_ERROR
            else
              match get_payload PLV1_HASH this with
              | None => Outside
              | Some p =>
                  Ok (if bool_decide (hash = bytes "hash" p) then confirmed else FAILED)
              end
        end
  | None => Ok SUCCESS
  end.

Definition parse_body (k : option keymat) (this : message) : result (status * message) :=
  let this := set_rule (get_message_rule this) this in
  match rule this with
  | None => Ok (NOT_SUPPORTED, this)
  | Some r =>
      let* '(s, this) := match message_parser this with
                         | Some p => parse_payloads p this
                         | None => Ok (SUCCESS, this)
                         end in
      if negb (bool_decide (s = SUCCESS)) then Ok (s, this)
      else
        let* '(s, this) := decrypt_payloads k r this in
        if negb (bool_decide (s = SUCCESS)) then Ok (s, this)
        else if negb (verify_message r this) then Ok (VERIFY_ERROR, this)
        else let* s := check_hash k this in Ok (s, this)
  end.

End Message.
