(* ===== verification/MessageSafe.v ===== *)
(** Any datagram may arrive: parsing an IKE message of it ends, without an access outside
    of the datagram, of the decrypted text or of a payload; and what is accepted was
    encrypted where the rules of the exchange ask for it. *)

From Stdlib Require Import Strings.String.
From stdpp Require Import gmap strings.
From S2P Require Import Prelude Bits Payloads Parser Encoding ParserSpec.
From S2P Require Import Verify EncryptedPayload MessageRules Message.
#[local] Open Scope Z_scope.

(** * One payload *)

Lemma get_next_type_enc p : class p = C_ENCRYPTED -> get_next_type p = num "next_payload" p.
Proof. unfold get_next_type. by intros ->. Qed.

Lemma parse_ends t p : valid p -> bit_pos p = 0 ->
  match Parser.parse t p with
  | Ok (x, p') =>
      valid p' /\ bit_pos p' = 0 /\ input p' = input p /\ byte_pos p <= byte_pos p' /\
      (t <> PLV1_ENCRYPTED -> byte_pos p < byte_pos p') /\
      let base := create_instance t (Parser.major_version p) in
      kept (get_encoding_rules base) base x /\
      (existsb is_list_rule (get_encoding_rules base) = false -> elements x = elements base)
  | Parse_error => True
  | Outside | Exhausted => False
  end.
Proof.
  intros Hv Hb. pose proof (parse_payload_ends 4 t p (proj2 (rank_le _)) Hv Hb) as H.
  unfold Parser.parse. destruct (parse_payload 4 t p) as [[x p']| | |]; try done.
  destruct H as ([V I M B] & Hb' & H1 & K & Ke). unfold at_bit in B.
  split_and!; auto; [lia|]. intros Ht. specialize (H1 Ht). destruct H1 as [_ _ _ B1].
  unfold at_bit in B1. lia.
Qed.

(** The whole of an IKEv1 message has nothing behind it. *)
Lemma parse_v1_encrypted p x p' : valid p -> bit_pos p = 0 ->
  Parser.parse PLV1_ENCRYPTED p = Ok (x, p') -> class x = C_ENCRYPTED /\ get_next_type x = PL_NONE.
Proof.
  intros Hv Hb E. pose proof (parse_ends PLV1_ENCRYPTED p Hv Hb) as H. rewrite E in H.
  destruct H as (_ & _ & _ & _ & _ & [[K1 K2] N B _] & Ke).
  assert (create_instance PLV1_ENCRYPTED (Parser.major_version p) = encrypted_payload_create PLV1_ENCRYPTED)
    as Hc by (vm_compute; done).
  rewrite Hc in *. split; [by rewrite K1|]. rewrite get_next_type_enc by (by rewrite K1).
  rewrite N; [done|]. cbn. rewrite list_elem_of_singleton. done.
Qed.

(** A payload that was just parsed has no plaintext and the methods of its type. *)
Record fresh (p : payload) : Prop := {
  fresh_plain : class p = C_ENCRYPTED_FRAGMENT -> bytes "plain" p = [];
  fresh_methods : num "from_plain" p = 0;
  fresh_encrypted : get_type p = PLV2_ENCRYPTED \/ get_type p = PLV1_ENCRYPTED ->
    class p = C_ENCRYPTED /\ elements p = [];
  fresh_fragment : get_type p = PLV2_FRAGMENT -> class p = C_ENCRYPTED_FRAGMENT;
}.

Lemma create_fragment t v : class (create_instance t v) = C_ENCRYPTED_FRAGMENT ->
  create_instance t v = encrypted_fragment_payload_create.
Proof.
  unfold create_instance, payload_create. destruct (payload_is_known t v); [|done].
  repeat match goal with |- context [if ?b then _ else _] => destruct b end; done.
Qed.

Lemma create_methods t v : num "from_plain" (create_instance t v) = 0.
Proof.
  unfold create_instance, payload_create, delete_payload_create. destruct (payload_is_known t v);
    repeat match goal with |- context [if ?b then _ else _] => destruct b end; try done;
    unfold sa_payload_create, ke_payload_create, notify_payload_create, encrypted_payload_create,
      with_length; rewrite !num_set_num; done.
Qed.

Definition not_field (m : string) (rs : list encoding_rule) : bool :=
  forallb (fun r => negb (String.eqb (offset r) m)) rs.

Lemma methods_no_field c t : not_field "from_plain" (rules_of c t) = true.
Proof. each_table c; reflexivity. Qed.

Lemma not_field_elem m rs : not_field m rs = true -> m ∉ offset <$> rs.
Proof.
  unfold not_field. rewrite forallb_forall. intros H (r & -> & Hr)%list_elem_of_fmap.
  specialize (H r (proj1 (list_elem_of_In _ _) Hr)). by rewrite String.eqb_refl in H.
Qed.

Lemma create_types t v : t <> PL_UNKNOWN -> get_type (create_instance t v) = t ->
  create_instance t v = payload_create t.
Proof.
  intros Ht. unfold create_instance. destruct (payload_is_known t v); [done|].
  intros H. by rewrite <- H in Ht.
Qed.

Lemma get_type_known t v T : T <> PL_UNKNOWN -> get_type (create_instance t v) = T -> t = T.
Proof.
  intros HT. pose proof (create_instance_kind t v) as [Kt _]. unfold get_type.
  destruct (class _); rewrite ?Kt; congruence.
Qed.

Lemma parse_fresh t p x p' : valid p -> bit_pos p = 0 -> Parser.parse t p = Ok (x, p') -> fresh x.
Proof.
  intros Hv Hb E. pose proof (parse_ends t p Hv Hb) as H. rewrite E in H.
  destruct H as (_ & _ & _ & _ & _ & [[K1 K2] N B _] & Ke).
  assert (get_type x = get_type (create_instance t (Parser.major_version p))) as Hg.
  { unfold get_type. by rewrite K1, K2. }
  assert (forall T, T <> PL_UNKNOWN -> get_type x = T ->
            create_instance t (Parser.major_version p) = payload_create T) as Hcr.
  { intros T HT HG. rewrite Hg in HG. pose proof (get_type_known _ _ _ HT HG) as ->.
    by apply create_types. }
  split.
  - intros Hc. rewrite K1 in Hc. apply create_fragment in Hc. rewrite Hc in *.
    rewrite B; [done|]. by apply not_field_elem.
  - rewrite N; [apply create_methods|]. apply not_field_elem, methods_no_field.
  - intros [HG|HG]; apply Hcr in HG; try done; rewrite HG in *; (split; [by rewrite K1|by rewrite Ke]).
  - intros HG. apply Hcr in HG; [|done]. rewrite HG in *. by rewrite K1.
Qed.

Lemma verify_keeps p q : verify p = Some q ->
  class q = class p /\ type_ q = type_ p /\ (class p = C_ENCRYPTED -> q = p) /\
  (fresh p -> fresh q).
Proof.
  intros Hv. assert (class q = class p /\ type_ q = type_ p /\ elements q = elements p /\
    bytes "plain" q = bytes "plain" p /\ num "from_plain" q = num "from_plain" p /\
    (class p = C_ENCRYPTED -> q = p)) as (H1 & H2 & H3 & H4 & H5 & H6).
  { revert Hv. unfold verify.
    destruct (class p) eqn:Hc; try (destruct (verified p); [|done]; intros [= <-]; rewrite ?Hc; done).
    - intros [= <-]. unfold cert_verify.
      repeat case_match; rewrite ?bytes_set_bytes, ?bytes_set_num, ?num_set_num; cbn; rewrite ?Hc; done.
    - unfold frag_verify.
      repeat case_match; intros [= <-]; rewrite ?bytes_set_num, ?num_set_num; cbn; rewrite ?Hc; done. }
  split_and!; try done. unfold get_type in *.
  intros []; split; unfold get_type in *; rewrite ?H1, ?H2, ?H3, ?H4, ?H5 in *; done.
Qed.

(** * The payloads of an encrypted payload *)

Lemma enc_parse_loop_ends plain : forall fuel t this p,
  valid p -> bit_pos p = 0 -> input p = plain ->
  len plain - byte_pos p < Z.of_nat fuel \/ t = PL_NONE ->
  exists s this', EncryptedPayload.parse_loop fuel plain t this p = Ok (s, this').
Proof.
  induction fuel as [|fuel IH]; intros t this p Hv Hb Hi Hf; cbn [EncryptedPayload.parse_loop];
    destruct (Z.eqb_spec t PL_NONE); eauto.
  { destruct Hf; [|done]. destruct Hv as [Vb V0 Ve Vi]. unfold at_bit in Ve. rewrite Hi in Ve. lia. }
  destruct Hf as [Hf|]; [|done]. case_match; [eauto|].
  pose proof (parse_ends t p Hv Hb) as H1. pose proof (parse_v1_encrypted p) as H2.
  destruct (Parser.parse t p) as [[x p']| | |] eqn:E; eauto; try done.
  destruct H1 as (V & B & I & _ & M & _).
  destruct (verify x) as [y|] eqn:Ev; [|eauto]. apply IH; auto; [congruence|].
  destruct (decide (t = PLV1_ENCRYPTED)) as [->|Hne]; [right|left; specialize (M Hne); lia].
  destruct (H2 x p' Hv Hb E) as [Hc Hn]. apply verify_keeps in Ev as (_ & _ & Ev & _).
  by rewrite Ev.
Qed.

Lemma enc_parse_ends this plain : bytes_ok plain ->
  exists s this', EncryptedPayload.parse this plain = Ok (s, this').
Proof.
  intros Hp. apply enc_parse_loop_ends; try done; [|left; cbn; unfold len; lia].
  split; cbn; try done; unfold at_bit; cbn; pose proof (len_nonneg plain); lia.
Qed.

(** What is asked of a transform: an IV, and octets as plaintext. *)
Record aead_safe (a : aead) : Prop := {
  safe_iv : 0 < get_iv_size a;
  safe_icv : 0 <= get_icv_size a;
  safe_decrypt : forall crypt assoc iv plain,
    aead_decrypt a crypt assoc iv = Some plain -> bytes_ok plain;
}.

Lemma decrypt_content_ends a encrypted assoc : aead_safe a ->
  exists s plain encrypted', decrypt_content a encrypted assoc = Ok (s, plain, encrypted') /\
  match plain with Some plain => bytes_ok plain | None => True end.
Proof.
  intros [Hiv Hicv Hd]. unfold decrypt_content.
  destruct (Z.ltb_spec (len encrypted) (get_iv_size a + get_icv_size a)); cbn [orb];
    [do 3 eexists; by split|].
  case_match; [do 3 eexists; by split|].
  destruct (aead_decrypt a _ assoc _) as [plain|] eqn:E; [|do 3 eexists; by split]. apply Hd in E.
  destruct (last _) as [n|] eqn:El.
  - case_match; do 3 eexists; (split; [done|]); [done|by apply bytes_ok_take].
  - apply last_None in El. apply app_nil in El as [El _]. apply (f_equal len) in El.
    rewrite len_take, len_nil in El. lia.
Qed.

Lemma method_decrypt_ends transform c this :
  match transform with Some a => aead_safe a | None => True end -> fresh this ->
  exists s this', encrypted_method_decrypt transform c this = Ok (s, this').
Proof.
  intros Ht [Hf Hm _ _]. unfold encrypted_method_decrypt. rewrite Hm.
  assert (exists s p', decrypt transform c this = Ok (s, p')) as Hdec.
  { unfold decrypt. destruct transform as [a|]; [|by eauto].
    destruct (append_header _ this c) as [assoc p'].
    destruct (decrypt_content_ends a (bytes "encrypted" p') assoc Ht) as (s & plain & e & -> & Hp).
    cbn [bind]. destruct s, plain; eauto. by apply enc_parse_ends. }
  assert (exists s p', decrypt_v1 transform c this = Ok (s, p')) as Hv1.
  { unfold decrypt_v1. destruct transform as [a|]; [|by eauto]. case_match; [by eauto|].
    destruct (aead_decrypt a _ _ _) eqn:E; [|by eauto]. apply enc_parse_ends.
    by eapply safe_decrypt. }
  destruct (decide (class this = C_ENCRYPTED_FRAGMENT)) as [Hc|Hc].
  - rewrite Hc. unfold frag_decrypt. destruct transform as [a|]; [|by eauto].
    unfold append_header_frag, frag_get_length.
    match goal with |- context [decrypt_content a ?e ?as_] =>
      destruct (decrypt_content_ends a e as_ Ht) as (s & plain & e' & -> & _) end.
    cbn [bind]. destruct plain; [by eauto|].
    rewrite bytes_set_bytes, decide_False, bytes_set_num, Hf by done. by eauto.
  - destruct (class this); try done; repeat case_match; done.
Qed.

(** * The message *)

Lemma parse_loop_ends : forall fuel t p this,
  valid p -> bit_pos p = 0 -> len (input p) - byte_pos p < Z.of_nat fuel \/ t = PL_NONE ->
  Forall fresh (payloads this) ->
  exists s this', Message.parse_loop fuel t p this = Ok (s, this') /\ Forall fresh (payloads this') /\
  (s = SUCCESS -> message_parser this' <> None).
Proof.
  induction fuel as [|fuel IH]; intros t p this Hv Hb Hf Hfr; cbn [Message.parse_loop];
    destruct (Z.eqb_spec t PL_NONE); eauto 6.
  { destruct Hf; [|done]. destruct Hv as [Vb V0 Ve Vi]. unfold at_bit in Ve. lia. }
  destruct Hf as [Hf|]; [|done].
  pose proof (parse_ends t p Hv Hb) as H1. pose proof (parse_v1_encrypted p) as H2.
  pose proof (parse_fresh t p) as H3.
  destruct (Parser.parse t p) as [[x p']| | |] eqn:E; try done; [|do 2 eexists; by split_and!].
  destruct H1 as (V & B & I & _ & M & _).
  destruct (verify x) as [y|] eqn:Ev; [|do 2 eexists; by split_and!].
  pose proof (verify_keeps _ _ Ev) as (_ & _ & Ev1 & Ev2).
  assert (Forall fresh (payloads this ++ [y])) as Hy.
  { apply Forall_app. split; [done|]. constructor; [|done]. by eapply Ev2, H3. }
  case_match; [do 2 eexists; by split_and!|]. apply IH; auto. rewrite I.
  destruct (decide (t = PLV1_ENCRYPTED)) as [->|Hne]; [right|left; specialize (M Hne); lia].
  destruct (H2 x p' Hv Hb E) as [Hc Hn]. by rewrite Ev1.
Qed.

Lemma fresh_next t p : fresh p -> fresh (set_next_type t p).
Proof.
  intros []. unfold set_next_type.
  repeat case_match; split; unfold get_type in *; cbn [class set_num type_ elements] in *;
    rewrite ?num_set_num, ?bytes_set_num; try done; by repeat case_match.
Qed.

Lemma parse_payloads_ends p this : valid p -> bit_pos p = 0 -> Forall fresh (payloads this) ->
  exists s this', parse_payloads p this = Ok (s, this') /\ Forall fresh (payloads this') /\
  (s = SUCCESS -> message_parser this' <> None).
Proof.
  intros Hv Hb Hf. unfold parse_payloads. case_match.
  - pose proof (parse_ends PLV1_ENCRYPTED p Hv Hb) as H1.
    pose proof (parse_v1_encrypted p) as H2. pose proof (parse_fresh PLV1_ENCRYPTED p) as H3.
    destruct (Parser.parse PLV1_ENCRYPTED p) as [[x p']| | |] eqn:E; try done;
      [|do 2 eexists; by split_and!].
    do 2 eexists. split_and!; [done| |done]. apply Forall_app. split; [done|].
    constructor; [|done]. apply fresh_next. by eapply H3.
  - apply parse_loop_ends; auto. left. destruct Hv. unfold len. lia.
Qed.

Lemma parse_header_ends this p : message_parser this = Some p -> bytes_ok (input p) ->
  exists s this', parse_header this = Ok (s, this') /\ payloads this' = payloads this /\
  match message_parser this' with
  | Some p => s = SUCCESS -> valid p /\ bit_pos p = 0
  | None => False
  end.
Proof.
  intros Hp Hi. unfold parse_header. rewrite Hp.
  assert (valid (reset_context p)) as Hv.
  { split; cbn; try done; unfold at_bit; cbn; pose proof (len_nonneg (input p)); lia. }
  pose proof (parse_ends PL_HEADER _ Hv eq_refl) as H1.
  destruct (Parser.parse PL_HEADER _) as [[h p']| | |]; try done.
  - destruct H1 as (V & B & _). destruct (verify h) as [h'|].
    + do 2 eexists. split; [done|]. unfold set_from_header.
      split; [repeat case_match; done|]. cbn [set_parser message_parser]. intros _.
      split; [|done]. destruct V. by split.
    + do 2 eexists. by split_and!.
  - do 2 eexists. split_and!; [done|done|by rewrite Hp].
Qed.

Section Ends.

Variable accept : bool.
Variable k : option keymat.

Hypothesis keymat_ok : forall k', k = Some k' ->
  is_keymat_v1 k = false /\ forall inbound a, get_aead k' inbound = Some a -> aead_safe a.

Lemma fresh_set_length v p : fresh p -> fresh (set_num "payload_length" v p).
Proof. by intros []; split; rewrite ?num_set_num. Qed.

Lemma get_length_fresh t e : fresh e -> fresh (snd (encrypted_method_get_length t e)).
Proof.
  intros Hf. unfold encrypted_method_get_length. repeat case_match; try done; by apply fresh_set_length.
Qed.

Lemma decrypt_and_extract_ends e this : message_parser this <> None -> fresh e ->
  exists s this', decrypt_and_extract k e this = Ok (s, this').
Proof.
  intros Hp Hf. unfold decrypt_and_extract. destruct k as [k'|]; [|by eauto].
  destruct (keymat_ok k' eq_refl) as [Hv Ha]. destruct (get_aead k' true) as [a|] eqn:E; [|by eauto].
  destruct (message_parser this); [|done].
  pose proof (get_length_fresh (Some a) e Hf) as Hf'.
  destruct (encrypted_method_get_length (Some a) e) as [n e']. cbn [snd] in Hf'.
  case_match; [by eauto|]. rewrite Hv.
  destruct (method_decrypt_ends (Some a) (associated (packet_data (message_packet this)) n) e'
              (Ha true a E) Hf') as (s & x & ->). cbn [bind].
  destruct (decide (s = SUCCESS)); eauto.
Qed.

Lemma decrypt_loop_ends r : forall rest before this,
  message_parser this <> None -> Forall fresh rest ->
  exists s this', decrypt_loop accept k r before rest this = Ok (s, this').
Proof.
  induction rest as [|p rest IH]; intros before this Hp Hf; cbn [decrypt_loop]; [by eauto|].
  inversion_clear Hf as [|? ? Hf1 Hf2].
  case_match; [case_match; [by apply decrypt_and_extract_ends|by eauto]|].
  case_match; [|case_match; [by eauto|by apply IH]].
  case_match; [|by eauto]. unfold decrypt_fragment.
  destruct k as [k'|]; [|by eauto].
  destruct (keymat_ok k' eq_refl) as [Hv Ha]. destruct (get_aead k' true) as [a|] eqn:E; [|by eauto].
  pose proof (get_length_fresh (Some a) p Hf1) as Hf'.
  destruct (encrypted_method_get_length (Some a) p) as [n e']. cbn [snd] in Hf'.
  case_match; [by eauto|].
  destruct (method_decrypt_ends (Some a) (associated (packet_data (message_packet this)) n) e'
              (Ha true a E) Hf') as (s & x & ->). by eauto.
Qed.

Lemma check_hash_ends this : exists s, check_hash k this = Ok s.
Proof.
  unfold check_hash. destruct k as [k'|]; [|by eauto]. destruct (keymat_ok k' eq_refl) as [Hv _].
  cbn in Hv. rewrite Hv. by eauto.
Qed.

Lemma parse_body_ends this p : message_parser this = Some p -> valid p -> bit_pos p = 0 ->
  Forall fresh (payloads this) -> exists s this', parse_body accept k this = Ok (s, this').
Proof.
  intros Hp Hv Hb Hf. unfold parse_body. cbn [set_rule rule message_parser]. rewrite Hp.
  destruct (get_message_rule this) as [r|]; [|by eauto].
  destruct (parse_payloads_ends p (set_rule (Some r) this) Hv Hb Hf) as (s & m & -> & Fm & Pm).
  cbn [bind]. case_bool_decide; cbn [negb]; [|by eauto].
  destruct (decrypt_loop_ends r (payloads m) [] m (Pm H) Fm) as (s1 & m1 & E).
  unfold decrypt_payloads. rewrite E. cbn [bind]. case_bool_decide; cbn [negb]; [|by eauto].
  case_match; [by eauto|]. destruct (check_hash_ends m1) as [s2 ->]. by eauto.
Qed.

End Ends.

(** C22: Whatever octets a datagram holds, its header is parsed or refused, and then its body
    is parsed, decrypted and checked, or refused, with any key material of IKEv2 whose
    transforms decrypt to octets: neither reads outside of the datagram, of the plaintext
    or of the tables, and both end. *)
Theorem message_parsing_ends (accept : bool) (k : option keymat) (p : packet)
  (Hd : bytes_ok (packet_data p))
  (Hk : forall k', k = Some k' ->
        is_keymat_v1 k = false /\ forall inbound a, get_aead k' inbound = Some a -> aead_safe a) :
  exists s this, parse_header (message_create_from_packet p) = Ok (s, this) /\
  (s = SUCCESS -> exists s' this', parse_body accept k this = Ok (s', this')).
Proof.
  destruct (parse_header_ends (message_create_from_packet p) _ eq_refl Hd)
    as (s & this & E & Hp & Hm).
  exists s, this. split; [done|]. intros Hs.
  destruct (message_parser this) as [q|] eqn:Eq; [|done]. destruct (Hm Hs) as [Hv Hb].
  eapply parse_body_ends; try done. by rewrite Hp.
Qed.

(** * What is accepted *)

(** [q] is [p] with other types of the payload behind it. *)
Definition retyped (p q : payload) : Prop := exists ts, q = foldr set_next_type p ts.

Lemma retyped_refl p : retyped p p.
Proof. by exists []. Qed.
Lemma retyped_next t p q : retyped p q -> retyped p (set_next_type t q).
Proof. intros [ts ->]. by exists (t :: ts). Qed.
Lemma get_type_next t p : get_type (set_next_type t p) = get_type p.
Proof. unfold set_next_type. by repeat case_match. Qed.

Lemma forall_map_last {A} (P : A -> Prop) f l :
  Forall P l -> (forall x, P x -> P (f x)) -> Forall P (map_last f l).
Proof.
  intros Hl Hf. unfold map_last. apply Forall_reverse in Hl.
  destruct (reverse l); [done|]. inversion_clear Hl. apply Forall_reverse. constructor; auto.
Qed.

Lemma forall_extract (P : payload -> Prop) es : (forall t p, P p -> P (set_next_type t p)) ->
  forall this, Forall P (payloads this) -> Forall P es -> Forall P (payloads (extract es this)).
Proof.
  intros Hn. induction es as [|e es IH]; intros this Hp He; cbn [extract]; [done|].
  inversion_clear He. apply IH; [|done]. apply Forall_app. split; [|by constructor].
  destruct (payloads this) eqn:E; cbn [set_first_payload set_payloads payloads];
    [by rewrite E|]. apply forall_map_last; [done|]. auto.
Qed.

(** The payload was in a text that the inbound transform authenticated, with the message up
    to the encrypted payload and the header of that as associated data. *)
Definition authenticated_text (k : option keymat) (data plain : chunk) : Prop :=
  exists k' a crypt n header iv, k = Some k' /\ get_aead k' true = Some a /\
  aead_decrypt a crypt (associated data n ++ header) iv = Some plain.

Definition authenticated (k : option keymat) (data : chunk) (p : payload) : Prop :=
  exists plain, authenticated_text k data plain /\
  ((exists n e e' q, EncryptedPayload.parse e (take n plain) = Ok (SUCCESS, e') /\ elements e = [] /\
    q ∈ elements e' /\ retyped q p) \/
   (get_type p = PLV2_FRAGMENT /\ exists n, bytes "plain" p = take n plain)).

Lemma authenticated_next k data t p : authenticated k data p -> authenticated k data (set_next_type t p).
Proof.
  intros (plain & Ht & [(n & e & e' & q & Hp & He & Hq & Hr)|[Hp Hn]]); exists plain; (split; [done|]).
  - left. exists n, e, e', q. split_and!; auto. by apply retyped_next.
  - right. rewrite get_type_next. split; [done|]. destruct Hn as [n Hn]. exists n.
    rewrite <- Hn. unfold set_next_type. by repeat case_match.
Qed.

Section Accepted.

Variable accept : bool.
Variable k : option keymat.
Hypothesis keymat_v2 : is_keymat_v1 k = false.

Definition refused (r : message_rule) (this : message) (p : payload) : bool :=
  not_encrypted accept r (get_type p) this.

Lemma decrypt_content_text a encrypted assoc s plain encrypted' :
  decrypt_content a encrypted assoc = Ok (s, Some plain, encrypted') ->
  exists crypt iv text n, aead_decrypt a crypt assoc iv = Some text /\ plain = take n text.
Proof.
  unfold decrypt_content. case_match; [done|]. destruct (aead_decrypt a _ assoc _) as [c|] eqn:E; [|done].
  destruct (last _); [|done]. case_match; intros [= <- <- <-]; do 2 eexists.
  - exists c, (length c). by rewrite firstn_all.
  - by eexists _, _.
Qed.

Lemma append_header_assoc transform this c :
  exists h, fst (append_header transform this c) = c ++ h.
Proof. unfold append_header. by eexists. Qed.
Lemma append_header_frag_assoc transform this c :
  exists h, fst (append_header_frag transform this c) = c ++ h.
Proof. unfold append_header_frag. destruct (frag_get_length _ _). by eexists. Qed.

(** Decrypting what came in a message gives only what was authenticated. *)
Lemma method_decrypt_text a k' data n e e' : k = Some k' -> get_aead k' true = Some a ->
  num "from_plain" e = 0 -> class e <> C_ENCRYPTED_FRAGMENT -> type_ e <> PLV1_ENCRYPTED ->
  elements e = [] ->
  encrypted_method_decrypt (Some a) (associated data n) e = Ok (SUCCESS, e') ->
  Forall (authenticated k data) (elements e').
Proof.
  intros Hk Ha Hm Hc Ht Hes. unfold encrypted_method_decrypt. rewrite Hm.
  replace (match class e with C_ENCRYPTED_FRAGMENT => frag_decrypt (Some a) (associated data n) e
           | _ => if type_ e =? PLV1_ENCRYPTED then decrypt_v1 (Some a) (associated data n) e
                  else if 0 =? 0 then decrypt (Some a) (associated data n) e else decrypt_plain e end)
    with (decrypt (Some a) (associated data n) e)
    by (rewrite (proj2 (Z.eqb_neq _ _) Ht); by destruct (class e)).
  unfold decrypt. destruct (append_header (Some a) e (associated data n)) as [assoc x] eqn:Eh.
  pose proof (append_header_assoc (Some a) e (associated data n)) as [h Hh]. rewrite Eh in Hh.
  cbn [fst] in Hh. subst assoc.
  assert (elements x = []) as Hx.
  { unfold append_header, encrypted_get_length in Eh. by injection Eh as _ <-. }
  destruct (decrypt_content a _ _) as [[[s plain] enc]| | |] eqn:Ed; cbn [bind]; try done.
  destruct s; try (by intros [= E]; destruct plain); [|by destruct plain..].
  destruct plain as [plain|]; [|by intros [= <-]; cbn; rewrite Hx].
  apply decrypt_content_text in Ed as (crypt & iv & text & m & Ed & ->).
  intros Hp. apply Forall_forall. intros q Hq. exists text. split.
  - by exists k', a, crypt, n, h, iv.
  - left. eexists m, _, e', q. split_and!; [exact Hp|done|done|apply retyped_refl].
Qed.

Lemma decrypt_fragment_text data this p p' : packet_data (message_packet this) = data ->
  get_type p = PLV2_FRAGMENT -> class p = C_ENCRYPTED_FRAGMENT -> bytes "plain" p = [] ->
  decrypt_fragment k p this = Ok (SUCCESS, p') -> authenticated k data p'.
Proof.
  intros <- Ht Hc Hpl. unfold decrypt_fragment. destruct k as [k'|] eqn:Hk; [|done].
  destruct (get_aead k' true) as [a|] eqn:Ea; [|done].
  unfold encrypted_method_get_length. rewrite Hc.
  destruct (frag_get_length (Some a) p) as [n x] eqn:El.
  assert (class x = C_ENCRYPTED_FRAGMENT /\ bytes "plain" x = [] /\ type_ x = type_ p) as (Hcx & Hpx & Htx).
  { unfold frag_get_length in El. injection El as _ <-. done. }
  case_match; [done|]. unfold encrypted_method_decrypt. rewrite Hcx. unfold frag_decrypt.
  destruct (append_header_frag (Some a) x _) as [assoc y] eqn:Eh.
  pose proof (append_header_frag_assoc (Some a) x (associated (packet_data (message_packet this)) n))
    as [h Hh]. rewrite Eh in Hh. cbn [fst] in Hh. subst assoc.
  assert (class y = C_ENCRYPTED_FRAGMENT /\ bytes "plain" y = [] /\ type_ y = type_ p) as (Hcy & Hpy & Hty).
  { unfold append_header_frag, frag_get_length in Eh. injection Eh as _ <-. done. }
  destruct (decrypt_content a _ _) as [[[s plain] enc]| | |] eqn:Ed; cbn [bind]; try done.
  destruct plain as [plain|].
  - intros [= -> <-]. apply decrypt_content_text in Ed as (crypt & iv & text & m & Ed & ->).
    exists text. split; [by exists k', a, crypt, n, h, iv|]. right. split.
    + unfold get_type in *. cbn [class set_bytes type_]. rewrite Hcy, Hty. by rewrite Hc in Ht.
    + exists m. rewrite bytes_set_bytes. by case_decide.
  - unfold decrypt_content in Ed. repeat case_match; simplify_eq; done.
Qed.


(** What was parsed and is not an encrypted message of IKEv1. *)
Definition wire (p : payload) : Prop := fresh p /\ type_ p <> PLV1_ENCRYPTED.

Definition accepted (data : chunk) (p : payload) : Prop :=
  get_type p = PL_UNKNOWN \/ authenticated k data p.

Lemma accepted_next data t p : accepted data p -> accepted data (set_next_type t p).
Proof.
  intros [H|H]; [left; by rewrite get_type_next|right; by apply authenticated_next].
Qed.

Lemma decrypt_and_extract_accepted data e this this' :
  packet_data (message_packet this) = data -> message_parser this <> None -> wire e ->
  class e = C_ENCRYPTED -> elements e = [] -> Forall (accepted data) (payloads this) ->
  decrypt_and_extract k e this = Ok (SUCCESS, this') -> Forall (accepted data) (payloads this').
Proof.
  intros <- Hp [Hf Ht] Hc He Hps. unfold decrypt_and_extract. destruct k as [k'|] eqn:Hk; [|done].
  destruct (get_aead k' true) as [a|] eqn:Ea; [|done]. destruct (message_parser this); [|done].
  unfold encrypted_method_get_length. rewrite Hc, (fresh_methods e Hf). cbn [Z.eqb].
  unfold encrypted_get_length. set (e1 := compute_length (Some a) e). case_match; [done|].
  rewrite keymat_v2. destruct (encrypted_method_decrypt _ _ e1) as [[s x]| | |] eqn:Ed; cbn [bind];
    try done.
  case_decide as Hs; [|by intros [= ->]]. subst s. intros [= <-].
  apply forall_extract; [intros; by apply accepted_next|done|].
  eapply Forall_impl; [|intros q Hq; right; exact Hq].
  eapply method_decrypt_text; try exact Ed; try done; subst e1; unfold compute_length;
    [by rewrite num_set_num, (fresh_methods e Hf)|cbn; by rewrite Hc].
Qed.

Lemma decrypt_loop_accepted data r this this' :
  (forall t, not_encrypted accept r t this = negb (t =? PL_UNKNOWN)) ->
  packet_data (message_packet this) = data -> message_parser this <> None ->
  forall rest before, payloads this = before ++ rest ->
  Forall wire rest -> Forall (accepted data) before ->
  decrypt_loop accept k r before rest this = Ok (SUCCESS, this') ->
  Forall (accepted data) (payloads this').
Proof.
  intros Hr Hd Hp. induction rest as [|p rest IH]; intros before E Hw Hb; cbn [decrypt_loop].
  { intros [= <-]. by rewrite E, app_nil_r. }
  inversion_clear Hw as [|? ? Hw1 Hw2]. pose proof Hw1 as [Hf Ht].
  destruct (_ || _) eqn:Ee.
  { destruct rest; [|done]. rewrite orb_true_iff, !Z.eqb_eq in Ee.
    destruct (fresh_encrypted p Hf Ee) as [Hc He].
    apply decrypt_and_extract_accepted; try done. cbn. by rewrite app_nil_r. }
  destruct (Z.eqb_spec (get_type p) PLV2_FRAGMENT) as [Eg|Eg].
  { destruct rest; [|done]. destruct (decrypt_fragment k p this) as [[s q]| | |] eqn:Ed; try done.
    cbn [bind]. intros [= -> <-]. cbn. apply Forall_app. split; [done|]. constructor; [|done]. right.
    pose proof (fresh_fragment p Hf Eg) as Hc.
    eapply decrypt_fragment_text; try exact Ed; try done. by apply fresh_plain. }
  rewrite Hr. destruct (Z.eqb_spec (get_type p) PL_UNKNOWN); [|done]. cbn [negb].
  apply IH; [by rewrite E, <- app_assoc|done|]. apply Forall_app. split; [done|].
  constructor; [by left|done].
Qed.

End Accepted.

(** * What is parsed has types of one octet *)

Definition octet_rule (r : encoding_rule) : bool :=
  negb (String.eqb (offset r) "next_payload")
  || match rule_type r with U_INT_8 => true | _ => false end.

Lemma next_is_octet c t : Forall (is_octet "next_payload") (rules_of c t).
Proof.
  assert (forallb octet_rule (rules_of c t) = true) as H by (each_table c; reflexivity).
  apply Forall_forall. intros r Hr E. rewrite forallb_forall in H.
  specialize (H r (proj1 (list_elem_of_In _ _) Hr)). unfold octet_rule in H.
  rewrite E in H. by destruct (rule_type r).
Qed.

Lemma create_next t v : num "next_payload" (create_instance t v) < 256.
Proof.
  unfold create_instance, payload_create, delete_payload_create. destruct (payload_is_known t v);
    repeat match goal with |- context [if ?b then _ else _] => destruct b end; try done;
    unfold sa_payload_create, ke_payload_create, notify_payload_create, encrypted_payload_create,
      with_length; rewrite !num_set_num; done.
Qed.

Lemma verify_next p q : verify p = Some q -> num "next_payload" p < 256 -> num "next_payload" q < 256.
Proof.
  unfold verify. destruct (class p) eqn:Hc; try (destruct (verified p); [|done]; by intros [= <-]).
  - intros [= <-]. unfold cert_verify. by repeat case_match; rewrite ?num_set_num.
  - unfold frag_verify. repeat case_match; intros [= <-]; rewrite ?num_set_num; done.
Qed.

Lemma next_type_octet p : num "next_payload" p < 256 -> get_next_type p < 256.
Proof. unfold get_next_type. by case_match. Qed.

Lemma parse_octet t p x y p' : valid p -> bit_pos p = 0 -> Parser.parse t p = Ok (x, p') ->
  verify x = Some y -> type_ y = t /\ get_next_type y < 256.
Proof.
  intros Hv Hb E Ey. pose proof (parse_ends t p Hv Hb) as H. rewrite E in H.
  destruct H as (_ & _ & _ & _ & _ & [[_ K2] _ _ O] & _).
  pose proof (create_instance_kind t (Parser.major_version p)) as [Kt _].
  pose proof (verify_keeps _ _ Ey) as (_ & K3 & _). split; [congruence|].
  eapply next_type_octet, verify_next; [done|]. apply O; [apply next_is_octet|apply create_next].
Qed.

Lemma parse_loop_wire : forall fuel t p this this', t < 256 -> valid p -> bit_pos p = 0 ->
  Message.parse_loop fuel t p this = Ok (SUCCESS, this') -> Forall wire (payloads this) ->
  Forall wire (payloads this') /\ exchange_type this' = exchange_type this /\
  message_packet this' = message_packet this /\ message_parser this' <> None.
Proof.
  induction fuel as [|fuel IH]; intros t p this this' Ht Hv Hb; cbn [Message.parse_loop];
    (destruct (t =? PL_NONE); [by intros [= <-]|]); [done|].
  pose proof (parse_ends t p Hv Hb) as H1. pose proof (parse_fresh t p) as H3.
  destruct (Parser.parse t p) as [[x p']| | |] eqn:E; try done.
  destruct H1 as (V & B & _). destruct (verify x) as [y|] eqn:Ev; [|done].
  destruct (parse_octet t p x y p' Hv Hb E Ev) as [Hty Hn].
  pose proof (verify_keeps _ _ Ev) as (_ & _ & _ & Ev2). intros Hl Hw.
  assert (Forall wire (payloads this ++ [y])) as Hy.
  { apply Forall_app. split; [done|]. constructor; [|done].
    split; [by eapply Ev2, H3|]. rewrite Hty. unfold PLV1_ENCRYPTED. lia. }
  case_match; [by injection Hl as <-|]. by apply (IH _ _ _ _ Hn V B Hl).
Qed.

(** * The exchanges of an IKE_SA *)

Definition protected_exchange (t : Z) : bool :=
  (t =? IKE_AUTH) || (t =? CREATE_CHILD_SA) || (t =? INFORMATIONAL).

Lemma protected_rules r : r ∈ message_rules -> protected_exchange (rule_exchange_type r) = true ->
  forallb rule_encrypted (rule_list r) = true.
Proof.
  assert (forallb (fun r => negb (protected_exchange (rule_exchange_type r))
                            || forallb rule_encrypted (rule_list r)) message_rules = true) as H
    by reflexivity.
  intros Hr Hp. rewrite forallb_forall in H.
  specialize (H r (proj1 (list_elem_of_In _ _) Hr)). by rewrite Hp in H.
Qed.

Lemma not_encrypted_protected accept r m this t :
  get_message_rule m = Some r -> exchange_type this = exchange_type m -> protected_exchange (exchange_type this) = true ->
  not_encrypted accept r t this = negb (t =? PL_UNKNOWN).
Proof.
  intros Hr He Hp. unfold get_message_rule in Hr. apply List.find_some in Hr as [Hin E].
  apply andb_true_iff in E as [E _]. apply Z.eqb_eq in E. rewrite <- He in E.
  pose proof (protected_rules r (proj2 (list_elem_of_In _ _) Hin)) as H. rewrite <- E in H.
  specialize (H Hp). unfold not_encrypted, accept_unencrypted_mm.
  assert ((exchange_type this =? AGGRESSIVE) = false /\ (exchange_type this =? ID_PROT) = false)
    as [-> ->].
  { unfold protected_exchange in Hp. rewrite !orb_true_iff, !Z.eqb_eq in Hp.
    destruct Hp as [[->| ->]| ->]; done. }
  cbn [negb andb]. rewrite !andb_true_r. destruct (get_payload_rule r t) as [x|] eqn:Ex;
    [|by rewrite andb_true_r].
  unfold get_payload_rule in Ex. apply List.find_some in Ex as [Ex _].
  rewrite forallb_forall in H. rewrite (H x Ex). by rewrite andb_true_r.
Qed.

(** A message whose header was parsed. *)
Lemma parse_header_v2 p this : bytes_ok (packet_data p) ->
  parse_header (message_create_from_packet p) = Ok (SUCCESS, this) ->
  major_version this = IKEV2_MAJOR_VERSION ->
  payloads this = [] /\ message_packet this = p /\ is_encrypted this = false /\
  first_payload this < 256 /\
  exists q, message_parser this = Some q /\ valid q /\ bit_pos q = 0.
Proof.
  intros Hd H Hm. pose proof (parse_header_ends (message_create_from_packet p) _ eq_refl Hd)
    as (s & this' & E & Hp & Hv). rewrite E in H. injection H as -> ->.
  split; [done|]. revert E Hv Hm. unfold parse_header. cbn [message_create_from_packet message_parser].
  assert (valid (reset_context (parser_create (packet_data p)))) as V0.
  { split; cbn; try done; unfold at_bit; cbn; pose proof (len_nonneg (packet_data p)); lia. }
  destruct (Parser.parse PL_HEADER _) as [[h q]| | |] eqn:Eh; try done.
  destruct (verify h) as [h'|] eqn:Ev; [|done].
  destruct (parse_octet _ _ _ _ _ V0 eq_refl Eh Ev) as [_ Hn]. unfold set_from_header.
  cbn -[get_next_type]. intros [= <-].
  destruct (u8 (num "maj_version" h') =? IKEV2_MAJOR_VERSION) eqn:E2; cbn -[get_next_type];
    (destruct (_ && _) eqn:Ec; cbn -[get_next_type]; intros Hv Hm; [apply andb_true_iff in Ec as [_ Ec]|]);
    split_and!; eauto; try (bool_to_prop; congruence).
Qed.

(** C1: When a message of IKE_AUTH, CREATE_CHILD_SA or INFORMATIONAL is accepted, every payload
    of it of a known type was authenticated: it was parsed from a plaintext that the inbound
    transform gave for associated data that start with the datagram up to the encrypted
    payload, or it is a fragment with such a plaintext. What was put in the clear between the
    header and the encrypted payload is refused. *)
Theorem unprotected_refused (accept : bool) (k : option keymat) (p : packet) (this this' : message)
    (q : payload) :
  bytes_ok (packet_data p) -> is_keymat_v1 k = false ->
  parse_header (message_create_from_packet p) = Ok (SUCCESS, this) ->
  major_version this = IKEV2_MAJOR_VERSION -> protected_exchange (exchange_type this) = true ->
  parse_body accept k this = Ok (SUCCESS, this') ->
  q ∈ payloads this' -> get_type q <> PL_UNKNOWN -> authenticated k (packet_data p) q.
Proof.
  intros Hd Hk Hh Hm Hx Hb Hq Hu.
  destruct (parse_header_v2 p this Hd Hh Hm) as (Hps & Hp & He & Hf & x & Hxp & Hv & Hbit).
  revert Hb. unfold parse_body. cbn [set_rule rule message_parser]. rewrite Hxp.
  destruct (get_message_rule this) as [r|] eqn:Er; [|done]. unfold parse_payloads.
  cbn [set_rule is_encrypted first_payload]. rewrite He.
  destruct (Message.parse_loop _ _ x _) as [[s m]| | |] eqn:El; cbn [bind]; try done.
  case_bool_decide as Hs; [|by intros [= ->]]. subst s. cbn [negb].
  apply parse_loop_wire in El as (Hw & Hex & Hpk & Hpp); try done;
    [|by cbn [set_rule payloads]; rewrite Hps].
  destruct (decrypt_payloads accept k r m) as [[s m1]| | |] eqn:Edp; cbn [bind]; try done.
  case_bool_decide as Hs; [|by intros [= ->]]. subst s. cbn [negb].
  apply (decrypt_loop_accepted accept k Hk (packet_data p)) in Edp; try done.
  - rewrite Forall_forall in Edp. case_match; [done|].
    destruct (check_hash k m1) as [s| | |]; cbn [bind]; try done. intros [= -> <-].
    by destruct (Edp q Hq).
  - intros t. eapply not_encrypted_protected; [exact Er|exact Hex|].
    by rewrite Hex.
  - by rewrite Hpk, <- Hp.
Qed.

(** * An example *)

(** A transform for the examples: one key for every byte, and a sum as ICV. *)
Definition example_icv (c : chunk) : chunk := be_bytes 4 (fold_left Z.add c 7).
Definition example_encrypt (plain assoc iv : chunk) : option chunk :=
  let crypt := (fun b => Z.lxor b 90) <$> plain in
  Some (crypt ++ example_icv (assoc ++ iv ++ crypt)).
Definition example_decrypt (crypt assoc iv : chunk) : option chunk :=
  let n := (length crypt - 4)%nat in
  if bool_decide (drop n crypt = example_icv (assoc ++ iv ++ take n crypt))
  then Some ((fun b => Z.lxor (u8 b) 90) <$> take n crypt) else None.
Definition example_aead : aead :=
  Aead 4 8 4 example_encrypt example_decrypt
    (Some (fun seq size => Some (replicate (Z.to_nat size) (u8 seq))))
    (Some (fun size => Some (replicate (Z.to_nat size) 9))).
Definition example_keymat : keymat :=
  Keymat 2 (fun _ => Some example_aead) (fun _ => None) (fun _ => None) (fun _ _ => true)
    (fun _ => true).

(** An INFORMATIONAL request with a notification of type 16384 and data 1, 2, 3. *)
Definition example_datagram : chunk :=
  [1; 2; 3; 4; 5; 6; 7; 8; 8; 7; 6; 5; 4; 3; 2; 1; 46; 32; 37; 8; 0; 0; 0; 5; 0; 0; 0; 56;
   41; 0; 0; 28; 0; 0; 0; 0; 0; 0; 0; 0; 90; 90; 90; 81; 90; 90; 26; 90; 91; 88; 89; 90;
   0; 0; 5; 57].
Definition example_packet : packet := Packet None None example_datagram.

Lemma example_datagram_ok : bytes_ok example_datagram.
Proof. by apply (bool_decide_unpack _). Qed.

Lemma lxor_octet b : byte_ok b -> byte_ok (Z.lxor b 90).
Proof.
  intros Hb.
  assert ((0 <=? Z.lxor b 90) && (Z.lxor b 90 <? 256) = true) as H by by_bytes b Hb.
  unfold byte_ok. bool_to_prop. lia.
Qed.

Lemma example_aead_safe : aead_safe example_aead.
Proof.
  split; cbn; [lia|lia|]. intros crypt assoc iv plain. unfold example_decrypt.
  case_bool_decide; [|done]. intros [= <-]. apply Forall_fmap, Forall_true. intros b.
  cbn. apply lxor_octet, Z.mod_pos_bound. lia.
Qed.

Lemma message_parsing_ends_witness :
  bytes_ok example_datagram /\
  exists s this, parse_header (message_create_from_packet example_packet) = Ok (s, this) /\
  (s = SUCCESS -> exists s' this', parse_body false (Some example_keymat) this = Ok (s', this')).
Proof.
  split; [exact example_datagram_ok|].
  apply (message_parsing_ends false (Some example_keymat) example_packet).
  - exact example_datagram_ok.
  - intros k' [= <-]. split; [reflexivity|]. intros inbound a [= <-]. exact example_aead_safe.
Defined.

Definition example_header : message :=
  match parse_header (message_create_from_packet example_packet) with
  | Ok (_, this) => this | _ => message_create 2 0 end.
Definition example_body : message :=
  match parse_body false (Some example_keymat) example_header with
  | Ok (_, this) => this | _ => message_create 2 0 end.
Definition example_notify : payload := default (payload_create PL_UNKNOWN) (head (payloads example_body)).

Lemma unprotected_refused_witness :
  (get_type example_notify, bytes "notify_data" example_notify) = (PLV2_NOTIFY, [1; 2; 3]) /\
  authenticated (Some example_keymat) example_datagram example_notify.
Proof.
  split; [vm_compute; reflexivity|].
  apply (unprotected_refused false (Some example_keymat) example_packet example_header example_body).
  - exact example_datagram_ok.
  - reflexivity.
  - vm_compute; reflexivity.
  - vm_compute; reflexivity.
  - vm_compute; reflexivity.
  - vm_compute; reflexivity.
  - apply (list_elem_of_lookup_2 _ 0). vm_compute. reflexivity.
  - vm_compute. discriminate.
Defined.
