(* ===== verification/MessageWire.v ===== *)
(** What an IKEv2 message is on the wire: the payloads with the type of the next one in
    each, the header, and how the loops of [Message] and [EncryptedPayload] generate and
    parse them. *)

From Stdlib Require Import Strings.String.
From stdpp Require Import gmap strings.
From S2P Require Import Prelude Bits Payloads Parser Generator Encoding ParserSpec ParserComplete.
From S2P Require Import GeneratorSpec CodecSpec Verify EncryptedPayload MessageRules Message.
#[local] Open Scope Z_scope.

(** * Payloads that are sent *)

(** A payload of a kind IKEv2 knows that the receiver's checks accept, and that is not itself
    encrypted. *)
Record sendable (p : payload) : Prop := {
  sendable_formed : well_formed p = true;
  sendable_known : known_v2 (type_ p) = true;
  sendable_plain : type_ p <> PLV2_ENCRYPTED /\ type_ p <> PLV2_FRAGMENT;
  sendable_class : class p <> C_UNKNOWN;
  sendable_verified : verify p = Some p;
}.

Definition sendable_kinds : list (payload_class * Z) :=
  [(C_SA, PLV2_SECURITY_ASSOCIATION); (C_KE, PLV2_KEY_EXCHANGE); (C_ID, PLV2_ID_INITIATOR);
   (C_ID, PLV2_ID_RESPONDER); (C_CERT, PLV2_CERTIFICATE); (C_CERTREQ, PLV2_CERTREQ);
   (C_AUTH, PLV2_AUTH); (C_NONCE, PLV2_NONCE); (C_NOTIFY, PLV2_NOTIFY); (C_DELETE, PLV2_DELETE);
   (C_VENDOR_ID, PLV2_VENDOR_ID); (C_TS, PLV2_TS_INITIATOR); (C_TS, PLV2_TS_RESPONDER);
   (C_CP, PLV2_CONFIGURATION); (C_EAP, PLV2_EAP)].

Lemma known_types t : known_v2 t = true ->
  In t [33; 34; 35; 36; 37; 38; 39; 40; 41; 42; 43; 44; 45; 46; 47; 48; 53].
Proof.
  unfold known_v2. rewrite orb_true_iff, andb_true_iff, !Z.leb_le, Z.eqb_eq.
  unfold PLV2_SECURITY_ASSOCIATION, PLV2_EAP, PLV2_FRAGMENT. cbn [In]. lia.
Qed.

Lemma sendable_kind p : sendable p -> In (class p, type_ p) sendable_kinds.
Proof.
  intros [Hw Hk [Hc1 Hc2] Hc _].
  apply well_formed_unfold in Hw as (_ & Hcr & _).
  apply as_created_unfold in Hcr as (E & _). unfold base_of in E.
  assert (class p = class (payload_create (type_ p))) as -> by (destruct (class p); done).
  clear E Hc. apply known_types in Hk. set (t := type_ p) in *. clearbody t.
  cbn [In] in Hk. destruct_or! Hk; subst t; try done; vm_compute; tauto.
Qed.

(** The next payload, the flags and the length come first; the length is that of all. *)
Definition sized (p : payload) : Prop :=
  Z.of_nat (length (encode p)) = 8 * num "payload_length" p /\ get_length p = num "payload_length" p /\
  exists l rest, length l = 16%nat /\ encode p = l ++ bits 16 (num "payload_length" p) ++ rest /\
  0 <= num "payload_length" p < 2 ^ 16.

Ltac by_in := repeat first [by left | right].
Ltac by_len H := rewrite !andb_true_iff, Z.eqb_eq in H; destruct H as [[H1 _] H2]; [by_in|exact (conj H1 H2)].

Ltac by_len' H := rewrite !andb_true_iff, Z.eqb_eq in H; apply H; by_in.
Ltac flat_rules :=
  match goal with |- context [rules_of ?c ?t] =>
    let r := eval vm_compute in (rules_of c t) in change (rules_of c t) with r end.

Lemma sendable_sized p : sendable p -> sized p.
Proof.
  intros Hs. pose proof (sendable_formed p Hs) as Hw. apply sendable_kind in Hs. unfold sized.
  apply well_formed_unfold in Hw as (Hok & _ & _). rewrite Forall_forall in Hok.
  assert (forall r, In r (get_encoding_rules p) -> rule_ok p r = true) as Hr.
  { intros r Hi. by apply Hok, list_elem_of_In. }
  pose proof (Hr (Rule PAYLOAD_LENGTH "payload_length")) as Hlen.
  pose proof (Hr (Rule SPI_SIZE "spi_size")) as Hspi. clear Hok Hr. revert Hlen Hspi.
  unfold rule_ok, get_length, get_header_length. cbn [rule_type offset].
  rewrite encode_unfold. unfold get_encoding_rules, body_bits, rules_bits.
  generalize (encode_all (elements p)). intros es.
  unfold sendable_kinds in Hs. cbn [In] in Hs.
  destruct_or! Hs; try done; injection Hs as Hc Ht; symmetry in Hc, Ht; rewrite Hc;
    unfold get_encoding_rules; rewrite ?Hc, Ht; flat_rules;
    unfold sa_get_header_length, ke_get_header_length, notify_get_header_length, delete_get_header_length,
      id_get_header_length, auth_get_header_length, nonce_get_header_length, cert_get_header_length,
      certreq_get_header_length, ts_get_header_length, vendor_id_get_header_length,
      cp_get_header_length, eap_get_header_length;
    rewrite ?Ht;
    cbn [mbind list_bind rule_bits body_rule rule_type offset app Z.eqb Pos.eqb PLV2_SECURITY_ASSOCIATION PLV1_SECURITY_ASSOCIATION PLV2_KEY_EXCHANGE PLV2_NOTIFY PLV2_DELETE];
    intros Hlen Hspi;
    (assert (fits 16 (num "payload_length" p) = true /\
       8 * num "payload_length" p = ltac:(match type of Hlen with _ -> (_ && (_ =? ?v)) = true => exact v end))
      as [Hf Hv] by (by_len Hlen));
    try (assert (num "spi_size" p = len (bytes "spi" p)) by (by_len' Hspi)); clear Hlen Hspi;
    (split; [|split; [done|]];
    [repeat (rewrite ?length_app, ?length_bits, ?length_of_bytes, ?length_cons, ?length_nil in * );
     unfold len in *; cbn [length] in *; lia
    |eexists (bits 8 _ ++ [_; _; _; _; _; _; _; _]), _; split_and!;
       [by rewrite length_app, length_bits|rewrite <- app_assoc; reflexivity|..];
     unfold fits in Hf; rewrite andb_true_iff, Z.leb_le, Z.ltb_lt in Hf; lia]).
Qed.

(** * The type of the next payload *)

Lemma as_created_set_num m v p : m ∈ num_members (get_encoding_rules p) ->
  as_created p = true -> as_created (set_num m v p) = true.
Proof.
  intros Hm Hc. pose proof (as_created_unfold p Hc) as (E1 & E2 & E3 & E4 & E5 & E6 & _).
  unfold as_created in *. rewrite !andb_true_iff, !bool_decide_eq_true in *.
  change (get_encoding_rules (set_num m v p)) with (get_encoding_rules p).
  change (base_of (set_num m v p)) with (base_of p). cbn [set_num class type_ nums chunks elements].
  split_and!; try tauto.
  - rewrite <- E3. apply map_eq. intros k. rewrite !lookup_clear, lookup_store.
    case_decide; [done|]. rewrite decide_False; [done|]. by intros ->.
  - intros k x. rewrite lookup_store. repeat case_decide; [done|congruence|apply E5].
Qed.

Lemma sendable_rules p : sendable p -> exists rs,
  get_encoding_rules p = Rule U_INT_8 "next_payload" :: rs /\
  Forall (fun r => offset r <> "next_payload"%string) rs.
Proof.
  intros Hs%sendable_kind. unfold sendable_kinds in Hs. cbn [In] in Hs. unfold get_encoding_rules.
  destruct_or! Hs; try done; injection Hs as Hc Ht; rewrite <- Hc, <- Ht;
    (eexists; split; [reflexivity|]); repeat constructor; done.
Qed.

Lemma rule_ok_next t p r : offset r <> "next_payload"%string ->
  rule_ok (set_num "next_payload" t p) r = rule_ok p r.
Proof.
  intros Hr. assert (forall m, m <> "next_payload"%string ->
    num m (set_num "next_payload" t p) = num m p) as Hn.
  { intros m H. by rewrite num_set_num, decide_False. }
  assert (get_header_length (set_num "next_payload" t p) = get_header_length p) as Hh.
  { unfold get_header_length, proposal_get_header_length, notify_get_header_length.
    cbn [class]. by rewrite !Hn. }
  assert (value_format (set_num "next_payload" t p) = value_format p) as Hf.
  { unfold value_format. cbn [class type_]. by rewrite !Hn. }
  unfold rule_ok. rewrite Hh, Hf, !Hn by done.
  change (elements (set_num "next_payload" t p)) with (elements p).
  assert (body_bits (encode_all (elements p)) (set_num "next_payload" t p)
          = body_bits (encode_all (elements p)) p) as ->; [|done].
  unfold body_bits. change (get_encoding_rules (set_num "next_payload" t p)) with (get_encoding_rules p).
  induction (get_encoding_rules p) as [|[ty m] rs IH]; [done|]. cbn [mbind list_bind]. f_equal; [|exact IH].
  by destruct ty.
Qed.

Lemma set_num_comm a b v w p : a <> b -> set_num a v (set_num b w p) = set_num b w (set_num a v p).
Proof.
  intros Hab. unfold set_num; cbn [class type_ nums chunks elements]. f_equal. apply map_eq. intros k.
  rewrite !lookup_store. repeat case_decide; congruence.
Qed.

Lemma cert_verify_next t p :
  cert_verify (set_num "next_payload" t p) = set_num "next_payload" t (cert_verify p).
Proof.
  unfold cert_verify. rewrite num_set_num, decide_False, bytes_set_num by done.
  by repeat case_match; rewrite ?(set_num_comm "invalid_hash_and_url" "next_payload").
Qed.

Lemma verified_unfold p : verified p =
  match class p with
  | C_IKE_HEADER => ike_header_verify p
  | C_SA => sa_verify verified p
  | C_PROPOSAL => proposal_verify verified p
  | C_TRANSFORM => transform_verify verified p
  | C_NONCE => nonce_verify p
  | C_ID => id_verify p
  | C_CERTREQ => certreq_verify p
  | C_TS_SUBSTRUCTURE => ts_substructure_verify p
  | C_TS => ts_verify verified p
  | C_NOTIFY => notify_verify p
  | C_DELETE => delete_verify p
  | C_CP => cp_verify verified p
  | C_CONFIGURATION_ATTRIBUTE => configuration_attribute_verify p
  | C_EAP => eap_verify p
  | C_FRAGMENT => fragment_verify p
  | C_ENCRYPTED_FRAGMENT => match frag_verify p with Some _ => true | None => false end
  | _ => true
  end.
Proof. by destruct p as [[] ? ? ? ?]. Qed.

Lemma verify_set_next t p : sendable p ->
  verify (set_num "next_payload" t p) = Some (set_num "next_payload" t p).
Proof.
  intros Hs. pose proof (sendable_verified p Hs) as Hv. apply sendable_kind in Hs.
  assert (forall m, m <> "next_payload"%string ->
    num m (set_num "next_payload" t p) = num m p) as Hn.
  { intros m H. by rewrite num_set_num, decide_False. }
  assert (class p <> C_CERT -> verify p = Some p -> verified (set_num "next_payload" t p) = true) as H.
  { clear Hv. intros Hc Hv. assert (verified p = true) as V.
    { unfold verify in Hv. destruct (class p) eqn:E; try done;
        try (by destruct (verified p)). unfold sendable_kinds in Hs. cbn [In] in Hs.
      by destruct_or! Hs. }
    rewrite verified_unfold in V |- *. cbn [set_num class].
    unfold sendable_kinds in Hs. cbn [In] in Hs.
    destruct_or! Hs; try done; injection Hs as Hc1 _; rewrite <- Hc1 in V |- *; try exact V; try done;
      unfold id_verify, certreq_verify, notify_verify, notify_bad_length, delete_verify, ts_verify in *;
      rewrite ?Hn by done; exact V. }
  unfold verify. cbn [set_num class]. destruct (class p) eqn:Hc; try (by rewrite H).
  - unfold verify in Hv. rewrite Hc in Hv. injection Hv as Hv. by rewrite cert_verify_next, Hv.
  - unfold sendable_kinds in Hs. cbn [In] in Hs. by destruct_or! Hs.
Qed.

Lemma set_next_type_num t p : sendable p -> 0 <= t < 256 -> set_next_type t p = set_num "next_payload" t p.
Proof.
  intros Hs%sendable_kind Ht. unfold set_next_type. rewrite (wrap_small 8) by done.
  unfold sendable_kinds in Hs. cbn [In] in Hs.
  destruct_or! Hs; try done; injection Hs as Hc _; by rewrite <- Hc.
Qed.

Lemma sendable_type p : sendable p -> get_type p = type_ p /\ 0 < type_ p < 256.
Proof.
  intros Hs%sendable_kind. unfold get_type, sendable_kinds in *. cbn [In] in Hs.
  destruct_or! Hs; try done; injection Hs as Hc Ht; by rewrite <- Hc, <- Ht.
Qed.

Lemma sendable_next t p : sendable p -> 0 <= t < 256 -> sendable (set_next_type t p).
Proof.
  intros Hs Ht. rewrite set_next_type_num by done. pose proof Hs as [Hw Hk Hp Hc Hv].
  split; try done; [|by apply verify_set_next].
  destruct (sendable_rules p Hs) as (rs & Er & Hrs).
  apply well_formed_unfold in Hw as (Hok & Hcr & He).
  assert (well_formed (set_num "next_payload" t p)
    = forallb (rule_ok (set_num "next_payload" t p)) (get_encoding_rules p)
      && as_created (set_num "next_payload" t p) && forallb well_formed (elements p)) as -> by done.
  rewrite !andb_true_iff. split_and!.
  - rewrite Er in Hok |- *. inversion_clear Hok as [|? ? H1 H2]. cbn [forallb]. apply andb_true_iff.
    split; [unfold rule_ok, fits; cbn; rewrite num_set_num, decide_True by done; by bool_to_prop; lia|].
    apply forallb_forall. intros r Hr%list_elem_of_In. rewrite Forall_forall in H2, Hrs.
    rewrite rule_ok_next; auto.
  - apply as_created_set_num; [|done]. rewrite Er. by left.
  - apply forallb_forall. intros e H%list_elem_of_In. rewrite Forall_forall in He. auto.
Qed.

Lemma set_next_type_twice t t' p : sendable p -> 0 <= t < 256 -> 0 <= t' < 256 ->
  set_next_type t (set_next_type t' p) = set_next_type t p.
Proof.
  intros Hs Ht Ht'. rewrite (set_next_type_num t (set_next_type t' p)) by (done || by apply sendable_next).
  rewrite !set_next_type_num by done. unfold set_num; cbn [class type_ nums chunks elements].
  f_equal. apply map_eq. intros k. rewrite !lookup_store. by repeat case_decide.
Qed.

Lemma get_next_type_set t p : sendable p -> 0 <= t < 256 -> get_next_type (set_next_type t p) = t.
Proof.
  intros Hs Ht. rewrite set_next_type_num by done. apply sendable_kind in Hs.
  unfold get_next_type. cbn [set_num class]. unfold sendable_kinds in Hs. cbn [In] in Hs.
  destruct_or! Hs; try done; injection Hs as Hc _; rewrite <- Hc; by rewrite num_set_num, decide_True.
Qed.

Lemma get_type_set t p : get_type (set_next_type t p) = get_type p.
Proof. unfold set_next_type. by repeat case_match. Qed.

(** * Payloads in a row *)

(** The type at the start of [ps] with [t] behind them, and [ps] with the types in each. *)
Definition head_type (t : Z) (ps : list payload) : Z :=
  match ps with [] => t | p :: _ => get_type p end.

Fixpoint link (t : Z) (ps : list payload) : list payload :=
  match ps with
  | [] => []
  | p :: ps => set_next_type (head_type t ps) p :: link t ps
  end.

Lemma head_type_link t ps : head_type t (link t ps) = head_type t ps.
Proof. destruct ps; [done|]. apply get_type_set. Qed.

Lemma head_type_octet t ps : 0 <= t < 256 -> Forall sendable ps -> 0 <= head_type t ps < 256.
Proof. intros Ht [|p ps' Hs _]; [done|]. cbn. destruct (sendable_type p Hs) as [-> ?]. lia. Qed.

Lemma link_sendable t ps : 0 <= t < 256 -> Forall sendable ps -> Forall sendable (link t ps).
Proof.
  intros Ht. induction 1 as [|p ps Hs Hps IH]; [constructor|]. cbn. constructor; [|done].
  apply sendable_next; [done|by apply head_type_octet].
Qed.

Lemma link_twice t ps : 0 <= t < 256 -> Forall sendable ps -> link t (link t ps) = link t ps.
Proof.
  intros Ht. induction 1 as [|p ps Hs Hps IH]; [done|]. cbn. rewrite head_type_link, IH.
  f_equal. apply set_next_type_twice; [done|by apply head_type_octet..].
Qed.

Lemma link_types t ps : get_type <$> link t ps = get_type <$> ps.
Proof. induction ps as [|p ps IH]; [done|]. cbn. by rewrite get_type_set, IH. Qed.

Lemma link_last t ps p : link t (ps ++ [p]) = link (get_type p) ps ++ [set_next_type t p].
Proof.
  induction ps as [|q ps IH]; [done|]. cbn [link app]. rewrite IH. do 2 f_equal.
  by destruct ps.
Qed.

Lemma link_flags t ps : formats_ordered (link t ps) = formats_ordered ps.
Proof.
  induction ps as [|p ps IH]; [done|]. cbn [link formats_ordered]. rewrite IH. f_equal.
  assert (has_format (set_next_type (head_type t ps) p) = has_format p) as ->.
  { unfold set_next_type. repeat case_match; done. }
  f_equal. clear. induction ps as [|q ps IH]; [done|]. cbn [link forallb]. rewrite IH. f_equal.
  f_equal. unfold set_next_type. repeat case_match; done.
Qed.

Lemma link_length t ps : length (link t ps) = length ps.
Proof. induction ps; cbn; congruence. Qed.

(** * The loops that generate *)

Lemma generate_loop_link heap nt : forall rest before current g,
  generate_loop heap nt before current rest g =
  (let* g' := generate_all heap (link nt (current :: rest)) g in
   Ok (before ++ link nt (current :: rest), g')).
Proof.
  induction rest as [|next rest IH]; intros before current g; cbn [generate_loop].
  - unfold generate_all. cbn [link generate_list head_type]. by destruct (Generator.generate _ _ g).
  - unfold generate_all in *. cbn [link generate_list head_type].
    destruct (Generator.generate _ _ g) as [g1| | |]; cbn [bind]; try done. rewrite IH.
    cbn [link generate_list head_type].
    destruct (Generator.generate heap (set_next_type (head_type nt rest) next) g1) as [g2| | |];
      cbn [bind]; try done.
    destruct (generate_list _ _ g2); cbn [bind]; try done. by rewrite <- app_assoc.
Qed.

(** * The loops that parse *)

Lemma sendable_known_as p : sendable p -> known_as 2 p.
Proof.
  intros [Hw Hk _ Hc _]. unfold known_as, create_instance, payload_is_known, base_of.
  pose proof (known_types _ Hk) as Ht. destruct (class p); try done;
    destruct (PL_HEADER <=? type_ p) eqn:E; try done; cbn [Z.eqb]; by rewrite Hk.
Qed.

Lemma sendable_rank p : sendable p -> (rank (class p) <= 4)%nat.
Proof. intros _. apply rank_le. Qed.

(** One payload of a row. *)
Lemma parse_sendable t p this rest : sendable p -> 0 <= t < 256 ->
  valid this -> bit_pos this = 0 -> Parser.major_version this = 2 ->
  remaining this = encode (set_next_type t p) ++ rest ->
  exists this', Parser.parse (get_type p) this = Ok (set_next_type t p, this') /\
  valid this' /\ bit_pos this' = 0 /\ Parser.major_version this' = 2 /\ remaining this' = rest /\
  input this' = input this.
Proof.
  intros Hs Ht Hv Hb Hm Hr. pose proof (sendable_next t p Hs Ht) as Hs'.
  destruct (parse_payload_encode 4 (set_next_type t p) this rest) as (this' & E & [T1 T2 T3 T4] & R & B);
    try done.
  - by apply sendable_rank.
  - apply Hs'.
  - rewrite Hm. by apply sendable_known_as.
  - exists this'. split_and!; try done; [|congruence].
    rewrite <- E. unfold Parser.parse. f_equal. rewrite <- (get_type_set t p).
    by destruct (sendable_type _ Hs').
Qed.

Lemma message_parse_loop : forall ps fuel nt this p rest,
  Forall sendable ps -> 0 <= nt < 256 -> valid p -> bit_pos p = 0 -> Parser.major_version p = 2 ->
  remaining p = encode_all (link nt ps) ++ rest ->
  exists p', valid p' /\ bit_pos p' = 0 /\ Parser.major_version p' = 2 /\ remaining p' = rest /\
  input p' = input p /\
  Message.parse_loop (length ps + fuel) (head_type nt ps) p this
  = Message.parse_loop fuel nt p' (set_payloads (payloads this ++ link nt ps) this).
Proof.
  induction ps as [|q ps IH]; intros fuel nt this p rest Hps Hnt Hv Hb Hm Hr.
  - exists p. rewrite app_nil_r. split_and!; try done. by destruct this.
  - inversion_clear Hps as [|? ? Hq Hps']. cbn [link encode_all flat_map head_type] in *.
    rewrite <- app_assoc in Hr.
    pose proof (head_type_octet nt ps Hnt Hps') as Ht.
    destruct (parse_sendable _ _ _ _ Hq Ht Hv Hb Hm Hr) as (p1 & E & V1 & B1 & M1 & R1 & I1).
    pose proof (sendable_type q Hq) as [Hty Hpos].
    destruct (IH fuel nt (set_payloads (payloads this ++ [set_next_type (head_type nt ps) q]) this)
                p1 rest Hps' Hnt V1 B1 M1 R1) as (p2 & V2 & B2 & M2 & R2 & I2 & E2).
    exists p2. split_and!; try done; [congruence|]. cbn [length plus Message.parse_loop].
    rewrite Hty in *. rewrite (proj2 (Z.eqb_neq _ _)) by (unfold PL_NONE; lia). rewrite E.
    rewrite (sendable_verified _ (sendable_next _ _ Hq Ht)).
    destruct (sendable_plain q Hq) as [P1 P2]. rewrite !(proj2 (Z.eqb_neq _ _)) by done. cbn [orb].
    rewrite get_next_type_set by done. rewrite E2. cbn [set_payloads payloads]. by rewrite <- app_assoc.
Qed.

(** The test of the length is of the first payload; [ok] says that it holds. *)
Lemma encrypted_parse_loop plain :
  ((len plain <? 4) || (len plain <? be_val (take 2 (drop 2 plain)))) = false ->
  forall ps fuel this p, Forall sendable ps -> (length ps < fuel)%nat ->
  valid p -> bit_pos p = 0 -> Parser.major_version p = 2 -> remaining p = encode_all (link PL_NONE ps) ->
  EncryptedPayload.parse_loop fuel plain (head_type PL_NONE ps) this p
  = Ok (SUCCESS, set_elements (elements this ++ link PL_NONE ps) this).
Proof.
  intros Hok. induction ps as [|q ps IH]; intros fuel this p Hps Hf Hv Hb Hm Hr.
  - destruct fuel; cbn; rewrite app_nil_r; by destruct this.
  - inversion_clear Hps as [|? ? Hq Hps']. cbn [link encode_all flat_map head_type length] in *.
    destruct fuel as [|fuel]; [lia|].
    pose proof (head_type_octet PL_NONE ps ltac:(done) Hps') as Ht.
    destruct (parse_sendable _ _ _ _ Hq Ht Hv Hb Hm Hr) as (p1 & E & V1 & B1 & M1 & R1 & I1).
    pose proof (sendable_type q Hq) as [Hty Hpos]. cbn [EncryptedPayload.parse_loop].
    rewrite Hty in *. rewrite (proj2 (Z.eqb_neq _ _)) by (unfold PL_NONE; lia). rewrite Hok, E.
    rewrite (sendable_verified _ (sendable_next _ _ Hq Ht)), get_next_type_set by done.
    rewrite (IH fuel) by (done || lia). unfold insert_last. cbn [set_elements elements].
    by rewrite <- app_assoc.
Qed.

(** * Lengths *)

Definition total_length (ps : list payload) : Z := fold_left (fun n e => n + get_length e) ps 0.

Lemma total_length_cons p ps : total_length (p :: ps) = get_length p + total_length ps.
Proof.
  unfold total_length. cbn [fold_left].
  assert (forall ps n, fold_left (fun n e => n + get_length e) ps n
            = n + fold_left (fun n e => n + get_length e) ps 0) as H.
  { induction ps0 as [|q qs IH]; intros n; cbn [fold_left]; [lia|]. rewrite IH, (IH (0 + _)). lia. }
  rewrite H. lia.
Qed.

Lemma encode_all_length ps : Forall sendable ps ->
  Z.of_nat (length (encode_all ps)) = 8 * total_length ps.
Proof.
  induction 1 as [|p ps Hp Hps IH]; [done|]. change (encode_all (p :: ps)) with (encode p ++ encode_all ps).
  rewrite length_app, Nat2Z.inj_add, IH, total_length_cons.
  destruct (sendable_sized p Hp) as (-> & -> & _). lia.
Qed.

Lemma plain_length plain ps : Forall sendable ps -> of_bytes plain = encode_all ps ->
  len plain = total_length ps.
Proof.
  intros Hs H. apply (f_equal length) in H. rewrite length_of_bytes in H.
  pose proof (encode_all_length ps Hs). unfold len. lia.
Qed.

Lemma length_test plain p ps : Forall sendable (p :: ps) -> bytes_ok plain ->
  of_bytes plain = encode_all (p :: ps) ->
  ((len plain <? 4) || (len plain <? be_val (take 2 (drop 2 plain)))) = false.
Proof.
  intros Hs Hb H. pose proof (plain_length _ _ Hs H) as Hl.
  inversion_clear Hs as [|? ? Hp Hps]. change (encode_all (p :: ps)) with (encode p ++ encode_all ps) in H.
  destruct (sendable_sized p Hp) as (E1 & E2 & l & rest & Hl16 & E & R).
  rewrite total_length_cons, E2 in Hl. pose proof (encode_all_length ps Hps).
  assert (be_val (take 2 (drop 2 plain)) = num "payload_length" p) as ->.
  { rewrite <- bits_val_of_bytes by auto with chunk.
    rewrite of_bytes_take, of_bytes_drop, H, E, <- !app_assoc.
    rewrite drop_app_length' by done. rewrite take_app_length' by (by rewrite length_bits).
    by rewrite bits_val_bits, Z.mod_small. }
  apply (f_equal length) in E. rewrite !length_app, length_bits in E.
  rewrite orb_false_iff, !Z.ltb_ge. lia.
Qed.

(** Parsing the plaintext of an encrypted payload. *)
Lemma encrypted_parse e plain ps : Forall sendable ps -> bytes_ok plain ->
  of_bytes plain = encode_all (link PL_NONE ps) -> type_ e <> PLV1_ENCRYPTED ->
  num "next_payload" e = head_type PL_NONE ps ->
  EncryptedPayload.parse e plain = Ok (SUCCESS, set_elements (elements e ++ link PL_NONE ps) e).
Proof.
  intros Hs Hb H Ht Hn. unfold EncryptedPayload.parse. rewrite (proj2 (Z.eqb_neq _ _)), Hn by done.
  destruct ps as [|p ps].
  - cbn. rewrite app_nil_r. by destruct e.
  - apply encrypted_parse_loop; try done.
    + pose proof (link_sendable PL_NONE (p :: ps) ltac:(done) Hs). by eapply length_test.
    + pose proof (link_sendable PL_NONE (p :: ps) ltac:(done) Hs) as Hl.
      pose proof (plain_length _ _ Hl H) as Hlen. rewrite <- (link_length PL_NONE).
      assert (forall qs, Forall sendable qs -> Z.of_nat (length qs) <= total_length qs) as Hc.
      { induction 1 as [|q qs Hq _ IH]; [done|]. rewrite total_length_cons. cbn [length].
        destruct (sendable_sized q Hq) as (E1 & -> & l & r & L & E & _).
        apply (f_equal length) in E. rewrite !length_app, length_bits in E. lia. }
      specialize (Hc _ Hl). unfold len in Hlen. lia.
    + by apply valid_create.
Qed.

(** * Encryption *)

(** What [a] encrypts [a'] decrypts, with as many octets as its sizes say. *)
Record opens (a a' : aead) : Prop := {
  opens_block : 0 < get_block_size a <= 256;
  opens_sizes : get_block_size a' = get_block_size a /\ get_iv_size a' = get_iv_size a /\
    get_icv_size a' = get_icv_size a /\ 0 <= get_iv_size a /\ 0 <= get_icv_size a;
  opens_iv : forall get seq iv, get_iv_gen a = Some get -> get seq (get_iv_size a) = Some iv ->
    len iv = get_iv_size a /\ bytes_ok iv;
  opens_padding : forall get n c, create_rng a = Some get -> 0 <= n -> get n = Some c ->
    len c = n /\ bytes_ok c;
  opens_text : forall plain assoc iv crypt, aead_encrypt a plain assoc iv = Some crypt ->
    bytes_ok plain -> aead_decrypt a' crypt assoc iv = Some plain;
  opens_length : forall plain assoc iv crypt, aead_encrypt a plain assoc iv = Some crypt ->
    len crypt = len plain + get_icv_size a;
  opens_octets : forall plain assoc iv crypt, aead_encrypt a plain assoc iv = Some crypt ->
    bytes_ok plain -> bytes_ok crypt;
}.

Lemma content_roundtrip a a' mid plain assoc encrypted :
  opens a a' -> bytes_ok plain -> encrypt_content a mid plain assoc = (SUCCESS, encrypted) ->
  len encrypted = len plain + compute_overhead a (len plain) /\ bytes_ok encrypted /\
  exists encrypted', decrypt_content a' encrypted assoc = Ok (SUCCESS, Some plain, encrypted').
Proof.
  intros [Hbs (Es1 & Es2 & Es3 & Hiv0 & Hicv0) Hiv Hpad Htext Hlen Hoct] Hp. unfold encrypt_content.
  destruct (create_rng a) as [get_bytes|] eqn:Er; [|done].
  destruct (get_iv_gen a) as [get_iv|] eqn:Eg; [|done].
  destruct (get_iv _ _) as [iv|] eqn:Ei; [|done].
  set (bs := get_block_size a) in *. set (padding := bs - len plain mod bs).
  pose proof (Z.mod_pos_bound (len plain) bs ltac:(lia)) as Hmod.
  assert (1 <= padding <= bs) as Hpb by (subst padding; lia).
  destruct (get_bytes (padding - 1)) as [random|] eqn:Eb; [|done].
  destruct (aead_encrypt a _ assoc iv) as [crypt|] eqn:Ee; [|done]. intros [= <-].
  destruct (Hiv _ _ _ eq_refl Ei) as [Li Oi].
  assert (u8 (padding - 1) = padding - 1) as Hu.
  { unfold u8. apply wrap_small. change (2 ^ 8) with 256. lia. }
  destruct (Hpad get_bytes (padding - 1) random eq_refl) as [Lr Or]; [clear -Hpb; lia|done|].
  set (padded := plain ++ random ++ [u8 (padding - 1)]) in *.
  assert (len padded = len plain + padding) as Lp.
  { subst padded. rewrite !len_app, Lr. change (len [u8 (padding - 1)]) with 1. lia. }
  assert (bytes_ok padded) as Op.
  { subst padded. rewrite !bytes_ok_app. split_and!; [done|done|].
    constructor; [|done]. rewrite Hu. unfold byte_ok. lia. }
  pose proof (Hlen _ _ _ _ Ee) as Lc. pose proof (Hoct _ _ _ _ Ee Op) as Oc.
  split; [rewrite len_app; unfold compute_overhead; fold bs; subst padding; lia|].
  split; [by apply bytes_ok_app|]. unfold decrypt_content. rewrite Es1, Es2, Es3. fold bs.
  assert (Z.to_nat (get_iv_size a) = length iv) as Hn by (unfold len in Li; lia).
  rewrite Hn, take_app_length, drop_app_length.
  assert ((len (iv ++ crypt) <? get_iv_size a + get_icv_size a) = false) as ->.
  { apply Z.ltb_ge. rewrite len_app. pose proof (len_nonneg plain). lia. }
  assert ((len crypt - get_icv_size a) mod bs = 0) as ->.
  { rewrite Lc, Lp. replace (len plain + padding + get_icv_size a - get_icv_size a)
      with ((len plain / bs + 1) * bs); [by apply Z.mod_mul; lia|].
    subst padding. pose proof (Z.div_mod (len plain) bs ltac:(lia)). lia. }
  cbn [orb negb Z.eqb]. rewrite (Htext _ _ _ _ Ee Op).
  assert (last (iv ++ padded) = Some (padding - 1)) as ->.
  { subst padded. rewrite !app_assoc, last_snoc. by rewrite Hu. }
  rewrite (proj2 (Z.ltb_ge _ _)) by (pose proof (len_nonneg plain); lia).
  eexists. do 2 f_equal. f_equal.
  subst padded. rewrite Lp. apply (f_equal Some). rewrite take_app_length'; [done|].
  unfold len. lia.
Qed.

(** * The place of the length in the header *)

(** Every step but the rule for the length of the header keeps the place [o]; all but lists
    keep the payload [p] that is generated. *)
Definition places (o : Z) (p : payload) (x : result generator) : Prop :=
  match x with Ok g => header_length_offset g = o /\ data_struct g = p | _ => True end.

Definition offset_is (o : Z) (x : result generator) : Prop :=
  match x with Ok g => header_length_offset g = o | _ => True end.

Lemma places_bind o p x f : places o p x ->
  (forall g, header_length_offset g = o -> data_struct g = p -> places o p (f g)) ->
  places o p (bind x f).
Proof. destruct x; cbn; [intros []|done..]. auto. Qed.

Lemma places_any {A} o p (x : result A) f : (forall a, places o p (f a)) -> places o p (bind x f).
Proof. destruct x; cbn; auto. Qed.

Section Places.

Variable heap : Z -> Z.
Variable o : Z.
Variable p : payload.

Let at_place (g : generator) : Prop := header_length_offset g = o /\ data_struct g = p.

Lemma make_space_places bits : forall fuel g, at_place g ->
  places o p (make_space_loop heap fuel g bits).
Proof.
  induction fuel as [|fuel IH]; intros g []; cbn [make_space_loop]; case_match; try done. by apply IH.
Qed.

Lemma write_out_places b g : at_place g -> places o p (write_out b g).
Proof. intros []. unfold write_out. by case_match. Qed.

Lemma write_bytes_places c g : at_place g -> places o p (write_bytes_to_buffer heap c g).
Proof.
  intros Hg. apply places_bind; [by apply make_space_places|]. clear g Hg. intros g H1 H2.
  revert g H1 H2. induction c as [|b c IH]; intros g H1 H2; cbn [write_bytes_loop]; [done|].
  apply places_bind; [by apply write_out_places|]. intros. by apply IH.
Qed.

Lemma generate_int_places t m g : at_place g -> places o p (generate_u_int_type heap t m g).
Proof.
  intros Hg. unfold generate_u_int_type. destruct (number_of_bits t); [|done]. case_match; [done|].
  apply places_bind; [by apply make_space_places|]. clear g Hg H. intros g H1 H2. unfold generate_int.
  destruct t; try done; try by apply write_bytes_places.
  all: repeat case_match; try done; try (apply places_bind; [by apply write_out_places|done]).
  all: apply places_any; intros b.
  all: apply places_bind; [first [by apply write_out_places|by apply write_bytes_places]|done].
Qed.

Lemma generate_flag_places m g : at_place g -> places o p (generate_flag heap m g).
Proof.
  intros Hg. unfold generate_flag. apply places_bind; [by apply make_space_places|].
  intros g1 H1 H2. apply places_bind; [case_match; [by apply write_out_places|done]|].
  intros g2 H3 H4. apply places_any. intros b.
  apply places_bind; [by apply write_out_places|]. intros g3 H5 H6. by case_match.
Qed.

Lemma generate_chunk_places m g : at_place g -> places o p (generate_from_chunk heap m g).
Proof. intros Hg. unfold generate_from_chunk. case_match; [done|]. by apply write_bytes_places. Qed.

Definition no_length (r : encoding_rule) : bool :=
  match rule_type r with HEADER_LENGTH => false | _ => true end.

Lemma generate_rule_places sub r g : at_place g -> no_length r = true -> is_list_rule r = false ->
  places o p (generate_rule heap sub r g).
Proof.
  intros Hg Hr Hl. unfold generate_rule. destruct r as [ty m]. cbn [rule_type offset] in *.
  destruct ty; try done; try by apply generate_int_places.
  all: try by apply generate_flag_places.
  all: try by apply generate_chunk_places.
  - apply places_bind; [by apply generate_flag_places|]. done.
  - case_match; [by apply generate_int_places|]. apply places_bind; [by apply generate_int_places|]. done.
  - case_match; [by apply generate_chunk_places|done].
Qed.

Lemma generate_rules_places sub rs : forall g, at_place g -> forallb no_length rs = true ->
  lists_last rs = true ->
  (existsb is_list_rule rs = true -> forall e g', e ∈ elements p -> header_length_offset g' = o ->
   offset_is o (sub e g')) ->
  offset_is o (generate_rules heap sub rs g).
Proof.
  induction rs as [|r rs IH]; intros g Hg Hn Hl Hs; cbn [generate_rules]; [apply Hg|].
  cbn [forallb lists_last existsb] in *. apply andb_true_iff in Hn as [Hn1 Hn2].
  apply andb_true_iff in Hl as [Hl1 Hl2]. destruct (is_list_rule r) eqn:El.
  - destruct rs; [|done]. destruct r as [ty m]. destruct ty; try done. unfold generate_rule.
    cbn [rule_type generate_rules]. destruct Hg as [Hg1 Hg2]. case_match; [|exact Hg1]. rewrite Hg2.
    specialize (Hs eq_refl). clear Hg2 IH. revert g Hg1 Hs.
    induction (elements p) as [|e es IHe]; intros g Hg1 Hs; cbn [generate_list bind]; [done|].
    pose proof (Hs e g ltac:(by left) Hg1) as H1. destruct (sub e g) as [g1| | |]; cbn [bind]; try done.
    apply IHe; [done|]. intros e' g' He. apply Hs. by right.
  - pose proof (generate_rule_places sub r g Hg Hn1 El) as H1.
    destruct (generate_rule heap sub r g) as [g1| | |]; cbn [bind]; try done. apply IH; auto.
Qed.

End Places.

Lemma no_length_all c t : c <> C_IKE_HEADER -> forallb no_length (rules_of c t) = true.
Proof. intros H. each_table c; done. Qed.

Lemma generate_payload_places heap o d : forall p g, header_length_offset g = o ->
  class p <> C_IKE_HEADER ->
  (existsb is_list_rule (get_encoding_rules p) = true -> well_formed p = true) ->
  offset_is o (generate_payload heap d p g).
Proof.
  induction d as [|d IH]; intros p g Hg Hc Hw; [done|]. cbn [generate_payload].
  apply (generate_rules_places heap o p); [done|by apply no_length_all|apply lists_last_all|].
  intros Hl e g' He Hg'. specialize (Hw Hl). apply IH; [done| |].
  - destruct (well_formed_elements p e Hw He) as (We & Re & _).
    pose proof (well_formed_unfold _ Hw) as (Hok & _ & _).
    apply existsb_exists in Hl as ([ty m] & Hr & Ht). destruct ty; try done.
    rewrite Forall_forall in Hok. specialize (Hok _ (proj2 (list_elem_of_In _ _) Hr)).
    unfold rule_ok in Hok; cbn [rule_type] in Hok. rewrite andb_true_iff, forallb_forall in Hok.
    destruct Hok as [Hlt Hes]. specialize (Hes e (proj1 (list_elem_of_In _ _) He)).
    rewrite andb_true_iff, bool_decide_eq_true in Hes. destruct Hes as [_ ->].
    unfold is_list_type in Hlt. rewrite !orb_true_iff, !Z.eqb_eq in Hlt.
    by destruct_or! Hlt; rewrite Hlt.
  - intros _. by destruct (well_formed_elements p e Hw He).
Qed.

Lemma generate_all_places heap o ps : forall g, header_length_offset g = o ->
  Forall sendable ps -> offset_is o (generate_all heap ps g).
Proof.
  induction ps as [|p ps IH]; intros g Hg Hs; [done|]. inversion_clear Hs as [|? ? Hp Hps].
  unfold generate_all. cbn [generate_list].
  assert (offset_is o (Generator.generate heap p g)) as H1.
  { apply generate_payload_places; [done| |intros _; apply Hp].
    apply sendable_kind in Hp. unfold sendable_kinds in Hp. cbn [In] in Hp.
    destruct_or! Hp; try done; by injection Hp as <- _. }
  destruct (Generator.generate heap p g) as [g1| | |]; cbn [bind]; try done. by apply IH.
Qed.

(** * The header *)

Definition header_rules : list encoding_rule := removelast ike_header_encodings.

Record header (h : payload) : Prop := {
  header_kind : class h = C_IKE_HEADER /\ type_ h = PL_HEADER;
  header_formed : well_formed h = true;
}.

Definition head_bits (h : payload) : list bool := rules_bits [] h header_rules.

Lemma header_encode h : header h ->
  encode h = head_bits h ++ bits 32 (num "length" h) /\ length (head_bits h) = 192%nat.
Proof.
  intros [[Hc _] Hw]. rewrite encode_unfold. unfold get_encoding_rules. rewrite Hc. cbn [rules_of].
  apply well_formed_unfold in Hw as (Hok & Hcr & _). apply as_created_unfold in Hcr as (_ & _ & _ & _ & _ & _ & He).
  unfold get_encoding_rules in *. rewrite Hc in *. cbn [rules_of] in *.
  destruct He as [He|He]; [done|]. rewrite He.
  change ike_header_encodings with (header_rules ++ [Rule HEADER_LENGTH "length"]) in Hok |- *.
  unfold rules_bits at 1. rewrite bind_app. split; [cbn [mbind list_bind]; by rewrite app_nil_r|].
  apply Forall_app in Hok as [Hok _]. inversion_clear Hok as [|? ? H1 Hok']. inversion_clear Hok' as [|? ? H2 _].
  unfold rule_ok in H1, H2. cbn [rule_type offset] in H1, H2. rewrite andb_true_iff, Z.eqb_eq in H1, H2.
  unfold head_bits, rules_bits, header_rules, ike_header_encodings. cbn [removelast mbind list_bind rule_bits rule_type offset app].
  repeat (rewrite ?length_app, ?length_bits, ?length_of_bytes, ?length_cons, ?length_nil).
  destruct H1 as [_ H1], H2 as [_ H2]. unfold len in H1, H2. cbn [length]. lia.
Qed.

Lemma header_length_bits h v : head_bits (set_num "length" v h) = head_bits h.
Proof.
  unfold head_bits, rules_bits, header_rules, ike_header_encodings.
  cbn [removelast mbind list_bind rule_bits rule_type offset app].
  rewrite !num_set_num, !bytes_set_num. by rewrite !decide_False.
Qed.

Lemma output_position g : at_cursor (At 0) g ->
  8 * out_position g = Z.of_nat (length (output g)) /\ output g = of_bytes (fst (get_chunk g)).
Proof.
  intros Hc. destruct (chunk_output g Hc) as [H1 H2]. split; [|done]. rewrite <- H1, length_of_bytes.
  destruct Hc as [[Hb _] Hp He _ _]. cbn in *. rewrite length_take. unfold len in *. lia.
Qed.

Lemma header_generated heap h : header h -> exists g,
  Generator.generate heap h (generator_create heap) = Ok g /\ at_cursor (At 0) g /\
  output g = encode h /\ header_length_offset g = 24 /\ gen_attribute_format g = 0.
Proof.
  intros Hh. destruct (header_encode h Hh) as [He Hl]. pose proof Hh as [[Hc Ht] Hw].
  destruct (generate_payload_writes heap 4 h) with (this := generator_create heap)
    as (g & l & E & [C O B F]); [|apply created_at|].
  { pose proof (well_formed_height h Hw). pose proof (rank_le (class h)). lia. }
  unfold Generator.generate. exists g. rewrite E. split_and!; [done|done| | |].
  - rewrite O, created_output. apply B; [done|]. unfold is_v2_attribute. by rewrite Hc.
  - change (generate_payload heap 4 h (generator_create heap)) with
      (generate_rules heap (generate_payload heap 3) (get_encoding_rules h)
         (set_data_struct h (generator_create heap))) in E.
    unfold get_encoding_rules in E. rewrite Hc in E. cbn [rules_of] in E.
    change ike_header_encodings with (header_rules ++ [Rule HEADER_LENGTH "length"]) in E.
    set (g0 := set_data_struct h (generator_create heap)) in *.
    destruct (rules_written heap (generate_payload heap 3) h header_rules (At 0) false g0)
      as (g1 & l1 & E1 & C1 & O1 & B1); try done.
    { by apply (at_cursor_ext (At 0) (generator_create heap)); [..|apply created_at]. }
    { intros t m H%list_elem_of_In. exfalso. revert H. clear. vm_compute. intros H. by destruct_or! H. }
    destruct B1 as [B1 _]; [done|intros t m H%list_elem_of_In; exfalso; revert H; clear; vm_compute; intros H; by destruct_or! H|].
    destruct (output_position g1 C1) as [P1 _]. rewrite O1 in P1. rewrite B1 in P1; [|done|].
    2: { unfold is_v2_attribute. by rewrite Hc. }
    assert (out_position g1 = 24) as P2.
    { change (output g0) with (output (generator_create heap)) in P1. rewrite created_output in P1.
      cbn [app] in P1. assert (rules_bits (encode_all (elements h)) h header_rules = head_bits h) as Hb by done.
      rewrite Hb, Hl in P1. lia. }
    assert (forall rs g, generate_rules heap (generate_payload heap 3) (rs ++ [Rule HEADER_LENGTH "length"]) g
      = let* g' := generate_rules heap (generate_payload heap 3) rs g in
        generate_rule heap (generate_payload heap 3) (Rule HEADER_LENGTH "length") g') as Happ.
    { induction rs as [|r rs IH]; intros g'; cbn [app generate_rules bind].
      - by destruct (generate_rule _ _ _ g').
      - destruct (generate_rule _ _ r g') as [g2| | |]; cbn [bind]; [apply IH|done..]. }
    rewrite Happ, E1 in E. cbn [bind] in E. unfold generate_rule in E. cbn [rule_type offset] in E.
    pose proof (generate_int_places heap 24 (data_struct g1) U_INT_32 "length"
      (set_header_length_offset (get_offset g1) g1) (conj P2 eq_refl)) as P.
    rewrite E in P. apply P.
  - rewrite F; [done|done|]. unfold has_format. by rewrite Hc.
Qed.

Lemma header_encode_length h v : header h ->
  encode (set_num "length" v h) = head_bits h ++ bits 32 v.
Proof.
  intros Hh. rewrite <- (header_length_bits h v). pose proof Hh as [[Hk Ht] Hw].
  rewrite encode_unfold. unfold get_encoding_rules. cbn [set_num class]. rewrite Hk. cbn [rules_of].
  change ike_header_encodings with (header_rules ++ [Rule HEADER_LENGTH "length"]).
  unfold rules_bits at 1. rewrite bind_app. cbn [mbind list_bind]. rewrite app_nil_r. f_equal.
  unfold rule_bits. cbn [rule_type offset]. by rewrite num_set_num, decide_True.
Qed.

(** Filling the length in gives what the header with that length is. *)
Lemma fill_length_header h g rest v : header h -> at_cursor (At 0) g ->
  header_length_offset g = 24 -> output g = encode h ++ rest ->
  exists g', fill_length v g = Ok g' /\ at_cursor (At 0) g' /\ header_length_offset g' = 24 /\
  output g' = encode (set_num "length" v h) ++ rest /\
  gen_attribute_format g' = gen_attribute_format g.
Proof.
  intros Hh Hc Ho Hout. destruct (header_encode h Hh) as [He Hl].
  destruct (output_position g Hc) as [Hp Hd].
  pose proof (header_encode_length h v Hh) as He'.
  assert (length (output g) = 224 + length rest)%nat as Hlen.
  { rewrite Hout, He, !length_app, Hl, length_bits. lia. }
  pose proof Hc as [[Hb _] H0 Hend Hok _]. cbn [bit_of] in Hb.
  unfold fill_length. rewrite Ho. rewrite (proj2 (Z.ltb_ge _ _)), (proj2 (Z.ltb_ge _ _)) by (unfold len in *; lia).
  cbn [orb]. change (Z.to_nat 24) with 24%nat. change (Z.to_nat (24 + 4)) with 28%nat.
  set (b := buffer g) in *. set (b' := take 24 b ++ be_bytes 4 v ++ drop 28 b).
  set (n := Z.to_nat (out_position g)) in *.
  assert (length b' = length b) as Hlb.
  { subst b'. rewrite !length_app, length_take, length_drop, length_be_bytes. unfold len in *. lia. }
  assert (take n b' = take 24 b ++ be_bytes 4 v ++ drop 28 (take n b)) as Ht.
  { subst b'. rewrite take_app_ge by (rewrite length_take; unfold len in *; lia).
    rewrite take_app_ge by (rewrite length_take, length_be_bytes; unfold len in *; lia).
    do 2 f_equal. rewrite length_take, length_be_bytes, take_drop_commute. f_equal. f_equal.
    unfold len in *. lia. }
  assert (bytes_ok b') as Hok'.
  { subst b'. rewrite !bytes_ok_app. auto with chunk. }
  eexists. split; [done|].
  assert (at_cursor (At 0) (set_buffer b' g)) as Hc'.
  { split; cbn [set_buffer current_bit out_position buffer bit_of]; auto; try lia.
    unfold len in *. rewrite Hlb. lia. }
  split_and!; [done|done| |done].
  destruct (output_position _ Hc') as [_ ->]. unfold get_chunk; cbn [fst set_buffer out_position buffer].
  fold n. rewrite Ht, !of_bytes_app, of_bytes_be_bytes, He', <- app_assoc.
  assert (take 24 b = take 24 (take n b)) as ->.
  { rewrite take_take. f_equal. lia. }
  unfold get_chunk in Hd; cbn [fst] in Hd. fold n b in Hd.
  rewrite of_bytes_take, of_bytes_drop, <- Hd, Hout, He, <- !app_assoc.
  rewrite take_app_length' by (by rewrite Hl). f_equal. f_equal.
  rewrite app_assoc, drop_app_length'; [done|]. by rewrite length_app, Hl, length_bits.
Qed.

Lemma as_created_set_bytes m c p : m ∈ bytes_members (get_encoding_rules p) ->
  as_created p = true -> as_created (set_bytes m c p) = true.
Proof.
  intros Hm Hc. pose proof (as_created_unfold p Hc) as (E1 & E2 & E3 & E4 & E5 & E6 & _).
  unfold as_created in *. rewrite !andb_true_iff, !bool_decide_eq_true in *.
  change (get_encoding_rules (set_bytes m c p)) with (get_encoding_rules p).
  change (base_of (set_bytes m c p)) with (base_of p). cbn [set_bytes class type_ nums chunks elements].
  split_and!; try tauto.
  - rewrite <- E4. apply map_eq. intros k. rewrite !lookup_clear, lookup_store.
    case_decide; [done|]. rewrite decide_False; [done|]. by intros ->.
  - intros k x. rewrite lookup_store. repeat case_decide; [done|congruence|apply E6].
Qed.

(** A message whose header can be sent, of an exchange of IKEv2. *)
Record outgoing (id : ike_sa_id) (this : message) : Prop := {
  out_version : major_version this = 2 /\ 0 <= minor_version this < 16;
  out_exchange : exchange_type this ∈ [IKE_SA_INIT; IKE_AUTH; CREATE_CHILD_SA; INFORMATIONAL];
  out_message_id : 0 <= message_id this < 2 ^ 32;
  out_initiator : octets (initiator_spi id) = true /\ len (initiator_spi id) = 8 /\
    be_val (initiator_spi id) <> 0;
  out_responder : octets (responder_spi id) = true /\ len (responder_spi id) = 8;
}.

(** The header of the message, with its length and the type of the first payload. *)
Definition sent_header (id : ike_sa_id) (this : message) (t n : Z) : payload :=
  set_num "length" n (set_next_type t (create_header id this)).

Ltac header_members := rewrite ?num_set_num, ?bytes_set_num, ?num_set_bytes, ?bytes_set_bytes.

(** Its members, one by one. *)
Record header_holds (id : ike_sa_id) (this : message) (t n : Z) (h : payload) : Prop := {
  holds_kind : class h = C_IKE_HEADER /\ type_ h = PL_HEADER /\ elements h = [];
  holds_next : num "next_payload" h = t;
  holds_version : num "maj_version" h = 2 /\ num "min_version" h = minor_version this;
  holds_exchange : num "exchange_type" h = exchange_type this;
  holds_message_id : num "message_id" h = message_id this;
  holds_length : num "length" h = n;
  holds_flags : num "flags.response" h = Z.b2z (negb (is_request this)) /\
    num "flags.version" h = Z.b2z (version_flag this) /\
    num "flags.initiator" h = Z.b2z (is_initiator_flag id) /\
    num "flags.authonly" h = 0 /\ num "flags.commit" h = 0 /\ num "flags.encryption" h = 0;
  holds_reserved : num "reserved[0]" h = Z.b2z (fst (reserved this)) /\
    num "reserved[1]" h = Z.b2z (snd (reserved this));
  holds_spis : bytes "initiator_spi" h = initiator_spi id /\ bytes "responder_spi" h = responder_spi id;
}.

Lemma sent_header_holds id this t n : outgoing id this -> 0 <= t < 256 ->
  header_holds id this t n (sent_header id this t n).
Proof.
  intros [[V1 V2] Hx Hm _ _] Ht. unfold sent_header, create_header, ike_header_create_version.
  rewrite V1. cbn [Z.eqb Pos.eqb IKEV2_MAJOR_VERSION].
  assert (u8 (exchange_type this) = exchange_type this) as Hx8.
  { rewrite !elem_of_cons, elem_of_nil in Hx. by destruct_or! Hx; rewrite ?Hx. }
  assert (u8 (minor_version this) = minor_version this) as Hv8.
  { unfold u8. apply wrap_small. change (2 ^ 8) with 256. lia. }
  assert (u8 t = t) as Ht8 by (by apply wrap_small).
  unfold set_next_type. cbn [class set_num set_bytes ike_header_create zeroed].
  rewrite Hx8, Hv8, Ht8. split; [by split_and!|..]; repeat header_members; cbn; try done.
Qed.

Lemma b2z_fits b : fits 1 (Z.b2z b) = true.
Proof. by destruct b. Qed.

Lemma sent_header_created id this t n : major_version this = 2 ->
  as_created (sent_header id this t n) = true.
Proof.
  intros Hv. unfold sent_header, create_header, ike_header_create_version. rewrite Hv.
  cbn [Z.eqb Pos.eqb IKEV2_MAJOR_VERSION]. unfold set_next_type. cbn [class set_num set_bytes ike_header_create zeroed].
  assert (forall m, In m (num_members ike_header_encodings) -> m ∈ num_members ike_header_encodings) as Hn
    by (intros; by apply list_elem_of_In).
  assert (forall m, In m (bytes_members ike_header_encodings) -> m ∈ bytes_members ike_header_encodings) as Hb
    by (intros; by apply list_elem_of_In).
  repeat first
    [apply as_created_set_num; [apply Hn; vm_compute; tauto|]
    |apply as_created_set_bytes; [apply Hb; vm_compute; tauto|]].
  reflexivity.
Qed.

Lemma sent_header_ok id this t n : outgoing id this -> 0 <= t < 256 -> 0 <= n < 2 ^ 32 ->
  header (sent_header id this t n) /\
  verify (sent_header id this t n) = Some (sent_header id this t n).
Proof.
  intros Ho Ht Hn. pose proof (sent_header_holds id this t n Ho Ht) as Hh.
  pose proof (sent_header_created id this t n (proj1 (out_version _ _ Ho))) as Hcr.
  destruct Ho as [[V1 V2] Hx Hm (I1 & I2 & I3) (R1 & R2)].
  set (h := sent_header id this t n) in *. clearbody h.
  destruct Hh as [(K1 & K2 & K3) N (A1 & A2) X M L (F1 & F2 & F3 & F4 & F5 & F6) (S1 & S2) (P1 & P2)].
  assert (0 <= exchange_type this < 256) as Hx8.
  { rewrite !elem_of_cons, elem_of_nil in Hx. by destruct_or! Hx; rewrite ?Hx. }
  split; [split; [done|]|].
  - assert (well_formed h = forallb (rule_ok h) (get_encoding_rules h) && as_created h
              && forallb well_formed (elements h)) as -> by (by destruct h).
    rewrite Hcr, K3. unfold get_encoding_rules. rewrite K1.
    cbn [rules_of ike_header_encodings forallb]. unfold rule_ok. cbn [rule_type offset].
    rewrite N, A1, A2, X, M, L, F1, F2, F3, F4, F5, F6, S1, S2, P1, P2, I1, I2, R1, R2.
    rewrite !b2z_fits. unfold fits. repeat rewrite (proj2 (andb_true_iff _ _)); try done;
      rewrite ?Z.leb_le, ?Z.ltb_lt; try lia.
  - assert (verified h = true) as Hv.
    { rewrite verified_unfold, K1. unfold ike_header_verify. rewrite A1, X, P1.
      rewrite (proj2 (Z.eqb_neq _ _) I3). rewrite !elem_of_cons, elem_of_nil in Hx.
      by destruct_or! Hx; rewrite ?Hx. }
    unfold verify. by rewrite K1, Hv.
Qed.

(** What the header gives the receiver; the flag for higher versions is not read. *)
Definition received (id : ike_sa_id) (this : message) (t : Z) (pkt : packet) (p : parser) : message :=
  Message 2 (minor_version this) t (exchange_type this) (is_request this) false false (reserved this)
    false (message_id this)
    (Some (IkeSaId 2 (initiator_spi id) (responder_spi id) (is_initiator_flag id))) pkt [] (Some p) None.

Lemma parse_header_sent id this t n pkt rest : outgoing id this -> 0 <= t < 256 -> 0 <= n < 2 ^ 32 ->
  bytes_ok (packet_data pkt) ->
  of_bytes (packet_data pkt) = encode (sent_header id this t n) ++ rest ->
  exists p, parse_header (message_create_from_packet pkt) = Ok (SUCCESS, received id this t pkt p) /\
  valid p /\ bit_pos p = 0 /\ Parser.major_version p = 2 /\ remaining p = rest /\
  input p = packet_data pkt.
Proof.
  intros Ho Ht Hn Hd Hb. destruct (sent_header_ok id this t n Ho Ht Hn) as [[Hk Hw] Hv].
  pose proof (sent_header_holds id this t n Ho Ht) as Hh.
  pose proof (valid_create 0 _ Hd) as V0.
  destruct (parse_payload_encode 4 (sent_header id this t n) (parser_create (packet_data pkt)) rest)
    as (q & E & [T1 T2 T3 T4] & R & B); try done.
  - apply rank_le.
  - unfold known_as, base_of. destruct Hk as [-> ->]. done.
  - exists (Parser.set_major_version 2 q). destruct Hk as [Hk1 Hk2]. rewrite Hk2 in E.
    split_and!; try done; [|by destruct T1].
    unfold parse_header. cbn [message_create_from_packet message_parser]. unfold Parser.parse.
    change (reset_context (parser_create (packet_data pkt))) with (parser_create (packet_data pkt)).
    rewrite E, Hv.
    destruct Hh as [_ N (A1 & A2) X M L (F1 & F2 & F3 & F4 & F5 & F6) (S1 & S2) (P1 & P2)].
    destruct Ho as [[V1 V2] Hx Hm _ _].
    assert (u8 (minor_version this) = minor_version this) as Hv8.
    { unfold u8. apply wrap_small. change (2 ^ 8) with 256. lia. }
    assert (u32 (message_id this) = message_id this) as Hm32 by (by apply wrap_small).
    unfold set_from_header. rewrite A1, A2, X, M, F1, F3, F6, S1, S2, P1, P2.
    assert (get_next_type (sent_header id this t n) = t) as ->.
    { unfold get_next_type. by rewrite Hk1. }
    cbn. unfold set_message_id, set_versions. cbn. rewrite Hv8, Hm32.
    assert (forall b, negb (Z.b2z b =? 0) = b) as Hbz by (by intros []).
    rewrite !Hbz. assert ((t =? PLV1_FRAGMENT) && false = false) as E2 by apply andb_false_r.
    unfold received. destruct (reserved this) as [r0 r1]. cbn.
    change (u8 2) with IKEV2_MAJOR_VERSION. cbn. rewrite ?E2. cbn. repeat f_equal.
    by destruct (is_request this).
Qed.
