(* ===== verification/MessageSpec.v ===== *)
(** Messages end to end: what [generate] makes of a message, [parse_header] and [parse_body]
    of the receiver read back, with its payloads in the order of the exchange. *)

From Stdlib Require Import Strings.String.
From stdpp Require Import gmap strings.
From S2P Require Import Prelude Host Bits Payloads Parser Generator Encoding ParserSpec ParserComplete.
From S2P Require Import GeneratorSpec CodecSpec Verify EncryptedPayload MessageRules Message MessageSafe MessageWire.
#[local] Open Scope Z_scope.

(** * Order *)

(** The payloads of each rule in turn, then those without a rule, the last one first. *)
Fixpoint arrange (os : list payload_order) (ps : list payload) : list payload :=
  match os with
  | [] => reverse ps
  | o :: os =>
      List.filter (order_matches o) ps ++ arrange os (List.filter (fun p => negb (order_matches o p)) ps)
  end.

Definition add_all (ps : list payload) (this : message) : message :=
  fold_left (fun this p => Message.add_payload p this) ps this.

Lemma order_step_filter o ps : forall this,
  order_step o ps this
  = (List.filter (fun p => negb (order_matches o p)) ps, add_all (List.filter (order_matches o) ps) this).
Proof.
  induction ps as [|p ps IH]; intros this; [done|]. cbn [order_step List.filter].
  destruct (order_matches o p); cbn [negb]; rewrite IH; done.
Qed.

Lemma order_payloads_arrange r this :
  order_payloads r this = add_all (arrange (order_list r) (payloads this)) (set_payloads [] this).
Proof.
  unfold order_payloads. generalize (set_payloads [] this). generalize (payloads this).
  induction (order_list r) as [|o os IH]; intros ps m; cbn [order_loop arrange]; [done|].
  rewrite order_step_filter. unfold add_all at 2. rewrite fold_left_app. apply IH.
Qed.

Lemma filter_partition {A} (f : A -> bool) l :
  List.filter f l ++ List.filter (fun x => negb (f x)) l ≡ₚ l.
Proof.
  induction l as [|x l IH]; [done|]. cbn [List.filter]. destruct (f x); cbn [negb].
  - cbn. by rewrite IH.
  - by rewrite <- Permutation_middle, IH.
Qed.

Lemma arrange_permutation os : forall ps, arrange os ps ≡ₚ ps.
Proof.
  induction os as [|o os IH]; intros ps; cbn [arrange]; [by rewrite reverse_Permutation|].
  rewrite IH. apply filter_partition.
Qed.

Lemma map_last_snoc {A} (f : A -> A) l x : map_last f (l ++ [x]) = l ++ [f x].
Proof. unfold map_last. rewrite reverse_snoc. by rewrite reverse_cons, reverse_involutive. Qed.

Lemma map_last_link t t' ps : Forall sendable ps -> 0 <= t < 256 -> 0 <= t' < 256 ->
  map_last (set_next_type t') (link t ps) = link t' ps.
Proof.
  intros Hs Ht Ht'. destruct ps as [|p ps _] using rev_ind; [done|].
  apply Forall_app in Hs as [Hs Hp]. inversion_clear Hp.
  rewrite !link_last, map_last_snoc. by rewrite set_next_type_twice.
Qed.

(** Only the first payload and the list change. *)
Lemma add_all_link ps : forall qs m, Forall sendable qs -> Forall sendable ps ->
  payloads m = link PL_NONE qs ->
  exists f, add_all ps m = set_first_payload f (set_payloads (link PL_NONE (qs ++ ps)) m).
Proof.
  induction ps as [|p ps IH]; intros qs m Hqs Hps Hm; cbn [add_all fold_left].
  { exists (first_payload m). rewrite app_nil_r, <- Hm. by destruct m. }
  inversion_clear Hps as [|? ? Hp Hps'].
  assert (exists f, Message.add_payload p m = set_first_payload f (set_payloads (link PL_NONE (qs ++ [p])) m))
    as [f1 E].
  { destruct (sendable_type p Hp) as [Ht Hb]. unfold Message.add_payload. rewrite link_last, Hm, Ht.
    destruct qs as [|q qs]; cbn [link].
    - exists (type_ p). cbn. rewrite Hm. by destruct m.
    - exists (first_payload m). change (set_next_type (head_type PL_NONE qs) q :: link PL_NONE qs)
        with (link PL_NONE (q :: qs)). rewrite map_last_link by (done || lia). by destruct m. }
  rewrite E. destruct (IH (qs ++ [p]) (set_first_payload f1 (set_payloads (link PL_NONE (qs ++ [p])) m)))
    as [f2 E2]; [by apply Forall_app; split; [|constructor]|done|done|].
  exists f2. unfold add_all in E2. rewrite E2, <- app_assoc. done.
Qed.

(** The payloads in the order they are sent in. *)
Definition sent_order (r : message_rule) (this : message) : list payload :=
  if sort_disabled this then payloads this else arrange (order_list r) (payloads this).

Lemma sent_order_sendable r this : Forall sendable (payloads this) -> Forall sendable (sent_order r this).
Proof.
  intros H. unfold sent_order. case_match; [done|]. by rewrite arrange_permutation.
Qed.

(** * Wrapping *)

(** An encrypted payload of IKEv2 with [ps] in it, not encrypted yet. *)
Record wraps (ps : list payload) (e : payload) : Prop := {
  wraps_kind : class e = C_ENCRYPTED /\ type_ e = PLV2_ENCRYPTED;
  wraps_methods : num "from_plain" e = 0;
  wraps_next : num "next_payload" e = head_type PL_NONE ps;
  wraps_flags : num "flags" e = 0;
  wraps_text : bytes "encrypted" e = [];
  wraps_elements : elements e = link PL_NONE ps;
}.

Lemma update_last_link t t' ps e : Forall sendable ps -> 0 <= t < 256 -> 0 <= t' < 256 ->
  elements e = link t ps -> elements (update_last (set_next_type t') e) = link t' ps.
Proof.
  intros Hs Ht Ht' He. unfold update_last. rewrite He. rewrite <- (map_last_link t t') by done.
  unfold map_last. cbn [set_elements elements]. by destruct (reverse (link t ps)).
Qed.

Lemma num_insert_last k e p : num k (insert_last e p) = num k p.
Proof. done. Qed.
Lemma bytes_insert_last k e p : bytes k (insert_last e p) = bytes k p.
Proof. done. Qed.
Lemma num_update_last k f p : num k (update_last f p) = num k p.
Proof. done. Qed.
Lemma bytes_update_last k f p : bytes k (update_last f p) = bytes k p.
Proof. done. Qed.

Lemma num_set_elements k es p : num k (set_elements es p) = num k p.
Proof. done. Qed.
Lemma bytes_set_elements k es p : bytes k (set_elements es p) = bytes k p.
Proof. done. Qed.

Ltac members :=
  rewrite ?num_set_num, ?num_set_bytes, ?bytes_set_num, ?bytes_set_bytes, ?num_insert_last,
    ?bytes_insert_last, ?num_update_last, ?bytes_update_last, ?num_set_elements,
    ?bytes_set_elements;
  repeat first [rewrite decide_False by done|rewrite decide_True by done].

Lemma add_payload_wraps ps p e : Forall sendable ps -> sendable p -> wraps ps e ->
  wraps (ps ++ [p]) (EncryptedPayload.add_payload None p e).
Proof.
  intros Hs Hp [[K1 K2] M N F T E]. destruct (sendable_type p Hp) as [Ht Hb].
  unfold EncryptedPayload.add_payload, compute_length.
  destruct ps as [|q ps]; rewrite E; cbn [link].
  - split; repeat members; try done; [|cbn; by rewrite E].
    cbn [app head_type]. rewrite Ht. apply (wrap_small 8). change (2 ^ 8) with 256. lia.
  - pose proof (update_last_link PL_NONE (type_ p) (q :: ps) e Hs ltac:(done) ltac:(lia) E) as U.
    rewrite Ht. split; repeat members; try done.
    cbn [set_num insert_last set_elements elements]. rewrite U, link_last. by rewrite Ht.
Qed.

Lemma wrap_loop_wraps r ps : forall qs e m, Forall sendable qs -> Forall sendable ps -> wraps qs e ->
  (forall t, match get_payload_rule r t with Some rule => rule_encrypted rule | None => true end = true) ->
  exists e', wrap_loop r ps e m = (e', m) /\ wraps (qs ++ ps) e'.
Proof.
  induction ps as [|p ps IH]; intros qs e m Hqs Hps He Hr; cbn [wrap_loop].
  { exists e. by rewrite app_nil_r. }
  inversion_clear Hps as [|? ? Hp Hps']. rewrite Hr. cbn [orb].
  destruct (IH (qs ++ [p]) (EncryptedPayload.add_payload None p e) m) as (e' & E & W); try done.
  - by apply Forall_app; split; [|constructor].
  - by apply add_payload_wraps.
  - exists e'. by rewrite E, <- app_assoc in *.
Qed.

Lemma created_wraps : wraps [] (encrypted_payload_create PLV2_ENCRYPTED).
Proof. by split. Qed.

Lemma no_fragments ps : Forall sendable ps -> List.filter (fun p => get_type p =? PLV2_FRAGMENT) ps = [].
Proof.
  induction 1 as [|p ps Hp _ IH]; [done|]. cbn [List.filter].
  destruct (sendable_type p Hp) as [-> _]. by rewrite (proj2 (Z.eqb_neq _ _) (proj2 (sendable_plain p Hp))).
Qed.

Lemma wrap_payloads_wraps r ps m : Forall sendable ps -> payloads m = ps -> is_encrypted m = false ->
  (forall t, match get_payload_rule r t with Some rule => rule_encrypted rule | None => true end = true) ->
  exists e, wrap_payloads r m = (e, set_payloads [] m) /\ wraps ps e.
Proof.
  intros Hs Hm He Hr. unfold wrap_payloads. rewrite Hm, no_fragments, He by done. cbn [last].
  apply (wrap_loop_wraps r ps [] _ (set_payloads [] m)); try done.
Qed.

(** * Encrypting *)

Lemma total_length_link t ps : total_length (link t ps) = total_length ps.
Proof.
  induction ps as [|p ps IH]; [done|]. cbn [link]. rewrite !total_length_cons, IH. f_equal.
  unfold set_next_type. repeat case_match; try done; unfold get_length; cbn [set_num class];
    rewrite ?H; try done; by members.
Qed.

(** The length of an encrypted payload with [ps]. *)
Definition sealed_length (a : aead) (ps : list payload) : Z :=
  total_length ps + compute_overhead a (total_length ps) + 4.

Lemma wraps_length a ps e : wraps ps e -> 0 <= sealed_length a ps < 2 ^ 16 ->
  exists e', encrypted_get_length (Some a) e = (sealed_length a ps, e') /\ wraps ps e' /\
  num "payload_length" e' = sealed_length a ps.
Proof.
  intros [[K1 K2] M N F T E] Hn. unfold encrypted_get_length, compute_length. rewrite T, E.
  cbn [len length Z.of_nat Z.eqb negb]. fold (total_length (link PL_NONE ps)). rewrite total_length_link.
  unfold encrypted_get_header_length. rewrite K2. cbn [Z.eqb Pos.eqb PLV2_ENCRYPTED].
  change (46 =? 46) with true. cbv iota.
  fold (sealed_length a ps). rewrite (wrap_small 16) by done.
  eexists. split; [f_equal; by members|]. split; [|by members].
  split; try members; try done.
Qed.

Lemma generate_wraps heap ps e : wraps ps e -> Forall sendable ps -> formats_ordered ps = true ->
  exists plain e' g, EncryptedPayload.generate heap e (generator_create heap) = Ok (plain, e', g) /\
  of_bytes plain = encode_all (link PL_NONE ps) /\ bytes_ok plain /\ wraps ps e'.
Proof.
  intros W Hs Hf. pose proof W as [[K1 K2] M N F T E]. unfold EncryptedPayload.generate. rewrite E.
  destruct ps as [|p ps]; [exists [], e, (generator_create heap); done|]. cbn [link].
  rewrite generate_loop_link. change (set_next_type (head_type PL_NONE ps) p :: link PL_NONE ps)
    with (link PL_NONE (p :: ps)). rewrite link_twice by done.
  pose proof (link_sendable PL_NONE (p :: ps) ltac:(done) Hs) as Hl.
  destruct (generate_all_writes heap (link PL_NONE (p :: ps)) (generator_create heap))
    as (g & Eg & Cg & Og); [apply created_at| |by rewrite link_flags|by left|].
  { apply forallb_forall. intros q Hq%list_elem_of_In. rewrite Forall_forall in Hl. by apply Hl. }
  rewrite Eg. cbn [bind]. destruct (chunk_output g Cg) as [Hb Hok].
  do 3 eexists. split; [done|]. split_and!; [by rewrite Hb, Og, created_output|done|].
  inversion_clear Hs as [|? ? Hp Hps]. destruct (sendable_type p Hp) as [Ht Hb'].
  split; repeat members; try done. rewrite get_type_set. cbn [head_type]. rewrite Ht. apply (wrap_small 8).
  change (2 ^ 8) with 256. lia.
Qed.

(** What is on the wire of an encrypted payload. *)
Record sealed (next n : Z) (encrypted : chunk) (e : payload) : Prop := {
  sealed_kind : class e = C_ENCRYPTED /\ type_ e = PLV2_ENCRYPTED;
  sealed_next : num "next_payload" e = next;
  sealed_flags : num "flags" e = 0;
  sealed_size : num "payload_length" e = n;
  sealed_text : bytes "encrypted" e = encrypted;
}.

Definition sealed_assoc (assoc : chunk) (next n : Z) : chunk := assoc ++ next :: 0 :: be_bytes 2 n.

(** The transform has what it needs and does not fail. *)
Definition seals (a : aead) : Prop :=
  forall mid plain assoc, exists encrypted, encrypt_content a mid plain assoc = (SUCCESS, encrypted).

Lemma encrypt_wraps heap a mid assoc ps e : seals a -> wraps ps e -> Forall sendable ps ->
  formats_ordered ps = true -> 0 <= sealed_length a ps < 2 ^ 16 ->
  exists plain encrypted e', EncryptedPayload.encrypt heap (Some a) mid assoc e = Ok (SUCCESS, e') /\
  of_bytes plain = encode_all (link PL_NONE ps) /\ bytes_ok plain /\
  encrypt_content a (u64 (Z.shiftl mid 32)) plain
    (sealed_assoc assoc (head_type PL_NONE ps) (sealed_length a ps)) = (SUCCESS, encrypted) /\
  sealed (head_type PL_NONE ps) (sealed_length a ps) encrypted e'.
Proof.
  intros Ha W Hs Hf Hn. unfold encrypt.
  destruct (generate_wraps heap ps e W Hs Hf) as (plain & e1 & g & -> & Hb & Ho & W1). cbn [bind].
  unfold append_header.
  destruct (wraps_length a ps e1 W1 Hn) as (e2 & -> & W2 & L2).
  rewrite (wraps_next _ _ W1), (wraps_flags _ _ W1).
  fold (sealed_assoc assoc (head_type PL_NONE ps) (sealed_length a ps)).
  destruct (Ha (u64 (Z.shiftl mid 32)) plain
    (sealed_assoc assoc (head_type PL_NONE ps) (sealed_length a ps))) as [encrypted Ec].
  rewrite Ec. cbv beta iota.
  do 3 eexists. split; [done|]. split_and!; try done.
  rewrite decide_True by done. destruct W2 as [[K1 K2] M N F T E].
  split; try members; try done.
Qed.

(** * The encrypted payload on the wire *)

Definition sealed_bits (next n : Z) (encrypted : chunk) : list bool :=
  bits 8 next ++ bits 8 0 ++ bits 16 n ++ of_bytes encrypted.

Lemma sealed_rules next n encrypted e : sealed next n encrypted e ->
  rules_bits [] e (get_encoding_rules e) = sealed_bits next n encrypted.
Proof.
  intros [[K1 K2] N F L T]. unfold get_encoding_rules, rules_bits. rewrite K1, K2.
  cbn [rules_of Z.eqb Pos.eqb PLV2_ENCRYPTED]. change (46 =? 46) with true. cbv iota.
  cbn [encrypted_encodings_v2 mbind list_bind rule_bits rule_type offset].
  by rewrite N, F, L, T, app_nil_r.
Qed.

Lemma generate_sealed heap next n encrypted e g : sealed next n encrypted e -> at_cursor (At 0) g ->
  exists g', Generator.generate heap e g = Ok g' /\ at_cursor (At 0) g' /\
  output g' = output g ++ sealed_bits next n encrypted /\
  header_length_offset g' = header_length_offset g.
Proof.
  intros Hs Hc. pose proof (sealed_rules _ _ _ _ Hs) as Hr. destruct Hs as [[K1 K2] N F L T].
  assert (existsb is_list_rule (get_encoding_rules e) = false) as Hl.
  { unfold get_encoding_rules. rewrite K1, K2. reflexivity. }
  destruct (generate_no_list heap 3 e g Hl) as (g' & E & C & O); [|done|].
  { unfold is_v2_attribute. by rewrite K1. }
  exists g'. split_and!; [done|done|by rewrite O, Hr|].
  pose proof (generate_payload_places heap _ 4 e g eq_refl) as P.
  unfold Generator.generate in *. rewrite E in P. apply P; [by rewrite K1|by rewrite Hl].
Qed.

(** The payload the receiver parses. *)
Definition opened (next n : Z) (encrypted : chunk) : payload :=
  set_bytes "encrypted" encrypted
    (set_num "payload_length" n (set_num "next_payload" next (encrypted_payload_create PLV2_ENCRYPTED))).

Lemma opened_sealed next n encrypted : sealed next n encrypted (opened next n encrypted).
Proof. unfold opened. by split; repeat members. Qed.

Lemma opened_formed next n encrypted : 0 <= next < 256 -> n = len encrypted + 4 -> 0 <= n < 2 ^ 16 ->
  bytes_ok encrypted -> well_formed (opened next n encrypted) = true.
Proof.
  intros Hx Hn Hb Ho. pose proof (opened_sealed next n encrypted) as [_ N F L T].
  assert (well_formed (opened next n encrypted)
    = forallb (rule_ok (opened next n encrypted)) encrypted_encodings_v2
      && as_created (opened next n encrypted) && true) as -> by done.
  assert (as_created (opened next n encrypted) = true) as ->.
  { unfold opened. apply as_created_set_bytes; [apply list_elem_of_In; vm_compute; tauto|].
    do 2 (apply as_created_set_num; [apply list_elem_of_In; vm_compute; tauto|]). reflexivity. }
  assert (octets encrypted = true) as Hoct.
  { unfold octets, fits. apply forallb_forall. intros b Hi%list_elem_of_In. rewrite Forall_forall in Ho.
    specialize (Ho b Hi). unfold byte_ok in Ho. rewrite andb_true_iff, Z.leb_le, Z.ltb_lt. lia. }
  cbn [encrypted_encodings_v2 forallb]. unfold rule_ok. cbn [rule_type offset].
  rewrite N, F, L, T, Hoct. unfold fits.
  assert (body_bits (encode_all (elements (opened next n encrypted))) (opened next n encrypted)
          = of_bytes encrypted ++ []) as ->.
  { unfold body_bits. change (get_encoding_rules (opened next n encrypted)) with encrypted_encodings_v2.
    cbn [encrypted_encodings_v2 mbind list_bind body_rule rule_bits rule_type offset app]. by rewrite T. }
  change (get_header_length (opened next n encrypted)) with 4.
  rewrite app_nil_r, length_of_bytes. unfold len in *.
  repeat rewrite (proj2 (andb_true_iff _ _)); try done;
    rewrite ?Z.leb_le, ?Z.ltb_lt, ?Z.eqb_eq; try lia.
Qed.

Lemma parse_sealed next n encrypted p rest : 0 <= next < 256 -> n = len encrypted + 4 ->
  0 <= n < 2 ^ 16 -> bytes_ok encrypted -> valid p -> bit_pos p = 0 -> Parser.major_version p = 2 ->
  remaining p = sealed_bits next n encrypted ++ rest ->
  exists p', Parser.parse PLV2_ENCRYPTED p = Ok (opened next n encrypted, p').
Proof.
  intros Hx Hn Hb Ho Hv Hp Hm Hr. pose proof (opened_formed _ _ _ Hx Hn Hb Ho) as Hw.
  assert (encode (opened next n encrypted) = sealed_bits next n encrypted) as He.
  { rewrite encode_unfold. apply sealed_rules, opened_sealed. }
  destruct (parse_payload_encode 4 (opened next n encrypted) p rest) as (p' & E & _); try done.
  - apply rank_le.
  - unfold known_as. rewrite Hm. reflexivity.
  - by rewrite He.
  - by exists p'.
Qed.

(** * The sender *)

Lemma set_num_set_num m v w p : set_num m v (set_num m w p) = set_num m v p.
Proof.
  unfold set_num; cbn [class type_ nums chunks elements]. f_equal. apply map_eq. intros k.
  rewrite !lookup_store. by repeat case_decide.
Qed.

Lemma set_num_same m v p : num m p = v -> v <> 0 -> set_num m v p = p.
Proof.
  intros Hm Hv. unfold set_num, num in *. destruct p as [c t ns cs es]. cbn in *. f_equal.
  apply map_eq. intros k. rewrite lookup_store. repeat case_decide; subst; try done.
  by destruct (ns !! m); cbn in *; subst.
Qed.

Lemma sent_header_start id this t : outgoing id this -> 0 <= t < 256 ->
  set_next_type t (create_header id this) = sent_header id this t 28.
Proof.
  intros [[V1 V2] _ _ _ _] Ht. unfold sent_header. symmetry. apply set_num_same; [|done].
  unfold create_header, ike_header_create_version. rewrite V1.
  cbn [Z.eqb Pos.eqb IKEV2_MAJOR_VERSION]. unfold set_next_type.
  cbn [class set_num set_bytes ike_header_create zeroed]. repeat header_members. done.
Qed.

Lemma sent_header_again id this t n v :
  set_num "length" v (sent_header id this t n) = sent_header id this t v.
Proof. apply set_num_set_num. Qed.

Lemma generate_head heap id this t : outgoing id this -> 0 <= t < 256 -> payloads this = [] ->
  exists g, generate_parts heap id t this = Ok (this, g) /\ at_cursor (At 0) g /\
  output g = encode (sent_header id this t 28) /\ header_length_offset g = 24.
Proof.
  intros Ho Ht Hp. destruct (sent_header_ok id this t 28 Ho Ht ltac:(lia)) as [Hh _].
  destruct (header_generated heap _ Hh) as (g & E & C & O & L & _).
  exists g. split_and!; try done. unfold generate_parts. rewrite Hp. cbn [generate_loop].
  rewrite sent_header_start by done. rewrite E. cbn [bind app tail].
  f_equal. f_equal. rewrite <- Hp. by destruct this.
Qed.

Lemma sealed_bits_length next n c : Z.of_nat (length (sealed_bits next n c)) = 32 + 8 * len c.
Proof.
  unfold sealed_bits. rewrite !length_app, !length_bits, length_of_bytes. unfold len. lia.
Qed.

Lemma header_bits_length h : header h -> length (encode h) = 224%nat.
Proof. intros Hh. destruct (header_encode h Hh) as [-> E]. by rewrite length_app, E, length_bits. Qed.

Lemma sent_header_length id this t n : outgoing id this -> 0 <= t < 256 ->
  length (encode (sent_header id this t n)) = 224%nat.
Proof.
  intros Ho Ht. rewrite <- (sent_header_again id this t 28 n).
  destruct (sent_header_ok id this t 28 Ho Ht ltac:(lia)) as [Hh _].
  rewrite header_encode_length, length_app, length_bits by done.
  by destruct (header_encode _ Hh) as [_ ->].
Qed.

(** The payload [e] of length [n] is encrypted with associated data such that [sealing] holds
    of them and of the bits of the payload. *)
Definition seals_as (heap : Z -> Z) (a : aead) (mid n : Z) (e : payload) (sealing : chunk -> list bool -> Prop)
    : Prop :=
  exists e1, encrypted_method_get_length (Some a) e = (n, e1) /\ forall assoc, bytes_ok assoc ->
  exists e2 body, encrypted_method_encrypt heap (Some a) mid assoc e1 = Ok (SUCCESS, e2) /\
  sealing assoc body /\ (8 | Z.of_nat (length body)) /\
  forall g, at_cursor (At 0) g -> exists g', Generator.generate heap e2 g = Ok g' /\
  at_cursor (At 0) g' /\ output g' = output g ++ body /\ header_length_offset g' = header_length_offset g.

(** The datagram of a message, of its header and a sealed payload. *)
Definition datagram_with (id : ike_sa_id) (this : message) (t n : Z) (sealing : chunk -> list bool -> Prop)
    (data : chunk) : Prop :=
  bytes_ok data /\ exists assoc body, bytes_ok assoc /\
  of_bytes assoc = encode (sent_header id this t (28 + n)) /\ sealing assoc body /\
  of_bytes data = encode (sent_header id this t (len data)) ++ body /\
  8 * len data = 224 + Z.of_nat (length body).

Lemma finalize_sealed heap k id this a e g t n sealing : outgoing id this -> 0 <= t < 256 ->
  is_encrypted this = false -> 0 <= n < 2 ^ 16 -> seals_as heap a (message_id this) n e sealing ->
  at_cursor (At 0) g -> header_length_offset g = 24 -> output g = encode (sent_header id this t 28) ->
  exists e' data, finalize_message heap k (this, g, Some (e, a))
    = Ok (SUCCESS, set_packet_data data (set_payloads (payloads this ++ [e']) this)) /\
  datagram_with id this t n sealing data.
Proof.
  intros Ho Ht He Hn (e1 & El & Hs) Cg Lg Og. unfold finalize_message. rewrite He, El.
  assert (len (fst (get_chunk g)) = 28) as ->.
  { destruct (chunk_output g Cg) as [E _]. apply (f_equal length) in E.
    rewrite length_of_bytes, Og, sent_header_length in E by done. unfold len. lia. }
  destruct (sent_header_ok id this t 28 Ho Ht ltac:(lia)) as [Hh0 _].
  destruct (fill_length_header (sent_header id this t 28) g [] (28 + n))
    as (g1 & -> & C1 & L1 & O1 & _); try done; [by rewrite app_nil_r|].
  rewrite sent_header_again, app_nil_r in O1. cbn [bind].
  destruct (chunk_output g1 C1) as [Ha1 Ha2]. set (assoc := fst (get_chunk g1)) in *.
  destruct (Hs assoc Ha2) as (e2 & body & -> & Hseal & Hd & Hg). cbn [bind]. rewrite decide_True by done.
  destruct (Hg g1 C1) as (g2 & -> & C2 & O2 & L2). cbn [bind].
  rewrite O1 in O2. destruct (chunk_output g2 C2) as [Hd1 _].
  destruct (sent_header_ok id this t (28 + n) Ho Ht ltac:(lia)) as [Hh1 _].
  unfold finish. set (v := len (fst (get_chunk g2))).
  destruct (fill_length_header (sent_header id this t (28 + n)) g2 body v)
    as (g3 & -> & C3 & L3 & O3 & _); try done; [congruence|].
  cbn [bind]. rewrite sent_header_again in O3. destruct (chunk_output g3 C3) as [Hf1 Hf2].
  assert (8 * len (fst (get_chunk g3)) = 224 + Z.of_nat (length body)) as Hl3.
  { pose proof (f_equal length Hf1) as Hx.
    rewrite length_of_bytes, O3, length_app, sent_header_length in Hx by done. unfold len. lia. }
  assert (8 * v = 224 + Z.of_nat (length body)) as Hv.
  { pose proof (f_equal length Hd1) as Hx.
    rewrite length_of_bytes, O2, length_app, sent_header_length in Hx by done.
    subst v. unfold len. lia. }
  exists e2, (fst (get_chunk g3)).
  split; [cbn [set_packet_data set_packet set_payloads is_encrypted]; by rewrite He|].
  split; [exact Hf2|]. exists assoc, body. split; [exact Ha2|]. split; [congruence|].
  split; [exact Hseal|]. split; [|exact Hl3].
  assert (len (fst (get_chunk g3)) = v) as -> by lia. rewrite Hf1. exact O3.
Qed.

(** The text of [qs] is sealed. *)
Definition sealing_of (a : aead) (mid : Z) (qs : list payload) (assoc : chunk) (body : list bool) : Prop :=
  exists plain encrypted, of_bytes plain = encode_all (link PL_NONE qs) /\ bytes_ok plain /\
  encrypt_content a (u64 (Z.shiftl mid 32)) plain
    (sealed_assoc assoc (head_type PL_NONE qs) (sealed_length a qs)) = (SUCCESS, encrypted) /\
  body = sealed_bits (head_type PL_NONE qs) (sealed_length a qs) encrypted.

Lemma wraps_seals heap a mid qs e : seals a -> wraps qs e -> Forall sendable qs ->
  formats_ordered qs = true -> 0 <= sealed_length a qs < 2 ^ 16 ->
  seals_as heap a mid (sealed_length a qs) e (sealing_of a mid qs).
Proof.
  intros Ha W Hs Hf Hn. destruct (wraps_length a qs e W Hn) as (e1 & El & W1 & L1).
  pose proof W as [[K1 K2] M _ _ _ _]. pose proof W1 as [[K11 K12] M1 _ _ _ _].
  exists e1. split; [unfold encrypted_method_get_length; by rewrite K1, M|]. intros assoc Hassoc.
  unfold encrypted_method_encrypt. rewrite K11, K12. change (PLV2_ENCRYPTED =? PLV1_ENCRYPTED) with false.
  cbv iota.
  destruct (encrypt_wraps heap a mid assoc qs e1 Ha W1 Hs Hf Hn)
    as (plain & encrypted & e2 & -> & Hp1 & Hp2 & Ec & S2).
  exists e2, (sealed_bits (head_type PL_NONE qs) (sealed_length a qs) encrypted). split; [done|].
  split; [by exists plain, encrypted|]. split.
  - rewrite sealed_bits_length. exists (4 + len encrypted). lia.
  - intros g Hg. by apply generate_sealed.
Qed.

Lemma total_length_permutation ps qs : ps ≡ₚ qs -> total_length ps = total_length qs.
Proof. induction 1; rewrite ?total_length_cons in *; lia. Qed.

Lemma order_payloads_rule r x this : order_payloads r (set_rule x this) = set_rule x (order_payloads r this).
Proof.
  rewrite !order_payloads_arrange. cbn [set_rule payloads].
  generalize (arrange (order_list r) (payloads this)). intros ps.
  change (set_payloads [] (set_rule x this)) with (set_rule x (set_payloads [] this)).
  generalize (set_payloads [] this). induction ps as [|p ps IH]; intros m; cbn [add_all fold_left]; [done|].
  unfold add_all in IH. rewrite <- IH. f_equal. unfold Message.add_payload. cbn [set_rule payloads].
  by destruct (payloads m).
Qed.

(** The order of [generate_message]. *)
Definition ordered (r : message_rule) (this : message) : message :=
  if sort_disabled this then this else order_payloads r this.

Lemma ordered_payloads r this : Forall sendable (payloads this) ->
  exists f qs, ordered r this = set_first_payload f (set_payloads qs this) /\
  Forall sendable qs /\ link PL_NONE qs = link PL_NONE (sent_order r this) /\
  formats_ordered qs = formats_ordered (sent_order r this) /\
  head_type PL_NONE qs = head_type PL_NONE (sent_order r this) /\
  total_length qs = total_length (payloads this).
Proof.
  intros Hs. pose proof (sent_order_sendable r this Hs) as Ho. unfold ordered, sent_order in *.
  destruct (sort_disabled this).
  - exists (first_payload this), (payloads this). split; [by destruct this|]. done.
  - rewrite order_payloads_arrange.
    destruct (add_all_link (arrange (order_list r) (payloads this)) [] (set_payloads [] this))
      as (f & E); try done.
    exists f, (link PL_NONE (arrange (order_list r) (payloads this))). rewrite E. split; [done|].
    split; [by apply link_sendable|]. split; [by apply link_twice|]. split; [apply link_flags|].
    split; [apply head_type_link|]. rewrite total_length_link. apply total_length_permutation.
    apply arrange_permutation.
Qed.

(** * Protected exchanges *)

(** A message of an exchange that is encrypted, with all that [generate] needs but payloads. *)
Record ready (id : ike_sa_id) (r : message_rule) (this : message) : Prop := {
  ready_out : outgoing id this;
  ready_id : sa_id this = Some id;
  ready_type : protected_exchange (exchange_type this) = true;
  ready_rule : get_message_rule this = Some r;
  ready_clear : is_encrypted this = false;
  ready_ends : is_Some (source (message_packet this)) /\ is_Some (destination (message_packet this));
}.

(** With the payloads. *)
Record protected (id : ike_sa_id) (r : message_rule) (a : aead) (this : message) : Prop := {
  protected_ready : ready id r this;
  protected_payloads : Forall sendable (payloads this);
  protected_formats : formats_ordered (sent_order r this) = true;
  protected_size : 0 <= sealed_length a (payloads this) < 2 ^ 16;
}.

(** The datagram of it. *)
Definition datagram_of (id : ike_sa_id) (r : message_rule) (a : aead) (this : message) (data : chunk)
    : Prop :=
  datagram_with id this PLV2_ENCRYPTED (sealed_length a (payloads this))
    (sealing_of a (message_id this) (sent_order r this)) data.

Lemma protected_encrypts t (m : message) r : get_message_rule m = Some r ->
  protected_exchange (exchange_type m) = true ->
  encrypted r = true /\
  match get_payload_rule r t with Some rule => rule_encrypted rule | None => true end = true.
Proof.
  intros Hr Hp. unfold get_message_rule in Hr. apply List.find_some in Hr as [Hin E].
  apply andb_true_iff in E as [E _]. apply Z.eqb_eq in E. rewrite E in Hp. split.
  - assert (forallb (fun r => negb (protected_exchange (rule_exchange_type r)) || encrypted r)
              message_rules = true) as H by reflexivity.
    rewrite forallb_forall in H. specialize (H r Hin). by rewrite Hp in H.
  - pose proof (protected_rules r (proj2 (list_elem_of_In _ _) Hin) Hp) as H.
    destruct (get_payload_rule r t) as [x|] eqn:Ex; [|done].
    apply List.find_some in Ex as [Ex _]. rewrite forallb_forall in H. auto.
Qed.

Lemma sent_order_length r this : total_length (sent_order r this) = total_length (payloads this).
Proof.
  apply total_length_permutation. unfold sent_order. case_match; [done|]. apply arrange_permutation.
Qed.

Lemma sealed_length_same a ps qs : total_length ps = total_length qs ->
  sealed_length a ps = sealed_length a qs.
Proof. intros H. unfold sealed_length. by rewrite H. Qed.

(** What is left of the message when its payloads were taken out to be encrypted. *)
Definition taken (f : Z) (r : message_rule) (this : message) : message :=
  set_first_payload f (set_payloads [] (set_rule (Some r) this)).

Lemma generate_message_ready heap k id r a this f qs e : ready id r this ->
  get_version k <> IKEV1 -> get_aead k false = Some a ->
  ordered r this = set_first_payload f (set_payloads qs this) ->
  wrap_payloads r (set_first_payload f (set_payloads qs (set_rule (Some r) this))) = (e, taken f r this) ->
  0 <= get_type e < 256 ->
  exists g, generate_message heap (Some k) this = Ok (SUCCESS, (taken f r this, g, Some (e, a))) /\
  at_cursor (At 0) g /\ output g = encode (sent_header id this (get_type e) 28) /\
  header_length_offset g = 24.
Proof.
  intros [Ho Hid Hx Hr He [[s Hsrc] [d Hdst]]] Hk Hka Eo Ew Ht. unfold generate_message.
  destruct (exchange_type this =? EXCHANGE_TYPE_UNDEFINED) eqn:E0.
  { apply Z.eqb_eq in E0. by rewrite E0 in Hx. }
  rewrite Hsrc, Hdst. cbn [set_rule rule]. rewrite Hr.
  set (this1 := set_rule (Some r) this).
  assert ((if sort_disabled this1 then this1 else order_payloads r this1)
          = set_first_payload f (set_payloads qs this1)) as ->.
  { transitivity (set_rule (Some r) (ordered r this)); [|by rewrite Eo].
    subst this1. rewrite order_payloads_rule. unfold ordered. change (sort_disabled (set_rule (Some r) this))
      with (sort_disabled this). by destruct (sort_disabled this). }
  fold this1 in Ew. set (this2 := set_first_payload f (set_payloads qs this1)) in *.
  unfold insert_hash. rewrite (proj2 (Z.eqb_neq _ _) Hk).
  unfold encrypting. destruct (out_version _ _ Ho) as [Hv _].
  assert (major_version this2 = 2) as -> by done. cbn [Z.eqb Pos.eqb IKEV2_MAJOR_VERSION].
  destruct (protected_encrypts 0 this r Hr Hx) as [-> _]. rewrite Hka, Ew. unfold generate_with.
  assert (sa_id (taken f r this) = Some id) as -> by done.
  unfold next_type. assert (is_encrypted (taken f r this) = false) as -> by done.
  assert (outgoing id (taken f r this)) as Ho3 by (destruct Ho; by split).
  destruct (generate_head heap id (taken f r this) (get_type e) Ho3 Ht eq_refl) as (g & -> & Cg & Og & Lg).
  exists g. by split_and!.
Qed.

(** The message that [generate_message] leaves, to be encrypted or split. *)
Record unfinished (id : ike_sa_id) (r : message_rule) (a : aead) (this : message)
    (qs : list payload) (e : payload) (g : generator) : Prop := {
  unfinished_wraps : wraps qs e;
  unfinished_payloads : Forall sendable qs /\ formats_ordered qs = true;
  unfinished_link : link PL_NONE qs = link PL_NONE (sent_order r this) /\
    head_type PL_NONE qs = head_type PL_NONE (sent_order r this);
  unfinished_length : total_length qs = total_length (payloads this);
  unfinished_cursor : at_cursor (At 0) g;
  unfinished_output : output g = encode (sent_header id this PLV2_ENCRYPTED 28);
  unfinished_offset : header_length_offset g = 24;
}.

Lemma generate_message_protected heap k id r a this : protected id r a this ->
  get_version k <> IKEV1 -> get_aead k false = Some a ->
  exists f qs e g, generate_message heap (Some k) this = Ok (SUCCESS, (taken f r this, g, Some (e, a))) /\
  unfinished id r a this qs e g.
Proof.
  intros [Hr Hs Hf Hn] Hk Hka.
  destruct (ordered_payloads r this Hs) as (f & qs & Eo & Hq & Elink & Ef & Eh & El).
  destruct (wrap_payloads_wraps r qs (set_first_payload f (set_payloads qs (set_rule (Some r) this))))
    as (e & Ew & W); try done.
  { apply Hr. }
  { intros t. eapply protected_encrypts; apply Hr. }
  pose proof W as [[K1 K2] _ _ _ _ _].
  assert (get_type e = PLV2_ENCRYPTED) as Et by (unfold get_type; by rewrite K1, K2).
  destruct (generate_message_ready heap k id r a this f qs e Hr Hk Hka Eo Ew) as (g & E & Cg & Og & Lg).
  { by rewrite Et. }
  rewrite Et in Og. exists f, qs, e, g. split; [exact E|]. split; try done. split; congruence.
Qed.

Lemma finalize_protected heap k id r a this f qs e g : protected id r a this -> seals a ->
  unfinished id r a this qs e g ->
  exists sent, finalize_message heap k (taken f r this, g, Some (e, a)) = Ok (SUCCESS, sent) /\
  datagram_of id r a this (packet_data (message_packet sent)).
Proof.
  intros [Hr Hs Hf Hn] Ha [W [Hq Hqf] [E1 E2] El Cg Og Lg].
  pose proof (sealed_length_same a _ _ El) as Esl.
  pose proof (wraps_seals heap a (message_id this) qs e Ha W Hq Hqf ltac:(by rewrite Esl)) as Hseal.
  destruct (finalize_sealed heap k id (taken f r this) a e g PLV2_ENCRYPTED (sealed_length a qs)
    (sealing_of a (message_id this) qs)) as (e' & data & -> & Hd & assoc & body & H1 & H2 & H3 & H4 & H5);
    try done; [destruct Hr as [[] _ _ _ _ _]; by split|apply Hr|by rewrite Esl|].
  eexists. split; [done|]. split; [exact Hd|]. exists assoc, body.
  split; [exact H1|]. split; [rewrite <- Esl; exact H2|]. split; [|split; [exact H4|exact H5]].
  destruct H3 as (plain & encrypted & X1 & X2 & X3 & X4). rewrite E1 in X1. rewrite E2, Esl in X3, X4.
  exists plain, encrypted. unfold sealed_length in *. by rewrite sent_order_length.
Qed.

Lemma generate_protected heap k id r a this : protected id r a this -> seals a ->
  get_version k <> IKEV1 -> get_aead k false = Some a ->
  exists sent, Message.generate heap (Some k) this = Ok (SUCCESS, sent) /\
  datagram_of id r a this (packet_data (message_packet sent)).
Proof.
  intros Hp Ha Hk Hka.
  destruct (generate_message_protected heap k id r a this Hp Hk Hka) as (f & qs & e & g & E & U).
  unfold Message.generate. rewrite E. cbn [bind]. rewrite decide_True by done.
  by eapply finalize_protected.
Qed.

(** * The receiver *)

Lemma extract_link ps : forall qs m, Forall sendable qs -> Forall sendable ps ->
  payloads m = link (head_type PL_NONE ps) qs ->
  exists f, extract (link PL_NONE ps) m = set_first_payload f (set_payloads (link PL_NONE (qs ++ ps)) m).
Proof.
  induction ps as [|p ps IH]; intros qs m Hqs Hps Hm; cbn [link extract head_type] in *.
  { exists (first_payload m). rewrite app_nil_r, <- Hm. by destruct m. }
  inversion_clear Hps as [|? ? Hp Hps']. rewrite get_type_set.
  destruct (sendable_type p Hp) as [Ht Hb].
  assert (exists f, match payloads m with
     | [] => set_first_payload (get_type p) m
     | qs => set_payloads (map_last (set_next_type (get_type p)) qs) m end
     = set_first_payload f (set_payloads (link (get_type p) qs) m)) as (f & ->).
  { destruct qs as [|q qs]; cbn [link] in Hm; rewrite Hm.
    - exists (get_type p). cbn [link]. rewrite <- Hm. by destruct m.
    - exists (first_payload m).
      change (set_next_type (head_type (get_type p) qs) q :: link (get_type p) qs)
        with (link (get_type p) (q :: qs)). rewrite map_last_link by (done || lia). by destruct m. }
  cbn [set_first_payload set_payloads payloads].
  destruct (IH (qs ++ [p]) (set_first_payload f (set_payloads (link (head_type PL_NONE ps) (qs ++ [p])) m)))
    as (f2 & E2); [by apply Forall_app; split; [|constructor]|done|done|].
  exists f2. rewrite link_last in E2. rewrite <- app_assoc in E2. exact E2.
Qed.

Lemma count_type_types t ps : count_type t ps
  = Z.of_nat (length (List.filter (fun x => x =? t) (get_type <$> ps))).
Proof.
  unfold count_type. f_equal. induction ps as [|p ps IH]; [done|]. cbn. destruct (get_type p =? t); cbn; congruence.
Qed.

Lemma count_type_permutation t ps qs : (get_type <$> ps) ≡ₚ (get_type <$> qs) ->
  count_type t ps = count_type t qs.
Proof.
  intros H. rewrite !count_type_types. f_equal. induction H; cbn; repeat case_match; cbn; congruence.
Qed.

Lemma verify_loop_permutation ps qs : (get_type <$> ps) ≡ₚ (get_type <$> qs) ->
  forall rules complete, verify_loop rules complete ps = verify_loop rules complete qs.
Proof.
  intros H. induction rules as [|rule rules IH]; intros c; cbn [verify_loop]; [done|].
  by rewrite (count_type_permutation _ _ _ H), IH.
Qed.

Lemma verify_sent r this m : payloads m = link PL_NONE (sent_order r this) ->
  verify_message r m = verify_message r this.
Proof.
  intros Hm. apply verify_loop_permutation. rewrite Hm, link_types. apply fmap_Permutation.
  unfold sent_order. case_match; [done|]. apply arrange_permutation.
Qed.

Lemma opened_members next n encrypted :
  class (opened next n encrypted) = C_ENCRYPTED /\ type_ (opened next n encrypted) = PLV2_ENCRYPTED /\
  elements (opened next n encrypted) = [] /\ num "from_plain" (opened next n encrypted) = 0.
Proof.
  unfold opened. split_and!; try done.
  by repeat members.
Qed.

Lemma opened_length next n encrypted transform : n = len encrypted + 4 -> 0 < len encrypted ->
  n < 2 ^ 16 -> encrypted_get_length transform (opened next n encrypted) = (n, opened next n encrypted).
Proof.
  intros -> Hp Hn. destruct (opened_members next (len encrypted + 4) encrypted) as (_ & Ht & _).
  destruct (opened_sealed next (len encrypted + 4) encrypted) as [_ _ _ L T].
  unfold encrypted_get_length, compute_length. rewrite T, (proj2 (Z.eqb_neq _ _)) by lia. cbn [negb].
  unfold encrypted_get_header_length. rewrite Ht. cbn [Z.eqb Pos.eqb PLV2_ENCRYPTED].
  change (46 =? 46) with true. cbv iota. rewrite (wrap_small 16) by lia.
  rewrite (set_num_same _ _ _ L) by lia. by rewrite L.
Qed.

Lemma decrypt_opened a a' mid assoc plain qs n encrypted : opens a a' ->
  Forall sendable qs -> of_bytes plain = encode_all (link PL_NONE qs) -> bytes_ok plain ->
  encrypt_content a mid plain (sealed_assoc assoc (head_type PL_NONE qs) n) = (SUCCESS, encrypted) ->
  n = len encrypted + 4 -> 0 < len encrypted -> n < 2 ^ 16 ->
  exists e, encrypted_method_decrypt (Some a') assoc (opened (head_type PL_NONE qs) n encrypted)
    = Ok (SUCCESS, e) /\ elements e = link PL_NONE qs.
Proof.
  intros Hop Hq Hp1 Hp2 Ec Hn Hl Hl2.
  destruct (opened_members (head_type PL_NONE qs) n encrypted) as (K1 & K2 & K3 & K4).
  destruct (opened_sealed (head_type PL_NONE qs) n encrypted) as [_ N F L T].
  unfold encrypted_method_decrypt. rewrite K1, K2, K4.
  change (PLV2_ENCRYPTED =? PLV1_ENCRYPTED) with false. cbn [Z.eqb]. unfold decrypt, append_header.
  rewrite opened_length by done. rewrite N, F, T.
  fold (sealed_assoc assoc (head_type PL_NONE qs) n).
  destruct (content_roundtrip a a' mid plain _ encrypted Hop Hp2 Ec) as (_ & _ & encrypted' & ->).
  cbn [bind]. eexists. split.
  - apply encrypted_parse; done.
  - cbn [set_elements elements set_bytes]. by rewrite K3.
Qed.

(** What the receiver has of it. *)
Definition accepted (r : message_rule) (this body : message) : Prop :=
  exchange_type body = exchange_type this /\ is_request body = is_request this /\
  message_id body = message_id this /\ major_version body = 2 /\
  payloads body = link PL_NONE (sent_order r this).

Lemma get_message_rule_ext (m m' : message) : exchange_type m = exchange_type m' ->
  is_request m = is_request m' -> get_message_rule m = get_message_rule m'.
Proof. intros E1 E2. unfold get_message_rule. by rewrite E1, E2. Qed.

Lemma parse_protected accept k' id r a a' this data src dst : protected id r a this ->
  opens a a' -> get_version k' <> IKEV1 -> get_aead k' true = Some a' ->
  verify_message r this = true -> datagram_of id r a this data ->
  exists head body, parse_header (message_create_from_packet (Packet src dst data)) = Ok (SUCCESS, head) /\
  parse_body accept (Some k') head = Ok (SUCCESS, body) /\ accepted r this body /\
  sa_id body = Some (IkeSaId 2 (initiator_spi id) (responder_spi id) (is_initiator_flag id)).
Proof.
  intros [[Ho Hid Hx Hr He _] Hs Hf Hn] Hop Hk Hka Hver [Hd (assoc & body & Has2 & Has1 & Hb & Hdata & Hlen)].
  destruct Hb as (plain & encrypted & Hp1 & Hp2 & Ec & ->). pose proof (sent_order_length r this) as Hqs.
  rewrite (sealed_length_same a _ _ Hqs) in Ec, Hdata, Hlen. rewrite sealed_bits_length in Hlen.
  set (qs := sent_order r this) in *. set (n := sealed_length a (payloads this)) in *.
  pose proof (sent_order_sendable r this Hs) as Hq. fold qs in Hq.
  destruct (content_roundtrip a a' _ plain _ encrypted Hop Hp2 Ec) as (Hl & Hoe & _).
  pose proof (plain_length plain _ (link_sendable PL_NONE qs ltac:(done) Hq) Hp1) as Hpl.
  rewrite total_length_link in Hpl.
  assert (n = len encrypted + 4) as Hn4 by (subst n; unfold sealed_length; rewrite Hl, Hpl, Hqs; lia).
  pose proof (len_nonneg plain) as Hp0. pose proof (Z.mod_pos_bound (len plain) (get_block_size a)) as Hmod.
  assert (0 < get_block_size a <= len encrypted) as Hbs.
  { destruct Hop as [Hbs (_ & _ & _ & Hi & Hc) _ _ _ _ _]. unfold compute_overhead in Hl.
    specialize (Hmod ltac:(lia)). split; [lia|]. rewrite Hl.
    pose proof (Z.mod_le (len plain) (get_block_size a) ltac:(lia) ltac:(lia)). lia. }
  assert (0 <= PLV2_ENCRYPTED < 256) as Ht by done.
  destruct (parse_header_sent id this PLV2_ENCRYPTED (len data) (Packet src dst data)
    (sealed_bits (head_type PL_NONE qs) n encrypted)) as (p & Eh & Vp & Bp & Mp & Rp & Ip);
    [done|done|lia|done|done|].
  set (head := received id this PLV2_ENCRYPTED (Packet src dst data) p) in *.
  exists head. unfold parse_body.
  rewrite (get_message_rule_ext head this) by done. rewrite Hr.
  set (m0 := set_rule (Some r) head). change (rule m0) with (Some r). cbv iota.
  change (message_parser m0) with (Some p). cbv iota. unfold parse_payloads.
  change (is_encrypted m0) with false. change (first_payload m0) with PLV2_ENCRYPTED.
  pose proof (head_type_octet PL_NONE qs ltac:(done) Hq) as Hh.
  destruct (parse_sealed (head_type PL_NONE qs) n encrypted p []) as (p' & Ep); try done; [by rewrite app_nil_r|].
  cbn [Message.parse_loop]. change (PLV2_ENCRYPTED =? PL_NONE) with false. cbv iota. rewrite Ep.
  set (o := opened (head_type PL_NONE qs) n encrypted) in *.
  destruct (opened_members (head_type PL_NONE qs) n encrypted) as (K1 & K2 & K3 & K4). fold o in K1, K2, K3, K4.
  assert (verify o = Some o) as -> by (unfold verify; by rewrite K1, verified_unfold, K1).
  change (PLV2_ENCRYPTED =? PLV2_ENCRYPTED) with true. cbn [orb bind].
  rewrite bool_decide_eq_true_2 by done. cbn [negb].
  set (m1 := set_parser (Some p') _). unfold decrypt_payloads.
  change (payloads m1) with [o]. cbn [decrypt_loop].
  assert (get_type o = PLV2_ENCRYPTED) as -> by (unfold get_type; by rewrite K1, K2).
  change (PLV2_ENCRYPTED =? PLV2_ENCRYPTED) with true. cbn [orb].
  set (m2 := set_payloads ([] ++ []) m1). unfold decrypt_and_extract. rewrite Hka.
  change (message_parser m2) with (Some p'). cbv iota zeta.
  change (packet_data (message_packet m2)) with data. unfold encrypted_method_get_length.
  rewrite K1, K4. cbn [Z.eqb]. unfold o at 1. rewrite opened_length by lia.
  rewrite (proj2 (Z.ltb_ge _ _)) by lia.
  assert ((len data <? get_block_size a') = false) as ->.
  { apply Z.ltb_ge. destruct Hop as [_ (-> & _) _ _ _ _ _]. lia. }
  cbn [orb]. unfold is_keymat_v1. rewrite (proj2 (Z.eqb_neq _ _) Hk).
  assert (associated data n = assoc) as ->.
  { unfold associated. apply of_bytes_inj; [auto with chunk|done|].
    rewrite of_bytes_take, Hdata, Has1.
    rewrite take_app_length'; [|rewrite sent_header_length by done; lia].
    assert (len data = 28 + n) as -> by lia. reflexivity. }
  destruct (decrypt_opened a a' _ assoc plain qs n encrypted Hop Hq Hp1 Hp2 Ec)
    as (e & -> & Ee); [lia..|]. cbn [bind]. rewrite decide_True by done. rewrite Ee.
  destruct (extract_link qs [] m2) as (f & Ex); [done|done|done|]. cbn [app] in Ex. rewrite Ex.
  cbn [bind]. rewrite bool_decide_eq_true_2 by done. cbn [negb].
  rewrite (verify_sent r this) by done. rewrite Hver. cbn [negb]. unfold check_hash.
  rewrite (proj2 (Z.eqb_neq _ _) Hk). cbn [negb bind].
  eexists. split; [exact Eh|]. split; [done|]. split; [by split_and!|done].
Qed.

(** C9: A message of IKE_AUTH, CREATE_CHILD_SA or INFORMATIONAL that is generated and parsed by
    a peer whose inbound transform opens what the outbound one seals gives the same exchange,
    message ID, direction and SPIs, and exactly the payloads of the message, in the order of
    the exchange and with the type of the next one in each. The payloads are well-formed and
    those the rules of the exchange allow, their encrypted payload is shorter than 2^16 octets
    ([protected_size]), and in the order they are sent in no configuration payload follows a
    payload with transform attributes ([protected_formats]): such a message loses the values
    of its configuration attributes. *)
Theorem message_roundtrip heap accept (k k' : keymat) (id : ike_sa_id) (r : message_rule)
    (a a' : aead) (this : message) (src dst : option host_t) :
  protected id r a this -> seals a -> opens a a' ->
  get_version k <> IKEV1 -> get_aead k false = Some a ->
  get_version k' <> IKEV1 -> get_aead k' true = Some a' ->
  verify_message r this = true ->
  exists sent head body,
  Message.generate heap (Some k) this = Ok (SUCCESS, sent) /\
  parse_header (message_create_from_packet (Packet src dst (packet_data (message_packet sent))))
    = Ok (SUCCESS, head) /\
  parse_body accept (Some k') head = Ok (SUCCESS, body) /\
  (exchange_type body, is_request body, message_id body)
    = (exchange_type this, is_request this, message_id this) /\
  sa_id body = Some (IkeSaId 2 (initiator_spi id) (responder_spi id) (is_initiator_flag id)) /\
  payloads body = link PL_NONE (sent_order r this) /\ sent_order r this ≡ₚ payloads this.
Proof.
  intros Hp Ha Hop Hk Hka Hk' Hka' Hv.
  destruct (generate_protected heap k id r a this Hp Ha Hk Hka) as (sent & E & Hd).
  destruct (parse_protected accept k' id r a a' this _ src dst Hp Hop Hk' Hka' Hv Hd)
    as (head & body & Eh & Eb & (B1 & B2 & B3 & B4 & B5) & B6).
  exists sent, head, body. rewrite B1, B2, B3. split_and!; try done.
  unfold sent_order. case_match; [done|]. apply arrange_permutation.
Qed.

(** * An example *)

Lemma example_icv_octets c : len (example_icv c) = 4 /\ bytes_ok (example_icv c).
Proof. unfold example_icv. split; [unfold len; by rewrite length_be_bytes|auto with chunk]. Qed.

Lemma lxor_twice b : byte_ok b -> Z.lxor (u8 (Z.lxor b 90)) 90 = b.
Proof.
  intros Hb. assert (u8 (Z.lxor b 90) = Z.lxor b 90) as ->.
  { unfold u8. apply wrap_small. apply lxor_octet in Hb. exact Hb. }
  by rewrite Z.lxor_assoc, Z.lxor_nilpotent, Z.lxor_0_r.
Qed.

Lemma example_opens : opens example_aead example_aead.
Proof.
  assert (forall plain (iv : chunk), len ((fun b => Z.lxor b 90) <$> plain) = len plain) as Hl.
  { intros. unfold len. by rewrite length_fmap. }
  split; cbn; [lia|done| | | | |].
  - intros get seq iv [= <-] [= <-]. split; [done|]. repeat constructor; apply Z.mod_pos_bound; lia.
  - intros get n c [= <-] Hn [= <-]. unfold len. rewrite length_replicate. split; [lia|].
    apply Forall_replicate. unfold byte_ok. lia.
  - intros plain assoc iv crypt [= <-] Hb. unfold example_decrypt.
    set (c := (fun b => Z.lxor b 90) <$> plain).
    assert (length (c ++ example_icv (assoc ++ iv ++ c)) - 4 = length c)%nat as ->.
    { rewrite length_app. destruct (example_icv_octets (assoc ++ iv ++ c)) as [E _]. unfold len in E. lia. }
    rewrite drop_app_length, take_app_length, bool_decide_eq_true_2 by done. f_equal. subst c.
    rewrite <- list_fmap_compose. rewrite <- (list_fmap_id plain) at 2. apply list_fmap_ext.
    intros i b Hi. cbn. eapply Forall_lookup_1 in Hi; [|done]. by apply lxor_twice.
  - intros plain assoc iv crypt [= <-]. rewrite len_app, Hl by done.
    by destruct (example_icv_octets (assoc ++ iv ++ ((fun b => Z.lxor b 90) <$> plain))) as [-> _].
  - intros plain assoc iv crypt [= <-] Hb. apply bytes_ok_app. split; [|apply example_icv_octets].
    apply Forall_fmap. eapply Forall_impl; [exact Hb|]. intros b. apply lxor_octet.
Qed.

Lemma example_seals : seals example_aead.
Proof. intros mid plain assoc. eexists. reflexivity. Qed.

(** An INFORMATIONAL request that deletes the IKE_SA, with a notification added last; both
    come in the order of the exchange, the notification first. *)
Definition example_id : ike_sa_id := IkeSaId 2 [1; 2; 3; 4; 5; 6; 7; 8] [8; 7; 6; 5; 4; 3; 2; 1] true.
Definition example_host : option host_t := Some (Host AF_INET [192; 0; 2; 1] 500).
Definition example_message : message :=
  let m := set_ike_sa_id example_id (message_create 2 0) in
  let m := set_packet (Packet example_host example_host []) m in
  let m := set_message_id 5 (set_exchange_type INFORMATIONAL m) in
  add_notify false 16384 [1; 2; 3] (Message.add_payload (delete_payload_create PLV2_DELETE 1) m).
Definition example_rule : message_rule :=
  default (MessageRule 0 true true [] []) (get_message_rule example_message).

Definition is_sendable (p : payload) : bool :=
  well_formed p && known_v2 (type_ p) && negb (type_ p =? PLV2_ENCRYPTED)
  && negb (type_ p =? PLV2_FRAGMENT) && bool_decide (class p ∉ [C_UNKNOWN; C_CERT; C_ENCRYPTED_FRAGMENT])
  && verified p.

Lemma is_sendable_ok p : is_sendable p = true -> sendable p.
Proof.
  unfold is_sendable.
  rewrite !andb_true_iff, !bool_decide_eq_true, !negb_true_iff, !Z.eqb_neq, !not_elem_of_cons.
  intros [[[[[W K] P1] P2] (C1 & C2 & C3 & _)] V]. split; [done..|].
  unfold verify. rewrite V. by destruct (class p).
Qed.

Lemma example_ready : ready example_id example_rule example_message.
Proof.
  split.
  - split; [by split| |done| |]; try (vm_compute; done).
    + apply (bool_decide_unpack _). vm_compute. done.
  - reflexivity.
  - vm_compute; reflexivity.
  - vm_compute; reflexivity.
  - reflexivity.
  - split; eexists; reflexivity.
Qed.

Lemma are_sendable ps : forallb is_sendable ps = true -> Forall sendable ps.
Proof.
  intros H. rewrite forallb_forall in H. apply Forall_forall. intros p Hp%list_elem_of_In.
  by apply is_sendable_ok, H.
Qed.

Lemma example_protected : protected example_id example_rule example_aead example_message.
Proof.
  split; [exact example_ready|apply are_sendable| |]; vm_compute; try reflexivity.
  split; [discriminate|reflexivity].
Qed.

Lemma message_roundtrip_witness :
  (get_type <$> payloads example_message) = [PLV2_DELETE; PLV2_NOTIFY] /\
  exists sent head body,
  Message.generate (fun _ => 0) (Some example_keymat) example_message = Ok (SUCCESS, sent) /\
  parse_header (message_create_from_packet (Packet None None (packet_data (message_packet sent))))
    = Ok (SUCCESS, head) /\
  parse_body false (Some example_keymat) head = Ok (SUCCESS, body) /\
  (exchange_type body, is_request body, message_id body) = (INFORMATIONAL, true, 5) /\
  sa_id body = Some (IkeSaId 2 [1; 2; 3; 4; 5; 6; 7; 8] [8; 7; 6; 5; 4; 3; 2; 1] true) /\
  payloads body = link PL_NONE (sent_order example_rule example_message) /\
  sent_order example_rule example_message ≡ₚ payloads example_message.
Proof.
  split; [vm_compute; reflexivity|].
  apply (message_roundtrip (fun _ => 0) false example_keymat example_keymat example_id example_rule
    example_aead example_aead example_message None None).
  - exact example_protected.
  - exact example_seals.
  - exact example_opens.
  - discriminate.
  - reflexivity.
  - discriminate.
  - reflexivity.
  - vm_compute; reflexivity.
Defined.
