(* ===== verification/Fragments.v ===== *)
(** Fragments of IKE messages: the end of libcharon/encoding/message.c. A message that is too
    long for a datagram is split; the receiver puts the fragments it parsed together in a
    message that [message_create_defrag] made. *)

From Stdlib Require Import Strings.String.
From stdpp Require Import gmap strings.
From S2P Require Import Prelude Host Payloads Parser Generator Verify EncryptedPayload MessageRules Message.
#[local] Open Scope Z_scope.

(** * Putting fragments together *)

Definition MAX_FRAGMENTS : Z := 255.
Definition PACKET_MAX_DEFAULT : Z := 10000.

Record fragment_t := Fragment { frag_num : Z; frag_data : chunk }.

Record fragment_data_t := FragmentData { frag_last : Z; frag_len : Z; max_packet : Z }.

(** A message that is put together, with [fragments] and [frag] of it; [None] is NULL. *)
Record defrag := Defrag {
  whole : message;
  fragments : option (list fragment_t);
  frag : option fragment_data_t;
}.

Definition with_whole (f : message -> message) (this : defrag) : defrag :=
  Defrag (f (whole this)) (fragments this) (frag this).
Definition with_fragments (fs : option (list fragment_t)) (this : defrag) : defrag :=
  Defrag (whole this) fs (frag this).
Definition with_frag (f : fragment_data_t -> fragment_data_t) (this : defrag) : defrag :=
  Defrag (whole this) (fragments this) (f <$> frag this).
Definition set_last (n : Z) (f : fragment_data_t) : fragment_data_t :=
  FragmentData n (frag_len f) (max_packet f).
Definition set_len (n : Z) (f : fragment_data_t) : fragment_data_t :=
  FragmentData (frag_last f) n (max_packet f).

Definition reset_defrag (this : defrag) : defrag :=
  with_frag (fun f => set_len 0 (set_last 0 f)) (with_fragments None this).

Definition array_count (fs : option (list fragment_t)) : Z := Z.of_nat (length (default [] fs)).

(** The loop of [add_fragment]: what is before the place of the fragment and after it, or
    [None] when there is one with the number. *)
Fixpoint find_place (n : Z) (fs : list fragment_t) : option (list fragment_t * list fragment_t) :=
  match fs with
  | [] => Some ([], [])
  | f :: fs' =>
      if frag_num f =? n then None
      else if n <? frag_num f then Some ([], fs)
      else match find_place n fs' with
           | Some (before, after) => Some (f :: before, after)
           | None => None
           end
  end.

(** Called with [frag] set. *)
Definition add_fragment (n : Z) (data : chunk) (this : defrag) : status * defrag :=
  match find_place n (default [] (fragments this)) with
  | None => (NEED_MORE, this)
  | Some (before, after) =>
      let this := with_frag (fun f => set_len (u64 (frag_len f + len data)) f) this in
      match frag this with
      | Some f =>
          if max_packet f <? frag_len f then (FAILED, reset_defrag this)
          else (SUCCESS, with_fragments (Some (before ++ Fragment (u8 n) data :: after)) this)
      | None => (SUCCESS, this)
      end
  end.

Definition fragments_data (this : defrag) : chunk := default [] (fragments this) ≫= frag_data.

(** A received message has addresses. *)
Definition merge_fragments (from : message) (this : defrag) : result (chunk * defrag) :=
  match source (message_packet from), destination (message_packet from) with
  | Some src, Some dst =>
      let data := fragments_data this in
      let this := with_whole (fun m =>
                    set_packet (Packet (Some src) (Some dst) (packet_data (message_packet m))) m) this in
      Ok (data, Defrag (whole this) None None)
  | _, _ => Outside
  end.

Definition is_last (p : payload) : bool := negb (Z.land (num "flags" p) 1 =? 0).

Definition add_fragment_v1 (m : message) (this : defrag) : result (status * defrag) :=
  match frag this with
  | None => Ok (INVALID_STATE, this)
  | Some _ =>
      match get_payload PLV1_FRAGMENT m with
      | None => Ok (INVALID_ARG, this)
      | Some p =>
          let id := num "fragment_id" p in
          let this :=
            match fragments this with
            | Some _ => if message_id (whole this) =? id then this else
                          with_fragments (Some []) (with_whole (set_message_id id) (reset_defrag this))
            | None => with_fragments (Some []) (with_whole (set_message_id id) (reset_defrag this))
            end in
          let n := num "fragment_number" p in
          let this :=
            with_frag (fun f => if (frag_last f =? 0) && is_last p then set_last n f else f) this in
          let '(s, this) := add_fragment n (bytes "data" p) this in
          if decide (s = SUCCESS) then
            if array_count (fragments this) =? from_option frag_last 0 (frag this) then
              let* '(data, this) := merge_fragments m this in
              let this := with_whole (set_packet_data data) this in
              let this := with_whole (set_parser (Some (parser_create data))) this in
              let* '(s, x) := parse_header (whole this) in
              Ok (if decide (s = SUCCESS) then SUCCESS else FAILED, with_whole (fun _ => x) this)
            else Ok (NEED_MORE, this)
          else Ok (s, this)
      end
  end.

(** The payloads that are not fragments move from the message with the first fragment. *)
Definition take_unencrypted (m this : message) : message * message :=
  let is_fragment p := get_type p =? PLV2_FRAGMENT in
  (set_payloads (List.filter is_fragment (payloads m)) m,
   set_payloads (payloads this ++ List.filter (fun p => negb (is_fragment p)) (payloads m)) this).

(** The payload with the text of all fragments; [get_length] is called for each payload and
    stores the length of this one. *)
Definition put_reassembled (transform : option aead) (data : chunk) (this : message) : message :=
  let encrypted := encrypted_payload_create_from_plain (first_payload this) data in
  let encrypted := snd (get_length_plain transform encrypted) in
  let this := set_payloads (payloads this ++ [encrypted]) this in
  match payloads this with
  | p :: _ => set_first_payload (get_type p) this
  | [] => this
  end.

(** [transform] is the one the fragment was decrypted with. The message the fragment is in
    loses its other payloads. *)
Definition add_fragment_v2 (transform : option aead) (m : message) (this : defrag)
    : result (status * message * defrag) :=
  match frag this with
  | None => Ok (INVALID_STATE, m, this)
  | Some f =>
      match get_payload PLV2_FRAGMENT m with
      | None => Ok (INVALID_ARG, m, this)
      | Some p =>
          if negb (message_id (whole this) =? message_id m) then Ok (INVALID_ARG, m, this)
          else
            let total := num "total_fragments" p in
            if MAX_FRAGMENTS <? total then Ok (FAILED, m, reset_defrag this)
            else
              let fresh := match fragments this with Some _ => frag_last f <? total | None => true end in
              let this := if fresh
                          then with_fragments (Some []) (with_frag (set_last total) (reset_defrag this))
                          else this in
              let n := num "fragment_number" p in
              let '(s, this) := add_fragment n (bytes "plain" p) this in
              if decide (s = SUCCESS) then
                let '(m, this) :=
                  if n =? 1 then
                    let this := with_whole (set_first_payload (get_next_type p)) this in
                    let '(m, x) := take_unencrypted m (whole this) in
                    (m, with_whole (fun _ => x) this)
                  else (m, this) in
                if array_count (fragments this) =? total then
                  let* '(data, this) := merge_fragments m this in
                  Ok (SUCCESS, m, with_whole (put_reassembled transform data) this)
                else Ok (NEED_MORE, m, this)
              else Ok (s, m, this)
      end
  end.

(** * Splitting *)

(** What is cloned must be there. *)
Definition clone_message (this : message) : result message :=
  match sa_id this, source (message_packet this), destination (message_packet this) with
  | Some id, Some src, Some dst =>
      let m := message_create (major_version this) (minor_version this) in
      let m := set_ike_sa_id id m in
      let m := set_message_id (message_id this) m in
      let m := set_request (is_request this) m in
      let m := set_packet (Packet (Some src) (Some dst) []) m in
      let m := set_exchange_type (exchange_type this) m in
      Ok (set_reserved (reserved this) m)
  | _, _, _ => Outside
  end.

(** [max] is the setting max_packet. *)
Definition message_create_defrag (max : Z) (m : message) : result (option defrag) :=
  match get_payload PLV1_FRAGMENT m, get_payload PLV2_FRAGMENT m with
  | None, None => Ok None
  | _, _ =>
      let* this := clone_message m in
      let this := set_parser None this in
      let this := if major_version m =? IKEV1_MAJOR_VERSION then set_message_id 0 this else this in
      Ok (Some (Defrag this None (Some (FragmentData 0 0 (u64 max)))))
  end.

Definition fragment_payload_create_from_data (n : Z) (last : bool) (data : chunk) : payload :=
  let this := set_num "fragment_id" 1 fragment_payload_create in
  let this := set_num "fragment_number" (u8 n) this in
  let this := set_num "flags" (Z.b2z last) this in
  let this := set_bytes "data" data this in
  set_num "payload_length" (u16 (fragment_get_header_length + len data)) this.

Definition REDUCE_FRAG_LEN (n amount : Z) : Z := Z.max 1 (n - amount).
Definition round_down (size alignment : Z) : Z := size - size mod alignment.
Definition IKEV2_UDP_PORT : Z := 500.

Definition is_encoded (this : message) : bool := negb (len (packet_data (message_packet this)) =? 0).

Section Splitting.

(** As in [Message]; [use_aggressive] is that of the configuration of the IKE_SA. *)
Variable heap : Z -> Z.
Variable use_aggressive : bool.

(** The fragment, and the message without the payloads that moved to the first one. *)
Definition create_fragment (next n count : Z) (data : chunk) (this : message)
    : result (message * message) :=
  let* m := clone_message this in
  if major_version this =? IKEV1_MAJOR_VERSION then
    let m := set_message_id 0 m in
    let m := set_exchange_type (if use_aggressive then AGGRESSIVE else ID_PROT) m in
    let fragment := fragment_payload_create_from_data n (n =? count) data in
    Ok (Message.add_payload fragment m, this)
  else
    let fragment := encrypted_fragment_payload_create_from_data n count data in
    if n =? 1 then
      let fragment := set_next_type next fragment in
      let encrypted p := get_type p =? PLV2_ENCRYPTED in
      let m := fold_left (fun m p => Message.add_payload p m)
                 (List.filter (fun p => negb (encrypted p)) (payloads this)) m in
      let this := set_payloads (List.filter encrypted (payloads this)) this in
      Ok (Message.add_payload fragment m, this)
    else Ok (Message.add_payload fragment m, this).

(** The loop: fragments from [n] on are made of [data], as many as [more]. *)
Fixpoint split_loop (k : option keymat) (next count frag_len : Z) (more : nat) (n : Z) (data : chunk)
    (this : message) : result (status * message * list packet) :=
  match more with
  | O => Ok (SUCCESS, this, [])
  | S more =>
      let l := Z.min (len data) frag_len in
      let* '(m, this) := create_fragment next n count (take (Z.to_nat l) data) this in
      let* '(s, m) := Message.generate heap k m in
      if decide (s = SUCCESS) then
        let* '(s, this, packets) :=
          split_loop k next count frag_len more (n + 1) (drop (Z.to_nat l) data) this in
        Ok (s, this, if decide (s = SUCCESS) then message_packet m :: packets else [])
      else Ok (FAILED, this, [])
  end.

(** A number of 16 bits is never greater than the largest of them: then the loop does not end,
    which [Exhausted] stands for. *)
Definition split (k : option keymat) (next frag_len : Z) (data : chunk) (this : message)
    : result (status * message * list packet) :=
  let count := u16 (len data / frag_len + (if len data mod frag_len =? 0 then 0 else 1)) in
  if count =? 65535 then Exhausted
  else split_loop k next count frag_len (Z.to_nat count) 1 data this.

(** The length of IP datagrams to that of messages. *)
Definition datagram_space (src dst : host_t) (frag_len : Z) : Z :=
  let ipv4 := sa_family src =? AF_INET in
  let n := if frag_len =? 0 then if ipv4 then 576 else 1280 else frag_len in
  let n := REDUCE_FRAG_LEN n (if ipv4 then 20 else 40) in
  let n := REDUCE_FRAG_LEN n 8 in
  if negb (sin_port dst =? IKEV2_UDP_PORT) && negb (sin_port src =? IKEV2_UDP_PORT)
  then REDUCE_FRAG_LEN n 4 else n.

(** The space for the text of an encrypted fragment. *)
Definition fragment_space (a : aead) (n : Z) : Z :=
  let n := REDUCE_FRAG_LEN n 28 in
  let n := REDUCE_FRAG_LEN n (get_iv_size a) in
  let n := REDUCE_FRAG_LEN n (get_icv_size a) in
  let n := REDUCE_FRAG_LEN n 8 in
  REDUCE_FRAG_LEN (round_down n (get_block_size a)) 1.

(** The first encrypted payload is the one that was found. *)
Fixpoint put_encrypted (e : payload) (ps : list payload) : list payload :=
  match ps with
  | [] => []
  | p :: ps => if get_type p =? PLV2_ENCRYPTED then e :: ps else p :: put_encrypted e ps
  end.

(** The datagrams to send. [g] is what was generated now, with the payload that is not in the
    message yet. *)
Definition fragment (k : option keymat) (frag_len : Z) (this : message)
    : result (status * message * list packet) :=
  match source (message_packet this), destination (message_packet this) with
  | Some src, Some dst =>
      let frag_len := datagram_space src dst frag_len in
      let single (x : result (status * message)) :=
        let* '(s, this) := x in
        Ok (s, this, if decide (s = SUCCESS) then [message_packet this] else []) in
      let v2 := major_version this =? IKEV2_MAJOR_VERSION in
      let split_encrypted e encoded this :=
        let next := get_next_type e in
        let* '(data, e, _) := EncryptedPayload.generate heap e (generator_create heap) in
        let this := if encoded : bool then set_payloads (put_encrypted e (payloads this)) this else this in
        match k with
        | Some k' =>
            match get_aead k' false with
            | Some a => split k next (fragment_space a frag_len) data this
            | None => Outside
            end
        | None => Outside
        end in
      let split_message this :=
        split k PL_NONE (REDUCE_FRAG_LEN (REDUCE_FRAG_LEN frag_len 28) 8)
          (packet_data (message_packet this)) this in
      if is_encoded this then
        let encrypted := if v2 then get_payload PLV2_ENCRYPTED this else None in
        if (len (packet_data (message_packet this)) <=? frag_len) || match encrypted with Some _ => false | None => v2 end
        then Ok (SUCCESS, this, [message_packet this])
        else match encrypted with
             | Some e => split_encrypted e true this
             | None => if major_version this =? IKEV1_MAJOR_VERSION then split_message this else Outside
             end
      else
        let* '(s, x) := generate_message heap k this in
        let '(this, g, wrapped) := x in
        if decide (s = SUCCESS) then
          let n := len (fst (get_chunk g)) in
          let '(l, wrapped) :=
            match wrapped with
            | Some (e, a) => let '(l, e) := encrypted_method_get_length (Some a) e in (l, Some (e, a))
            | None => (0, None)
            end in
          if (n + l <=? frag_len) || match wrapped with Some _ => false | None => v2 end
          then single (finalize_message heap k (this, g, wrapped))
          else if major_version this =? IKEV1_MAJOR_VERSION then
            let* '(s, this) := finalize_message heap k (this, g, wrapped) in
            if decide (s = SUCCESS) then split_message this else Ok (s, this, [])
          else match wrapped with
               | Some (e, _) => split_encrypted e false this
               | None => Outside
               end
        else Ok (s, this, [])
  | _, _ => Outside
  end.

End Splitting.
