(* ===== verification/Reassembly.v ===== *)
(** Fragments that come in any order, and more than once, are put together to the text that
    was split. *)

From Stdlib Require Import Strings.String Sorting.Sorted.
From stdpp Require Import gmap strings sorting.
From S2P Require Import Prelude Host Payloads Parser Generator Verify EncryptedPayload MessageRules Message.
From S2P Require Import Fragments.
#[local] Open Scope Z_scope.

(** * The fragments of a text *)

Definition ascending (fs : list fragment_t) : Prop :=
  StronglySorted (fun f g => frag_num f < frag_num g) fs.

Fixpoint number (n : Z) (cs : list chunk) : list fragment_t :=
  match cs with
  | [] => []
  | c :: cs => Fragment n c :: number (n + 1) cs
  end.

Lemma number_range cs : forall n f, f ∈ number n cs -> n <= frag_num f < n + Z.of_nat (length cs).
Proof.
  induction cs as [|c cs IH]; intros n f; cbn [number]; [by intros ?%elem_of_nil|].
  intros [->|H]%elem_of_cons; cbn [frag_num length]; [lia|]. specialize (IH _ _ H). lia.
Qed.

Lemma number_ascending cs : forall n, ascending (number n cs).
Proof.
  induction cs as [|c cs IH]; intros n; cbn [number]; [constructor|]. constructor; [apply IH|].
  apply Forall_forall. intros f Hf%number_range. cbn. lia.
Qed.

Lemma number_data cs : forall n, number n cs ≫= frag_data = concat cs.
Proof. induction cs as [|c cs IH]; intros n; [done|]. cbn. f_equal. apply IH. Qed.

Lemma number_length cs : forall n, length (number n cs) = length cs.
Proof. induction cs as [|c cs IH]; intros n; cbn; congruence. Qed.

Lemma number_lookup cs : forall n i c, cs !! i = Some c -> Fragment (n + Z.of_nat i) c ∈ number n cs.
Proof.
  induction cs as [|x cs IH]; intros n [|i] c; cbn; try done.
  - intros [= ->]. rewrite Z.add_0_r. by left.
  - intros H%(IH (n + 1)). right. by replace (n + Z.of_nat (S i)) with (n + 1 + Z.of_nat i) by lia.
Qed.

(** * Those that were received *)

Definition kept (got : list Z) (fs : list fragment_t) : list fragment_t :=
  List.filter (fun f => bool_decide (frag_num f ∈ got)) fs.

Lemma kept_cons got f fs :
  kept got (f :: fs) = if decide (frag_num f ∈ got) then f :: kept got fs else kept got fs.
Proof.
  unfold kept. cbn [List.filter].
  case_decide; [rewrite bool_decide_eq_true_2 by done|rewrite bool_decide_eq_false_2 by done]; done.
Qed.

Lemma kept_sub got fs f : f ∈ kept got fs -> f ∈ fs /\ frag_num f ∈ got.
Proof.
  unfold kept. rewrite !list_elem_of_In, filter_In, bool_decide_eq_true, <- !list_elem_of_In. tauto.
Qed.

Lemma kept_cons_other n got fs : Forall (fun f => frag_num f <> n) fs -> kept (n :: got) fs = kept got fs.
Proof.
  induction 1 as [|f fs Hf _ IH]; [done|]. rewrite !kept_cons, IH.
  repeat case_decide; set_solver.
Qed.

Lemma find_place_known f got fs : ascending fs -> f ∈ fs -> frag_num f ∈ got ->
  find_place (frag_num f) (kept got fs) = None.
Proof.
  intros Ha Hf Hg. induction Ha as [|g fs Ha IH Hg']; [by apply elem_of_nil in Hf|].
  rewrite Forall_forall in Hg'. rewrite kept_cons. apply elem_of_cons in Hf as [->|Hf].
  - rewrite decide_True by done. cbn [find_place]. by rewrite Z.eqb_refl.
  - specialize (Hg' f Hf). case_decide; [|auto]. cbn [find_place].
    rewrite (proj2 (Z.eqb_neq _ _)), (proj2 (Z.ltb_ge _ _)) by lia. by rewrite IH.
Qed.

Lemma find_place_new f got fs : ascending fs -> f ∈ fs -> frag_num f ∉ got ->
  exists before after, find_place (frag_num f) (kept got fs) = Some (before, after) /\
  before ++ f :: after = kept (frag_num f :: got) fs.
Proof.
  intros Ha Hf Hg. induction Ha as [|g fs Ha IH Hg']; [by apply elem_of_nil in Hf|].
  rewrite Forall_forall in Hg'. rewrite !kept_cons. apply elem_of_cons in Hf as [->|Hf].
  - clear IH. rewrite decide_False, decide_True by (done || by left). exists [], (kept got fs).
    rewrite kept_cons_other.
    2: { apply Forall_forall. intros x Hx. specialize (Hg' x Hx). lia. }
    split; [|done]. destruct (kept got fs) as [|x xs] eqn:E; [done|]. cbn [find_place].
    assert (x ∈ kept got fs) as [Hx _]%kept_sub by (rewrite E; by left). specialize (Hg' x Hx).
    by rewrite (proj2 (Z.eqb_neq _ _)), (proj2 (Z.ltb_lt _ _)) by lia.
  - specialize (Hg' f Hf). destruct (IH Hf) as (before & after & E1 & E2). case_decide as H1.
    + rewrite decide_True by (by right). cbn [find_place].
      rewrite (proj2 (Z.eqb_neq _ _)), (proj2 (Z.ltb_ge _ _)) by lia. rewrite E1.
      exists (g :: before), after. cbn. by rewrite E2.
    + rewrite decide_False; [by exists before, after|].
      intros [Hn|?]%elem_of_cons; [lia|done].
Qed.

Lemma kept_complete got fs : Forall (fun f => frag_num f ∈ got) fs -> kept got fs = fs.
Proof. induction 1 as [|f fs Hf _ IH]; [done|]. by rewrite kept_cons, decide_True, IH. Qed.

Lemma kept_length got fs : (length (kept got fs) <= length fs)%nat.
Proof. apply filter_length_le. Qed.

Lemma kept_missing got fs f : f ∈ fs -> frag_num f ∉ got -> (length (kept got fs) < length fs)%nat.
Proof.
  intros Hf Hg. induction fs as [|g fs IH]; [by apply elem_of_nil in Hf|]. rewrite kept_cons.
  pose proof (kept_length got fs) as Hl. apply elem_of_cons in Hf as [->|Hf].
  - rewrite decide_False by done. cbn [length]. lia.
  - specialize (IH Hf). case_decide; cbn [length]; lia.
Qed.

(** * Lengths *)

Definition data_length (fs : list fragment_t) : Z := foldr (fun f n => len (frag_data f) + n) 0 fs.

Lemma data_length_app fs gs : data_length (fs ++ gs) = data_length fs + data_length gs.
Proof. induction fs as [|f fs IH]; cbn; [done|]. unfold data_length in *. lia. Qed.

Lemma data_length_nonneg fs : 0 <= data_length fs.
Proof. induction fs as [|f fs IH]; cbn; [done|]. pose proof (len_nonneg (frag_data f)). unfold data_length in IH. lia. Qed.

Lemma kept_data_length got fs : data_length (kept got fs) <= data_length fs.
Proof.
  induction fs as [|f fs IH]; [done|]. rewrite kept_cons. pose proof (len_nonneg (frag_data f)).
  case_decide; cbn; unfold data_length in *; lia.
Qed.

Lemma data_length_concat fs : len (fs ≫= frag_data) = data_length fs.
Proof. induction fs as [|f fs IH]; [done|]. cbn. rewrite len_app. unfold data_length in IH. by rewrite IH. Qed.

Lemma find_place_split n : forall fs before after, find_place n fs = Some (before, after) -> fs = before ++ after.
Proof.
  induction fs as [|f fs IH]; cbn [find_place]; intros before after; [by intros [= <- <-]|].
  repeat case_match; try done; intros [= <- <-]; [done|]. cbn. f_equal. by apply IH.
Qed.

(** * The message that is put together *)

Section Assembling.

(** The text in [cs], of the message with the number [mid] and the first payload [next]. *)
Variable transform : option aead.
Variable cs : list chunk.
Variable mid next max : Z.

Let total : Z := Z.of_nat (length cs).
Let all : list fragment_t := number 1 cs.

Hypothesis total_range : total <= MAX_FRAGMENTS.
Hypothesis fits_packet : len (concat cs) <= max /\ max < 2 ^ 64.

(** A message with the fragment [n]. *)
Record carries (n : Z) (m : message) : Prop := {
  carries_payload : exists p, payloads m = [p] /\ get_type p = PLV2_FRAGMENT /\
    num "fragment_number" p = n /\ num "total_fragments" p = total /\
    Fragment n (bytes "plain" p) ∈ all /\ (n = 1 -> get_next_type p = next);
  carries_id : message_id m = mid;
  carries_ends : is_Some (source (message_packet m)) /\ is_Some (destination (message_packet m));
}.

Lemma carries_range n m : carries n m -> 1 <= n <= total.
Proof.
  intros [(p & _ & _ & _ & _ & Hin & _) _ _]. apply number_range in Hin. cbn in Hin. unfold total. lia.
Qed.

(** The fragments with a number in [got] are there. *)
Record assembling (w : message) (got : list Z) (d : defrag) : Prop := {
  assembling_whole : exists f, whole d = set_first_payload f w /\ (1 ∈ got -> f = next);
  assembling_fragments : fragments d = match got with [] => None | _ => Some (kept got all) end;
  assembling_frag : frag d = Some (FragmentData (match got with [] => 0 | _ => total end)
                                     (data_length (kept got all)) max);
}.

Definition complete (got : list Z) : bool := forallb (fun f => bool_decide (frag_num f ∈ got)) all.

Lemma complete_all got : complete got = true <-> Forall (fun f => frag_num f ∈ got) all.
Proof.
  unfold complete. rewrite forallb_forall, Forall_forall. split; intros H f Hf.
  - apply (bool_decide_eq_true_1 _), H. by apply list_elem_of_In.
  - apply bool_decide_eq_true_2, H. by apply list_elem_of_In.
Qed.

(** The whole text as the payload of the message. *)
Definition reassembled_of (w whole : message) : Prop :=
  exists e, whole = set_first_payload PLV2_ENCRYPTED (set_payloads [e] (set_packet (message_packet whole) w)) /\
  (exists v, e = set_num "payload_length" v (encrypted_payload_create_from_plain next (concat cs))).

Lemma add_known w got d n data : assembling w got d -> Fragment n data ∈ all -> n ∈ got ->
  add_fragment n data d = (NEED_MORE, d).
Proof.
  intros [_ Hf _] Hin Hn. unfold add_fragment.
  assert (default [] (fragments d) = kept got all) as ->.
  { rewrite Hf. destruct got; [by apply elem_of_nil in Hn|done]. }
  pose proof (find_place_known (Fragment n data) got all (number_ascending cs 1) Hin Hn) as E.
  cbn in E. by rewrite E.
Qed.

(** When a fragment comes first, or not. *)
Lemma start w got d : assembling w got d ->
  (if match fragments d with
      | Some _ => from_option frag_last 0 (frag d) <? total | None => true end
   then with_fragments (Some []) (with_frag (set_last total) (reset_defrag d)) else d)
  = Defrag (whole d) (Some (kept got all)) (Some (FragmentData total (data_length (kept got all)) max)).
Proof.
  intros [_ Hf Hd]. destruct d as [wd fs fr]. cbn [fragments frag whole] in *. subst fs fr. destruct got as [|g got].
  - assert (kept [] all = []) as ->.
    { clear. induction all as [|f fs IH]; [done|]. rewrite kept_cons, decide_False; [done|].
      apply not_elem_of_nil. }
    done.
  - cbn [from_option frag_last]. by rewrite Z.ltb_irrefl.
Qed.

Lemma add_new d0 got n data : Fragment n data ∈ all -> n ∉ got ->
  add_fragment n data (Defrag d0 (Some (kept got all)) (Some (FragmentData total (data_length (kept got all)) max)))
  = (SUCCESS, Defrag d0 (Some (kept (n :: got) all))
                (Some (FragmentData total (data_length (kept (n :: got) all)) max))).
Proof.
  intros Hin Hn. unfold add_fragment. cbn [fragments]. change (default [] (Some ?x)) with x.
  destruct (find_place_new (Fragment n data) got all (number_ascending cs 1) Hin Hn)
    as (before & after & E1 & E2). cbn [frag_num] in E1, E2. rewrite E1. apply find_place_split in E1.
  assert (data_length (kept got all) + len data = data_length (kept (n :: got) all)) as Hl.
  { rewrite <- E2, E1, !data_length_app. cbn. unfold data_length. lia. }
  pose proof (kept_data_length (n :: got) all) as Hk. pose proof (data_length_nonneg (kept (n :: got) all)) as H0.
  pose proof (data_length_concat all) as Hc. unfold all in Hc at 1. rewrite number_data in Hc.
  unfold with_fragments, with_frag. cbn [whole fragments frag]. change (?f <$> Some ?x) with (Some (f x)).
  cbv beta iota. unfold set_len. cbn [frag_len frag_last max_packet]. rewrite Hl.
  assert (u64 (data_length (kept (n :: got) all)) = data_length (kept (n :: got) all)) as ->.
  { unfold u64. apply wrap_small. lia. }
  rewrite (proj2 (Z.ltb_ge _ _)) by lia.
  apply number_range in Hin. cbn in Hin. assert (u8 n = n) as ->.
  { unfold u8. apply wrap_small. change (2 ^ 8) with 256. unfold total, MAX_FRAGMENTS in *. lia. }
  by rewrite E2.
Qed.

Lemma add_piece w got d n m : assembling w got d -> carries n m -> message_id w = mid ->
  payloads w = [] -> complete got = false ->
  exists s d', add_fragment_v2 transform m d = Ok (s, m, d') /\
  if complete (n :: got) then s = SUCCESS /\ reassembled_of w (whole d')
  else s = NEED_MORE /\ assembling w (if decide (n ∈ got) then got else n :: got) d'.
Proof.
  intros Ha Hc Hw Hp Hi. pose proof (carries_range n m Hc) as Hr.
  destruct Hc as [(p & Hpl & Ht & Hn & Htot & Hin & Hnext) Hid [[src Hsrc] [dst Hdst]]].
  pose proof Ha as [(f & Hwf & Hf1) Hfr Hfd]. unfold add_fragment_v2. rewrite Hfd.
  assert (get_payload PLV2_FRAGMENT m = Some p) as ->.
  { unfold get_payload. rewrite Hpl. cbn. by rewrite Ht. }
  assert (message_id (whole d) = message_id m) as -> by (rewrite Hwf, Hid; exact Hw).
  rewrite Z.eqb_refl. cbn [negb]. rewrite Htot, (proj2 (Z.ltb_ge _ _)) by done.
  pose proof (start w got d Ha) as Hst. rewrite Hfd in Hst. cbn [from_option] in Hst. cbv zeta.
  rewrite Hst, Hn. destruct (decide (n ∈ got)) as [Hg|Hg].
  - rewrite (add_known w got _ n _); [|split; cbn [whole fragments frag]|done|done].
    2: { by exists f. } 2, 3: (destruct got; [by apply elem_of_nil in Hg|done]).
    rewrite decide_False by done. do 2 eexists. split; [done|].
    assert (complete (n :: got) = false) as ->.
    { apply not_true_is_false. rewrite complete_all. intros Hall. apply not_true_iff_false in Hi.
      apply Hi, complete_all. eapply Forall_impl; [exact Hall|]. intros x [->|?]%elem_of_cons; done. }
    split; [done|]. split; cbn [whole fragments frag]; [by exists f|..];
      (destruct got; [by apply elem_of_nil in Hg|done]).
  - rewrite (add_new (whole d) got n) by done. rewrite decide_True by done.
    set (d1 := Defrag (whole d) _ _).
    match goal with |- context [let '(_, _) := ?x in _] => set (taken := x) end.
    assert (exists f', taken = (m, Defrag (set_first_payload f' w) (fragments d1) (frag d1)) /\
       (1 ∈ n :: got -> f' = next)) as (f' & -> & Hf').
    { subst taken. destruct (n =? 1) eqn:E1.
      - apply Z.eqb_eq in E1. exists (get_next_type p). split; [|intros _; by apply Hnext].
        unfold take_unencrypted. rewrite Hpl. cbn [List.filter]. rewrite Ht, Z.eqb_refl. cbn [negb app].
        cbn [with_whole whole fragments frag]. f_equal; [rewrite <- Hpl; by destruct m|]. f_equal.
        unfold d1. cbn [whole]. rewrite Hwf. cbn [set_first_payload payloads]. rewrite Hp.
        destruct w. cbn in *. by subst.
      - exists f. split; [by rewrite <- Hwf|]. apply Z.eqb_neq in E1.
        intros [?|?]%elem_of_cons; [congruence|auto]. }
    cbn [fragments frag d1]. unfold array_count. change (default [] (Some ?x)) with x.
    destruct (complete (n :: got)) eqn:Ec.
    + apply complete_all in Ec. pose proof (kept_complete _ _ Ec) as Hk. rewrite Hk.
      unfold all at 1. rewrite number_length, Z.eqb_refl.
      unfold merge_fragments. rewrite Hsrc, Hdst. cbn [bind]. do 2 eexists. split; [done|]. split; [done|].
      unfold fragments_data. cbn [with_whole whole fragments frag]. change (default [] (Some ?x)) with x.
      assert (1 ∈ n :: got) as H1.
      { assert (is_Some (cs !! 0%nat)) as [c Hc0] by (apply lookup_lt_is_Some_2; unfold total in Hr; lia).
        rewrite Forall_forall in Ec. exact (Ec _ (number_lookup cs 1 0 c Hc0)). }
      unfold all. rewrite number_data, (Hf' H1). unfold put_reassembled, reassembled_of.
      cbn [set_packet set_first_payload payloads first_payload]. rewrite Hp. cbn [app].
      eexists. split; [reflexivity|]. by eexists.
    + assert (Z.of_nat (length (kept (n :: got) all)) =? total = false) as ->.
      { apply Z.eqb_neq. unfold complete in Ec.
        assert (exists x, x ∈ all /\ frag_num x ∉ n :: got) as (x & Hx1 & Hx2).
        { clear -Ec. induction all as [|x fs IH]; [done|]. cbn [forallb] in Ec. case_bool_decide.
          - destruct IH as (y & ? & ?); [done|]. exists y. split; [by right|done].
          - exists x. split; [by left|done]. }
        pose proof (kept_missing _ _ _ Hx1 Hx2) as Hm. unfold total, all in *. rewrite number_length in Hm. lia. }
      do 2 eexists. split; [done|]. split; [done|]. split; cbn [whole fragments frag]; [by exists f'|done|done].
Qed.

End Assembling.
