(* ===== verification/MessageClear.v ===== *)
(** Messages in the clear, those of IKE_SA_INIT: what is generated without a transform is parsed
    and accepted. *)

From Stdlib Require Import Strings.String.
From stdpp Require Import gmap strings.
From S2P Require Import Prelude Host Bits Payloads Parser Generator Encoding ParserSpec ParserComplete.
From S2P Require Import GeneratorSpec CodecSpec Verify EncryptedPayload MessageRules Message MessageSafe MessageWire MessageSpec.
#[local] Open Scope Z_scope.

(** The exchange has a rule for the payload, and it may come in the clear. *)
Definition in_clear (r : message_rule) (p : payload) : bool :=
  match get_payload_rule r (get_type p) with Some rule => negb (rule_encrypted rule) | None => false end.

Record clear (id : ike_sa_id) (r : message_rule) (this : message) : Prop := {
  clear_out : outgoing id this;
  clear_id : sa_id this = Some id;
  clear_rule : get_message_rule this = Some r /\ encrypted r = false;
  clear_plain : is_encrypted this = false;
  clear_ends : is_Some (source (message_packet this)) /\ is_Some (destination (message_packet this));
  clear_payloads : Forall sendable (payloads this) /\ Forall (fun p => in_clear r p = true) (payloads this);
  clear_formats : formats_ordered (sent_order r this) = true;
  clear_size : 28 + total_length (payloads this) < 2 ^ 32;
}.

Definition not_v1 (k : option keymat) : Prop :=
  match k with Some k => get_version k <> IKEV1 | None => True end.

Definition clear_datagram (id : ike_sa_id) (r : message_rule) (this : message) (data : chunk) : Prop :=
  bytes_ok data /\ len data = 28 + total_length (payloads this) /\
  of_bytes data = encode (sent_header id this (head_type PL_NONE (sent_order r this)) (len data))
    ++ encode_all (link PL_NONE (sent_order r this)).

Lemma insert_hash_v2 k m : not_v1 k -> insert_hash k m = (m, false).
Proof. destruct k as [k|]; [|done]. intros H. unfold insert_hash. by rewrite (proj2 (Z.eqb_neq _ _) H). Qed.

Lemma generate_parts_clear heap id this t qs : outgoing id this -> payloads this = qs ->
  Forall sendable qs -> formats_ordered qs = true -> t = head_type PL_NONE qs ->
  exists g, generate_parts heap id PL_NONE this = Ok (set_payloads (link PL_NONE qs) this, g) /\
  at_cursor (At 0) g /\ header_length_offset g = 24 /\
  output g = encode (sent_header id this t 28) ++ encode_all (link PL_NONE qs).
Proof.
  intros Ho Hp Hq Hf ->. pose proof (head_type_octet PL_NONE qs ltac:(done) Hq) as Ht.
  destruct (sent_header_ok id this (head_type PL_NONE qs) 28 Ho Ht ltac:(lia)) as [Hh _].
  destruct (header_generated heap _ Hh) as (g1 & E1 & C1 & O1 & L1 & F1).
  pose proof (link_sendable PL_NONE qs ltac:(done) Hq) as Hl.
  destruct (generate_all_writes heap (link PL_NONE qs) g1) as (g2 & E2 & C2 & O2);
    [done| |by rewrite link_flags|by left|].
  { apply forallb_forall. intros q Hi%list_elem_of_In. rewrite Forall_forall in Hl. by apply Hl. }
  exists g2. unfold generate_parts. rewrite generate_loop_link, Hp. cbn [link].
  rewrite sent_header_start by done. unfold generate_all in *. cbn [generate_list]. rewrite E1. cbn [bind].
  pose proof (generate_all_places heap 24 (link PL_NONE qs) g1 L1 Hl) as P. unfold generate_all in P.
  rewrite E2 in P |- *. cbn [bind app tail]. split_and!; [done|done|exact P|by rewrite O2, O1].
Qed.

Lemma generate_clear heap k id r this : clear id r this -> not_v1 k ->
  exists sent, Message.generate heap k this = Ok (SUCCESS, sent) /\
  clear_datagram id r this (packet_data (message_packet sent)).
Proof.
  intros [Ho Hid [Hr Henc] He [[s Hsrc] [d Hdst]] [Hs _] Hf Hn] Hk.
  destruct (ordered_payloads r this Hs) as (f & qs & Eo & Hq & Elink & Ef & Eh & El).
  unfold Message.generate, generate_message.
  destruct (exchange_type this =? EXCHANGE_TYPE_UNDEFINED) eqn:E0.
  { apply Z.eqb_eq in E0. pose proof (out_exchange _ _ Ho) as Hx. rewrite E0 in Hx.
    rewrite !elem_of_cons, elem_of_nil in Hx. by destruct_or! Hx. }
  rewrite Hsrc, Hdst. cbn [set_rule rule]. rewrite Hr.
  set (this1 := set_rule (Some r) this).
  assert ((if sort_disabled this1 then this1 else order_payloads r this1)
          = set_first_payload f (set_payloads qs this1)) as ->.
  { transitivity (set_rule (Some r) (ordered r this)); [|by rewrite Eo].
    subst this1. rewrite order_payloads_rule. unfold ordered. change (sort_disabled (set_rule (Some r) this))
      with (sort_disabled this). by destruct (sort_disabled this). }
  set (this2 := set_first_payload f (set_payloads qs this1)).
  rewrite insert_hash_v2 by done. unfold encrypting. destruct (out_version _ _ Ho) as [Hv _].
  assert (major_version this2 = 2) as -> by done. cbn [Z.eqb Pos.eqb IKEV2_MAJOR_VERSION]. rewrite Henc.
  unfold generate_with.
  assert (set_is_encrypted false this2 = this2) as -> by (rewrite <- He; reflexivity). set (this3 := this2).
  assert (sa_id this3 = Some id) as -> by done. cbn [next_type].
  assert (outgoing id this3) as Ho3 by (destruct Ho; by split).
  destruct (generate_parts_clear heap id this3 _ qs Ho3 eq_refl Hq ltac:(by rewrite Ef) eq_refl)
    as (g & -> & Cg & Lg & Og).
  cbn [bind]. rewrite decide_True by done. unfold finalize_message, finish.
  pose proof (head_type_octet PL_NONE qs ltac:(done) Hq) as Ht.
  destruct (sent_header_ok id this3 (head_type PL_NONE qs) 28 Ho3 Ht ltac:(lia)) as [Hh _].
  pose proof (link_sendable PL_NONE qs ltac:(done) Hq) as Hl.
  pose proof (encode_all_length _ Hl) as Hel. rewrite total_length_link, El in Hel.
  assert (forall g n, at_cursor (At 0) g ->
    output g = encode (sent_header id this3 (head_type PL_NONE qs) n) ++ encode_all (link PL_NONE qs) ->
    len (fst (get_chunk g)) = 28 + total_length (payloads this)) as Hlen.
  { clear Cg Lg Og g. intros g n Cg Og. destruct (chunk_output g Cg) as [E _]. apply (f_equal length) in E.
    rewrite length_of_bytes, Og, length_app, sent_header_length in E by done. unfold len. lia. }
  rewrite (Hlen g 28 Cg Og). set (n := 28 + total_length (payloads this)) in *.
  destruct (fill_length_header _ g _ n Hh Cg Lg Og) as (g3 & -> & C3 & _ & O3 & _).
  cbn [bind]. rewrite sent_header_again in O3. destruct (chunk_output g3 C3) as [Hf1 Hf2].
  match goal with |- context [is_encrypted ?m] => change (is_encrypted m) with (is_encrypted this) end.
  rewrite He.
  cbn [andb]. eexists. split; [done|]. cbn [set_packet_data set_packet message_packet packet_data].
  pose proof (Hlen g3 n C3 O3) as Hl3. split; [exact Hf2|]. split; [exact Hl3|].
  rewrite Hl3, Hf1, <- Elink, <- Eh. exact O3.
Qed.

Lemma decrypt_loop_clear accept k r : forall rest before m, Forall sendable rest ->
  Forall (fun p => in_clear r p = true) rest -> decrypt_loop accept k r before rest m = Ok (SUCCESS, m).
Proof.
  induction rest as [|p rest IH]; intros before m Hs Hc; [done|]. inversion_clear Hs as [|? ? Hp Hs'].
  inversion_clear Hc as [|? ? Hcp Hc']. cbn [decrypt_loop].
  destruct (sendable_type p Hp) as [Ht Hb]. destruct (sendable_plain p Hp) as [P1 P2].
  pose proof (known_types _ (sendable_known p Hp)) as Hk.
  unfold in_clear in Hcp. rewrite Ht in *. rewrite (proj2 (Z.eqb_neq _ _) P1), (proj2 (Z.eqb_neq _ _) P2).
  assert ((type_ p =? PLV1_ENCRYPTED) = false) as ->.
  { apply Z.eqb_neq. cbn [In] in Hk. unfold PLV1_ENCRYPTED. lia. }
  cbn [orb]. assert (not_encrypted accept r (type_ p) m = false) as ->; [|by apply IH].
  unfold not_encrypted. destruct (get_payload_rule r (type_ p)) as [rule|]; [|done].
  apply negb_true_iff in Hcp. rewrite Hcp. by rewrite !andb_false_r.
Qed.

Lemma in_clear_link r t ps : Forall (fun p => in_clear r p = true) ps ->
  Forall (fun p => in_clear r p = true) (link t ps).
Proof.
  induction 1 as [|p ps Hp _ IH]; [constructor|]. cbn [link]. constructor; [|done].
  unfold in_clear in *. by rewrite get_type_set.
Qed.

Lemma enough_fuel ps : Forall sendable ps -> Z.of_nat (length ps) <= total_length ps.
Proof.
  induction 1 as [|q qs Hq _ IH]; [done|]. rewrite total_length_cons. cbn [length].
  destruct (sendable_sized q Hq) as (E1 & -> & l & r & L & E & _).
  apply (f_equal length) in E. rewrite !length_app, length_bits in E. lia.
Qed.

Lemma parse_clear accept k id r this data src dst : clear id r this -> not_v1 k ->
  verify_message r this = true -> clear_datagram id r this data ->
  exists head body, parse_header (message_create_from_packet (Packet src dst data)) = Ok (SUCCESS, head) /\
  parse_body accept k head = Ok (SUCCESS, body) /\ accepted r this body /\
  sa_id body = Some (IkeSaId 2 (initiator_spi id) (responder_spi id) (is_initiator_flag id)).
Proof.
  intros [Ho Hid [Hr Henc] _ _ [Hs Hc] Hf Hn] Hk Hver [Hd [Hlen Hdata]].
  set (qs := sent_order r this) in *. set (t := head_type PL_NONE qs) in *.
  pose proof (sent_order_sendable r this Hs) as Hq. fold qs in Hq.
  assert (Forall (fun p => in_clear r p = true) qs) as Hqc.
  { unfold qs, sent_order. case_match; [done|]. by rewrite arrange_permutation. }
  pose proof (head_type_octet PL_NONE qs ltac:(done) Hq) as Ht. fold t in Ht.
  destruct (parse_header_sent id this t (len data) (Packet src dst data) (encode_all (link PL_NONE qs)))
    as (p & Eh & Vp & Bp & Mp & Rp & Ip); [done|done|pose proof (len_nonneg data); lia|done|done|].
  set (head := received id this t (Packet src dst data) p) in *. exists head. unfold parse_body.
  rewrite (get_message_rule_ext head this) by done. rewrite Hr.
  set (m0 := set_rule (Some r) head). change (rule m0) with (Some r). cbv iota.
  change (message_parser m0) with (Some p). cbv iota. unfold parse_payloads.
  change (is_encrypted m0) with false. change (first_payload m0) with t.
  pose proof (enough_fuel qs Hq) as Hfuel. unfold qs in Hfuel. rewrite (sent_order_length r this) in Hfuel. fold qs in Hfuel.
  destruct (message_parse_loop qs (S (length (input p)) - length qs) PL_NONE m0 p [] Hq ltac:(done) Vp Bp Mp)
    as (p' & _ & _ & _ & _ & _ & El); [by rewrite app_nil_r|].
  replace (length qs + (S (length (input p)) - length qs))%nat with (S (length (input p))) in El.
  2: { rewrite Ip. cbn [packet_data]. unfold len in Hlen. lia. }
  fold t in El. rewrite El. change (payloads m0) with (@nil payload). cbn [app].
  assert (forall fuel (m : message), Message.parse_loop fuel PL_NONE p' m = Ok (SUCCESS, set_parser (Some p') m))
    as Hend by (by intros []).
  rewrite Hend. cbn [bind]. rewrite bool_decide_eq_true_2 by done. cbn [negb].
  set (m1 := set_parser (Some p') _). unfold decrypt_payloads. change (payloads m1) with (link PL_NONE qs).
  rewrite decrypt_loop_clear; [|by apply link_sendable|by apply in_clear_link].
  cbn [bind]. rewrite bool_decide_eq_true_2 by done. cbn [negb].
  rewrite (verify_sent r this) by done. rewrite Hver. cbn [negb].
  assert (check_hash k m1 = Ok SUCCESS) as ->.
  { unfold check_hash. destruct k as [k|]; [|done]. by rewrite (proj2 (Z.eqb_neq _ _) Hk). }
  cbn [bind]. eexists. split; [exact Eh|]. split; [done|]. split; [by split_and!|done].
Qed.

(** C11: A message that is sent in the clear, as those of IKE_SA_INIT are, is parsed by the peer as
    the same exchange, message ID, direction and SPIs, with exactly its payloads in the order of
    the exchange. *)
Theorem clear_roundtrip heap accept (k k' : option keymat) (id : ike_sa_id) (r : message_rule)
    (this : message) (src dst : option host_t) :
  clear id r this -> not_v1 k -> not_v1 k' -> verify_message r this = true ->
  exists sent head body,
  Message.generate heap k this = Ok (SUCCESS, sent) /\
  parse_header (message_create_from_packet (Packet src dst (packet_data (message_packet sent))))
    = Ok (SUCCESS, head) /\
  parse_body accept k' head = Ok (SUCCESS, body) /\ accepted r this body /\
  sa_id body = Some (IkeSaId 2 (initiator_spi id) (responder_spi id) (is_initiator_flag id)).
Proof.
  intros Hc Hk Hk' Hv. destruct (generate_clear heap k id r this Hc Hk) as (sent & E & Hd).
  destruct (parse_clear accept k' id r this _ src dst Hc Hk' Hv Hd) as (head & body & Eh & Eb & Ha & Hi).
  by exists sent, head, body.
Qed.

(** * An example *)

(** An IKE_SA_INIT request; the responder has no SPI yet. *)
Definition example_init_id : ike_sa_id := IkeSaId 2 [1; 2; 3; 4; 5; 6; 7; 8] (replicate 8 0) true.
Definition example_nonce : payload :=
  set_num "payload_length" 20 (set_bytes "nonce" (replicate 16 7) (nonce_payload_create PLV2_NONCE)).
Definition example_ke : payload :=
  set_num "payload_length" 16
    (set_num "dh_group_number" 31 (set_bytes "key_exchange_data" (replicate 8 3) (ke_payload_create PLV2_KEY_EXCHANGE))).
Definition example_init : message :=
  let m := set_ike_sa_id example_init_id (message_create 2 0) in
  let m := set_packet (Packet example_host example_host []) m in
  let m := set_exchange_type IKE_SA_INIT m in
  Message.add_payload Example_sa.sa (Message.add_payload example_ke (Message.add_payload example_nonce m)).
Definition example_init_rule : message_rule :=
  default (MessageRule 0 true true [] []) (get_message_rule example_init).

Lemma example_clear : clear example_init_id example_init_rule example_init.
Proof.
  split.
  - split; [by split| |done| |]; try (vm_compute; done).
    apply (bool_decide_unpack _). vm_compute. done.
  - reflexivity.
  - split; vm_compute; reflexivity.
  - reflexivity.
  - split; eexists; reflexivity.
  - split; [apply are_sendable; vm_compute; reflexivity|].
    apply (bool_decide_unpack _). vm_compute. exact I.
  - vm_compute; reflexivity.
  - vm_compute; reflexivity.
Qed.

Lemma clear_roundtrip_witness :
  (get_type <$> payloads example_init) = [PLV2_NONCE; PLV2_KEY_EXCHANGE; PLV2_SECURITY_ASSOCIATION] /\
  (get_type <$> sent_order example_init_rule example_init)
    = [PLV2_SECURITY_ASSOCIATION; PLV2_KEY_EXCHANGE; PLV2_NONCE] /\
  exists sent head body,
  Message.generate (fun _ => 0) None example_init = Ok (SUCCESS, sent) /\
  parse_header (message_create_from_packet (Packet None None (packet_data (message_packet sent))))
    = Ok (SUCCESS, head) /\
  parse_body false None head = Ok (SUCCESS, body) /\ accepted example_init_rule example_init body /\
  sa_id body = Some (IkeSaId 2 [1; 2; 3; 4; 5; 6; 7; 8] (replicate 8 0) true).
Proof.
  split; [vm_compute; reflexivity|]. split; [vm_compute; reflexivity|].
  apply (clear_roundtrip (fun _ => 0) false None None example_init_id example_init_rule example_init None None).
  - exact example_clear.
  - exact I.
  - exact I.
  - vm_compute; reflexivity.
Defined.
