(* ===== verification/FragmentsSpec.v ===== *)
(** Fragments end to end: what [fragment] makes of a message is put together by the receiver,
    in whatever order the datagrams come. *)

From Stdlib Require Import Strings.String.
From stdpp Require Import gmap strings.
From S2P Require Import Prelude Host Bits Payloads Parser Generator Encoding ParserSpec ParserComplete.
From S2P Require Import GeneratorSpec CodecSpec Verify EncryptedPayload MessageRules Message MessageSafe MessageWire MessageSpec.
From S2P Require Import Fragments Reassembly.
#[local] Open Scope Z_scope.

(** * A fragment *)

(** Only the first one has the type of the first payload. *)
Definition first_type (next n : Z) : Z := if n =? 1 then next else 0.

(** An encrypted fragment payload before it is encrypted, and after that. *)
Record piece (next n total : Z) (plain encrypted : chunk) (e : payload) : Prop := {
  piece_kind : class e = C_ENCRYPTED_FRAGMENT /\ type_ e = PLV2_FRAGMENT;
  piece_next : num "next_payload" e = first_type next n;
  piece_flags : num "flags" e = 0;
  piece_number : num "fragment_number" e = n /\ num "total_fragments" e = total;
  piece_plain : bytes "plain" e = plain;
  piece_encrypted : bytes "encrypted" e = encrypted;
}.

Definition create_piece (next n total : Z) (plain : chunk) : payload :=
  let e := encrypted_fragment_payload_create_from_data n total plain in
  if n =? 1 then set_next_type next e else e.

Lemma create_piece_piece next n total plain : 0 < next < 256 -> 1 <= n <= total -> total < 2 ^ 16 ->
  piece next n total plain [] (create_piece next n total plain).
Proof.
  intros Hx Hn Ht. unfold create_piece, first_type, encrypted_fragment_payload_create_from_data.
  assert (u16 n = n) as -> by (apply (wrap_small 16); lia).
  assert (u16 total = total) as -> by (apply (wrap_small 16); lia).
  assert (u8 next = next) as Hu.
  { unfold u8. apply wrap_small. change (2 ^ 8) with 256. lia. }
  destruct (n =? 1) eqn:E.
  - apply Z.eqb_eq in E. subst n. unfold set_next_type.
    cbn [class set_bytes set_num encrypted_fragment_payload_create with_length zeroed].
    match goal with |- context [num "fragment_number" ?x =? 1] =>
      assert (num "fragment_number" x = 1) as -> by (by repeat members);
      assert (num "next_payload" x = PL_NONE) as -> by (by repeat members) end.
    cbn [Z.eqb Pos.eqb PL_NONE andb]. rewrite Hu. split; repeat members; try done.
  - split; repeat members; try done. unfold first_type. by rewrite E.
Qed.

Lemma piece_as_it_is next n total plain encrypted e : piece next n total plain encrypted e ->
  0 < next < 256 -> set_next_type PL_NONE e = e.
Proof.
  intros [[K1 _] N _ [M _] _ _] Hx. unfold set_next_type. rewrite K1, N, M. unfold first_type.
  destruct (n =? 1); [|done]. cbn [andb]. by rewrite (proj2 (Z.eqb_neq _ _)) by (unfold PL_NONE; lia).
Qed.

(** The length of the payload, and what of it is authenticated. *)
Definition piece_length (a : aead) (plain : chunk) : Z := len plain + compute_overhead a (len plain) + 8.

Definition piece_assoc (assoc : chunk) (next n total l : Z) : chunk :=
  assoc ++ first_type next n :: 0 :: be_bytes 2 l ++ be_bytes 2 n ++ be_bytes 2 total.

Definition piece_bits (next n total l : Z) (encrypted : chunk) : list bool :=
  bits 8 (first_type next n) ++ bits 8 0 ++ bits 16 l ++ bits 16 n ++ bits 16 total ++ of_bytes encrypted.

(** How the fragment is sealed. *)
Definition sealing_of_piece (a : aead) (mid next n total : Z) (plain assoc : chunk) (body : list bool) : Prop :=
  exists encrypted, encrypt_content a (Z.lor (u64 (Z.shiftl mid 32)) n) plain
    (piece_assoc assoc next n total (piece_length a plain)) = (SUCCESS, encrypted) /\
  body = piece_bits next n total (piece_length a plain) encrypted.

Lemma piece_bits_length next n total l c :
  Z.of_nat (length (piece_bits next n total l c)) = 64 + 8 * len c.
Proof. unfold piece_bits. rewrite !length_app, !length_bits, length_of_bytes. unfold len. lia. Qed.

Lemma piece_get_length a next n total plain e : piece next n total plain [] e ->
  0 <= compute_overhead a (len plain) -> piece_length a plain < 2 ^ 16 ->
  frag_get_length (Some a) e = (piece_length a plain, set_num "payload_length" (piece_length a plain) e).
Proof.
  intros [_ _ _ _ P E] Hc Hl. unfold frag_get_length. rewrite E, P. change (negb (len [] =? 0)) with false. cbv iota.
  pose proof (len_nonneg plain). unfold piece_length in *.
  assert (forall x, 0 <= x < 2 ^ 16 -> u16 x = x) as Hu by (intros; by apply wrap_small).
  rewrite (Hu (len plain)) by lia. rewrite (Hu (len plain + compute_overhead a (len plain))) by lia.
  unfold frag_get_header_length. rewrite Hu by lia. f_equal. by members.
Qed.

Lemma piece_set_length v next n total plain encrypted e : piece next n total plain encrypted e ->
  piece next n total plain encrypted (set_num "payload_length" v e).
Proof. intros [[K1 K2] N F [M T] P E]. split; repeat members; done. Qed.

Lemma piece_rules next n total plain encrypted e l : piece next n total plain encrypted e ->
  num "payload_length" e = l ->
  rules_bits [] e (get_encoding_rules e) = piece_bits next n total l encrypted.
Proof.
  intros [[K1 K2] N F [M T] P E] Hl. unfold get_encoding_rules, rules_bits. rewrite K1. cbn [rules_of].
  cbn [encodings_fragment mbind list_bind rule_bits rule_type offset].
  by rewrite N, F, Hl, M, T, E, app_nil_r.
Qed.

Lemma generate_piece heap next n total plain encrypted e l g : piece next n total plain encrypted e ->
  num "payload_length" e = l -> at_cursor (At 0) g ->
  exists g', Generator.generate heap e g = Ok g' /\ at_cursor (At 0) g' /\
  output g' = output g ++ piece_bits next n total l encrypted /\
  header_length_offset g' = header_length_offset g.
Proof.
  intros Hs Hn Hc. pose proof (piece_rules _ _ _ _ _ _ _ Hs Hn) as Hr. destruct Hs as [[K1 K2] N F M P E].
  assert (existsb is_list_rule (get_encoding_rules e) = false) as Hl.
  { unfold get_encoding_rules. rewrite K1. reflexivity. }
  destruct (generate_no_list heap 3 e g Hl) as (g' & E1 & C & O); [|done|].
  { unfold is_v2_attribute. by rewrite K1. }
  exists g'. split_and!; [done|done|by rewrite O, Hr|].
  pose proof (generate_payload_places heap _ 4 e g eq_refl) as X.
  unfold Generator.generate in *. rewrite E1 in X. apply X; [by rewrite K1|by rewrite Hl].
Qed.

Lemma piece_seals heap a mid next n total plain e : seals a -> piece next n total plain [] e ->
  0 <= compute_overhead a (len plain) -> piece_length a plain < 2 ^ 16 ->
  seals_as heap a mid (piece_length a plain) e (sealing_of_piece a mid next n total plain).
Proof.
  intros Ha Hp Hc Hl. pose proof (piece_get_length a _ _ _ _ _ Hp Hc Hl) as El.
  pose proof (piece_set_length (piece_length a plain) _ _ _ _ _ _ Hp) as Hp1.
  eexists. split; [unfold encrypted_method_get_length; destruct Hp as [[-> _] _ _ _ _ _]; exact El|].
  intros assoc Hassoc. set (e1 := set_num _ _ e) in *.
  pose proof (piece_get_length a _ _ _ _ _ Hp1 Hc Hl) as El1.
  set (e2 := set_num "payload_length" (piece_length a plain) e1) in *.
  pose proof (piece_set_length (piece_length a plain) _ _ _ _ _ _ Hp1) as Hp2. fold e2 in Hp2.
  unfold encrypted_method_encrypt. assert (class e1 = C_ENCRYPTED_FRAGMENT) as -> by apply Hp1.
  unfold frag_encrypt, append_header_frag. rewrite El1.
  pose proof Hp2 as [_ N F [M T] P _]. rewrite N, F, M, T, P.
  fold (piece_assoc assoc next n total (piece_length a plain)).
  destruct (Ha (Z.lor (u64 (Z.shiftl mid 32)) n) plain (piece_assoc assoc next n total (piece_length a plain)))
    as [encrypted Ec]. rewrite Ec, decide_True by done.
  eexists _, (piece_bits next n total (piece_length a plain) encrypted). split; [done|].
  split; [by exists encrypted|]. split.
  { rewrite piece_bits_length. exists (8 + len encrypted). lia. }
  intros g Hg. apply generate_piece with (plain := plain); [|unfold e2; by repeat members|done].
  destruct Hp2 as [[K1 K2] N2 F2 [M2 T2] P2 E2]. split; repeat members; done.
Qed.

(** * The fragment that is received *)

Definition received_piece (next n total l : Z) (encrypted : chunk) : payload :=
  set_bytes "encrypted" encrypted
    (set_num "payload_length" l
       (set_num "total_fragments" total
          (set_num "fragment_number" n
             (set_num "next_payload" (first_type next n) encrypted_fragment_payload_create)))).

Lemma received_piece_piece next n total l encrypted :
  piece next n total [] encrypted (received_piece next n total l encrypted) /\
  num "payload_length" (received_piece next n total l encrypted) = l /\
  elements (received_piece next n total l encrypted) = [].
Proof. unfold received_piece. split; [split|]; repeat members; try done. Qed.

Lemma received_piece_formed next n total l encrypted : 0 <= first_type next n < 256 ->
  0 <= n < 2 ^ 16 -> 0 <= total < 2 ^ 16 -> l = len encrypted + 8 -> 0 <= l < 2 ^ 16 ->
  bytes_ok encrypted -> well_formed (received_piece next n total l encrypted) = true.
Proof.
  intros Hx Hn Ht Hl Hl2 Ho. destruct (received_piece_piece next n total l encrypted) as (Hp & L & El).
  pose proof Hp as [K N F [M T] P E]. set (e := received_piece next n total l encrypted) in *.
  assert (well_formed e = forallb (rule_ok e) encodings_fragment && as_created e && true) as -> by done.
  assert (as_created e = true) as ->.
  { subst e. unfold received_piece. apply as_created_set_bytes; [apply list_elem_of_In; vm_compute; tauto|].
    do 4 (apply as_created_set_num; [apply list_elem_of_In; vm_compute; tauto|]). reflexivity. }
  assert (octets encrypted = true) as Hoct.
  { unfold octets, fits. apply forallb_forall. intros b Hi%list_elem_of_In. rewrite Forall_forall in Ho.
    specialize (Ho b Hi). unfold byte_ok in Ho. rewrite andb_true_iff, Z.leb_le, Z.ltb_lt. lia. }
  cbn [encodings_fragment forallb]. unfold rule_ok. cbn [rule_type offset].
  rewrite N, F, L, M, T, E, Hoct. unfold fits.
  assert (body_bits (encode_all (elements e)) e = of_bytes encrypted ++ []) as ->.
  { unfold body_bits. change (get_encoding_rules e) with encodings_fragment.
    cbn [encodings_fragment mbind list_bind body_rule rule_bits rule_type offset app]. by rewrite E. }
  change (get_header_length e) with 8. clearbody e.
  rewrite app_nil_r, length_of_bytes. unfold len in *.
  repeat rewrite (proj2 (andb_true_iff _ _)); try done;
    rewrite ?Z.leb_le, ?Z.ltb_lt, ?Z.eqb_eq; try lia.
Qed.

Lemma parse_piece next n total l encrypted p rest : 0 <= first_type next n < 256 ->
  0 <= n < 2 ^ 16 -> 0 <= total < 2 ^ 16 -> l = len encrypted + 8 -> 0 <= l < 2 ^ 16 ->
  bytes_ok encrypted -> valid p -> bit_pos p = 0 -> Parser.major_version p = 2 ->
  remaining p = piece_bits next n total l encrypted ++ rest ->
  exists p', Parser.parse PLV2_FRAGMENT p = Ok (received_piece next n total l encrypted, p').
Proof.
  intros Hx Hn Ht Hl Hl2 Ho Hv Hb Hm Hr.
  pose proof (received_piece_formed _ _ _ _ _ Hx Hn Ht Hl Hl2 Ho) as Hw.
  destruct (received_piece_piece next n total l encrypted) as (Hp & L & _).
  assert (encode (received_piece next n total l encrypted) = piece_bits next n total l encrypted) as He.
  { rewrite encode_unfold. change (elements (received_piece next n total l encrypted)) with (@nil payload).
    by eapply piece_rules. }
  destruct (parse_payload_encode 4 (received_piece next n total l encrypted) p rest) as (p' & E & _); try done.
  - apply rank_le.
  - unfold known_as. rewrite Hm. reflexivity.
  - by rewrite He.
  - by exists p'.
Qed.

Lemma verify_piece next n total plain encrypted e : piece next n total plain encrypted e ->
  1 <= n <= total -> verify e = Some e.
Proof.
  intros [[K _] N _ [M T] _ _] Hn. unfold verify, frag_verify. rewrite K, M, T, N.
  rewrite !(proj2 (Z.eqb_neq _ _)), (proj2 (Z.ltb_ge _ _)) by lia. cbn [orb]. unfold first_type.
  destruct (n =? 1) eqn:E; [apply Z.eqb_eq in E; by rewrite (proj2 (Z.ltb_ge 1 n)) by lia|].
  by rewrite andb_false_r.
Qed.

Lemma received_length next n total l encrypted transform : l = len encrypted + 8 ->
  0 < len encrypted -> l < 2 ^ 16 ->
  exists e, frag_get_length transform (received_piece next n total l encrypted) = (l, e) /\
  piece next n total [] encrypted e /\ num "payload_length" e = l.
Proof.
  intros -> Hp Hl. destruct (received_piece_piece next n total (len encrypted + 8) encrypted) as (H & _ & _).
  unfold frag_get_length. destruct H as [K N F M P E]. rewrite E, (proj2 (Z.eqb_neq _ _)) by lia. cbn [negb].
  assert (forall x, 0 <= x < 2 ^ 16 -> u16 x = x) as Hu by (intros; by apply wrap_small).
  rewrite (Hu (len encrypted)) by lia. unfold frag_get_header_length. rewrite Hu by lia.
  eexists. split; [f_equal; by members|]. split; [|by members]. by apply piece_set_length.
Qed.

Lemma length_again next n total encrypted e transform : piece next n total [] encrypted e ->
  0 < len encrypted -> len encrypted + 8 < 2 ^ 16 ->
  exists e', frag_get_length transform e = (len encrypted + 8, e') /\ piece next n total [] encrypted e'.
Proof.
  intros H Hp Hl. unfold frag_get_length. pose proof H as [K N F M P E].
  rewrite E, (proj2 (Z.eqb_neq _ _)) by lia. cbn [negb].
  assert (forall x, 0 <= x < 2 ^ 16 -> u16 x = x) as Hu by (intros; by apply wrap_small).
  rewrite (Hu (len encrypted)) by lia. unfold frag_get_header_length. rewrite Hu by lia.
  eexists. split; [f_equal; by members|]. by apply piece_set_length.
Qed.

Lemma decrypt_piece a a' mid assoc plain next n total encrypted e : opens a a' -> bytes_ok plain ->
  encrypt_content a mid plain (piece_assoc assoc next n total (len encrypted + 8)) = (SUCCESS, encrypted) ->
  piece next n total [] encrypted e -> 0 < len encrypted -> len encrypted + 8 < 2 ^ 16 ->
  exists encrypted' e', encrypted_method_decrypt (Some a') assoc e = Ok (SUCCESS, e') /\
  piece next n total plain encrypted' e'.
Proof.
  intros Hop Hpl Ec Hp H0 Hl. destruct (length_again _ _ _ _ _ (Some a') Hp H0 Hl) as (e1 & El & Hp1).
  unfold encrypted_method_decrypt. assert (class e = C_ENCRYPTED_FRAGMENT) as -> by apply Hp.
  unfold frag_decrypt, append_header_frag. rewrite El.
  pose proof Hp1 as [_ N F [M T] P E]. rewrite N, F, M, T, E.
  fold (piece_assoc assoc next n total (len encrypted + 8)).
  destruct (content_roundtrip a a' mid plain _ encrypted Hop Hpl Ec) as (_ & _ & encrypted' & ->).
  cbn [bind]. exists encrypted'. eexists. split; [done|].
  destruct Hp1 as [[K1 K2] _ _ _ _ _]. split; repeat members; try done.
Qed.

(** Every exchange that is protected takes a fragment alone. *)
Lemma fragment_accepted r p : r ∈ message_rules -> protected_exchange (rule_exchange_type r) = true ->
  get_type p = PLV2_FRAGMENT -> verify_loop (rule_list r) false [p] = true.
Proof.
  intros Hr Hx Hp.
  assert (forallb (fun r => negb (protected_exchange (rule_exchange_type r))
            || verify_loop (rule_list r) false [encrypted_fragment_payload_create]) message_rules = true) as H
    by (vm_compute; reflexivity).
  rewrite forallb_forall in H. specialize (H r (proj1 (list_elem_of_In _ _) Hr)). rewrite Hx in H.
  rewrite <- H. apply verify_loop_permutation. cbn. by rewrite Hp.
Qed.

(** What a message with a fragment is parsed as. *)
Record piece_message (id : ike_sa_id) (this : message) (next n total : Z) (plain : chunk) (pkt : packet)
    (m : message) : Prop := {
  pm_exchange : exchange_type m = exchange_type this /\ is_request m = is_request this /\
    message_id m = message_id this /\ major_version m = 2 /\ minor_version m = minor_version this /\
    reserved m = reserved this;
  pm_id : sa_id m = Some (IkeSaId 2 (initiator_spi id) (responder_spi id) (is_initiator_flag id));
  pm_packet : message_packet m = pkt;
  pm_payload : exists p encrypted, payloads m = [p] /\ piece next n total plain encrypted p;
}.

Lemma parse_piece_message accept k' id r a a' this next n total plain pkt : ready id r this ->
  opens a a' -> get_version k' <> IKEV1 -> get_aead k' true = Some a' ->
  0 < next < 256 -> 1 <= n <= total -> total < 2 ^ 16 -> bytes_ok plain -> piece_length a plain < 2 ^ 16 ->
  datagram_with id this PLV2_FRAGMENT (piece_length a plain)
    (sealing_of_piece a (message_id this) next n total plain) (packet_data pkt) ->
  exists head m, parse_header (message_create_from_packet pkt) = Ok (SUCCESS, head) /\
  parse_body accept (Some k') head = Ok (SUCCESS, m) /\ piece_message id this next n total plain pkt m.
Proof.
  intros [Ho Hid Hx Hr He _] Hop Hk Hka Hnx Hn Ht Hpl Hlt [Hd (assoc & body & Has2 & Has1 & Hb & Hdata & Hlen)].
  destruct Hb as (encrypted & Ec & ->). rewrite piece_bits_length in Hlen.
  destruct (content_roundtrip a a' _ plain _ encrypted Hop Hpl Ec) as (Hl & Hoe & _).
  set (l := piece_length a plain) in *.
  assert (l = len encrypted + 8) as Hl8 by (subst l; unfold piece_length; lia).
  pose proof (len_nonneg plain) as Hp0. pose proof (Z.mod_pos_bound (len plain) (get_block_size a)) as Hmod.
  assert (0 < get_block_size a <= len encrypted) as Hbs.
  { destruct Hop as [Hbs (_ & _ & _ & Hi & Hc) _ _ _ _ _]. unfold compute_overhead in Hl.
    specialize (Hmod ltac:(lia)). split; [lia|]. rewrite Hl.
    pose proof (Z.mod_le (len plain) (get_block_size a) ltac:(lia) ltac:(lia)). lia. }
  assert (0 <= PLV2_FRAGMENT < 256) as Htt by done.
  assert (0 <= first_type next n < 256) as Hft by (unfold first_type; case_match; lia).
  destruct (parse_header_sent id this PLV2_FRAGMENT (len (packet_data pkt)) pkt
    (piece_bits next n total l encrypted)) as (p & Eh & Vp & Bp & Mp & Rp & Ip);
    [done|done|lia|done|done|].
  set (head := received id this PLV2_FRAGMENT pkt p) in *.
  exists head. unfold parse_body.
  rewrite (get_message_rule_ext head this) by done. rewrite Hr.
  set (m0 := set_rule (Some r) head). change (rule m0) with (Some r). cbv iota.
  change (message_parser m0) with (Some p). cbv iota. unfold parse_payloads.
  change (is_encrypted m0) with false. change (first_payload m0) with PLV2_FRAGMENT.
  destruct (parse_piece next n total l encrypted p []) as (p' & Ep); try done; [lia..|by rewrite app_nil_r|].
  cbn [Message.parse_loop]. change (PLV2_FRAGMENT =? PL_NONE) with false. cbv iota. rewrite Ep.
  destruct (received_piece_piece next n total l encrypted) as (Hpc & _ & _).
  rewrite (verify_piece _ _ _ _ _ _ Hpc Hn).
  change (PLV2_FRAGMENT =? PLV2_FRAGMENT) with true. rewrite orb_true_r. cbn [bind].
  rewrite bool_decide_eq_true_2 by done. cbn [negb].
  set (o := received_piece next n total l encrypted) in *.
  set (m1 := set_parser (Some p') _). unfold decrypt_payloads.
  change (payloads m1) with [o]. cbn [decrypt_loop].
  assert (get_type o = PLV2_FRAGMENT) as ->.
  { destruct Hpc as [[K1 K2] _ _ _ _ _]. unfold get_type. by rewrite K1, K2. }
  change (PLV2_FRAGMENT =? PLV2_ENCRYPTED) with false. change (PLV2_FRAGMENT =? PLV1_ENCRYPTED) with false.
  change (PLV2_FRAGMENT =? PLV2_FRAGMENT) with true. cbn [orb].
  unfold decrypt_fragment. rewrite Hka.
  change (packet_data (message_packet m1)) with (packet_data pkt). unfold encrypted_method_get_length.
  assert (class o = C_ENCRYPTED_FRAGMENT) as -> by apply Hpc.
  destruct (received_length next n total l encrypted (Some a')) as (o1 & Eo & Hpc1 & _); [done|lia|lia|].
  fold o in Eo. rewrite Eo.
  rewrite (proj2 (Z.ltb_ge _ _)) by lia.
  assert ((len (packet_data pkt) <? get_block_size a') = false) as ->.
  { apply Z.ltb_ge. destruct Hop as [_ (-> & _) _ _ _ _ _]. lia. }
  cbn [orb].
  assert (associated (packet_data pkt) l = assoc) as ->.
  { unfold associated. apply of_bytes_inj; [auto with chunk|done|].
    rewrite of_bytes_take, Hdata, Has1.
    rewrite take_app_length'; [|rewrite sent_header_length by done; lia].
    assert (len (packet_data pkt) = 28 + l) as -> by lia. reflexivity. }
  destruct (decrypt_piece a a' (Z.lor (u64 (Z.shiftl (message_id this) 32)) n) assoc plain next n total encrypted o1 Hop Hpl) as (enc' & o2 & -> & Hpc2);
    [by rewrite <- Hl8|done|lia|lia|]. cbn [bind app].
  rewrite bool_decide_eq_true_2 by done. cbn [negb].
  assert (get_type o2 = PLV2_FRAGMENT) as Et.
  { destruct Hpc2 as [[K1 K2] _ _ _ _ _]. unfold get_type. by rewrite K1, K2. }
  set (m2 := set_payloads [o2] m1).
  assert (verify_message r m2 = true) as ->.
  { unfold verify_message. change (payloads m2) with [o2].
    unfold get_message_rule in Hr. apply List.find_some in Hr as [Hin Er].
    apply andb_true_iff in Er as [Er _]. apply Z.eqb_eq in Er.
    apply fragment_accepted; [by apply list_elem_of_In|by rewrite <- Er|done]. }
  cbn [negb]. unfold check_hash. rewrite (proj2 (Z.eqb_neq _ _) Hk). cbn [negb bind].
  eexists. split; [exact Eh|]. split; [done|]. split; [by split_and!|done|done|by exists o2, enc'].
Qed.

(** * Sending a fragment *)

(** What a fragment has of the message it is made for. *)
Definition alike (this m : message) : Prop :=
  exchange_type m = exchange_type this /\ is_request m = is_request this /\
  message_id m = message_id this /\ minor_version m = minor_version this /\ reserved m = reserved this /\
  source (message_packet m) = source (message_packet this) /\
  destination (message_packet m) = destination (message_packet this).

Lemma clone_alike id r this : ready id r this ->
  exists m, clone_message this = Ok m /\ ready id r m /\ alike this m /\ payloads m = [] /\
  sort_disabled m = false.
Proof.
  intros [[[V1 V2] Hx Hm Hi Hrs] Hid Ht Hr He [[s Hs] [d Hd]]]. unfold clone_message. rewrite Hid, Hs, Hd.
  assert (u8 (minor_version this) = minor_version this) as Hv8.
  { unfold u8. apply wrap_small. change (2 ^ 8) with 256. lia. }
  assert (u32 (message_id this) = message_id this) as Hm32 by (by apply wrap_small).
  eexists. split; [done|]. split; [|split; [by split_and!|done]].
  split; [split; cbn; rewrite ?V1, ?Hv8, ?Hm32; done|done|done| |done|cbn; by eauto].
  rewrite <- Hr. by apply get_message_rule_ext.
Qed.

Lemma arrange_one os p : arrange os [p] = [p].
Proof. apply Permutation_singleton_r, arrange_permutation. Qed.

Lemma generate_piece_message heap k id r a m next n total plain e : ready id r m ->
  seals a -> get_version k <> IKEV1 -> get_aead k false = Some a ->
  payloads m = [] -> sort_disabled m = false -> 0 < next < 256 -> piece next n total plain [] e ->
  0 <= compute_overhead a (len plain) -> piece_length a plain < 2 ^ 16 ->
  exists sent, Message.generate heap (Some k) (Message.add_payload e m) = Ok (SUCCESS, sent) /\
  source (message_packet sent) = source (message_packet m) /\
  destination (message_packet sent) = destination (message_packet m) /\
  datagram_with id m PLV2_FRAGMENT (piece_length a plain)
    (sealing_of_piece a (message_id m) next n total plain) (packet_data (message_packet sent)).
Proof.
  intros Hr Ha Hk Hka Hp Hsd Hx He Hc Hl.
  pose proof (piece_as_it_is _ _ _ _ _ _ He Hx) as Hsame.
  assert (get_type e = PLV2_FRAGMENT) as Et.
  { destruct He as [[K1 K2] _ _ _ _ _]. unfold get_type. by rewrite K1, K2. }
  unfold Message.add_payload. rewrite Hp, Hsame. cbn [set_first_payload payloads]. rewrite Hp. cbn [app].
  set (m1 := set_payloads [e] (set_first_payload (get_type e) m)).
  assert (ready id r m1) as Hr1.
  { destruct Hr as [Ho ? ? ? ? ?]. split; try done. destruct Ho; by split. }
  assert (ordered r m1 = set_first_payload (get_type e) (set_payloads [e] m1)) as Eo.
  { unfold ordered. change (sort_disabled m1) with (sort_disabled m). rewrite Hsd, order_payloads_arrange.
    change (payloads m1) with [e]. rewrite arrange_one. cbn [add_all fold_left].
    unfold Message.add_payload. cbn [set_payloads payloads set_first_payload app]. by rewrite Hsame. }
  assert (wrap_payloads r (set_first_payload (get_type e) (set_payloads [e] (set_rule (Some r) m1)))
          = (e, taken (get_type e) r m1)) as Ew.
  { unfold wrap_payloads. cbn [set_first_payload set_payloads payloads List.filter]. rewrite Et. done. }
  destruct (generate_message_ready heap k id r a m1 (get_type e) [e] e Hr1 Hk Hka Eo Ew)
    as (g & Eg & Cg & Og & Lg); [by rewrite Et|].
  unfold Message.generate. rewrite Eg. cbn [bind]. rewrite decide_True by done. rewrite Et in Og.
  destruct (finalize_sealed heap (Some k) id (taken (get_type e) r m1) a e g PLV2_FRAGMENT (piece_length a plain)
    (sealing_of_piece a (message_id m) next n total plain)) as (e' & data & -> & Hd); try done.
  - destruct Hr1 as [Ho _ _ _ _ _]. destruct Ho; by split.
  - apply Hr1.
  - unfold piece_length in *. pose proof (len_nonneg plain). lia.
  - by apply piece_seals.
  - eexists. split; [done|]. split; [done|]. split; [done|]. exact Hd.
Qed.

(** * Splitting *)

Section Split.

Variable heap : Z -> Z.
Variable use_aggressive : bool.
Variable k : keymat.
Variable id : ike_sa_id.
Variable r : message_rule.
Variable a : aead.
Hypothesis a_seals : seals a.
Hypothesis k_version : get_version k <> IKEV1.
Hypothesis k_aead : get_aead k false = Some a.

(** The datagram with the fragment [n] of [total]. *)
Record piece_packet (this : message) (next total n : Z) (c : chunk) (pkt : packet) : Prop := {
  pp_ends : is_Some (source pkt) /\ is_Some (destination pkt);
  pp_octets : bytes_ok c /\ piece_length a c < 2 ^ 16;
  pp_data : exists m, ready id r m /\ alike this m /\
    datagram_with id m PLV2_FRAGMENT (piece_length a c)
      (sealing_of_piece a (message_id m) next n total c) (packet_data pkt);
}.

Fixpoint pieces_sent (this : message) (next total n : Z) (cs : list chunk) (pkts : list packet) : Prop :=
  match cs, pkts with
  | [], [] => True
  | c :: cs, pkt :: pkts =>
      piece_packet this next total n c pkt /\ pieces_sent this next total (n + 1) cs pkts
  | _, _ => False
  end.

Lemma create_fragment_piece this next n count c : ready id r this -> payloads this = [] ->
  exists m, create_fragment use_aggressive next n count c this
    = Ok (Message.add_payload (create_piece next n count c) m, this) /\
  ready id r m /\ alike this m /\ payloads m = [] /\ sort_disabled m = false.
Proof.
  intros Hr Hp. destruct (clone_alike id r this Hr) as (m & E & H). exists m. split; [|exact H].
  unfold create_fragment, create_piece. rewrite E. cbn [bind].
  destruct (out_version _ _ (ready_out _ _ _ Hr)) as [-> _]. cbn [Z.eqb Pos.eqb IKEV1_MAJOR_VERSION].
  destruct (n =? 1); [|done]. rewrite Hp. cbn [List.filter fold_left]. do 2 f_equal.
  destruct this; cbn in *; by subst.
Qed.

Lemma overhead_bounds n : 0 < get_block_size a <= 256 -> 0 <= get_iv_size a -> 0 <= get_icv_size a ->
  0 <= n -> 0 < compute_overhead a n <= 256 + get_iv_size a + get_icv_size a.
Proof.
  intros Hb Hi Hc Hn. unfold compute_overhead. pose proof (Z.mod_pos_bound n (get_block_size a)). lia.
Qed.

Lemma split_loop_pieces this next count frag_len : ready id r this -> payloads this = [] ->
  0 < get_block_size a <= 256 -> 0 <= get_iv_size a -> 0 <= get_icv_size a ->
  0 < next < 256 -> count < 2 ^ 16 -> 0 < frag_len ->
  frag_len + 264 + get_iv_size a + get_icv_size a < 2 ^ 16 ->
  forall more n data, bytes_ok data -> len data <= Z.of_nat more * frag_len -> 1 <= n ->
  n + Z.of_nat more = count + 1 ->
  exists pkts cs, split_loop heap use_aggressive (Some k) next count frag_len more n data this
    = Ok (SUCCESS, this, pkts) /\
  concat cs = data /\ length cs = more /\ Forall (fun c => len c <= frag_len) cs /\
  pieces_sent this next count n cs pkts.
Proof.
  intros Hr Hp Hb Hi Hc Hx Hct Hf Hs. induction more as [|more IH]; intros n data Ho Hl Hn Hm.
  { exists [], []. split_and!; try done. pose proof (len_nonneg data). symmetry. apply len_zero_inv. lia. }
  cbn [split_loop]. set (l := Z.min (len data) frag_len). set (c := take (Z.to_nat l) data).
  pose proof (len_nonneg data) as H0.
  assert (len c = l) as Hlc.
  { unfold c. rewrite len_take; unfold l; lia. }
  destruct (create_fragment_piece this next n count c Hr Hp) as (m & -> & Hrm & Ham & Hpm & Hsm). cbn [bind].
  pose proof (overhead_bounds (len c) Hb Hi Hc (len_nonneg c)) as Hov.
  assert (piece_length a c < 2 ^ 16) as Hpl by (unfold piece_length; lia).
  destruct (generate_piece_message heap k id r a m next n count c (create_piece next n count c))
    as (sent & -> & Hsrc & Hdst & Hd); try done; [|lia|].
  { apply create_piece_piece; lia. }
  cbn [bind]. rewrite decide_True by done.
  destruct (IH (n + 1) (drop (Z.to_nat l) data)) as (pkts & cs & -> & Hcs & Hlen & Hle & Hsent);
    [auto with chunk|rewrite len_drop by lia; lia|lia|lia|].
  cbn [bind]. rewrite decide_True by done.
  exists (message_packet sent :: pkts), (c :: cs). split; [done|].
  split; [cbn; rewrite Hcs; apply take_drop|]. split; [cbn; congruence|].
  split; [constructor; [lia|exact Hle]|]. split; [|exact Hsent].
  split; [rewrite Hsrc, Hdst; apply Hrm|split; [unfold c; auto with chunk|done]|by exists m].
Qed.

Lemma split_pieces this next frag_len data : ready id r this -> payloads this = [] ->
  0 < get_block_size a <= 256 -> 0 <= get_iv_size a -> 0 <= get_icv_size a ->
  0 < next < 256 -> 0 < frag_len -> frag_len + 264 + get_iv_size a + get_icv_size a < 2 ^ 16 ->
  bytes_ok data -> len data <= MAX_FRAGMENTS * frag_len ->
  exists pkts cs, split heap use_aggressive (Some k) next frag_len data this = Ok (SUCCESS, this, pkts) /\
  concat cs = data /\ Z.of_nat (length cs) <= MAX_FRAGMENTS /\ Forall (fun c => len c <= frag_len) cs /\
  pieces_sent this next (Z.of_nat (length cs)) 1 cs pkts.
Proof.
  intros Hr Hp Hb Hi Hc Hx Hf Hs Ho Hl. unfold split. pose proof (len_nonneg data) as H0.
  set (count := len data / frag_len + (if len data mod frag_len =? 0 then 0 else 1)).
  pose proof (Z.div_mod (len data) frag_len ltac:(lia)) as Hdm.
  pose proof (Z.mod_pos_bound (len data) frag_len Hf) as Hmod.
  assert (0 <= len data / frag_len) as Hd0 by (apply Z.div_pos; lia).
  assert (0 <= count <= MAX_FRAGMENTS /\ len data <= count * frag_len) as [Hcount Hle].
  { unfold count, MAX_FRAGMENTS in *. destruct (len data mod frag_len =? 0) eqn:E; nia. }
  assert (u16 count = count) as -> by (apply (wrap_small 16); unfold MAX_FRAGMENTS in *; lia).
  rewrite (proj2 (Z.eqb_neq _ _)) by (unfold MAX_FRAGMENTS in *; lia).
  destruct (split_loop_pieces this next count frag_len Hr Hp Hb Hi Hc Hx) with (more := Z.to_nat count)
    (n := 1) (data := data) as (pkts & cs & E & Hcs & Hlen & Hfl & Hsent); try done;
    [unfold MAX_FRAGMENTS in *; lia|lia|lia|].
  exists pkts, cs. split; [exact E|]. split; [done|]. rewrite Hlen, Z2Nat.id by lia. split; [lia|done].
Qed.

End Split.

(** * Receiving *)

(** A datagram as the task manager takes it ([handle_fragment] of task_manager_v2.c): the message
    that was accepted with it, if any, and what waits for more fragments. *)
Definition receive_packet (accept : bool) (k : keymat) (max : Z) (pkt : packet) (d : option defrag)
    : result (option message * option defrag) :=
  let* '(s, m) := parse_header (message_create_from_packet pkt) in
  if decide (s <> SUCCESS) then Ok (None, d) else
  let* '(s, m) := parse_body accept (Some k) m in
  if decide (s <> SUCCESS) then Ok (None, d) else
  match get_payload PLV2_FRAGMENT m with
  | None => Ok (Some m, d)
  | Some _ =>
      let* d := match d with Some d => Ok (Some d) | None => message_create_defrag max m end in
      match d with
      | None => Ok (None, None)
      | Some d =>
          let* '(s, _, d) := add_fragment_v2 (get_aead k true) m d in
          if decide (s = SUCCESS) then
            let* '(s, m) := parse_body accept (Some k) (whole d) in
            Ok (if decide (s = SUCCESS) then Some m else None, None)
          else Ok (None, Some d)
      end
  end.

Fixpoint receive_all (accept : bool) (k : keymat) (max : Z) (pkts : list packet) (d : option defrag)
    : result (list message * option defrag) :=
  match pkts with
  | [] => Ok ([], d)
  | pkt :: pkts =>
      let* '(m, d) := receive_packet accept k max pkt d in
      let* '(ms, d) := receive_all accept k max pkts d in
      Ok (option_list m ++ ms, d)
  end.

Lemma receive_all_app accept k max ps : forall qs d,
  receive_all accept k max (ps ++ qs) d =
  (let* '(ms, d) := receive_all accept k max ps d in
   let* '(ms', d) := receive_all accept k max qs d in Ok (ms ++ ms', d)).
Proof.
  induction ps as [|p ps IH]; intros qs d; cbn [app receive_all bind].
  - by destruct (receive_all accept k max qs d) as [[ms d']| | |].
  - destruct (receive_packet accept k max p d) as [[m d1]| | |]; cbn [bind]; try done. rewrite IH.
    destruct (receive_all accept k max ps d1) as [[ms d2]| | |]; cbn [bind]; try done.
    destruct (receive_all accept k max qs d2) as [[ms' d3]| | |]; cbn [bind]; try done. by rewrite app_assoc.
Qed.

Lemma pieces_sent_lookup id r a this next total cs : forall i pkts n pkt,
  pieces_sent id r a this next total n cs pkts -> pkts !! i = Some pkt ->
  exists c, cs !! i = Some c /\ piece_packet id r a this next total (n + Z.of_nat i) c pkt.
Proof.
  induction cs as [|c cs IH]; intros i [|q pkts] n pkt; cbn [pieces_sent]; try done.
  intros [H Hs]. destruct i as [|i]; cbn.
  - intros [= <-]. exists c. by rewrite Z.add_0_r.
  - intros Hi. destruct (IH i pkts (n + 1) pkt Hs Hi) as (x & E & Hx). exists x. split; [done|].
    by replace (n + Z.of_nat (S i)) with (n + 1 + Z.of_nat i) by lia.
Qed.

Lemma pieces_sent_length id r a this next total cs : forall pkts n,
  pieces_sent id r a this next total n cs pkts -> length pkts = length cs.
Proof.
  induction cs as [|c cs IH]; intros [|q pkts] n; cbn [pieces_sent]; try done.
  intros [_ Hs]. cbn. f_equal. by eapply IH.
Qed.

Lemma message_create_defrag_v2 max m p x : get_payload PLV2_FRAGMENT m = Some p ->
  major_version m = 2 -> clone_message m = Ok x ->
  message_create_defrag max m
    = Ok (Some (Defrag (set_parser None x) None (Some (FragmentData 0 0 (u64 max))))).
Proof.
  intros Hp Hm Hx. unfold message_create_defrag. rewrite Hp, Hm, Hx.
  by destruct (get_payload PLV1_FRAGMENT m).
Qed.

Section Receive.

Variable accept : bool.
Variable k : keymat.
Variable id : ike_sa_id.
Variable r : message_rule.
Variables a a' : aead.
Variable this : message.
Variables next max : Z.
Variable cs : list chunk.
Variable pkts : list packet.

Hypothesis this_ready : ready id r this.
Hypothesis opened_by : opens a a'.
Hypothesis k_version : get_version k <> IKEV1.
Hypothesis k_aead : get_aead k true = Some a'.
Hypothesis next_range : 0 < next < 256.
Hypothesis number_limit : Z.of_nat (length cs) <= MAX_FRAGMENTS.
Hypothesis length_limit : len (concat cs) <= max /\ max < 2 ^ 64.
Hypothesis sent : pieces_sent id r a this next (Z.of_nat (length cs)) 1 cs pkts.

Let total : Z := Z.of_nat (length cs).

Lemma sent_lookup i pkt : pkts !! i = Some pkt -> exists c, cs !! i = Some c /\
  piece_packet id r a this next total (1 + Z.of_nat i) c pkt.
Proof. intros Hi. eapply pieces_sent_lookup; [exact sent|exact Hi]. Qed.

(** The message for what is received of [this]. *)
Record received_base (w : message) : Prop := {
  base_alike : exchange_type w = exchange_type this /\ is_request w = is_request this /\
    message_id w = message_id this /\ major_version w = 2;
  base_id : sa_id w = Some (IkeSaId 2 (initiator_spi id) (responder_spi id) (is_initiator_flag id));
  base_empty : payloads w = [] /\ message_parser w = None;
}.

Lemma clone_received m :
  exchange_type m = exchange_type this /\ is_request m = is_request this /\
  message_id m = message_id this /\ major_version m = 2 ->
  sa_id m = Some (IkeSaId 2 (initiator_spi id) (responder_spi id) (is_initiator_flag id)) ->
  is_Some (source (message_packet m)) -> is_Some (destination (message_packet m)) ->
  exists x, clone_message m = Ok x /\ received_base (set_parser None x).
Proof.
  intros (X1 & X2 & X3 & X4) Xid [src Hsrc] [dst Hdst]. unfold clone_message. rewrite Xid, Hsrc, Hdst.
  eexists. split; [reflexivity|]. split; [|done|done]. cbn. rewrite X1, X2, X3, X4.
  split_and!; try done. unfold u32. apply wrap_small. apply this_ready.
Qed.

Lemma receive_piece i pkt : pkts !! i = Some pkt ->
  exists head m, parse_header (message_create_from_packet pkt) = Ok (SUCCESS, head) /\
  parse_body accept (Some k) head = Ok (SUCCESS, m) /\
  carries cs (message_id this) next (1 + Z.of_nat i) m /\ is_Some (get_payload PLV2_FRAGMENT m) /\
  exists d, message_create_defrag max m = Ok (Some d) /\
    exists w, received_base w /\ assembling cs next max w [] d.
Proof.
  intros Hi. destruct (sent_lookup i pkt Hi) as (c & Hc & [[[src Hsrc] [dst Hdst]] [Ho Hl] (m0 & Hr & Ham & Hd)]).
  pose proof (lookup_lt_Some _ _ _ Hc) as Hlt.
  destruct (parse_piece_message accept k id r a a' m0 next (1 + Z.of_nat i) total c pkt Hr opened_by k_version k_aead)
    as (head & m & Eh & Eb & [(X1 & X2 & X3 & X4 & X5 & X6) Xid Xp (p & enc & Xpl & Hpc)]); try done;
    [unfold total; lia|unfold total, MAX_FRAGMENTS in *; lia|].
  destruct Ham as (Y1 & Y2 & Y3 & Y4 & Y5 & _).
  exists head, m. split; [done|]. split; [done|].
  pose proof Hpc as [[K1 K2] N F [M T] P E].
  assert (get_type p = PLV2_FRAGMENT) as Et by (unfold get_type; by rewrite K1, K2).
  assert (get_payload PLV2_FRAGMENT m = Some p) as Ep.
  { unfold get_payload. rewrite Xpl. cbn. by rewrite Et. }
  split.
  { split; [|congruence|rewrite Xp; by eauto]. exists p. split_and!; try done.
    - rewrite P. by apply number_lookup.
    - intros H1. unfold get_next_type. rewrite K1, N, H1. done. }
  split; [by rewrite Ep|].
  destruct (clone_received m) as (x & Ex & Hx); try done; [split_and!; congruence|by rewrite Xp; eauto|by rewrite Xp; eauto|].
  rewrite (message_create_defrag_v2 max m p x Ep X4 Ex). eexists. split; [done|].
  pose proof (len_nonneg (concat cs)) as H0.
  assert (u64 max = max) as -> by (unfold u64; apply wrap_small; lia).
  exists (set_parser None x). split; [exact Hx|]. split; cbn [whole fragments frag].
  - exists (first_payload x). split; [by destruct x|]. intros H. by apply elem_of_nil in H.
  - done.
  - assert (kept [] (number 1 cs) = []) as ->; [|done]. generalize (number 1 cs). clear.
    induction l as [|f fs IH]; [done|]. rewrite kept_cons, decide_False; [done|]. apply not_elem_of_nil.
Qed.

Lemma pkts_inj i j pkt : pkts !! i = Some pkt -> pkts !! j = Some pkt -> i = j.
Proof.
  intros Hi Hj. destruct (receive_piece i pkt Hi) as (h & m & Eh & Em & Cm & _).
  destruct (receive_piece j pkt Hj) as (h' & m' & Eh' & Em' & Cm' & _).
  rewrite Eh in Eh'. injection Eh' as <-. rewrite Em in Em'. injection Em' as <-.
  destruct Cm as [(p & E & _ & N & _) _ _], Cm' as [(p' & E' & _ & N' & _) _ _].
  rewrite E in E'. injection E' as <-. lia.
Qed.

(** What waits when the fragments in [got] were received. *)
Definition waiting (got : list Z) (d : option defrag) : Prop :=
  match d with
  | None => got = []
  | Some d => exists w, received_base w /\ assembling cs next max w got d
  end.

Lemma receive_one got d i pkt : waiting got d -> complete cs got = false -> pkts !! i = Some pkt ->
  if complete cs (1 + Z.of_nat i :: got) then
    exists w whole, received_base w /\ reassembled_of cs next w whole /\
    receive_packet accept k max pkt d =
      (let* '(s, m) := parse_body accept (Some k) whole in
       Ok (if decide (s = SUCCESS) then Some m else None, None))
  else exists d' got', receive_packet accept k max pkt d = Ok (None, Some d') /\ waiting got' (Some d') /\
    forall n, n ∈ got' <-> n ∈ 1 + Z.of_nat i :: got.
Proof.
  intros Hw Hc Hi. destruct (receive_piece i pkt Hi) as (head & m & Eh & Eb & Hm & [p Hp] & d0 & Ed0 & w0 & Hb0 & Ha0).
  unfold receive_packet. rewrite Eh. cbn [bind]. rewrite decide_False by tauto. rewrite Eb. cbn [bind].
  rewrite decide_False by tauto. rewrite Hp.
  assert (exists d1 w, match d with Some d => Ok (Some d) | None => message_create_defrag max m end = Ok (Some d1) /\
    received_base w /\ assembling cs next max w got d1) as (d1 & w & -> & Hb & Ha).
  { destruct d as [d|]; cbn in Hw.
    - destruct Hw as (w & Hb & Ha). by exists d, w.
    - subst got. by exists d0, w0. }
  cbn [bind].
  destruct (add_piece (get_aead k true) cs (message_id this) next max number_limit length_limit w got d1
    (1 + Z.of_nat i) m Ha Hm) as (s & d2 & -> & H); [apply Hb|apply Hb|done|].
  cbn [bind]. destruct (complete cs (1 + Z.of_nat i :: got)).
  - destruct H as [-> H]. rewrite decide_True by done. by exists w, (whole d2).
  - destruct H as [-> H]. rewrite decide_False by done. eexists _, _. split; [done|].
    split; [by exists w|]. intros n. case_decide; set_solver.
Qed.

Lemma complete_ext got got' : (forall n, n ∈ got' <-> n ∈ got) -> complete cs got' = complete cs got.
Proof.
  intros H. unfold complete. induction (number 1 cs) as [|f fs IH]; [done|]. cbn [forallb]. rewrite IH.
  f_equal. apply bool_decide_ext. apply H.
Qed.

Lemma complete_more got got' : (forall n, n ∈ got -> n ∈ got') -> complete cs got' = false -> complete cs got = false.
Proof.
  intros H Hc. apply not_true_is_false. rewrite complete_all. intros Hall. apply not_true_iff_false in Hc.
  apply Hc, complete_all. eapply Forall_impl; [exact Hall|]. cbn. intros f. apply H.
Qed.

(** While fragments are missing, no message is accepted. *)
Lemma receive_before before : forall js got d, Forall2 (fun pkt i => pkts !! i = Some pkt) before js ->
  waiting got d ->
  complete cs (((fun i => 1 + Z.of_nat i) <$> js) ++ got) = false ->
  exists d' got', receive_all accept k max before d = Ok ([], d') /\ waiting got' d' /\
  forall n, n ∈ got' <-> n ∈ ((fun i => 1 + Z.of_nat i) <$> js) ++ got.
Proof.
  induction before as [|pkt before IH]; intros js got d His Hw Hc.
  - apply Forall2_nil_inv_l in His as ->. exists d, got. split; [done|]. split; [done|]. by intros n.
  - apply Forall2_cons_inv_l in His as (i & js0 & Hi & His & ->). cbn [fmap list_fmap app] in Hc.
    assert (complete cs (1 + Z.of_nat i :: got) = false) as Hc1.
    { eapply complete_more; [|exact Hc]. intros n. set_solver. }
    assert (complete cs got = false) as Hc0 by (eapply complete_more; [|exact Hc1]; set_solver).
    pose proof (receive_one got d i pkt Hw Hc0 Hi) as H. rewrite Hc1 in H.
    destruct H as (d1 & got1 & E & Hw1 & Hg1). cbn [receive_all]. rewrite E. cbn [bind].
    destruct (IH js0 got1 (Some d1) His Hw1) as (d2 & got2 & E2 & Hw2 & Hg2).
    { rewrite <- Hc. apply complete_ext. intros n. rewrite !elem_of_cons, !elem_of_app, Hg1. set_solver. }
    exists d2, got2. rewrite E2. split; [done|]. split; [done|]. intros n. rewrite Hg2, elem_of_app, Hg1.
    cbn [fmap list_fmap app]. set_solver.
Qed.

Lemma numbers_of ps : ps ⊆ pkts -> exists js, Forall2 (fun pkt i => pkts !! i = Some pkt) ps js.
Proof.
  induction ps as [|p ps IH]; intros H; [by exists []|].
  destruct IH as (js & Hj); [set_solver|].
  assert (p ∈ pkts) as [j Hp]%list_elem_of_lookup by set_solver.
  exists (j :: js). by constructor.
Qed.

(** All numbers are there when all packets are. *)
Lemma complete_iff ps js : Forall2 (fun pkt i => pkts !! i = Some pkt) ps js ->
  complete cs ((fun i => 1 + Z.of_nat i) <$> js) = true <-> pkts ⊆ ps.
Proof.
  intros Hj. rewrite complete_all, Forall_forall.
  pose proof (pieces_sent_length _ _ _ _ _ _ _ _ _ sent) as Hlen. split.
  - intros H p Hp. apply list_elem_of_lookup in Hp as [i Hi].
    destruct (sent_lookup i p Hi) as (c & Hc & _). pose proof (number_lookup cs 1 i c Hc) as Hn.
    specialize (H _ Hn). cbn in H. apply list_elem_of_fmap in H as (j & Hij & Hjs).
    assert (j = i) as -> by lia. apply list_elem_of_lookup in Hjs as [q Hq].
    destruct (Forall2_lookup_r _ _ _ _ _ Hj Hq) as (p' & Hp' & Hp2). apply list_elem_of_lookup. exists q. congruence.
  - intros H f Hf. pose proof (number_range _ _ _ Hf) as Hr.
    set (i := Z.to_nat (frag_num f - 1)).
    destruct (lookup_lt_is_Some_2 pkts i) as [p Hp]; [unfold i; lia|].
    assert (p ∈ ps) as [q Hq]%list_elem_of_lookup by (apply H, list_elem_of_lookup; by exists i).
    destruct (Forall2_lookup_l _ _ _ _ _ Hj Hq) as (j & Hjq & Hpj).
    assert (j = i) as -> by (by eapply pkts_inj). apply list_elem_of_fmap. exists i.
    split; [unfold i; lia|]. apply list_elem_of_lookup. by exists q.
Qed.

(** The message is accepted with the datagram that makes the fragments complete, and not
    before. *)
Lemma receive_fragments before pkt : before ++ [pkt] ⊆ pkts -> ~ pkts ⊆ before -> pkts ⊆ before ++ [pkt] ->
  exists w whole, received_base w /\ reassembled_of cs next w whole /\
  receive_all accept k max (before ++ [pkt]) None =
    (let* '(s, m) := parse_body accept (Some k) whole in
     Ok (if decide (s = SUCCESS) then [m] else [], None)).
Proof.
  intros Hsub Hnot Hall. destruct (numbers_of before) as (js & Hj); [set_solver|].
  assert (pkt ∈ pkts) as [i Hi]%list_elem_of_lookup by set_solver.
  destruct (receive_before before js [] None Hj) as (d & got & E & Hw & Hg); [done| |].
  { rewrite app_nil_r. apply not_true_is_false. by rewrite (complete_iff before js Hj). }
  rewrite app_nil_r in Hg.
  assert (complete cs got = false) as Hc.
  { erewrite complete_ext; [|exact Hg]. apply not_true_is_false. by rewrite (complete_iff before js Hj). }
  pose proof (receive_one got d i pkt Hw Hc Hi) as H.
  assert (complete cs (1 + Z.of_nat i :: got) = true) as Hct.
  { rewrite (complete_ext ((fun i => 1 + Z.of_nat i) <$> js ++ [i])).
    - apply (complete_iff (before ++ [pkt])); [|done]. apply Forall2_app; [done|by repeat constructor].
    - intros n. rewrite fmap_app, elem_of_app, elem_of_cons, Hg. cbn. set_solver. }
  rewrite Hct in H. destruct H as (w & whole & Hb & Hr & Ep). exists w, whole. split; [done|]. split; [done|].
  rewrite receive_all_app, E. cbn [bind receive_all]. rewrite Ep.
  destruct (parse_body accept (Some k) whole) as [[s m]| | |]; cbn [bind]; try done. by case_decide.
Qed.

(** The text that was put together is parsed. *)
Lemma parse_whole w whole qs : received_base w -> reassembled_of cs next w whole ->
  Forall sendable qs -> of_bytes (concat cs) = encode_all (link PL_NONE qs) -> bytes_ok (concat cs) ->
  next = head_type PL_NONE qs -> concat cs <> [] -> link PL_NONE qs = link PL_NONE (sent_order r this) ->
  verify_message r this = true ->
  exists body, parse_body accept (Some k) whole = Ok (SUCCESS, body) /\ accepted r this body /\
  sa_id body = Some (IkeSaId 2 (initiator_spi id) (responder_spi id) (is_initiator_flag id)).
Proof.
  intros [(B1 & B2 & B3 & B4) Bid [B5 B6]] (e & -> & v & He) Hq Ht Ho Hn Hne El Hver.
  set (whole1 := set_first_payload _ _). unfold parse_body.
  rewrite (get_message_rule_ext whole1 this) by done. rewrite (ready_rule _ _ _ this_ready).
  set (m0 := set_rule (Some r) whole1). change (rule m0) with (Some r). cbv iota.
  assert (message_parser m0 = None) as Hpar by exact B6. rewrite Hpar. cbn [bind].
  rewrite bool_decide_eq_true_2 by done. cbn [negb]. unfold decrypt_payloads.
  change (payloads m0) with [e]. cbn [decrypt_loop].
  assert (class e = C_ENCRYPTED /\ type_ e = PLV2_ENCRYPTED /\ num "from_plain" e = 1 /\
    num "next_payload" e = head_type PL_NONE qs /\ bytes "encrypted" e = concat cs /\ elements e = [])
    as (K1 & K2 & M & N & T & E).
  { subst e. unfold encrypted_payload_create_from_plain. split_and!; repeat members; try done.
    rewrite <- Hn. unfold u8. apply wrap_small. change (2 ^ 8) with 256. lia. }
  assert (get_type e = PLV2_ENCRYPTED) as -> by (unfold get_type; by rewrite K1, K2).
  change (PLV2_ENCRYPTED =? PLV2_ENCRYPTED) with true. cbn [orb app].
  set (m1 := set_payloads [] m0). unfold decrypt_and_extract. rewrite k_aead.
  assert (message_parser m1 = None) as -> by exact B6. cbv iota zeta.
  unfold encrypted_method_decrypt. rewrite K1, K2, M. change (PLV2_ENCRYPTED =? PLV1_ENCRYPTED) with false.
  cbn [Z.eqb]. unfold decrypt_plain. rewrite T.
  rewrite (proj2 (Z.eqb_neq _ _)).
  2: { intros H. by apply len_zero_inv in H. }
  rewrite (encrypted_parse e (concat cs) qs) by (done || by rewrite K2). rewrite E. cbn [bind].
  rewrite decide_True by done. cbn [set_elements elements app].
  destruct (extract_link qs [] m1) as (f & Ex); [done|done|done|]. cbn [app] in Ex. rewrite Ex.
  cbn [bind]. rewrite bool_decide_eq_true_2 by done. cbn [negb].
  rewrite (verify_sent r this) by exact El. rewrite Hver. cbn [negb]. unfold check_hash.
  rewrite (proj2 (Z.eqb_neq _ _) k_version). cbn [negb bind].
  eexists. split; [done|]. split; [|exact Bid]. split_and!; done.
Qed.

End Receive.

(** * End to end *)

Lemma sent_order_permutation r this : sent_order r this ≡ₚ payloads this.
Proof. unfold sent_order. case_match; [done|]. apply arrange_permutation. Qed.

Lemma wraps_next_type qs e : wraps qs e -> get_next_type e = head_type PL_NONE qs.
Proof. intros [[K1 _] _ N _ _ _]. unfold get_next_type. by rewrite K1. Qed.

Lemma ready_taken id r f this : ready id r this -> ready id r (taken f r this).
Proof. intros [[] ? ? ? ? ?]. split; try done. Qed.

Lemma pieces_sent_alike id r a this this' next total cs :
  (forall m, alike this m -> alike this' m) -> forall pkts n,
  pieces_sent id r a this next total n cs pkts -> pieces_sent id r a this' next total n cs pkts.
Proof.
  intros H. induction cs as [|c cs IH]; intros [|pkt pkts] n; cbn [pieces_sent]; try done.
  intros [[P1 P2 (m & Q1 & Q2 & Q3)] Hs]. split; [|auto]. split; [done|done|]. exists m. auto.
Qed.

Lemma fragment_space_bounds a src dst frag_len : 0 < get_block_size a -> 0 <= get_iv_size a ->
  0 <= get_icv_size a -> 0 <= frag_len <= 65000 ->
  1 <= fragment_space a (datagram_space src dst frag_len) <= 65000.
Proof.
  intros Hb Hi Hc Hf. unfold fragment_space, datagram_space, REDUCE_FRAG_LEN, round_down.
  match goal with |- context [Z.max 1 (?x - ?x mod _ - 1)] => set (n := x) end.
  assert (n <= 65000) as Hn by (subst n; repeat case_match; lia).
  pose proof (Z.mod_pos_bound n (get_block_size a) Hb). lia.
Qed.

(** A message that was not split. *)
Lemma receive_single accept k' id r a a' this max pkt before p : protected id r a this -> opens a a' ->
  get_version k' <> IKEV1 -> get_aead k' true = Some a' -> verify_message r this = true ->
  datagram_of id r a this (packet_data p) ->
  before ++ [pkt] ⊆ [p] -> ~ [p] ⊆ before ->
  exists body, receive_all accept k' max (before ++ [pkt]) None = Ok ([body], None) /\
  accepted r this body /\
  sa_id body = Some (IkeSaId 2 (initiator_spi id) (responder_spi id) (is_initiator_flag id)).
Proof.
  intros Hp Hop Hk Hka Hver Hd Hsub Hnot. assert (before = []) as ->.
  { destruct before as [|q before]; [done|]. exfalso. apply Hnot.
    assert (q = p) as -> by (apply list_elem_of_singleton, Hsub; by left).
    intros x ->%list_elem_of_singleton. by left. }
  assert (pkt = p) as -> by (apply list_elem_of_singleton, Hsub; by left). cbn [app receive_all].
  destruct p as [src dst data].
  destruct (parse_protected accept k' id r a a' this data src dst Hp Hop Hk Hka Hver Hd)
    as (head & body & Eh & Eb & Hacc & Hid).
  exists body. unfold receive_packet. rewrite Eh. cbn [bind]. rewrite decide_False by tauto. rewrite Eb.
  cbn [bind]. rewrite decide_False by tauto.
  assert (get_payload PLV2_FRAGMENT body = None) as ->; [|done].
  destruct Hacc as (_ & _ & _ & _ & Hpl). unfold get_payload. rewrite Hpl.
  assert (Forall sendable (link PL_NONE (sent_order r this))) as Hs.
  { apply link_sendable; [done|]. apply sent_order_sendable, Hp. }
  clear -Hs. induction Hs as [|q qs Hq _ IH]; [done|]. cbn [find].
  destruct (sendable_type q Hq) as [-> _]. by rewrite (proj2 (Z.eqb_neq _ _) (proj2 (sendable_plain q Hq))).
Qed.

(** ** Sizes *)

Lemma datagram_length id this t n sealing data :
  datagram_with id this t n sealing data ->
  (forall assoc body, sealing assoc body -> Z.of_nat (length body) = 8 * n) -> len data = 28 + n.
Proof. intros (_ & assoc & body & _ & _ & Hs & _ & Hl) H. rewrite (H _ _ Hs) in Hl. lia. Qed.

Lemma sealed_body_length a a' mid qs assoc body : opens a a' -> Forall sendable qs ->
  sealing_of a mid qs assoc body -> Z.of_nat (length body) = 8 * sealed_length a qs.
Proof.
  intros Hop Hq (plain & encrypted & Hp1 & Hp2 & Ec & ->). rewrite sealed_bits_length.
  destruct (content_roundtrip a a' _ plain _ encrypted Hop Hp2 Ec) as (Hl & _ & _).
  pose proof (plain_length plain _ (link_sendable PL_NONE qs ltac:(done) Hq) Hp1) as Hpl.
  rewrite total_length_link in Hpl. unfold sealed_length. rewrite Hl, Hpl. lia.
Qed.

Lemma piece_body_length a a' mid next n total c assoc body : opens a a' -> bytes_ok c ->
  sealing_of_piece a mid next n total c assoc body -> Z.of_nat (length body) = 8 * piece_length a c.
Proof.
  intros Hop Ho (encrypted & Ec & ->). rewrite piece_bits_length.
  destruct (content_roundtrip a a' _ c _ encrypted Hop Ho Ec) as (Hl & _ & _).
  unfold piece_length. lia.
Qed.

(** A fragment with padding fills at most the blocks there is space for. *)
Lemma padded_fits bs n l : 0 < bs -> Z.max 2 bs <= n -> 0 <= l <= Z.max 1 (round_down n bs - 1) ->
  l + (bs - l mod bs) <= n.
Proof.
  intros Hb Hn Hl. unfold round_down in Hl.
  pose proof (Z.div_mod n bs ltac:(lia)) as Hdn. pose proof (Z.mod_pos_bound n bs Hb) as Hmn.
  pose proof (Z.div_mod l bs ltac:(lia)) as Hdl. pose proof (Z.mod_pos_bound l bs Hb) as Hml.
  assert (0 < n / bs) as Hq by (apply Z.div_str_pos; lia).
  assert (2 <= bs * (n / bs)) as H2.
  { destruct (decide (bs = 1)) as [->|]; [rewrite Z.div_1_r; lia|nia]. }
  assert (l / bs <= n / bs - 1) as Hle.
  { apply Z.lt_le_pred. apply Z.div_lt_upper_bound; lia. }
  nia.
Qed.

(** There is space for a block in a fragment. *)
Definition roomy (a : aead) (n : Z) : Prop :=
  36 + get_iv_size a + get_icv_size a + Z.max 2 (get_block_size a) <= n.

Lemma piece_fits a n c : 0 < get_block_size a -> 0 <= get_iv_size a -> 0 <= get_icv_size a ->
  roomy a n -> len c <= fragment_space a n -> 28 + piece_length a c <= n.
Proof.
  intros Hb Hi Hc Hr Hl. unfold roomy, fragment_space, REDUCE_FRAG_LEN in *.
  rewrite (Z.max_r 1 (n - 28)) in Hl by lia. rewrite (Z.max_r 1 (n - 28 - get_iv_size a)) in Hl by lia.
  rewrite (Z.max_r 1 (n - 28 - get_iv_size a - get_icv_size a)) in Hl by lia.
  rewrite (Z.max_r 1 (n - 28 - get_iv_size a - get_icv_size a - 8)) in Hl by lia.
  pose proof (len_nonneg c).
  pose proof (padded_fits (get_block_size a) (n - 28 - get_iv_size a - get_icv_size a - 8) (len c)
    Hb ltac:(lia) ltac:(lia)).
  unfold piece_length, compute_overhead. lia.
Qed.

Lemma pieces_fit id r a a' this next total n cs : opens a a' -> roomy a n -> forall pkts i,
  Forall (fun c => len c <= fragment_space a n) cs -> pieces_sent id r a this next total i cs pkts ->
  Forall (fun pkt => len (packet_data pkt) <= n) pkts.
Proof.
  intros Hop Hr. induction cs as [|c cs IH]; intros [|pkt pkts] i Hcs; cbn [pieces_sent]; try done.
  inversion_clear Hcs as [|? ? Hc Hcs']. intros [[_ [Ho _] (m & _ & _ & Hd)] Hs]. constructor; [|by eapply IH].
  rewrite (datagram_length _ _ _ _ _ _ Hd) by (intros assoc body; by eapply piece_body_length).
  pose proof Hop as [[Hb _] (_ & _ & _ & Hi & Hic) _ _ _ _ _]. by apply piece_fits.
Qed.

(** C10: However a message of IKE_AUTH, CREATE_CHILD_SA or INFORMATIONAL is split for the size of
    datagrams that is set, and in whatever order its datagrams come, some of them more than once,
    the peer accepts nothing before the last one that was missing came, and then exactly the
    message: its exchange, direction, message ID and SPIs, and its payloads in the order of the
    exchange. This is for a message as in [message_roundtrip] ([protected]) that needs no more
    than [MAX_FRAGMENTS] fragments, which [fragment] does not make sure of, and whose text is
    not longer than the peer's [max_packet]. No datagram is longer than was set if a fragment
    of that size has space for a block of the cipher ([roomy]); otherwise they may be. *)
Theorem fragmented_roundtrip heap use_aggressive accept (k k' : keymat) (id : ike_sa_id)
    (r : message_rule) (a a' : aead) (this : message) (frag_len max : Z) (src dst : host_t) :
  protected id r a this -> payloads this <> [] -> packet_data (message_packet this) = [] ->
  source (message_packet this) = Some src -> destination (message_packet this) = Some dst ->
  seals a -> opens a a' ->
  get_version k <> IKEV1 -> get_aead k false = Some a ->
  get_version k' <> IKEV1 -> get_aead k' true = Some a' ->
  verify_message r this = true ->
  0 <= frag_len <= 65000 -> get_iv_size a + get_icv_size a <= 255 ->
  total_length (payloads this) <= MAX_FRAGMENTS * fragment_space a (datagram_space src dst frag_len) ->
  total_length (payloads this) <= max -> max < 2 ^ 64 ->
  exists sent pkts, Fragments.fragment heap use_aggressive (Some k) frag_len this = Ok (SUCCESS, sent, pkts) /\
  (roomy a (datagram_space src dst frag_len) ->
   Forall (fun pkt => len (packet_data pkt) <= datagram_space src dst frag_len) pkts) /\
  forall before pkt, before ++ [pkt] ⊆ pkts -> ~ pkts ⊆ before -> pkts ⊆ before ++ [pkt] ->
  exists body, receive_all accept k' max (before ++ [pkt]) None = Ok ([body], None) /\
  accepted r this body /\
  sa_id body = Some (IkeSaId 2 (initiator_spi id) (responder_spi id) (is_initiator_flag id)).
Proof.
  intros Hp Hne Hd Hsrc Hdst Ha Hop Hk Hka Hk' Hka' Hver Hf Hsz Hcount Hmax Hmax2.
  destruct (generate_message_protected heap k id r a this Hp Hk Hka) as (f & qs & e & g & Eg & U).
  unfold Fragments.fragment. rewrite Hsrc, Hdst. unfold is_encoded. rewrite Hd.
  change (negb (len [] =? 0)) with false. cbv iota zeta. rewrite Eg. cbn [bind]. rewrite decide_True by done.
  pose proof U as [W [Hq Hqf] [E1 E2] El Cg Og Lg]. pose proof Hp as [Hr Hs Hfo Hn].
  rewrite <- (sealed_length_same a _ _ El) in Hn.
  destruct (wraps_length a qs e W Hn) as (e1 & Ee & W1 & L1). pose proof W as [[K1 K2] M _ _ _ _].
  unfold encrypted_method_get_length. rewrite K1, M. cbn [Z.eqb]. rewrite Ee.
  rewrite orb_false_r. destruct (_ <=? datagram_space src dst frag_len) eqn:Efit.
  - destruct (finalize_protected heap (Some k) id r a this f qs e1 g Hp Ha) as (sent & -> & Hdat); [by split|].
    cbn [bind]. rewrite decide_True by done. exists sent, [message_packet sent]. split; [done|].
    split.
    { intros _. repeat constructor.
      rewrite (datagram_length _ _ _ _ _ _ Hdat).
      - rewrite <- (sealed_length_same a _ _ El). apply Z.leb_le in Efit.
        destruct (chunk_output g Cg) as [Eg2 _]. apply (f_equal length) in Eg2.
        rewrite length_of_bytes, Og, sent_header_length in Eg2 by (apply Hr || done). unfold len in *. lia.
      - intros assoc body Hb. rewrite <- (sealed_length_same a _ _ (sent_order_length r this)).
        eapply sealed_body_length; [done| |done]. apply sent_order_sendable, Hs. }
    intros before pkt Hsub Hnot Hall. by eapply receive_single.
  - destruct (out_version _ _ (ready_out _ _ _ Hr)) as [Hv _].
    change (major_version (taken f r this)) with (major_version this). rewrite Hv.
    cbn [Z.eqb Pos.eqb IKEV1_MAJOR_VERSION].
    destruct (generate_wraps heap qs e1 W1 Hq Hqf) as (plain & e2 & g2 & -> & Hp1 & Hp2 & W2).
    cbn [bind]. rewrite Hka. rewrite (wraps_next_type qs e1 W1).
    pose proof (plain_length plain _ (link_sendable PL_NONE qs ltac:(done) Hq) Hp1) as Hpl.
    rewrite total_length_link, El in Hpl.
    assert (qs <> []) as Hqne.
    { intros ->. apply (f_equal length) in E1. rewrite !link_length in E1. apply Hne, length_zero_iff_nil.
      rewrite <- (Permutation_length (sent_order_permutation r this)). by rewrite <- E1. }
    assert (0 < head_type PL_NONE qs < 256) as Hx.
    { destruct qs as [|q qs']; [done|]. inversion_clear Hq as [|? ? Hq1 _]. cbn.
      destruct (sendable_type q Hq1) as [-> ?]. done. }
    pose proof Hop as [Hb (Ho1 & Ho2 & Ho3 & Hi & Hc) _ _ _ _ _].
    pose proof (fragment_space_bounds a src dst frag_len ltac:(lia) Hi Hc Hf) as Hfs.
    destruct (split_pieces heap use_aggressive k id r a Ha Hk Hka (taken f r this) (head_type PL_NONE qs)
      (fragment_space a (datagram_space src dst frag_len)) plain) as (pkts & cs & E & Hcs & Hlen & Hfl & Hsent);
      try done; [by apply ready_taken|lia|lia|lia|].
    exists (taken f r this), pkts. split; [exact E|].
    split; [intros Hroom; by eapply pieces_fit|]. intros before pkt Hsub Hnot Hall. subst plain.
    apply (pieces_sent_alike _ _ _ _ this) in Hsent; [|done].
    destruct (receive_fragments accept k' id r a a' this (head_type PL_NONE qs) max cs pkts Hr Hop Hk' Hka' Hx Hlen
      ltac:(lia) Hsent before pkt Hsub Hnot Hall) as (w & whole & Hw & Hwh & ->).
    destruct (parse_whole accept k' id r a' this (head_type PL_NONE qs) cs Hr Hk' Hka' Hx w whole qs)
      as (body & -> & Hacc & Hid); try done.
    { intros Hnil. rewrite Hnil in Hpl. change (len []) with 0 in Hpl.
      destruct qs as [|q qs']; [done|]. inversion Hq as [|? ? Hq1 Hq2]; subst.
      rewrite <- El, total_length_cons in Hpl. destruct (sendable_sized q Hq1) as (S1 & Sl & l & rest & S2 & S3 & _).
      rewrite Sl in Hpl.
      pose proof (encode_all_length qs' Hq2). apply (f_equal length) in S3.
      rewrite !length_app, length_bits in S3. lia. }
    cbn [bind]. rewrite decide_True by done. by exists body.
Qed.

(** * An example *)

(** The message of [MessageSpec] in datagrams of at most 84 octets: three of them. *)
Definition example_packets : list packet :=
  match Fragments.fragment (fun _ => 0) false (Some example_keymat) 84 example_message with
  | Ok (_, _, pkts) => pkts
  | _ => []
  end.
Definition packet_at (i : nat) : packet := nth i example_packets (Packet None None []).

#[local] Instance host_eq_dec : EqDecision host_t.
Proof. solve_decision. Defined.
#[local] Instance packet_eq_dec : EqDecision packet.
Proof. solve_decision. Defined.

Lemma three_packets : example_packets = [packet_at 0; packet_at 1; packet_at 2].
Proof. vm_compute. reflexivity. Qed.

Lemma fragmented_roundtrip_witness :
  length example_packets = 3%nat /\
  exists body, receive_all false example_keymat PACKET_MAX_DEFAULT
    ([packet_at 2; packet_at 0; packet_at 2] ++ [packet_at 1]) None = Ok ([body], None) /\
  accepted example_rule example_message body /\
  sa_id body = Some (IkeSaId 2 [1; 2; 3; 4; 5; 6; 7; 8] [8; 7; 6; 5; 4; 3; 2; 1] true).
Proof.
  split; [vm_compute; reflexivity|].
  destruct (fragmented_roundtrip (fun _ => 0) false false example_keymat example_keymat example_id example_rule
    example_aead example_aead example_message 84 PACKET_MAX_DEFAULT
    (Host AF_INET [192; 0; 2; 1] 500) (Host AF_INET [192; 0; 2; 1] 500)) as (sent & pkts & E & _ & H).
  - exact example_protected.
  - vm_compute. discriminate.
  - reflexivity.
  - reflexivity.
  - reflexivity.
  - exact example_seals.
  - exact example_opens.
  - discriminate.
  - reflexivity.
  - discriminate.
  - reflexivity.
  - vm_compute; reflexivity.
  - lia.
  - vm_compute. discriminate.
  - vm_compute. discriminate.
  - vm_compute. discriminate.
  - reflexivity.
  - assert (pkts = example_packets) as Ep by (unfold example_packets; by rewrite E).
    apply H; rewrite Ep, three_packets.
    + apply (bool_decide_unpack _). vm_compute. exact I.
    + apply (bool_decide_unpack _). vm_compute. exact I.
    + apply (bool_decide_unpack _). vm_compute. exact I.
Defined.

(** * Fewer fragments in all *)

(** No payload at all is allowed, or which rule requires one. *)
Definition nothing_required (r : message_rule) : bool :=
  forallb (fun rule => min_occurrence rule <=? 0) (rule_list r).

Lemma verify_nothing (rules : list payload_rule) : Forall (fun rule => 0 <= max_occurrence rule) rules ->
  verify_loop rules false [] = forallb (fun rule => min_occurrence rule <=? 0) rules.
Proof.
  induction 1 as [|rule rules Hm _ IH]; [done|]. cbn [verify_loop forallb].
  change (count_type (rule_payload rule) []) with 0. rewrite Z.gtb_ltb, (proj2 (Z.ltb_ge _ _)) by done.
  cbn [negb andb orb Z.eqb]. rewrite IH. by destruct (Z.ltb_spec 0 (min_occurrence rule)), (Z.leb_spec (min_occurrence rule) 0); try lia.
Qed.

Lemma max_nonneg w r : get_message_rule w = Some r -> Forall (fun rule => 0 <= max_occurrence rule) (rule_list r).
Proof.
  unfold get_message_rule. intros [Hin _]%find_some.
  assert (forallb (fun r => forallb (fun rule => 0 <=? max_occurrence rule) (rule_list r)) message_rules = true) as F
    by (vm_compute; reflexivity).
  pose proof (proj1 (forallb_forall _ _) F r Hin) as Hr. apply Forall_forall. intros rule Hrule.
  apply Z.leb_le. exact (proj1 (forallb_forall _ _) Hr rule (proj1 (list_elem_of_In _ _) Hrule)).
Qed.

(** Text that is put together without the type of its first payload is not looked at. *)
Lemma headless_accepted accept k transform text w r :
  get_version k <> IKEV1 -> get_aead k true <> None ->
  payloads w = [] -> first_payload w = PL_NONE -> message_parser w = None ->
  get_message_rule w = Some r -> text <> [] ->
  exists body, parse_body accept (Some k) (put_reassembled transform text w)
    = Ok (if nothing_required r then SUCCESS else VERIFY_ERROR, body) /\ payloads body = [].
Proof.
  intros K1 K2 Hp Hf Hpar Hr Ht. unfold put_reassembled. rewrite Hp, Hf. cbn [app].
  set (e := snd (get_length_plain transform _)).
  assert (class e = C_ENCRYPTED /\ type_ e = PLV2_ENCRYPTED /\ num "from_plain" e = 1 /\
    num "next_payload" e = PL_NONE /\ bytes "encrypted" e = text /\ elements e = [])
    as (E1 & E2 & M & N & T & E).
  { subst e. unfold get_length_plain, encrypted_payload_create_from_plain. cbn [snd]. split_and!; repeat members; done. }
  clearbody e. change (payloads (set_payloads [e] w)) with [e]. cbv iota.
  set (w1 := set_first_payload _ _). unfold parse_body. rewrite (get_message_rule_ext w1 w) by done. rewrite Hr.
  set (m0 := set_rule (Some r) w1). change (rule m0) with (Some r). cbv iota.
  assert (message_parser m0 = None) as -> by exact Hpar. cbn [bind].
  rewrite bool_decide_eq_true_2 by done. cbn [negb]. unfold decrypt_payloads.
  change (payloads m0) with [e]. cbn [decrypt_loop].
  assert (get_type e = PLV2_ENCRYPTED) as -> by (unfold get_type; by rewrite E1, E2).
  change (PLV2_ENCRYPTED =? PLV2_ENCRYPTED) with true. cbn [orb app].
  set (m1 := set_payloads [] m0). unfold decrypt_and_extract. destruct (get_aead k true) as [a|]; [|done].
  assert (message_parser m1 = None) as -> by exact Hpar. cbv iota zeta.
  unfold encrypted_method_decrypt. rewrite E1, E2, M. change (PLV2_ENCRYPTED =? PLV1_ENCRYPTED) with false.
  cbn [Z.eqb]. unfold decrypt_plain. rewrite T.
  rewrite (proj2 (Z.eqb_neq _ _)) by (intros H; by apply len_zero_inv in H).
  unfold EncryptedPayload.parse. rewrite N. cbn [EncryptedPayload.parse_loop]. change (PL_NONE =? PL_NONE) with true. cbn [bind].
  rewrite decide_True by done. rewrite E. cbn [extract bind]. rewrite bool_decide_eq_true_2 by done. cbn [negb].
  unfold verify_message. change (payloads m1) with (@nil payload).
  rewrite verify_nothing by (by eapply max_nonneg). fold (nothing_required r).
  destruct (nothing_required r); cbn [negb]; [|by eexists].
  unfold check_hash. rewrite (proj2 (Z.eqb_neq _ _) K1). cbn [negb bind]. by eexists.
Qed.

(** C38: A fragment that says there are fewer fragments in all than those before it is put with
    them, and when there are as many as it says they are all merged: fragments of two ways of
    splitting a message, and in whatever is left of the first way, also without the first
    fragment. Then the type of the first payload is not known: whatever the text is, it is not
    looked at, and the outcome is an empty message, which is accepted if no rule of its
    exchange requires a payload, as for INFORMATIONAL, and refused otherwise. *)
Theorem smaller_total_merges (transform : option aead) (m : message) (p : payload) (d : defrag)
    (f : fragment_data_t) (fs before after : list fragment_t) (src dst : host_t) :
  frag d = Some f -> fragments d = Some fs -> get_payload PLV2_FRAGMENT m = Some p ->
  message_id (whole d) = message_id m ->
  num "total_fragments" p < frag_last f -> frag_last f <= MAX_FRAGMENTS ->
  num "fragment_number" p <> 1 -> find_place (num "fragment_number" p) fs = Some (before, after) ->
  Z.of_nat (length fs) + 1 = num "total_fragments" p ->
  0 <= frag_len f + len (bytes "plain" p) <= max_packet f -> max_packet f < 2 ^ 64 ->
  source (message_packet m) = Some src -> destination (message_packet m) = Some dst ->
  let text := (before ≫= frag_data) ++ bytes "plain" p ++ (after ≫= frag_data) in
  exists d', add_fragment_v2 transform m d = Ok (SUCCESS, m, d') /\
  whole d' = put_reassembled transform text
    (set_packet (Packet (Some src) (Some dst) (packet_data (message_packet (whole d)))) (whole d)) /\
  forall accept k r, get_version k <> IKEV1 -> get_aead k true <> None ->
    payloads (whole d) = [] -> first_payload (whole d) = PL_NONE -> message_parser (whole d) = None ->
    get_message_rule (whole d) = Some r -> text <> [] ->
    exists body, parse_body accept (Some k) (whole d')
      = Ok (if nothing_required r then SUCCESS else VERIFY_ERROR, body) /\ payloads body = [].
Proof.
  intros Hf Hfs Hp Hid Ht Hmax Hn Hpl Hc Hlen Hm64 Hsrc Hdst. unfold add_fragment_v2.
  rewrite Hf, Hp, Hid, Z.eqb_refl. cbn [negb]. rewrite (proj2 (Z.ltb_ge _ _)) by lia.
  rewrite Hfs, (proj2 (Z.ltb_ge _ _)) by lia. cbv zeta iota. unfold add_fragment. rewrite Hfs.
  change (default [] (Some fs)) with fs. rewrite Hpl. unfold with_frag. rewrite Hf.
  change (?g <$> Some ?x) with (Some (g x)). cbv beta iota. unfold set_len.
  cbn [frag frag_len frag_last max_packet].
  assert (u64 (frag_len f + len (bytes "plain" p)) = frag_len f + len (bytes "plain" p)) as ->.
  { unfold u64. apply wrap_small. lia. }
  rewrite (proj2 (Z.ltb_ge _ _)) by lia. rewrite decide_True by done. rewrite (proj2 (Z.eqb_neq _ _) Hn).
  unfold with_fragments. cbn [whole fragments frag]. unfold array_count. change (default [] (Some ?x)) with x.
  apply find_place_split in Hpl. subst fs.
  rewrite length_app in *. cbn [length]. rewrite (proj2 (Z.eqb_eq _ _)) by lia.
  unfold merge_fragments. rewrite Hsrc, Hdst. cbn [bind]. eexists. split; [done|].
  cbn [with_whole whole]. unfold fragments_data. cbn [fragments with_whole].
  change (default [] (Some ?x)) with x. rewrite bind_app. split; [done|].
  intros accept k r K1 K2 Hp0 Hf0 Hpar Hr Ht0. by apply headless_accepted.
Qed.

(** The last of three fragments, and then the last of two. *)
Definition example_defrag : defrag :=
  match receive_packet false example_keymat PACKET_MAX_DEFAULT (packet_at 2) None with
  | Ok (_, Some d) => d
  | _ => Defrag example_message None None
  end.
Definition example_second : message :=
  match receive_packet false example_keymat PACKET_MAX_DEFAULT (packet_at 2) None with
  | Ok (_, Some d) =>
      set_payloads [create_piece PLV2_NOTIFY 2 2 [1; 2; 3]]
        (set_packet (Packet example_host example_host []) (whole d))
  | _ => example_message
  end.
Definition example_text : chunk := [1; 2; 3] ++ (default [] (fragments example_defrag) ≫= frag_data).

Lemma smaller_total_merges_witness :
  (frag_num <$> default [] (fragments example_defrag), len example_text) = ([3], 8) /\
  exists d', add_fragment_v2 (Some example_aead) example_second example_defrag
     = Ok (SUCCESS, example_second, d') /\
  exists r body, get_message_rule (whole example_defrag) = Some r /\ rule_exchange_type r = INFORMATIONAL /\
    parse_body false (Some example_keymat) (whole d') = Ok (SUCCESS, body) /\ payloads body = [].
Proof.
  split; [vm_compute; reflexivity|].
  destruct (smaller_total_merges (Some example_aead) example_second (create_piece PLV2_NOTIFY 2 2 [1; 2; 3])
    example_defrag (FragmentData 3 5 PACKET_MAX_DEFAULT) (default [] (fragments example_defrag))
    [] (default [] (fragments example_defrag)) (Host AF_INET [192; 0; 2; 1] 500) (Host AF_INET [192; 0; 2; 1] 500))
    as (d' & E & _ & A).
  - vm_compute; reflexivity.
  - vm_compute; reflexivity.
  - vm_compute; reflexivity.
  - vm_compute; reflexivity.
  - vm_compute; reflexivity.
  - vm_compute; discriminate.
  - vm_compute; discriminate.
  - vm_compute; reflexivity.
  - vm_compute; reflexivity.
  - vm_compute; split; discriminate.
  - reflexivity.
  - vm_compute; reflexivity.
  - vm_compute; reflexivity.
  - exists d'. split; [exact E|].
    destruct (get_message_rule (whole example_defrag)) as [r|] eqn:Er; [|vm_compute in Er; discriminate Er].
    assert (nothing_required r = true /\ rule_exchange_type r = INFORMATIONAL) as [Rn Re]
      by (vm_compute in Er; injection Er as <-; vm_compute; split; reflexivity).
    destruct (A false example_keymat r) as (body & Eb & Hb).
    + discriminate.
    + discriminate.
    + vm_compute; reflexivity.
    + vm_compute; reflexivity.
    + vm_compute; reflexivity.
    + reflexivity.
    + vm_compute; discriminate.
    + exists r, body. rewrite Rn in Eb. split; [reflexivity|]. split; [exact Re|]. split; [exact Eb|exact Hb].
Defined.
